(* ===== verification/_CoqProject ===== *)
-Q . S2P
Prelude.v
Words.v
NumTheory.v
Gmp.v
QuadForm.v
FormClass.v
Integer.v
Forms.v
OrigForms.v
Lzcnt.v
Reducer.v
XgcdPartial.v
Nucomp.v
Bqfc.v
Pprods.v
Sha256.v
Lucas.v
PrimeTest.v
HashPrime.v
ProofCommon.v
Powers.v
Verifier.v
Steps.v
Segments.v
Prover.v
Callback.v
Provers.v
Vdf.v
Storage.v
FastGcd.v
FastThreads.v
FastStep.v
FastSquare.v
FastLoops.v
FastProof.v
FastPipeline.v
FastCorrect.v
Proving.v
Manager.v
Prove.v
HwQueue.v
HwRequests.v
HwValues.v
HwProver.v
HwDriver.v
HwClient.v
Session.v
