(* ===== verification/Prelude.v ===== *)
(** * chiavdf: a verification library

    chiavdf computes a verifiable delay function: T squarings of a class of
    binary quadratic forms of a negative discriminant D, and a short proof of the
    result (Wesolowski's, possibly in several segments) that anyone can
    check. This library models the C and C++ code under src/src, from the form
    arithmetic up to the proving service, and proves that what the provers
    write is what the verifier accepts and that what it accepts is a
    chain of equations in the class group.

    ** Reading the model

    Integers are [Z]; a machine word is the [Z] in its range with its wrap-around
    written out ([u64], [s64], ...). Code that can fail returns [res]: an
    exception of the sources, a failed assertion, GMP's trap, undefined
    behaviour, or [out_of_fuel], of the model only. Byte buffers are lists of
    bytes. The state of the threads is explicit: step relations for
    the interruptible prover, the event loop and the hardware client, and environments, which answer
    the reads of shared variables, for code that waits. GMP is the class [Gmp],
    whose laws [GmpLaws] state the documented behaviour and which [Ref.gmp] satisfies;
    the witnesses compute with that instance. More interfaces separate the
    components: [FormReducer] (the reduction of the provers), [Listener] (the callbacks of the
    main loop), [Squarer] (a batch of squarings), [AsmGcd] (the generated gcd), [StdSort] (std::sort), [Socket]
    and, as functions, ApproximateParameters and the intermediate forms.

    ** The parts

    Foundations. Prelude (this file): results, words, bytes, automation.
    NumTheory, Lucas: number theory. Gmp: the interface to GMP. Words:
    checked_cast.h, bit_manipulation.h, byte helpers of util.h. Integer:
    integer_common.h where it can fail.

    Forms. QuadForm and FormClass are the specification: equivalence, reduced
    forms, Gauss composition, the class group and its powers; [class D] is the
    set of valid primitive forms, [power D x n y] says that y is in the class of
    x^n. Forms: vdf_new.h (normalize, reduce, multiply, square). OrigForms:
    vdf_original.h, the independent implementation. XgcdPartial:
    xgcd_partial.c. Nucomp: nucomp.h. Lzcnt: refcode/lzcnt.c. Reducer: Reducer.h, whose passes on 64-bit
    approximations never overflow and keep the class. Their theorems state that each routine
    returns a composite of its operands, with its termination, exact
    divisions and reduced results. Powers collects the lemmas on [pw D x n y].

    Bytes and hashes. Bqfc: bqfc.c, the 100-byte format: every reduced form of a
    discriminant without square factors survives the round trip, and strict deserialization
    accepts canonical bytes only; the outputs that a failed check leaves written are kept. Sha256: picosha2.h against FIPS 180-4. Pprods, PrimeTest:
    pprods.h and primetest.h. HashPrime: HashPrime (proof_common.h) and
    create_discriminant.h. ProofCommon: the rest of proof_common.h (SerializeForm,
    DeserializeForm, GetB, FastPow).

    Verifier: verifier.h. Acceptance gives a chain of proved equations
    (soundness of the check, not the cryptographic soundness of Wesolowski's
    argument), and honest chains are accepted.

    Provers. Steps: computations that a stop can end. Segments: Segment and Proof
    of util.h. Prover: prover_slow.h and prover_impl.hpp, the block algorithm
    for x^(2^T / B) in its three versions. Callback: callback.h, the arrays of
    intermediates. Provers: provers.h, the provers that read those arrays, and
    the thread of the interruptible one, whose statements interleave with those of its owner.
    What the provers return is stated with the bytes: they read back as the output and
    the proof, and the verifier accepts them.

    The phased squaring pipeline, vdf_fast.h and threading.h. FastThreads: two threads that
    wait for each other's counters, as programs whose steps interleave in any order, and a logic
    for them. FastSquare: the five phases, statement by statement, and
    repeated_square_fast_multithread. FastGcd: its gcd. FastStep, FastLoops, FastProof and
    FastPipeline prove it: the arithmetic of a squaring, the loops, what an
    iteration computes, and what each thread may rely on. FastCorrect: in every interleaving it ends, never
    fails, and leaves the right form. Its forms are not reduced, and no
    bound is proved on them that the slow squaring of the main loop could rely on, so the main loop is
    proved for [Squarer], of which the slow loop and the NUDUPL batch are instances.

    The application, vdf.h. Vdf: the slow loops and repeated_square; after
    any run the published iterations are backed by the right form and the
    callback's invariant. Storage: fast_storage.h, the threads that redo the squarings between
    the submitted checkpoints and store the intermediates, in any interleaving. Proving: ProveOneWesolowski and ProveTwoWeso.
    Manager: the event loop of ProverManager, one turn as [event_turn]; an
    invariant of all reachable states and the optimality of its scheduler. Prove:
    ProverManager::Prove. The end-to-end theorems compose the parts: main
    loop, callback, prover, bytes, verifier.

    The hardware client, hw/, which does the squarings on an ASIC. HwQueue and HwRequests:
    the queue of requested proofs in hw_proof.cpp (the operations with
    their well-formedness invariant; then what processing the requests does,
    and its termination). HwValues: the values of the hardware and the threads that
    compute the forms between them, with the invariant of the whole state. HwProver:
    the proofs over those forms; [hw_reach] are the histories of the
    client, and every stored form and finished proof in them is right. HwDriver: the jobs and
    the status of the ASIC as its registers hold them (vdf_driver.cpp, chia_driver.cpp,
    hw_interface.cpp), and that they read back. HwClient:
    hw_vdf_client.cpp, what is read from and sent to the timelord; the proofs
    it sends are accepted by the verifier.

    Session: vdf_client.cpp and vdf_client_session.h, the messages of the
    timelord, and the numbers of iterations that a session works on.

    ** Fuel

    Loops that are bounded carry a fuel that is proved enough, so that the
    theorems say that the code returns: reduction by the bit length, the
    partial gcd by the operands, the scheduler by a measure ([Manager.mu]),
    the main loop by the iterations. Loops without a bound keep the fuel as an
    argument: the search of HashPrime (the theorems say what it returns when it
    finds a prime, and [or_GetB] and [with_B] carry its failure through the provers),
    the waits (enough fuel once the awaited value is there) and the attempts
    of Prove. The walks over the hardware client's table have the table's length as
    fuel, and its loops over requests and finished proofs the number of them.

    ** Not modelled

    The code generators (asm_*.h), the AVX512 integers and the floating-point gcd_*.h that they
    are tested with: the gcd of the pipeline is [AsmGcd], which agrees with the reference
    gcd_unsigned_slow and of which [euclid_gcd] is an instance. The single-threaded
    driver of the pipeline, which enable_threads disables. That the passes of Reducer.h end is
    not proved (the last step of a pass can undo progress), so the provers use the
    interface [FormReducer]. Floating point (ApproximateParameters) is an argument. The
    sockets of vdf_client.cpp are streams of bytes and its threads are the numbers they
    prove. The bindings, tests and benchmarks
    are I/O and glue. Of hw/ the USB transfers, clock tables and
    sensors of the ASIC, the choice of its frequency, statistics and the
    command line are left out; its operations are atomic steps, the threads
    of values interleave after each squaring, and a proof's thread is one step once its
    values are there. Of C++'s memory model only the stale values that the callbacks
    may read are kept; waits on condition variables are the values
    read after them. The debugging code of VDF_TEST and ENABLE_TRACK_CYCLES is left out. *)
From Stdlib Require Export ZArith Lia List Bool Znumtheory.
From Stdlib Require Import Zquot.
Export ListNotations.

#[global] Open Scope Z_scope.
#[global] Open Scope bool_scope.
#[global] Open Scope list_scope.

(** ** Results of C++ code that can throw, assert or hit undefined behaviour *)

(** The ways a modelled function fails: the C++ exceptions the sources throw,
    a failed [assert], a call of [abort()], the trap GMP raises on a division by zero, an operation
    the C++ standard leaves undefined, and, of the model only, a loop that did
    not finish within the fuel it was given. *)
Inductive exn : Type :=
| runtime_error
| overflow_error
| invalid_argument
| system_error
| assertion_failed
| aborted
| division_by_zero
| undefined_behaviour
| out_of_fuel.

Inductive res (A : Type) : Type :=
| Ok (a : A)
| Throw (e : exn).
Arguments Ok {A} a.
Arguments Throw {A} e.

Definition bind {A B} (m : res A) (k : A -> res B) : res B :=
  match m with Ok a => k a | Throw e => Throw e end.

Declare Scope vdf_scope.
Delimit Scope vdf_scope with vdf.
Notation "x <- m ;; k" := (bind m (fun x => k))
  (at level 61, m at next level, right associativity) : vdf_scope.
Notation "' p <- m ;; k" := (bind m (fun x => let p := x in k))
  (at level 61, p pattern, m at next level, right associativity) : vdf_scope.
Notation "'require' c 'else' e ;; k" := (if (c : bool) then k else Throw e)
  (at level 61, c at level 99, e at level 99, right associativity) : vdf_scope.
#[global] Open Scope vdf_scope.

Definition is_ok {A} (m : res A) : bool :=
  match m with Ok _ => true | Throw _ => false end.

Lemma bind_ok {A B} (m : res A) (k : A -> res B) b :
  bind m k = Ok b -> exists a, m = Ok a /\ k a = Ok b.
Proof. destruct m; simpl; [eauto | discriminate]. Qed.

(** ** Machine integers: a [w]-bit word is the [Z] in its range *)

Definition uwrap (w x : Z) : Z := x mod 2 ^ w.
Definition swrap (w x : Z) : Z := (x + 2 ^ (w - 1)) mod 2 ^ w - 2 ^ (w - 1).
Definition urange (w x : Z) : Prop := 0 <= x < 2 ^ w.
Definition srange (w x : Z) : Prop := - 2 ^ (w - 1) <= x < 2 ^ (w - 1).

Abbreviation u8 := (uwrap 8).
Abbreviation u16 := (uwrap 16).
Abbreviation u32 := (uwrap 32).
Abbreviation u64 := (uwrap 64).
Abbreviation s32 := (swrap 32).
Abbreviation s64 := (swrap 64).

Lemma uwrap_id w x : urange w x -> uwrap w x = x.
Proof. unfold urange, uwrap. intros. apply Z.mod_small; lia. Qed.

Lemma uwrap_range w x : 0 <= w -> urange w (uwrap w x).
Proof. intros. apply Z.mod_pos_bound, Z.pow_pos_nonneg; lia. Qed.

Lemma swrap_range w x : 0 < w -> srange w (swrap w x).
Proof.
  unfold srange, swrap; intros.
  pose proof (Z.mod_pos_bound (x + 2 ^ (w - 1)) (2 ^ w) ltac:(apply Z.pow_pos_nonneg; lia)).
  replace (2 ^ w) with (2 * 2 ^ (w - 1)) in *
    by (rewrite <- Z.pow_succ_r by lia; f_equal; lia).
  lia.
Qed.

Lemma swrap_id w x : 0 < w -> srange w x -> swrap w x = x.
Proof.
  unfold srange, swrap; intros Hw Hx.
  replace (2 ^ w) with (2 * 2 ^ (w - 1))
    by (rewrite <- Z.pow_succ_r by lia; f_equal; lia).
  rewrite Z.mod_small; lia.
Qed.

Lemma s64_id x : - 2 ^ 63 <= x < 2 ^ 63 -> s64 x = x.
Proof. intros. apply swrap_id; [lia | exact H]. Qed.

Lemma u64_id x : 0 <= x < 2 ^ 64 -> u64 x = x.
Proof. intros. now apply uwrap_id. Qed.

(** ** Bytes: values in [0, 256), little- and big-endian integers *)

Definition is_byte (b : Z) : Prop := 0 <= b < 256.
Abbreviation bytes := (list Z).
Definition bytes_ok (bs : bytes) : Prop := Forall is_byte bs.

Fixpoint le_combine (bs : bytes) : Z :=
  match bs with
  | [] => 0
  | b :: bs' => b + 256 * le_combine bs'
  end.

Fixpoint le_split (n : nat) (x : Z) : bytes :=
  match n with
  | O => []
  | S n' => x mod 256 :: le_split n' (x / 256)
  end.

Definition be_combine (bs : bytes) : Z := le_combine (rev bs).
Definition be_split (n : nat) (x : Z) : bytes := rev (le_split n x).

Lemma le_split_length n : forall x, length (le_split n x) = n.
Proof. induction n; simpl; auto. Qed.

Lemma be_split_length n x : length (be_split n x) = n.
Proof. unfold be_split. now rewrite length_rev, le_split_length. Qed.

Lemma le_split_ok n : forall x, bytes_ok (le_split n x).
Proof.
  induction n as [|n IH]; intros x; cbn [le_split]; constructor.
  - apply Z.mod_pos_bound. reflexivity.
  - apply IH.
Qed.

Lemma be_split_ok n x : bytes_ok (be_split n x).
Proof. apply Forall_rev, le_split_ok. Qed.

Lemma pow256_S n : 256 ^ Z.of_nat (S n) = 256 * 256 ^ Z.of_nat n.
Proof. rewrite Nat2Z.inj_succ, Z.pow_succ_r; lia. Qed.

Lemma le_combine_range bs :
  bytes_ok bs -> 0 <= le_combine bs < 256 ^ Z.of_nat (length bs).
Proof.
  induction 1 as [|b bs Hb _ IH]; [simpl; lia|].
  cbn [le_combine length]. rewrite pow256_S. unfold is_byte in Hb. nia.
Qed.

Lemma le_combine_split n : forall x,
  0 <= x < 256 ^ Z.of_nat n -> le_combine (le_split n x) = x.
Proof.
  induction n as [|n IH]; intros x Hx; [simpl in *; lia|].
  rewrite pow256_S in Hx. cbn [le_split le_combine].
  rewrite IH.
  - pose proof (Z.div_mod x 256). lia.
  - split; [apply Z.div_pos; lia | apply Z.div_lt_upper_bound; lia].
Qed.

Lemma le_split_combine bs :
  bytes_ok bs -> le_split (length bs) (le_combine bs) = bs.
Proof.
  induction 1 as [|b bs Hb _ IH]; [easy|].
  cbn [le_combine length le_split]. unfold is_byte in Hb.
  rewrite (Z.mul_comm 256), Z.mod_add, Z.mod_small by lia.
  rewrite Z.div_add, Z.div_small, Z.add_0_l by lia. now rewrite IH.
Qed.

Lemma be_combine_split n x :
  0 <= x < 256 ^ Z.of_nat n -> be_combine (be_split n x) = x.
Proof. intros. unfold be_combine, be_split. rewrite rev_involutive. now apply le_combine_split. Qed.

Lemma be_split_combine bs :
  bytes_ok bs -> be_split (length bs) (be_combine bs) = bs.
Proof.
  intros H. unfold be_combine, be_split.
  rewrite <- length_rev, le_split_combine by now apply Forall_rev.
  apply rev_involutive.
Qed.

Lemma be_combine_range bs :
  bytes_ok bs -> 0 <= be_combine bs < 256 ^ Z.of_nat (length bs).
Proof.
  intros H. unfold be_combine. rewrite <- length_rev.
  apply le_combine_range. now apply Forall_rev.
Qed.

Lemma le_combine_app xs ys :
  le_combine (xs ++ ys) = le_combine xs + 256 ^ Z.of_nat (length xs) * le_combine ys.
Proof.
  induction xs as [|x xs IH]; [simpl app; cbn [length le_combine]; change (Z.of_nat 0) with 0; lia|].
  cbn [app le_combine length]. rewrite IH, pow256_S. lia.
Qed.

Lemma le_combine_repeat_0 n : le_combine (repeat 0 n) = 0.
Proof. induction n; cbn [repeat le_combine]; lia. Qed.

(** [sub bs off len]: the [len] bytes of a buffer from index [off]. *)
Definition sub (bs : bytes) (off len : nat) : bytes := firstn len (skipn off bs).

Lemma sub_length bs off len :
  (off + len <= length bs)%nat -> length (sub bs off len) = len.
Proof. intros. unfold sub. rewrite length_firstn, length_skipn. lia. Qed.

Lemma sub_app_l xs ys off len :
  (off + len <= length xs)%nat -> sub (xs ++ ys) off len = sub xs off len.
Proof.
  intros. unfold sub. rewrite skipn_app, firstn_app, length_skipn.
  replace (len - (length xs - off))%nat with 0%nat by lia.
  simpl. now rewrite app_nil_r.
Qed.

Lemma sub_app_r xs ys off len :
  (length xs <= off)%nat -> sub (xs ++ ys) off len = sub ys (off - length xs) len.
Proof. intros. unfold sub. rewrite skipn_app, skipn_all2 by lia. reflexivity. Qed.

Lemma firstn_add {A} (l : list A) n m : firstn (n + m) l = firstn n l ++ firstn m (skipn n l).
Proof. revert l. induction n as [|n IH]; intros [|x l]; cbn [Nat.add firstn skipn app]; try reflexivity; [now rewrite firstn_nil|now rewrite IH]. Qed.

Lemma sub_all bs len : length bs = len -> sub bs 0 len = bs.
Proof. intros <-. unfold sub. simpl. apply firstn_all. Qed.

Lemma Forall_firstn' {A} (P : A -> Prop) n xs : Forall P xs -> Forall P (firstn n xs).
Proof. intros H. rewrite <- (firstn_skipn n xs) in H. now apply Forall_app in H. Qed.

Lemma Forall_skipn' {A} (P : A -> Prop) n xs : Forall P xs -> Forall P (skipn n xs).
Proof. intros H. rewrite <- (firstn_skipn n xs) in H. now apply Forall_app in H. Qed.

Lemma sub_ok bs off len : bytes_ok bs -> bytes_ok (sub bs off len).
Proof. intros. now apply Forall_firstn', Forall_skipn'. Qed.

(** ** Tactics and hints *)

(** Case split on the boolean comparison in the goal or a hypothesis and put
    the fact it decides in the context. *)
Ltac cmp_step :=
  match goal with
  | H : context [?a =? ?b] |- _ => destruct (Z.eqb_spec a b)
  | H : context [?a <? ?b] |- _ => destruct (Z.ltb_spec a b)
  | H : context [?a <=? ?b] |- _ => destruct (Z.leb_spec a b)
  | |- context [?a =? ?b] => destruct (Z.eqb_spec a b)
  | |- context [?a <? ?b] => destruct (Z.ltb_spec a b)
  | |- context [?a <=? ?b] => destruct (Z.leb_spec a b)
  end; cbn [andb orb negb] in *; try discriminate; try lia.

(** Turn the monadic equation [bind m k = Ok b] into its two steps. *)
Ltac res_inv :=
  repeat match goal with
  | H : bind _ _ = Ok _ |- _ =>
      let a := fresh "a" in let H1 := fresh "Hm" in
      apply bind_ok in H; destruct H as (a & H1 & H)
  | H : Ok _ = Ok _ |- _ => injection H; clear H; intros; subst
  | H : Throw _ = Ok _ |- _ => discriminate H
  end.

Create HintDb vdf.
#[export] Hint Resolve le_split_ok be_split_ok sub_ok uwrap_range swrap_range : vdf.
Create Rewrite HintDb vdf_len.
#[export] Hint Rewrite le_split_length be_split_length length_app length_rev
  length_firstn length_skipn repeat_length : vdf_len.

(** Prove an equation between list lengths. *)
Ltac solve_len := autorewrite with vdf_len; simpl length; try lia.

(** ** Integer lemmas shared by the components *)

Lemma tdiv_fdiv a b : 0 <= a -> 0 < b -> Z.quot a b = a / b.
Proof. intros. apply Z.quot_div_nonneg; lia. Qed.

Lemma trem_mod a b : 0 <= a -> 0 < b -> Z.rem a b = a mod b.
Proof. intros. apply Z.rem_mod_nonneg; lia. Qed.

Lemma cong_divide m a b : m <> 0 -> a mod m = b mod m <-> (m | a - b).
Proof.
  intros Hm. split; intros H.
  - apply Z.mod_divide; [easy|].
    rewrite Zminus_mod, H, Z.sub_diag. now apply Z.mod_0_l.
  - destruct H as [k Hk]. replace a with (b + k * m) by lia.
    now apply Z.mod_add.
Qed.

Lemma divide_mul_cancel_l a b c : a <> 0 -> (a * b | a * c) -> (b | c).
Proof. intros Ha [k Hk]. exists k. apply (Z.mul_reg_l _ _ a Ha). lia. Qed.

Lemma square_le_abs a b : Z.abs a <= b -> a * a <= b * b.
Proof. intros H. rewrite <- (Z.abs_square a). apply Z.mul_le_mono_nonneg; lia. Qed.

(** A finite loop: the first index at which a decreasing measure stops. *)
Lemma nat_lt_ind (P : nat -> Prop) :
  (forall n, (forall m, (m < n)%nat -> P m) -> P n) -> forall n, P n.
Proof. intros H n. induction n using (well_founded_induction lt_wf). auto. Qed.
