(* ===== verification/Words.v ===== *)
(** Machine-word helpers: [src/src/checked_cast.h], [src/src/bit_manipulation.h]
    and the byte-order, hex and append helpers of [src/src/util.h]. *)
From Stdlib Require Import Ascii String.
From S2P Require Import Prelude.

(** ** checked_cast.h *)

(** A C++ integral type: its width in bytes ([sizeof]) and its signedness. *)
Record ity : Type := { sizeof : Z; is_signed : bool }.

Definition int_t : ity := {| sizeof := 4; is_signed := true |}.
Definition uint32_ty : ity := {| sizeof := 4; is_signed := false |}.
Definition int64_ty : ity := {| sizeof := 8; is_signed := true |}.
Definition uint64_ty : ity := {| sizeof := 8; is_signed := false |}.
Definition make_unsigned (t : ity) : ity := {| sizeof := sizeof t; is_signed := false |}.

Definition bits (t : ity) : Z := 8 * sizeof t.
Definition limits_min (t : ity) : Z := if is_signed t then - 2 ^ (bits t - 1) else 0.
Definition limits_max (t : ity) : Z :=
  if is_signed t then 2 ^ (bits t - 1) - 1 else 2 ^ bits t - 1.

(** The value set of a type. *)
Definition in_ity (t : ity) (v : Z) : Prop := limits_min t <= v <= limits_max t.

(** [static_cast<To>]: reduction modulo 2^w into the range of the type. *)
Definition static_cast (t : ity) (v : Z) : Z :=
  if is_signed t then swrap (bits t) v else uwrap (bits t) v.

(** The [if constexpr] ladder of [checked_cast<To, From>]. *)
Definition checked_cast (To From : ity) (value : Z) : res Z :=
  let out_of_range :=
    if Bool.eqb (is_signed From) (is_signed To) then
      if sizeof To <? sizeof From then
        (value <? static_cast From (limits_min To))
        || (static_cast From (limits_max To) <? value)
      else false
    else if is_signed From then
      (value <? 0) || (limits_max To <? static_cast (make_unsigned From) value)
    else
      let to_unsigned_t := make_unsigned To in
      let compare_t := if sizeof to_unsigned_t <? sizeof From then From else to_unsigned_t in
      static_cast compare_t (limits_max To) <? static_cast compare_t value in
  if out_of_range then Throw overflow_error else Ok (static_cast To value).

(** The standard's integral types have at least one byte. *)
Definition ity_ok (t : ity) : Prop := 1 <= sizeof t.

Lemma pow2_pred w : 0 < w -> 2 ^ w = 2 * 2 ^ (w - 1).
Proof. intros. rewrite <- Z.pow_succ_r by lia. f_equal. lia. Qed.

Lemma static_cast_id t v : ity_ok t -> in_ity t v -> static_cast t v = v.
Proof.
  unfold ity_ok, in_ity, static_cast, limits_min, limits_max, bits. intros Ht H.
  destruct (is_signed t).
  - apply swrap_id; unfold srange; lia.
  - apply uwrap_id; unfold urange; lia.
Qed.

Lemma static_cast_in t v : ity_ok t -> in_ity t (static_cast t v).
Proof.
  unfold ity_ok, in_ity, static_cast, limits_min, limits_max, bits. intros Ht.
  destruct (is_signed t).
  - pose proof (swrap_range (8 * sizeof t) v ltac:(lia)) as H. unfold srange in H. lia.
  - pose proof (uwrap_range (8 * sizeof t) v ltac:(lia)) as H. unfold urange in H. lia.
Qed.

(** A cast keeps the value exactly when the destination can hold it. *)
Lemma static_cast_id_iff t v : ity_ok t -> static_cast t v = v <-> in_ity t v.
Proof.
  intros Ht. split; [|now apply static_cast_id].
  intros <-. now apply static_cast_in.
Qed.

Lemma sizeof_pow_le t1 t2 :
  ity_ok t1 -> sizeof t1 <= sizeof t2 -> 2 ^ bits t1 <= 2 ^ bits t2 /\
  2 ^ (bits t1 - 1) <= 2 ^ (bits t2 - 1).
Proof.
  unfold ity_ok, bits. intros. split; apply Z.pow_le_mono_r; lia.
Qed.

Lemma bits_pos t : ity_ok t -> 0 < bits t /\ 0 < 2 ^ (bits t - 1) /\ 2 ^ bits t = 2 * 2 ^ (bits t - 1).
Proof.
  unfold ity_ok, bits. intros. split; [lia|]. split; [apply Z.pow_pos_nonneg; lia|].
  apply pow2_pred. lia.
Qed.

Lemma sizeof_pow_lt t1 t2 :
  ity_ok t1 -> ity_ok t2 -> sizeof t1 < sizeof t2 -> 2 ^ bits t1 <= 2 ^ (bits t2 - 1).
Proof. unfold ity_ok, bits. intros. apply Z.pow_le_mono_r; lia. Qed.

(** The range test of [checked_cast] throws exactly on the values the
    destination type cannot hold, and otherwise the value is unchanged. *)
Lemma checked_cast_spec To From v :
  ity_ok To -> ity_ok From -> in_ity From v ->
  checked_cast To From v
    = if (limits_min To <=? v) && (v <=? limits_max To) then Ok v else Throw overflow_error.
Proof.
  intros HT HF Hv.
  destruct (bits_pos To HT) as (HT1 & HT2 & HT3), (bits_pos From HF) as (HF1 & HF2 & HF3).
  assert (Hlim : forall b,
    b = negb ((limits_min To <=? v) && (v <=? limits_max To)) ->
    (if b then Throw overflow_error else Ok (static_cast To v))
    = if (limits_min To <=? v) && (v <=? limits_max To) then Ok v else Throw overflow_error).
  { intros b ->.
    destruct ((limits_min To <=? v) && (v <=? limits_max To)) eqn:E; simpl; [|easy].
    rewrite static_cast_id; [easy|easy|]. unfold in_ity. lia. }
  unfold checked_cast. apply Hlim. clear Hlim.
  pose proof (sizeof_pow_le To From HT) as HTF. pose proof (sizeof_pow_le From To HF) as HFT.
  pose proof (sizeof_pow_lt To From HT HF) as HTFl. pose proof (sizeof_pow_lt From To HF HT) as HFTl.
  unfold in_ity, limits_min, limits_max in *.
  destruct (is_signed From) eqn:SF, (is_signed To) eqn:ST; cbn [Bool.eqb].
  - destruct (Z.ltb_spec (sizeof To) (sizeof From)); [|specialize (HFT ltac:(lia)); lia].
    specialize (HTF ltac:(lia)).
    rewrite !static_cast_id by (unfold in_ity, limits_min, limits_max; rewrite ?SF, ?ST; auto; lia). lia.
  - destruct (Z.ltb_spec v 0); [lia|].
    assert (in_ity (make_unsigned From) v).
    { unfold in_ity, limits_min, limits_max. change (bits (make_unsigned From)) with (bits From).
      cbn [is_signed make_unsigned]. lia. }
    rewrite static_cast_id by auto. lia.
  - set (c := if sizeof (make_unsigned To) <? sizeof From then From else make_unsigned To).
    assert (Hc : ity_ok c /\ is_signed c = false /\ 2 ^ bits To <= 2 ^ bits c /\ 2 ^ bits From <= 2 ^ bits c).
    { subst c. cbn [make_unsigned sizeof].
      destruct (Z.ltb_spec (sizeof To) (sizeof From)).
      - specialize (HTF ltac:(lia)). repeat split; auto; lia.
      - specialize (HFT ltac:(lia)).
        change (bits (make_unsigned To)) with (bits To). repeat split; auto; lia. }
    destruct Hc as (Hc1 & Hc2 & Hc3 & Hc4).
    assert (Hin : forall x, 0 <= x < 2 ^ bits c -> static_cast c x = x).
    { intros x Hx. apply static_cast_id; [easy|].
      unfold in_ity, limits_min, limits_max. rewrite Hc2. lia. }
    rewrite !Hin by lia. lia.
  - destruct (Z.ltb_spec (sizeof To) (sizeof From)); [|specialize (HFT ltac:(lia)); lia].
    specialize (HTF ltac:(lia)).
    assert (Hin : forall x, 0 <= x < 2 ^ bits From -> static_cast From x = x).
    { intros x Hx. apply static_cast_id; [easy|].
      unfold in_ity, limits_min, limits_max. rewrite SF. lia. }
    rewrite !Hin by lia. lia.
Qed.

(** ** bit_manipulation.h *)

(** [1ull<<size]: undefined when the shift count is not below 64. *)
Definition shl64_1 (size : Z) : res Z :=
  if (0 <=? size) && (size <? 64) then Ok (Z.shiftl 1 size) else Throw undefined_behaviour.

Definition extract_bits (t start size : Z) : res Z :=
  require (0 <=? start) && (start <? 64) else assertion_failed ;;
  require (0 <=? size) && (start + size <=? 64) else assertion_failed ;;
  let t := Z.shiftr t start in
  one <- shl64_1 size ;;
  Ok (Z.land t (u64 (one - 1))).

Definition insert_bits (t bits start size : Z) : res Z :=
  require (0 <=? start) && (start <? 64) else assertion_failed ;;
  require (0 <=? size) && (start + size <=? 64) else assertion_failed ;;
  one <- shl64_1 size ;;
  require Z.land bits (u64 (Z.lnot (u64 (one - 1)))) =? 0 else assertion_failed ;;
  let bits := u64 (Z.shiftl bits start) in
  let mask := u64 (Z.shiftl (u64 (one - 1)) start) in
  let t := Z.land t (u64 (Z.lnot mask)) in
  Ok (Z.lor t bits).

Definition bit_sequence (start size : Z) : res Z :=
  one <- shl64_1 size ;; insert_bits 0 (u64 (one - 1)) start size.

(** [output_bits]: the characters written to the stream, most significant first. *)
Definition output_bits (bits size : Z) : res string :=
  require (0 <? size) && (size <? 64) else assertion_failed ;;
  one <- shl64_1 size ;;
  require Z.land bits (u64 (Z.lnot (u64 (one - 1)))) =? 0 else assertion_failed ;;
  Ok (fold_right (fun x out => String (if Z.testbit bits x then "1" else "0")%char out) EmptyString
        (map Z.of_nat (rev (seq 0 (Z.to_nat size))))).

Lemma testbit_u64 x i : 0 <= i -> Z.testbit (u64 x) i = (i <? 64) && Z.testbit x i.
Proof.
  intros. unfold uwrap. destruct (Z.ltb_spec i 64); cbn [andb].
  - now apply Z.mod_pow2_bits_low.
  - now apply Z.mod_pow2_bits_high.
Qed.

Lemma testbit_mask size i :
  0 <= size < 64 -> 0 <= i -> Z.testbit (u64 (Z.shiftl 1 size - 1)) i = (i <? size).
Proof.
  intros Hs Hi. rewrite testbit_u64 by easy.
  rewrite Z.shiftl_1_l.
  replace (2 ^ size - 1) with (Z.ones size) by (rewrite Z.ones_equiv; lia).
  destruct (Z.ltb_spec i size).
  - rewrite Z.ones_spec_low by lia. destruct (Z.ltb_spec i 64); lia.
  - rewrite Z.ones_spec_high by lia. apply andb_false_r.
Qed.

Lemma testbit_high x i : 0 <= x < 2 ^ 64 -> 64 <= i -> Z.testbit x i = false.
Proof.
  intros Hx Hi. rewrite <- (uwrap_id 64 x) by exact Hx.
  rewrite testbit_u64 by lia. destruct (Z.ltb_spec i 64); [lia|easy].
Qed.

Lemma bits64_inj x y :
  0 <= x < 2 ^ 64 -> 0 <= y < 2 ^ 64 ->
  (forall i, 0 <= i < 64 -> Z.testbit x i = Z.testbit y i) -> x = y.
Proof.
  intros Hx Hy H. apply Z.bits_inj'. intros i Hi.
  destruct (Z.lt_ge_cases i 64); [apply H; lia|].
  now rewrite !testbit_high by lia.
Qed.

(** The bits of the two field operations. *)
Lemma extract_bits_testbit t start size :
  0 <= start -> 0 <= size < 64 -> start + size <= 64 -> start < 64 ->
  exists r, extract_bits t start size = Ok r /\
    forall i, 0 <= i -> Z.testbit r i = (i <? size) && Z.testbit t (i + start).
Proof.
  intros. unfold extract_bits, shl64_1.
  repeat cmp_step. simpl bind. eexists; split; [reflexivity|].
  intros i Hi. rewrite Z.land_spec, testbit_mask, Z.shiftr_spec by lia. apply andb_comm.
Qed.

Lemma insert_bits_testbit t b start size :
  0 <= start -> 0 <= size < 64 -> start + size <= 64 -> start < 64 ->
  0 <= t < 2 ^ 64 -> 0 <= b < 2 ^ size ->
  exists r, insert_bits t b start size = Ok r /\
    forall i, 0 <= i -> Z.testbit r i =
      if (start <=? i) && (i <? start + size) then Z.testbit b (i - start) else Z.testbit t i.
Proof.
  intros Hst Hsz Hss Hst' Ht Hb. unfold insert_bits, shl64_1.
  repeat (cmp_step; []). cbn [bind].
  assert (Hb0 : Z.land b (u64 (Z.lnot (u64 (Z.shiftl 1 size - 1)))) = 0).
  { apply Z.bits_inj'. intros i Hi.
    rewrite Z.land_spec, testbit_u64, Z.lnot_spec, testbit_mask, Z.bits_0 by lia.
    destruct (Z.ltb_spec i size); cbn; [rewrite andb_false_r; apply andb_false_r|].
    rewrite <- (Z.mod_small b (2 ^ size)), Z.mod_pow2_bits_high by lia. easy. }
  rewrite Hb0. cbn. eexists; split; [reflexivity|]. intros i Hi.
  rewrite Z.lor_spec, Z.land_spec, !testbit_u64, Z.lnot_spec, testbit_u64 by lia.
  destruct (Z.ltb_spec i 64) as [Hi64|Hi64]; cbn [andb].
  - destruct (Z.leb_spec start i); cbn [andb].
    + rewrite !Z.shiftl_spec, testbit_mask by lia.
      destruct (Z.ltb_spec (i - start) size), (Z.ltb_spec i (start + size)); try lia; cbn.
      * now rewrite andb_false_r.
      * rewrite andb_true_r.
        rewrite <- (Z.mod_small b (2 ^ size)), Z.mod_pow2_bits_high by lia.
        apply orb_false_r.
    + rewrite !(Z.shiftl_spec_low _ _ i) by lia. cbn. now rewrite andb_true_r, orb_false_r.
  - rewrite andb_false_r, orb_false_r || rewrite !andb_false_r.
    rewrite (testbit_high t i) by lia.
    destruct (Z.leb_spec start i), (Z.ltb_spec i (start + size)); cbn; lia || easy.
Qed.

(** Reading a field back after writing it returns what was written. *)
Lemma extract_insert t b start size :
  0 <= start < 64 -> 0 <= size < 64 -> start + size <= 64 ->
  0 <= t < 2 ^ 64 -> 0 <= b < 2 ^ size ->
  (v <- insert_bits t b start size ;; extract_bits v start size) = Ok b.
Proof.
  intros Hst Hsz Hss Ht Hb.
  destruct (insert_bits_testbit t b start size) as (r & -> & Hr); try lia.
  cbn [bind].
  destruct (extract_bits_testbit r start size) as (r' & -> & Hr'); try lia.
  f_equal. apply Z.bits_inj'. intros i Hi. rewrite Hr' by lia.
  rewrite Hr by lia. replace (i + start - start) with i by lia.
  destruct (Z.leb_spec start (i + start)); [|lia].
  destruct (Z.ltb_spec i size), (Z.ltb_spec (i + start) (start + size)); cbn; try lia; auto.
  now rewrite <- (Z.mod_small b (2 ^ size)), Z.mod_pow2_bits_high by lia.
Qed.

(** ** util.h: byte order, hex and append helpers *)

(** [bswap_64]/[bswap_32] reverse the bytes of a word; [memcpy] of a word to a
    byte buffer stores it least significant byte first on the little-endian
    hosts the program is built for. *)
Definition bswap (n : nat) (x : Z) : Z := le_combine (rev (le_split n x)).
Definition memcpy_out (n : nat) (x : Z) : bytes := le_split n x.
Definition memcpy_in (bs : bytes) : Z := le_combine bs.

Definition Int64ToBytes (input : Z) : bytes := memcpy_out 8 (bswap 8 input).
Definition Int32ToBytes (input : Z) : bytes := memcpy_out 4 (bswap 4 input).
Definition BytesToInt64 (bs : bytes) : Z := bswap 8 (memcpy_in (firstn 8 bs)).

Definition VectorAppend {A} (dst src : list A) : list A := dst ++ src.
Definition VectorAppendArray {A} (dst src : list A) (len : nat) : list A := dst ++ firstn len src.

Definition hex_digit (d : Z) : ascii :=
  ascii_of_nat (Z.to_nat (if d <? 10 then 48 + d else 87 + d)).

(** [setw(2) << setfill('0') << std::hex]: two lower-case digits per byte. *)
Fixpoint BytesToStr (bs : bytes) : string :=
  match bs with
  | [] => EmptyString
  | b :: bs' => String (hex_digit (b / 16)) (String (hex_digit (b mod 16)) (BytesToStr bs'))
  end.

Lemma bswap_be n x : memcpy_out n (bswap n x) = be_split n x.
Proof.
  unfold memcpy_out, bswap, be_split.
  rewrite <- (le_split_length n x) at 1. rewrite <- length_rev.
  apply le_split_combine, Forall_rev, le_split_ok.
Qed.

Lemma BytesToInt64_be bs : length bs = 8%nat -> bytes_ok bs -> BytesToInt64 bs = be_combine bs.
Proof.
  intros Hl Hb. unfold BytesToInt64, bswap, memcpy_in, be_combine.
  rewrite firstn_all2 by lia. rewrite <- Hl. now rewrite le_split_combine.
Qed.

Lemma Int64ToBytes_length x : length (Int64ToBytes x) = 8%nat.
Proof. apply le_split_length. Qed.

Lemma Int64ToBytes_ok x : bytes_ok (Int64ToBytes x).
Proof. apply le_split_ok. Qed.

(** A 64-bit value written by [Int64ToBytes] is read back by [BytesToInt64]. *)
Lemma BytesToInt64_ToBytes x : 0 <= x < 2 ^ 64 -> BytesToInt64 (Int64ToBytes x) = x.
Proof.
  intros Hx. rewrite BytesToInt64_be by auto using Int64ToBytes_length, Int64ToBytes_ok.
  unfold Int64ToBytes. rewrite bswap_be. apply be_combine_split. exact Hx.
Qed.

Lemma BytesToInt64_range bs : length bs = 8%nat -> bytes_ok bs -> 0 <= BytesToInt64 bs < 2 ^ 64.
Proof.
  intros Hl Hb. rewrite BytesToInt64_be by easy.
  pose proof (be_combine_range bs Hb) as H. rewrite Hl in H. exact H.
Qed.

(** The value of a hex digit character, for reading [BytesToStr] back. *)
Definition hex_value (c : ascii) : option Z :=
  let n := Z.of_nat (nat_of_ascii c) in
  if (48 <=? n) && (n <=? 57) then Some (n - 48)
  else if (97 <=? n) && (n <=? 102) then Some (n - 87) else None.

Fixpoint StrToBytes (s : string) : option bytes :=
  match s with
  | EmptyString => Some []
  | String h (String l s') =>
      match hex_value h, hex_value l, StrToBytes s' with
      | Some x, Some y, Some bs => Some (16 * x + y :: bs)
      | _, _, _ => None
      end
  | String _ EmptyString => None
  end.

Lemma hex_value_digit d : 0 <= d < 16 -> hex_value (hex_digit d) = Some d.
Proof.
  intros Hd.
  assert (H : Forall (fun d => hex_value (hex_digit d) = Some d) (map Z.of_nat (seq 0 16)))
    by (repeat constructor).
  rewrite Forall_forall in H. apply H. apply in_map_iff.
  exists (Z.to_nat d). rewrite in_seq. lia.
Qed.

(** The hex text of a proof determines its bytes and has twice their length. *)
Lemma StrToBytes_BytesToStr bs : bytes_ok bs -> StrToBytes (BytesToStr bs) = Some bs.
Proof.
  induction 1 as [|b bs Hb _ IH]; [easy|]. cbn [BytesToStr StrToBytes].
  unfold is_byte in Hb. pose proof (Z.div_mod b 16 ltac:(lia)).
  pose proof (Z.mod_pos_bound b 16 ltac:(lia)).
  rewrite !hex_value_digit, IH by lia. do 2 f_equal. lia.
Qed.

Lemma BytesToStr_length bs : String.length (BytesToStr bs) = (2 * List.length bs)%nat.
Proof. induction bs as [|b bs IH]; [easy|]. cbn [BytesToStr String.length List.length]. lia. Qed.
