(* ===== verification/NumTheory.v ===== *)
(** Number-theoretic facts about [Z] that several components need: Fermat's
    little theorem, square roots of one, coprimality and exact division. *)
From Stdlib Require Import Zpow_facts Zmod.
From S2P Require Import Prelude.

(** [a^p = a] modulo a prime [p]. *)
Lemma fermat_mod p a : Z.prime p -> a ^ p mod p = a mod p.
Proof.
  intros Hp. pose proof (Z.prime_ge_2 p Hp).
  pose proof (Zmod.fermat (Zmod.of_Z p a) Hp) as E%(f_equal Zmod.to_Z).
  rewrite Zmod.to_Z_pow_nonneg_r, Zmod.to_Z_of_Z in E by lia.
  now rewrite <- Zpower_mod in E by lia.
Qed.

Lemma prime_divide_mul p a b : Z.prime p -> (p | a * b) -> (p | a) \/ (p | b).
Proof. intros Hp. now apply Z.divide_prime_mul. Qed.

Lemma odd_prime_mod2 p : Z.prime p -> p <> 2 -> p mod 2 = 1.
Proof.
  intros Hp H2. pose proof (Z.prime_ge_2 p Hp).
  destruct (Z.eq_dec (p mod 2) 1); [easy|].
  pose proof (Z.mod_pos_bound p 2).
  assert (Hd : (2 | p)) by (apply Z.mod_divide; lia).
  apply Z.divide_prime_prime in Hd; [lia|apply Z.prime_2|easy].
Qed.

(** [a^(p-1) = 1] modulo a prime [p] that does not divide [a]. *)
Lemma fermat_pred p a : Z.prime p -> ~ (p | a) -> a ^ (p - 1) mod p = 1.
Proof.
  intros Hp Ha. pose proof (Z.prime_ge_2 p Hp).
  assert (H1 : (p | a * (a ^ (p - 1) - 1))).
  { rewrite Z.mul_sub_distr_l, Z.mul_1_r, <- Z.pow_succ_r by lia.
    replace (Z.succ (p - 1)) with p by lia.
    apply cong_divide; [lia|]. now apply fermat_mod. }
  apply prime_divide_mul in H1 as [H1|H1]; [easy| |easy].
  transitivity (1 mod p); [|apply Z.mod_small; lia]. apply cong_divide; [lia|easy].
Qed.

(** The only square roots of one modulo a prime are 1 and -1. *)
Lemma sqrt_one_mod_prime p x : Z.prime p -> 0 <= x < p ->
  (x * x) mod p = 1 -> x = 1 \/ x = p - 1.
Proof.
  intros Hp Hx H. pose proof (Z.prime_ge_2 p Hp).
  assert (H1 : (p | (x - 1) * (x + 1))).
  { replace ((x - 1) * (x + 1)) with (x * x - 1) by ring.
    apply cong_divide; [lia|]. rewrite H. symmetry. apply Z.mod_small. lia. }
  apply prime_divide_mul in H1 as [[k Hk]|[k Hk]]; [| |easy].
  - assert (k = 0) by nia. lia.
  - assert (k = 1) by nia. lia.
Qed.

Lemma half_odd p : p mod 2 = 1 -> p = 2 * ((p - 1) / 2) + 1.
Proof. intros H. pose proof (Z.div_mod p 2). pose proof (Z.div_mod (p - 1) 2).
  pose proof (Z.mod_pos_bound (p - 1) 2). lia. Qed.

(** Coprime factors cancel in divisibility (Gauss). *)
Lemma gauss_cancel a b c : Z.gcd a b = 1 -> (a | b * c) -> (a | c).
Proof. intros H1 H2. now apply Z.gauss with b. Qed.

Lemma gcd_div_coprime a b g : 0 < g -> g = Z.gcd a b -> Z.gcd (a / g) (b / g) = 1.
Proof. intros Hg ->. apply Z.gcd_div_gcd; [lia|easy]. Qed.

(** Every integer above 1 has a prime divisor. *)
Lemma prime_divisor n : 1 < n -> exists p, Z.prime p /\ (p | n).
Proof.
  intros Hn. assert (H : forall k : nat, forall n, 1 < n -> (Z.to_nat n < k)%nat -> exists p, Z.prime p /\ (p | n)).
  { clear. induction k as [|k IH]; intros n Hn Hk; [lia|].
    destruct (existsb (fun m => n mod m =? 0) (map Z.of_nat (seq 2 (Z.to_nat n - 2)))) eqn:E.
    - apply existsb_exists in E as (m & Hm & E). apply in_map_iff in Hm as (i & <- & Hi).
      apply in_seq in Hi. apply Z.eqb_eq, Z.mod_divide in E; [|lia].
      destruct (IH (Z.of_nat i)) as (p & Hp & Hd); [lia|lia|].
      exists p. split; [easy|]. now transitivity (Z.of_nat i).
    - exists n. split; [|reflexivity]. split; [easy|]. intros m Hm Hd.
      apply Bool.not_true_iff_false in E. apply E, existsb_exists. exists m. split.
      + apply in_map_iff. exists (Z.to_nat m). split; [lia|]. apply in_seq. lia.
      + apply Z.eqb_eq, Z.mod_divide; [lia|easy]. }
  now apply (H (S (Z.to_nat n))); [|lia].
Qed.

(** Coprimality from the absence of a common prime. *)
Lemma coprime_primes a b : b <> 0 ->
  (forall p, Z.prime p -> (p | a) -> (p | b) -> False) -> Z.coprime a b.
Proof.
  intros Hb H. unfold Z.coprime. pose proof (Z.gcd_nonneg a b).
  assert (Hnz : Z.gcd a b <> 0) by (intros E; apply Z.gcd_eq_0 in E; lia).
  destruct (Z.eq_dec (Z.gcd a b) 1) as [|Hg]; [easy|].
  destruct (prime_divisor (Z.gcd a b) ltac:(lia)) as (p & Hp & Hd). exfalso. apply (H p Hp).
  - transitivity (Z.gcd a b); [easy|apply Z.gcd_divide_l].
  - transitivity (Z.gcd a b); [easy|apply Z.gcd_divide_r].
Qed.

Lemma coprime_not_divide p a b : Z.prime p -> Z.coprime a b -> (p | a) -> (p | b) -> False.
Proof.
  intros Hp Hc Ha Hb. pose proof (Z.prime_ge_2 p Hp).
  pose proof (Z.gcd_greatest _ _ _ Ha Hb) as Hk. rewrite Hc in Hk.
  apply Z.divide_pos_le in Hk; lia.
Qed.

Lemma coprime_divide_mul a b n : Z.coprime a b -> (a | n) -> (b | n) -> (a * b | n).
Proof.
  intros Hc [x ->] Hb. rewrite Z.mul_comm. apply Z.mul_divide_mono_r.
  apply (Z.gauss _ a); [now rewrite Z.mul_comm|]. now rewrite Z.gcd_comm.
Qed.

(** A solution of [a x = b (mod m)] for [a] invertible modulo [m]. *)
Lemma coprime_solve a b m : Z.coprime a m -> exists x, (m | a * x - b).
Proof.
  intros H. apply Z.Bezout_coprime in H as (u & v & H).
  exists (u * b), (- v * b). transitivity ((u * a) * b - b); [ring|].
  replace (u * a) with (1 - v * m) by lia. ring.
Qed.

Lemma divide_dec a b : a <> 0 -> {(a | b)} + {~ (a | b)}.
Proof.
  intros Ha. destruct (Z.eq_dec (b mod a) 0) as [E|E]; [left|right].
  - now apply Z.mod_divide.
  - intros H. now apply E, Z.mod_divide.
Defined.

(** Primality of a small number, by trial division up to its square root. *)
Definition trial_division (n : Z) : bool :=
  (1 <? n) && forallb (fun m => negb (n mod m =? 0)) (map Z.of_nat (seq 2 (Z.to_nat (Z.sqrt n) - 1))).

Lemma trial_division_prime n : trial_division n = true -> Z.prime n.
Proof.
  intros H. apply Bool.andb_true_iff in H as [H1 H2]. apply Z.ltb_lt in H1. rewrite forallb_forall in H2.
  assert (Hs : forall m, 1 < m -> m * m <= n -> ~ (m | n)).
  { intros m Hm Hle Hd. apply Z.mod_divide in Hd; [|lia]. specialize (H2 m). rewrite Hd in H2. discriminate H2.
    apply in_map_iff. exists (Z.to_nat m). rewrite in_seq. assert (m <= Z.sqrt n) by (apply Z.sqrt_le_square; lia). lia. }
  split; [easy|]. intros m Hm Hd. pose proof Hd as [k Hk]. destruct (Z.le_gt_cases (m * m) n); [now apply (Hs m)|].
  apply (Hs k); [nia|nia|]. exists m. lia.
Qed.
