(* ===== verification/Gmp.v ===== *)
(** The interface to GMP. An [mpz_t] is a [Z], and exact arithmetic on it
    ([mpz_add], [mpz_mul], [mpz_neg], [mpz_cmp], [mpz_fdiv_*], [mpz_tdiv_*],
    [mpz_mul_2exp], [mpz_setbit], ...) is the arithmetic of [Z]. Every GMP
    routine whose algorithm matters is a field of [Gmp], of which the sources
    rely only on the behaviour the GMP manual documents, [GmpLaws]. The last
    part gives an executable instance, with which the concrete examples run. *)
From Stdlib Require Import Zpow_facts.
From S2P Require Import Prelude NumTheory.

Class Gmp : Type := {
  mpz_size : Z -> Z;                       (* number of limbs of |x| *)
  mpz_getlimbn : Z -> Z -> Z;              (* limb i of |x| *)
  mpz_sizeinbase2 : Z -> Z;                (* mpz_sizeinbase (x, 2) *)
  mpz_export_lsb : Z -> bytes;             (* order -1, size 1: bytes of |x| *)
  mpz_import_lsb : bytes -> Z;             (* order -1, size 1 *)
  mpz_export_msb : Z -> bytes;             (* order 1, size 1 *)
  mpz_import_msb : bytes -> Z;             (* order 1, size 1 *)
  mpz_divexact : Z -> Z -> Z;
  mpz_gcd : Z -> Z -> Z;
  mpz_gcdext : Z -> Z -> Z * Z * Z;        (* (g, s, t) *)
  mpz_sqrt : Z -> Z;
  mpz_root : Z -> Z -> Z;
  mpz_perfect_square_p : Z -> bool;
  mpz_powm : Z -> Z -> Z -> Z;
  mpz_scan1 : Z -> Z -> Z;
  mpz_jacobi : Z -> Z -> Z;
  mpn_gcd_1 : Z -> Z -> Z;
}.

(** The number of bits of |x|, 1 for zero: what [mpz_sizeinbase (x, 2)] returns. *)
Definition bitlen (x : Z) : Z := if x =? 0 then 1 else Z.log2 (Z.abs x) + 1.

(** The number of bytes [mpz_export] writes: none for zero. *)
Definition bytelen (x : Z) : Z := if x =? 0 then 0 else (bitlen x + 7) / 8.

Class GmpLaws (G : Gmp) : Prop := {
  mpz_size_spec : forall x, mpz_size x = if x =? 0 then 0 else Z.log2 (Z.abs x) / 64 + 1;
  mpz_getlimbn_spec : forall x i, 0 <= i -> mpz_getlimbn x i = (Z.abs x / 2 ^ (64 * i)) mod 2 ^ 64;
  mpz_sizeinbase2_spec : forall x, mpz_sizeinbase2 x = bitlen x;
  mpz_export_lsb_spec : forall x, mpz_export_lsb x = le_split (Z.to_nat (bytelen x)) (Z.abs x);
  mpz_import_lsb_spec : forall bs, mpz_import_lsb bs = le_combine bs;
  mpz_export_msb_spec : forall x, mpz_export_msb x = be_split (Z.to_nat (bytelen x)) (Z.abs x);
  mpz_import_msb_spec : forall bs, mpz_import_msb bs = be_combine bs;
  mpz_divexact_spec : forall n d, d <> 0 -> (d | n) -> mpz_divexact n d * d = n;
  mpz_gcd_spec : forall a b, mpz_gcd a b = Z.gcd a b;
  mpz_gcdext_spec : forall a b g s t, mpz_gcdext a b = (g, s, t) ->
    g = Z.gcd a b /\ a * s + b * t = g;
  mpz_gcdext_bound : forall a b g s t, mpz_gcdext a b = (g, s, t) -> 0 < b ->
    Z.abs s <= b;
  mpz_sqrt_spec : forall x, 0 <= x -> mpz_sqrt x = Z.sqrt x;
  mpz_root_spec : forall x n, 0 <= x -> 0 < n ->
    0 <= mpz_root x n /\ mpz_root x n ^ n <= x < (mpz_root x n + 1) ^ n;
  mpz_perfect_square_spec : forall x, mpz_perfect_square_p x = true <-> exists y, x = y * y;
  mpz_powm_spec : forall b e m, 0 <= e -> 0 < m -> mpz_powm b e m = b ^ e mod m;
  mpz_scan1_spec : forall x i, x <> 0 -> 0 <= i -> (exists j, i <= j /\ Z.testbit x j = true) ->
    i <= mpz_scan1 x i /\ Z.testbit x (mpz_scan1 x i) = true /\
    forall j, i <= j < mpz_scan1 x i -> Z.testbit x j = false;
  mpz_scan1_none : forall x i, 0 <= x -> 0 <= i -> (forall j, i <= j -> Z.testbit x j = false) ->
    mpz_scan1 x i = 2 ^ 64 - 1;
  mpz_jacobi_range : forall a n, mpz_jacobi a n = -1 \/ mpz_jacobi a n = 0 \/ mpz_jacobi a n = 1;
  mpz_jacobi_prime : forall a p, Z.prime p -> p <> 2 ->
    (mpz_jacobi a p mod p = a ^ ((p - 1) / 2) mod p);
  mpn_gcd_1_spec : forall n p, 0 < n -> 0 < p -> mpn_gcd_1 n p = Z.gcd n p;
}.

(** Consequences of the laws that several components use. *)
Section Consequences.
Context `{GL : GmpLaws}.

(** [mpz_divexact] with an exact division is the quotient. *)
Lemma divexact_div n d : d <> 0 -> (d | n) -> mpz_divexact n d = n / d.
Proof.
  intros Hd Hdn. pose proof (mpz_divexact_spec n d Hd Hdn) as E.
  rewrite <- E at 2. now rewrite Z.div_mul.
Qed.

Lemma gcdext_div a b g s t : mpz_gcdext a b = (g, s, t) ->
  0 <= g /\ (g | a) /\ (g | b) /\ a * s + b * t = g.
Proof.
  intros E. apply mpz_gcdext_spec in E as [-> E].
  auto using Z.gcd_nonneg, Z.gcd_divide_l, Z.gcd_divide_r.
Qed.

Lemma root_nonneg x n : 0 <= x -> 0 < n -> 0 <= mpz_root x n.
Proof. intros. now apply mpz_root_spec. Qed.
End Consequences.

Lemma bitlen_spec x : x <> 0 -> 2 ^ (bitlen x - 1) <= Z.abs x < 2 ^ bitlen x.
Proof.
  intros Hx. unfold bitlen. destruct (Z.eqb_spec x 0); [easy|].
  rewrite Z.add_simpl_r. apply Z.log2_spec. lia.
Qed.

Lemma bitlen_pos x : 1 <= bitlen x.
Proof. unfold bitlen. destruct (x =? 0); [lia|]. pose proof (Z.log2_nonneg (Z.abs x)). lia. Qed.

Lemma bitlen_le x n : 1 <= n -> Z.abs x < 2 ^ n -> bitlen x <= n.
Proof.
  intros Hn Hx. unfold bitlen. destruct (Z.eqb_spec x 0); [lia|].
  enough (Z.log2 (Z.abs x) < n) by lia. apply Z.log2_lt_pow2; lia.
Qed.

Lemma bitlen_lt_pow x n : bitlen x <= n -> Z.abs x < 2 ^ n.
Proof.
  intros Hn. pose proof (bitlen_pos x). destruct (Z.eq_dec x 0) as [->|Hx].
  - apply Z.pow_pos_nonneg; lia.
  - pose proof (bitlen_spec x Hx) as [_ H1]. eapply Z.lt_le_trans; [exact H1|].
    apply Z.pow_le_mono_r; lia.
Qed.

(** ** An executable instance *)
Module Ref.

Definition size (x : Z) : Z := if x =? 0 then 0 else Z.log2 (Z.abs x) / 64 + 1.
Definition getlimbn (x i : Z) : Z := (Z.abs x / 2 ^ (64 * i)) mod 2 ^ 64.

(** Extended gcd with the cofactor of the first argument reduced to the
    smallest absolute value. *)
Definition gcdext (a b : Z) : Z * Z * Z :=
  let '(u, v, g) := Z.extgcd a b in
  if b =? 0 then (g, u, v)
  else
    let m := Z.abs b / g in
    let s0 := u mod m in
    let s := if m <? s0 + s0 then s0 - m else s0 in
    (g, s, (g - a * s) / b).

(** [bisect n x k r]: the largest [y] in [r, r + 2^k) with [y^n <= x]. *)
Fixpoint bisect (n x : Z) (k : nat) (r : Z) : Z :=
  match k with
  | O => r
  | S k' =>
      let r' := r + 2 ^ Z.of_nat k' in
      bisect n x k' (if r' ^ n <=? x then r' else r)
  end.
Definition root (x n : Z) : Z := bisect n x (Z.to_nat (Z.log2 x / n + 1)) 0.

Fixpoint scan (x i : Z) (fuel : nat) : Z :=
  match fuel with
  | O => 2 ^ 64 - 1
  | S f => if Z.testbit x i then i else scan x (i + 1) f
  end.
Definition scan1 (x i : Z) : Z := scan x i (Z.to_nat (Z.log2 (Z.abs x) + 2)).

Definition jacobi (a n : Z) : Z :=
  let e := Zpow_mod a ((n - 1) / 2) n in
  if e =? 0 then 0 else if e =? n - 1 then -1 else 1.

#[export] Instance gmp : Gmp := {
  mpz_size := size;
  mpz_getlimbn := getlimbn;
  mpz_sizeinbase2 := bitlen;
  mpz_export_lsb x := le_split (Z.to_nat (bytelen x)) (Z.abs x);
  mpz_import_lsb := le_combine;
  mpz_export_msb x := be_split (Z.to_nat (bytelen x)) (Z.abs x);
  mpz_import_msb := be_combine;
  mpz_divexact := Z.div;
  mpz_gcd := Z.gcd;
  mpz_gcdext := gcdext;
  mpz_sqrt := Z.sqrt;
  mpz_root := root;
  mpz_perfect_square_p x := Z.sqrt x * Z.sqrt x =? x;
  mpz_powm b e m := Zpow_mod b e m;
  mpz_scan1 := scan1;
  mpz_jacobi := jacobi;
  mpn_gcd_1 := Z.gcd;
}.

Lemma gcdext_correct a b g s t :
  gcdext a b = (g, s, t) -> g = Z.gcd a b /\ a * s + b * t = g.
Proof.
  unfold gcdext. destruct (Z.extgcd a b) as [[u v] g'] eqn:E.
  apply Z.extgcd_correct in E as [E ->].
  destruct (Z.eqb_spec b 0) as [->|Hb]; intros [= <- <- <-]; split; try easy; [lia|].
  set (g := Z.gcd a b) in *.
  assert (Hg : g <> 0) by (intros H; apply Z.gcd_eq_0 in H; lia).
  destruct (Z.gcd_divide_l a b) as [a' Ha], (Z.gcd_divide_r a b) as [b' Hb']. fold g in Ha, Hb'.
  assert (Hm : Z.abs b / g = Z.abs b').
  { rewrite Hb', Z.abs_mul, (Z.abs_eq g) by apply Z.gcd_nonneg. now apply Z.div_mul. }
  rewrite Hm. set (m := Z.abs b').
  assert (Hk : forall k, (b | g - a * (u - m * k))).
  { intros k. replace (g - a * (u - m * k)) with (b * v + a * m * k) by lia.
    apply Z.divide_add_r; [apply Z.divide_factor_l|].
    rewrite Ha. replace (a' * g * m * k) with ((g * m) * (a' * k)) by lia.
    apply Z.divide_mul_l. subst m. rewrite Hb', <- (Z.abs_eq g) by apply Z.gcd_nonneg.
    rewrite <- Z.abs_mul. apply Z.divide_abs_r. rewrite (Z.abs_eq g) by apply Z.gcd_nonneg.
    exists 1. lia. }
  assert (Hex : forall x, (b | g - a * x) -> a * x + b * ((g - a * x) / b) = g).
  { intros x [q Hq]. rewrite Hq, Z.div_mul by easy. lia. }
  apply Hex. pose proof (Z.div_mod u m ltac:(lia)) as Hdm. cbv zeta.
  destruct (m <? _).
  - replace (u mod m - m) with (u - m * (u / m + 1)) by lia. apply Hk.
  - replace (u mod m) with (u - m * (u / m)) by lia. apply Hk.
Qed.

Lemma gcdext_small a b g s t : gcdext a b = (g, s, t) -> 0 < b -> Z.abs s <= b.
Proof.
  unfold gcdext. destruct (Z.extgcd a b) as [[u v] g'] eqn:E.
  apply Z.extgcd_correct in E as [E ->]. intros H Hb.
  destruct (Z.eqb_spec b 0) as [->|_]; [lia|]. injection H as _ <- _. clear g.
  set (g := Z.gcd a b).
  assert (Hg : 0 < g) by (pose proof (Z.gcd_nonneg a b); assert (g <> 0)
    by (intros H'; apply Z.gcd_eq_0 in H'; lia); lia).
  destruct (Z.gcd_divide_r a b) as [b' Hb']. fold g in Hb'.
  rewrite (Z.abs_eq b), Hb', Z.div_mul by lia.
  assert (0 < b') by nia. pose proof (Z.mod_pos_bound u b' ltac:(lia)).
  assert (b' <= b' * g) by nia.
  destruct (Z.ltb_spec b' (u mod b' + u mod b')); lia.
Qed.

Lemma bisect_spec n x k : 0 < n -> forall r, 0 <= r ->
  r ^ n <= x < (r + 2 ^ Z.of_nat k) ^ n ->
  0 <= bisect n x k r /\ bisect n x k r ^ n <= x < (bisect n x k r + 1) ^ n.
Proof.
  intros Hn. induction k as [|k IH]; intros r Hr H; [exact (conj Hr H)|].
  cbn [bisect].
  assert (Hp : 2 ^ Z.of_nat (S k) = 2 * 2 ^ Z.of_nat k)
    by (rewrite Nat2Z.inj_succ, Z.pow_succ_r; lia).
  assert (0 < 2 ^ Z.of_nat k) by (apply Z.pow_pos_nonneg; lia).
  destruct (Z.leb_spec ((r + 2 ^ Z.of_nat k) ^ n) x); apply IH; try lia.
  split; [easy|]. replace (r + 2 ^ Z.of_nat k + 2 ^ Z.of_nat k) with (r + 2 ^ Z.of_nat (S k)) by lia.
  easy.
Qed.

Lemma root_correct x n : 0 <= x -> 0 < n ->
  0 <= root x n /\ root x n ^ n <= x < (root x n + 1) ^ n.
Proof.
  intros Hx Hn. apply bisect_spec; try lia. rewrite Z.pow_0_l, Z.add_0_l by lia.
  split; [easy|]. pose proof (Z.log2_nonneg x).
  assert (0 <= Z.log2 x / n) by (apply Z.div_pos; lia).
  rewrite Z2Nat.id, <- Z.pow_mul_r by lia.
  apply Z.log2_lt_cancel. rewrite Z.log2_pow2 by nia.
  pose proof (Z.div_mod (Z.log2 x) n). pose proof (Z.mod_pos_bound (Z.log2 x) n). nia.
Qed.

Lemma scan_spec x fuel : forall i, 0 <= i ->
  (exists j, i <= j < i + Z.of_nat fuel /\ Z.testbit x j = true) ->
  i <= scan x i fuel /\ Z.testbit x (scan x i fuel) = true /\
  forall j, i <= j < scan x i fuel -> Z.testbit x j = false.
Proof.
  induction fuel as [|f IH]; intros i Hi (j & Hj & Hb); [lia|]. cbn [scan].
  destruct (Z.testbit x i) eqn:E; [repeat split; [lia|easy|lia]|].
  assert (j <> i) by congruence.
  destruct (IH (i + 1)) as (H1 & H2 & H3); [lia|exists j; split; [lia|easy]|].
  repeat split; [lia|easy|]. intros k Hk.
  destruct (Z.eq_dec k i) as [->|]; [easy|]. apply H3. lia.
Qed.

Lemma scan_none x fuel : forall i, (forall j, i <= j -> Z.testbit x j = false) ->
  scan x i fuel = 2 ^ 64 - 1.
Proof.
  induction fuel as [|f IH]; intros i H; [easy|]. cbn [scan]. rewrite H by lia.
  apply IH. intros j Hj. apply H. lia.
Qed.

Lemma scan1_correct x i : x <> 0 -> 0 <= i -> (exists j, i <= j /\ Z.testbit x j = true) ->
  i <= scan1 x i /\ Z.testbit x (scan1 x i) = true /\
  forall j, i <= j < scan1 x i -> Z.testbit x j = false.
Proof.
  intros Hx Hi (j & Hj & Hb). apply scan_spec; [easy|]. pose proof (Z.log2_nonneg (Z.abs x)).
  destruct (Z.le_gt_cases j (i + Z.log2 (Z.abs x) + 1)); [exists j; split; [lia|exact Hb]|].
  destruct (Z.lt_ge_cases x 0) as [Hn|Hp].
  - exists (i + Z.log2 (Z.abs x) + 1). split; [lia|]. apply Z.bits_above_log2_neg; [exact Hn|].
    pose proof (Z.log2_le_mono (Z.pred (- x)) (Z.abs x) ltac:(lia)). lia.
  - rewrite Z.abs_eq in * by exact Hp. rewrite Z.bits_above_log2 in Hb by lia. discriminate.
Qed.

Lemma perfect_square_correct x : (Z.sqrt x * Z.sqrt x =? x) = true <-> exists y, x = y * y.
Proof.
  rewrite Z.eqb_eq. split; [intros H; now exists (Z.sqrt x)|].
  intros [y ->]. rewrite <- (Z.abs_square y), Z.sqrt_square by lia. easy.
Qed.

(** The instance's Jacobi symbol is Euler's criterion. *)
Lemma jacobi_correct a p : Z.prime p -> p <> 2 ->
  jacobi a p mod p = a ^ ((p - 1) / 2) mod p.
Proof.
  intros Hp H2. pose proof (Z.prime_ge_2 p Hp).
  pose proof (half_odd p (odd_prime_mod2 p Hp H2)) as Hodd.
  unfold jacobi. rewrite Zpow_mod_correct by lia.
  set (h := (p - 1) / 2) in *. set (e := a ^ h mod p).
  assert (He : 0 <= e < p) by (apply Z.mod_pos_bound; lia).
  destruct (Z.eqb_spec e 0) as [->|He0]; [now rewrite Z.mod_0_l by lia|].
  destruct (Z.eqb_spec e (p - 1)) as [->|He1].
  { symmetry. apply (Z.mod_unique_pos _ _ (-1)); lia. }
  enough (e = 1 \/ e = p - 1) as [->|]; [now rewrite Z.mod_small by lia|lia|].
  apply sqrt_one_mod_prime; [easy|easy|].
  unfold e. rewrite <- Z.mul_mod, <- Z.pow_add_r by lia.
  replace (h + h) with (p - 1) by lia. apply fermat_pred; [easy|].
  intros Hd. apply He0. apply Z.mod_divide; [lia|].
  destruct (Z.eq_dec h 0) as [E|E]; [lia|].
  replace h with (Z.succ (h - 1)) by lia. rewrite Z.pow_succ_r by lia.
  now apply Z.divide_mul_l.
Qed.

#[export] Instance laws : GmpLaws gmp.
Proof.
  split; cbn; intros; auto using root_correct, scan1_correct, perfect_square_correct, jacobi_correct.
  - match goal with Hd : (_ | _) |- _ => destruct Hd as [k ->] end. now rewrite Z.div_mul.
  - now apply gcdext_correct.
  - eapply gcdext_small; eauto.
  - apply Zpow_mod_correct. lia.
  - now apply scan_none.
  - unfold jacobi. destruct (_ =? 0); auto. destruct (_ =? n - 1); auto.
Qed.
End Ref.
