(* ===== verification/QuadForm.v ===== *)
(** The specification level: integral binary quadratic forms, proper
    equivalence, reduced forms and composition in the sense of Gauss. The files
    that model the code prove their results against these notions. *)
From Stdlib Require Import Setoid Morphisms ZNsatz.
From S2P Require Import Prelude NumTheory.

(** The C++ [struct form] of [vdf_new.h]. *)
Record form : Type := mkform { fa : Z; fb : Z; fc : Z }.

Definition disc (f : form) : Z := fb f * fb f - 4 * fa f * fc f.
Definition eval (f : form) (x y : Z) : Z := fa f * (x * x) + fb f * (x * y) + fc f * (y * y).

(** A positive definite form of discriminant [D]. *)
Record valid (D : Z) (f : form) : Prop := {
  valid_disc : disc f = D;
  valid_neg : D < 0;
  valid_pos : 0 < fa f;
}.

(** Reduced: -a < b <= a <= c, and b >= 0 when a = c. *)
Definition reduced (f : form) : Prop :=
  - fa f < fb f <= fa f /\ fa f <= fc f /\ (fa f = fc f -> 0 <= fb f).

Definition primitive (f : form) : Prop := Z.gcd (fa f) (Z.gcd (fb f) (fc f)) = 1.

(** ** Proper equivalence *)

(** [act p q r s f]: the form [f (p x + q y, r x + s y)]. *)
Definition act (p q r s : Z) (f : form) : form :=
  mkform (fa f * (p * p) + fb f * (p * r) + fc f * (r * r))
         (2 * fa f * (p * q) + fb f * (p * s + q * r) + 2 * fc f * (r * s))
         (fa f * (q * q) + fb f * (q * s) + fc f * (s * s)).

Definition equiv (f g : form) : Prop :=
  exists p q r s, p * s - q * r = 1 /\ g = act p q r s f.

Lemma form_eq a b c a' b' c' : a = a' -> b = b' -> c = c' -> mkform a b c = mkform a' b' c'.
Proof. now intros -> -> ->. Qed.

Lemma form_eta f : f = mkform (fa f) (fb f) (fc f).
Proof. now destruct f. Qed.

(** Equality of forms coefficient by coefficient, by ring arithmetic. *)
Ltac form_ring :=
  intros; unfold act, disc, eval in *; cbn [fa fb fc] in *;
  try (apply form_eq); ring.

Lemma act_eval p q r s f x y : eval (act p q r s f) x y = eval f (p * x + q * y) (r * x + s * y).
Proof. form_ring. Qed.

Lemma act_act p q r s p' q' r' s' f :
  act p' q' r' s' (act p q r s f)
  = act (p * p' + q * r') (p * q' + q * s') (r * p' + s * r') (r * q' + s * s') f.
Proof. form_ring. Qed.

Lemma act_id f : act 1 0 0 1 f = f.
Proof. destruct f. form_ring. Qed.

Lemma act_disc p q r s f : disc (act p q r s f) = (p * s - q * r) * (p * s - q * r) * disc f.
Proof. form_ring. Qed.

#[export] Instance equiv_Equivalence : Equivalence equiv.
Proof.
  split.
  - intros f. exists 1, 0, 0, 1. split; [ring|]. symmetry. apply act_id.
  - intros f g (p & q & r & s & Hd & ->). exists s, (- q), (- r), p.
    split; [lia|]. rewrite act_act.
    replace (p * s + q * - r) with 1 by lia. replace (p * - q + q * p) with 0 by ring.
    replace (r * s + s * - r) with 0 by ring. replace (r * - q + s * p) with 1 by lia.
    symmetry. apply act_id.
  - intros f g h (p & q & r & s & Hd & ->) (p' & q' & r' & s' & Hd' & ->).
    eexists _, _, _, _. split; [|apply act_act].
    transitivity ((p * s - q * r) * (p' * s' - q' * r')); [ring | rewrite Hd, Hd'; ring].
Qed.

Lemma act_equiv p q r s f : p * s - q * r = 1 -> equiv f (act p q r s f).
Proof. intros H. now exists p, q, r, s. Qed.

#[export] Instance disc_Proper : Proper (equiv ==> eq) disc.
Proof. intros f g (p & q & r & s & Hd & ->). rewrite act_disc, Hd. ring. Qed.

(** Completing the square: 4 a f(x, y) = (2 a x + b y)^2 - D y^2. *)
Lemma eval_square f x y :
  4 * fa f * eval f x y = (2 * fa f * x + fb f * y) * (2 * fa f * x + fb f * y) - disc f * (y * y).
Proof. form_ring. Qed.

Lemma eval_pos D f x y : valid D f -> (x <> 0 \/ y <> 0) -> 0 < eval f x y.
Proof.
  intros [HD Hn Ha] Hxy. pose proof (eval_square f x y) as E. rewrite HD in E.
  assert (Hpos : 0 < 4 * fa f * eval f x y).
  { rewrite E. destruct (Z.eq_dec y 0) as [->|Hy].
    - assert (x <> 0) by tauto. assert (0 < x * x) by nia. nia.
    - assert (0 < y * y) by nia. pose proof (Z.square_nonneg (2 * fa f * x + fb f * y)). nia. }
  nia.
Qed.

Lemma act_a p q r s f : fa (act p q r s f) = eval f p r.
Proof. form_ring. Qed.

Lemma act_c p q r s f : fc (act p q r s f) = eval f q s.
Proof. form_ring. Qed.

Lemma valid_c D f : valid D f -> 0 < fc f.
Proof.
  intros H. pose proof (eval_pos D f 0 1 H ltac:(right; lia)) as E.
  unfold eval in E. lia.
Qed.

#[export] Instance valid_Proper D : Proper (equiv ==> iff) (valid D).
Proof.
  assert (H : forall f g, equiv f g -> valid D f -> valid D g).
  { intros f g E V. pose proof V as [HD Hn Ha]. split; [now rewrite <- E | easy |].
    destruct E as (p & q & r & s & Hd & ->). rewrite act_a. apply (eval_pos D); [easy|]. nia. }
  intros f g E. split; apply H; [easy | now symmetry].
Qed.

(** Bounds of a reduced form: 3 a^2 <= |D|. *)
Lemma reduced_bound D f : valid D f -> reduced f -> 3 * (fa f * fa f) <= - D.
Proof.
  intros [HD Hn Ha] (Hb & Hc & _). unfold disc in HD.
  assert (fb f * fb f <= fa f * fa f) by nia. nia.
Qed.

(** ** Composition *)

(** The 2x4 integer matrix of a composition (Gauss), first row [j k l m],
    second row [r s t u]: the three forms are its 2x2 minors. *)
Record cube : Type := mkcube {
  cj : Z; ck : Z; cl : Z; cm : Z;
  cr : Z; cs : Z; ct : Z; cu : Z;
}.

Definition side1 (q : cube) : form :=
  mkform (cj q * cs q - ck q * cr q)
         (cj q * cu q + cl q * cs q - (ck q * ct q + cm q * cr q))
         (cl q * cu q - cm q * ct q).
Definition side2 (q : cube) : form :=
  mkform (cj q * ct q - cl q * cr q)
         (cj q * cu q + ck q * ct q - (cl q * cs q + cm q * cr q))
         (ck q * cu q - cm q * cs q).
Definition side3 (q : cube) : form :=
  mkform (cs q * ct q - cr q * cu q)
         (cj q * cu q + cm q * cr q - (ck q * ct q + cl q * cs q))
         (ck q * cl q - cj q * cm q).

(** [h] is a composite of [f] and [g]. *)
Definition composite (f g h : form) : Prop :=
  exists q, side1 q = f /\ side2 q = g /\ side3 q = h.

(** The classical meaning: [f (x1, y1) * g (x2, y2) = h (X, Y)] for two fixed
    bilinear forms [X] and [Y] of the variables. *)
Lemma composite_eval q x1 y1 x2 y2 :
  eval (side1 q) x1 y1 * eval (side2 q) x2 y2
  = eval (side3 q)
      (cj q * (x1 * x2) + ck q * (x1 * y2) + cl q * (y1 * x2) + cm q * (y1 * y2))
      (cr q * (x1 * x2) + cs q * (x1 * y2) + ct q * (y1 * x2) + cu q * (y1 * y2)).
Proof. unfold side1, side2, side3, eval. cbn [fa fb fc]. ring. Qed.

Lemma composite_disc q : disc (side1 q) = disc (side3 q) /\ disc (side2 q) = disc (side3 q).
Proof. unfold side1, side2, side3, disc. cbn [fa fb fc]. split; ring. Qed.

(** Close [e = e'] where the two sides agree up to the determinant [d = 1]. *)
Ltac minor_det d Hd :=
  match goal with |- ?x = ?y => transitivity (d * y); [ring | rewrite Hd; ring] end.

(** Replacing the composite by an equivalent form changes only the matrix. *)
Lemma composite_equiv_3 f g h h' : composite f g h -> equiv h h' -> composite f g h'.
Proof.
  intros (Q & <- & <- & <-) (p & q & r & s & Hd & ->).
  destruct Q as [j k l m r' s' t u].
  exists (mkcube (s * j - q * r') (s * k - q * s') (s * l - q * t) (s * m - q * u)
                 (p * r' - r * j) (p * s' - r * k) (p * t - r * l) (p * u - r * m)).
  unfold side1, side2, side3, act. cbn [fa fb fc cj ck cl cm cr cs ct cu].
  repeat split; apply form_eq; try ring; minor_det (p * s - q * r) Hd.
Qed.

(** Composition is symmetric. *)
Lemma composite_sym f g h : composite f g h -> composite g f h.
Proof.
  intros ([j k l m r s t u] & <- & <- & <-). exists (mkcube j l k m r t s u).
  unfold side1, side2, side3. cbn [fa fb fc cj ck cl cm cr cs ct cu].
  repeat split; form_ring.
Qed.

(** A proper change of variables on the first argument. *)
Lemma composite_equiv_1 f f' g h : composite f g h -> equiv f f' -> composite f' g h.
Proof.
  intros (Q & <- & <- & <-) (p & q & r & s & Hd & ->).
  destruct Q as [j k l m r' s' t u].
  exists (mkcube (p * j + r * l) (p * k + r * m) (q * j + s * l) (q * k + s * m)
                 (p * r' + r * t) (p * s' + r * u) (q * r' + s * t) (q * s' + s * u)).
  unfold side1, side2, side3, act. cbn [fa fb fc cj ck cl cm cr cs ct cu].
  repeat split; apply form_eq; try ring; minor_det (p * s - q * r) Hd.
Qed.

#[export] Instance composite_Proper : Proper (equiv ==> equiv ==> equiv ==> iff) composite.
Proof.
  assert (H : forall f f' g g' h h', equiv f f' -> equiv g g' -> equiv h h' ->
    composite f g h -> composite f' g' h').
  { intros f f' g g' h h' E1 E2 E3 C.
    eapply composite_equiv_3; [|exact E3]. eapply composite_equiv_1; [|exact E1].
    apply composite_sym. eapply composite_equiv_1; [|exact E2]. now apply composite_sym. }
  intros f f' E1 g g' E2 h h' E3. split; apply H; easy || now symmetry.
Qed.

(** ** The class of a composite *)

(** Two pairs of rows with the same minors, one of whose combinations is 1,
    span the same lattice: the first row of one pair in terms of the other. *)
Section RowSpan.
Variables (x y z p1 p2 p3 p4 q1 q2 q3 q4 p1' p2' p3' p4' q1' q2' q3' q4' : Z).
Hypothesis H12 : p1' * q2' - p2' * q1' = p1 * q2 - p2 * q1.
Hypothesis H13 : p1' * q3' - p3' * q1' = p1 * q3 - p3 * q1.
Hypothesis H14 : p1' * q4' - p4' * q1' = p1 * q4 - p4 * q1.
Hypothesis H23 : p2' * q3' - p3' * q2' = p2 * q3 - p3 * q2.
Hypothesis H24 : p2' * q4' - p4' * q2' = p2 * q4 - p4 * q2.
Hypothesis H34 : p3' * q4' - p4' * q3' = p3 * q4 - p4 * q3.
Hypothesis Hone : x * (p1 * q2 - p2 * q1) + y * (p1 * q4 - p4 * q1)
  - y * (p2 * q3 - p3 * q2) + z * (p3 * q4 - p4 * q3) = 1.

(** The combination of the mixed minors of two rows. *)
Definition mix (a1 a2 a3 a4 b1 b2 b3 b4 : Z) : Z :=
  x * (a1 * b2 - a2 * b1) + y * (a1 * b4 - a4 * b1)
  - y * (a2 * b3 - a3 * b2) + z * (a3 * b4 - a4 * b3).

Let al := mix p1' p2' p3' p4' q1 q2 q3 q4.
Let be := mix p1 p2 p3 p4 p1' p2' p3' p4'.
Let ga := mix q1' q2' q3' q4' q1 q2 q3 q4.
Let de := mix p1 p2 p3 p4 q1' q2' q3' q4'.

Lemma row_span_p : p1' = al * p1 + be * q1 /\ p2' = al * p2 + be * q2 /\
  p3' = al * p3 + be * q3 /\ p4' = al * p4 + be * q4.
Proof. unfold al, be, mix. repeat split; nsatz. Qed.

Lemma row_span_q : q1' = ga * p1 + de * q1 /\ q2' = ga * p2 + de * q2 /\
  q3' = ga * p3 + de * q3 /\ q4' = ga * p4 + de * q4.
Proof. unfold ga, de, mix. repeat split; nsatz. Qed.

Lemma row_span_det : al * de - be * ga = 1.
Proof. unfold al, be, ga, de, mix. nsatz. Qed.

Lemma row_span : exists al be ga de, al * de - be * ga = 1 /\
  (p1' = al * p1 + be * q1 /\ p2' = al * p2 + be * q2 /\
   p3' = al * p3 + be * q3 /\ p4' = al * p4 + be * q4) /\
  (q1' = ga * p1 + de * q1 /\ q2' = ga * p2 + de * q2 /\
   q3' = ga * p3 + de * q3 /\ q4' = ga * p4 + de * q4).
Proof. exists al, be, ga, de. auto using row_span_p, row_span_q, row_span_det. Qed.
End RowSpan.

Lemma primitive_bezout f : primitive f -> exists x y z, x * fa f + y * fb f + z * fc f = 1.
Proof.
  unfold primitive. intros H.
  destruct (Z.gcd_bezout (fb f) (fc f) _ eq_refl) as (y & z & E1).
  destruct (Z.gcd_bezout (fa f) (Z.gcd (fb f) (fc f)) _ H) as (x & w & E2).
  exists x, (w * y), (w * z). rewrite <- E2, <- E1. ring.
Qed.

(** Composition is well defined on classes of primitive forms. *)
Theorem composite_unique f g h h' :
  primitive f -> composite f g h -> composite f g h' -> equiv h h'.
Proof.
  intros Hp (Q & H1 & H2 & <-) (Q' & H1' & H2' & <-).
  destruct (primitive_bezout f Hp) as (x & y & z & Hone).
  rewrite <- H1 in Hone, H1'. rewrite <- H2 in H2'. clear H1 H2 Hp f g.
  destruct Q as [p1 p2 p3 p4 q1 q2 q3 q4], Q' as [p1' p2' p3' p4' q1' q2' q3' q4'].
  unfold side1, side2, side3 in *. cbn [fa fb fc cj ck cl cm cr cs ct cu] in *.
  injection H1' as E1 E2 E3. injection H2' as E4 E5 E6.
  assert (E14 : p1' * q4' - p4' * q1' = p1 * q4 - p4 * q1) by lia.
  assert (E23 : p2' * q3' - p3' * q2' = p2 * q3 - p3 * q2) by lia.
  destruct (row_span x y z p1 p2 p3 p4 q1 q2 q3 q4 p1' p2' p3' p4' q1' q2' q3' q4')
    as (al & be & ga & de & Hdet & P & R); try lia.
  destruct P as (-> & -> & -> & ->), R as (-> & -> & -> & ->).
  exists de, (- be), (- ga), al. split; [lia|]. form_ring.
Qed.

(** ** A class contains one reduced form *)

Lemma reduced_eval_c D f x y : valid D f -> reduced f -> y <> 0 -> fc f <= eval f x y.
Proof.
  intros [HD Hn Ha] (Hb & Hc & _) Hy. unfold eval.
  assert (Hbxy : - (fa f * (Z.abs x * Z.abs y)) <= fb f * (x * y)).
  { assert (Z.abs (fb f * (x * y)) <= fa f * (Z.abs x * Z.abs y)).
    { rewrite !Z.abs_mul. apply Z.mul_le_mono_nonneg_r; lia. } lia. }
  rewrite <- (Z.abs_square x), <- (Z.abs_square y).
  set (X := Z.abs x) in *. set (Y := Z.abs y) in *.
  assert (0 <= X) by lia. assert (1 <= Y) by lia.
  clearbody X Y. set (q := fb f * (x * y)) in *. clearbody q.
  set (a := fa f) in *. set (c := fc f) in *. clearbody a c. clear HD Hb.
  destruct (Z.le_gt_cases Y X) as [H1|H1].
  - pose proof (Z.mul_nonneg_nonneg a (X * (X - Y)) ltac:(lia) ltac:(nia)).
    pose proof (Z.mul_nonneg_nonneg c (Y * Y - 1) ltac:(lia) ltac:(nia)). lia.
  - pose proof (Z.mul_nonneg_nonneg (c - a) (X * Y) ltac:(lia) ltac:(nia)).
    pose proof (Z.mul_nonneg_nonneg a (X * X) ltac:(lia) ltac:(nia)).
    pose proof (Z.mul_nonneg_nonneg c (Y * (Y - X) - 1) ltac:(lia) ltac:(nia)). lia.
Qed.

Lemma reduced_eval_a D f x y : valid D f -> reduced f -> (x <> 0 \/ y <> 0) -> fa f <= eval f x y.
Proof.
  intros V R Hxy. destruct (Z.eq_dec y 0) as [->|Hy].
  - unfold eval. destruct V as [_ _ Ha]. assert (1 <= x * x) by (assert (x <> 0) by tauto; nia).
    pose proof (Z.mul_nonneg_nonneg (fa f) (x * x - 1) ltac:(lia) ltac:(lia)). lia.
  - pose proof (reduced_eval_c D f x y V R Hy). destruct R as (_ & Hc & _). lia.
Qed.

Theorem reduced_unique D f g : valid D f -> reduced f -> reduced g -> equiv f g -> f = g.
Proof.
  intros Vf Rf Rg E.
  assert (Vg : valid D g) by now rewrite <- E.
  assert (Hdisc : disc f = disc g) by now rewrite E.
  assert (Ha : fa f = fa g).
  { apply Z.le_antisymm.
    - destruct E as (p & q & r & s & Hd & ->). rewrite act_a.
      apply (reduced_eval_a D); [easy|easy|]. nia.
    - symmetry in E. destruct E as (p & q & r & s & Hd & ->). rewrite act_a.
      apply (reduced_eval_a D); [easy|easy|]. nia. }
  enough (Hb : fb f = fb g).
  { destruct Vf as [_ _ Hpos]. rewrite (form_eta f), (form_eta g).
    unfold disc in Hdisc. apply form_eq; [easy|easy|]. rewrite Hb, Ha in Hdisc. nia. }
  pose proof E as E'. symmetry in E'.
  destruct E as (p & q & r & s & Hd & Hg), E' as (p' & q' & r' & s' & Hd' & Hf).
  destruct (Z.eq_dec r 0) as [->|Hr].
  - assert (Hfb : fb g = fb f + 2 * fa f * (p * q)).
    { rewrite Hg. unfold act. cbn [fb]. replace (p * s) with 1 by lia. ring. }
    destruct Rf as (Hf1 & _ & _), Rg as (Hg1 & _ & _). rewrite Ha in *.
    destruct Vg as [_ _ Hpos]. assert (p * q = 0) by nia. nia.
  - destruct (Z.eq_dec r' 0) as [->|Hr'].
    + assert (Hfb : fb f = fb g + 2 * fa g * (p' * q')).
      { rewrite Hf. unfold act. cbn [fb]. replace (p' * s') with 1 by lia. ring. }
      destruct Rf as (Hf1 & _ & _), Rg as (Hg1 & _ & _). rewrite Ha in *.
      destruct Vg as [_ _ Hpos]. assert (p' * q' = 0) by nia. nia.
    + assert (Hcf : fc f <= fa f).
      { transitivity (eval f p r); [now apply (reduced_eval_c D)|].
        rewrite <- (act_a p q r s), <- Hg. lia. }
      assert (Hcg : fc g <= fa g).
      { transitivity (eval g p' r'); [now apply (reduced_eval_c D)|].
        rewrite <- (act_a p' q' r' s'), <- Hf. lia. }
      destruct Rf as (Hf1 & Hf2 & Hf3), Rg as (Hg1 & Hg2 & Hg3).
      specialize (Hf3 ltac:(lia)). specialize (Hg3 ltac:(lia)).
      unfold disc in Hdisc. replace (fc f) with (fa f) in * by lia.
      replace (fc g) with (fa f) in * by lia. rewrite <- Ha in *. nia.
Qed.
