(* ===== verification/FormClass.v ===== *)
(** The class group: composition of classes of primitive forms is total,
    associative and commutative, with an identity and inverses; and the powers
    of a class, which the prover and the verifier compute. *)
From Stdlib Require Import Setoid Morphisms ZNsatz.
From S2P Require Import Prelude NumTheory QuadForm.

(** ** Primitive forms *)

Lemma primitive_primes f : fa f <> 0 ->
  primitive f <-> forall p, Z.prime p -> (p | fa f) -> (p | fb f) -> (p | fc f) -> False.
Proof.
  intros Ha. unfold primitive. split.
  - intros H p Hp H1 H2 H3. apply (coprime_not_divide p _ _ Hp H H1). now apply Z.gcd_greatest.
  - intros H. rewrite Z.gcd_comm. apply coprime_primes; [easy|]. intros p Hp Hd H1.
    apply (H p Hp H1); (etransitivity; [exact Hd|]); [apply Z.gcd_divide_l|apply Z.gcd_divide_r].
Qed.

Lemma bezout_primitive f x y z : x * fa f + y * fb f + z * fc f = 1 -> primitive f.
Proof.
  intros H. unfold primitive. apply Z.Bezout_coprime_iff.
  destruct (Z.gcd_divide_l (fb f) (fc f)) as [u Hu], (Z.gcd_divide_r (fb f) (fc f)) as [v Hv].
  exists x, (y * u + z * v). set (g := Z.gcd (fb f) (fc f)) in *.
  transitivity (x * fa f + y * (u * g) + z * (v * g)); [ring|]. now rewrite <- Hu, <- Hv.
Qed.

#[export] Instance primitive_Proper : Proper (equiv ==> iff) primitive.
Proof.
  assert (H : forall f g, equiv f g -> primitive g -> primitive f).
  { intros f g (p & q & r & s & Hd & ->) Hg.
    destruct (primitive_bezout _ Hg) as (x & y & z & H). unfold act in H. cbn [fa fb fc] in H.
    apply (bezout_primitive f (x * (p * p) + y * (2 * (p * q)) + z * (q * q))
      (x * (p * r) + y * (p * s + q * r) + z * (q * s))
      (x * (r * r) + y * (2 * (r * s)) + z * (s * s))). rewrite <- H. ring. }
  intros f g E. split; apply H; [now symmetry | easy].
Qed.

(** ** A primitive form represents numbers prime to any given one *)

Lemma eval_cong m f x y x' y' : m <> 0 ->
  (m | x - x') -> (m | y - y') -> (m | eval f x y - eval f x' y').
Proof.
  intros Hm [i Hi] [j Hj]. unfold eval.
  replace x with (x' + i * m) by lia. replace y with (y' + j * m) by lia.
  exists (fa f * (2 * x' * i + i * i * m) + fb f * (x' * j + y' * i + i * j * m)
          + fc f * (2 * y' * j + j * j * m)). ring.
Qed.

Lemma eval_prime f p : primitive f -> fa f <> 0 -> Z.prime p -> exists x y, ~ (p | eval f x y).
Proof.
  intros Hf Ha Hp. pose proof (Z.prime_ge_2 p Hp). rewrite primitive_primes in Hf by easy.
  destruct (divide_dec p (fa f) ltac:(lia)) as [H1|H1].
  2:{ exists 1, 0. unfold eval. now replace (_ + _ + _) with (fa f) by ring. }
  destruct (divide_dec p (fc f) ltac:(lia)) as [H3|H3].
  2:{ exists 0, 1. unfold eval. now replace (_ + _ + _) with (fc f) by ring. }
  exists 1, 1. intros He. apply (Hf p Hp H1); [|easy].
  replace (fb f) with (eval f 1 1 - fa f - fc f) by (unfold eval; ring).
  now repeat apply Z.divide_sub_r.
Qed.

Lemma eval_coprime_any f N : primitive f -> fa f <> 0 -> 0 < N ->
  exists x y, Z.coprime (eval f x y) N.
Proof.
  intros Hf Ha. remember (Z.to_nat N) as k eqn:Hk. revert N Hk.
  induction k as [k IH] using nat_lt_ind. intros N Hk HN. subst k.
  destruct (Z.eq_dec N 1) as [->|H1]; [exists 1, 0; apply Z.coprime_1_r|].
  destruct (prime_divisor N ltac:(lia)) as (p & Hp & N' & ->).
  pose proof (Z.prime_ge_2 p Hp). assert (0 < N') by nia.
  destruct (IH (Z.to_nat N') ltac:(nia) N' eq_refl ltac:(lia)) as (x & y & Hxy).
  destruct (divide_dec p N' ltac:(lia)) as [Hd|Hd].
  - exists x, y. apply Z.coprime_mul_r; [easy|].
    apply coprime_primes; [lia|]. intros q Hq Hq1 Hq2.
    apply (coprime_not_divide q _ _ Hq Hxy Hq1). now transitivity p.
  - destruct (eval_prime f p Hf Ha Hp) as (x0 & y0 & Hp0).
    assert (Hc : Z.coprime N' p) by (apply Z.Symmetric_coprime; now apply Z.coprime_prime_l).
    assert (crt : forall u v, exists w, (N' | w - u) /\ (p | w - v)).
    { intros u v. exists (Z.combinecong N' p u v).
      destruct (Z.combinecong_sound_coprime N' p u v Hc) as [E1 E2].
      split; apply cong_divide; easy || lia. }
    destruct (crt x x0) as (X & HX1 & HX2), (crt y y0) as (Y & HY1 & HY2).
    exists X, Y. apply Z.coprime_mul_r.
    + apply coprime_primes; [lia|]. intros q Hq Hq1 Hq2.
      apply (coprime_not_divide q _ _ Hq Hxy); [|easy].
      replace (eval f x y) with (eval f X Y - (eval f X Y - eval f x y)) by ring.
      apply Z.divide_sub_r; [easy|]. transitivity N'; [easy|]. apply eval_cong; easy || lia.
    + apply Z.Symmetric_coprime. apply Z.coprime_prime_l; [easy|]. intros Hq. apply Hp0.
      replace (eval f x0 y0) with (eval f X Y - (eval f X Y - eval f x0 y0)) by ring.
      apply Z.divide_sub_r; [easy|]. apply eval_cong; easy || lia.
Qed.

(** Every class of primitive forms has a form whose first coefficient is prime
    to [N]. *)
Lemma equiv_coprime D f N : valid D f -> primitive f -> 0 < N ->
  exists g, equiv f g /\ Z.coprime (fa g) N.
Proof.
  intros V Hf HN. destruct (eval_coprime_any f N Hf) as (x & y & H); [|easy|].
  { destruct V. lia. }
  destruct (Z.eq_dec (Z.gcd x y) 0) as [E|E].
  { apply Z.gcd_eq_0 in E as [-> ->]. exists f. split; [reflexivity|].
    unfold eval in H. replace (_ + _ + _) with 0 in H by ring.
    pose proof (proj1 (Z.coprime_0_l_iff N) H). replace N with 1 by lia. apply Z.coprime_1_r. }
  set (d := Z.gcd x y) in *. pose proof (Z.gcd_nonneg x y) as Hd. fold d in Hd.
  destruct (Z.gcd_divide_l x y) as [x' Hx], (Z.gcd_divide_r x y) as [y' Hy]. fold d in Hx, Hy.
  assert (Hco : Z.coprime x' y').
  { pose proof (gcd_div_coprime x y d ltac:(lia) eq_refl) as Hc.
    rewrite Hx, Hy, !Z.div_mul in Hc by easy. exact Hc. }
  apply Z.Bezout_coprime in Hco as (s & q & Hb).
  exists (act x' (- q) y' s f). split; [apply act_equiv; lia|]. rewrite act_a.
  apply coprime_primes; [lia|]. intros p Hp H1 H2.
  apply (coprime_not_divide p _ _ Hp H); [|easy].
  replace (eval f x y) with (d * d * eval f x' y') by (rewrite Hx, Hy; unfold eval; ring).
  now apply Z.divide_mul_r.
Qed.

(** ** United forms (Dirichlet) *)

(** Forms [(a1, B, a2 C)] and [(a2, B, a1 C)] compose to [(a1 a2, B, C)]. *)
Lemma united_composite a1 a2 B C :
  composite (mkform a1 B (a2 * C)) (mkform a2 B (a1 * C)) (mkform (a1 * a2) B C).
Proof.
  exists (mkcube 1 0 0 (- C) 0 a1 a2 B).
  unfold side1, side2, side3. cbn [cj ck cl cm cr cs ct cu].
  repeat split; apply form_eq; ring.
Qed.

(** Two forms of one discriminant and one first coefficient whose middle
    coefficients agree modulo [2 a] are equivalent. *)
Lemma shift_equiv a b c b' c' n : a <> 0 -> b' = b + 2 * a * n ->
  disc (mkform a b c) = disc (mkform a b' c') -> equiv (mkform a b c) (mkform a b' c').
Proof.
  intros Ha -> Hd. exists 1, n, 0, 1. split; [ring|]. unfold act. cbn [fa fb fc].
  unfold disc in Hd. cbn [fa fb fc] in Hd. apply form_eq; [ring|ring|].
  apply (Z.mul_reg_l _ _ a Ha). nia.
Qed.

Lemma disc_parity f g D : disc f = D -> disc g = D -> exists h, fb g - fb f = 2 * h.
Proof.
  unfold disc. intros Hf Hg.
  assert (E : (fb g - fb f) * (fb g - fb f) + 2 * (fb f * (fb g - fb f)) = 4 * (fa g * fc g - fa f * fc f)) by lia.
  destruct (Z.Even_or_Odd (fb g - fb f)) as [[x Hx]|[x Hx]]; [now exists x|].
  rewrite Hx in E. lia.
Qed.

(** A middle coefficient for two forms with coprime first coefficients. *)
Lemma unite2 f g D : disc f = D -> disc g = D -> Z.coprime (fa f) (fa g) ->
  exists B n m, B = fb f + 2 * fa f * n /\ B = fb g + 2 * fa g * m.
Proof.
  intros Hf Hg Hc. destruct (disc_parity f g D Hf Hg) as (h & Hh).
  destruct (coprime_solve (fa f) h (fa g) Hc) as (n & m & Hnm).
  exists (fb f + 2 * fa f * n), n, m. split; [easy|]. lia.
Qed.

Lemma disc_divide f B n : B = fb f + 2 * fa f * n -> (4 * fa f | B * B - disc f).
Proof.
  intros ->. unfold disc. exists (fb f * n + fa f * n * n + fc f). ring.
Qed.

(** Three primitive forms of discriminant [D], up to equivalence, have pairwise
    coprime first coefficients, a common middle coefficient [B], and last
    coefficients that are products of the others with a common [C]. *)
Lemma unite3 D f g h : valid D f -> valid D g -> valid D h ->
  primitive f -> primitive g -> primitive h ->
  exists a1 a2 a3 B C, 0 < a1 /\ 0 < a2 /\ 0 < a3 /\
    equiv f (mkform a1 B (a2 * a3 * C)) /\
    equiv g (mkform a2 B (a1 * a3 * C)) /\
    equiv h (mkform a3 B (a1 * a2 * C)).
Proof.
  intros Vf Vg Vh Pf Pg Ph. pose proof Vf as [Hf Hn Ha1].
  destruct (equiv_coprime D g (fa f) Vg Pg Ha1) as (g' & Qg & Cg).
  assert (Vg' : valid D g') by now rewrite <- Qg. pose proof Vg' as [Hg _ Ha2].
  destruct (equiv_coprime D h (fa f * fa g') Vh Ph ltac:(nia)) as (h' & Qh & Ch).
  assert (Vh' : valid D h') by now rewrite <- Qh. pose proof Vh' as [Hh _ Ha3].
  apply Z.Symmetric_coprime in Cg, Ch.
  destruct (unite2 f g' D Hf Hg Cg) as (B0 & n0 & m0 & E1 & E2).
  (* the form with first coefficient a1 a2 that carries B0 *)
  assert (Hdiv : (fa f * fa g' | (B0 * B0 - D) / 4)).
  { pose proof (disc_divide f B0 n0 E1) as [x Hx]. pose proof (disc_divide g' B0 m0 E2) as [y Hy].
    rewrite Hf in Hx. rewrite Hg in Hy. apply coprime_divide_mul; [easy| |].
    - exists x. rewrite Hx. replace (x * (4 * fa f)) with (x * fa f * 4) by ring. now apply Z.div_mul.
    - exists y. rewrite Hy. replace (y * (4 * fa g')) with (y * fa g' * 4) by ring. now apply Z.div_mul. }
  destruct Hdiv as [C0 HC0].
  assert (H4 : forall F B n, disc F = D -> B = fb F + 2 * fa F * n -> B * B - D = 4 * ((B * B - D) / 4)).
  { intros F B n HF E. destruct (disc_divide F B n E) as [x Hx]. rewrite HF in Hx. rewrite Hx.
    replace (x * (4 * fa F)) with (x * fa F * 4) by ring. rewrite Z.div_mul; lia. }
  pose proof (H4 f B0 n0 Hf E1) as HB0.
  set (k := mkform (fa f * fa g') B0 C0).
  assert (Hk : disc k = D) by (unfold disc, k; cbn [fa fb fc]; lia).
  destruct (unite2 k h' D Hk Hh Ch) as (B & n & m & E3 & E4). cbn [k fa fb] in E3.
  assert (Hdiv : (fa f * fa g' * fa h' | (B * B - D) / 4)).
  { pose proof (disc_divide k B n E3) as [x Hx]. pose proof (disc_divide h' B m E4) as [y Hy].
    rewrite Hk in Hx. rewrite Hh in Hy. cbn [k fa] in Hx. apply coprime_divide_mul; [easy| |].
    - exists x. rewrite Hx. replace (x * _) with (x * (fa f * fa g') * 4) by ring. now apply Z.div_mul.
    - exists y. rewrite Hy. replace (y * (4 * fa h')) with (y * fa h' * 4) by ring. now apply Z.div_mul. }
  destruct Hdiv as [C HC]. pose proof (H4 h' B m Hh E4) as HB.
  exists (fa f), (fa g'), (fa h'), B, C. repeat (split; [easy|]).
  assert (HD : B * B - D = 4 * (fa f * fa g' * fa h' * C)) by lia.
  split; [|split]; [|rewrite Qg|rewrite Qh].
  - rewrite (form_eta f) at 1. apply (shift_equiv _ _ _ _ _ (n0 + fa g' * n)); [lia|lia|].
    rewrite <- form_eta, Hf. unfold disc. cbn [fa fb fc]. lia.
  - rewrite (form_eta g') at 1. apply (shift_equiv _ _ _ _ _ (m0 + fa f * n)); [lia|lia|].
    rewrite <- form_eta, Hg. unfold disc. cbn [fa fb fc]. lia.
  - rewrite (form_eta h') at 1. apply (shift_equiv _ _ _ _ _ m); [lia|lia|].
    rewrite <- form_eta, Hh. unfold disc. cbn [fa fb fc]. lia.
Qed.

(** ** The class group *)

(** A representative of a class of primitive positive definite forms. *)
Record class (D : Z) (f : form) : Prop := { class_valid : valid D f; class_primitive : primitive f }.

#[export] Instance class_Proper D : Proper (equiv ==> iff) (class D).
Proof. intros f g E. split; intros [V P]; split; (now rewrite <- E) || now rewrite E. Qed.

(** The principal class: the forms that represent 1. *)
Definition principal (D : Z) (e : form) : Prop :=
  D < 0 /\ exists b c, equiv e (mkform 1 b c) /\ disc (mkform 1 b c) = D.

Lemma united_primitive a1 a2 B C : 0 < a1 -> 0 < a2 ->
  primitive (mkform a1 B (a2 * C)) -> primitive (mkform a2 B (a1 * C)) ->
  primitive (mkform (a1 * a2) B C).
Proof.
  intros H1 H2. rewrite !primitive_primes by (cbn [fa]; nia). cbn [fa fb fc].
  intros P1 P2 p Hp Ha Hb Hc. apply (prime_divide_mul p) in Ha as [Ha|Ha]; [| |easy].
  - apply (P1 p Hp); auto using Z.divide_mul_r.
  - apply (P2 p Hp); auto using Z.divide_mul_r.
Qed.

Section ClassGroup.
Variable D : Z.

Lemma composite_class f g h : class D f -> class D g -> composite f g h -> class D h.
Proof.
  intros [Vf Pf] [Vg Pg] C.
  destruct (unite3 D f g g Vf Vg Vg Pf Pg Pg) as (a1 & a2 & a3 & B & E & H1 & H2 & H3 & Qf & Qg & _).
  assert (C' : composite f g (mkform (a1 * a2) B (a3 * E))).
  { rewrite Qf, Qg. rewrite <- !Z.mul_assoc. apply united_composite. }
  rewrite (composite_unique f g h _ Pf C C'). destruct Vf as [HD Hn _].
  rewrite Qf, <- Z.mul_assoc in Pf. rewrite Qg, <- Z.mul_assoc in Pg. rewrite Qf in HD.
  split; [|now apply united_primitive].
  split; [|easy|cbn [fa]; nia]. rewrite <- HD. unfold disc. cbn [fa fb fc]. ring.
Qed.

Lemma composite_exists f g : class D f -> class D g -> exists h, composite f g h.
Proof.
  intros [Vf Pf] [Vg Pg].
  destruct (unite3 D f g g Vf Vg Vg Pf Pg Pg) as (a1 & a2 & a3 & B & E & H1 & H2 & H3 & Qf & Qg & _).
  exists (mkform (a1 * a2) B (a3 * E)). rewrite Qf, Qg. rewrite <- !Z.mul_assoc. apply united_composite.
Qed.

Lemma composite_assoc f g h fg gh k l : class D f -> class D g -> class D h ->
  composite f g fg -> composite fg h k -> composite g h gh -> composite f gh l -> equiv k l.
Proof.
  intros Cf Cg Ch C1 C2 C3 C4.
  assert (Cfg : class D fg) by now apply (composite_class f g).
  destruct Cf as [Vf Pf], Cg as [Vg Pg], Ch as [Vh Ph].
  destruct (unite3 D f g h Vf Vg Vh Pf Pg Ph) as (a1 & a2 & a3 & B & E & H1 & H2 & H3 & Qf & Qg & Qh).
  assert (E1 : equiv fg (mkform (a1 * a2) B (a3 * E))).
  { apply (composite_unique f g); [easy|easy|]. rewrite Qf, Qg, <- !Z.mul_assoc. apply united_composite. }
  assert (E3 : equiv gh (mkform (a2 * a3) B (a1 * E))).
  { apply (composite_unique g h); [easy|easy|]. rewrite Qg, Qh.
    replace (a1 * a3 * E) with (a3 * (a1 * E)) by ring. replace (a1 * a2 * E) with (a2 * (a1 * E)) by ring.
    apply united_composite. }
  transitivity (mkform (a1 * (a2 * a3)) B E).
  - apply (composite_unique fg h); [apply Cfg|easy|]. rewrite E1, Qh, Z.mul_assoc. apply united_composite.
  - symmetry. apply (composite_unique f gh); [easy|easy|]. rewrite Qf, E3. apply united_composite.
Qed.

Lemma principal_equiv e e' : principal D e -> principal D e' -> equiv e e'.
Proof.
  intros [Hn (b & c & E & HD)] [_ (b' & c' & E' & HD')]. rewrite E, E'.
  destruct (disc_parity _ _ D HD HD') as (h & Hh). cbn [fb] in Hh.
  apply (shift_equiv _ _ _ _ _ h); [easy|lia|congruence].
Qed.

Lemma principal_composite f e : class D f -> principal D e -> composite f e f.
Proof.
  intros [[HD Hn Ha] _] He. destruct f as [a b c].
  pose proof (united_composite a 1 b c) as C. rewrite Z.mul_1_l, Z.mul_1_r in C.
  assert (E : equiv e (mkform 1 b (a * c))); [|now rewrite E].
  apply principal_equiv; [easy|]. split; [easy|]. exists b, (a * c). split; [reflexivity|].
  rewrite <- HD. unfold disc. cbn [fa fb fc]. ring.
Qed.

Lemma principal_class e : principal D e -> class D e.
Proof.
  intros [Hn (b & c & E & HD)]. rewrite E. split; [split; [easy|easy|reflexivity]|].
  apply (bezout_primitive _ 1 0 0). cbn [fa fb fc]. ring.
Qed.

Lemma inverse_composite f e : class D f -> composite f (mkform (fa f) (- fb f) (fc f)) e -> principal D e.
Proof.
  intros Cf C. pose proof Cf as [[HD Hn Ha] Pf]. destruct f as [a b c]. cbn [fa fb fc] in *.
  assert (E : equiv (mkform a (- b) c) (mkform c b a)).
  { exists 0, (-1), 1, 0. split; [ring|form_ring]. }
  rewrite E in C. pose proof (united_composite a c b 1) as C'. rewrite !Z.mul_1_r in C'.
  pose proof (composite_unique _ _ _ _ Pf C C') as Q. split; [easy|].
  exists (- b), (a * c). split.
  - rewrite Q. exists 0, (-1), 1, 0. split; [ring|form_ring].
  - rewrite <- HD. unfold disc. cbn [fa fb fc]. ring.
Qed.

(** ** Powers of a class *)

Inductive power (f : form) : nat -> form -> Prop :=
| power_0 e : principal D e -> power f 0 e
| power_S n g h : power f n g -> composite g f h -> power f (S n) h.

Variable f : form.
Hypothesis Cf : class D f.

Lemma power_class n h : power f n h -> class D h.
Proof.
  induction 1 as [e He|n g h _ IH C]; [now apply principal_class|].
  now apply (composite_class g f).
Qed.

Lemma power_unique n h : power f n h -> forall h', power f n h' -> equiv h h'.
Proof.
  induction 1 as [e He|n g h Pg IH C]; intros h' H; inversion H as [e' He'|n' g' h'' Pg' C']; subst.
  - now apply principal_equiv.
  - rewrite <- (IH g' Pg') in C'. apply (composite_unique g f); [|easy|easy].
    now apply (power_class n).
Qed.

Lemma power_equiv n h h' : power f n h -> equiv h h' -> power f n h'.
Proof.
  intros H E. inversion H as [e [Hn (b & c & Q & HD)]|n' g h'' Pg C]; subst.
  - apply power_0. split; [easy|]. exists b, c. now rewrite <- E.
  - apply (power_S f n' g); [easy|]. now rewrite <- E.
Qed.

Lemma power_total n : (exists e, principal D e) -> exists h, power f n h.
Proof.
  intros [e He]. induction n as [|n [g Hg]]; [exists e; now apply power_0|].
  destruct (composite_exists g f) as (h & Hh); [now apply (power_class n)|easy|].
  exists h. now apply (power_S f n g).
Qed.

Lemma power_one e : principal D e -> power f 1 f.
Proof.
  intros He. apply (power_S f 0 e); [now apply power_0|].
  apply composite_sym. now apply principal_composite.
Qed.

(** [f^m f^n = f^(m + n)]. *)
Lemma power_add m n : forall g h k, power f m g -> power f n h -> composite g h k ->
  power f (m + n) k.
Proof.
  induction n as [|n IH]; intros g h k Pg Ph C.
  - rewrite Nat.add_0_r. inversion Ph as [e He|]; subst.
    apply (power_equiv m g); [easy|].
    apply (composite_unique g h); [apply (power_class m g Pg)| |easy].
    apply principal_composite; [now apply (power_class m)|easy].
  - rewrite Nat.add_succ_r. inversion Ph as [|n' h' h'' Ph' C']; subst.
    pose proof (power_class _ _ Pg) as Cg. pose proof (power_class _ _ Ph') as Ch.
    destruct (composite_exists g h' Cg Ch) as (l & Hl).
    pose proof (IH g h' l Pg Ph' Hl) as Pl. pose proof (power_class _ _ Pl) as Cl.
    destruct (composite_exists l f Cl Cf) as (k' & Hk).
    apply (power_equiv _ k'); [now apply (power_S f _ l)|].
    now apply (composite_assoc g h' f l h k' k).
Qed.
End ClassGroup.

(** [(f^m)^n = f^(m n)]. *)
Lemma power_mul D f m g n : class D f -> power D f m g ->
  forall h, power D g n h -> power D f (m * n) h.
Proof.
  intros Cf Pg. pose proof (power_class D f Cf _ _ Pg) as Cg.
  induction n as [|n IH]; intros h Ph; inversion Ph as [e He|n' h' h'' Ph' C]; subst.
  - rewrite Nat.mul_0_r. now apply power_0.
  - replace (m * S n)%nat with (m * n + m)%nat by lia. apply (power_add D f Cf _ _ h' g); auto.
Qed.

Lemma power_equiv_base D f f' n h : equiv f f' -> power D f n h -> power D f' n h.
Proof.
  intros E. induction 1 as [e He|n g h _ IH C]; [now apply power_0|].
  apply (power_S D f' n g); [easy|]. now rewrite <- E.
Qed.
