(* ===== verification/Integer.v ===== *)
(** [struct integer] of [integer_common.h]: the C++ wrapper around [mpz_t].
    Its additive and multiplicative operators, its comparisons and its copies
    are those of [Z]; this file defines the ones that can trap, assert, throw
    or depend on a representation. *)
From S2P Require Import Prelude Words NumTheory Gmp.

(** ** Division: GMP traps on a zero divisor *)

(** [mpz_fdiv_q], [operator/]. *)
Definition fdiv_q (n d : Z) : res Z :=
  require negb (d =? 0) else division_by_zero ;; Ok (n / d).

(** [mpz_fdiv_r], [integer::fdiv_r]: the remainder has the sign of the divisor. *)
Definition fdiv_r (n d : Z) : res Z :=
  require negb (d =? 0) else division_by_zero ;; Ok (n mod d).

(** [mpz_mod], [operator%]: "different from mpz_fdiv_r because it ignores the
    sign of t". *)
Definition mpz_mod (n d : Z) : res Z :=
  require negb (d =? 0) else division_by_zero ;; Ok (n mod Z.abs d).

(** [mpz_tdiv_r]. *)
Definition tdiv_r (n d : Z) : res Z :=
  require negb (d =? 0) else division_by_zero ;; Ok (Z.rem n d).

(** ** Shifts and bits *)

(** [operator<<] and [operator>>] on an [int] shift count. *)
Definition shift_left (x i : Z) : res Z :=
  require (0 <=? i) else assertion_failed ;; Ok (Z.shiftl x i).
Definition shift_right (x i : Z) : res Z :=
  require (0 <=? i) else assertion_failed ;; Ok (Z.shiftr x i).

(** [mpz_setbit] and [mpz_clrbit] take an unsigned bit index: a negative
    [int] becomes an index no allocation can hold. *)
Definition set_bit (x index : Z) (value : bool) : res Z :=
  require (0 <=? index) else undefined_behaviour ;;
  Ok (if value then Z.setbit x index else Z.clearbit x index).

Definition get_bit (x index : Z) : bool := Z.testbit x (u64 index).

Section WithGmp.
Context `{G : Gmp}.

(** ** Sizes and conversions *)

Definition num_bits (x : Z) : res Z := checked_cast int_t uint64_ty (mpz_sizeinbase2 x).

Definition mpz_num_bits_upper_bound (x : Z) : res Z :=
checked_cast int_t uint64_ty (u64 (mpz_size x * 8 * 8)).

(** The constructors from big-endian bytes. *)
Definition integer_of_bytes (v : bytes) : Z := mpz_import_msb v.

(** [to_bytes]: the buffer has one byte for zero, which [mpz_export] leaves 0. *)
Definition to_bytes (x : Z) : bytes :=
let n := Z.to_nat ((mpz_sizeinbase2 x + 7) / 8) in
let out := mpz_export_msb x in
out ++ repeat 0 (n - length out).

(** [to_vector]: the limbs, least significant first; none for zero. *)
Definition to_vector (x : Z) : list Z :=
map (mpz_getlimbn x) (map Z.of_nat (seq 0 (Z.to_nat (mpz_size x)))).

(** ** [gcd] *)

Record gcd_res : Type := mkgcd { gr_gcd : Z; gr_s : Z; gr_t : Z }.

Definition gcd (a b : Z) : gcd_res :=
let '(g, s, t) := mpz_gcdext a b in mkgcd g s t.

End WithGmp.

(** ** Lemmas *)

Lemma fdiv_q_ok n d : d <> 0 -> fdiv_q n d = Ok (n / d).
Proof. intros H. unfold fdiv_q. now destruct (Z.eqb_spec d 0). Qed.

Lemma fdiv_q_exact n d q : d <> 0 -> n = d * q -> fdiv_q n d = Ok q.
Proof. intros H ->. rewrite fdiv_q_ok by easy. now rewrite Z.mul_comm, Z.div_mul. Qed.

Lemma fdiv_r_ok n d : d <> 0 -> fdiv_r n d = Ok (n mod d).
Proof. intros H. unfold fdiv_r. now destruct (Z.eqb_spec d 0). Qed.

Lemma mpz_mod_ok n d : d <> 0 -> mpz_mod n d = Ok (n mod Z.abs d).
Proof. intros H. unfold mpz_mod. now destruct (Z.eqb_spec d 0). Qed.

Lemma mpz_mod_pos n d : 0 < d -> mpz_mod n d = Ok (n mod d).
Proof. intros H. rewrite mpz_mod_ok, Z.abs_eq by lia. easy. Qed.

Lemma tdiv_r_ok n d : d <> 0 -> tdiv_r n d = Ok (Z.rem n d).
Proof. intros H. unfold tdiv_r. now destruct (Z.eqb_spec d 0). Qed.

Section GmpFacts.
Context `{GL : GmpLaws}.

Lemma num_bits_ok x : bitlen x < 2 ^ 31 -> num_bits x = Ok (bitlen x).
Proof.
  intros H. unfold num_bits. rewrite mpz_sizeinbase2_spec. pose proof (bitlen_pos x).
  assert (Hv : limits_min int_t <= bitlen x <= limits_max int_t) by (cbv -[bitlen Z.le]; lia).
  rewrite checked_cast_spec by (cbv -[bitlen Z.le]; lia).
  destruct Hv as [Hv1 Hv2]. apply Z.leb_le in Hv1, Hv2. now rewrite Hv1, Hv2.
Qed.

Lemma gcd_spec a b : let r := gcd a b in
  gr_gcd r = Z.gcd a b /\ a * gr_s r + b * gr_t r = Z.gcd a b.
Proof.
  unfold gcd. destruct (mpz_gcdext a b) as [[g s] t] eqn:E.
  apply mpz_gcdext_spec in E as [-> E]. cbn. auto.
Qed.

Lemma bytelen_bound x : 0 <= x -> x < 256 ^ Z.of_nat (Z.to_nat (bytelen x)).
Proof.
  intros Hx. unfold bytelen. destruct (Z.eqb_spec x 0) as [->|Hn]; [reflexivity|].
  pose proof (bitlen_pos x). pose proof (Z.div_mod (bitlen x + 7) 8).
  pose proof (Z.mod_pos_bound (bitlen x + 7) 8).
  rewrite Z2Nat.id by (apply Z.div_pos; lia).
  change 256 with (2 ^ 8). rewrite <- Z.pow_mul_r by (try apply Z.div_pos; lia).
  rewrite <- (Z.abs_eq x) at 1 by easy. apply bitlen_lt_pow. lia.
Qed.

(** Writing an integer's magnitude to bytes and reading it back. *)
Lemma integer_of_to_bytes x : x <> 0 -> integer_of_bytes (to_bytes x) = Z.abs x.
Proof.
  intros Hx. unfold integer_of_bytes, to_bytes.
  rewrite mpz_import_msb_spec, mpz_export_msb_spec, mpz_sizeinbase2_spec, be_split_length.
  assert (E : bytelen x = (bitlen x + 7) / 8)
    by (unfold bytelen; now destruct (Z.eqb_spec x 0)).
  rewrite E, Nat.sub_diag. cbn [repeat]. rewrite app_nil_r.
  apply be_combine_split. split; [lia|].
  rewrite <- E. replace (bytelen x) with (bytelen (Z.abs x)).
  - apply bytelen_bound. lia.
  - unfold bytelen, bitlen. rewrite Z.abs_idemp.
    destruct (Z.eqb_spec x 0), (Z.eqb_spec (Z.abs x) 0); lia.
Qed.
End GmpFacts.
