(* ===== verification/Forms.v ===== *)
(** The class-group arithmetic of [src/src/vdf_new.h]: normalisation and
    reduction, the checked constructors of [struct form], squaring and
    multiplication, proved against the notions of [QuadForm]. *)
From Stdlib Require Import Setoid Morphisms.
From S2P Require Import Prelude NumTheory Gmp QuadForm FormClass Integer.

(** ** normalize, reduce_impl, reduce *)

Definition normalize (f : form) : res form :=
  let '(mkform a b c) := f in
  two_a <- shift_left a 1 ;;
  r <- fdiv_q (a - b) two_a ;;
  ra1 <- shift_left (r * a) 1 ;;
  Ok (mkform a (b + ra1) (a * r * r + b * r + c)).

Definition reduce_impl (f : form) : res form :=
  let '(mkform a b c) := f in
  two_c <- shift_left c 1 ;;
  s <- fdiv_q (c + b) two_c ;;
  sc1 <- shift_left (s * c) 1 ;;
  Ok (mkform c (sc1 - b) (c * s * s - b * s + a)).

(** The condition of the [while] loop of [reduce]. *)
Definition reduce_more (f : form) : bool :=
  (fc f <? fa f) || ((fa f =? fc f) && (fb f <? 0)).

Fixpoint reduce_loop (fuel : nat) (f : form) : res form :=
  if reduce_more f then
    match fuel with
    | O => Throw out_of_fuel
    | S fuel' => f' <- reduce_impl f ;; reduce_loop fuel' f'
    end
  else Ok f.

(** Enough iterations for a positive definite form: the first coefficient
    halves until it is below sqrt |D|, and then two more steps finish. *)
Definition reduce_fuel (f : form) : nat := (Z.to_nat (Z.log2 (fa f)) + 3)%nat.

Definition reduce (f : form) : res form :=
  f1 <- normalize f ;;
  f2 <- reduce_loop (reduce_fuel f1) f1 ;;
  normalize f2.

(** ** struct form *)

Definition from_abd (t_a t_b d : Z) : res form :=
  let c := t_b * t_b - d in
  if t_a <=? 0 then Throw runtime_error
  else
    a4 <- shift_left t_a 2 ;;
    rem <- mpz_mod c a4 ;;
    if negb (rem =? 0) then Throw runtime_error
    else
      a4' <- shift_left t_a 2 ;;
      c' <- fdiv_q c a4' ;;
      reduce (mkform t_a t_b c').

Definition identity (d : Z) : res form := from_abd 1 1 d.
Definition generator (d : Z) : res form := from_abd 2 1 d.

Definition generator_for_discriminant (d : Z) : res form :=
  a4 <- shift_left 2 2 ;;
  c <- fdiv_q (1 * 1 - d) a4 ;;
  reduce (mkform 2 1 c).

Definition is_reduced (f : form) : bool :=
  let '(mkform a b c) := f in
  if (a <? c) || ((a =? c) && (0 <=? b))
  then (Z.abs b <? Z.abs a) || (a =? b)
  else false.

Definition inverse (f : form) : res form := reduce (mkform (fa f) (- fb f) (fc f)).

Definition check_valid (f : form) (d : Z) : bool := fb f * fb f - 4 * fa f * fc f =? d.

Definition form_eqb (f g : form) : bool :=
  (fa f =? fa g) && (fb f =? fb g) && (fc f =? fc g).

(** [operator<]: the lexicographic order on [make_tuple(a, b, c)]. *)
Definition form_ltb (f g : form) : bool :=
  (fa f <? fa g) || ((fa f =? fa g) &&
    ((fb f <? fb g) || ((fb f =? fb g) && (fc f <? fc g)))).

Section WithGmp.
Context `{G : Gmp}.

(** [hash] reads the lowest limb of [c]; [to_vector] of zero is empty. *)
Definition form_hash (f : form) : res Z :=
match to_vector (fc f) with
| [] => Throw undefined_behaviour
| limb :: _ => Ok (Z.land (Z.shiftr limb 4) (2 ^ 31 - 1))
end.

(** ** square *)

Definition square_abc (f : form) : res form :=
let '(mkform a b c) := f in
let r := gcd b a in
q <- fdiv_q c (gr_gcd r) ;;
u <- mpz_mod (q * gr_s r) a ;;
au1 <- shift_left (a * u) 1 ;;
m <- fdiv_q (b * u - c) a ;;
Ok (mkform (a * a) (b - au1) (u * u - m)).

Definition square (f : form) : res form := f' <- square_abc f ;; reduce f'.

(** ** multiply *)

Definition three_gcd (a b c : Z) : Z := gr_gcd (gcd (gr_gcd (gcd a b)) c).

(** Solves [a x = b (mod m)] as [x = mu + v n]. *)
Definition solve_linear_congruence (a b m : Z) : res (Z * Z) :=
let gcd_r := gcd a m in
let g := gr_gcd gcd_r in
let d := gr_s gcd_r in
q <- fdiv_q b g ;;
r <- mpz_mod b g ;;
require r =? 0 else assertion_failed ;;
mu <- mpz_mod (q * d) m ;;
v <- fdiv_q m g ;;
Ok (mu, v).

Definition multiply (f1 f2 : form) : res form :=
g <- fdiv_q (fb f2 + fb f1) 2 ;;
h <- fdiv_q (fb f2 - fb f1) 2 ;;
let w := three_gcd (fa f1) (fa f2) g in
let j := w in
s <- fdiv_q (fa f1) w ;;
t <- fdiv_q (fa f2) w ;;
u <- fdiv_q g w ;;
' (k_temp, constant_factor) <-
  solve_linear_congruence (t * u) (h * u + s * fc f1) (s * t) ;;
' (n, _) <-
  solve_linear_congruence (t * constant_factor) (h - t * k_temp) s ;;
let k := k_temp + constant_factor * n in
l <- fdiv_q (t * k - h) s ;;
m <- fdiv_q (t * u * k - h * u - s * fc f1) (s * t) ;;
reduce (mkform (s * t) (j * u - (k * t + l * s)) (k * l - j * m)).

(** [operator*]: the operands are compared by address, [same]. *)
Definition op_mul (same : bool) (a b : form) : res form :=
if same then square a else multiply a b.

End WithGmp.

(** ** Reduction *)

(** The coefficient condition [-a < b <= a]. *)
Definition normalized (f : form) : Prop := - fa f < fb f <= fa f.

Lemma shift_left_1 x : shift_left x 1 = Ok (2 * x).
Proof. unfold shift_left. cbn [Z.leb]. now rewrite Z.shiftl_mul_pow2, Z.mul_comm by lia. Qed.

Lemma shift_left_2 x : shift_left x 2 = Ok (4 * x).
Proof. unfold shift_left. cbn [Z.leb]. now rewrite Z.shiftl_mul_pow2, Z.mul_comm by lia. Qed.

(** One normalisation step: [r] is the rounded quotient and the result is the
    form acted on by the shift [x -> x + r y]. *)
Lemma normalize_act f : 0 < fa f -> exists r,
  normalize f = Ok (act 1 r 0 1 f) /\ normalized (act 1 r 0 1 f).
Proof.
  destruct f as [a b c]. cbn [fa]. intros Ha. exists ((a - b) / (2 * a)).
  unfold normalize. rewrite shift_left_1. cbn [bind]. rewrite fdiv_q_ok by lia. cbn [bind].
  rewrite shift_left_1. cbn [bind]. set (r := (a - b) / (2 * a)). split.
  - f_equal. form_ring.
  - unfold normalized, act. cbn [fa fb fc].
    pose proof (Z.div_mod (a - b) (2 * a) ltac:(lia)).
    pose proof (Z.mod_pos_bound (a - b) (2 * a) ltac:(lia)). fold r in H. lia.
Qed.

Lemma normalize_id f : 0 < fa f -> normalized f -> normalize f = Ok f.
Proof.
  destruct f as [a b c]. unfold normalized. cbn [fa fb]. intros Ha Hb.
  unfold normalize. rewrite shift_left_1. cbn [bind]. rewrite fdiv_q_ok by lia. cbn [bind].
  rewrite Z.div_small by lia. rewrite shift_left_1. cbn [bind]. f_equal. form_ring.
Qed.

(** One reduction step acts by [(x, y) -> (-y, x + s y)], s the rounded quotient. *)
Lemma reduce_impl_act f : 0 < fc f -> exists s,
  reduce_impl f = Ok (act 0 (-1) 1 s f) /\ normalized (act 0 (-1) 1 s f) /\
  s = (fc f + fb f) / (2 * fc f).
Proof.
  destruct f as [a b c]. cbn [fc fb]. intros Hc. exists ((c + b) / (2 * c)).
  unfold reduce_impl. rewrite shift_left_1. cbn [bind]. rewrite fdiv_q_ok by lia. cbn [bind].
  rewrite shift_left_1. cbn [bind]. set (s := (c + b) / (2 * c)). repeat split.
  - f_equal. form_ring.
  - unfold act. cbn [fa fb fc].
    pose proof (Z.div_mod (c + b) (2 * c) ltac:(lia)).
    pose proof (Z.mod_pos_bound (c + b) (2 * c) ltac:(lia)). fold s in H. lia.
  - unfold act. cbn [fa fb fc].
    pose proof (Z.div_mod (c + b) (2 * c) ltac:(lia)).
    pose proof (Z.mod_pos_bound (c + b) (2 * c) ltac:(lia)). fold s in H. lia.
Qed.

Lemma reduce_impl_ok D f : valid D f -> exists g,
  reduce_impl f = Ok g /\ normalized g /\ equiv f g /\ valid D g /\ fa g = fc f.
Proof.
  intros V. destruct (reduce_impl_act f (valid_c D f V)) as (s & E & N & _).
  exists (act 0 (-1) 1 s f). assert (Q : equiv f (act 0 (-1) 1 s f)) by (apply act_equiv; ring).
  split; [easy|]. split; [easy|]. split; [easy|]. split; [now rewrite <- Q|]. form_ring.
Qed.

(** A reduced form, after the loop's exit test. *)
Lemma reduced_exit f : normalized f -> reduce_more f = false -> reduced f.
Proof.
  unfold normalized, reduce_more, reduced. intros N H.
  apply Bool.orb_false_iff in H as [H1 H2]. apply Z.ltb_ge in H1.
  split; [lia|]. split; [lia|]. intros E. rewrite E, Z.eqb_refl in H2. cbn [andb] in H2.
  apply Z.ltb_ge in H2. lia.
Qed.

Lemma reduce_more_iff f : reduce_more f = true <-> fc f < fa f \/ fa f = fc f /\ fb f < 0.
Proof. unfold reduce_more. rewrite Bool.orb_true_iff, Bool.andb_true_iff, !Z.ltb_lt, Z.eqb_eq. tauto. Qed.

(** While the first coefficient is at least sqrt |D|, a step halves it. *)
Lemma step_halves D f : valid D f -> normalized f -> - D <= fa f * fa f -> 2 * fc f <= fa f.
Proof.
  intros [HD Hn Ha] N Hbig. unfold normalized in N. unfold disc in HD.
  pose proof (square_le_abs (fb f) (fa f) ltac:(lia)).
  apply (Z.mul_le_mono_pos_l _ _ (fa f)); lia.
Qed.

(** Below sqrt |D| one step makes the last coefficient dominate. *)
Lemma step_small D f g : valid D f -> normalized f -> fc f <= fa f -> fa f * fa f < - D ->
  reduce_impl f = Ok g -> fa g <= fc g.
Proof.
  intros V N Hca Hsmall E. pose proof (valid_c D f V) as Hc.
  destruct (reduce_impl_act f Hc) as (s & E' & _ & Hs). rewrite E' in E. injection E as <-.
  destruct V as [HD Hn Ha]. unfold normalized in N. unfold disc in HD.
  pose proof (Z.div_mod (fc f + fb f) (2 * fc f) ltac:(lia)) as Hdm.
  pose proof (Z.mod_pos_bound (fc f + fb f) (2 * fc f) ltac:(lia)) as Hmb.
  rewrite <- Hs in Hdm. set (rho := (fc f + fb f) mod (2 * fc f)) in *. clearbody rho. clear Hs E'.
  unfold act. cbn [fa fc]. destruct f as [a b c]. cbn [fa fb fc] in *.
  assert (s = 0 \/ s = 1 \/ s = -1 \/ 2 <= s \/ s <= -2) as [->|[->|[->|Hs]]] by lia; [lia..|].
  exfalso. assert (H3 : 3 * c <= Z.abs b) by nia. rewrite <- (Z.abs_square b) in HD.
  set (B := Z.abs b) in *. clearbody B. clear - H3 HD Hsmall Ha Hc.
  pose proof (Z.mul_nonneg_nonneg a (B - 3 * c) ltac:(lia) ltac:(lia)).
  pose proof (Z.square_nonneg (a - B)). nia.
Qed.

(** The last possible step: it only makes the middle coefficient positive. *)
Lemma step_last f g : 0 < fa f -> normalized f -> fa f = fc f -> fb f < 0 ->
  reduce_impl f = Ok g -> fa g = fc g /\ 0 <= fb g.
Proof.
  destruct f as [a b c]. unfold normalized. cbn [fa fb fc]. intros Ha N <- Hb E.
  unfold reduce_impl in E. rewrite shift_left_1 in E. cbn [bind] in E.
  rewrite fdiv_q_ok in E by lia. cbn [bind] in E. rewrite Z.div_small in E by lia.
  rewrite shift_left_1 in E. cbn [bind] in E. injection E as <-. cbn [fa fb fc]. lia.
Qed.

(** Once the last coefficient dominates, at most one more step is made. *)
Lemma loop_dominated D f n : valid D f -> normalized f -> fa f <= fc f ->
  exists g, reduce_loop (S n) f = Ok g /\ reduced g /\ equiv f g.
Proof.
  intros V N Hac. cbn [reduce_loop]. destruct (reduce_more f) eqn:E.
  - apply reduce_more_iff in E as [E|[E Hb]]; [lia|].
    destruct (reduce_impl_ok D f V) as (g & Eg & Ng & Qg & Vg & _). rewrite Eg. cbn [bind].
    destruct (step_last f g) as (H1 & H2); try easy; [apply V|].
    assert (M : reduce_more g = false).
    { apply Bool.not_true_is_false. rewrite reduce_more_iff. lia. }
    exists g. split; [|split; [now apply reduced_exit | easy]].
    destruct n; cbn [reduce_loop]; now rewrite M.
  - exists f. split; [easy|]. split; [now apply reduced_exit | reflexivity].
Qed.

Lemma loop_ok D n : forall f, valid D f -> normalized f -> fa f < 2 ^ Z.of_nat n ->
  exists g, reduce_loop (S (S n)) f = Ok g /\ reduced g /\ equiv f g.
Proof.
  induction n as [|n IH]; intros f V N Hf; pose proof (valid_pos D f V) as Ha.
  { change (2 ^ Z.of_nat 0) with 1 in Hf. lia. }
  destruct (Z.le_gt_cases (fa f) (fc f)) as [Hac|Hac]; [now apply (loop_dominated D)|].
  cbn [reduce_loop]. rewrite (proj2 (reduce_more_iff f)) by lia.
  destruct (reduce_impl_ok D f V) as (g & Eg & Ng & Qg & Vg & Hg). rewrite Eg. cbn [bind].
  assert (H : exists h, reduce_loop (S (S n)) g = Ok h /\ reduced h /\ equiv g h).
  { destruct (Z.le_gt_cases (- D) (fa f * fa f)) as [Hbig|Hsmall].
    - apply IH; try easy. pose proof (step_halves D f V N Hbig).
      rewrite Nat2Z.inj_succ, Z.pow_succ_r in Hf by lia. lia.
    - apply (loop_dominated D); try easy. apply (step_small D f); try easy. lia. }
  destruct H as (h & E1 & E2 & E3). exists h. split; [exact E1|]. split; [easy|].
  now rewrite Qg.
Qed.

Lemma reduced_normalized f : reduced f -> normalized f.
Proof. now intros [H _]. Qed.

Lemma reduce_ok D f : valid D f ->
  exists g, reduce f = Ok g /\ reduced g /\ equiv f g /\ valid D g.
Proof.
  intros V. pose proof (valid_pos D f V) as Ha. unfold reduce.
  destruct (normalize_act f Ha) as (r & E & N). rewrite E. cbn [bind].
  assert (Q1 : equiv f (act 1 r 0 1 f)) by (apply act_equiv; ring).
  set (f1 := act 1 r 0 1 f) in *. clearbody f1.
  assert (V1 : valid D f1) by now rewrite <- Q1.
  pose proof (valid_pos D f1 V1) as Ha1.
  pose proof (Z.log2_spec (fa f1) Ha1) as Hlog. pose proof (Z.log2_nonneg (fa f1)) as Hlog0.
  destruct (loop_ok D (S (Z.to_nat (Z.log2 (fa f1)))) f1 V1 N) as (g & Eg & Rg & Qg).
  { rewrite Nat2Z.inj_succ, Z2Nat.id by easy. lia. }
  unfold reduce_fuel. rewrite Nat.add_comm. cbn [Nat.add]. rewrite Eg. cbn [bind].
  assert (Q : equiv f g) by now rewrite Q1.
  assert (Vg : valid D g) by now rewrite <- Q.
  exists g. rewrite normalize_id; auto; [apply Vg | now apply reduced_normalized].
Qed.

(** A reduced form is left alone. *)
Lemma reduce_id D f : valid D f -> reduced f -> reduce f = Ok f.
Proof.
  intros V R. destruct (reduce_ok D f V) as (g & E & Rg & Q & _).
  now rewrite (reduced_unique D f g V R Rg Q) at 2.
Qed.

(** ** The checked constructor *)

Lemma from_abd_spec a b d : d < 0 ->
  from_abd a b d =
    if a <=? 0 then Throw runtime_error
    else if negb ((b * b - d) mod (4 * a) =? 0) then Throw runtime_error
    else reduce (mkform a b ((b * b - d) / (4 * a))).
Proof.
  intros Hd. unfold from_abd. destruct (Z.leb_spec a 0); [easy|].
  rewrite shift_left_2. cbn [bind]. rewrite mpz_mod_pos by lia. cbn [bind].
  destruct (Z.eqb_spec ((b * b - d) mod (4 * a)) 0); cbn [negb]; [|easy].
  now rewrite fdiv_q_ok by lia.
Qed.

Lemma mkform_valid a b d : 0 < a -> d < 0 -> (b * b - d) mod (4 * a) = 0 ->
  valid d (mkform a b ((b * b - d) / (4 * a))).
Proof.
  intros Ha Hd Hm. split; [|easy|easy]. unfold disc. cbn [fa fb fc].
  pose proof (Z.div_mod (b * b - d) (4 * a) ltac:(lia)). lia.
Qed.

(** The constructor returns the reduced form of the class it is given, or
    throws exactly when the coefficients are not those of a form. *)
Lemma from_abd_ok a b d : d < 0 ->
  match from_abd a b d with
  | Ok f => 0 < a /\ (b * b - d) mod (4 * a) = 0 /\
            valid d f /\ reduced f /\ equiv (mkform a b ((b * b - d) / (4 * a))) f
  | Throw e => e = runtime_error /\ (a <= 0 \/ (b * b - d) mod (4 * a) <> 0)
  end.
Proof.
  intros Hd. rewrite from_abd_spec by easy. destruct (Z.leb_spec a 0); [auto|].
  destruct (Z.eqb_spec ((b * b - d) mod (4 * a)) 0) as [E|E]; cbn [negb]; [|auto].
  destruct (reduce_ok d _ (mkform_valid a b d ltac:(lia) Hd E)) as (g & -> & R & Q & V). auto.
Qed.

(** On a reduced form's own coefficients the constructor gives it back. *)
Lemma from_abd_id d f : valid d f -> reduced f -> from_abd (fa f) (fb f) d = Ok f.
Proof.
  intros V R. pose proof V as [HD Hn Ha]. rewrite from_abd_spec by easy.
  destruct (Z.leb_spec (fa f) 0); [lia|].
  assert (E : fb f * fb f - d = fc f * (4 * fa f)) by (unfold disc in HD; lia).
  rewrite E, Z.mod_mul, Z.div_mul by lia. cbn [negb Z.eqb].
  rewrite <- form_eta. now apply (reduce_id d).
Qed.

Lemma is_reduced_spec f : 0 < fa f -> is_reduced f = true <-> reduced f.
Proof.
  destruct f as [a b c]. unfold is_reduced, reduced. cbn [fa fb fc]. intros Ha.
  destruct (Z.ltb_spec a c), (Z.eqb_spec a c), (Z.leb_spec 0 b), (Z.ltb_spec (Z.abs b) (Z.abs a)),
    (Z.eqb_spec a b); cbn [andb orb]; split; intros; try discriminate; try easy; lia.
Qed.

Lemma generator_eq d : d mod 8 = 1 -> generator_for_discriminant d = generator d.
Proof.
  intros H. unfold generator_for_discriminant, generator, from_abd. cbn [Z.leb Z.compare].
  rewrite !shift_left_2. cbn [bind]. rewrite mpz_mod_pos by lia. cbn [bind].
  replace ((1 * 1 - d) mod (4 * 2)) with 0; [easy|]. change (4 * 2) with 8. Z.div_mod_to_equations; lia.
Qed.

(** ** Squaring *)

(** The composition matrix of a square, when [b] is invertible modulo [a]. *)
Lemma square_composite a b c u m : b * u - c = a * m ->
  composite (mkform a b c) (mkform a b c) (mkform (a * a) (b - 2 * (a * u)) (u * u - m)).
Proof.
  intros E. exists (mkcube 1 u u m 0 a a b).
  unfold side1, side2, side3. cbn [cj ck cl cm cr cs ct cu].
  repeat split; apply form_eq; lia.
Qed.

Lemma composite_valid D f g h : valid D f -> valid D g -> composite f g h -> 0 < fa h -> valid D h.
Proof.
  intros [HD Hn Ha] _ (q & <- & _ & <-) H. destruct (composite_disc q). split; [|easy|easy]. lia.
Qed.

Section Composition.
Context `{GL : GmpLaws}.

(** [mu] solves [a x = b (mod m)] when [gcd (a, m)] divides [b]. *)
Lemma solve_ok a b m : 0 < m -> (Z.gcd a m | b) -> exists mu,
  solve_linear_congruence a b m = Ok (mu, m / Z.gcd a m) /\ (m | a * mu - b) /\ 0 <= mu < m.
Proof.
  intros Hm [q Hq]. unfold solve_linear_congruence. destruct (gcd_spec a m) as [Eg Es].
  set (r := gcd a m) in *. rewrite Eg.
  assert (Hg : 0 < Z.gcd a m) by (pose proof (Z.gcd_nonneg a m);
    assert (Z.gcd a m <> 0) by (intros H0; apply Z.gcd_eq_0 in H0; lia); lia).
  set (g := Z.gcd a m) in *. rewrite (fdiv_q_exact b g q) by lia. cbn [bind].
  rewrite mpz_mod_pos by lia. cbn [bind]. rewrite Hq, Z.mod_mul by lia. cbn [Z.eqb].
  rewrite mpz_mod_pos by lia. cbn [bind]. rewrite fdiv_q_ok by lia. cbn [bind].
  exists ((q * gr_s r) mod m). split; [easy|]. split; [|apply Z.mod_pos_bound; lia].
  pose proof (Z.div_mod (q * gr_s r) m ltac:(lia)) as Hdm.
  set (k := (q * gr_s r) / m) in *. clearbody k.
  exists (- (q * gr_t r) - a * k).
  replace ((q * gr_s r) mod m) with (q * gr_s r - m * k) by lia. nia.
Qed.

Lemma square_ok D f : valid D f -> Z.gcd (fa f) (fb f) = 1 ->
  exists h, square f = Ok h /\ composite f f h /\ reduced h /\ valid D h.
Proof.
  intros V Hg. pose proof V as [HD Hn Ha]. unfold square, square_abc.
  destruct f as [a b c]. cbn [fa fb fc] in *.
  destruct (gcd_spec b a) as [Eg Es]. rewrite Z.gcd_comm, Hg in Eg, Es.
  set (r := gcd b a) in *. rewrite Eg, (fdiv_q_exact c 1 c) by lia. cbn [bind].
  rewrite mpz_mod_pos by lia. cbn [bind].
  pose proof (Z.div_mod (c * gr_s r) a ltac:(lia)) as Hdm.
  set (k := (c * gr_s r) / a) in *. set (u := (c * gr_s r) mod a) in *. clearbody k u.
  rewrite shift_left_1. cbn [bind].
  assert (Hm : b * u - c = a * (- (c * gr_t r) - b * k)).
  { replace u with (c * gr_s r - a * k) by lia.
    transitivity (c * (b * gr_s r + a * gr_t r) - c - a * (c * gr_t r) - a * (b * k)); [ring|].
    rewrite Es. ring. }
  set (m := - (c * gr_t r) - b * k) in *. clearbody m.
  rewrite (fdiv_q_exact _ a m) by lia. cbn [bind].
  pose proof (square_composite a b c u m Hm) as C.
  set (h := mkform (a * a) (b - 2 * (a * u)) (u * u - m)) in *.
  assert (Vh : valid D h) by (apply (composite_valid D _ _ h V V C); cbn; nia).
  destruct (reduce_ok D h Vh) as (g & E & R & Q & Vg).
  exists g. split; [exact E|]. split; [now rewrite <- Q|]. easy.
Qed.

Lemma three_gcd_spec a b c : three_gcd a b c = Z.gcd (Z.gcd a b) c.
Proof.
  unfold three_gcd. destruct (gcd_spec a b) as [-> _].
  destruct (gcd_spec (Z.gcd a b) c) as [-> _]. easy.
Qed.
End Composition.

(** The composition matrix that [multiply] computes, from the three divisions
    it makes: [w s = a1], [w t = a2], [w u = g] and the solution [k]. *)
Lemma multiply_composite w s t u h k l m c1 c2 :
  s <> 0 -> t * k - h = s * l -> u * k - c2 = s * m -> h * u + s * c1 = t * c2 ->
  composite (mkform (w * s) (w * u - h) c1) (mkform (w * t) (w * u + h) c2)
            (mkform (s * t) (w * u - (k * t + l * s)) (k * l - w * m)).
Proof.
  intros Hs Hl Hm Hc. exists (mkcube w k l m 0 s t u).
  unfold side1, side2, side3. cbn [cj ck cl cm cr cs ct cu].
  repeat split; apply form_eq; try lia.
  apply (Z.mul_reg_l _ _ s Hs).
  transitivity ((s * l) * u - (s * m) * t); [ring|]. rewrite <- Hl, <- Hm. lia.
Qed.

(** The congruences of [multiply] are solvable: with [q = gcd (u, s)] and
    [gcd (s, t, u) = 1], [q] divides [c2] and [s / q] divides [h - t mu]. *)
Section Congruences.
Variables (s t u h c1 c2 : Z).
Hypothesis Hs : 0 < s.
Hypothesis Ht : 0 < t.
Hypothesis Hco : Z.gcd (Z.gcd s t) u = 1.
Hypothesis Hc : h * u + s * c1 = t * c2.

Lemma gcd_us_pos : 0 < Z.gcd u s.
Proof.
  pose proof (Z.gcd_nonneg u s). enough (Z.gcd u s <> 0) by lia.
  intros H0. apply Z.gcd_eq_0 in H0. lia.
Qed.

Lemma gcd_us_t : Z.gcd (Z.gcd u s) t = 1.
Proof. rewrite <- Z.gcd_assoc, Z.gcd_comm. exact Hco. Qed.

Lemma gcd_us_c2 : (Z.gcd u s | c2).
Proof.
  apply (Z.gauss _ t); [|apply gcd_us_t]. rewrite <- Hc.
  apply Z.divide_add_r; [apply Z.divide_mul_r, Z.gcd_divide_l | apply Z.divide_mul_l, Z.gcd_divide_r].
Qed.

Lemma first_gcd : Z.gcd (t * u) (s * t) = t * Z.gcd u s.
Proof. rewrite (Z.mul_comm s). rewrite Z.gcd_mul_mono_l, Z.abs_eq; lia. Qed.

Lemma first_solvable : (Z.gcd (t * u) (s * t) | h * u + s * c1).
Proof. rewrite first_gcd, Hc. apply Z.mul_divide_mono_l, gcd_us_c2. Qed.

Lemma first_factor : s * t / Z.gcd (t * u) (s * t) = s / Z.gcd u s.
Proof.
  rewrite first_gcd, (Z.mul_comm s). pose proof gcd_us_pos. apply Z.div_mul_cancel_l; lia.
Qed.

Let v := s / Z.gcd u s.

Lemma v_eq : s = v * Z.gcd u s /\ 0 < v.
Proof.
  destruct (Z.gcd_divide_r u s) as [x Hx]. pose proof gcd_us_pos as Hq. unfold v.
  rewrite <- (Z.div_unique_exact s (Z.gcd u s) x) by lia. split; [exact Hx|].
  apply (Z.mul_pos_cancel_r x (Z.gcd u s)); lia.
Qed.

Lemma second_gcd : Z.gcd (t * v) s = v.
Proof.
  destruct v_eq as [E Hv]. rewrite E at 1. rewrite (Z.mul_comm t), Z.gcd_mul_mono_l, Z.abs_eq by lia.
  rewrite Z.gcd_comm, gcd_us_t. lia.
Qed.

Variable mu : Z.
Hypothesis Hmu : (s * t | t * u * mu - (h * u + s * c1)).

Lemma mu_c2 : (s | u * mu - c2).
Proof.
  apply (divide_mul_cancel_l t); [lia|]. rewrite Hc in Hmu.
  replace (t * (u * mu - c2)) with (t * u * mu - t * c2) by ring. now rewrite (Z.mul_comm t s).
Qed.

Lemma second_solvable : (Z.gcd (t * v) s | h - t * mu).
Proof.
  rewrite second_gcd. destruct v_eq as [E Hv]. pose proof gcd_us_pos as Hq.
  destruct (Z.gcd_divide_l u s) as [u' Hu'].
  assert (Hvu : Z.gcd v u' = 1).
  { assert (Hg : Z.gcd u s = Z.gcd u s * Z.gcd u' v).
    { rewrite <- (Z.abs_eq (Z.gcd u s)) at 2 by lia. rewrite <- Z.gcd_mul_mono_l.
      f_equal; [rewrite Hu' at 1 | rewrite E at 1]; apply Z.mul_comm. }
    rewrite Z.gcd_comm. apply (Z.mul_reg_l _ _ (Z.gcd u s)); lia. }
  apply (Z.gauss _ u'); [|easy]. apply (divide_mul_cancel_l (Z.gcd u s)); [lia|].
  destruct mu_c2 as [x Hx].
  replace (Z.gcd u s * v) with s by lia. exists (- c1 - t * x).
  transitivity (h * u - t * (u * mu)); [rewrite Hu' at 2 3; ring|].
  replace (u * mu) with (c2 + x * s) by lia. lia.
Qed.

Variable n : Z.
Hypothesis Hn : (s | t * v * n - (h - t * mu)).
Let k := mu + v * n.

Lemma k_h : (s | t * k - h).
Proof. destruct Hn as [x Hx]. exists x. unfold k. lia. Qed.

Lemma k_c2 : (s | u * k - c2).
Proof.
  destruct mu_c2 as [x Hx]. destruct v_eq as [E _]. destruct (Z.gcd_divide_l u s) as [u' Hu'].
  assert (Huv : u * v = u' * s).
  { transitivity (u' * Z.gcd u s * v); [now rewrite <- Hu'|].
    transitivity (u' * (v * Z.gcd u s)); [ring | now rewrite <- E]. }
  exists (x + u' * n). unfold k. transitivity (u * mu - c2 + u * v * n); [ring|].
  rewrite Hx, Huv. ring.
Qed.
End Congruences.

(** The two middle coefficients of forms of one discriminant have one parity. *)
Lemma same_parity D f g : disc f = D -> disc g = D ->
  exists x y, fb g + fb f = 2 * x /\ fb g - fb f = 2 * y /\ x * y = fa g * fc g - fa f * fc f.
Proof.
  unfold disc. intros Hf Hg.
  assert (E : (fb g - fb f) * (fb g + fb f) = 4 * (fa g * fc g - fa f * fc f)) by lia.
  destruct (Z.Even_or_Odd (fb g + fb f)) as [[x Hx]|[x Hx]].
  - exists x, (x - fb f). split; [easy|]. split; [lia|]. nia.
  - exfalso. assert (H : (fb g - fb f) * (fb g + fb f) = 2 * (2 * ((x - fb f) * x) + 2 * x - fb f) + 1 ) by nia.
    lia.
Qed.

Section Multiply.
Context `{GL : GmpLaws}.

Lemma multiply_ok D f g : valid D f -> valid D g ->
  exists h, multiply f g = Ok h /\ composite f g h /\ reduced h /\ valid D h.
Proof.
  intros V1 V2. pose proof V1 as [HD1 Hn Ha1]. pose proof V2 as [HD2 _ Ha2].
  destruct (same_parity D f g HD1 HD2) as (x & h & Hx & Hh & Hxh).
  destruct f as [a1 b1 c1], g as [a2 b2 c2]. cbn [fa fb fc] in *. unfold multiply. cbn [fa fb fc].
  rewrite (fdiv_q_exact _ 2 x), (fdiv_q_exact _ 2 h) by lia. cbn [bind]. cbv zeta.
  rewrite three_gcd_spec. set (w := Z.gcd (Z.gcd a1 a2) x).
  assert (Hw : 0 < w).
  { pose proof (Z.gcd_nonneg (Z.gcd a1 a2) x). enough (w <> 0) by lia.
    intros H0. apply Z.gcd_eq_0 in H0 as [H0 _]. apply Z.gcd_eq_0 in H0. lia. }
  assert (Hstu : exists s t u, a1 = w * s /\ a2 = w * t /\ x = w * u /\ Z.gcd (Z.gcd s t) u = 1).
  { destruct (Z.gcd_divide_l (Z.gcd a1 a2) x) as [y Hy], (Z.gcd_divide_r (Z.gcd a1 a2) x) as [u Hu].
    destruct (Z.gcd_divide_l a1 a2) as [s Hs], (Z.gcd_divide_r a1 a2) as [t Ht]. fold w in Hy, Hu.
    exists (s * y), (t * y), u. rewrite Hy in Hs, Ht. split; [lia|]. split; [lia|]. split; [lia|].
    apply (Z.mul_reg_l _ _ w); [lia|]. rewrite <- (Z.abs_eq w) at 1 by lia.
    rewrite <- Z.gcd_mul_mono_l. rewrite <- (Z.abs_eq w) at 1 by lia. rewrite <- Z.gcd_mul_mono_l.
    replace (w * (s * y)) with a1 by lia. replace (w * (t * y)) with a2 by lia.
    replace (w * u) with x by lia. fold w. lia. }
  destruct Hstu as (s & t & u & Es & Et & Eu & Hco). clearbody w.
  assert (Hs : 0 < s) by nia. assert (Ht : 0 < t) by nia.
  assert (Hc : h * u + s * c1 = t * c2).
  { apply (Z.mul_reg_l _ _ w); [lia|]. subst x a1 a2. lia. }
  rewrite (fdiv_q_exact a1 w s), (fdiv_q_exact a2 w t), (fdiv_q_exact x w u) by lia. cbn [bind].
  destruct (solve_ok (t * u) (h * u + s * c1) (s * t)) as (mu & -> & Hmu & _);
    [nia | now apply (first_solvable s t u h c1 c2)|]. cbn [bind].
  rewrite (first_factor s t u) by easy.
  destruct (solve_ok (t * (s / Z.gcd u s)) (h - t * mu) s) as (n & -> & Hnn & _);
    [easy | now apply (second_solvable s t u h c1 c2)|]. cbn [bind].
  pose proof (k_h s t u h mu n Hnn) as [l Hl].
  pose proof (k_c2 s t u h c1 c2 Hs Ht Hc mu Hmu n) as [m Hm].
  set (k := mu + s / Z.gcd u s * n) in *. clearbody k.
  rewrite (fdiv_q_exact (t * k - h) s l), (fdiv_q_exact _ (s * t) m) by nia. cbn [bind].
  pose proof (multiply_composite w s t u h k l m c1 c2 ltac:(lia) ltac:(lia) ltac:(lia) Hc) as C.
  rewrite <- Es, <- Et in C. replace (w * u - h) with b1 in C by lia.
  replace (w * u + h) with b2 in C by lia.
  set (p := mkform (s * t) (w * u - (k * t + l * s)) (k * l - w * m)) in *.
  assert (Vp : valid D p) by (apply (composite_valid D _ _ p V1 V2 C); cbn; nia).
  destruct (reduce_ok D p Vp) as (r & E & R & Q & Vg).
  exists r. split; [exact E|]. split; [now rewrite <- Q|]. easy.
Qed.
End Multiply.

(** ** The operations on classes *)

Lemma identity_ok D : D < 0 -> D mod 4 = 1 -> exists e,
  identity D = Ok e /\ principal D e /\ reduced e /\ valid D e.
Proof.
  intros Hn H4. pose proof (from_abd_ok 1 1 D Hn) as H. unfold identity.
  assert (E : (1 * 1 - D) mod (4 * 1) = 0) by (change (4 * 1) with 4; Z.div_mod_to_equations; lia).
  destruct (from_abd 1 1 D) as [e|x]; [|lia]. destruct H as (_ & _ & V & R & Q).
  exists e. split; [easy|]. split; [|easy]. split; [easy|].
  exists 1, ((1 * 1 - D) / (4 * 1)). split; [now symmetry|]. rewrite Q. apply V.
Qed.

Lemma inverse_ok D f : valid D f -> exists f',
  inverse f = Ok f' /\ equiv (mkform (fa f) (- fb f) (fc f)) f' /\ reduced f' /\ valid D f'.
Proof.
  intros V. unfold inverse. set (g := mkform (fa f) (- fb f) (fc f)).
  assert (Vg : valid D g).
  { destruct V as [HD Hn Ha]. split; [|easy|easy]. rewrite <- HD. unfold disc, g. cbn [fa fb fc]. ring. }
  destruct (reduce_ok D g Vg) as (h & E & R & Q & Vh). eauto.
Qed.

Lemma reduced_equiv_eq D f g h : valid D g -> reduced f -> reduced h -> equiv f g -> equiv g h -> f = h.
Proof.
  intros V Rf Rh E1 E2. apply (reduced_unique D f h); try easy; [now rewrite E1|now rewrite E1].
Qed.

Section Group.
Context `{GL : GmpLaws}.
Variable D : Z.

Lemma multiply_class f g : class D f -> class D g -> exists h,
  multiply f g = Ok h /\ composite f g h /\ reduced h /\ class D h.
Proof.
  intros Cf Cg. destruct (multiply_ok D f g (class_valid _ _ Cf) (class_valid _ _ Cg)) as (h & E & C & R & V).
  exists h. repeat (split; [easy|]). now apply (composite_class D f g).
Qed.

Lemma square_class f : class D f -> Z.gcd (fa f) (fb f) = 1 -> exists h,
  square f = Ok h /\ composite f f h /\ reduced h /\ class D h.
Proof.
  intros Cf Hg. destruct (square_ok D f (class_valid _ _ Cf) Hg) as (h & E & C & R & V).
  exists h. repeat (split; [easy|]). now apply (composite_class D f f).
Qed.

(** [multiply] gives any reduced composite. *)
Lemma multiply_composite_eq f g h : class D f -> class D g -> composite f g h -> reduced h ->
  multiply f g = Ok h.
Proof.
  intros Cf Cg C R. destruct (multiply_class f g Cf Cg) as (h' & E & C' & R' & Ch').
  rewrite E. f_equal. apply (reduced_unique D); [apply Ch'|easy|easy|].
  apply (composite_unique f g); easy || apply Cf.
Qed.

Lemma multiply_comm f g : class D f -> class D g -> multiply f g = multiply g f.
Proof.
  intros Cf Cg. destruct (multiply_class g f Cg Cf) as (h & -> & C & R & _).
  apply multiply_composite_eq; try easy. now apply composite_sym.
Qed.

Lemma multiply_assoc f g h : class D f -> class D g -> class D h ->
  (fg <- multiply f g ;; multiply fg h) = (gh <- multiply g h ;; multiply f gh).
Proof.
  intros Cf Cg Ch.
  destruct (multiply_class f g Cf Cg) as (fg & -> & C1 & _ & Cfg).
  destruct (multiply_class g h Cg Ch) as (gh & -> & C2 & _ & Cgh). cbn [bind].
  destruct (multiply_class f gh Cf Cgh) as (k & -> & C3 & R & Ck).
  apply multiply_composite_eq; try easy.
  destruct (composite_exists D fg h Cfg Ch) as (l & Hl).
  now rewrite <- (composite_assoc D f g h fg gh l k Cf Cg Ch C1 Hl C2 C3).
Qed.

Lemma multiply_identity f e : class D f -> reduced f -> principal D e -> multiply f e = Ok f.
Proof.
  intros Cf R He. apply multiply_composite_eq; try easy; [now apply principal_class|].
  now apply (principal_composite D).
Qed.

Lemma multiply_inverse f f' e : class D f -> inverse f = Ok f' ->
  principal D e -> reduced e -> multiply f f' = Ok e.
Proof.
  intros Cf E He Re. destruct (inverse_ok D f (class_valid _ _ Cf)) as (f'' & E' & Q & _ & V).
  rewrite E in E'. injection E' as <-.
  assert (Cf' : class D f').
  { split; [easy|]. rewrite <- Q. destruct (primitive_bezout f (class_primitive _ _ Cf)) as (x & y & z & H).
    apply (bezout_primitive _ x (- y) z). cbn [fa fb fc]. lia. }
  apply multiply_composite_eq; try easy.
  destruct (composite_exists D f f' Cf Cf') as (h & C). pose proof C as C'. rewrite <- Q in C'.
  apply (inverse_composite D) in C'; [|easy]. now rewrite (principal_equiv D e h He C').
Qed.

Lemma square_multiply f : class D f -> Z.gcd (fa f) (fb f) = 1 -> square f = multiply f f.
Proof.
  intros Cf Hg. destruct (square_class f Cf Hg) as (h & -> & C & R & _).
  symmetry. now apply multiply_composite_eq.
Qed.
End Group.

(** ** Properties *)

(** C14: [reduce] terminates on every positive definite form
    and chooses one representative of each class: the result is reduced and
    equivalent to its argument, and two forms of one discriminant are
    equivalent exactly when [reduce] maps them to the same form. *)
Theorem reduce_canonical D f g : valid D f -> valid D g ->
  exists f' g', reduce f = Ok f' /\ reduce g = Ok g' /\ reduced f' /\ equiv f f' /\
    is_reduced f' = true /\ check_valid f' D = true /\ (equiv f g <-> f' = g').
Proof.
  intros Vf Vg. destruct (reduce_ok D f Vf) as (f' & Ef & Rf & Qf & Vf').
  destruct (reduce_ok D g Vg) as (g' & Eg & Rg & Qg & Vg').
  exists f', g'. repeat (split; [easy|]). split; [apply is_reduced_spec; [apply Vf'|easy]|].
  split; [unfold check_valid; apply Z.eqb_eq, Vf'|]. split.
  - intros E. apply (reduced_equiv_eq D f' g g'); auto. rewrite <- Qf. easy.
  - intros ->. rewrite Qf. now symmetry.
Qed.

Lemma reduce_canonical_witness :
  valid (-23) (mkform 3 25 54) /\ valid (-23) (mkform 2 1 3) /\
  exists f' g', reduce (mkform 3 25 54) = Ok f' /\ reduce (mkform 2 1 3) = Ok g' /\ reduced f' /\
    equiv (mkform 3 25 54) f' /\ is_reduced f' = true /\ check_valid f' (-23) = true /\
    (equiv (mkform 3 25 54) (mkform 2 1 3) <-> f' = g').
Proof.
  assert (V1 : valid (-23) (mkform 3 25 54)) by (split; reflexivity).
  assert (V2 : valid (-23) (mkform 2 1 3)) by (split; reflexivity).
  split; [exact V1|]. split; [exact V2|].
  exact (reduce_canonical (-23) (mkform 3 25 54) (mkform 2 1 3) V1 V2).
Defined.

(** C13: on the reduced primitive forms of a negative
    discriminant [D = 1 (mod 4)], [multiply] never fails an assertion or a
    division, is commutative and associative, has [identity D] as unit and
    [inverse] as inverse: the reduced forms are an abelian group under the
    code's own functions. *)
Theorem multiply_group {G : Gmp} {GL : GmpLaws G} D (HD : D < 0) (H4 : D mod 4 = 1) f g h :
  class D f -> class D g -> class D h -> reduced f ->
  exists e f' fg, identity D = Ok e /\ inverse f = Ok f' /\ multiply f g = Ok fg /\
    composite f g fg /\ reduced fg /\ class D fg /\
    multiply g f = Ok fg /\
    multiply fg h = (gh <- multiply g h ;; multiply f gh) /\
    multiply f e = Ok f /\ multiply f f' = Ok e.
Proof.
  intros Cf Cg Ch Rf. destruct (identity_ok D HD H4) as (e & Ee & He & Re & Ve).
  destruct (inverse_ok D f (class_valid _ _ Cf)) as (f' & Ef' & _).
  destruct (multiply_class D f g Cf Cg) as (fg & Efg & C & R & Cfg).
  exists e, f', fg. repeat (split; [easy|]).
  split; [now rewrite (multiply_comm D g f)|].
  split; [rewrite <- (multiply_assoc D f g h) by easy; now rewrite Efg|].
  split; [now apply (multiply_identity D) | now apply (multiply_inverse D)].
Qed.

(** The classes of discriminant -47: [h = 5], generated by [(2, 1, 6)]. *)
Lemma class_47 : class (-47) (mkform 2 1 6) /\ class (-47) (mkform 3 (-1) 4) /\ class (-47) (mkform 2 (-1) 6).
Proof. repeat split. Qed.

Lemma multiply_group_witness :
  class (-47) (mkform 2 1 6) /\ class (-47) (mkform 3 (-1) 4) /\ class (-47) (mkform 2 (-1) 6) /\
  exists e f' fg, identity (-47) = Ok e /\ inverse (mkform 2 1 6) = Ok f' /\
    multiply (G := Ref.gmp) (mkform 2 1 6) (mkform 3 (-1) 4) = Ok fg /\
    composite (mkform 2 1 6) (mkform 3 (-1) 4) fg /\ reduced fg /\ class (-47) fg /\
    multiply (G := Ref.gmp) (mkform 3 (-1) 4) (mkform 2 1 6) = Ok fg /\
    multiply (G := Ref.gmp) fg (mkform 2 (-1) 6) =
      (gh <- multiply (G := Ref.gmp) (mkform 3 (-1) 4) (mkform 2 (-1) 6) ;; multiply (G := Ref.gmp) (mkform 2 1 6) gh) /\
    multiply (G := Ref.gmp) (mkform 2 1 6) e = Ok (mkform 2 1 6) /\ multiply (G := Ref.gmp) (mkform 2 1 6) f' = Ok e.
Proof.
  destruct class_47 as (C1 & C2 & C3). split; [exact C1|]. split; [exact C2|]. split; [exact C3|].
  apply (multiply_group (GL := Ref.laws) (-47)); [reflexivity|reflexivity|exact C1|exact C2|exact C3|].
  unfold reduced; cbn [fa fb fc]; lia.
Defined.

(** The group computed: [(2, 1, 6)] has order 5. *)
Example powers_47 : let M := multiply (G := Ref.gmp) in let f := mkform 2 1 6 in
  M f f = Ok (mkform 3 (-1) 4) /\ M (mkform 3 (-1) 4) f = Ok (mkform 3 1 4) /\
  M (mkform 3 1 4) f = Ok (mkform 2 (-1) 6) /\ M (mkform 2 (-1) 6) f = Ok (mkform 1 1 12) /\
  square (G := Ref.gmp) f = Ok (mkform 3 (-1) 4).
Proof. vm_compute. repeat split. Qed.

(** For the negative of a prime, [a] and [b] are coprime below the prime. *)
Lemma prime_disc_coprime D f : class D f -> Z.prime (- D) -> fa f < - D -> Z.gcd (fa f) (fb f) = 1.
Proof.
  intros Cf Hp Hlt. pose proof Cf as [[HD Hn Ha] _].
    apply coprime_primes.
    - intros Hb. unfold disc in HD. rewrite Hb in HD. pose proof (Z.prime_ge_2 _ Hp).
      assert (H2 : (4 | - D)) by (exists (fa f * fc f); lia).
      assert (H2' : (2 | - D)) by (transitivity 4; [now exists 2|easy]).
      apply Z.divide_prime_prime in H2'; [|apply Z.prime_2|easy]. rewrite <- H2' in H2.
      apply Z.divide_pos_le in H2; lia.
    - intros p Hpp H1 H2. assert (Hd : (p | - D)).
      { rewrite <- HD. unfold disc. apply Z.divide_opp_r, Z.divide_sub_r.
        - now apply Z.divide_mul_l.
        - replace (4 * fa f * fc f) with (fa f * (4 * fc f)) by ring. now apply Z.divide_mul_l. }
      apply Z.divide_prime_prime in Hd; [|easy|easy]. subst p.
      apply Z.divide_pos_le in H1; [|easy]. lia.
Qed.

(** Squaring a form whose first two coefficients are coprime
    succeeds, agrees with [multiply] of the form with itself, and gives the
    reduced composite; [operator*] therefore does not depend on whether its
    operands are one object. When the discriminant is the negative of a prime
    that [a] does not reach, as the code assumes, the condition holds. *)
Theorem square_correct {G : Gmp} {GL : GmpLaws G} D f : class D f ->
  (Z.gcd (fa f) (fb f) = 1 \/ Z.prime (- D) /\ fa f < - D) ->
  exists h, square f = Ok h /\ composite f f h /\ reduced h /\ class D h /\
    op_mul true f f = op_mul false f f.
Proof.
  intros Cf Hor.
  assert (Hg : Z.gcd (fa f) (fb f) = 1) by (destruct Hor as [Hg|[Hp Hlt]]; [easy|now apply (prime_disc_coprime D)]).
  destruct (square_class D f Cf Hg) as (h & E & C & R & Ch).
  exists h. repeat (split; [easy|]). now apply (square_multiply D).
Qed.

Lemma square_correct_witness :
  class (-47) (mkform 3 (-1) 4) /\
  exists h, square (G := Ref.gmp) (mkform 3 (-1) 4) = Ok h /\ composite (mkform 3 (-1) 4) (mkform 3 (-1) 4) h /\
    reduced h /\ class (-47) h /\
    op_mul (G := Ref.gmp) true (mkform 3 (-1) 4) (mkform 3 (-1) 4) = op_mul (G := Ref.gmp) false (mkform 3 (-1) 4) (mkform 3 (-1) 4).
Proof.
  destruct class_47 as (_ & C & _). split; [exact C|].
  apply (square_correct (GL := Ref.laws) (-47) (mkform 3 (-1) 4) C). left. reflexivity.
Defined.

(** The checked constructor throws exactly when [a <= 0] or
    [4a] does not divide [b^2 - D], and otherwise returns the reduced form of
    the class of [(a, b, (b^2 - D) / 4a)], unchanged when it is reduced. *)
Theorem from_abd_correct a b D : D < 0 ->
  match from_abd a b D with
  | Ok f => 0 < a /\ (4 * a | b * b - D) /\ valid D f /\ reduced f /\
      equiv (mkform a b ((b * b - D) / (4 * a))) f /\
      (reduced (mkform a b ((b * b - D) / (4 * a))) -> fa f = a /\ fb f = b)
  | Throw e => e = runtime_error /\ (a <= 0 \/ ~ (4 * a | b * b - D))
  end.
Proof.
  intros Hd. pose proof (from_abd_ok a b D Hd) as H. destruct (from_abd a b D) as [f|e] eqn:E.
  - destruct H as (Ha & Hm & V & R & Q). repeat (split; [easy||apply Z.mod_divide; lia|]).
    intros R'. pose proof (reduced_unique D _ f (mkform_valid a b D Ha Hd Hm) R' R Q) as <-. auto.
  - destruct H as [-> [H|H]]; [auto|]. split; [easy|]. destruct (Z.le_gt_cases a 0); [now left|right].
    intros Hdv. apply H, Z.mod_divide; [lia|easy].
Qed.

Lemma from_abd_correct_witness : -47 < 0 /\
  match from_abd 6 1 (-47) with
  | Ok f => 0 < 6 /\ (4 * 6 | 1 * 1 - -47) /\ valid (-47) f /\ reduced f /\
      equiv (mkform 6 1 ((1 * 1 - -47) / (4 * 6))) f /\
      (reduced (mkform 6 1 ((1 * 1 - -47) / (4 * 6))) -> fa f = 6 /\ fb f = 1)
  | Throw e => e = runtime_error /\ (6 <= 0 \/ ~ (4 * 6 | 1 * 1 - -47))
  end.
Proof. split; [reflexivity|]. apply (from_abd_correct 6 1 (-47)). reflexivity. Defined.
