(* ===== verification/OrigForms.v ===== *)
(** [src/src/vdf_original.h]: the independent implementation of the form
    arithmetic on raw [mpz_t], which the main loop falls back to. All its
    temporaries are members of one object, some operands may alias the result
    [f3], and the constructor initialises a part of the members only. *)
From S2P Require Import Prelude NumTheory Gmp QuadForm FormClass Integer Forms.

(** The members of the object. *)
Inductive member : Type :=
| m_negative_a | m_r | m_denom | m_old_b | m_ra | m_s | m_x | m_old_a | m_g | m_d | m_e | m_q | m_w | m_u | m_a | m_b | m_m
| m_k | m_mu | m_v | m_sigma | m_lambda | m_h | m_t | m_l | m_j | m_f3.

Definition member_eq_dec (x y : member) : {x = y} + {x <> y}.
Proof. decide equality. Defined.

(** The members [mpz_init] has been called on. *)
Definition object : Type := list member.

(** The constructor's [mpz_inits]. *)
Definition vdf_original : object :=
  [m_negative_a; m_r; m_denom; m_old_a; m_old_b; m_ra; m_s; m_x; m_g; m_d; m_e; m_q; m_w; m_m;
   m_u; m_a; m_b; m_k; m_mu; m_v; m_sigma; m_lambda; m_f3].

Definition inited (o : object) (ms : list member) : bool :=
  forallb (fun m => existsb (fun m' => if member_eq_dec m m' then true else false) o) ms.

(** GMP functions may only be applied to initialised variables. *)
Definition uses {A} (o : object) (ms : list member) (k : res A) : res A :=
  if inited o ms then k else Throw undefined_behaviour.

Section WithGmp.
Context `{G : Gmp}.

Definition normalize (o : object) (f : form) : res form :=
  uses o [m_negative_a; m_r; m_denom; m_old_b; m_ra]
    (let negative_a := - fa f in
     if (negative_a <? fb f) && (fb f <=? fa f) then Ok f
     else
       let r := fa f - fb f in
       let denom := fa f * 2 in
       r <- fdiv_q r denom ;;
       let old_b := fb f in
       let ra := r * fa f in
       let b := fb f + ra + ra in
       let ra := ra * r in
       let c := fc f + ra in
       let ra := r * old_b in
       Ok (mkform (fa f) b (c + ra))).

(** The body of the [while] loop of [reduce]. *)
Definition reduce_body (f : form) : res form :=
  let s := fc f + fb f in
  let x := fc f * 2 in
  s <- fdiv_q s x ;;
  let old_a := fa f in
  let old_b := fb f in
  let a := fc f in
  let b := - fb f in
  let x := s * fc f * 2 in
  let b := b + x in
  let c := fc f * s * s in
  let x := old_b * s in
  Ok (mkform a b (c - x + old_a)).

Definition reduce_cond (f : form) : bool := (fc f <? fa f) || ((fa f =? fc f) && (fb f <? 0)).

Fixpoint reduce_while (fuel : nat) (f : form) : res form :=
  if reduce_cond f then
    match fuel with
    | O => Throw out_of_fuel
    | S fuel' => f <- reduce_body f ;; reduce_while fuel' f
    end
  else Ok f.

Definition reduce (o : object) (f : form) : res form :=
  f <- normalize o f ;;
  f <- uses o [m_s; m_x; m_old_a; m_old_b] (reduce_while (reduce_fuel f) f) ;;
  normalize o f.

(** The returned structure's limbs have been freed by [mpz_clears]. *)
Inductive returned : Type := Cleared.

Definition generator_for_discriminant (o : object) (d : Z) : res returned :=
  uses o [m_denom]
    (let x_a := 2 in let x_b := 1 in
     let x_c := x_b * x_b - d in
     let denom := x_a * 4 in
     x_c <- fdiv_q x_c denom ;;
     _ <- reduce o (mkform x_a x_b x_c) ;;
     Ok Cleared).

(** The checked version: [None] is the return value -1; [r] comes back with it. *)
Definition solve_linear_congruence (o : object) (a b m : Z) : res (option (Z * Z * Z)) :=
  uses o [m_g; m_d; m_e; m_q; m_r]
    (let '(g, d, e) := mpz_gcdext a m in
     q <- fdiv_q b g ;;
     r <- fdiv_r b g ;;
     if negb (r =? 0) then Ok None
     else
       mu <- mpz_mod (q * d) m ;;
       v <- fdiv_q m g ;;
       Ok (Some (mu, v, r))).

(** The version without check and without [v]. *)
Definition solve_linear_congruence_fast (o : object) (a b m : Z) : res Z :=
  uses o [m_g; m_d; m_e; m_q]
    (let '(g, d, e) := mpz_gcdext a m in
     q <- fdiv_q b g ;;
     mpz_mod (q * d) m).

Definition three_gcd (a b c : Z) : Z := mpz_gcd (mpz_gcd a b) c.

(** [assert(ret == 0)]. *)
Definition asserted (ret : option (Z * Z * Z)) : res (Z * Z * Z) :=
  match ret with Some x => Ok x | None => Throw assertion_failed end.

Definition multiply (o : object) (f1 f2 : form) : res form :=
  uses o [m_g; m_h; m_w; m_j; m_r; m_s; m_t; m_u; m_a; m_b; m_m; m_mu; m_v; m_lambda; m_sigma; m_k; m_l; m_f3]
    (g <- fdiv_q (fb f1 + fb f2) 2 ;;
     h <- fdiv_q (fb f2 - fb f1) 2 ;;
     let w := three_gcd (fa f1) (fa f2) g in
     let j := w in
     s <- fdiv_q (fa f1) w ;;
     t <- fdiv_q (fa f2) w ;;
     u <- fdiv_q g w ;;
     let a := t * u in
     let b := h * u in
     let m := s * fc f1 in
     let b := b + m in
     let m := s * t in
     ret <- solve_linear_congruence o a b m ;;
     ' (mu, v, r) <- asserted ret ;;
     let a := t * v in
     let m := t * mu in
     let b := h - m in
     let m := s in
     ret <- solve_linear_congruence o a b m ;;
     ' (lambda, sigma, r) <- asserted ret ;;
     let a := v * lambda in
     let k := mu + a in
     let l := k * t - h in
     l <- fdiv_q l s ;;
     let m := t * u * k in
     let m := m - h * u in
     let m := m - fc f1 * s in
     m <- fdiv_q m (s * t) ;;
     let f3_a := s * t - r * u in
     let f3_b := j * u + m * r - k * t - l * s in
     let f3_c := k * l - j * m in
     reduce o (mkform f3_a f3_b f3_c)).

(** *** square: [f1] may be [f3] *)

(** [f1] and [f3], which are one object if [alias]. *)
Definition write_a (alias : bool) (st : form * form) (v : Z) : form * form :=
  let f3 := mkform v (fb (snd st)) (fc (snd st)) in (if alias then f3 else fst st, f3).
Definition write_b (alias : bool) (st : form * form) (v : Z) : form * form :=
  let f3 := mkform (fa (snd st)) v (fc (snd st)) in (if alias then f3 else fst st, f3).
Definition write_c (alias : bool) (st : form * form) (v : Z) : form * form :=
  let f3 := mkform (fa (snd st)) (fb (snd st)) v in (if alias then f3 else fst st, f3).

Definition square (o : object) (alias : bool) (f1 f3 : form) : res form :=
  uses o [m_mu; m_m; m_old_a; m_a; m_f3]
    (let st := (f1, if alias then f1 else f3) in
     mu <- solve_linear_congruence_fast o (fb (fst st)) (fc (fst st)) (fa (fst st)) ;;
     let m := fb (fst st) * mu in
     let m := m - fc (fst st) in
     m <- fdiv_q m (fa (fst st)) ;;
     let old_a := fa (fst st) in
     let st := write_a alias st (fa (fst st) * fa (fst st)) in
     let a := mu * old_a in
     let a := a * 2 in
     let st := write_b alias st (fb (fst st) - a) in
     let st := write_c alias st (mu * mu) in
     let st := write_c alias st (fc (snd st) - m) in
     reduce o (snd st)).

(** The pointer [f] moves to the result of [square]: from the second iteration on, the operand is [f3]. *)
Fixpoint repeated_square (o : object) (iterations : nat) (alias : bool) (f f3 : form) : res form :=
  match iterations with
  | O => Ok f
  | S n => f <- square o alias f f3 ;; repeated_square o n true f f
  end.

End WithGmp.

(** ** Equivalence with vdf_new.h *)

Section Equivalence.
Context `{GL : GmpLaws}.

Lemma normalize_eq f : normalize vdf_original f = Forms.normalize f.
Proof.
  unfold normalize, uses. change (inited vdf_original _) with true. cbv iota zeta.
  destruct (Z.ltb_spec (- fa f) (fb f)), (Z.leb_spec (fb f) (fa f)); cbn [andb].
  1: symmetry; apply normalize_id; unfold normalized; lia.
  all: destruct f as [a b c]; unfold Forms.normalize; cbn [fa fb fc]; rewrite shift_left_1; cbn [bind];
    replace (a * 2) with (2 * a) by ring; destruct (fdiv_q (a - b) (2 * a)) as [r|e]; cbn [bind]; [|easy];
    rewrite shift_left_1; cbn [bind]; f_equal; apply form_eq; ring.
Qed.

Lemma reduce_body_eq f : reduce_body f = reduce_impl f.
Proof.
  destruct f as [a b c]. unfold reduce_body, reduce_impl. cbn [fa fb fc]. rewrite shift_left_1. cbn [bind].
  replace (c * 2) with (2 * c) by ring. destruct (fdiv_q (c + b) (2 * c)) as [s|e]; cbn [bind]; [|easy].
  rewrite shift_left_1. cbn [bind]. f_equal. apply form_eq; ring.
Qed.

Lemma reduce_while_eq fuel : forall f, reduce_while fuel f = reduce_loop fuel f.
Proof.
  induction fuel as [|fuel IH]; intros f; cbn [reduce_while reduce_loop]; [easy|].
  change (reduce_cond f) with (reduce_more f). rewrite reduce_body_eq. destruct (reduce_more f); [|easy].
  destruct (reduce_impl f); cbn [bind]; [apply IH|easy].
Qed.

Lemma reduce_eq f : reduce vdf_original f = Forms.reduce f.
Proof.
  unfold reduce, Forms.reduce. rewrite normalize_eq. destruct (Forms.normalize f) as [g|e]; cbn [bind]; [|easy].
  unfold uses. change (inited vdf_original _) with true. cbv iota. rewrite reduce_while_eq.
  destruct (reduce_loop _ g); cbn [bind]; [apply normalize_eq|easy].
Qed.

Lemma square_eq alias f1 f3 : square vdf_original alias f1 f3 = Forms.square f1.
Proof.
  unfold square, solve_linear_congruence_fast, uses. change (inited vdf_original _) with true. change (inited vdf_original _) with true.
  cbv iota zeta. destruct f1 as [a b c]. unfold Forms.square, square_abc, gcd. cbn [fst fa fb fc].
  destruct (mpz_gcdext b a) as [[g d] e]. cbn [gr_gcd gr_s].
  destruct (fdiv_q c g) as [q|ex]; cbn [bind]; [|easy]. destruct (mpz_mod (q * d) a) as [mu|ex]; cbn [bind]; [|easy].
  rewrite shift_left_1. cbn [bind]. destruct (fdiv_q (b * mu - c) a) as [m|ex]; cbn [bind]; [|easy]. rewrite reduce_eq.
  destruct alias; cbn [write_a write_b write_c fst snd fa fb fc]; f_equal; apply form_eq; ring.
Qed.

(** The object with every member initialised. *)
Definition full : object := m_h :: m_t :: m_l :: m_j :: vdf_original.

Lemma normalize_full f : normalize full f = normalize vdf_original f.
Proof. unfold normalize, uses. change (inited full _) with true. now change (inited vdf_original _) with true. Qed.

Lemma reduce_full f : reduce full f = Forms.reduce f.
Proof.
  rewrite <- reduce_eq. unfold reduce. rewrite normalize_full. destruct (normalize vdf_original f); cbn [bind]; [|easy].
  unfold uses. change (inited full _) with true. change (inited vdf_original _) with true. cbv iota.
  destruct (reduce_while _ a); cbn [bind]; [apply normalize_full|easy].
Qed.

Lemma solve_eq a b m : (r <- solve_linear_congruence full a b m ;; asserted r) = ('(mu, v) <- Forms.solve_linear_congruence a b m ;; Ok (mu, v, 0)).
Proof.
  unfold solve_linear_congruence, Forms.solve_linear_congruence, uses. change (inited full _) with true. cbv iota zeta. unfold gcd.
  destruct (mpz_gcdext a m) as [[g d] e] eqn:E. cbn [gr_gcd gr_s]. apply mpz_gcdext_spec in E as [Eg _].
  assert (Hg : 0 <= g) by (rewrite Eg; apply Z.gcd_nonneg). destruct (Z.eq_dec g 0) as [->|Hne]; [reflexivity|].
  rewrite fdiv_q_ok, fdiv_r_ok, mpz_mod_pos by lia. cbn [bind]. destruct (b mod g =? 0) eqn:Er; cbn [negb bind]; [|easy].
  destruct (mpz_mod (b / g * d) m) as [mu|ex]; cbn [bind]; [|easy]. rewrite fdiv_q_ok by easy. cbn [bind asserted].
  apply Z.eqb_eq in Er. now rewrite Er.
Qed.

Lemma bind_assoc {A B C} (m : res A) (f : A -> res B) (g : B -> res C) :
  bind (bind m f) g = bind m (fun x => bind (f x) g).
Proof. now destruct m. Qed.

Lemma multiply_eq f1 f2 : multiply full f1 f2 = Forms.multiply f1 f2.
Proof.
  unfold multiply, Forms.multiply, uses. change (inited full _) with true. cbv iota zeta.
  rewrite (Z.add_comm (fb f1)). destruct (fdiv_q (fb f2 + fb f1) 2) as [g|ex]; cbn [bind]; [|easy].
  destruct (fdiv_q (fb f2 - fb f1) 2) as [h|ex]; cbn [bind]; [|easy].
  replace (three_gcd (fa f1) (fa f2) g) with (Forms.three_gcd (fa f1) (fa f2) g) by (unfold three_gcd; now rewrite three_gcd_spec, !mpz_gcd_spec).
  set (w := Forms.three_gcd (fa f1) (fa f2) g).
  destruct (fdiv_q (fa f1) w) as [s|ex]; cbn [bind]; [|easy]. destruct (fdiv_q (fa f2) w) as [t|ex]; cbn [bind]; [|easy].
  destruct (fdiv_q g w) as [u|ex]; cbn [bind]; [|easy].
  rewrite <- bind_assoc, solve_eq. destruct (Forms.solve_linear_congruence (t * u) (h * u + s * fc f1) (s * t)) as [[mu v]|ex]; cbn [bind]; [|easy].
  rewrite <- bind_assoc, solve_eq. destruct (Forms.solve_linear_congruence (t * v) (h - t * mu) s) as [[la si]|ex]; cbn [bind]; [|easy].
  rewrite (Z.mul_comm (mu + v * la) t). destruct (fdiv_q (t * (mu + v * la) - h) s) as [l|ex]; cbn [bind]; [|easy].
  rewrite (Z.mul_comm (fc f1) s). destruct (fdiv_q _ (s * t)) as [m|ex]; cbn [bind]; [|easy].
  rewrite reduce_full. f_equal. apply form_eq; ring.
Qed.

(** Multiplication on an object the constructor made uses [h], [j], [t] and [l]. *)
Lemma multiply_uninitialised f1 f2 : multiply vdf_original f1 f2 = Throw undefined_behaviour.
Proof. reflexivity. Qed.

End Equivalence.

(** C37: [vdf_original] computes what vdf_new.h computes. Its
    normalisation, reduction and squaring, run on the object its constructor
    makes, agree with [form]'s on every input, failures included, and squaring
    may overwrite its own operand ([alias]): every coefficient is read before it
    is written. Its multiplication agrees with [multiply] on an object whose
    members are all initialised; on the object the constructor makes it uses
    [h], [j], [t] and [l] uninitialised. *)
Theorem orig_equivalence {G : Gmp} {GL : GmpLaws G} :
  (forall f, normalize vdf_original f = Forms.normalize f) /\
  (forall f, reduce vdf_original f = Forms.reduce f) /\
  (forall alias f1 f3, square vdf_original alias f1 f3 = Forms.square f1) /\
  (forall f1 f2, multiply full f1 f2 = Forms.multiply f1 f2) /\
  (forall f1 f2, multiply vdf_original f1 f2 = Throw undefined_behaviour).
Proof.
  split; [exact normalize_eq|]. split; [exact reduce_eq|]. split; [exact square_eq|].
  split; [exact multiply_eq|exact multiply_uninitialised].
Qed.

Lemma orig_equivalence_witness :
  square (G := Ref.gmp) vdf_original true (mkform 2 1 6) (mkform 0 0 0) = Forms.square (G := Ref.gmp) (mkform 2 1 6) /\
  multiply (G := Ref.gmp) full (mkform 2 1 6) (mkform 3 (-1) 4) = Forms.multiply (G := Ref.gmp) (mkform 2 1 6) (mkform 3 (-1) 4).
Proof.
  destruct (orig_equivalence (GL := Ref.laws)) as (_ & _ & H1 & H2 & _). split; [apply H1|apply H2].
Defined.
