(* ===== verification/Lzcnt.v ===== *)
(** [src/src/refcode/lzcnt.c]: the count of leading zeros in its generic, compiler and
    hardware versions, and their equivalence. *)
From S2P Require Import Prelude.

(** The documented results of the instructions and builtins: [LZCNT] and [CLZ] give the width for
    zero; [_BitScanReverse] and [__builtin_clzll] are not used on it. *)
Definition lzcnt_instruction (w x : Z) : Z := if x =? 0 then w else w - 1 - Z.log2 x.
Definition BitScanReverse (x : Z) : Z := Z.log2 x.
Definition builtin_clzll (x : Z) : Z := 63 - Z.log2 x.

Definition clz_table_4 : list Z := [0; 4; 3; 3; 2; 2; 2; 2; 1; 1; 1; 1; 1; 1; 1; 1].

(** [if ((x & mask) == 0) { n += k; x <<= k; }] for a word of [w] bits. *)
Definition clz_step (w mask k : Z) (nx : Z * Z) : Z * Z :=
  let '(n, x) := nx in if Z.land x mask =? 0 then (n + k, uwrap w (Z.shiftl x k)) else (n, x).

Definition lzcnt32_generic (x : Z) : Z :=
  if x =? 0 then 32
  else
    let n := nth (Z.to_nat (Z.shiftr x 28)) clz_table_4 0 in
    let n := if n =? 0 then
        let nx := clz_step 32 0xFFFF0000 16 (n, x) in
        let nx := clz_step 32 0xFF000000 8 nx in
        let '(n, x) := clz_step 32 0xF0000000 4 nx in
        n + nth (Z.to_nat (Z.shiftr x 28)) clz_table_4 0
      else n in
    n - 1.

Definition lzcnt64_generic (x : Z) : Z :=
  if x =? 0 then 64
  else
    let n := nth (Z.to_nat (Z.shiftr x 60)) clz_table_4 0 in
    let n := if n =? 0 then
        let nx := clz_step 64 (Z.shiftl 0xFFFFFFFF 32) 32 (n, x) in
        let nx := clz_step 64 (Z.shiftl 0xFFFF0000 32) 16 nx in
        let nx := clz_step 64 (Z.shiftl 0xFF000000 32) 8 nx in
        let '(n, x) := clz_step 64 (Z.shiftl 0xF0000000 32) 4 nx in
        n + nth (Z.to_nat (Z.shiftr x 60)) clz_table_4 0
      else n in
    n - 1.

Definition lzcnt32_msvc_bsr (x : Z) : Z := if x =? 0 then 32 else 32 - BitScanReverse x - 1.
Definition lzcnt64_msvc_bsr (x : Z) : Z := if x =? 0 then 64 else 64 - BitScanReverse x - 1.

(** [__builtin_clzl] of an [unsigned long] of [long_bits] bits. *)
Definition lzcnt32_gcc_builtin (long_bits x : Z) : Z := if x =? 0 then 32 else long_bits - 1 - Z.log2 x.
Definition lzcnt64_gcc_builtin (x : Z) : Z := if x =? 0 then 64 else builtin_clzll x.

(** The build: MSVC, a compiler with the builtins, or another; and ARCH_64BIT. *)
Inductive compiler : Type := MSVC | GCC | Other.
Record build : Type := mkbuild { cc : compiler; arch_64bit : bool; long_bits : Z }.

Definition lzcnt32_hard (x : Z) : Z := lzcnt_instruction 32 x.
Definition lzcnt64_hard (x : Z) : Z := lzcnt_instruction 64 x.
Definition lzcnt32_soft (b : build) (x : Z) : Z :=
  match cc b with MSVC => lzcnt32_msvc_bsr x | GCC => lzcnt32_gcc_builtin (long_bits b) x | Other => lzcnt32_generic x end.
Definition lzcnt64_soft (b : build) (x : Z) : Z :=
  if arch_64bit b then match cc b with MSVC => lzcnt64_msvc_bsr x | GCC => lzcnt64_gcc_builtin x | Other => lzcnt64_generic x end
  else lzcnt64_generic x.

(** [has_lzcnt_hard ()] is what the processor says. The argument of [lzcnt64] is an [unsigned int]. *)
Definition lzcnt32 (b : build) (has_lzcnt_hard : bool) (x : Z) : Z := if has_lzcnt_hard then lzcnt32_hard x else lzcnt32_soft b x.
Definition lzcnt64 (b : build) (has_lzcnt_hard : bool) (x : Z) : Z := let x := u32 x in if has_lzcnt_hard then lzcnt64_hard x else lzcnt64_soft b x.

(** ** The generic version *)

Lemma land_high w k x : 0 < k < w -> 0 <= x < 2 ^ w -> (Z.land x (Z.shiftl (Z.ones k) (w - k)) =? 0) = (x <? 2 ^ (w - k)).
Proof.
  intros Hk Hx. assert (E : Z.land x (Z.shiftl (Z.ones k) (w - k)) = Z.shiftl (Z.shiftr x (w - k)) (w - k)).
  { apply Z.bits_inj'. intros i Hi. rewrite Z.land_spec, !Z.shiftl_spec by lia. destruct (Z.lt_ge_cases i (w - k)); [now rewrite !(Z.testbit_neg_r _ (i - (w - k))), andb_false_r by lia|].
    rewrite Z.shiftr_spec by lia. replace (i - (w - k) + (w - k)) with i by lia. rewrite Z.testbit_ones by lia. destruct (Z.leb_spec 0 (i - (w - k))); [|lia]. cbn [andb].
    destruct (Z.ltb_spec (i - (w - k)) k); [apply andb_true_r|]. rewrite andb_false_r. symmetry. destruct (Z.eq_dec x 0) as [->|]; [apply Z.bits_0|]. apply Z.bits_above_log2; [lia|]. apply Z.log2_lt_pow2; [lia|].
    apply (Z.lt_le_trans _ (2 ^ w)); [lia|]. apply Z.pow_le_mono_r; lia. }
  rewrite E, Z.shiftl_mul_pow2, Z.shiftr_div_pow2 by lia. pose proof (Z.pow_pos_nonneg 2 (w - k) ltac:(lia) ltac:(lia)) as HP.
  destruct (Z.ltb_spec x (2 ^ (w - k))) as [H|H]; [now rewrite Z.div_small|]. pose proof (Z.div_le_lower_bound x (2 ^ (w - k)) 1 ltac:(lia) ltac:(lia)). apply Z.eqb_neq. nia.
Qed.

Lemma clz_step_ok w mask k n x : mask = Z.shiftl (Z.ones k) (w - k) -> 0 < k -> 2 * k <= w -> 2 ^ (w - 2 * k) <= x < 2 ^ w ->
  let '(n', x') := clz_step w mask k (n, x) in 2 ^ (w - k) <= x' < 2 ^ w /\ n' + lzcnt_instruction w x' = n + lzcnt_instruction w x.
Proof.
  intros -> Hk Hw Hx. pose proof (Z.pow_pos_nonneg 2 (w - 2 * k) ltac:(lia) ltac:(lia)) as HP. unfold clz_step. rewrite land_high by lia. destruct (Z.ltb_spec x (2 ^ (w - k))) as [H|H]; [|split; lia].
  assert (E : 2 ^ w = 2 ^ (w - k) * 2 ^ k) by (rewrite <- Z.pow_add_r by lia; f_equal; lia). assert (E2 : 2 ^ (w - k) = 2 ^ (w - 2 * k) * 2 ^ k) by (rewrite <- Z.pow_add_r by lia; f_equal; lia).
  pose proof (Z.pow_pos_nonneg 2 k ltac:(lia) ltac:(lia)) as HPk. rewrite Z.shiftl_mul_pow2 by lia. assert (B : 2 ^ (w - k) <= x * 2 ^ k < 2 ^ w) by nia. rewrite uwrap_id by (split; lia). split; [exact B|].
  unfold lzcnt_instruction. destruct (Z.eqb_spec x 0); [lia|]. destruct (Z.eqb_spec (x * 2 ^ k) 0); [lia|]. rewrite Z.log2_mul_pow2 by lia. lia.
Qed.

(** The table, for a word whose upper four bits are not all zero. *)
Lemma clz_table_ok w x : 4 <= w -> 2 ^ (w - 4) <= x < 2 ^ w -> nth (Z.to_nat (Z.shiftr x (w - 4))) clz_table_4 0 = lzcnt_instruction w x + 1 /\ 0 < lzcnt_instruction w x + 1.
Proof.
  intros Hw Hx. pose proof (Z.pow_pos_nonneg 2 (w - 4) ltac:(lia) ltac:(lia)) as HP. set (t := Z.shiftr x (w - 4)). assert (Et : t = x / 2 ^ (w - 4)) by (unfold t; apply Z.shiftr_div_pow2; lia).
  assert (E : 2 ^ w = 2 ^ (w - 4) * 2 ^ 4) by (rewrite <- Z.pow_add_r by lia; f_equal; lia). assert (Ht : 1 <= t < 16) by (rewrite Et; split; [apply Z.div_le_lower_bound; lia|apply Z.div_lt_upper_bound; lia]).
  assert (El : Z.log2 x = w - 4 + Z.log2 t) by (unfold t; rewrite Z.log2_shiftr by lia; pose proof (proj1 (Z.log2_le_pow2 x (w - 4) ltac:(lia)) ltac:(lia)); lia).
  assert (Hn : nth (Z.to_nat t) clz_table_4 0 = 4 - Z.log2 t /\ Z.log2 t < 4).
  { clearbody t. clear - Ht. assert (Hc : t = 1 \/ t = 2 \/ t = 3 \/ t = 4 \/ t = 5 \/ t = 6 \/ t = 7 \/ t = 8 \/ t = 9 \/ t = 10 \/ t = 11 \/ t = 12 \/ t = 13 \/ t = 14 \/ t = 15) by lia.
    repeat (destruct Hc as [->|Hc]; [split; reflexivity|]). rewrite Hc. split; reflexivity. }
  unfold lzcnt_instruction. destruct (Z.eqb_spec x 0); [lia|]. rewrite El. lia.
Qed.

Lemma clz_top_zero w x : 4 <= w -> 0 <= x < 2 ^ (w - 4) -> nth (Z.to_nat (Z.shiftr x (w - 4))) clz_table_4 0 = 0.
Proof. intros Hw Hx. rewrite Z.shiftr_div_pow2, Z.div_small by lia. reflexivity. Qed.

Lemma lzcnt64_generic_ok x : 0 <= x < 2 ^ 64 -> lzcnt64_generic x = lzcnt_instruction 64 x.
Proof.
  intros Hx. unfold lzcnt64_generic. destruct (Z.eqb_spec x 0) as [->|Hx0]; [reflexivity|]. destruct (Z.lt_ge_cases x (2 ^ 60)) as [Hl|Hl].
  - pose proof (clz_top_zero 64 x ltac:(lia) ltac:(lia)) as E0. change (64 - 4) with 60 in E0. rewrite E0, Z.eqb_refl.
    pose proof (clz_step_ok 64 (Z.shiftl 0xFFFFFFFF 32) 32 0 x eq_refl ltac:(lia) ltac:(lia) ltac:(change (2 ^ (64 - 2 * 32)) with 1; lia)) as H1. destruct (clz_step 64 _ 32 _) as [n1 x1]. destruct H1 as [B1 E1].
    pose proof (clz_step_ok 64 (Z.shiftl 0xFFFF0000 32) 16 n1 x1 eq_refl ltac:(lia) ltac:(lia) B1) as H2. destruct (clz_step 64 _ 16 _) as [n2 x2]. destruct H2 as [B2 E2].
    pose proof (clz_step_ok 64 (Z.shiftl 0xFF000000 32) 8 n2 x2 eq_refl ltac:(lia) ltac:(lia) B2) as H3. destruct (clz_step 64 _ 8 _) as [n3 x3]. destruct H3 as [B3 E3].
    pose proof (clz_step_ok 64 (Z.shiftl 0xF0000000 32) 4 n3 x3 eq_refl ltac:(lia) ltac:(lia) B3) as H4. destruct (clz_step 64 _ 4 _) as [n4 x4]. destruct H4 as [B4 E4].
    destruct (clz_table_ok 64 x4 ltac:(lia) B4) as [E _]. change (64 - 4) with 60 in E. rewrite E. lia.
  - destruct (clz_table_ok 64 x ltac:(lia) ltac:(lia)) as [E P]. change (64 - 4) with 60 in E. rewrite E. destruct (Z.eqb_spec (lzcnt_instruction 64 x + 1) 0); lia.
Qed.

Lemma lzcnt32_generic_ok x : 0 <= x < 2 ^ 32 -> lzcnt32_generic x = lzcnt_instruction 32 x.
Proof.
  intros Hx. unfold lzcnt32_generic. destruct (Z.eqb_spec x 0) as [->|Hx0]; [reflexivity|]. destruct (Z.lt_ge_cases x (2 ^ 28)) as [Hl|Hl].
  - pose proof (clz_top_zero 32 x ltac:(lia) ltac:(lia)) as E0. change (32 - 4) with 28 in E0. rewrite E0, Z.eqb_refl.
    pose proof (clz_step_ok 32 0xFFFF0000 16 0 x eq_refl ltac:(lia) ltac:(lia) ltac:(change (2 ^ (32 - 2 * 16)) with 1; lia)) as H2. destruct (clz_step 32 _ 16 _) as [n2 x2]. destruct H2 as [B2 E2].
    pose proof (clz_step_ok 32 0xFF000000 8 n2 x2 eq_refl ltac:(lia) ltac:(lia) B2) as H3. destruct (clz_step 32 _ 8 _) as [n3 x3]. destruct H3 as [B3 E3].
    pose proof (clz_step_ok 32 0xF0000000 4 n3 x3 eq_refl ltac:(lia) ltac:(lia) B3) as H4. destruct (clz_step 32 _ 4 _) as [n4 x4]. destruct H4 as [B4 E4].
    destruct (clz_table_ok 32 x4 ltac:(lia) B4) as [E _]. change (32 - 4) with 28 in E. rewrite E. lia.
  - destruct (clz_table_ok 32 x ltac:(lia) ltac:(lia)) as [E P]. change (32 - 4) with 28 in E. rewrite E. destruct (Z.eqb_spec (lzcnt_instruction 32 x + 1) 0); lia.
Qed.

(** Every build counts the same. *)
Lemma lzcnt64_soft_ok b x : 0 <= x < 2 ^ 64 -> lzcnt64_soft b x = lzcnt_instruction 64 x.
Proof.
  intros Hx. unfold lzcnt64_soft. destruct (arch_64bit b); [|now apply lzcnt64_generic_ok]. unfold lzcnt64_msvc_bsr, lzcnt64_gcc_builtin, BitScanReverse, builtin_clzll.
  destruct (cc b); [| |now apply lzcnt64_generic_ok]; unfold lzcnt_instruction; destruct (x =? 0); lia.
Qed.
