(* ===== verification/Reducer.v ===== *)
(** [src/src/Reducer.h]: the reduction of the provers. A pass of its loop takes 64-bit
    approximations of the form, reduces them as long as they are precise, and
    applies the transformation that was found to the form itself. *)
From S2P Require Import Prelude NumTheory Gmp QuadForm FormClass Lzcnt.

(** Arithmetic on [int_fast64_t], of 64 bits: a result out of range is undefined. *)
Definition chk (x : Z) : res Z := if (- 2 ^ 63 <=? x) && (x <? 2 ^ 63) then Ok x else Throw undefined_behaviour.

Definition THRESH : Z := 2 ^ 31.
Definition EXP_THRESH : Z := 31.

(** The processor and the build. [bLZCHasHW] keeps the answer of [has_lzcnt_hard]. *)
Record machine : Type := mkmachine { has_lzcnt_hard : bool; the_build : build }.

Definition signed_shift (op shift : Z) : Z :=
  if 0 <? shift then s64 (u64 (Z.shiftl op shift))
  else if shift <=? -64 then 0
  else s64 (Z.shiftr op (- shift)).

Section WithGmp.
Context `{G : Gmp} (cpu : machine).

(** [r] and [exp]. *)
Definition mpz_get_si_2exp (op : Z) : res (Z * Z) :=
  let size := mpz_size op in
  let last := mpz_getlimbn op (size - 1) in
  let lg2 := u32 (u32 (63 - (if has_lzcnt_hard cpu then lzcnt64_hard last else lzcnt64_soft (the_build cpu) last)) + 1) in
  let r := signed_shift last (63 - lg2) in
  ' (r, exp) <- (if 1 <? size then
      let prev := mpz_getlimbn op (size - 2) in
      r <- chk (r + signed_shift prev (- 1 - lg2)) ;;
      Ok (r, lg2 + (size - 1) * 64)
    else Ok (r, lg2)) ;;
  r <- (if op <? 0 then chk (- r) else Ok r) ;;
  Ok (r, exp).

(** The form is changed when the result is true. *)
Definition isReduced (f : form) : bool * form :=
  let '(mkform a b c) := f in
  if (Z.abs a <? Z.abs b) || (Z.abs c <? Z.abs b) then (false, f)
  else if c <? a then (true, mkform c (- b) a)
  else if (a =? c) && (b <? 0) then (true, mkform a (- b) c)
  else (true, f).

(** [mpz_mdiv] and [mpz_div_2exp] round down. *)
Definition reducer (f : form) : res form :=
  let '(mkform a b c) := f in
  require negb (c =? 0) else division_by_zero ;;
  let r := b / c in
  let r := r + 1 in
  let s := Z.shiftr r 1 in
  let m := c * s in
  let r := 2 * m in
  let m := m - b in
  let b := r - b in
  Ok (mkform c b (a + s * m)).

(** The turn of [calc_uvwx]'s loop: s, the new a, b and c, and u_, v_, w_, x_. *)
Definition calc_turn (u v w x a b c : Z) : res ((Z * Z * Z) * (Z * Z * Z * Z)) :=
  d <- chk (2 * c) ;;
  n <- (if 0 <=? b then chk (b + c) else n <- chk (- b) ;; n <- chk (n + c) ;; chk (- n)) ;;
  require negb (d =? 0) else undefined_behaviour ;;
  let s := Z.quot n d in
  cs <- chk (c * s) ;;
  nb <- chk (- b) ;;
  let b' := s64 (u64 (u64 nb + u64 (2 * u64 cs))) in
  t <- chk (b - cs) ;;
  t <- chk (s * t) ;;
  c' <- chk (a - t) ;;
  nu <- chk (- u) ;;
  sv <- chk (s * v) ;;
  v_ <- chk (nu + sv) ;;
  nw <- chk (- w) ;;
  sx <- chk (s * x) ;;
  x_ <- chk (nw + sx) ;;
  Ok ((c, b', c'), (v, v_, x, x_)).

Fixpoint calc_loop (fuel : nat) (m : Z * Z * Z * Z) (a b c : Z) : res (Z * Z * Z * Z) :=
  let '(u, v, w, x) := m in
  match fuel with
  | O => Throw out_of_fuel
  | S fuel =>
      ' (f, m_) <- calc_turn u v w x a b c ;;
      let '(a, b, c) := f in
      let '(u_, v_, w_, x_) := m_ in
      av <- chk (Z.abs v_) ;;
      ax <- chk (Z.abs x_) ;;
      let below_threshold := Z.lor av ax <=? THRESH in
      if below_threshold && (c <? a) && (0 <? c) then calc_loop fuel m_ a b c
      else Ok (if below_threshold then m_ else m)
  end.
Definition calc_uvwx (a b c : Z) : res (Z * Z * Z * Z) := calc_loop 64 (1, 0, 0, 1) a b c.

(** The approximations, or nothing when the exponents are too far apart. *)
Definition approximations (f : form) : res (option (Z * Z * Z)) :=
  ' (a, a_exp) <- mpz_get_si_2exp (fa f) ;;
  ' (b, b_exp) <- mpz_get_si_2exp (fb f) ;;
  ' (c, c_exp) <- mpz_get_si_2exp (fc f) ;;
  let min := Z.min (Z.min a_exp b_exp) c_exp in
  let max := Z.max (Z.max a_exp b_exp) c_exp in
  if EXP_THRESH <? max - min then Ok None
  else
    let max_exp := max + 1 in
    Ok (Some (Z.shiftr a (max_exp - a_exp), Z.shiftr b (max_exp - b_exp), Z.shiftr c (max_exp - c_exp))).

(** The products with the form. The argument of [mpz_mul_si] is a [long]. *)
Definition transform (m : Z * Z * Z * Z) (f : form) : res form :=
  let '(u, v, w, x) := m in
  let '(mkform a b c) := f in
  uu <- chk (u * u) ;;
  let faa := a * uu in
  uw <- chk (u * w) ;;
  let fab := b * uw in
  ww <- chk (w * w) ;;
  let fac := c * ww in
  uv <- chk (u * v) ;;
  let fba := a * s64 (u64 (2 * u64 uv)) in
  ux <- chk (u * x) ;;
  vw <- chk (v * w) ;;
  k <- chk (ux + vw) ;;
  let fbb := b * k in
  wx <- chk (w * x) ;;
  let fbc := c * s64 (u64 (2 * u64 wx)) in
  vv <- chk (v * v) ;;
  let fca := a * vv in
  vx <- chk (v * x) ;;
  let fcb := b * vx in
  xx <- chk (x * x) ;;
  let fcc := c * xx in
  Ok (mkform (faa + fab + fac) (fba + fbb + fbc) (fca + fcb + fcc)).

(** The body of [run]'s loop. *)
Definition pass (f : form) : res form :=
  r <- approximations f ;;
  match r with
  | None => reducer f
  | Some (a, b, c) => m <- calc_uvwx a b c ;; transform m f
  end.

Fixpoint run (fuel : nat) (f : form) : res form :=
  let '(done, f) := isReduced f in
  if done : bool then Ok f
  else match fuel with O => Throw out_of_fuel | S fuel => f <- pass f ;; run fuel f end.
End WithGmp.

(** ** The approximation of one coefficient *)

Lemma chk_ok x : - 2 ^ 63 <= x < 2 ^ 63 -> chk x = Ok x.
Proof. intros H. unfold chk. destruct (Z.leb_spec (- 2 ^ 63) x); [|lia]. destruct (Z.ltb_spec x (2 ^ 63)); [reflexivity|lia]. Qed.

Lemma s64_shift x : 0 <= x < 2 ^ 63 -> s64 (u64 x) = x.
Proof. intros H. rewrite u64_id by lia. apply s64_id. lia. Qed.

(** The top limb of a number with [t] = its highest bit, moved to 63 bits. *)
Lemma shift_last last t : 2 ^ t <= last < 2 ^ (t + 1) -> 0 <= t <= 63 -> signed_shift last (63 - (t + 1)) = last * 2 ^ 63 / 2 ^ (t + 1).
Proof.
  intros Hl Ht. unfold signed_shift. assert (E : 2 ^ (t + 1) * 2 ^ (62 - t) = 2 ^ 63 \/ t = 63) by (destruct (Z.eq_dec t 63); [now right|left; rewrite <- Z.pow_add_r by lia; f_equal; lia]).
  destruct E as [E| ->].
  - assert (t <> 63) by (intros ->; cbn in E; lia). pose proof (Z.pow_pos_nonneg 2 (t + 1) ltac:(lia) ltac:(lia)). pose proof (Z.pow_pos_nonneg 2 (62 - t) ltac:(lia) ltac:(lia)).
    assert (Ed : last * 2 ^ 63 / 2 ^ (t + 1) = last * 2 ^ (62 - t)) by (rewrite <- E, (Z.mul_comm (2 ^ (t + 1))), Z.mul_assoc; apply Z.div_mul; lia).
    assert (B : 0 <= last * 2 ^ (62 - t) < 2 ^ 63) by nia. rewrite Ed. destruct (Z.ltb_spec 0 (63 - (t + 1))).
    + replace (63 - (t + 1)) with (62 - t) by lia. rewrite Z.shiftl_mul_pow2 by lia. now apply s64_shift.
    + assert (t = 62) as -> by lia. cbn [Z.leb Z.sub]. change (63 - (62 + 1) <=? -64) with false. change (- (63 - (62 + 1))) with 0. rewrite Z.shiftr_0_r. change (2 ^ (62 - 62)) with 1 in *. rewrite Z.mul_1_r in *. apply s64_id. lia.
  - change (63 - (63 + 1)) with (-1). cbn [Z.ltb Z.leb Z.opp Z.compare]. rewrite Z.shiftr_div_pow2 by lia. change (63 + 1) with 64 in *. change (2 ^ 64) with (2 * 2 ^ 63). rewrite Z.div_mul_cancel_r by lia. change (2 ^ 1) with 2. apply s64_id.
    pose proof (Z.div_pos last 2 ltac:(lia) ltac:(lia)). pose proof (Z.div_lt_upper_bound last 2 (2 ^ 63) ltac:(lia) ltac:(lia)). lia.
Qed.

(** The limb below it. *)
Lemma shift_prev prev t : 0 <= prev < 2 ^ 64 -> 0 <= t <= 63 -> signed_shift prev (- 1 - (t + 1)) = prev / 2 ^ (t + 2).
Proof.
  intros Hp Ht. unfold signed_shift. destruct (Z.ltb_spec 0 (- 1 - (t + 1))); [lia|]. replace (- (- 1 - (t + 1))) with (t + 2) by lia. pose proof (Z.pow_pos_nonneg 2 (t + 2) ltac:(lia) ltac:(lia)) as HP.
  destruct (Z.leb_spec (- 1 - (t + 1)) (-64)).
  - symmetry. apply Z.div_small. assert (2 ^ 64 <= 2 ^ (t + 2)) by (apply Z.pow_le_mono_r; lia). lia.
  - rewrite Z.shiftr_div_pow2 by lia. apply s64_id. assert (2 ^ 1 <= 2 ^ (t + 2)) by (apply Z.pow_le_mono_r; lia).
    pose proof (Z.div_pos prev (2 ^ (t + 2)) ltac:(lia) HP). pose proof (Z.div_lt_upper_bound prev (2 ^ (t + 2)) (2 ^ 63) HP ltac:(nia)). lia.
Qed.

(** Two limbs together. *)
Lemma shift_two last prev t : 2 ^ t <= last < 2 ^ (t + 1) -> 0 <= prev < 2 ^ 64 -> 0 <= t <= 63 ->
  last * 2 ^ 63 / 2 ^ (t + 1) + prev / 2 ^ (t + 2) = (last * 2 ^ 64 + prev) / 2 ^ (t + 2) /\ 0 <= (last * 2 ^ 64 + prev) / 2 ^ (t + 2) < 2 ^ 63.
Proof.
  intros Hl Hp Ht. pose proof (Z.pow_pos_nonneg 2 (t + 1) ltac:(lia) ltac:(lia)) as HP. assert (E2 : 2 ^ (t + 2) = 2 * 2 ^ (t + 1)) by (replace (t + 2) with (1 + (t + 1)) by lia; now rewrite Z.pow_add_r by lia).
  assert (B : 0 <= (last * 2 ^ 64 + prev) / 2 ^ (t + 2) < 2 ^ 63) by (split; [apply Z.div_pos; lia|apply Z.div_lt_upper_bound; lia]). split; [|exact B].
  assert (E1 : last * 2 ^ 63 / 2 ^ (t + 1) = last * 2 ^ 64 / 2 ^ (t + 2)) by (rewrite E2; change (2 ^ 64) with (2 ^ 63 * 2); rewrite Z.mul_assoc, (Z.mul_comm 2); now rewrite Z.div_mul_cancel_r by lia).
  rewrite E1. destruct (Z.eq_dec t 63) as [->|].
  - change (63 + 2) with 65. change (2 ^ 65) with (2 * 2 ^ 64). rewrite Z.div_mul_cancel_r, (Z.div_small prev), Z.add_0_r by lia. rewrite (Z.mul_comm 2), <- Z.div_div by lia. f_equal. rewrite Z.add_comm, Z.div_add by lia. rewrite Z.div_small by lia. reflexivity.
  - assert (E3 : 2 ^ 64 = 2 ^ (62 - t) * 2 ^ (t + 2)) by (rewrite <- Z.pow_add_r by lia; f_equal; lia). rewrite E3, Z.mul_assoc, Z.div_mul, (Z.add_comm _ prev), Z.div_add by lia. lia.
Qed.

(** The 63 highest bits of |op|. *)
Definition mantissa (op : Z) : Z := Z.abs op * 2 ^ 63 / 2 ^ (Z.log2 (Z.abs op) + 1).

Lemma mantissa_range op : op <> 0 -> 2 ^ 62 <= mantissa op < 2 ^ 63.
Proof.
  intros H. pose proof (Z.log2_spec (Z.abs op) ltac:(lia)) as [H1 H2]. pose proof (Z.log2_nonneg (Z.abs op)). unfold mantissa. set (n := Z.log2 (Z.abs op)) in *. rewrite <- Z.add_1_r in H2.
  pose proof (Z.pow_pos_nonneg 2 n ltac:(lia) ltac:(lia)) as HP. assert (E : 2 ^ (n + 1) = 2 * 2 ^ n) by (rewrite Z.add_comm; now rewrite Z.pow_add_r by lia).
  split; [apply Z.div_le_lower_bound; lia|apply Z.div_lt_upper_bound; lia].
Qed.

Section Approximation.
Context `{GL : GmpLaws} (cpu : machine).

Lemma limb_bounds m : 0 < m -> let n := Z.log2 m in 2 ^ (n mod 64) <= m / 2 ^ (64 * (n / 64)) < 2 ^ (n mod 64 + 1).
Proof.
  intros Hm n. pose proof (Z.log2_spec m Hm) as [H1 H2]. fold n in H1, H2. pose proof (Z.log2_nonneg m) as Hn. fold n in Hn. pose proof (Z.div_mod n 64 ltac:(lia)) as E. pose proof (Z.mod_pos_bound n 64 ltac:(lia)) as B. pose proof (Z.div_pos n 64 Hn ltac:(lia)) as Hq.
  set (q := n / 64) in *. set (t := n mod 64) in *. pose proof (Z.pow_pos_nonneg 2 (64 * q) ltac:(lia) ltac:(lia)) as HP. rewrite <- Z.add_1_r in H2. rewrite E in H1, H2. rewrite Z.pow_add_r in H1 by lia. rewrite <- Z.add_assoc, Z.pow_add_r in H2 by lia.
  split; [apply Z.div_le_lower_bound; lia|apply Z.div_lt_upper_bound; lia].
Qed.

Lemma leading_zeros x t : 2 ^ t <= x < 2 ^ (t + 1) -> 0 <= t <= 63 -> (if has_lzcnt_hard cpu then lzcnt64_hard x else lzcnt64_soft (the_build cpu) x) = 63 - t.
Proof.
  intros Hx Ht. assert (2 ^ (t + 1) <= 2 ^ 64) by (apply Z.pow_le_mono_r; lia). pose proof (Z.pow_pos_nonneg 2 t ltac:(lia) ltac:(lia)).
  replace (if has_lzcnt_hard cpu then _ else _) with (lzcnt_instruction 64 x) by (destruct (has_lzcnt_hard cpu); [reflexivity|symmetry; apply lzcnt64_soft_ok; lia]).
  unfold lzcnt_instruction. destruct (Z.eqb_spec x 0); [lia|]. rewrite (Z.log2_unique x t) by lia. lia.
Qed.

Lemma mpz_get_si_2exp_ok op : op <> 0 -> mpz_get_si_2exp cpu op = Ok (if op <? 0 then - mantissa op else mantissa op, Z.log2 (Z.abs op) + 1).
Proof.
  intros Hop. pose proof (mantissa_range op Hop) as HR. pose proof (limb_bounds (Z.abs op) ltac:(lia)) as Hl. cbn zeta in Hl. pose proof (Z.log2_nonneg (Z.abs op)) as Hn.
  set (n := Z.log2 (Z.abs op)) in *. pose proof (Z.div_mod n 64 ltac:(lia)) as E. pose proof (Z.mod_pos_bound n 64 ltac:(lia)) as B. pose proof (Z.div_pos n 64 Hn ltac:(lia)) as Hq.
  set (q := n / 64) in *. set (t := n mod 64) in *. assert (Ht64 : 2 ^ (t + 1) <= 2 ^ 64) by (apply Z.pow_le_mono_r; lia). pose proof (Z.pow_pos_nonneg 2 t ltac:(lia) ltac:(lia)) as HPt.
  unfold mpz_get_si_2exp. rewrite mpz_size_spec. destruct (Z.eqb_spec op 0); [contradiction|]. fold n. fold q. replace (q + 1 - 1) with q by lia. rewrite mpz_getlimbn_spec by exact Hq. rewrite (Z.mod_small (_ / _)) by lia.
  set (last := Z.abs op / 2 ^ (64 * q)) in *. rewrite (leading_zeros last t) by lia. replace (63 - (63 - t)) with t by lia. rewrite (uwrap_id 32 t), (uwrap_id 32 (t + 1)) by (split; lia). rewrite (shift_last last t) by lia.
  assert (Em : (if 1 <? q + 1 then r <- chk (last * 2 ^ 63 / 2 ^ (t + 1) + signed_shift (mpz_getlimbn op (q + 1 - 2)) (- 1 - (t + 1))) ;; Ok (r, t + 1 + q * 64) else Ok (last * 2 ^ 63 / 2 ^ (t + 1), t + 1)) = Ok (mantissa op, n + 1)).
  { destruct (Z.ltb_spec 1 (q + 1)) as [Hq1|Hq1].
    - replace (q + 1 - 2) with (q - 1) by lia. rewrite mpz_getlimbn_spec by lia. set (y := Z.abs op / 2 ^ (64 * (q - 1))).
      assert (Ey : last = y / 2 ^ 64) by (unfold y, last; rewrite Z.div_div by (apply Z.pow_nonzero || apply Z.pow_pos_nonneg; lia); rewrite <- Z.pow_add_r by lia; do 2 f_equal; lia).
      rewrite (shift_prev _ t) by (try apply Z.mod_pos_bound; lia). destruct (shift_two last (y mod 2 ^ 64) t ltac:(lia) ltac:(apply Z.mod_pos_bound; lia) ltac:(lia)) as [-> Br]. rewrite chk_ok by lia. cbn [bind]. do 2 f_equal; [|lia].
      replace (last * 2 ^ 64 + y mod 2 ^ 64) with y by (rewrite Ey, Z.mul_comm; apply Z.div_mod; lia). unfold y, mantissa. fold n. rewrite Z.div_div by (try apply Z.pow_nonzero; try apply Z.pow_pos_nonneg; lia). rewrite <- Z.pow_add_r by lia.
      replace (n + 1) with (64 * (q - 1) + (t + 2) + 63) by lia. rewrite (Z.pow_add_r 2 _ 63) by lia. symmetry. apply Z.div_mul_cancel_r; [|lia]. apply Z.pow_nonzero; lia.
    - assert (q = 0) as Eq by lia. do 2 f_equal; [|lia]. unfold mantissa. fold n. replace (n + 1) with (t + 1) by lia. do 2 f_equal. unfold last. rewrite Eq. apply Z.div_1_r. }
  replace (q + 1 - 1) with q in * by lia. cbn [bind]. match goal with |- bind ?M _ = _ => replace M with (Ok (mantissa op, n + 1)) by (symmetry; exact Em) end. cbn [bind].
  destruct (op <? 0); [rewrite chk_ok by lia|]; reflexivity.
Qed.
End Approximation.

(** ** The approximations of a form *)

(** What is known about them: their discriminant need not be negative, but is bounded. *)
Record approximate (a b c : Z) : Prop := {
  ap_a : 2 ^ 30 <= a < 2 ^ 62;
  ap_c : 2 ^ 30 <= c < 2 ^ 62;
  ap_b : - 2 ^ 62 <= b <= 2 ^ 62;
  ap_disc : b * b < 4 * (a + 1) * (c + 1) + 2 ^ 62 + 1;
}.

(** A positive coefficient: [E] is the common exponent. *)
Lemma shifted_pos op E : 0 < op -> Z.log2 op + 2 <= E <= Z.log2 op + 33 -> let a := Z.shiftr (mantissa op) (E - (Z.log2 op + 1)) in
  2 ^ 30 <= a < 2 ^ 62 /\ op * 2 ^ 63 < (a + 1) * 2 ^ E.
Proof.
  intros Hop HE a. pose proof (Z.log2_spec op Hop) as [H1 H2]. pose proof (Z.log2_nonneg op) as Hn. set (n := Z.log2 op) in *. rewrite <- Z.add_1_r in H2.
  assert (Ea : a = op * 2 ^ 63 / 2 ^ E).
  { unfold a, mantissa. rewrite Z.abs_eq by lia. fold n. rewrite Z.shiftr_div_pow2 by lia. rewrite Z.div_div by (try apply Z.pow_nonzero; try apply Z.pow_pos_nonneg; lia). rewrite <- Z.pow_add_r by lia. do 2 f_equal. lia. }
  pose proof (Z.pow_pos_nonneg 2 E ltac:(lia) ltac:(lia)) as HP. assert (Eu : 2 ^ E = 2 ^ (n + 1) * 2 ^ (E - (n + 1))) by (rewrite <- Z.pow_add_r by lia; f_equal; lia).
  assert (El : 2 ^ 30 * 2 ^ E <= 2 ^ n * 2 ^ 63) by (rewrite <- !Z.pow_add_r by lia; apply Z.pow_le_mono_r; lia).
  assert (Eh : 2 ^ (n + 1) * 2 ^ 63 <= 2 ^ 62 * 2 ^ E) by (rewrite <- !Z.pow_add_r by lia; apply Z.pow_le_mono_r; lia).
  rewrite Ea. split; [split; [apply Z.div_le_lower_bound; nia|apply Z.div_lt_upper_bound; nia]|]. pose proof (Z.mul_succ_div_gt (op * 2 ^ 63) (2 ^ E) HP). lia.
Qed.

(** The middle coefficient: its approximation is off by at most a half when it is a large one. *)
Lemma shifted_b op E : op <> 0 -> Z.log2 (Z.abs op) + 2 <= E -> let b := Z.shiftr (if op <? 0 then - mantissa op else mantissa op) (E - (Z.log2 (Z.abs op) + 1)) in
  - 2 ^ 62 <= b <= 2 ^ 62 /\ (b * 2 ^ E) * (b * 2 ^ E) < (op * 2 ^ 63) * (op * 2 ^ 63) + (2 ^ 62 + 1) * (2 ^ E * 2 ^ E).
Proof.
  intros Hop HE b. pose proof (mantissa_range op Hop) as HM. pose proof (Z.log2_spec (Z.abs op) ltac:(lia)) as [H1 H2]. pose proof (Z.log2_nonneg (Z.abs op)) as Hn.
  set (n := Z.log2 (Z.abs op)) in *. rewrite <- Z.add_1_r in H2. set (k := E - (n + 1)) in *. set (P := 2 ^ (n + 1)) in *. set (K := 2 ^ k). set (N := Z.abs op * 2 ^ 63).
  assert (HP : 0 < P) by (apply Z.pow_pos_nonneg; lia). assert (HK : 2 <= K) by (change 2 with (2 ^ 1) at 1; apply Z.pow_le_mono_r; lia). assert (EM : 2 ^ E = P * K) by (unfold P, K; rewrite <- Z.pow_add_r by lia; f_equal; lia).
  assert (Hm : mantissa op * P <= N < P * 2 ^ 63) by (unfold N; split; [rewrite Z.mul_comm; apply Z.mul_div_le; exact HP|nia]).
  set (mb := mantissa op) in *. assert (Hb : Z.abs b * K <= mb + K - 1).
  { unfold b. rewrite Z.shiftr_div_pow2 by lia. fold K. destruct (op <? 0).
    - pose proof (Z.div_mod (- mb) K ltac:(lia)). pose proof (Z.mod_pos_bound (- mb) K ltac:(lia)). pose proof (Z.div_le_upper_bound (- mb) K 0 ltac:(lia) ltac:(lia)). rewrite Z.abs_neq by lia. lia.
    - pose proof (Z.div_mod mb K ltac:(lia)). pose proof (Z.mod_pos_bound mb K ltac:(lia)). pose proof (Z.div_pos mb K ltac:(lia) ltac:(lia)). rewrite Z.abs_eq by lia. lia. }
  assert (Hb62 : Z.abs b <= 2 ^ 62) by nia. split; [lia|]. rewrite EM. set (x := Z.abs b * (P * K)). assert (Hx : x <= N + P * K - P) by (unfold x; nia).
  replace (b * (P * K) * (b * (P * K))) with (x * x) by (transitivity (b * b * (P * K * (P * K))); [rewrite <- (Z.abs_square b); unfold x; ring|ring]).
  replace (op * 2 ^ 63 * (op * 2 ^ 63)) with (N * N) by (transitivity (op * op * (2 ^ 63 * 2 ^ 63)); [unfold N; rewrite <- (Z.abs_square op); ring|ring]).
  assert (Hx0 : 0 <= x) by (unfold x; nia). destruct (Z.eq_dec k 1) as [Ek|Ek].
  - assert (K = 2) as EK by (unfold K; now rewrite Ek). rewrite EK in *. assert (Hx' : x <= N + P) by lia. assert (x * x <= (N + P) * (N + P)) by (apply Z.mul_le_mono_nonneg; lia).
    assert (N * P < P * 2 ^ 63 * P) by (apply Z.mul_lt_mono_pos_r; lia). nia.
  - assert (4 <= K) by (change 4 with (2 ^ 2); apply Z.pow_le_mono_r; lia). assert (Hx' : x <= N + P * K) by lia. assert (x * x <= (N + P * K) * (N + P * K)) by (apply Z.mul_le_mono_nonneg; lia).
    assert (N < P * K * 2 ^ 61) by nia. assert (N * (P * K) < P * K * 2 ^ 61 * (P * K)) by (apply Z.mul_lt_mono_pos_r; nia). lia.
Qed.

Section Approximations.
Context `{GL : GmpLaws} (cpu : machine).

Lemma approximations_ok D f : valid D f -> fb f <> 0 -> approximations cpu f = Ok None \/ exists a b c, approximations cpu f = Ok (Some (a, b, c)) /\ approximate a b c.
Proof.
  intros V Hb. pose proof (valid_pos D f V) as Ha. pose proof (valid_c D f V) as Hc. pose proof (valid_neg D f V) as Hn. pose proof (valid_disc D f V) as HD. unfold disc in HD. unfold approximations. rewrite !mpz_get_si_2exp_ok by lia. cbn [bind].
  rewrite (Z.abs_eq (fa f)), (Z.abs_eq (fc f)) by lia. remember (Z.max (Z.max _ _) _) as max eqn:Emax. remember (Z.min (Z.min _ _) _) as min eqn:Emin. destruct (Z.ltb_spec EXP_THRESH (max - min)) as [|Hx]; [now left|]. right. unfold EXP_THRESH in Hx.
  destruct (Z.ltb_spec (fa f) 0); [lia|]. destruct (Z.ltb_spec (fc f) 0); [lia|].
  destruct (shifted_pos (fa f) (max + 1) Ha ltac:(lia)) as [Ba Ra]. destruct (shifted_pos (fc f) (max + 1) Hc ltac:(lia)) as [Bc Rc]. destruct (shifted_b (fb f) (max + 1) Hb ltac:(lia)) as [Bb Rb].
  do 3 eexists. split; [reflexivity|]. set (a := Z.shiftr (mantissa (fa f)) _) in *. set (b := Z.shiftr _ (_ - (Z.log2 (Z.abs (fb f)) + 1))) in *. set (c := Z.shiftr (mantissa (fc f)) _) in *.
  constructor; trivial. set (M := 2 ^ (max + 1)) in *. assert (HM : 0 < M) by (apply Z.pow_pos_nonneg; [lia|]; pose proof (Z.log2_nonneg (fa f)); lia).
  assert (H4 : fb f * 2 ^ 63 * (fb f * 2 ^ 63) < 4 * (((a + 1) * M) * ((c + 1) * M))).
  { assert (fa f * 2 ^ 63 * (fc f * 2 ^ 63) < (a + 1) * M * ((c + 1) * M)) by (apply Z.mul_lt_mono_nonneg; lia). nia. }
  assert (b * b * (M * M) < (4 * (a + 1) * (c + 1) + 2 ^ 62 + 1) * (M * M)) by nia. apply (Z.mul_lt_mono_pos_r (M * M)); [nia|assumption].
Qed.
End Approximations.

(** ** A turn of the loop *)

(** The nearest integer to b / 2c, away from zero in the middle. *)
Definition nearest (b c : Z) : Z := if 0 <=? b then (b + c) / (2 * c) else - ((- b + c) / (2 * c)).

Lemma nearest_spec b c : 0 < c -> let s := nearest b c in
  Z.abs (2 * c * s - b) <= c /\ 0 <= s * (b - c * s) /\ 4 * c * (s * (b - c * s)) <= b * b /\ 2 * c * Z.abs s <= Z.abs b + c /\ Z.abs b < 2 * c * Z.abs s + c /\ s * (b - c * s) = Z.abs s * (Z.abs b - c * Z.abs s).
Proof.
  intros Hc. unfold nearest. destruct (Z.leb_spec 0 b) as [Hb|Hb]; cbv zeta.
  - pose proof (Z.div_mod (b + c) (2 * c) ltac:(lia)) as E. pose proof (Z.mod_pos_bound (b + c) (2 * c) ltac:(lia)). pose proof (Z.div_pos (b + c) (2 * c) ltac:(lia) ltac:(lia)) as Hs.
    set (s := (b + c) / (2 * c)) in *. rewrite !(Z.abs_eq s), (Z.abs_eq b) by lia. assert (H1 : Z.abs (2 * c * s - b) <= c) by lia.
    assert (H2 : 0 <= s * (b - c * s)) by (destruct (Z.eq_dec s 0) as [->|]; [lia|]; assert (c * 1 <= c * s) by (apply Z.mul_le_mono_nonneg_l; lia); apply Z.mul_nonneg_nonneg; lia). assert (H3 : 4 * c * (s * (b - c * s)) = b * b - (2 * c * s - b) * (2 * c * s - b)) by ring. pose proof (Z.square_nonneg (2 * c * s - b)). repeat split; lia.
  - pose proof (Z.div_mod (- b + c) (2 * c) ltac:(lia)) as E. pose proof (Z.mod_pos_bound (- b + c) (2 * c) ltac:(lia)). pose proof (Z.div_pos (- b + c) (2 * c) ltac:(lia) ltac:(lia)) as Hs.
    set (s := (- b + c) / (2 * c)) in *. rewrite !(Z.abs_neq (- s)), (Z.abs_neq b) by lia. assert (H1 : Z.abs (2 * c * - s - b) <= c) by lia.
    assert (H2 : 0 <= - s * (b - c * - s)) by (destruct (Z.eq_dec s 0) as [->|]; [lia|]; assert (c * 1 <= c * s) by (apply Z.mul_le_mono_nonneg_l; lia); replace (- s * (b - c * - s)) with (s * (- b - c * s)) by ring; apply Z.mul_nonneg_nonneg; lia). assert (H3 : 4 * c * (- s * (b - c * - s)) = b * b - (2 * c * - s - b) * (2 * c * - s - b)) by ring. pose proof (Z.square_nonneg (2 * c * - s - b)).
    repeat split; lia.
Qed.

Lemma wrapped_b cs b : - 2 ^ 62 <= b <= 2 ^ 62 -> Z.abs (2 * cs - b) < 2 ^ 62 -> s64 (u64 (u64 (- b) + u64 (2 * u64 cs))) = 2 * cs - b.
Proof.
  intros Hb Hz. assert (E : u64 (u64 (- b) + u64 (2 * u64 cs)) = u64 (2 * cs - b)).
  { unfold uwrap. rewrite Z.mul_mod_idemp_r, <- Z.add_mod by lia. f_equal. lia. }
  rewrite E. set (z := 2 * cs - b) in *. unfold swrap, uwrap. rewrite Z.add_mod_idemp_l by lia. rewrite Z.mod_small by lia. lia.
Qed.

Lemma uvwx_turn_ok u v w x a b c : 0 < c < 2 ^ 62 -> 0 <= a < 2 ^ 62 -> - 2 ^ 62 <= b <= 2 ^ 62 -> b * b < 2 ^ 65 * c ->
  Z.abs u <= 2 ^ 31 -> Z.abs v <= 2 ^ 31 -> Z.abs w <= 2 ^ 31 -> Z.abs x <= 2 ^ 31 -> let s := nearest b c in
  calc_turn u v w x a b c = Ok ((c, 2 * c * s - b, a - s * (b - c * s)), (v, s * v - u, x, s * x - w)) /\ Z.abs s <= 3037000500.
Proof.
  intros Hc Ha Hb Hbb Hu Hv Hw Hx s. destruct (nearest_spec b c ltac:(lia)) as (H1 & H2 & H3 & H4 & _ & _). fold s in H1, H2, H3, H4. set (t := s * (b - c * s)) in *.
  assert (Ht : t < 2 ^ 63) by (apply Z.nle_gt; intros Hge; assert (c * 2 ^ 63 <= c * t) by (apply Z.mul_le_mono_nonneg_l; lia); lia). assert (Hbc : Z.abs b < 6074001000 * c).
  { apply Z.nle_gt. intros Hge. assert (6074001000 * c * (6074001000 * c) <= Z.abs b * Z.abs b) by (apply Z.mul_le_mono_nonneg; lia). rewrite Z.abs_square in *. assert (c * 1 <= c * c) by (apply Z.mul_le_mono_nonneg_l; lia). replace (6074001000 * c * (6074001000 * c)) with (36893488148001000000 * (c * c)) in * by ring. lia. }
  assert (Hs : Z.abs s <= 3037000500) by (apply Z.nlt_ge; intros Hge; assert (c * 3037000501 <= c * Z.abs s) by (apply Z.mul_le_mono_nonneg_l; lia); lia). split; [|exact Hs]. assert (Hcs : Z.abs (c * s) <= 2 ^ 62) by (rewrite Z.abs_mul, (Z.abs_eq c) by lia; lia).
  assert (Hsv : Z.abs (s * v) <= 3037000500 * 2 ^ 31) by (rewrite Z.abs_mul; apply Z.mul_le_mono_nonneg; lia). assert (Hsx : Z.abs (s * x) <= 3037000500 * 2 ^ 31) by (rewrite Z.abs_mul; apply Z.mul_le_mono_nonneg; lia).
  rewrite Z.abs_le in H1, Hu, Hv, Hw, Hx, Hcs, Hsv, Hsx. clear H3 H4 Hbb Hbc Hs.
  unfold calc_turn. rewrite (chk_ok (2 * c)) by lia. cbn [bind].
  assert (En : (if 0 <=? b then chk (b + c) else n <- chk (- b) ;; n <- chk (n + c) ;; chk (- n)) = Ok (if 0 <=? b then b + c else - (- b + c))).
  { destruct (Z.leb_spec 0 b); [now rewrite chk_ok by lia|]. rewrite chk_ok by lia. cbn [bind]. rewrite chk_ok by lia. cbn [bind]. now rewrite chk_ok by lia. }
  rewrite En. cbn [bind]. destruct (Z.eqb_spec (2 * c) 0); [lia|]. cbn [negb].
  assert (Es : Z.quot (if 0 <=? b then b + c else - (- b + c)) (2 * c) = s).
  { unfold s, nearest. destruct (Z.leb_spec 0 b); [now rewrite Z.quot_div_nonneg by lia|]. rewrite Z.quot_opp_l, Z.quot_div_nonneg by lia. reflexivity. }
  rewrite Es, (chk_ok (c * s)) by lia. cbn [bind]. rewrite (chk_ok (- b)) by lia. cbn [bind]. rewrite (wrapped_b (c * s) b) by (try apply Z.abs_lt; lia). rewrite (chk_ok (b - c * s)) by lia. cbn [bind]. fold t.
  rewrite (chk_ok t), (chk_ok (- u)), (chk_ok (- w)) by lia. cbn [bind]. rewrite (chk_ok (a - t)) by lia. cbn [bind]. rewrite (chk_ok (s * v)) by lia. cbn [bind]. rewrite (chk_ok (- u + s * v)) by lia. cbn [bind].
  rewrite (chk_ok (s * x)) by lia. cbn [bind]. rewrite (chk_ok (- w + s * x)) by lia. cbn [bind]. apply f_equal. repeat apply (f_equal2 pair); lia.
Qed.

(** ** The loop *)

(** A transformation whose products fit. *)
Definition unimodular (m : Z * Z * Z * Z) : Prop :=
  let '(u, v, w, x) := m in u * x - v * w = 1 /\ Z.abs u < 2 ^ 31 /\ Z.abs v < 2 ^ 31 /\ Z.abs w < 2 ^ 31 /\ Z.abs x < 2 ^ 31.

Definition acts (m : Z * Z * Z * Z) (h : form) : form := let '(u, v, w, x) := m in act u v w x h.

(** The transformation of the form [h] with which the loop ends: it makes |b| <= a, and
    either the form is reduced up to its last step or no longer positive, or the next
    step's numbers exceed the threshold. *)
Definition found (h : form) (m : Z * Z * Z * Z) : Prop :=
  let g := acts m h in let s := nearest (fb g) (fc g) in let '(u, v, w, x) := m in
  unimodular m /\ Z.abs (fb g) <= fa g /\ (fc g <= 0 \/ fa g <= fc g \/ THRESH < Z.lor (Z.abs (s * v - u)) (Z.abs (s * x - w))).

(** Of two numbers that are not both even, as in a row of determinant 1. *)
Lemma below_threshold p q : 0 <= p -> 0 <= q -> Z.odd p || Z.odd q = true -> Z.lor p q <= 2 ^ 31 -> p < 2 ^ 31 /\ q < 2 ^ 31.
Proof.
  intros Hp Hq Ho Hl. assert (Hl' : Z.lor p q < 2 ^ 31).
  { destruct (Z.eq_dec (Z.lor p q) (2 ^ 31)) as [E|]; [|lia]. apply (f_equal (fun z => Z.testbit z 0)) in E. rewrite Z.lor_spec, !Z.bit0_odd, Ho in E. discriminate. }
  assert (H : forall z, 0 <= z -> Z.log2 z <= Z.log2 (Z.lor p q) -> z < 2 ^ 31).
  { intros z Hz Hlog. pose proof (proj2 (Z.lor_nonneg p q) (conj Hp Hq)) as H0. destruct (Z.eq_dec (Z.lor p q) 0) as [E|].
    - rewrite E in Hlog. apply Z.lor_eq_0_iff in E as [-> ->]. change (Z.log2 0) with 0 in Hlog. destruct (Z.eq_dec z 0) as [->|]; [lia|]. apply Z.log2_lt_pow2; lia.
    - destruct (Z.eq_dec z 0) as [->|]; [lia|]. apply Z.log2_lt_pow2; [lia|]. apply (Z.le_lt_trans _ _ _ Hlog). apply Z.log2_lt_pow2; lia. }
  pose proof (Z.log2_lor p q Hp Hq). split; apply H; lia.
Qed.

Lemma not_both_even p q y z : p * y - q * z = 1 -> Z.odd (Z.abs p) || Z.odd (Z.abs q) = true.
Proof.
  intros H. assert (Ho : forall n, Z.odd (Z.abs n) = Z.odd n) by (intros n; destruct (Z.abs_eq_or_opp n) as [->| ->]; [reflexivity|apply Z.odd_opp]). rewrite !Ho.
  apply (f_equal Z.odd) in H. rewrite Z.odd_sub, !Z.odd_mul in H. destruct (Z.odd p), (Z.odd q); cbn in *; trivial.
Qed.

(** The next transformation, on the form and as a matrix. *)
Lemma next_acts u v w x a b c h s : mkform a b c = act u v w x h -> mkform c (2 * c * s - b) (a - s * (b - c * s)) = act v (s * v - u) x (s * x - w) h.
Proof.
  intros E. pose proof (f_equal fa E) as Ea. pose proof (f_equal fb E) as Eb. pose proof (f_equal fc E) as Ec. unfold act in *. cbn [fa fb fc] in Ea, Eb, Ec. rewrite Ea, Eb, Ec. apply form_eq; ring.
Qed.

Lemma next_det u v w x s : u * x - v * w = 1 -> v * (s * x - w) - (s * v - u) * x = 1.
Proof. intros H. transitivity (u * x - v * w); [ring|exact H]. Qed.

Lemma next_unimodular u v w x s : unimodular (u, v, w, x) -> Z.lor (Z.abs (s * v - u)) (Z.abs (s * x - w)) <= THRESH -> unimodular (v, s * v - u, x, s * x - w).
Proof.
  intros (Hd & Hu & Hv & Hw & Hx) Hl. pose proof (next_det u v w x s Hd) as Hd'. split; [exact Hd'|]. split; [exact Hv|].
  destruct (below_threshold (Z.abs (s * v - u)) (Z.abs (s * x - w)) ltac:(lia) ltac:(lia) ltac:(apply (not_both_even _ _ (- x) (- v)); lia) Hl). now repeat split.
Qed.

(** A turn whose result is still positive and decreasing needs |b| >= 3c. *)
Lemma turn_decreases a b c : 0 < c -> c < a -> Z.abs b <= a -> let s := nearest b c in a - s * (b - c * s) < c -> 3 * c <= a.
Proof.
  intros Hc Hca Hb s Hlt. destruct (nearest_spec b c Hc) as (_ & _ & _ & H4 & _ & H6). fold s in H4, H6. rewrite H6 in Hlt. apply Z.nlt_ge. intros H3.
  assert (Hs : Z.abs s <= 1) by (apply Z.nlt_ge; intros Hge; assert (c * 2 <= c * Z.abs s) by (apply Z.mul_le_mono_nonneg_l; lia); lia).
  assert (E : Z.abs s = 0 \/ Z.abs s = 1) by lia. destruct E as [E|E]; rewrite E in Hlt; lia.
Qed.

Lemma next_size s u v : Z.abs s <= 3037000500 -> Z.abs u < 2 ^ 31 -> Z.abs v < 2 ^ 31 -> chk (Z.abs (s * v - u)) = Ok (Z.abs (s * v - u)).
Proof.
  intros Hs Hu Hv. assert (Hsv : Z.abs (s * v) <= 3037000500 * 2 ^ 31) by (rewrite Z.abs_mul; apply Z.mul_le_mono_nonneg; lia). apply chk_ok. lia.
Qed.

Lemma calc_loop_ok h : disc h <= 6 * 2 ^ 62 + 5 -> forall n u v w x a b c, unimodular (u, v, w, x) -> mkform a b c = act u v w x h ->
  0 < c < a -> a < 2 ^ 62 -> a < 2 ^ Z.of_nat n -> Z.abs b <= a -> b * b < 2 ^ 65 * c -> exists m, calc_loop n (u, v, w, x) a b c = Ok m /\ found h m.
Proof.
  intros Hdisc. induction n as [|n IH]; intros u v w x a b c Hm E Hc Ha Hn Hb Hbb; [change (2 ^ Z.of_nat 0) with 1 in Hn; lia|]. cbn [calc_loop]. pose proof Hm as (Hdet & Hu & Hv & Hw & Hx).
  destruct (uvwx_turn_ok u v w x a b c ltac:(lia) ltac:(lia) ltac:(lia) Hbb ltac:(lia) ltac:(lia) ltac:(lia) ltac:(lia)) as [-> Hs]. set (s := nearest b c) in *. cbn [bind].
  destruct (nearest_spec b c ltac:(lia)) as (H1 & H2 & _). fold s in H1, H2. pose proof (next_acts u v w x a b c h s E) as E'. set (b' := 2 * c * s - b) in *. set (c' := a - s * (b - c * s)) in *.
  rewrite !next_size by assumption. cbn [bind]. destruct (Z.leb_spec (Z.lor (Z.abs (s * v - u)) (Z.abs (s * x - w))) THRESH) as [Hl|Hl]; cbn [andb].
  - pose proof (next_unimodular u v w x s Hm Hl) as Hm'. destruct ((c' <? c) && (0 <? c')) eqn:Ec.
    + apply andb_true_iff in Ec as [Ec1 Ec2]. apply Z.ltb_lt in Ec1, Ec2. pose proof (turn_decreases a b c ltac:(lia) ltac:(lia) Hb Ec1) as H3. apply IH; trivial; try lia.
      * rewrite Nat2Z.inj_succ, Z.pow_succ_r in Hn by lia. lia.
      * assert (Hd : b' * b' = disc h + 4 * c * c'). { apply (f_equal disc) in E'. rewrite act_disc, (next_det u v w x s Hdet) in E'. unfold disc at 1 in E'. cbn [fa fb fc] in E'. lia. }
        rewrite Hd. destruct (Z.eq_dec c' 1) as [->|]; [lia|]. assert (c * c' <= (2 ^ 62 - 1) * c') by (apply Z.mul_le_mono_nonneg_r; lia). lia.
    + eexists. split; [reflexivity|]. unfold found, acts. rewrite <- E'. cbn [fa fb fc]. split; [exact Hm'|]. split; [exact H1|]. apply andb_false_iff in Ec as [Ec|Ec]; apply Z.ltb_ge in Ec; lia.
  - eexists. split; [reflexivity|]. unfold found, acts. rewrite <- E. cbn [fa fb fc]. fold s. split; [exact Hm|]. split; [exact Hb|]. right. right. exact Hl.
Qed.

Lemma approximate_disc a b c : approximate a b c -> b * b - 4 * a * c <= 6 * 2 ^ 62 + 5.
Proof.
  intros [Ha Hc Hb Hd]. apply Z.nlt_ge. intros H. assert (Hbb : b * b <= 2 ^ 62 * 2 ^ 62) by (rewrite <- Z.abs_square; apply Z.mul_le_mono_nonneg; lia).
  assert (0 < (2 ^ 62 - a) * (2 ^ 62 - c)) by (apply Z.mul_pos_pos; lia). lia.
Qed.

(** The first turn, whose result is always taken: after it c is 1 only when the next b is small. *)
Lemma first_turn a b c : approximate a b c -> let s := nearest b c in let c' := a - s * (b - c * s) in let b' := 2 * c * s - b in
  b * b < 2 ^ 65 * c /\ Z.abs s <= 2 ^ 17 /\ (0 < c' -> b' * b' < 2 ^ 65 * c').
Proof.
  intros Hap. pose proof (approximate_disc a b c Hap) as HD. destruct Hap as [Ha Hc Hb Hd]. cbv zeta. destruct (nearest_spec b c ltac:(lia)) as (H1 & H2 & _ & H4 & _ & H6). set (s := nearest b c) in *.
  assert (Hbb : b * b < 2 ^ 65 * c) by (assert ((a + 1) * (c + 1) <= 2 ^ 62 * (c + 1)) by (apply Z.mul_le_mono_nonneg_r; lia); lia). split; [exact Hbb|]. assert (Hbc : Z.abs b < 2 ^ 18 * c).
  { apply Z.nle_gt. intros Hge. assert (2 ^ 18 * c * (2 ^ 18 * c) <= Z.abs b * Z.abs b) by (apply Z.mul_le_mono_nonneg; lia). rewrite Z.abs_square in *. assert (c * 2 ^ 30 <= c * c) by (apply Z.mul_le_mono_nonneg_l; lia). lia. }
  assert (Hs : Z.abs s <= 2 ^ 17) by (apply Z.nlt_ge; intros Hge; assert (c * (2 ^ 17 + 1) <= c * Z.abs s) by (apply Z.mul_le_mono_nonneg_l; lia); lia). split; [exact Hs|]. intros Hc'.
  set (c' := a - s * (b - c * s)) in *. assert (E : (2 * c * s - b) * (2 * c * s - b) = b * b - 4 * a * c + 4 * c * c') by (unfold c'; ring). rewrite E.
  destruct (Z.eq_dec c' 1) as [E1|E1]; [|assert (c * c' <= (2 ^ 62 - 1) * c') by (apply Z.mul_le_mono_nonneg_r; lia); lia]. rewrite E1. destruct (Z.lt_ge_cases c (2 ^ 61 - 8)) as [Hl|Hl]; [lia|].
  assert (Hs1 : Z.abs s <= 1) by (apply Z.nlt_ge; intros Hge; assert (c * 2 <= c * Z.abs s) by (apply Z.mul_le_mono_nonneg_l; lia); lia).
  unfold c' in E1. rewrite H6 in E1. assert (Es : Z.abs s = 0 \/ Z.abs s = 1) by lia. destruct Es as [Es|Es]; rewrite Es in E1; [lia|].
  assert (Eb : Z.abs b = a + c - 1) by lia. assert (Ebb : b * b = (a + c - 1) * (a + c - 1)) by (rewrite <- Z.abs_square; now rewrite Eb). assert (Hac : a + c <= 2 ^ 62 + 1) by lia.
  assert (Hsq : (c - a) * (c - a) < 2 ^ 33 * 2 ^ 33) by (replace ((c - a) * (c - a)) with ((a + c - 1) * (a + c - 1) - 4 * a * c + 2 * (a + c) - 1) by ring; lia). assert (c - a < 2 ^ 33) by (apply Z.nle_gt; intros Hge; assert (2 ^ 33 * 2 ^ 33 <= (c - a) * (c - a)) by (apply Z.mul_le_mono_nonneg; lia); lia).
  lia.
Qed.

(** [calc_uvwx] never overflows and ends within its fuel. *)
Lemma calc_uvwx_ok a b c : approximate a b c -> exists m, calc_uvwx a b c = Ok m /\ found (mkform a b c) m.
Proof.
  intros Hap. destruct (first_turn a b c Hap) as (Hbb & Hs & Hn). pose proof (approximate_disc a b c Hap) as HD. destruct Hap as [Ha Hc Hb _]. unfold calc_uvwx. change 64%nat with (S 63). remember 63%nat as n eqn:En. cbn [calc_loop].
  destruct (uvwx_turn_ok 1 0 0 1 a b c ltac:(lia) ltac:(lia) Hb Hbb ltac:(lia) ltac:(lia) ltac:(lia) ltac:(lia)) as [-> _]. destruct (nearest_spec b c ltac:(lia)) as (H1 & _). set (s := nearest b c) in *. cbn [bind].
  set (b' := 2 * c * s - b) in *. set (c' := a - s * (b - c * s)) in *.
  assert (E : mkform a b c = act 1 0 0 1 (mkform a b c)) by (symmetry; apply act_id). pose proof (next_acts _ _ _ _ a b c _ s E) as E'. fold b' c' in E'.
  assert (Hm : unimodular (1, 0, 0, 1)) by (repeat split; reflexivity). replace (s * 0 - 1) with (-1) in * by lia. replace (s * 1 - 0) with s in * by lia.
  rewrite !chk_ok by lia. cbn [bind]. assert (Hl : Z.lor (Z.abs (-1)) (Z.abs s) <= THRESH).
  { change (Z.abs (-1)) with 1. unfold THRESH. apply Z.lt_le_incl. pose proof (proj2 (Z.lor_nonneg 1 (Z.abs s)) ltac:(lia)). destruct (Z.eq_dec (Z.lor 1 (Z.abs s)) 0) as [->|]; [lia|]. apply Z.log2_lt_pow2; [lia|]. rewrite Z.log2_lor by lia.
    change (Z.log2 1) with 0. pose proof (Z.log2_le_mono _ _ Hs) as Hlog. change (Z.log2 (2 ^ 17)) with 17 in Hlog. lia. }
  destruct (Z.leb_spec (Z.lor (Z.abs (-1)) (Z.abs s)) THRESH) as [_|]; [|lia]. cbn [andb]. pose proof (next_unimodular 1 0 0 1 s Hm ltac:(replace (s * 0 - 1) with (-1) by lia; replace (s * 1 - 0) with s by lia; exact Hl)) as Hm'.
  replace (s * 0 - 1) with (-1) in Hm' by lia. replace (s * 1 - 0) with s in Hm' by lia. destruct ((c' <? c) && (0 <? c')) eqn:Ec.
  - apply andb_true_iff in Ec as [Ec1 Ec2]. apply Z.ltb_lt in Ec1, Ec2. apply calc_loop_ok; trivial; try lia.
    rewrite En. change (2 ^ Z.of_nat 63) with (2 ^ 63). lia.
  - eexists. split; [reflexivity|]. unfold found, acts. rewrite <- E'. cbn [fa fb fc]. split; [exact Hm'|]. split; [exact H1|]. apply andb_false_iff in Ec as [Ec|Ec]; apply Z.ltb_ge in Ec; lia.
Qed.

(** ** A pass *)

Lemma doubled y : Z.abs y < 2 ^ 62 -> s64 (u64 (2 * u64 y)) = 2 * y.
Proof.
  intros H. assert (E : u64 (2 * u64 y) = u64 (2 * y)) by (unfold uwrap; now rewrite Z.mul_mod_idemp_r by lia).
  rewrite E. unfold swrap, uwrap. rewrite Z.add_mod_idemp_l, Z.mod_small by lia. lia.
Qed.

Lemma small_product y z : Z.abs y < 2 ^ 31 -> Z.abs z < 2 ^ 31 -> Z.abs (y * z) < 2 ^ 62.
Proof. intros Hy Hz. rewrite Z.abs_mul. change (2 ^ 62) with (2 ^ 31 * 2 ^ 31). apply Z.mul_lt_mono_nonneg; lia. Qed.

Lemma transform_ok m f : unimodular m -> transform m f = Ok (acts m f).
Proof.
  destruct m as [[[u v] w] x], f as [a b c]. intros (_ & Hu & Hv & Hw & Hx). unfold transform, acts, act. cbn [fa fb fc].
  assert (P : forall y z, Z.abs y < 2 ^ 31 -> Z.abs z < 2 ^ 31 -> chk (y * z) = Ok (y * z)) by (intros y z Hy Hz; pose proof (small_product y z Hy Hz); apply chk_ok; lia).
  rewrite !P by assumption. cbn [bind]. pose proof (small_product u x Hu Hx). pose proof (small_product v w Hv Hw). rewrite chk_ok by lia. cbn [bind].
  rewrite !doubled by now apply small_product. apply f_equal, form_eq; ring.
Qed.

(** The step for exponents that are far apart is exact. *)
Lemma reducer_ok D f : valid D f -> exists g, reducer f = Ok g /\ equiv f g /\ fa g = fc f /\ - fa g < fb g <= fa g.
Proof.
  intros V. pose proof (valid_c D f V) as Hc. destruct f as [a b c]. cbn [fa fb fc] in *. unfold reducer. destruct (Z.eqb_spec c 0); [lia|]. cbn [negb]. set (s := Z.shiftr (b / c + 1) 1). eexists. split; [reflexivity|].
  assert (Hs : s = (b / c + 1) / 2) by (unfold s; now rewrite Z.shiftr_div_pow2 by lia). pose proof (Z.div_mod (b / c + 1) 2 ltac:(lia)) as E2. rewrite <- Hs in E2. pose proof (Z.mod_pos_bound (b / c + 1) 2 ltac:(lia)).
  pose proof (Z.div_mod b c ltac:(lia)) as E. pose proof (Z.mod_pos_bound b c Hc). split.
  - exists 0, (-1), 1, s. split; [lia|]. unfold act. cbn [fa fb fc]. apply form_eq; ring.
  - cbn [fa fb fc]. split; [reflexivity|]. assert (Hr : (b / c + 1) mod 2 = 0 \/ (b / c + 1) mod 2 = 1) by lia. set (r := (b / c + 1) mod 2) in *. replace (b / c) with (2 * s + r - 1) in E by lia. destruct Hr as [Hr|Hr]; rewrite Hr in E; lia.
Qed.

(** What [isReduced] asks for, and the form it leaves. *)
Definition weakly_reduced (f : form) : Prop := Z.abs (fb f) <= fa f <= fc f /\ (fa f = fc f -> 0 <= fb f).

Lemma isReduced_spec D f : valid D f ->
  let '(done, g) := isReduced f in
  if done : bool then equiv f g /\ weakly_reduced g else g = f /\ (fa f < Z.abs (fb f) \/ fc f < Z.abs (fb f)).
Proof.
  intros V. pose proof (valid_pos D f V) as Ha. pose proof (valid_c D f V) as Hc. destruct f as [a b c]. cbn [fa fb fc] in *. unfold isReduced, weakly_reduced. rewrite (Z.abs_eq a), (Z.abs_eq c) by lia.
  assert (Hswap : equiv (mkform a b c) (mkform c (- b) a)) by (exists 0, (-1), 1, 0; split; [lia|unfold act; cbn [fa fb fc]; apply form_eq; ring]).
  destruct (Z.ltb_spec a (Z.abs b)); cbn [orb]; [split; [reflexivity|now left]|]. destruct (Z.ltb_spec c (Z.abs b)); [split; [reflexivity|now right]|].
  destruct (Z.ltb_spec c a); [cbn [fa fb fc]; split; [exact Hswap|lia]|]. destruct (Z.eqb_spec a c) as [<-|]; cbn [andb].
  - destruct (Z.ltb_spec b 0); cbn [fa fb fc]; [split; [exact Hswap|lia]|split; [reflexivity|lia]].
  - cbn [fa fb fc]. split; [reflexivity|lia].
Qed.

Section Pass.
Context `{GL : GmpLaws} (cpu : machine).

Lemma reducer_one_pass D f : valid D f -> fst (isReduced f) = false -> exists g, pass cpu f = Ok g /\ equiv f g /\
  ((approximations cpu f = Ok None /\ fa g = fc f /\ - fa g < fb g <= fa g) \/
   exists a b c m, approximations cpu f = Ok (Some (a, b, c)) /\ approximate a b c /\ found (mkform a b c) m /\ g = acts m f).
Proof.
  intros V Hr. pose proof (isReduced_spec D f V) as HS. destruct (isReduced f) as [done f']. cbn [fst] in Hr. subst done. destruct HS as [_ Hbig]. pose proof (valid_pos D f V). pose proof (valid_c D f V).
  unfold pass. destruct (approximations_ok cpu D f V ltac:(lia)) as [E|(a & b & c & E & Hap)]; rewrite E; cbn [bind].
  - destruct (reducer_ok D f V) as (g & Eg & Q & Ha & Hb). exists g. split; [exact Eg|]. split; [exact Q|]. left. now repeat split.
  - destruct (calc_uvwx_ok a b c Hap) as (m & -> & Hm). cbn [bind]. assert (Hu : unimodular m) by (destruct m as [[[u v] w] x]; exact (proj1 Hm)). rewrite (transform_ok m f Hu).
    exists (acts m f). split; [reflexivity|]. split; [|right; now exists a, b, c, m]. destruct m as [[[u v] w] x]. exists u, v, w, x. split; [exact (proj1 Hu)|reflexivity].
Qed.

Lemma reducer_run_ok D fuel : forall f, valid D f -> match run cpu fuel f with Ok g => equiv f g /\ weakly_reduced g | Throw e => e = out_of_fuel end.
Proof.
  induction fuel as [|fuel IH]; intros f V; cbn [run]; pose proof (isReduced_spec D f V) as HS; destruct (isReduced f) as [done f'] eqn:Er; (destruct done; [exact HS|]); [reflexivity|].
  destruct HS as [-> _]. destruct (reducer_one_pass D f V ltac:(now rewrite Er)) as (g & -> & Q & _). cbn [bind]. assert (Vg : valid D g) by now rewrite <- Q.
  specialize (IH g Vg). destruct (run cpu fuel g) as [h|e]; [|exact IH]. destruct IH as [Q' HR]. split; [now rewrite Q|exact HR].
Qed.
End Pass.

(** C21: the reducer of the provers, for a positive form of any size. No 64-bit
    operation of a pass overflows, no count of zeros, shift or division is undefined, and the loop of [calc_uvwx] ends
    within 64 turns, on every processor and build: a pass over a form that is not
    reduced returns an equivalent form. When the exponents of the
    coefficients differ by more than 31 it is one exact step; otherwise it is
    the transformation, of determinant 1 and with entries below 2^31, that brings
    the approximations to |b| <= a, until they are reduced or no longer
    positive or the next entries are too large. A form that [run] returns is equivalent to the first and has
    |b| <= a <= c, with b >= 0 when a = c; it is not always reduced, since b = -a is
    accepted. *)
Theorem reducer_pass_correct {G : Gmp} {GL : GmpLaws G} cpu D f :
  valid D f ->
  (fst (isReduced f) = false -> exists g, pass cpu f = Ok g /\ equiv f g /\
    ((approximations cpu f = Ok None /\ fa g = fc f /\ - fa g < fb g <= fa g) \/
     exists a b c m, approximations cpu f = Ok (Some (a, b, c)) /\ approximate a b c /\ found (mkform a b c) m /\ g = acts m f)) /\
  (forall fuel, match run cpu fuel f with Ok g => equiv f g /\ weakly_reduced g | Throw e => e = out_of_fuel end).
Proof. intros V. split; [exact (reducer_one_pass cpu D f V)|]. intros fuel. exact (reducer_run_ok cpu D fuel f V). Qed.

(** A form of 77, 77 and 77 bits, in one pass; a form with far exponents; and a build without the instruction. *)
Definition machine_x64 : machine := mkmachine true (mkbuild GCC true 64).
Definition machine_old : machine := mkmachine false (mkbuild Other false 32).
Definition form_near : form := mkform 100000000000000000000003 170000000000000000000001 90000000000000000000007.
Definition form_far : form := mkform (2 ^ 90) (2 ^ 46 + 1) 7.

Lemma reducer_pass_correct_witness :
  (exists g, pass (G := Ref.gmp) machine_old form_near = Ok g /\ equiv form_near g) /\
  (exists g, pass (G := Ref.gmp) machine_x64 form_far = Ok g /\ equiv form_far g /\ fa g = 7 /\ - 7 < fb g <= 7) /\
  (exists g, run (G := Ref.gmp) machine_x64 20 form_near = Ok g /\ equiv form_near g /\ weakly_reduced g).
Proof.
  assert (V1 : valid (disc form_near) form_near) by (split; reflexivity). assert (V2 : valid (disc form_far) form_far) by (split; reflexivity).
  destruct (reducer_pass_correct (GL := Ref.laws) machine_old _ form_near V1) as [H1 _]. destruct (reducer_pass_correct (GL := Ref.laws) machine_x64 _ form_far V2) as [H2 _].
  destruct (reducer_pass_correct (GL := Ref.laws) machine_x64 _ form_near V1) as [_ H3]. split; [|split].
  - destruct (H1 ltac:(vm_compute; reflexivity)) as (g & E & Q & _). exists g. split; [exact E|exact Q].
  - destruct (H2 ltac:(vm_compute; reflexivity)) as (g & E & Q & [(_ & Ha & Hb)|(a & b & c & m & Ef & _)]); [|exfalso; vm_compute in Ef; discriminate]. exists g. rewrite Ha in Hb. split; [exact E|]. split; [exact Q|]. split; [exact Ha|exact Hb].
  - specialize (H3 20%nat). destruct (run machine_x64 20 form_near) as [g|e] eqn:E; [exists g; split; [reflexivity|exact H3]|]. exfalso. vm_compute in E. discriminate.
Defined.
