(* ===== verification/XgcdPartial.v ===== *)
(** [src/src/xgcd_partial.c]: the partial extended Euclidean algorithm, with
    Lehmer's inner loop on the leading 64-bit words. Signed 64-bit arithmetic
    that leaves its range is undefined behaviour; the theorems show that it
    never does, and that the exact remainders stay those of Euclid's algorithm
    although the inner loop sees only their leading words. *)
From Stdlib Require Import ZNsatz.
From S2P Require Import Prelude NumTheory Gmp Integer.

(** The result of a computation on [mp_limb_signed_t] (64 bits). *)
Definition i64 (x : Z) : res Z :=
  require (- 2 ^ 63 <=? x) && (x <? 2 ^ 63) else undefined_behaviour ;; Ok x.

Definition GMP_LIMB_BITS : Z := 64.

(** [__builtin_clzll] of a nonzero 64-bit word. *)
Definition clz64 (x : Z) : Z := 63 - Z.log2 x.

Section WithGmp.
Context `{G : Gmp}.

Definition chiavdf_mpz_bitlen_nonneg (x : Z) : Z :=
let n := mpz_size x in
if n =? 0 then 1
else
  let top := mpz_getlimbn x (n - 1) in
  if top =? 0 then 1
  else
    let lead := clz64 top in
    let top_bits := GMP_LIMB_BITS - lead in
    (n - 1) * GMP_LIMB_BITS + top_bits.

Definition chiavdf_mpz_extract_uword_from_shift_nonneg (x shift_bits : Z) : Z :=
if shift_bits <=? 0 then s64 (mpz_getlimbn x 0)
else
  let limb_bits := GMP_LIMB_BITS in
  let limb_idx := Z.quot shift_bits limb_bits in
  let off := shift_bits - limb_idx * limb_bits in
  let lo := mpz_getlimbn x limb_idx in
  if off =? 0 then s64 lo
  else
    let hi := mpz_getlimbn x (limb_idx + 1) in
    let lo := Z.shiftr lo off in
    let hi := u64 (Z.shiftl hi (limb_bits - off)) in
    s64 (Z.lor lo hi).

(** ** The inner loop, on words *)

Record words : Type := mkw {
w_rr2 : Z; w_rr1 : Z; w_aa2 : Z; w_aa1 : Z; w_bb2 : Z; w_bb1 : Z; w_i : Z
}.

(** The body of the [for] loop: [None] is the [break]. *)
Definition inner_body (w : words) : res (option words) :=
let '(mkw rr2 rr1 aa2 aa1 bb2 bb1 i) := w in
qq <- i64 (Z.quot rr2 rr1) ;;
p1 <- i64 (qq * rr1) ;; t1 <- i64 (rr2 - p1) ;;
p2 <- i64 (qq * aa1) ;; t2 <- i64 (aa2 - p2) ;;
p3 <- i64 (qq * bb1) ;; t3 <- i64 (bb2 - p3) ;;
stop <- (if Z.odd i then
           n3 <- i64 (- t3) ;;
           if t1 <? n3 then Ok true
           else d1 <- i64 (rr1 - t1) ;; d2 <- i64 (t2 - aa1) ;; Ok (d1 <? d2)
         else
           n2 <- i64 (- t2) ;;
           if t1 <? n2 then Ok true
           else d1 <- i64 (rr1 - t1) ;; d2 <- i64 (t3 - bb1) ;; Ok (d1 <? d2)) ;;
if stop : bool then Ok None
else i' <- i64 (i + 1) ;; Ok (Some (mkw rr1 t1 aa1 t2 bb1 t3 i')).

Fixpoint inner_loop (fuel : nat) (bb : Z) (w : words) : res words :=
if negb (w_rr1 w =? 0) && (bb <? w_rr1 w) then
  match fuel with
  | O => Throw out_of_fuel
  | S fuel' =>
      r <- inner_body w ;;
      match r with None => Ok w | Some w' => inner_loop fuel' bb w' end
  end
else Ok w.

(** The product of two positive words is below [2^126] and halves in every
  iteration. *)
Definition inner_fuel : nat := 127.

(** ** The outer loop, on [mpz_t] *)

Record pgcd : Type := mkp { p_co2 : Z; p_co1 : Z; p_r2 : Z; p_r1 : Z }.

(** [x * m] with [m] a word, then [mpz_addmul_ui] or [mpz_submul_ui] of [y]. *)
Definition combine (x m y n : Z) : res Z :=
if 0 <=? n then Ok (x * m + y * n) else n' <- i64 (- n) ;; Ok (x * m - y * n').

Definition outer_body (L : Z) (p : pgcd) : res pgcd :=
let '(mkp co2 co1 r2 r1) := p in
let bits2 := chiavdf_mpz_bitlen_nonneg r2 in
let bits1 := chiavdf_mpz_bitlen_nonneg r1 in
let bits := Z.max bits2 bits1 - GMP_LIMB_BITS + 1 in
let bits := if bits <? 0 then 0 else bits in
let rr2 := chiavdf_mpz_extract_uword_from_shift_nonneg r2 bits in
let rr1 := chiavdf_mpz_extract_uword_from_shift_nonneg r1 bits in
let bb := chiavdf_mpz_extract_uword_from_shift_nonneg L bits in
w <- inner_loop inner_fuel bb (mkw rr2 rr1 0 1 1 0 0) ;;
let '(mkw _ _ aa2 aa1 bb2 bb1 i) := w in
if i =? 0 then
  require negb (r1 =? 0) else division_by_zero ;;
  let q := Z.quot r2 r1 in
  let r2' := Z.rem r2 r1 in
  Ok (mkp co1 (co2 - co1 * q) r1 r2')
else
  r <- combine r2 bb2 r1 aa2 ;;
  r1' <- combine r1 aa1 r2 bb1 ;;
  let r2' := r in
  r <- combine co2 bb2 co1 aa2 ;;
  co1' <- combine co1 aa1 co2 bb1 ;;
  let co2' := r in
  let '(co1', r1') := if r1' <? 0 then (- co1', - r1') else (co1', r1') in
  let '(co2', r2') := if r2' <? 0 then (- co2', - r2') else (co2', r2') in
  Ok (mkp co2' co1' r2' r1').

Fixpoint outer_loop (fuel : nat) (L : Z) (p : pgcd) : res pgcd :=
if negb (p_r1 p =? 0) && (L <? p_r1 p) then
  match fuel with
  | O => Throw out_of_fuel
  | S fuel' => p' <- outer_body L p ;; outer_loop fuel' L p'
  end
else Ok p.

(** Every iteration halves the product [r2 r1], except the first one when [r1 > r2]. *)
Definition outer_fuel (r2 r1 : Z) : nat := S (S (Z.to_nat (Z.log2 (r2 * r1)))).

(** The function's outputs, as one record. *)
Definition mpz_xgcd_partial (r2 r1 L : Z) : res pgcd :=
p <- outer_loop (outer_fuel r2 r1) L (mkp 0 (-1) r2 r1) ;;
let '(mkp co2 co1 r2 r1) := p in
if r2 <? 0 then Ok (mkp (- co2) (- co1) (- r2) r1) else Ok (mkp co2 co1 r2 r1).

End WithGmp.

(** ** The word helpers *)

Section Helpers.
Context `{GL : GmpLaws}.

Lemma limb_size x : 0 < x -> mpz_size x = Z.log2 x / 64 + 1.
Proof. intros H. rewrite mpz_size_spec, Z.abs_eq by lia. now destruct (Z.eqb_spec x 0); [lia|]. Qed.

Lemma top_limb x : 0 < x -> let n := Z.log2 x / 64 in
  0 <= n /\ mpz_getlimbn x n = x / 2 ^ (64 * n) /\ 0 < x / 2 ^ (64 * n) < 2 ^ 64.
Proof.
  intros Hx n. pose proof (Z.log2_nonneg x).
  assert (Hn : 0 <= n) by (apply Z.div_pos; lia). split; [easy|].
  assert (Hp : 0 < 2 ^ (64 * n)) by (apply Z.pow_pos_nonneg; lia).
  assert (Hd : 0 < x / 2 ^ (64 * n) < 2 ^ 64).
  { pose proof (Z.log2_spec x Hx) as [H1 H2].
    pose proof (Z.div_mod (Z.log2 x) 64 ltac:(lia)) as Hdm. fold n in Hdm.
    pose proof (Z.mod_pos_bound (Z.log2 x) 64 ltac:(lia)).
    split.
    - apply Z.div_str_pos. split; [easy|]. etransitivity; [|exact H1]. apply Z.pow_le_mono_r; lia.
    - apply Z.div_lt_upper_bound; [easy|]. eapply Z.lt_le_trans; [exact H2|].
      rewrite <- Z.pow_add_r by lia. apply Z.pow_le_mono_r; lia. }
  split; [|easy]. rewrite mpz_getlimbn_spec, Z.abs_eq by lia. apply Z.mod_small. lia.
Qed.

(** The limb-wise bit length is [mpz_sizeinbase (x, 2)]. *)
Lemma bitlen_nonneg_spec x : 0 <= x -> chiavdf_mpz_bitlen_nonneg x = bitlen x.
Proof.
  intros Hx. unfold chiavdf_mpz_bitlen_nonneg, bitlen.
  destruct (Z.eqb_spec x 0) as [->|Hn]; [now rewrite mpz_size_spec|].
  assert (Hp : 0 < x) by lia. rewrite (limb_size x Hp).
  destruct (top_limb x Hp) as (H0 & E & Hr). set (n := Z.log2 x / 64) in *.
  destruct (Z.eqb_spec (n + 1) 0); [lia|]. rewrite Z.add_simpl_r, E.
  destruct (Z.eqb_spec (x / 2 ^ (64 * n)) 0); [lia|]. unfold clz64, GMP_LIMB_BITS.
  rewrite <- Z.shiftr_div_pow2, Z.log2_shiftr by lia. rewrite Z.abs_eq by lia.
  pose proof (Z.div_mod (Z.log2 x) 64 ltac:(lia)). pose proof (Z.mod_pos_bound (Z.log2 x) 64 ltac:(lia)).
  fold n in H. lia.
Qed.

Lemma limb_testbit x i j : 0 <= x -> 0 <= i -> 0 <= j ->
  Z.testbit (mpz_getlimbn x i) j = (j <? 64) && Z.testbit x (64 * i + j).
Proof.
  intros Hx Hi Hj. rewrite mpz_getlimbn_spec, Z.abs_eq by lia.
  destruct (Z.ltb_spec j 64).
  - rewrite Z.mod_pow2_bits_low, Z.div_pow2_bits by lia. cbn [andb]. f_equal. lia.
  - now rewrite Z.mod_pow2_bits_high by lia.
Qed.

(** The extracted word is the low word of [x >> shift]. *)
Lemma extract_spec x s : 0 <= x -> 0 <= s ->
  chiavdf_mpz_extract_uword_from_shift_nonneg x s = s64 (u64 (x / 2 ^ s)).
Proof.
  intros Hx Hs. unfold chiavdf_mpz_extract_uword_from_shift_nonneg, GMP_LIMB_BITS.
  destruct (Z.leb_spec s 0).
  { replace s with 0 by lia. rewrite mpz_getlimbn_spec, Z.abs_eq by lia. reflexivity. }
  rewrite tdiv_fdiv by lia.
  pose proof (Z.div_mod s 64 ltac:(lia)). pose proof (Z.mod_pos_bound s 64 ltac:(lia)).
  assert (0 <= s / 64) by (apply Z.div_pos; lia).
  set (k := s / 64) in *. set (o := s mod 64) in *. clearbody k o.
  replace (s - k * 64) with o by lia. unfold uwrap.
  destruct (Z.eqb_spec o 0).
  - f_equal. rewrite mpz_getlimbn_spec, Z.abs_eq by lia. do 2 f_equal. f_equal. lia.
  - f_equal. apply Z.bits_inj'. intros j Hj.
    rewrite Z.lor_spec, Z.shiftr_spec, limb_testbit by lia.
    destruct (Z.ltb_spec j 64).
    + rewrite !Z.mod_pow2_bits_low, Z.div_pow2_bits, Z.shiftl_spec by lia.
      destruct (Z.ltb_spec (j + o) 64); cbn [andb].
      * replace (64 * k + (j + o)) with (j + s) by lia.
        now rewrite (Z.testbit_neg_r _ (j - _)), Bool.orb_false_r by lia.
      * rewrite limb_testbit by lia. destruct (Z.ltb_spec (j - (64 - o)) 64); [|lia]. cbn [andb orb].
        f_equal. lia.
    + rewrite !Z.mod_pow2_bits_high by lia. destruct (Z.ltb_spec (j + o) 64); [lia|]. easy.
Qed.

Lemma extract_small x s : 0 <= x -> 0 <= s -> x / 2 ^ s < 2 ^ 63 ->
  chiavdf_mpz_extract_uword_from_shift_nonneg x s = x / 2 ^ s.
Proof.
  intros Hx Hs Hr. rewrite extract_spec by easy.
  assert (0 <= x / 2 ^ s) by (apply Z.div_pos; [easy|apply Z.pow_pos_nonneg; lia]).
  rewrite u64_id, s64_id; lia.
Qed.
End Helpers.

(** A step of Euclid's algorithm halves the product of the pair. *)
Lemma halving q R1 T R2 : 1 <= q -> 0 <= T < R1 -> R2 = q * R1 + T ->
  2 * (T * R1) <= R1 * R2 /\ 0 <= R1 * R2.
Proof.
  intros Hq HT ->. pose proof (Z.mul_nonneg_nonneg (q - 1) (R1 * R1) ltac:(lia) ltac:(nia)).
  pose proof (Z.mul_nonneg_nonneg R1 (R1 - T) ltac:(lia) ltac:(lia)). nia.
Qed.

Lemma cofactor_bounds q x2 x1 rr1 t1 A : 1 <= q -> 0 <= x2 -> 0 <= x1 -> 1 <= rr1 -> 0 <= t1 ->
  (x2 + q * x1) * rr1 + x1 * t1 = A -> 0 <= q * x1 <= x2 + q * x1 /\ x2 + q * x1 <= A.
Proof. intros. nia. Qed.

(** The two bounds that the accepted step's cofactor differences meet. *)
Lemma accept_bound Y y1 rr1 t1 B : 1 <= Y -> 0 <= y1 -> 2 <= rr1 -> 1 <= t1 ->
  Y * rr1 + y1 * t1 = B -> Y + y1 <= B.
Proof. intros. nia. Qed.

(** The inner loop may overshoot the bound [L], by less than a factor 2. *)
Lemma overshoot S A al bb L x1 x2 rr2 r2 R1 R2 : 0 < S -> 0 < A -> 0 <= al -> r2 = A * S + al ->
  0 <= x2 <= x1 -> 1 <= x1 -> x1 * rr2 <= A -> 0 <= R1 < R2 -> bb < rr2 -> 0 <= bb ->
  x1 * R2 + x2 * R1 = r2 -> L < (bb + 1) * S -> L < 2 * R2.
Proof.
  intros HS HA Hal Er Hx2 Hx1 Hxr HR Hbb Hbb0 E HL.
  assert (H1 : r2 < 2 * x1 * R2) by nia.
  assert (H2 : A * (rr2 * S) < A * (2 * R2)).
  { assert (rr2 * (A * S) <= rr2 * r2) by nia.
    assert (rr2 * r2 < rr2 * (2 * x1 * R2)) by nia.
    assert ((x1 * rr2) * (2 * R2) <= A * (2 * R2)) by nia. lia. }
  apply Z.mul_lt_mono_pos_l in H2; [|easy]. nia.
Qed.

(** Whatever the overshoot, the new cofactor [x1 c1 + y1 c2] is what the words allow: [bb < rr2]
    keeps it below [a / L]. *)
Lemma cofactor_small S A B al be bb L x1 x2 y1 y2 rr2 rr1 r2 r1 c1 c2 a : 0 < S -> 0 <= al -> 0 <= be -> r2 = A * S + al -> r1 = B * S + be ->
  x1 * rr2 + x2 * rr1 = A -> y1 * rr2 + y2 * rr1 = B -> 0 <= x1 -> 0 <= x2 -> 0 <= y1 -> 0 <= y2 -> 0 <= rr1 -> 0 <= c1 -> 0 <= c2 ->
  c2 * r1 + c1 * r2 = a -> bb < rr2 -> L < (bb + 1) * S -> (x1 * c1 + y1 * c2) * (L + 1) <= a.
Proof.
  intros HS Hal Hbe Er2 Er1 HA HB Hx1 Hx2 Hy1 Hy2 Hrr1 Hc1 Hc2 Ha Hbb HL.
  assert (H2 : x1 * (rr2 * S) <= r2) by nia. assert (H1 : y1 * (rr2 * S) <= r1) by nia. assert (HW : L + 1 <= rr2 * S) by nia.
  assert (H : (x1 * c1 + y1 * c2) * (L + 1) <= (x1 * c1 + y1 * c2) * (rr2 * S)) by (apply Z.mul_le_mono_nonneg_l; nia).
  pose proof (Z.mul_le_mono_nonneg_l _ _ c1 Hc1 H2). pose proof (Z.mul_le_mono_nonneg_l _ _ c2 Hc2 H1). lia.
Qed.

(** ** The inner loop follows Euclid's algorithm exactly *)

Lemma i64_ok x : - 2 ^ 63 <= x < 2 ^ 63 -> i64 x = Ok x.
Proof.
  intros H. unfold i64. destruct (Z.leb_spec (- 2 ^ 63) x); [|lia].
  destruct (Z.ltb_spec x (2 ^ 63)); [easy|lia].
Qed.

(** [A], [B] are the leading words of [r2 = A 2^s + al], [r1 = B 2^s + be]; at
    step [i] the cofactors are [x2 x1 y2 y1] up to the sign [e = (-1)^i], and
    [R2], [R1] are the exact remainders they describe. *)
Section Inner.
Variables (S A B al be : Z).
Let r2 := A * S + al.
Let r1 := B * S + be.

Record lehmer (e x2 x1 y2 y1 : Z) (w : words) : Prop := {
  l_e : e = (if Z.odd (w_i w) then -1 else 1);
  l_aa2 : w_aa2 w = - e * x2;  l_aa1 : w_aa1 w = e * x1;
  l_bb2 : w_bb2 w = e * y2;    l_bb1 : w_bb1 w = - e * y1;
  l_x2 : 0 <= x2;  l_x1 : 1 <= x1;  l_y2 : 0 <= y2;  l_y1 : 0 <= y1;
  l_det : x1 * y2 - x2 * y1 = e;
  l_A : x1 * w_rr2 w + x2 * w_rr1 w = A;
  l_B : y1 * w_rr2 w + y2 * w_rr1 w = B;
  l_rr : 0 <= w_rr1 w <= w_rr2 w;
  l_rr2 : 1 <= w_rr2 w;
  l_i : 0 <= w_i w;
  l_R : 0 <= e * (x1 * r1 - y1 * r2) <= e * (y2 * r2 - x2 * r1);
  l_mono : w_i w <> 0 -> x2 <= x1;
  (* nothing moved yet, or strict Euclidean descent since the start *)
  l_start : w_i w = 0 -> x2 = 0 /\ x1 = 1 /\ y2 = 1 /\ y1 = 0 /\ e = 1;
  l_desc : w_i w <> 0 ->
    e * (x1 * r1 - y1 * r2) < e * (y2 * r2 - x2 * r1) /\
    e * (x1 * r1 - y1 * r2) < r1 /\
    2 * ((e * (x1 * r1 - y1 * r2)) * (e * (y2 * r2 - x2 * r1))) <= r1 * r2;
}.

Hypothesis HS : 0 < S.
Hypothesis Hal : 0 <= al < S.
Hypothesis Hbe : 0 <= be < S.
Hypothesis HB : 1 <= B <= A.
Hypothesis HA : A < 2 ^ 63.
Hypothesis Hr : r1 <= r2.

Lemma lehmer_init : lehmer 1 0 1 1 0 (mkw A B 0 1 1 0 0).
Proof. split; cbn [w_rr2 w_rr1 w_aa2 w_aa1 w_bb2 w_bb1 w_i]; try lia; reflexivity. Qed.

Lemma lehmer_sign e x2 x1 y2 y1 w : lehmer e x2 x1 y2 y1 w -> e = 1 \/ e = -1.
Proof. intros L. pose proof (l_e _ _ _ _ _ _ L) as He. destruct (Z.odd (w_i w)); auto. Qed.

(** The words are the leading parts of the exact remainders. *)
Lemma words_exact e x2 x1 y2 y1 w : lehmer e x2 x1 y2 y1 w ->
  e * (x1 * r1 - y1 * r2) = w_rr1 w * S + e * (x1 * be - y1 * al) /\
  e * (y2 * r2 - x2 * r1) = w_rr2 w * S + e * (y2 * al - x2 * be).
Proof.
  intros L. pose proof (l_det _ _ _ _ _ _ L) as Hd. pose proof (l_A _ _ _ _ _ _ L) as HA'.
  pose proof (l_B _ _ _ _ _ _ L) as HB'.
  assert (He2 : e * e = 1) by (destruct (lehmer_sign _ _ _ _ _ _ L) as [-> | ->]; reflexivity).
  unfold r1, r2. rewrite <- HA', <- HB'. split; nsatz.
Qed.

(** The test the code makes before it takes a step. *)
Definition accept (e X x1 Y y1 rr1 t1 : Z) : Prop :=
  if e =? 1 then X <= t1 /\ Y + y1 <= rr1 - t1 else Y <= t1 /\ X + x1 <= rr1 - t1.

(** Jebelean's condition: when the words pass the test, the exact next
    remainder is in range. *)
Lemma accept_exact e x1 X y1 Y rr1 t1 : e = 1 \/ e = -1 ->
  1 <= x1 -> 1 <= X -> 0 <= y1 -> 1 <= Y -> accept e X x1 Y y1 rr1 t1 ->
  0 <= t1 * S - e * (X * be - Y * al) < rr1 * S + e * (x1 * be - y1 * al).
Proof.
  intros [-> | ->] Hx1 HX Hy1 HY H; unfold accept in H; cbn [Z.eqb] in H.
  - change (1 =? 1) with true in H. cbn iota in H. destruct H as [H1 H2].
    pose proof (Z.mul_le_mono_nonneg_r X t1 S ltac:(lia) H1).
    pose proof (Z.mul_le_mono_nonneg_r (Y + y1) (rr1 - t1) S ltac:(lia) H2).
    assert (0 <= X * (S - be)) by nia. assert (0 <= Y * al) by nia.
    assert (0 < (Y + y1) * (S - al)) by nia. assert (0 <= (X + x1) * be) by nia. lia.
  - destruct H as [H1 H2].
    pose proof (Z.mul_le_mono_nonneg_r Y t1 S ltac:(lia) H1).
    pose proof (Z.mul_le_mono_nonneg_r (X + x1) (rr1 - t1) S ltac:(lia) H2).
    assert (0 <= Y * (S - al)) by nia. assert (0 <= X * be) by nia.
    assert (0 < (X + x1) * (S - be)) by nia. assert (0 <= (Y + y1) * al) by nia. lia.
Qed.

Lemma lehmer_Y e x2 x1 y2 y1 w q : lehmer e x2 x1 y2 y1 w -> 1 <= q -> 1 <= y2 + q * y1.
Proof.
  intros L Hq. pose proof (lehmer_sign _ _ _ _ _ _ L) as Hsg.
  destruct L as [_ _ _ _ _ Hx2 Hx1 Hy2 Hy1 Hd _ _ _ _ _ _ _ _ _].
  assert (0 < y2 \/ 0 < y1) as [|]; [|nia|nia].
  destruct (Z.eq_dec y2 0) as [->|]; [|lia]. right. destruct (Z.eq_dec y1 0) as [->|]; lia.
Qed.

Lemma lehmer_step e x2 x1 y2 y1 w q t1 w' :
  lehmer e x2 x1 y2 y1 w -> 0 < w_rr1 w -> 1 <= q ->
  w_rr2 w = q * w_rr1 w + t1 -> 0 <= t1 < w_rr1 w ->
  accept e (x2 + q * x1) x1 (y2 + q * y1) y1 (w_rr1 w) t1 ->
  w' = mkw (w_rr1 w) t1 (e * x1) (- (- e) * - (x2 + q * x1)) (- e * y1) (- e * - (y2 + q * y1)) (w_i w + 1) ->
  lehmer (- e) x1 (x2 + q * x1) y1 (y2 + q * y1) w'.
Proof.
  intros L Hrr Hq Hdm Ht Hacc ->. pose proof (words_exact _ _ _ _ _ _ L) as [W1 W2].
  pose proof (lehmer_Y _ _ _ _ _ _ q L Hq) as HY. pose proof (lehmer_sign _ _ _ _ _ _ L) as Hsg.
  destruct L as [He E1 E2 E3 E4 Hx2 Hx1 Hy2 Hy1 Hd HA' HB' Hrrs Hrr2 Hi0 HR Hmo Hst Hde].
  assert (HX : 1 <= x2 + q * x1 /\ x1 <= x2 + q * x1) by (clear - Hq Hx1 Hx2; nia).
  set (X := x2 + q * x1) in *. set (Y := y2 + q * y1) in *.
  pose proof (accept_exact e x1 X y1 Y _ _ Hsg Hx1 (proj1 HX) Hy1 HY Hacc) as HT.
  set (R1 := e * (x1 * r1 - y1 * r2)) in *. set (R2 := e * (y2 * r2 - x2 * r1)) in *.
  assert (E : - e * (X * r1 - Y * r2) = t1 * S - e * (X * be - Y * al)).
  { transitivity (R2 - q * R1); [unfold R1, R2, X, Y; ring|]. rewrite W1, W2, Hdm. unfold X, Y. ring. }
  rewrite <- W1, <- E in HT. set (T := - e * (X * r1 - Y * r2)) in *.
  assert (ER : R2 = q * R1 + T) by (unfold R1, R2, T, X, Y; ring).
  assert (E1' : - e * (y1 * r2 - x1 * r1) = R1) by (unfold R1; ring).
  split; cbn [w_rr2 w_rr1 w_aa2 w_aa1 w_bb2 w_bb1 w_i]; try lia.
  - rewrite Z.add_1_r, Z.odd_succ, <- Z.negb_odd. destruct (Z.odd (w_i w)); cbn [negb]; lia.
  - intros _. rewrite E1'. fold T. split; [lia|].
    destruct (halving q R1 T R2 Hq ltac:(lia) ER) as [HTR HR12].
    destruct (Z.eq_dec (w_i w) 0) as [E0|E0].
    + destruct (Hst E0) as (-> & -> & -> & -> & ->).
      assert (R1 = r1) by (unfold R1; ring). assert (R2 = r2) by (unfold R2; ring). split; lia.
    + destruct (Hde E0) as (H1 & H2 & H3). split; lia.
Qed.

Lemma inner_body_ok e x2 x1 y2 y1 w : lehmer e x2 x1 y2 y1 w -> 0 < w_rr1 w -> w_i w < 2 ^ 62 ->
  inner_body w = Ok None \/
  exists w' q, inner_body w = Ok (Some w') /\
    lehmer (- e) x1 (x2 + q * x1) y1 (y2 + q * y1) w' /\
    w_i w' = w_i w + 1 /\ 2 * (w_rr2 w' * w_rr1 w') <= w_rr2 w * w_rr1 w /\
    w_rr2 w' = w_rr1 w.
Proof.
  intros L Hrr Hi. pose proof (lehmer_step e x2 x1 y2 y1 w) as Hstep.
  pose proof (lehmer_Y e x2 x1 y2 y1 w) as HY. pose proof (lehmer_sign _ _ _ _ _ _ L) as Hsg.
  pose proof L as [He E1 E2 E3 E4 Hx2 Hx1 Hy2 Hy1 Hd HA' HB' Hrrs Hrr2 Hi0 HR Hmo Hst Hde].
  assert (Hq : 1 <= w_rr2 w / w_rr1 w) by (apply Z.div_le_lower_bound; lia).
  pose proof (Z.div_mod (w_rr2 w) (w_rr1 w) ltac:(lia)) as Hdm.
  pose proof (Z.mod_pos_bound (w_rr2 w) (w_rr1 w) ltac:(lia)) as Hmb.
  specialize (HY (w_rr2 w / w_rr1 w) L Hq).
  specialize (fun w' H H' => Hstep (w_rr2 w / w_rr1 w) (w_rr2 w mod w_rr1 w) w' L Hrr Hq H Hmb H').
  destruct w as [rr2 rr1 aa2 aa1 bb2 bb1 i]. cbn [w_rr2 w_rr1 w_aa2 w_aa1 w_bb2 w_bb1 w_i] in *.
  unfold inner_body. rewrite tdiv_fdiv by lia.
  set (q := rr2 / rr1) in *. set (t1 := rr2 mod rr1) in *. clearbody q t1.
  set (X := x2 + q * x1) in *. set (Y := y2 + q * y1) in *.
  assert (HXA : X * rr1 + x1 * t1 = A) by (rewrite <- HA', Hdm; unfold X; ring).
  assert (HXB : Y * rr1 + y1 * t1 = B) by (rewrite <- HB', Hdm; unfold Y; ring).
  destruct (cofactor_bounds q x2 x1 rr1 t1 A) as (Hqx & HXle); [lia..|exact HXA|].
  destruct (cofactor_bounds q y2 y1 rr1 t1 B) as (Hqy & HYle); [lia..|exact HXB|].
  assert (HX1 : 1 <= X /\ q <= X) by (unfold X; clear - Hq Hx1 Hx2; nia).
  assert (Hqr : 0 <= q * rr1 <= rr2) by (clear - Hdm Hmb Hq Hrr; nia).
  assert (Hrr2A : rr2 <= A) by (clear - HA' Hx1 Hx2 Hrr Hrr2; nia).
  rewrite (i64_ok q) by lia. cbn [bind]. rewrite (i64_ok (q * rr1)) by lia. cbn [bind].
  replace (rr2 - q * rr1) with t1 by lia. rewrite (i64_ok t1) by lia. cbn [bind].
  destruct Hsg as [-> | ->]; destruct (Z.odd i); try lia; subst aa2 aa1 bb2 bb1.
  - repeat (rewrite i64_ok by lia; cbn [bind]).
    replace (- (- (1) * x2 - q * (1 * x1))) with X by (unfold X; ring).
    destruct (Z.ltb_spec t1 X); [now left|].
    pose proof (accept_bound Y y1 rr1 t1 B HY Hy1 ltac:(lia) ltac:(lia) HXB).
    assert (Et3 : 1 * y2 - q * (- (1) * y1) - - (1) * y1 = Y + y1) by (unfold Y; ring).
    repeat (rewrite ?Et3, i64_ok by lia; cbn [bind]).
    destruct (Z.ltb_spec (rr1 - t1) (Y + y1)); [now left|]. right.
    eexists _, q. split; [reflexivity|]. cbn [w_i w_rr2 w_rr1].
    split; [|split; [easy|split; [pose proof (halving q rr1 t1 rr2); lia|easy]]].
    apply Hstep; [lia|now split|]. f_equal; unfold X, Y; ring.
  - repeat (rewrite i64_ok by lia; cbn [bind]).
    replace (- (-1 * y2 - q * (- (-1) * y1))) with Y by (unfold Y; ring).
    destruct (Z.ltb_spec t1 Y); [now left|].
    pose proof (accept_bound X x1 rr1 t1 A ltac:(lia) ltac:(lia) ltac:(lia) ltac:(lia) HXA).
    assert (Et2 : - (-1) * x2 - q * (-1 * x1) - -1 * x1 = X + x1) by (unfold X; ring).
    repeat (rewrite ?Et2, i64_ok by lia; cbn [bind]).
    destruct (Z.ltb_spec (rr1 - t1) (X + x1)); [now left|]. right.
    eexists _, q. split; [reflexivity|]. cbn [w_i w_rr2 w_rr1].
    split; [|split; [easy|split; [pose proof (halving q rr1 t1 rr2); lia|easy]]].
    apply Hstep; [lia|now split|]. f_equal; unfold X, Y; ring.
Qed.

(** The whole inner loop: it ends within its fuel, in a state that describes
    exact remainders. *)
Lemma inner_loop_ok bb : 0 <= bb -> forall n e x2 x1 y2 y1 w, lehmer e x2 x1 y2 y1 w ->
  w_rr2 w * w_rr1 w < 2 ^ Z.of_nat n -> w_i w + Z.of_nat n < 2 ^ 62 ->
  (w_i w <> 0 -> bb < w_rr2 w) ->
  exists w' e' x2' x1' y2' y1', inner_loop n bb w = Ok w' /\ lehmer e' x2' x1' y2' y1' w' /\
    (w_i w' <> 0 -> bb < w_rr2 w').
Proof.
  intros Hbb. induction n as [|n IH]; intros e x2 x1 y2 y1 w L Hw Hi Hbd.
  - assert (w_rr1 w = 0) as E.
    { change (2 ^ Z.of_nat 0) with 1 in Hw. destruct L. nia. }
    cbn [inner_loop]. rewrite E. cbn [Z.eqb negb andb]. eauto 10.
  - cbn [inner_loop]. destruct (negb (w_rr1 w =? 0) && (bb <? w_rr1 w)) eqn:E; [|eauto 10].
    apply Bool.andb_true_iff in E as [_ E]. apply Z.ltb_lt in E.
    destruct (inner_body_ok e x2 x1 y2 y1 w L ltac:(lia) ltac:(lia)) as [->|(w' & q & -> & L' & Hi' & Hp & Hr2)];
      cbn [bind]; [eauto 10|].
    eapply IH; [exact L'| |lia|intros _; lia]. rewrite Nat2Z.inj_succ, Z.pow_succ_r in Hw by lia. lia.
Qed.
End Inner.

(** ** The outer loop *)

(** The invariant of the loop started on [(a, k)]: [eps] is the sign that every
    Euclidean step flips. *)
Record pinv (a k eps : Z) (p : pgcd) : Prop := {
  p_eps : eps = 1 \/ eps = -1;
  p_det : p_co2 p * p_r1 p - p_co1 p * p_r2 p = eps * a;
  p_sg2 : 0 <= eps * p_co2 p;
  p_sg1 : eps * p_co1 p <= -1;
  p_rng : 0 <= p_r1 p <= p_r2 p;
  p_pos : 1 <= p_r2 p;
  p_cong1 : (a | p_r1 p + p_co1 p * k);
  p_cong2 : (a | p_r2 p + p_co2 p * k);
}.

Lemma pinv_init a k : 0 <= k <= a -> 0 < a -> pinv a k 1 (mkp 0 (-1) a k).
Proof.
  intros H Ha. split; cbn [p_co2 p_co1 p_r2 p_r1]; try lia.
  - exists 0. lia.
  - exists 1. lia.
Qed.

(** A unimodular step with the sign pattern of Euclid's algorithm. *)
Lemma pinv_step a k eps p e x2 x1 y2 y1 : pinv a k eps p ->
  e = 1 \/ e = -1 -> 0 <= x2 -> 1 <= x1 -> 0 <= y2 -> 0 <= y1 -> x1 * y2 - x2 * y1 = e ->
  0 <= e * (x1 * p_r1 p - y1 * p_r2 p) < e * (y2 * p_r2 p - x2 * p_r1 p) ->
  pinv a k (e * eps)
    (mkp (e * (y2 * p_co2 p - x2 * p_co1 p)) (e * (x1 * p_co1 p - y1 * p_co2 p))
         (e * (y2 * p_r2 p - x2 * p_r1 p)) (e * (x1 * p_r1 p - y1 * p_r2 p))).
Proof.
  intros [Heps Hdet H2 H1 Hr Hp [c1 Hc1] [c2 Hc2]] He Hx2 Hx1 Hy2 Hy1 Hd HR.
  assert (He2 : e * e = 1) by (destruct He as [-> | ->]; reflexivity).
  split; cbn [p_co2 p_co1 p_r2 p_r1].
  - destruct He as [-> | ->], Heps as [-> | ->]; auto.
  - transitivity (e * e * (x1 * y2 - x2 * y1) * (p_co2 p * p_r1 p - p_co1 p * p_r2 p)); [ring|].
    rewrite He2, Hd, Hdet. ring.
  - replace (e * eps * (e * (y2 * p_co2 p - x2 * p_co1 p)))
      with (e * e * (y2 * (eps * p_co2 p) + x2 * - (eps * p_co1 p))) by ring.
    rewrite He2. nia.
  - replace (e * eps * (e * (x1 * p_co1 p - y1 * p_co2 p)))
      with (e * e * (x1 * (eps * p_co1 p) - y1 * (eps * p_co2 p))) by ring.
    rewrite He2. nia.
  - lia.
  - lia.
  - exists (e * (x1 * c1 - y1 * c2)).
    transitivity (e * (x1 * (p_r1 p + p_co1 p * k) - y1 * (p_r2 p + p_co2 p * k))); [ring|].
    rewrite Hc1, Hc2. ring.
  - exists (e * (y2 * c2 - x2 * c1)).
    transitivity (e * (y2 * (p_r2 p + p_co2 p * k) - x2 * (p_r1 p + p_co1 p * k))); [ring|].
    rewrite Hc1, Hc2. ring.
Qed.

Lemma combine_ok x m y n : - 2 ^ 63 < n < 2 ^ 63 -> combine x m y n = Ok (x * m + y * n).
Proof.
  intros H. unfold combine. destruct (Z.leb_spec 0 n); [easy|].
  rewrite i64_ok by lia. cbn [bind]. f_equal. ring.
Qed.

Section Outer.
Context `{GL : GmpLaws}.

(** The leading word of [r], [s] bits above the end. *)
Lemma lead_word r s : 0 <= r -> 0 <= s -> bitlen r - 63 <= s ->
  let W := r / 2 ^ s in 0 <= W < 2 ^ 63 /\ chiavdf_mpz_extract_uword_from_shift_nonneg r s = W /\
    r = W * 2 ^ s + r mod 2 ^ s /\ 0 <= r mod 2 ^ s < 2 ^ s.
Proof.
  intros Hr Hs Hb W. assert (Hp : 0 < 2 ^ s) by (apply Z.pow_pos_nonneg; lia).
  assert (HW : 0 <= W < 2 ^ 63).
  { split; [apply Z.div_pos; lia|]. apply Z.div_lt_upper_bound; [easy|].
    rewrite <- Z.pow_add_r by lia. rewrite <- (Z.abs_eq r) by easy. apply bitlen_lt_pow. lia. }
  split; [easy|]. split; [apply extract_small; lia|].
  pose proof (Z.div_mod r (2 ^ s) ltac:(lia)). pose proof (Z.mod_pos_bound r (2 ^ s) Hp).
  fold W in H. lia.
Qed.

Lemma euclid_step a k eps p : pinv a k eps p -> 0 < p_r1 p ->
  let p' := mkp (p_co1 p) (p_co2 p - p_co1 p * Z.quot (p_r2 p) (p_r1 p)) (p_r1 p) (Z.rem (p_r2 p) (p_r1 p)) in
  pinv a k (- eps) p' /\ 2 * (p_r1 p' * p_r2 p') <= p_r1 p * p_r2 p /\ p_r2 p' = p_r1 p.
Proof.
  intros P Hr1. pose proof (p_rng _ _ _ _ P) as Hr.
  rewrite tdiv_fdiv, trem_mod by lia.
  pose proof (Z.div_mod (p_r2 p) (p_r1 p) ltac:(lia)) as Hdm.
  pose proof (Z.mod_pos_bound (p_r2 p) (p_r1 p) ltac:(lia)) as Hmb.
  assert (Hq : 1 <= p_r2 p / p_r1 p) by (apply Z.div_le_lower_bound; lia).
  set (q := p_r2 p / p_r1 p) in *. set (t := p_r2 p mod p_r1 p) in *. clearbody q t.
  pose proof (pinv_step a k eps p (-1) 1 q 0 1 P ltac:(lia) ltac:(lia) ltac:(lia) ltac:(lia) ltac:(lia) ltac:(lia) ltac:(lia)) as P'.
  cbn zeta. split.
  - replace (- eps) with (-1 * eps) by ring.
    replace (mkp _ _ _ _) with (mkp (-1 * (0 * p_co2 p - 1 * p_co1 p)) (-1 * (q * p_co1 p - 1 * p_co2 p))
       (-1 * (0 * p_r2 p - 1 * p_r1 p)) (-1 * (q * p_r1 p - 1 * p_r2 p))); [exact P'|].
    f_equal; lia.
  - cbn [p_r1 p_r2]. split; [pose proof (halving q (p_r1 p) t (p_r2 p)); lia|easy].
Qed.

(** The cofactors have opposite signs. *)
Lemma pinv_cofactors a k eps p : pinv a k eps p ->
  exists c1 c2, 0 <= c1 /\ 0 <= c2 /\ p_co1 p = - eps * c1 /\ p_co2 p = eps * c2 /\ c2 * p_r1 p + c1 * p_r2 p = a.
Proof.
  intros [He Hd H2 H1 Hr Hp _ _]. exists (- eps * p_co1 p), (eps * p_co2 p).
  destruct He as [-> | ->]; lia.
Qed.

Lemma pinv_co1 a k eps p L : pinv a k eps p -> 0 <= L < p_r2 p -> Z.abs (p_co1 p) * (L + 1) <= a.
Proof.
  intros P HL. destruct (pinv_cofactors a k eps p P) as (c1 & c2 & H1 & H2 & E1 & _ & Ha). pose proof (p_rng _ _ _ _ P).
  assert (Eabs : Z.abs (p_co1 p) = c1) by (destruct (p_eps _ _ _ _ P) as [-> | ->]; lia). rewrite Eabs. nia.
Qed.

Lemma outer_body_ok a k eps p L : pinv a k eps p -> 0 <= L < p_r1 p ->
  exists p' eps', outer_body L p = Ok p' /\ pinv a k eps' p' /\
    2 * (p_r1 p' * p_r2 p') <= p_r1 p * p_r2 p /\ L < 2 * p_r2 p' /\ Z.abs (p_co1 p') * (L + 1) <= a.
Proof.
  intros P HL. pose proof (p_rng _ _ _ _ P) as Hr.
  pose proof (euclid_step a k eps p P ltac:(lia)) as (E1 & E2 & E3). pose proof (pinv_co1 _ _ _ _ L E1 ltac:(lia)) as E4.
  pose proof (pinv_cofactors _ _ _ _ P) as (c1 & c2 & Hc1 & Hc2 & Ec1 & Ec2 & Ha).
  destruct p as [co2 co1 r2 r1]. cbn [p_co2 p_co1 p_r2 p_r1] in *.
  unfold outer_body. rewrite !bitlen_nonneg_spec by lia. unfold GMP_LIMB_BITS.
  set (s0 := Z.max (bitlen r2) (bitlen r1) - 64 + 1). cbv zeta.
  assert (Hs : exists s, (if s0 <? 0 then 0 else s0) = s /\ 0 <= s /\ s0 <= s).
  { eexists. split; [reflexivity|]. destruct (Z.ltb_spec s0 0); lia. }
  destruct Hs as (s & -> & Hs & Hs0).
  destruct (lead_word r2 s) as (HA & -> & Er2 & Hal); [lia|lia|lia|].
  destruct (lead_word r1 s) as (HB & -> & Er1 & Hbe); [lia|lia|lia|].
  assert (Hp : 0 < 2 ^ s) by (apply Z.pow_pos_nonneg; lia).
  assert (HLW : L / 2 ^ s <= r1 / 2 ^ s) by (apply Z.div_le_mono; lia).
  assert (HL0 : 0 <= L / 2 ^ s) by (apply Z.div_pos; lia).
  rewrite (extract_small L s) by lia.
  assert (HBA : r1 / 2 ^ s <= r2 / 2 ^ s) by (apply Z.div_le_mono; lia).
  assert (HLb : L < (L / 2 ^ s + 1) * 2 ^ s).
  { pose proof (Z.div_mod L (2 ^ s) ltac:(lia)). pose proof (Z.mod_pos_bound L (2 ^ s) Hp). lia. }
  set (A := r2 / 2 ^ s) in *. set (B := r1 / 2 ^ s) in *. set (bb := L / 2 ^ s) in *.
  destruct (Z.eq_dec B 0) as [HB0|HB0].
  { rewrite HB0. cbn [inner_loop inner_fuel w_rr1 Z.eqb negb andb bind].
    destruct (Z.eqb_spec r1 0); [lia|]. cbn [negb]. eexists _, _. split; [reflexivity|]. split; [exact E1|]. split; [exact E2|]. split; [cbn [p_r2]; lia|exact E4]. }
  set (S := 2 ^ s) in *. set (al := r2 mod S) in *. set (be := r1 mod S) in *.
  clearbody A B al be bb S.
  assert (HBr : 1 <= B <= A) by lia. assert (Hr12 : B * S + be <= A * S + al) by lia.
  destruct (inner_loop_ok S A B al be Hp Hal Hbe HBr ltac:(lia) bb HL0 inner_fuel
    1 0 1 1 0 _ (lehmer_init S A B al be Hp Hbe HBr Hr12)) as (w & e & x2 & x1 & y2 & y1 & -> & LE & Hbb).
  { cbn [w_rr2 w_rr1]. change (2 ^ Z.of_nat inner_fuel) with (2 ^ 63 * 2 ^ 64).
    apply Z.mul_lt_mono_nonneg; lia. }
  { reflexivity. }
  { cbn [w_i]. lia. }
  cbn [bind]. pose proof (lehmer_sign _ _ _ _ _ _ _ _ _ _ _ LE) as Hsg.
  destruct LE as [He F1 F2 F3 F4 Hx2 Hx1 Hy2 Hy1 Hd HA' HB' Hrrs Hrr2 Hi0 HR Hmo Hst Hde].
  rewrite <- Er2, <- Er1 in HR, Hde.
  destruct w as [rr2 rr1 aa2 aa1 bb2 bb1 i]. cbn [w_rr2 w_rr1 w_aa2 w_aa1 w_bb2 w_bb1 w_i] in *.
  destruct (Z.eqb_spec i 0) as [->|Hi].
  { destruct (Z.eqb_spec r1 0); [lia|]. cbn [negb]. eexists _, _. split; [reflexivity|]. split; [exact E1|]. split; [exact E2|]. split; [cbn [p_r2]; lia|exact E4]. }
  destruct (Hde Hi) as (D1 & D2 & D3). specialize (Hmo Hi). specialize (Hbb Hi).
  assert (Hx1A : x1 <= A) by (clear - HA' Hrr2 Hrrs Hx1 Hx2; nia).
  assert (Hy1B : y1 <= B) by (clear - HB' Hrr2 Hrrs Hy1 Hy2; nia).
  assert (Baa2 : - 2 ^ 63 < aa2 < 2 ^ 63) by (subst aa2; destruct Hsg as [-> | ->]; lia).
  assert (Bbb1 : - 2 ^ 63 < bb1 < 2 ^ 63) by (subst bb1; destruct Hsg as [-> | ->]; lia).
  assert (Hov : L < 2 * (e * (y2 * r2 - x2 * r1))).
  { apply (overshoot S A al bb L x1 x2 rr2 r2 (e * (x1 * r1 - y1 * r2))); try lia.
    transitivity (e * (x1 * y2 - x2 * y1) * r2); [ring|]. rewrite Hd. destruct Hsg as [-> | ->]; ring. }
  rewrite !combine_ok by assumption. cbn [bind].
  assert (G2 : r2 * bb2 + r1 * aa2 = e * (y2 * r2 - x2 * r1)) by (subst; ring).
  assert (G1 : r1 * aa1 + r2 * bb1 = e * (x1 * r1 - y1 * r2)) by (subst; ring).
  rewrite G1, G2. destruct (Z.ltb_spec (e * (x1 * r1 - y1 * r2)) 0); [lia|].
  destruct (Z.ltb_spec (e * (y2 * r2 - x2 * r1)) 0); [lia|].
  pose proof (pinv_step a k eps _ e x2 x1 y2 y1 P Hsg Hx2 Hx1 Hy2 Hy1 Hd) as P'.
  cbn [p_co2 p_co1 p_r2 p_r1] in P'.
  eexists _, (e * eps). split; [reflexivity|]. cbn [p_r1 p_r2].
  split; [|split; [lia|split; [exact Hov|]]].
  2: { cbn [p_co1]. assert (Eabs : Z.abs (co1 * aa1 + co2 * bb1) = x1 * c1 + y1 * c2).
       { subst aa1 bb1 co1 co2. clear - Hsg Hx1 Hy1 Hc1 Hc2 P. destruct (p_eps _ _ _ _ P) as [-> | ->], Hsg as [-> | ->]; nia. }
       rewrite Eabs. apply (cofactor_small S A B al be bb L x1 x2 y1 y2 rr2 rr1 r2 r1 c1 c2 a); lia. }
  replace (co2 * bb2 + co1 * aa2) with (e * (y2 * co2 - x2 * co1)) by (subst; ring).
  replace (co1 * aa1 + co2 * bb1) with (e * (x1 * co1 - y1 * co2)) by (subst; ring).
  apply P'. lia.
Qed.

Lemma outer_loop_ok a k L : 0 <= L -> forall n eps p, pinv a k eps p ->
  p_r1 p * p_r2 p < 2 ^ Z.of_nat n ->
  exists p' eps', outer_loop n L p = Ok p' /\ pinv a k eps' p' /\ p_r1 p' <= L /\
    (L < 2 * p_r2 p -> L < 2 * p_r2 p') /\ (p' = p \/ Z.abs (p_co1 p') * (L + 1) <= a).
Proof.
  intros HL. induction n as [|n IH]; intros eps p P Hn; cbn [outer_loop];
    pose proof (p_rng _ _ _ _ P) as Hr; pose proof (p_pos _ _ _ _ P) as Hp.
  - change (2 ^ Z.of_nat 0) with 1 in Hn. assert (E : p_r1 p = 0) by nia.
    rewrite E. cbn [Z.eqb negb andb]. exists p, eps. rewrite E. auto 8.
  - destruct (Z.eqb_spec (p_r1 p) 0) as [E|]; cbn [negb andb]; [exists p, eps; rewrite E; auto 8|].
    destruct (Z.ltb_spec L (p_r1 p)); [|exists p, eps; auto 8].
    destruct (outer_body_ok a k eps p L P ltac:(lia)) as (p' & eps' & -> & P' & Hh & Ho & Hc). cbn [bind].
    rewrite Nat2Z.inj_succ, Z.pow_succ_r in Hn by lia.
    destruct (IH eps' p' P' ltac:(lia)) as (p'' & eps'' & E1 & E2 & E3 & E4 & E5).
    exists p'', eps''. do 3 (split; [assumption|]). split; [auto|]. right. destruct E5 as [->|]; assumption.
Qed.

Lemma xgcd_partial_ok a k L : 0 <= k <= a -> 0 < a -> 0 <= L ->
  exists p eps, mpz_xgcd_partial a k L = Ok p /\ pinv a k eps p /\ p_r1 p <= L /\
    (L < 2 * a -> L < 2 * p_r2 p) /\ (p_co1 p = -1 \/ Z.abs (p_co1 p) * (L + 1) <= a).
Proof.
  intros Hk Ha HL. unfold mpz_xgcd_partial.
  destruct (outer_loop_ok a k L HL (outer_fuel a k) 1 _ (pinv_init a k Hk Ha)) as (p & eps & -> & P & Hend & Ho & Hc).
  { cbn [p_r1 p_r2]. unfold outer_fuel. rewrite !Nat2Z.inj_succ, Z2Nat.id by apply Z.log2_nonneg.
    rewrite Z.mul_comm. destruct (Z.eq_dec (a * k) 0) as [->|]; [reflexivity|].
    apply (Z.lt_trans _ (2 ^ Z.succ (Z.log2 (a * k)))); [apply Z.log2_spec; nia|apply Z.pow_lt_mono_r; pose proof (Z.log2_nonneg (a * k)); lia]. }
  cbn [bind]. pose proof (p_pos _ _ _ _ P) as Hr. destruct p as [co2 co1 r2 r1]. cbn [p_r1 p_r2] in *.
  destruct (Z.ltb_spec r2 0); [lia|]. exists (mkp co2 co1 r2 r1), eps. do 4 (split; [auto|]). destruct Hc as [[= _ -> _ _]|]; auto.
Qed.
End Outer.

(** ** Properties *)

(** C35: started on [0 <= k <= a] with bound [L >= 0],
    [mpz_xgcd_partial] terminates without a signed overflow, a division by zero
    or a wrong turn of Lehmer's approximation: its remainders are nonnegative,
    ordered and congruent to [- co k] modulo [a]; the last one is at most [L],
    while the one before it, which the leading words alone may take below [L],
    stays above [L / 2]; and [co2 r1 - co1 r2 = a] up to sign, with [co1]
    nonzero and the cofactors of opposite signs, so that [|co1| r2 <= a]. *)
Theorem xgcd_partial_correct {G : Gmp} {GL : GmpLaws G} a k L : 0 <= k <= a -> 0 < a -> 0 <= L ->
  exists co2 co1 r2 r1, mpz_xgcd_partial a k L = Ok (mkp co2 co1 r2 r1) /\
    0 <= r1 <= r2 /\ r1 <= L /\ (L < 2 * a -> L < 2 * r2) /\
    (a | r1 + co1 * k) /\ (a | r2 + co2 * k) /\
    Z.abs (co2 * r1 - co1 * r2) = a /\ co1 <> 0 /\ co1 * co2 <= 0 /\ Z.abs co1 * r2 <= a.
Proof.
  intros Hk Ha HL. destruct (xgcd_partial_ok a k L Hk Ha HL) as (p & eps & E & P & Hend & Ho & _).
  destruct P as [He Hd H2 H1 Hr Hp Hc1 Hc2]. destruct p as [co2 co1 r2 r1]. cbn [p_co2 p_co1 p_r2 p_r1] in *.
  exists co2, co1, r2, r1. repeat (split; [easy|]).
  destruct He as [-> | ->]; repeat split; try lia; nia.
Qed.

Lemma xgcd_partial_correct_witness : let a := 3 ^ 100 in let k := 7 ^ 50 in
  (0 <= k <= a /\ 0 < a /\ 0 <= 2 ^ 70) /\
  exists co2 co1 r2 r1, mpz_xgcd_partial (G := Ref.gmp) a k (2 ^ 70) = Ok (mkp co2 co1 r2 r1) /\
    0 <= r1 <= r2 /\ r1 <= 2 ^ 70 /\ (2 ^ 70 < 2 * a -> 2 ^ 70 < 2 * r2) /\
    (a | r1 + co1 * k) /\ (a | r2 + co2 * k) /\
    Z.abs (co2 * r1 - co1 * r2) = a /\ co1 <> 0 /\ co1 * co2 <= 0 /\ Z.abs co1 * r2 <= a.
Proof.
  intros a k.
  assert (H1 : 0 <= k <= a) by (split; vm_compute; discriminate).
  assert (H2 : 0 < a) by (vm_compute; reflexivity).
  assert (H3 : 0 <= 2 ^ 70) by (vm_compute; discriminate).
  split; [exact (conj H1 (conj H2 H3))|].
  exact (xgcd_partial_correct (GL := Ref.laws) a k (2 ^ 70) H1 H2 H3).
Defined.

(** A run on 159-bit inputs: the inner loop makes all the steps. *)
Example xgcd_partial_run :
  (p <- mpz_xgcd_partial (G := Ref.gmp) (3 ^ 100) (7 ^ 50) (2 ^ 70) ;; Ok (p_r1 p <=? 2 ^ 70, 2 ^ 70 <? p_r2 p))
  = Ok (true, true).
Proof. vm_compute. reflexivity. Qed.

(** The limb-wise helpers compute what the GMP calls
    they replace compute: the bit length of [mpz_sizeinbase (x, 2)], and the
    low 64-bit word of [x >> shift] as [mpz_tdiv_q_2exp] and [mpz_get_ui] give
    it, for every nonnegative [x]. *)
Theorem word_helpers_correct {G : Gmp} {GL : GmpLaws G} x shift : 0 <= x -> 0 <= shift ->
  chiavdf_mpz_bitlen_nonneg x = mpz_sizeinbase2 x /\
  chiavdf_mpz_extract_uword_from_shift_nonneg x shift = s64 (u64 (Z.shiftr x shift)).
Proof.
  intros Hx Hs. rewrite bitlen_nonneg_spec, extract_spec, mpz_sizeinbase2_spec by easy.
  now rewrite Z.shiftr_div_pow2.
Qed.

Lemma word_helpers_correct_witness : (0 <= 3 ^ 100 /\ 0 <= 77) /\
  chiavdf_mpz_bitlen_nonneg (G := Ref.gmp) (3 ^ 100) = mpz_sizeinbase2 (Gmp := Ref.gmp) (3 ^ 100) /\
  chiavdf_mpz_extract_uword_from_shift_nonneg (G := Ref.gmp) (3 ^ 100) 77 = s64 (u64 (Z.shiftr (3 ^ 100) 77)).
Proof.
  split; [split; discriminate|].
  apply (word_helpers_correct (GL := Ref.laws) (3 ^ 100) 77); discriminate.
Defined.
