(* ===== verification/Nucomp.v ===== *)
(** NUCOMP and NUDUPL ([src/src/nucomp.h]): composition and squaring with the
    partial reduction of [XgcdPartial]. Their results are composites in the
    sense of [QuadForm], hence equivalent to those of [Forms.multiply] and
    [Forms.square]. *)
From Stdlib Require Import Setoid Morphisms ZNsatz.
From S2P Require Import Prelude NumTheory Gmp QuadForm FormClass Integer Forms XgcdPartial.

(** [mpz_divexact] traps on a zero divisor like every GMP division. *)
Definition divexact `{Gmp} (n d : Z) : res Z :=
  require negb (d =? 0) else division_by_zero ;; Ok (mpz_divexact n d).

Section WithGmp.
Context `{G : Gmp}.

(** ** qfb_nucomp *)

(** The last part of [qfb_nucomp], from the test of [a1] against [L]; [gb] is
  [g->b]. *)
Definition nucomp_finish (a1 a2 c2 m ss k gb D L : Z) : res form :=
if a1 <? L then
  let t := a2 * k in
  let ca := a2 * a1 in
  let cb := Z.shiftl t 1 in
  let cb := cb + gb in
  let cc := gb + t in
  let cc := cc * k in
  let cc := cc + c2 in
  cc <- divexact cc a1 ;;
  Ok (mkform ca cb cc)
else
  ' (mkp co2 co1 _ r1) <- mpz_xgcd_partial a1 k L ;;
  let t := a2 * r1 in
  let m1 := m * co1 + t in
  m1 <- divexact m1 a1 ;;
  let m2 := ss * r1 in
  let temp := c2 * co1 in
  m2 <- divexact (m2 - temp) a1 ;;
  let ca := r1 * m1 in
  let temp := co1 * m2 in
  let ca := if co1 <? 0 then ca - temp else temp - ca in
  let cb := ca * co2 in
  let cb := t - cb in
  let cb := Z.shiftl cb 1 in
  cb <- divexact cb co1 ;;
  let cb := cb - gb in
  let temp := Z.shiftl ca 1 in
  cb <- fdiv_r cb temp ;;
  let cc := cb * cb in
  let cc := cc - D in
  cc <- divexact cc ca ;;
  let cc := Z.shiftr cc 2 in
  if ca <? 0 then Ok (mkform (- ca) cb (- cc)) else Ok (mkform ca cb cc).

(** The body for [f->a <= g->a]. *)
Definition nucomp_body (f g : form) (D L : Z) : res form :=
let a1 := fa f in
let a2 := fa g in
let c2 := fc g in
let ss := Z.shiftr (fb f + fb g) 1 in
let m := Z.shiftr (fb f - fb g) 1 in
t <- fdiv_r a2 a1 ;;
let '(sp, v1) := if t =? 0 then (a1, 0)
                 else let '(sp, v1, _) := mpz_gcdext t a1 in (sp, v1) in
k <- fdiv_r (m * v1) a1 ;;
if negb (sp =? 1) then
  let '(s, v2, u2) := mpz_gcdext ss sp in
  let k := k * u2 - v2 * c2 in
  if negb (s =? 1) then
    a1 <- divexact a1 s ;;
    a2 <- divexact a2 s ;;
    let c2 := c2 * s in
    k <- fdiv_r k a1 ;;
    nucomp_finish a1 a2 c2 m ss k (fb g) D L
  else
    k <- fdiv_r k a1 ;;
    nucomp_finish a1 a2 c2 m ss k (fb g) D L
else nucomp_finish a1 a2 c2 m ss k (fb g) D L.

(** The recursive call swaps the operands, so that it recurses no further. *)
Definition qfb_nucomp (f g : form) (D L : Z) : res form :=
if fa g <? fa f then nucomp_body g f D L else nucomp_body f g D L.

(** [nucomp_form]: [a = b * c]. All reads of the operands precede the writes of
  the result, so [a] may be [b] or [c]. *)
Definition nucomp_form (b c : form) (D L : Z) : res form := qfb_nucomp b c D L.

(** ** qfb_nudupl *)

Definition nudupl_finish (a1 c1 k b D L : Z) : res form :=
if a1 <? L then
  let t := a1 * k in
  let ra := a1 * a1 in
  let cb := Z.shiftl t 1 in
  let cb := cb + b in
  let rc := b + t in
  let rc := rc * k in
  let rc := rc + c1 in
  rc <- fdiv_q rc a1 ;;
  Ok (mkform ra cb rc)
else
  ' (mkp co2 co1 _ r1) <- mpz_xgcd_partial a1 k L ;;
  let m2 := b * r1 in
  m2 <- divexact (m2 - c1 * co1) a1 ;;
  let ra := r1 * r1 in
  let ra := ra - co1 * m2 in
  let ra := if 0 <=? co1 then - ra else ra in
  let cb := ra * co2 in
  let cb := cb - a1 * r1 in
  let cb := - cb in
  let cb := Z.shiftl cb 1 in
  cb <- divexact cb co1 ;;
  let cb := cb - b in
  let temp := Z.shiftl ra 1 in
  cb <- fdiv_r cb temp ;;
  let rc := cb * cb in
  let rc := rc - D in
  rc <- divexact rc ra ;;
  let rc := Z.quot rc (2 ^ 2) in
  if ra <? 0 then Ok (mkform (- ra) cb (- rc)) else Ok (mkform ra cb rc).

Definition qfb_nudupl (f : form) (D L : Z) : res form :=
let a1 := fa f in
let c1 := fc f in
let '(s, v2) :=
  if fb f <? 0 then
    let b_abs := - fb f in
    let '(s, v2, _) := mpz_gcdext b_abs a1 in (s, - v2)
  else
    let b_abs := fb f in
    let '(s, v2, _) := mpz_gcdext b_abs a1 in (s, v2) in
let k := v2 * c1 in
let k := - k in
let s_is_1 := s =? 1 in
if negb s_is_1 then
  a1 <- fdiv_q a1 s ;;
  let c1 := c1 * s in
  k <- tdiv_r k a1 ;;
  let k := if k <? 0 then k + a1 else k in
  nudupl_finish a1 c1 k (fb f) D L
else
  k <- tdiv_r k a1 ;;
  let k := if k <? 0 then k + a1 else k in
  nudupl_finish a1 c1 k (fb f) D L.

(** [nudupl_form]: [a = b * b]. The caller squares in place: [r] and [f] are
  then two headers over the same limbs. [f->a] and [f->c] are copied before
  [r->a] and [r->c] are written, and [f->b] is last read before [r->b] is. *)
Definition nudupl_form (b : form) (D L : Z) : res form := qfb_nudupl b D L.

End WithGmp.

(** ** The common core *)

Lemma divexact_ok `{GL : GmpLaws} n d q : d <> 0 -> n = d * q -> divexact n d = Ok q.
Proof.
  intros Hd ->. unfold divexact. destruct (Z.eqb_spec d 0); [easy|]. cbn [negb].
  f_equal. apply (Z.mul_reg_r _ _ d Hd).
  rewrite mpz_divexact_spec; [ring|easy|apply Z.divide_factor_l].
Qed.

Lemma shiftl_1 x : Z.shiftl x 1 = 2 * x.
Proof. now rewrite Z.shiftl_mul_pow2, Z.mul_comm by lia. Qed.

Lemma shiftr_1 x y : x = 2 * y -> Z.shiftr x 1 = y.
Proof. intros ->. rewrite Z.shiftr_div_pow2, Z.mul_comm by lia. now apply Z.div_mul. Qed.

Lemma shiftr_2 x y : x = 4 * y -> Z.shiftr x 2 = y.
Proof. intros ->. rewrite Z.shiftr_div_pow2, Z.mul_comm by lia. now apply Z.div_mul. Qed.

(** What both algorithms have when they reach the test of [a1] against [L]:
    forms [(w a1, w u + m, c1)] and [(w a2, w u - m, c2)] of discriminant [D],
    and [k] with [a2 k = m] and [u k = - c2] modulo [a1]. *)
Section Core.
Context `{GL : GmpLaws}.
Variables (D w a1 a2 u m c1 c2 k : Z).
Hypothesis Hw : 0 < w.
Hypothesis Ha1 : 0 < a1.
Hypothesis Ha2 : 0 < a2.
Hypothesis HD : D < 0.
Let f := mkform (w * a1) (w * u + m) c1.
Let g := mkform (w * a2) (w * u - m) c2.
Hypothesis Vf : valid D f.
Hypothesis Vg : valid D g.
Hypothesis Hc : - m * u + a1 * c1 = a2 * c2.
Hypothesis Hk : 0 <= k < a1.
Variables (x z : Z).
Hypothesis Hx : a2 * k - m = a1 * x.
Hypothesis Hz : u * k + c2 = a1 * z.

Let h0 := mkform (a1 * a2) (w * u + k * a2 + x * a1) (k * x + w * z).

Lemma core_composite : composite f g h0.
Proof.
  pose proof (multiply_composite w a1 a2 u (- m) (- k) (- x) (- z) c1 c2) as C.
  replace (w * u - - m) with (w * u + m) in C by ring.
  replace (w * u + - m) with (w * u - m) in C by ring.
  replace (w * u - (- k * a2 + - x * a1)) with (w * u + k * a2 + x * a1) in C by ring.
  replace (- k * - x - w * - z) with (k * x + w * z) in C by ring.
  apply C; lia.
Qed.

Lemma core_valid : valid D h0.
Proof. apply (composite_valid D f g); [exact Vf|exact Vg|apply core_composite|cbn [h0 fa]; nia]. Qed.

(** The row of the composition matrix the partial reduction stops at. *)
Variables (co2 co1 r2 r1 eps : Z).
Hypothesis P : pinv a1 k eps (mkp co2 co1 r2 r1).

Let m1 := fun y1 => a2 * y1 - co1 * x.
Let n2 := fun y1 => w * (u * y1 - co1 * z).

Lemma core_partial : exists y1 y2,
  r1 = y1 * a1 - co1 * k /\ r2 = y2 * a1 - co2 * k /\ co2 * y1 - co1 * y2 = eps /\
  m * co1 + a2 * r1 = a1 * m1 y1 /\
  w * u * r1 - w * c2 * co1 = a1 * n2 y1 /\
  let N := r1 * m1 y1 - co1 * n2 y1 in
  let B := - eps * (2 * (r1 * (a2 * y2 - co2 * x) - co2 * n2 y1)) - (w * u - m) in
  0 < N /\ 2 * (a2 * r1 - eps * N * co2) = co1 * (B + (w * u - m)) /\
  exists C, equiv h0 (mkform N B C).
Proof.
  destruct P as [He Hdet _ H1 _ _ [y1 Hy1] [y2 Hy2]]. cbn [p_co2 p_co1 p_r2 p_r1] in *.
  assert (E1 : r1 = y1 * a1 - co1 * k) by lia. assert (E2 : r2 = y2 * a1 - co2 * k) by lia.
  assert (Hd : co2 * y1 - co1 * y2 = eps).
  { apply (Z.mul_reg_l _ _ a1); [lia|]. rewrite E1, E2 in Hdet. lia. }
  assert (He2 : eps * eps = 1) by (destruct He as [-> | ->]; reflexivity).
  exists y1, y2. repeat (split; [easy|]).
  split; [unfold m1; rewrite E1; replace m with (a2 * k - a1 * x) by lia; ring|].
  split; [unfold n2; rewrite E1; replace c2 with (a1 * z - u * k) by lia; ring|].
  cbv zeta. set (N := r1 * m1 y1 - co1 * n2 y1).
  assert (EN : N = eval h0 y1 (- co1)).
  { unfold N, m1, n2, eval, h0. cbn [fa fb fc]. rewrite E1. ring. }
  split; [rewrite EN; apply (eval_pos D); [apply core_valid|right; lia]|]. split.
  - unfold N, m1, n2. rewrite <- Hd in *. nsatz.
  - assert (Hact : (y1 * (eps * co2) - (- eps * y2) * - co1) = 1) by (rewrite <- Hd in *; nsatz).
    eexists. exists y1, (- eps * y2), (- co1), (eps * co2). split; [exact Hact|].
    unfold act, h0. cbn [fa fb fc]. apply form_eq; [| |reflexivity].
    + rewrite EN. unfold eval, h0. cbn [fa fb fc]. ring.
    + unfold n2. rewrite E1. replace m with (a2 * k - a1 * x) by lia. rewrite <- Hd in *. nsatz.
Qed.
End Core.

(** The form [(|ca|, cb, |cc|)] that the last lines of the large branch make of
    a form [(N, B, C)] given [ca = +-N]. *)
Lemma finish_form D h N B C ca : valid D h -> equiv h (mkform N B C) -> 0 < N ->
  ca = N \/ ca = - N -> let cb := B mod (2 * ca) in
  exists q, cb * cb - D = ca * (4 * q) /\
    equiv h (mkform (Z.abs ca) cb (if ca <? 0 then - q else q)).
Proof.
  intros V E HN Hca cb. assert (HD : B * B - 4 * N * C = D).
  { rewrite E in V. apply V. }
  assert (Hcb : exists n, cb = B + 2 * N * n).
  { pose proof (Z.div_mod B (2 * ca) ltac:(lia)) as Hdm. fold cb in Hdm.
    destruct Hca as [-> | ->]; [exists (- (B / (2 * N)))|exists (B / (2 * - N))]; lia. }
  destruct Hcb as (n & Hcb). set (C' := C + B * n + N * n * n).
  assert (Hq : cb * cb - D = N * (4 * C')) by (rewrite Hcb, <- HD; unfold C'; ring).
  assert (E' : equiv h (mkform N cb C')).
  { rewrite E. apply (shift_equiv N B C cb C' n); [lia|lia|].
    unfold disc. cbn [fa fb fc]. lia. }
  destruct Hca as [-> | ->].
  - exists C'. split; [easy|]. rewrite Z.abs_eq by lia. now destruct (Z.ltb_spec N 0); [lia|].
  - exists (- C'). split; [lia|]. rewrite Z.abs_opp, Z.abs_eq by lia.
    destruct (Z.ltb_spec (- N) 0); [|lia]. now rewrite Z.opp_involutive.
Qed.

Section Finish.
Context `{GL : GmpLaws}.
Variables (D L w a1 a2 u m c1 c2 k : Z).
Hypothesis Hw : 0 < w.
Hypothesis Ha1 : 0 < a1.
Hypothesis Ha2 : 0 < a2.
Hypothesis HD : D < 0.
Hypothesis HL : 0 <= L.
Let f := mkform (w * a1) (w * u + m) c1.
Let g := mkform (w * a2) (w * u - m) c2.
Hypothesis Vf : valid D f.
Hypothesis Vg : valid D g.
Hypothesis Hc : - m * u + a1 * c1 = a2 * c2.
Hypothesis Hk : 0 <= k < a1.
Hypothesis Hx : (a1 | a2 * k - m).
Hypothesis Hz : (a1 | u * k + c2).

(** The values the small branch computes. *)
Lemma finish_small : exists q, (w * u - m + a2 * k) * k + w * c2 = a1 * q /\
  composite f g (mkform (a2 * a1) (2 * (a2 * k) + (w * u - m)) q).
Proof.
  destruct Hx as [x Hx'], Hz as [z Hz']. rewrite (Z.mul_comm x) in Hx'. rewrite (Z.mul_comm z) in Hz'.
  pose proof (core_composite w a1 a2 u m c1 c2 k Ha1 Hc x z Hx' Hz') as C0. fold f g in C0.
  exists (k * x + w * z). split; [nia|].
  replace (mkform (a2 * a1) _ _) with (mkform (a1 * a2) (w * u + k * a2 + x * a1) (k * x + w * z));
    [exact C0|apply form_eq; lia].
Qed.

(** The values the large branch computes: every division is exact. *)
Lemma finish_large : exists co2 co1 r2 r1 m1 m2 ca B q,
  mpz_xgcd_partial a1 k L = Ok (mkp co2 co1 r2 r1) /\ co1 <> 0 /\ ca <> 0 /\
  m * co1 + a2 * r1 = a1 * m1 /\ w * u * r1 - w * c2 * co1 = a1 * m2 /\
  ca = (if co1 <? 0 then r1 * m1 - co1 * m2 else co1 * m2 - r1 * m1) /\
  2 * (a2 * r1 - ca * co2) = co1 * (B + (w * u - m)) /\
  (B mod (2 * ca)) * (B mod (2 * ca)) - D = ca * (4 * q) /\
  composite f g (if ca <? 0 then mkform (- ca) (B mod (2 * ca)) (- q) else mkform ca (B mod (2 * ca)) q).
Proof.
  destruct Hx as [x Hx'], Hz as [z Hz']. rewrite (Z.mul_comm x) in Hx'. rewrite (Z.mul_comm z) in Hz'.
  pose proof (core_composite w a1 a2 u m c1 c2 k Ha1 Hc x z Hx' Hz') as C0.
  pose proof (core_valid D w a1 a2 u m c1 c2 k Ha1 Ha2 Vf Vg Hc x z Hx' Hz') as V0.
  destruct (xgcd_partial_ok a1 k L ltac:(lia) Ha1 HL) as ([co2 co1 r2 r1] & eps & EX & P & _).
  destruct (core_partial D w a1 a2 u m c1 c2 k Ha1 Ha2 Vf Vg Hc x z Hx' Hz' co2 co1 r2 r1 eps P)
    as (y1 & y2 & _ & _ & _ & E3 & E4 & HN & HB & C & EC).
  fold f g in C0. set (h0 := mkform (a1 * a2) _ _) in *.
  set (m1 := a2 * y1 - co1 * x) in *. set (m2 := w * (u * y1 - co1 * z)) in *.
  set (N := r1 * m1 - co1 * m2) in *. set (B := - eps * _ - _) in *.
  pose proof (p_eps _ _ _ _ P) as He. pose proof (p_sg1 _ _ _ _ P) as Hs1. cbn [p_co1] in Hs1.
  exists co2, co1, r2, r1, m1, m2, (eps * N), B.
  destruct (finish_form D h0 N B C (eps * N) V0 EC HN) as (q & Eq & Q);
    [destruct He as [-> | ->]; lia|].
  exists q. split; [exact EX|]. split; [lia|]. split; [destruct He as [-> | ->]; lia|].
  split; [exact E3|]. split; [exact E4|].
  split; [destruct (Z.ltb_spec co1 0), He as [-> | ->]; unfold N in *; lia|].
  split; [exact HB|]. split; [exact Eq|].
  eapply composite_equiv_3; [exact C0|]. rewrite Q. destruct (Z.ltb_spec (eps * N) 0).
  - now rewrite Z.abs_neq by lia.
  - now rewrite Z.abs_eq by lia.
Qed.

Lemma nucomp_finish_ok : exists h,
  nucomp_finish a1 a2 (w * c2) m (w * u) k (w * u - m) D L = Ok h /\ composite f g h.
Proof.
  unfold nucomp_finish. destruct (Z.ltb_spec a1 L).
  - destruct finish_small as (q & E & C).
    rewrite (divexact_ok _ a1 q) by lia. cbn [bind]. rewrite shiftl_1. eauto.
  - destruct finish_large as (co2 & co1 & r2 & r1 & m1 & m2 & ca & B & q & -> & H1 & Hca & E3 & E4 & Eca & EB & Eq & C).
    cbn [bind]. rewrite (divexact_ok _ a1 m1), (divexact_ok _ a1 m2) by lia. cbn [bind].
    rewrite <- Eca, !shiftl_1, (divexact_ok _ co1 (B + (w * u - m))) by lia. cbn [bind].
    rewrite Z.add_simpl_r, fdiv_r_ok by lia. cbn [bind].
    rewrite (divexact_ok _ ca (4 * q)) by lia. cbn [bind]. rewrite (shiftr_2 (4 * q) q) by ring.
    destruct (ca <? 0); eauto.
Qed.

(** With both operands equal, [m = 0]. *)
Lemma nudupl_finish_ok : m = 0 -> a2 = a1 -> exists h,
  nudupl_finish a1 (w * c2) k (w * u) D L = Ok h /\ composite f g h.
Proof.
  intros Hm Ha. unfold nudupl_finish. destruct (Z.ltb_spec a1 L).
  - destruct finish_small as (q & E & C). rewrite Hm, Ha, Z.sub_0_r in E, C.
    rewrite (fdiv_q_exact _ a1 q) by lia. cbn [bind]. rewrite shiftl_1. eauto.
  - destruct finish_large as (co2 & co1 & r2 & r1 & m1 & m2 & ca & B & q & -> & H1 & Hca & E3 & E4 & Eca & EB & Eq & C).
    rewrite Hm, Ha in E3. assert (m1 = r1) as -> by (apply (Z.mul_reg_l _ _ a1); lia).
    rewrite Hm, Ha, Z.sub_0_r in EB.
    cbn [bind]. rewrite (divexact_ok _ a1 m2) by lia. cbn [bind].
    replace (if 0 <=? co1 then _ else _) with ca
      by (rewrite Eca; destruct (Z.ltb_spec co1 0), (Z.leb_spec 0 co1); lia).
    rewrite !shiftl_1, (divexact_ok _ co1 (B + w * u)) by lia. cbn [bind].
    rewrite Z.add_simpl_r, fdiv_r_ok by lia. cbn [bind].
    rewrite (divexact_ok _ ca (4 * q)) by lia. cbn [bind].
    replace (Z.quot (4 * q) (2 ^ 2)) with q by (change (2 ^ 2) with 4; now rewrite Z.mul_comm, Z.quot_mul).
    destruct (ca <? 0); eauto.
Qed.
End Finish.

(** ** The solution of the congruences *)

Lemma mod_divide_sub n d : d <> 0 -> (d | n - n mod d).
Proof. intros Hd. exists (n / d). pose proof (Z.div_mod n d Hd). lia. Qed.

(** Coprime parts of [A1], [A2] and the half sum, as in [multiply]. *)
Lemma half_sums D f g : valid D f -> valid D g ->
  exists ss m, fb f = ss + m /\ fb g = ss - m /\
    Z.shiftr (fb f + fb g) 1 = ss /\ Z.shiftr (fb f - fb g) 1 = m /\
    - m * ss + fa f * fc f = fa g * fc g.
Proof.
  intros [HD1 _ _] [HD2 _ _]. destruct (same_parity D g f HD2 HD1) as (ss & m & E1 & E2 & E3).
  exists ss, m. rewrite (shiftr_1 _ ss), (shiftr_1 _ m) by lia. lia.
Qed.

Section Solve.
Variables (A1 A2 ss m c1 c2 : Z).
Hypothesis HA1 : 0 < A1.
Hypothesis Hc : - m * ss + A1 * c1 = A2 * c2.

(** [k = m v1 u2 - v2 c2] solves both congruences modulo [A1 / s]. *)
Lemma nucomp_k sp v1 s v2 u2 a1 a2 u :
  (A1 | A2 * v1 - sp) -> ss * v2 + sp * u2 = s -> 0 < s ->
  A1 = s * a1 -> A2 = s * a2 -> ss = s * u ->
  let k := m * v1 * u2 - v2 * c2 in
  (a1 | a2 * k - m) /\ (a1 | u * k + c2).
Proof.
  intros [x Hx] Hs Hs0 E1 E2 E3 k.
  assert (Hsp : A2 * v1 = sp + x * A1) by lia.
  split; apply (divide_mul_cancel_l s); try lia; rewrite <- E1.
  - exists (m * x * u2 - v2 * c1).
    replace (s * (a2 * k - m)) with (A2 * k - s * m) by (rewrite E2; ring). unfold k.
    transitivity (m * u2 * (A2 * v1) - v2 * (A2 * c2) - s * m); [ring|].
    rewrite Hsp, <- Hc, <- Hs. ring.
  - exists (c1 * v1 * u2 - c2 * x * u2).
    replace (s * (u * k + c2)) with (ss * k + s * c2) by (rewrite E3; ring). unfold k.
    transitivity ((m * ss) * v1 * u2 - v2 * ss * c2 + s * c2); [ring|].
    replace (m * ss) with (A1 * c1 - A2 * c2) by lia.
    transitivity (c1 * v1 * u2 * A1 - (A2 * v1) * u2 * c2 - v2 * ss * c2 + s * c2); [ring|].
    rewrite Hsp, <- Hs. ring.
Qed.
End Solve.

Lemma gcd_pos_r a b : 0 < b -> 0 < Z.gcd a b.
Proof. intros H. pose proof (Z.gcd_nonneg a b). enough (Z.gcd a b <> 0) by lia. intros E. apply Z.gcd_eq_0 in E. lia. Qed.

(** A solution may be changed by multiples of the modulus. *)
Lemma solve_mod a1 a2 m u c2 k : 0 < a1 ->
  (a1 | a2 * k - m) /\ (a1 | u * k + c2) ->
  (a1 | a2 * (k mod a1) - m) /\ (a1 | u * (k mod a1) + c2).
Proof.
  intros Ha [[x Hx] [z Hz]]. destruct (mod_divide_sub k a1 ltac:(lia)) as [q Hq].
  split; [exists (x - a2 * q)|exists (z - u * q)]; replace (k mod a1) with (k - q * a1) by lia; lia.
Qed.

Lemma solve_shift a1 a2 m u c2 k n :
  (a1 | a2 * k - m) /\ (a1 | u * k + c2) ->
  (a1 | a2 * (k + a1 * n) - m) /\ (a1 | u * (k + a1 * n) + c2).
Proof. intros [[x Hx] [z Hz]]. split; [exists (x + a2 * n)|exists (z + u * n)]; lia. Qed.

Lemma valid_eq D f g : valid D f -> f = g -> valid D g.
Proof. now intros V <-. Qed.

Section Nucomp.
Context `{GL : GmpLaws}.
Variables (D L : Z).
Hypothesis HL : 0 <= L.

(** The gcd of [a1] and [a2], and a cofactor of [a2]. *)
Lemma nucomp_gcd A1 A2 : 0 < A1 -> exists sp v1,
  (if A2 mod A1 =? 0 then (A1, 0) else let '(sp, v1, _) := mpz_gcdext (A2 mod A1) A1 in (sp, v1)) = (sp, v1) /\
  sp = Z.gcd A2 A1 /\ (A1 | A2 * v1 - sp).
Proof.
  intros H. destruct (Z.eqb_spec (A2 mod A1) 0) as [E|E].
  - exists A1, 0. split; [easy|]. apply Z.mod_divide in E; [|lia]. split; [|exists (-1); ring].
    rewrite Z.gcd_comm. symmetry. apply Z.divide_gcd_iff; [lia|easy].
  - destruct (mpz_gcdext (A2 mod A1) A1) as [[sp v1] t] eqn:Eg.
    apply mpz_gcdext_spec in Eg as [-> Eg]. exists (Z.gcd (A2 mod A1) A1), v1. split; [easy|].
    split; [rewrite Z.gcd_mod by lia; apply Z.gcd_comm|].
    destruct (mod_divide_sub A2 A1 ltac:(lia)) as [q Hq]. exists (q * v1 - t).
    rewrite <- Eg. replace (A2 mod A1) with (A2 - q * A1) by lia. ring.
Qed.

Lemma nucomp_body_ok f g : valid D f -> valid D g ->
  exists h, nucomp_body f g D L = Ok h /\ composite f g h.
Proof.
  intros Vf Vg. pose proof Vf as [_ Hn HA1]. pose proof Vg as [_ _ HA2].
  destruct (half_sums D f g Vf Vg) as (ss & m & Eb1 & Eb2 & Ess & Em & Hc).
  destruct f as [A1 b1 c1], g as [A2 b2 c2]. cbn [fa fb fc] in *. subst b1 b2.
  unfold nucomp_body. cbn [fa fb fc]. rewrite Ess, Em, fdiv_r_ok by lia. cbn [bind].
  destruct (nucomp_gcd A1 A2 HA1) as (sp & v1 & -> & Hsp & Hv1). rewrite fdiv_r_ok by lia. cbn [bind].
  destruct (mod_divide_sub (m * v1) A1 ltac:(lia)) as [q1 Hq1].
  assert (Hfin : forall s a1 a2 u k, 0 < s -> A1 = s * a1 -> A2 = s * a2 -> ss = s * u ->
    (a1 | a2 * k - m) /\ (a1 | u * k + c2) ->
    exists h, nucomp_finish a1 a2 (s * c2) m ss (k mod a1) (ss - m) D L = Ok h /\
      composite (mkform A1 (ss + m) c1) (mkform A2 (ss - m) c2) h).
  { intros s a1 a2 u k Hs E1 E2 E3 Hk. subst A1 A2 ss.
    assert (0 < a1) by nia. assert (0 < a2) by nia.
    apply solve_mod in Hk as [Hk1 Hk2]; [|easy].
    apply nucomp_finish_ok; auto; [|apply Z.mod_pos_bound; lia].
    apply (Z.mul_reg_l _ _ s); lia. }
  destruct (Z.eqb_spec sp 1) as [E1|E1]; cbn [negb].
  - destruct (Hfin 1 A1 A2 ss (m * v1)) as (h & Hh & C); try lia; [|exists h; rewrite <- Hh; f_equal; now rewrite Z.mul_1_l].
    pose proof (nucomp_k A1 A2 ss m c1 c2 Hc sp v1 1 0 1 A1 A2 ss Hv1) as K. cbv zeta in K.
    replace (m * v1 * 1 - 0 * c2) with (m * v1) in K by ring. apply K; lia.
  - destruct (mpz_gcdext ss sp) as [[s v2] u2] eqn:Eg. apply mpz_gcdext_spec in Eg as [Es Eg].
    assert (Hsp0 : 0 < sp) by (rewrite Hsp; now apply gcd_pos_r).
    assert (Hs0 : 0 < s) by (rewrite Es; now apply gcd_pos_r).
    destruct (Z.gcd_divide_l ss sp) as [u Hu], (Z.gcd_divide_r ss sp) as [y Hy]. rewrite <- Es in Hu, Hy.
    destruct (Z.gcd_divide_l A2 A1) as [a2' Ha2'], (Z.gcd_divide_r A2 A1) as [a1' Ha1'].
    rewrite <- Hsp in Ha2', Ha1'.
    assert (Ea1 : A1 = s * (a1' * y)) by (rewrite Ha1', Hy; ring).
    assert (Ea2 : A2 = s * (a2' * y)) by (rewrite Ha2', Hy; ring).
    set (a1 := a1' * y) in *. set (a2 := a2' * y) in *. clearbody a1 a2.
    pose proof (nucomp_k A1 A2 ss m c1 c2 Hc sp v1 s v2 u2 a1 a2 u Hv1 Eg Hs0 Ea1 Ea2 ltac:(lia)) as K.
    cbv zeta in K. apply (solve_shift _ _ _ _ _ _ (- q1 * u2 * s)) in K.
    replace (m * v1 * u2 - v2 * c2 + a1 * (- q1 * u2 * s)) with ((m * v1) mod A1 * u2 - v2 * c2) in K
      by (replace ((m * v1) mod A1) with (m * v1 - q1 * A1) by lia; rewrite Ea1; ring).
    destruct (Hfin s a1 a2 u _ Hs0 Ea1 Ea2 ltac:(lia) K) as (h & Hh & C). exists h. split; [|exact C].
    destruct (Z.eqb_spec s 1) as [->|Hs1]; cbn [negb].
    + rewrite fdiv_r_ok by lia. cbn [bind]. rewrite <- Hh.
      replace A1 with a1 by lia. replace A2 with a2 by lia. now rewrite Z.mul_1_l.
    + rewrite (divexact_ok A1 s a1), (divexact_ok A2 s a2) by lia. cbn [bind].
      rewrite fdiv_r_ok by nia. cbn [bind]. now rewrite (Z.mul_comm c2).
Qed.

Lemma nucomp_ok f g : valid D f -> valid D g ->
  exists h, qfb_nucomp f g D L = Ok h /\ composite f g h.
Proof.
  intros Vf Vg. unfold qfb_nucomp. destruct (fa g <? fa f).
  - destruct (nucomp_body_ok g f Vg Vf) as (h & E & C). exists h. split; [easy|]. now apply composite_sym.
  - now apply nucomp_body_ok.
Qed.

(** The coefficient for [b] obtained from that for [|b|]. *)
Lemma nudupl_gcd b a : exists s v2 t,
  (if b <? 0 then let '(s, v2, _) := mpz_gcdext (- b) a in (s, - v2)
   else let '(s, v2, _) := mpz_gcdext b a in (s, v2)) = (s, v2) /\
  s = Z.gcd b a /\ b * v2 + a * t = s.
Proof.
  destruct (b <? 0).
  - destruct (mpz_gcdext (- b) a) as [[s v2] t] eqn:E. apply mpz_gcdext_spec in E as [Es E].
    rewrite Z.gcd_opp_l in Es. exists s, (- v2), t. repeat split; [easy|lia].
  - destruct (mpz_gcdext b a) as [[s v2] t] eqn:E. apply mpz_gcdext_spec in E as [Es E].
    exists s, v2, t. repeat split; easy.
Qed.

(** The truncated remainder with its fix-up is the floor remainder. *)
Lemma tdiv_fix k a : 0 < a -> (let r := Z.rem k a in if r <? 0 then r + a else r) = k mod a.
Proof.
  intros Ha. cbv zeta. pose proof (Z.quot_rem k a ltac:(lia)) as E.
  pose proof (Z.rem_bound_abs k a ltac:(lia)) as B.
  destruct (Z.ltb_spec (Z.rem k a) 0).
  - apply (Z.mod_unique_pos _ _ (Z.quot k a - 1)); lia.
  - apply (Z.mod_unique_pos _ _ (Z.quot k a)); lia.
Qed.

Lemma nudupl_ok f : valid D f -> exists h, qfb_nudupl f D L = Ok h /\ composite f f h.
Proof.
  intros V. pose proof V as [HD Hn HA]. destruct f as [A b c]. cbn [fa fb fc] in *.
  unfold qfb_nudupl. cbn [fa fb fc].
  destruct (nudupl_gcd b A) as (s & v2 & t & -> & Es & Eg).
  assert (Hs : 0 < s).
  { rewrite Es. pose proof (Z.gcd_nonneg b A). enough (Z.gcd b A <> 0) by lia.
    intros E. apply Z.gcd_eq_0 in E. lia. }
  destruct (Z.gcd_divide_l b A) as [u Hu], (Z.gcd_divide_r b A) as [a1 Ha1]. rewrite <- Es in Hu, Ha1.
  assert (0 < a1) by nia.
  pose proof (nucomp_k A A b 0 c c ltac:(lia) A 0 s v2 t a1 a1 u) as K. cbv zeta in K.
  specialize (K ltac:(exists (-1); ring) Eg Hs ltac:(lia) ltac:(lia) ltac:(lia)).
  replace (0 * 0 * t - v2 * c) with (- (v2 * c)) in K by ring. apply solve_mod in K as [K1 K2]; [|easy].
  assert (Hfin : exists h, nudupl_finish a1 (s * c) ((- (v2 * c)) mod a1) b D L = Ok h /\
    composite (mkform A b c) (mkform A b c) h).
  { assert (EA : A = s * a1) by lia. assert (Eb : b = s * u) by lia. clear Hu Ha1. subst A b.
    destruct (nudupl_finish_ok D L s a1 a1 u 0 c c ((- (v2 * c)) mod a1)) as (h & Hh & C); auto; try lia.
    - now rewrite Z.add_0_r.
    - now rewrite Z.sub_0_r.
    - apply Z.mod_pos_bound; lia.
    - exists h. split; [easy|]. now rewrite Z.add_0_r, Z.sub_0_r in C. }
  destruct Hfin as (h & Hh & C). exists h. split; [|exact C]. cbv zeta.
  destruct (Z.eqb_spec s 1) as [->|Hs1]; cbn [negb].
  - rewrite tdiv_r_ok by lia. cbn [bind]. replace A with a1 by lia.
    rewrite (tdiv_fix _ a1) by easy. now rewrite Z.mul_1_l in Hh.
  - rewrite (fdiv_q_exact A s a1) by lia. cbn [bind]. rewrite tdiv_r_ok by lia. cbn [bind].
    rewrite (tdiv_fix _ a1) by easy. now rewrite (Z.mul_comm c).
Qed.
End Nucomp.

(** ** Properties *)

Section Classes.
Context `{GL : GmpLaws}.
Variables (D L : Z).
Hypothesis HL : 0 <= L.

(** A composite reduces to what [multiply] returns. *)
Lemma composite_reduce f g h : class D f -> class D g -> composite f g h ->
  class D h /\ reduce h = multiply f g.
Proof.
  intros Cf Cg C. assert (Ch : class D h) by now apply (composite_class D f g).
  split; [easy|]. destruct (reduce_ok D h (class_valid _ _ Ch)) as (r & -> & R & Q & _).
  symmetry. apply (multiply_composite_eq D); try easy. now rewrite <- Q.
Qed.

Lemma nucomp_class f g : class D f -> class D g ->
  exists h, nucomp_form f g D L = Ok h /\ composite f g h /\ class D h.
Proof.
  intros Cf Cg. destruct (nucomp_ok D L HL f g (class_valid _ _ Cf) (class_valid _ _ Cg)) as (h & E & C).
  exists h. repeat (split; [easy|]). now apply (composite_class D f g).
Qed.

Lemma nudupl_class f : class D f ->
  exists h, nudupl_form f D L = Ok h /\ composite f f h /\ class D h.
Proof.
  intros Cf. destruct (nudupl_ok D L HL f (class_valid _ _ Cf)) as (h & E & C).
  exists h. repeat (split; [easy|]). now apply (composite_class D f f).
Qed.
End Classes.

(** C12: on primitive forms of one negative discriminant and for
    every bound [L >= 0], NUCOMP ends without a trap or an overflow in
    [mpz_xgcd_partial], all its exact divisions are exact, and its result is a
    composite of the operands: reducing it gives what [multiply] gives. *)
Theorem nucomp_correct {G : Gmp} {GL : GmpLaws G} D L f g : 0 <= L -> class D f -> class D g ->
  exists h, nucomp_form f g D L = Ok h /\ composite f g h /\ class D h /\ reduce h = multiply f g.
Proof.
  intros HL Cf Cg. destruct (nucomp_class D L HL f g Cf Cg) as (h & E & C & _).
  exists h. repeat (split; [easy|]). now apply composite_reduce.
Qed.

Lemma class_71 : class (-71) (mkform 3 1 6) /\ class (-71) (mkform 4 (-3) 5).
Proof. repeat split. Qed.

Lemma nucomp_correct_witness : (0 <= 1 /\ class (-71) (mkform 3 1 6) /\ class (-71) (mkform 4 (-3) 5)) /\
  exists h, nucomp_form (G := Ref.gmp) (mkform 3 1 6) (mkform 4 (-3) 5) (-71) 1 = Ok h /\
    composite (mkform 3 1 6) (mkform 4 (-3) 5) h /\ class (-71) h /\
    reduce h = multiply (G := Ref.gmp) (mkform 3 1 6) (mkform 4 (-3) 5).
Proof.
  destruct class_71 as [C1 C2]. split; [split; [discriminate|split; [exact C1|exact C2]]|].
  apply (nucomp_correct (GL := Ref.laws) (-71) 1); [discriminate|exact C1|exact C2].
Defined.

(** C11: NUDUPL squares every primitive form, whatever the gcd of
    its first two coefficients (the plain [square] needs it to be 1) and
    whatever the bound [L >= 0]; reducing the result gives [multiply f f]. *)
Theorem nudupl_correct {G : Gmp} {GL : GmpLaws G} D L f : 0 <= L -> class D f ->
  exists h, nudupl_form f D L = Ok h /\ composite f f h /\ class D h /\ reduce h = multiply f f.
Proof.
  intros HL Cf. destruct (nudupl_class D L HL f Cf) as (h & E & C & _).
  exists h. repeat (split; [easy|]). now apply composite_reduce.
Qed.

Lemma nudupl_correct_witness : (0 <= 1 /\ class (-71) (mkform 4 (-3) 5)) /\
  exists h, nudupl_form (G := Ref.gmp) (mkform 4 (-3) 5) (-71) 1 = Ok h /\
    composite (mkform 4 (-3) 5) (mkform 4 (-3) 5) h /\ class (-71) h /\
    reduce h = multiply (G := Ref.gmp) (mkform 4 (-3) 5) (mkform 4 (-3) 5).
Proof.
  destruct class_71 as [_ C]. split; [split; [discriminate|exact C]|].
  apply (nudupl_correct (GL := Ref.laws) (-71) 1); [discriminate|exact C].
Defined.

(** Both branches, run: with [L = 1] the partial reduction is taken, with
    [L = 100] it is not. *)
Example nudupl_runs : let f := mkform 4 (-3) 5 in
  nudupl_form (G := Ref.gmp) f (-71) 1 <> nudupl_form (G := Ref.gmp) f (-71) 100 /\
  (h <- nudupl_form (G := Ref.gmp) f (-71) 1 ;; reduce h) =
  (h <- nudupl_form (G := Ref.gmp) f (-71) 100 ;; reduce h).
Proof. vm_compute. split; [discriminate|reflexivity]. Qed.
