(* ===== verification/Bqfc.v ===== *)
(** [src/src/bqfc.c] and [bqfc.h]: compression of binary quadratic forms and
    their fixed-size serialization. The integer return codes are kept ([0] for
    success, [-1] for an error), output buffers are byte lists that a failed
    call may leave partly written, and a write past the end of a buffer is
    undefined behaviour. *)
From S2P Require Import Prelude NumTheory Gmp QuadForm Integer XgcdPartial.

(** [struct qfb_c]. *)
Record qfb_c : Type := mkqfb { c_a : Z; c_t : Z; c_g : Z; c_b0 : Z; c_b_sign : bool }.

Definition BQFC_MAX_D_BITS : Z := 1024.
Definition BQFC_FORM_SIZE : Z := (BQFC_MAX_D_BITS + 31) / 32 * 3 + 4.

Definition BQFC_B_SIGN : Z := Z.shiftl 1 0.
Definition BQFC_T_SIGN : Z := Z.shiftl 1 1.
Definition BQFC_IS_1 : Z := Z.shiftl 1 2.
Definition BQFC_IS_GEN : Z := Z.shiftl 1 3.

(** [out[off .. off + length data) = data]. *)
Definition write_at (out : bytes) (off : Z) (data : bytes) : res bytes :=
  require (0 <=? off) && (off + Z.of_nat (length data) <=? Z.of_nat (length out))
    else undefined_behaviour ;;
  Ok (firstn (Z.to_nat off) out ++ data ++ skipn (Z.to_nat off + length data) out).

(** [memset (&out[off], 0, n)]; no buffer holds a wrapped-around size. *)
Definition memset_0 (out : bytes) (off n : Z) : res bytes :=
  require (0 <=? n) && (off + n <=? Z.of_nat (length out)) else undefined_behaviour ;;
  write_at out off (repeat 0 (Z.to_nat n)).

(** A read of [n] bytes at [off]. *)
Definition read_at (str : bytes) (off n : Z) : res bytes :=
  require (0 <=? off) && (0 <=? n) && (off + n <=? Z.of_nat (length str)) else undefined_behaviour ;;
  Ok (sub str (Z.to_nat off) (Z.to_nat n)).

Definition byte_at (str : bytes) (i : Z) : res Z :=
  require (0 <=? i) && (i <? Z.of_nat (length str)) else undefined_behaviour ;;
  Ok (nth (Z.to_nat i) str 0).

(** [(d_bits + 31) & ~31] *)
Definition round_d_bits (d_bits : Z) : Z := Z.land (d_bits + 31) (Z.lnot 31).

Section WithGmp.
Context `{G : Gmp}.

Definition bqfc_compr (a b : Z) : res qfb_c :=
if a =? b then Ok (mkqfb a 0 0 0 false)
else
  let sign := b <? 0 in
  let a_sqrt := mpz_sqrt a in
  let b_copy := if sign then - b else b in
  p <- mpz_xgcd_partial a b_copy a_sqrt ;;
  let t := - p_co1 p in
  let g := mpz_gcd a t in
  if g =? 1 then Ok (mkqfb a t g 0 sign)
  else
    require negb (g =? 0) else division_by_zero ;;
    let a' := mpz_divexact a g in
    let t' := mpz_divexact t g in
    require negb (a' =? 0) else division_by_zero ;;
    let b0 := Z.quot b a' in
    let b0 := if sign then - b0 else b0 in
    Ok (mkqfb a' t' g b0 sign).

(** [out_a] and [out_b], as they are before the call and after it. *)
Abbreviation outputs := (Z * Z)%type.

(** GMP traps on a division by zero. *)
Definition nonzero (d : Z) : res unit := require negb (d =? 0) else division_by_zero ;; Ok tt.

(** The return code and the outputs, which the last error leaves written. *)
Definition bqfc_decompr (out : outputs) (D : Z) (c : qfb_c) (strict : bool) : res (Z * outputs) :=
if c_t c =? 0 then Ok (0, (c_a c, c_a c))
else
  let t := if c_t c <? 0 then c_t c + c_a c else c_t c in
  if c_a c =? 0 then Ok (-1, out)
  else
    let '(tmp, t_inv, _) := mpz_gcdext t (c_a c) in
    if negb (tmp =? 1) then Ok (-1, out)
    else
      let t_inv := if t_inv <? 0 then t_inv + c_a c else t_inv in
      _ <- nonzero (c_a c) ;;
      let d := D mod c_a c in
      _ <- nonzero (c_a c) ;;
      let tmp := mpz_powm (c_t c) 2 (c_a c) in
      let tmp := tmp * d in
      _ <- nonzero (c_a c) ;;
      let tmp := Z.rem tmp (c_a c) in
      if negb (mpz_perfect_square_p tmp) then Ok (-1, out)
      else
        let tmp := mpz_sqrt tmp in
        let out_b := tmp * t_inv in
        _ <- nonzero (c_a c) ;;
        let out_b := Z.rem out_b (c_a c) in
        let out_a := if 1 <? c_g c then c_a c * c_g c else c_a c in
        let out_b := if 0 <? c_b0 c then out_b + c_a c * c_b0 c else out_b in
        let out_b := if c_b_sign c then - out_b else out_b in
        if strict && (Z.abs out_a <? Z.abs out_b) then Ok (-1, (out_a, out_b))
        else Ok (0, (out_a, out_b)).

(** The return code, the buffer and the new offset. *)
Definition bqfc_export (out_str : bytes) (offset size n : Z) : res (Z * bytes * Z) :=
let bits := mpz_sizeinbase2 n in
let needed_bytes := (bits + 7) / 8 in
if size <? needed_bytes then Ok (-1, out_str, offset)
else
  let data := mpz_export_lsb n in
  let bytes := Z.of_nat (length data) in
  out_str <- write_at out_str offset data ;;
  if size <? bytes then Ok (-1, out_str, offset)
  else
    out_str <- (if bytes <? size then memset_0 out_str (offset + bytes) (size - bytes) else Ok out_str) ;;
    Ok (0, out_str, offset + size).

Definition bqfc_serialize_only (out_str : bytes) (c : qfb_c) (d_bits : Z) : res (Z * bytes) :=
if (d_bits =? 0) || (BQFC_MAX_D_BITS <? d_bits) then Ok (-1, out_str)
else
  let d_bits := round_d_bits d_bits in
  if BQFC_MAX_D_BITS <? d_bits then Ok (-1, out_str)
  else
    let b_bit := Z.shiftl (if c_b_sign c then 1 else 0) 0 in
    let t_bit := Z.shiftl (if c_t c <? 0 then 1 else 0) 1 in
    out_str <- write_at out_str 0 [Z.lor b_bit t_bit] ;;
    let g_size := (mpz_sizeinbase2 (c_g c) + 7) / 8 - 1 in
    if 255 <? g_size then Ok (-1, out_str)
    else
      out_str <- write_at out_str 1 [u8 g_size] ;;
      ' (r, out_str, offset) <- bqfc_export out_str 2 (u64 (d_bits / 16 - g_size)) (c_a c) ;;
      if negb (r =? 0) then Ok (-1, out_str) else
      ' (r, out_str, offset) <- bqfc_export out_str offset (u64 (d_bits / 32 - g_size)) (c_t c) ;;
      if negb (r =? 0) then Ok (-1, out_str) else
      ' (r, out_str, offset) <- bqfc_export out_str offset (g_size + 1) (c_g c) ;;
      if negb (r =? 0) then Ok (-1, out_str) else
      ' (r, out_str, offset) <- bqfc_export out_str offset (g_size + 1) (c_b0 c) ;;
      if negb (r =? 0) then Ok (-1, out_str) else
      Ok (0, out_str).

(** [None] is the return value -1. *)
Definition bqfc_deserialize_only (str : bytes) (d_bits : Z) : res (option qfb_c) :=
if (d_bits =? 0) || (BQFC_MAX_D_BITS <? d_bits) then Ok None
else
  let d_bits := round_d_bits d_bits in
  if BQFC_MAX_D_BITS <? d_bits then Ok None
  else
    g_size <- byte_at str 1 ;;
    if d_bits / 32 <=? g_size then Ok None
    else
      let offset := 2 in
      let n := d_bits / 16 - g_size in
      a <- read_at str offset n ;;
      let offset := offset + n in
      let n := d_bits / 32 - g_size in
      t <- read_at str offset n ;;
      let offset := offset + n in
      let n := g_size + 1 in
      g <- read_at str offset n ;;
      let offset := offset + n in
      b0 <- read_at str offset n ;;
      flags <- byte_at str 0 ;;
      let b_sign := negb (Z.land flags BQFC_B_SIGN =? 0) in
      let t := mpz_import_lsb t in
      let t := if negb (Z.land flags BQFC_T_SIGN =? 0) then - t else t in
      Ok (Some (mkqfb (mpz_import_lsb a) t (mpz_import_lsb g) (mpz_import_lsb b0) b_sign)).

Definition bqfc_get_compr_size (d_bits : Z) : Z :=
if (d_bits =? 0) || (BQFC_MAX_D_BITS <? d_bits) then -1
else
  let size := (d_bits + 31) / 32 * 3 + 4 in
  if 2 ^ 31 - 1 <? size then -1 else size.

Definition bqfc_serialize (out_str : bytes) (a b d_bits : Z) : res (Z * bytes) :=
let valid_size := bqfc_get_compr_size d_bits in
if (valid_size <=? 0) || (BQFC_FORM_SIZE <? valid_size) then Ok (-1, out_str)
else if (b =? 1) && (a <=? 2) then
  out_str <- write_at out_str 0 [if a =? 2 then BQFC_IS_GEN else BQFC_IS_1] ;;
  out_str <- memset_0 out_str 1 (BQFC_FORM_SIZE - 1) ;;
  Ok (0, out_str)
else
  f_c <- bqfc_compr a b ;;
  ' (ret, out_str) <- bqfc_serialize_only out_str f_c d_bits ;;
  out_str <- (if negb (valid_size =? BQFC_FORM_SIZE)
              then memset_0 out_str valid_size (BQFC_FORM_SIZE - valid_size) else Ok out_str) ;;
  Ok (ret, out_str).

(** The sign of [memcmp]. *)
Fixpoint memcmp (x y : bytes) : Z :=
match x, y with
| a :: x, b :: y => if a =? b then memcmp x y else if a <? b then -1 else 1
| _, _ => 0
end.

(** [canon_str] starts with whatever the stack holds. *)
Definition bqfc_verify_canon (canon_str : bytes) (a b : Z) (str : bytes) (d_bits : Z) : res Z :=
' (ret, canon_str) <- bqfc_serialize canon_str a b d_bits ;;
if negb (ret =? 0) then Ok ret
else
  x <- read_at canon_str 0 BQFC_FORM_SIZE ;;
  y <- read_at str 0 BQFC_FORM_SIZE ;;
  Ok (memcmp x y).

(** The return code and [out_a], [out_b], which were [out] before. *)
Definition bqfc_deserialize (canon_str : bytes) (out : outputs) (D : Z) (str : bytes) (size d_bits : Z) (strict : bool)
: res (Z * outputs) :=
if (d_bits =? 0) || (BQFC_MAX_D_BITS <? d_bits) then Ok (-1, out)
else if negb (size =? BQFC_FORM_SIZE) then Ok (-1, out)
else
  flags <- byte_at str 0 ;;
  if negb (Z.land flags (Z.lor BQFC_IS_1 BQFC_IS_GEN) =? 0) then
    Ok (0, (if negb (Z.land flags BQFC_IS_GEN =? 0) then 2 else 1, 1))
  else
    c <- bqfc_deserialize_only str d_bits ;;
    match c with
    | None => Ok (-1, out)
    | Some f_c =>
        ' (ret, out) <- bqfc_decompr out D f_c strict ;;
        if negb (ret =? 0) then Ok (ret, out)
        else
          ret <- bqfc_verify_canon canon_str (fst out) (snd out) str d_bits ;;
          Ok (ret, out)
    end.

End WithGmp.

(** A form of discriminant -47 in and out of its 100 bytes. *)
Example bqfc_47 : let buf := repeat 0 100 in
  bqfc_serialize (G := Ref.gmp) buf 3 (-1) 32 = Ok (0, [1; 0; 3; 0; 1; 1; 0] ++ repeat 0 93) /\
  bqfc_deserialize (G := Ref.gmp) buf (0, 0) (-47) ([1; 0; 3; 0; 1; 1; 0] ++ repeat 0 93) 100 32 true = Ok (0, (3, -1)).
Proof. vm_compute. split; reflexivity. Qed.

(** ** Compression and decompression *)

Lemma pos_factor a x g : 0 < a -> 1 <= g -> a = x * g -> 1 <= x.
Proof. intros. nia. Qed.

Section Compression.
Context `{GL : GmpLaws}.

(** What [bqfc_compr] computes for [|b| <= a], [b <> a]: with [B = |b|],
    [a = a' g], and a small [rho = t' B (mod a')] with [t'] invertible. *)
Record compr_of (a b : Z) (c : qfb_c) (rho : Z) : Prop := {
  co_a : c_a c * c_g c = a;
  co_g : 1 <= c_g c;
  co_t0 : c_t c <> 0;
  co_t : Z.abs (c_t c) <= c_a c;
  co_gcd : Z.gcd (c_t c) (c_a c) = 1;
  co_rho0 : 0 <= rho;
  co_rho : rho * rho * c_g c <= c_a c;
  co_cong : (c_a c | rho - c_t c * Z.abs b);
  co_b0 : c_b0 c = if c_g c =? 1 then 0 else Z.abs b / c_a c;
  co_sign : c_b_sign c = (b <? 0);
  co_field : Z.abs (c_t c) * c_g c <= Z.sqrt a;
}.

Lemma tdiv_abs b d : 0 < d -> (if b <? 0 then - Z.quot b d else Z.quot b d) = Z.abs b / d.
Proof.
  intros Hd. destruct (Z.ltb_spec b 0).
  - rewrite <- Z.quot_opp_l, tdiv_fdiv by lia. f_equal. lia.
  - rewrite tdiv_fdiv by lia. f_equal. lia.
Qed.

(** The factors that the gcd of [a] and [t] leaves, [r1] being the remainder of the
    partial gcd. *)
Lemma compr_factor a b L t r2 r1 z : let g := Z.gcd a t in
  0 < a -> 1 <= L -> L * L <= a < (L + 1) * (L + 1) -> t <> 0 -> 0 <= r1 <= L -> 1 <= r2 -> Z.abs t * r2 <= a -> Z.abs t <= L ->
  r1 = z * a + t * Z.abs b -> exists a' t' rho, a = a' * g /\ t = t' * g /\ r1 = rho * g /\ 1 <= g /\ 1 <= a' /\ 0 <= rho /\
    Z.gcd t' a' = 1 /\ Z.abs t' <= a' /\ (a' | rho - t' * Z.abs b) /\ rho * rho * g <= a' /\ Z.abs t' * g <= L.
Proof.
  intros g Ha HL1 HL Ht0 Hr Hp Hta Hov Hz.
  assert (Hg : 1 <= g).
  { pose proof (Z.gcd_nonneg a t). enough (g <> 0) by lia. intros E. apply Z.gcd_eq_0 in E. lia. }
  destruct (Z.gcd_divide_l a t) as [a' Ea], (Z.gcd_divide_r a t) as [t' Et]. fold g in Ea, Et.
  pose proof (pos_factor a a' g Ha Hg Ea) as Ha'.
  assert (Hgr : (g | r1)) by (exists (z * a' + t' * Z.abs b); rewrite Hz, Ea at 1; rewrite Et at 1; ring).
  destruct Hgr as [rho Erho]. exists a', t', rho. do 5 (split; [assumption|]). split; [clear - Erho Hg Hr; nia|]. split; [|split; [|split; [|split]]].
  - pose proof (gcd_div_coprime t a g ltac:(lia) ltac:(unfold g; apply Z.gcd_comm)) as E. now rewrite Ea, Et, !Z.div_mul in E by lia.
  - apply (Z.mul_le_mono_pos_r _ _ g); [lia|]. rewrite <- (Z.abs_eq g) at 1 by lia.
    rewrite <- Z.abs_mul, <- Et, <- Ea. clear - Hta Hp Ht0. nia.
  - exists z. apply (Z.mul_reg_r _ _ g); [lia|].
    transitivity (rho * g - (t' * g) * Z.abs b); [ring|]. rewrite <- Erho, <- Et.
    transitivity (z * (a' * g)); [|ring]. rewrite <- Ea. lia.
  - apply (Z.mul_le_mono_pos_r _ _ g); [lia|]. rewrite <- Ea. transitivity (r1 * r1); [rewrite Erho; lia|]. clear - HL Hr. nia.
  - rewrite <- (Z.abs_eq g) at 1 by lia. rewrite <- Z.abs_mul, <- Et. exact Hov.
Qed.

Lemma compr_ok a b : 0 < a -> Z.abs b <= a -> b <> a -> exists c rho,
  bqfc_compr a b = Ok c /\ compr_of a b c rho.
Proof.
  intros Ha Hb Hab. unfold bqfc_compr. destruct (Z.eqb_spec a b); [lia|].
  assert (EB : (if b <? 0 then - b else b) = Z.abs b) by (destruct (Z.ltb_spec b 0); lia).
  rewrite EB, mpz_sqrt_spec by lia. set (L := Z.sqrt a).
  pose proof (Z.sqrt_spec a ltac:(lia)) as HL. fold L in HL. unfold Z.succ in HL.
  assert (HL1 : 1 <= L) by (pose proof (proj2 (Z.sqrt_pos a) Ha); fold L in H; lia).
  destruct (xgcd_partial_ok a (Z.abs b) L ltac:(lia) Ha ltac:(lia)) as ([co2 co1 r2 r1] & eps & -> & P & HrL & _ & Hov).
  cbn [bind p_co1 p_r1 p_r2] in *. rewrite mpz_gcd_spec.
  destruct P as [He Hdet Hs2 Hs1 Hr Hp [z Hz] _]. cbn [p_co2 p_co1 p_r2 p_r1] in *.
  set (t := - co1). set (g := Z.gcd a t).
  assert (Ht0 : t <> 0) by (unfold t; lia).
  assert (HtL : Z.abs t <= L) by (unfold t; destruct Hov as [-> | Hov]; [lia|clear - HL Hov HL1; nia]).
  assert (Hta : Z.abs t * r2 <= a) by (unfold t; destruct He as [-> | ->]; nia).
  destruct (compr_factor a b L t r2 r1 z) as (a' & t' & rho & Ea & Et & Erho & Hg & Ha' & Hrho0 & Hgcd & Hta' & Hcong & Hrho & Hsm); try assumption; try lia.
  fold g in Ea, Et, Erho, Hg, Hrho, Hsm.
  destruct (Z.eqb_spec g 1) as [Eg|Eg].
  - exists (mkqfb a t g 0 (b <? 0)), rho. split; [easy|].
    assert (a' = a) by lia. assert (t' = t) by lia. subst a' t'.
    split; cbn [c_a c_t c_g c_b0 c_b_sign]; auto; try lia.
    now destruct (Z.eqb_spec g 1).
  - destruct (Z.eqb_spec g 0); [lia|]. cbn [negb].
    rewrite !divexact_div by (lia || apply Z.gcd_divide_l || apply Z.gcd_divide_r).
    assert (Da : a / g = a') by (symmetry; apply Z.div_unique_exact; lia).
    assert (Dt : t / g = t') by (symmetry; apply Z.div_unique_exact; lia). rewrite Da, Dt.
    destruct (Z.eqb_spec a' 0); [lia|]. cbn [negb]. rewrite tdiv_abs by lia.
    exists (mkqfb a' t' g (Z.abs b / a') (b <? 0)), rho. split; [easy|].
    split; cbn [c_a c_t c_g c_b0 c_b_sign]; auto; try lia.
    now destruct (Z.eqb_spec g 1).
Qed.

(** The inverse of [t'] that [bqfc_decompr] computes. *)
Lemma decompr_inverse t a : 0 < a -> Z.gcd t a = 1 -> Z.abs t <= a ->
  exists t_inv y, (let t := if t <? 0 then t + a else t in mpz_gcdext t a) = (1, t_inv, y) /\
    let t_inv := if t_inv <? 0 then t_inv + a else t_inv in 0 <= t_inv /\ (a | t * t_inv - 1).
Proof.
  intros Ha Hg Hta. cbv zeta. set (t0 := if t <? 0 then t + a else t).
  assert (Ht0 : exists k, t0 = t + k * a) by (unfold t0; destruct (t <? 0); [exists 1|exists 0]; lia).
  destruct Ht0 as [k Ht0]. destruct (mpz_gcdext t0 a) as [[g v] y] eqn:E.
  pose proof (mpz_gcdext_bound _ _ _ _ _ E Ha) as Hv. apply mpz_gcdext_spec in E as [Eg E].
  rewrite Ht0, Z.gcd_comm, Z.gcd_add_mult_diag_r, Z.gcd_comm, Hg in Eg. subst g.
  exists v, y. split; [easy|].
  assert (H : exists j, (if v <? 0 then v + a else v) = v + j * a)
    by (destruct (v <? 0); [exists 1|exists 0]; lia).
  split; [destruct (Z.ltb_spec v 0); lia|]. destruct H as [j ->].
  exists (- y - k * v + t * j). rewrite Ht0 in E. lia.
Qed.

Lemma nonzero_ok d : d <> 0 -> nonzero d = Ok tt.
Proof. intros H. unfold nonzero. now destruct (Z.eqb_spec d 0). Qed.

Lemma decompr_ok out a b c rho D strict : 0 < a -> Z.abs b < a -> compr_of a b c rho ->
  (a | D - b * b) -> rho * rho < c_a c -> bqfc_decompr out D c strict = Ok (0, (a, b)).
Proof.
  intros Ha Hb [Ea Hg Ht0 Ht Hgcd Hr0 _ [x Hx] Hb0 Hs _] HD Hrho.
  assert (Hca : 0 < c_a c) by nia.
  unfold bqfc_decompr. destruct (Z.eqb_spec (c_t c) 0); [lia|]. destruct (Z.eqb_spec (c_a c) 0); [lia|].
  destruct (decompr_inverse (c_t c) (c_a c) Hca Hgcd Ht) as (v & y & E & Hv). cbv zeta in E |- *. rewrite E.
  cbn [negb Z.eqb]. change (1 =? 1) with true. cbn [negb].
  set (ti := if v <? 0 then v + c_a c else v) in *. destruct Hv as [Hti [k Hk]]. rewrite nonzero_ok by lia. cbn [bind].
  rewrite mpz_powm_spec, trem_mod by (try lia; apply Z.mul_nonneg_nonneg; apply Z.mod_pos_bound; lia).
  assert (Esq : (c_t c ^ 2 mod c_a c * (D mod c_a c)) mod c_a c = rho * rho).
  { rewrite <- Z.mul_mod by lia. rewrite <- (Z.mod_small (rho * rho) (c_a c)) by nia.
    apply cong_divide; [lia|]. destruct HD as [d Hd].
    exists (c_t c * c_t c * (d * c_g c) - x * (rho + c_t c * Z.abs b)).
    rewrite Z.pow_2_r.
    transitivity (c_t c * c_t c * (D - b * b) - (rho - c_t c * Z.abs b) * (rho + c_t c * Z.abs b)).
    - rewrite <- (Z.abs_square b). ring.
    - rewrite Hd, Hx, <- Ea. ring. }
  rewrite Esq. rewrite (proj2 (mpz_perfect_square_spec (rho * rho))) by now exists rho. cbn [negb].
  rewrite mpz_sqrt_spec, Z.sqrt_square, trem_mod by nia.
  assert (Eb : (rho * ti) mod c_a c = Z.abs b mod c_a c).
  { apply cong_divide; [lia|]. exists (x * ti + Z.abs b * k).
    transitivity ((rho - c_t c * Z.abs b) * ti + Z.abs b * (c_t c * ti - 1)); [ring|].
    rewrite Hx, Hk. ring. }
  rewrite Eb.
  assert (Ec : (if 0 <? c_b0 c then Z.abs b mod c_a c + c_a c * c_b0 c else Z.abs b mod c_a c) = Z.abs b).
  { rewrite Hb0. destruct (Z.eqb_spec (c_g c) 1) as [E1|E1].
    - cbn [Z.ltb]. change (0 <? 0) with false. cbn iota. apply Z.mod_small. nia.
    - pose proof (Z.div_mod (Z.abs b) (c_a c) ltac:(lia)).
      pose proof (Z.div_pos (Z.abs b) (c_a c) ltac:(lia) Hca).
      destruct (Z.ltb_spec 0 (Z.abs b / c_a c)); lia. }
  rewrite Ec, Hs.
  assert (Eo : (if 1 <? c_g c then c_a c * c_g c else c_a c) = a)
    by (destruct (Z.ltb_spec 1 (c_g c)); nia).
  rewrite Eo. assert (Ebb : (if b <? 0 then - Z.abs b else Z.abs b) = b) by (destruct (Z.ltb_spec b 0); lia).
  rewrite Ebb. destruct (Z.ltb_spec (Z.abs a) (Z.abs b)); [lia|]. now rewrite Bool.andb_false_r.
Qed.

(** The square root taken by [bqfc_decompr] is [rho] itself, unless the
    discriminant has a square factor. *)
Lemma rho_square a b c rho D q : 0 < a -> Z.abs b < a -> compr_of a b c rho ->
  D = b * b - 4 * a * q -> (forall m, 1 < m -> ~ (m * m | D)) -> rho * rho < c_a c.
Proof.
  intros Ha Hb [Ea Hg Ht0 Ht Hgcd Hr0 Hrho [x Hx] _ _ _] HD Hsq.
  assert (Hca : 0 < c_a c) by nia.
  destruct (Z.eq_dec (c_g c) 1) as [E1|E1]; [|clear - Hrho E1 Hg Hca Hr0; nia].
  rewrite E1, Z.mul_1_r in *. destruct (Z.eq_dec (rho * rho) (c_a c)) as [E|]; [|lia].
  exfalso. rewrite <- E in *. destruct (Z.le_gt_cases rho 1) as [H1|H1].
  - assert (rho = 1) as -> by nia. assert (b = 0) as -> by lia.
    apply (Hsq 2); [lia|]. exists (- (a * q)). lia.
  - apply (Hsq rho H1). assert (Hdv : (rho | b)).
    { apply Z.divide_abs_r. apply (Z.gauss _ (c_t c)).
      - exists (1 - x * rho). lia.
      - rewrite Z.gcd_comm.
        assert (Hd : (Z.gcd (c_t c) rho | 1)).
        { rewrite <- Hgcd. apply Z.gcd_greatest; [apply Z.gcd_divide_l|].
          apply Z.divide_mul_l, Z.gcd_divide_r. }
        apply Z.divide_1_r_nonneg in Hd; [exact Hd|apply Z.gcd_nonneg]. }
    destruct Hdv as [y Hy]. exists (y * y - 4 * q). rewrite HD, Hy, <- Ea. ring.
Qed.
End Compression.

(** ** The byte format *)

Lemma write_app pre rest data : (length data <= length rest)%nat ->
  write_at (pre ++ rest) (Z.of_nat (length pre)) data = Ok (pre ++ data ++ skipn (length data) rest).
Proof.
  intros H. unfold write_at. rewrite length_app.
  destruct (Z.leb_spec 0 (Z.of_nat (length pre))); [|lia].
  destruct (Z.leb_spec (Z.of_nat (length pre) + Z.of_nat (length data)) (Z.of_nat (length pre + length rest))); [|lia].
  cbn [andb]. rewrite Nat2Z.id. f_equal.
  rewrite firstn_app, Nat.sub_diag, firstn_O, app_nil_r, firstn_all2 by lia. f_equal. f_equal.
  rewrite skipn_app, skipn_all2, app_nil_l by lia. f_equal. lia.
Qed.

Lemma le_split_0 n : le_split n 0 = repeat 0 n.
Proof. induction n as [|n IH]; [easy|]. cbn [le_split repeat]. now rewrite Z.mod_0_l, Z.div_0_l, IH by lia. Qed.

Lemma le_split_app n m x : le_split (n + m) x = le_split n x ++ le_split m (x / 256 ^ Z.of_nat n).
Proof.
  revert x. induction n as [|n IH]; intros x; [cbn [Nat.add le_split app Z.of_nat Z.pow]; now rewrite Z.div_1_r|].
  cbn [Nat.add le_split app]. rewrite IH, pow256_S, Z.div_div by (try apply Z.pow_nonzero; lia). reflexivity.
Qed.

Lemma le_split_pad n m x : 0 <= x < 256 ^ Z.of_nat n -> le_split (n + m) x = le_split n x ++ repeat 0 m.
Proof. intros H. now rewrite le_split_app, Z.div_small, le_split_0. Qed.

Lemma Forall_range (xs : bytes) : bytes_ok xs -> Forall (fun x => 0 <= x < 256) xs.
Proof. easy. Qed.

Section Format.
Context `{GL : GmpLaws}.

(** Bytes the size check of [bqfc_export] asks for. *)
Definition needed (n : Z) : Z := (bitlen n + 7) / 8.

Lemma needed_bytelen n : 1 <= needed n /\ 0 <= bytelen n <= needed n.
Proof.
  unfold needed, bytelen. pose proof (bitlen_pos n).
  assert (1 <= (bitlen n + 7) / 8) by (apply Z.div_le_lower_bound; lia).
  destruct (n =? 0); lia.
Qed.

Lemma needed_lt n k : needed n <= k -> Z.abs n < 256 ^ k.
Proof.
  intros H. pose proof (needed_bytelen n). unfold needed in *.
  pose proof (Z.div_mod (bitlen n + 7) 8 ltac:(lia)). pose proof (Z.mod_pos_bound (bitlen n + 7) 8 ltac:(lia)).
  change 256 with (2 ^ 8). rewrite <- Z.pow_mul_r by lia. apply bitlen_lt_pow. lia.
Qed.

Lemma export_app pre rest size n : 0 <= size <= Z.of_nat (length rest) ->
  bqfc_export (pre ++ rest) (Z.of_nat (length pre)) size n =
    if size <? needed n then Ok (-1, pre ++ rest, Z.of_nat (length pre))
    else let pre' := pre ++ le_split (Z.to_nat size) (Z.abs n) in
         Ok (0, pre' ++ skipn (Z.to_nat size) rest, Z.of_nat (length pre')).
Proof.
  intros Hs. cbv zeta.
  replace (Z.of_nat (length (pre ++ _))) with (Z.of_nat (length pre) + size)
    by (rewrite length_app, le_split_length; lia). unfold bqfc_export. rewrite mpz_sizeinbase2_spec. fold (needed n).
  destruct (Z.ltb_spec size (needed n)); [easy|].
  destruct (needed_bytelen n) as [Hn1 Hn2]. rewrite mpz_export_lsb_spec.
  set (k := Z.to_nat (bytelen n)). assert (Hk : Z.of_nat k = bytelen n) by (unfold k; lia).
  rewrite write_app by (rewrite le_split_length; lia). cbn [bind]. rewrite le_split_length.
  destruct (Z.ltb_spec size (Z.of_nat k)); [lia|].
  assert (Hx : 0 <= Z.abs n < 256 ^ Z.of_nat k).
  { pose proof (bytelen_bound (Z.abs n) ltac:(lia)) as B.
    replace (bytelen (Z.abs n)) with (bytelen n) in B; [fold k in B; lia|].
    unfold bytelen, bitlen. rewrite Z.abs_idemp. destruct (Z.eqb_spec n 0), (Z.eqb_spec (Z.abs n) 0); lia. }
  replace (Z.to_nat size) with (k + (Z.to_nat size - k))%nat by lia.
  rewrite le_split_pad by easy. set (j := (Z.to_nat size - k)%nat).
  destruct (Z.ltb_spec (Z.of_nat k) size).
  - unfold memset_0. rewrite (app_assoc pre).
    replace (Z.of_nat (length pre) + Z.of_nat k) with (Z.of_nat (length (pre ++ le_split k (Z.abs n))))
      by (rewrite length_app, le_split_length; lia).
    destruct (Z.leb_spec 0 (size - Z.of_nat k)); [|lia]. cbn [andb].
    match goal with |- context [?u <=? ?v] => destruct (Z.leb_spec u v) as [_|Hbad] end.
    2:{ rewrite !length_app, length_skipn, le_split_length in Hbad. lia. }
    rewrite write_app by (rewrite repeat_length, length_skipn; lia). cbn [bind].
    rewrite repeat_length, skipn_skipn. replace (Z.to_nat (size - Z.of_nat k)) with j by (unfold j; lia).
    rewrite <- !app_assoc. do 6 f_equal. unfold j. f_equal; lia.
  - cbn [bind]. replace j with 0%nat by (unfold j; lia). cbn [repeat]. rewrite app_nil_r, Nat.add_0_r, <- app_assoc. easy.
Qed.
End Format.

(** ** Serialization of the structure *)

Section Serialize.
Context `{GL : GmpLaws}.

Lemma round_32 d : 0 < d <= 1024 -> exists w, round_d_bits d = 32 * w /\ 1 <= w <= 32 /\
  d <= 32 * w < d + 32 /\ (d + 31) / 32 = w.
Proof.
  intros Hd. exists ((d + 31) / 32).
  pose proof (Z.div_mod (d + 31) 32 ltac:(lia)). pose proof (Z.mod_pos_bound (d + 31) 32 ltac:(lia)).
  split; [|lia]. unfold round_d_bits. change 31 with (Z.ones 5) at 2.
  rewrite <- Z.ldiff_land, Z.ldiff_ones_r, Z.shiftl_mul_pow2, Z.shiftr_div_pow2 by lia.
  change (2 ^ 5) with 32. lia.
Qed.

(** The flag byte and what the reader finds in it. *)
Definition flag_byte (c : qfb_c) : Z :=
  Z.lor (Z.shiftl (if c_b_sign c then 1 else 0) 0) (Z.shiftl (if c_t c <? 0 then 1 else 0) 1).

Lemma flag_byte_bits c :
  negb (Z.land (flag_byte c) BQFC_B_SIGN =? 0) = c_b_sign c /\
  negb (Z.land (flag_byte c) BQFC_T_SIGN =? 0) = (c_t c <? 0) /\
  negb (Z.land (flag_byte c) (Z.lor BQFC_IS_1 BQFC_IS_GEN) =? 0) = false /\ is_byte (flag_byte c).
Proof. unfold flag_byte, is_byte. destruct (c_b_sign c), (c_t c <? 0); cbn; lia. Qed.

Definition g_size (c : qfb_c) : Z := needed (c_g c) - 1.

Lemma g_size_nonneg c : 0 <= g_size c.
Proof. unfold g_size. pose proof (needed_bytelen (c_g c)). lia. Qed.

(** The [3 w + 4] bytes of a structure when the discriminant has [32 w] bits. *)
Definition packed (w : Z) (c : qfb_c) : bytes :=
  [flag_byte c; g_size c] ++ le_split (Z.to_nat (2 * w - g_size c)) (Z.abs (c_a c))
    ++ le_split (Z.to_nat (w - g_size c)) (Z.abs (c_t c))
    ++ le_split (Z.to_nat (g_size c + 1)) (Z.abs (c_g c))
    ++ le_split (Z.to_nat (g_size c + 1)) (Z.abs (c_b0 c)).

(** When the parts fit in their fields. *)
Definition fits (w : Z) (c : qfb_c) : Prop :=
  needed (c_a c) <= 2 * w - g_size c /\ needed (c_t c) <= w - g_size c /\
  needed (c_b0 c) <= g_size c + 1.

Lemma packed_length w c : 0 <= g_size c <= w -> length (packed w c) = Z.to_nat (3 * w + 4).
Proof. intros H. unfold packed. rewrite !length_app, !le_split_length. cbn [length]. lia. Qed.

(** The writer reports success exactly when the parts fit, and has then
    written exactly the packed bytes. *)
Lemma serialize_only_ok out c d : length out = 100%nat -> 0 < d <= 1024 ->
  let w := (d + 31) / 32 in g_size c <= w ->
  exists r out', bqfc_serialize_only out c d = Ok (r, out') /\ length out' = 100%nat /\
    ((r = 0 /\ fits w c /\ out' = packed w c ++ skipn (Z.to_nat (3 * w + 4)) out) \/
     (r = -1 /\ ~ fits w c)).
Proof.
  intros Hout Hd w Hg. pose proof (g_size_nonneg c) as Hg0.
  destruct (round_32 d Hd) as (w' & Er & Hw & Hdw & Ew). fold w in Ew. subst w'.
  unfold bqfc_serialize_only, BQFC_MAX_D_BITS. rewrite Er.
  destruct (Z.eqb_spec d 0); [lia|]. destruct (Z.ltb_spec 1024 d); [lia|]. cbn [orb].
  destruct (Z.ltb_spec 1024 (32 * w)); [lia|].
  destruct out as [|x0 [|x1 out]]; [discriminate|discriminate|]. cbn [length] in Hout.
  rewrite mpz_sizeinbase2_spec. fold (needed (c_g c)). fold (g_size c). fold (flag_byte c).
  pose proof (write_app [] (x0 :: x1 :: out) [flag_byte c] ltac:(cbn; lia)) as E. cbn [length app Z.of_nat skipn] in E.
  rewrite E. cbn [bind]. clear E. destruct (Z.ltb_spec 255 (g_size c)); [lia|].
  pose proof (write_app [flag_byte c] (x1 :: out) [u8 (g_size c)] ltac:(cbn; lia)) as E.
  cbn [length app skipn] in E. change (Z.of_nat 1) with 1 in E. rewrite E. cbn [bind]. clear E.
  rewrite (uwrap_id 8 (g_size c)) by (unfold urange; change (2 ^ 8) with 256; lia).
  replace (32 * w / 16) with (2 * w) by (apply Z.div_unique_exact; lia).
  replace (32 * w / 32) with w by (apply Z.div_unique_exact; lia).
  rewrite !u64_id by lia.
  (* the four fields *)
  change (flag_byte c :: g_size c :: out) with ([flag_byte c; g_size c] ++ out).
  change 2 with (Z.of_nat (length [flag_byte c; g_size c])) at 1.
  rewrite export_app by lia. destruct (Z.ltb_spec (2 * w - g_size c) (needed (c_a c))) as [F|F1]; cbn [bind].
  { eexists _, _. split; [reflexivity|]. split; [cbn [length app]; lia|]. right. unfold fits. split; [easy|lia]. }
  change (0 =? 0) with true. cbn [negb].
  rewrite export_app by (rewrite length_skipn; lia).
  destruct (Z.ltb_spec (w - g_size c) (needed (c_t c))) as [F|F2]; cbn [bind].
  { eexists _, _. split; [reflexivity|]. split; [solve_len|]. right. unfold fits. split; [easy|lia]. }
  change (0 =? 0) with true. cbn [negb].
  rewrite export_app by (rewrite !length_skipn; lia).
  destruct (Z.ltb_spec (g_size c + 1) (needed (c_g c))) as [F|F3]; cbn [bind].
  { exfalso. unfold g_size in F. lia. }
  change (0 =? 0) with true. cbn [negb].
  rewrite export_app by (rewrite !length_skipn; lia).
  destruct (Z.ltb_spec (g_size c + 1) (needed (c_b0 c))) as [F|F4]; cbn [bind].
  { eexists _, _. split; [reflexivity|]. split; [solve_len|]. right. unfold fits. split; [easy|lia]. }
  change (0 =? 0) with true. cbn [negb].
  eexists _, _. split; [reflexivity|]. split; [solve_len|]. left. split; [easy|]. split; [unfold fits; lia|].
  unfold packed. rewrite !skipn_skipn, <- !app_assoc. do 5 f_equal.
  replace (Z.to_nat (3 * w + 4)) with (S (S (Z.to_nat (3 * w + 2)))) by lia. cbn [skipn]. f_equal. lia.
Qed.

Lemma read_app (pre data post : bytes) off n : off = Z.of_nat (length pre) -> n = Z.of_nat (length data) ->
  read_at (pre ++ data ++ post) off n = Ok data.
Proof.
  intros -> ->. unfold read_at. rewrite !length_app.
  destruct (Z.leb_spec 0 (Z.of_nat (length pre))); [|lia].
  destruct (Z.leb_spec 0 (Z.of_nat (length data))); [|lia].
  match goal with |- context [?u <=? ?v] => destruct (Z.leb_spec u v); [|lia] end. cbn [andb].
  rewrite !Nat2Z.id. f_equal. rewrite sub_app_r, Nat.sub_diag by lia.
  unfold sub. cbn [skipn]. now rewrite firstn_app, Nat.sub_diag, firstn_O, app_nil_r, firstn_all.
Qed.

Lemma byte_at_0 x l : byte_at (x :: l) 0 = Ok x.
Proof. unfold byte_at. cbn [length]. now destruct (Z.ltb_spec 0 (Z.of_nat (S (length l)))); [|lia]. Qed.

Lemma byte_at_1 x y l : byte_at (x :: y :: l) 1 = Ok y.
Proof. unfold byte_at. cbn [length]. now destruct (Z.ltb_spec 1 (Z.of_nat (S (S (length l))))); [|lia]. Qed.

Lemma import_split n x : 0 <= x < 256 ^ Z.of_nat n -> mpz_import_lsb (le_split n x) = x.
Proof. intros H. rewrite mpz_import_lsb_spec. now apply le_combine_split. Qed.

(** Reading back what was written. *)
Lemma deserialize_only_ok c d rest : 0 < d <= 1024 ->
  let w := (d + 31) / 32 in fits w c -> 0 <= c_a c -> 0 <= c_g c -> 0 <= c_b0 c ->
  bqfc_deserialize_only (packed w c ++ rest) d = Ok (Some c).
Proof.
  intros Hd w (F1 & F2 & F4) Ha Hg Hb. pose proof (g_size_nonneg c) as Hg0.
  pose proof (needed_bytelen (c_t c)) as Hnt.
  destruct (round_32 d Hd) as (w' & Er & Hw & Hdw & Ew). fold w in Ew. subst w'.
  unfold bqfc_deserialize_only, BQFC_MAX_D_BITS. rewrite Er.
  destruct (Z.eqb_spec d 0); [lia|]. destruct (Z.ltb_spec 1024 d); [lia|]. cbn [orb].
  destruct (Z.ltb_spec 1024 (32 * w)); [lia|].
  replace (32 * w / 16) with (2 * w) by (apply Z.div_unique_exact; lia).
  replace (32 * w / 32) with w by (apply Z.div_unique_exact; lia).
  unfold packed. set (fa_ := le_split (Z.to_nat (2 * w - g_size c)) (Z.abs (c_a c))).
  set (ft := le_split (Z.to_nat (w - g_size c)) (Z.abs (c_t c))).
  set (fg := le_split (Z.to_nat (g_size c + 1)) (Z.abs (c_g c))).
  set (fb0 := le_split (Z.to_nat (g_size c + 1)) (Z.abs (c_b0 c))). rewrite <- !app_assoc.
  assert (La : length fa_ = Z.to_nat (2 * w - g_size c)) by apply le_split_length.
  assert (Lt : length ft = Z.to_nat (w - g_size c)) by apply le_split_length.
  assert (Lg : length fg = Z.to_nat (g_size c + 1)) by apply le_split_length.
  assert (Lb : length fb0 = Z.to_nat (g_size c + 1)) by apply le_split_length.
  set (h := [flag_byte c; g_size c]). set (s := h ++ _).
  assert (B1 : byte_at s 1 = Ok (g_size c)) by apply byte_at_1.
  assert (B0 : byte_at s 0 = Ok (flag_byte c)) by apply byte_at_0.
  rewrite B1, B0. cbn [bind]. destruct (Z.leb_spec w (g_size c)); [lia|].
  unfold s. rewrite (read_app h fa_) by (cbn [length h]; lia). cbn [bind].
  rewrite (app_assoc h), (read_app (h ++ fa_) ft) by (rewrite ?length_app; cbn [length h]; lia). cbn [bind].
  rewrite (app_assoc (h ++ fa_)), (read_app ((h ++ fa_) ++ ft) fg)
    by (rewrite ?length_app; cbn [length h]; lia). cbn [bind].
  rewrite (app_assoc ((h ++ fa_) ++ ft)), (read_app (((h ++ fa_) ++ ft) ++ fg) fb0)
    by (rewrite ?length_app; cbn [length h]; lia). cbn [bind].
  destruct (flag_byte_bits c) as (E1 & E2 & _). rewrite E1, E2. unfold fa_, ft, fg, fb0.
  pose proof (needed_lt (c_a c) (2 * w - g_size c) F1). pose proof (needed_lt (c_t c) (w - g_size c) F2).
  pose proof (needed_lt (c_g c) (g_size c + 1) ltac:(unfold g_size; lia)).
  pose proof (needed_lt (c_b0 c) (g_size c + 1) F4).
  rewrite !import_split by (rewrite Z2Nat.id by lia; lia).
  f_equal. f_equal. destruct c as [ca ct cg cb0 cs]. cbn [c_a c_t c_g c_b0 c_b_sign] in *.
  f_equal; try lia. destruct (Z.ltb_spec ct 0); lia.
Qed.
End Serialize.

(** ** Serialization of forms *)

Section Serialization.
Context `{GL : GmpLaws}.

(** The identity and the generator, which take one flag. *)
Definition special (a b : Z) : bool := (b =? 1) && (a <=? 2).

Definition special_bytes (a : Z) : bytes := (if a =? 2 then BQFC_IS_GEN else BQFC_IS_1) :: repeat 0 99.

Lemma compr_size_ok d : 0 < d <= 1024 -> bqfc_get_compr_size d = 3 * ((d + 31) / 32) + 4 /\
  1 <= (d + 31) / 32 <= 32.
Proof.
  intros Hd. destruct (round_32 d Hd) as (w & _ & Hw & _ & Ew). unfold bqfc_get_compr_size, BQFC_MAX_D_BITS.
  destruct (Z.eqb_spec d 0); [lia|]. destruct (Z.ltb_spec 1024 d); [lia|]. cbn [orb]. rewrite Ew.
  destruct (Z.ltb_spec (2 ^ 31 - 1) (w * 3 + 4)); [lia|]. lia.
Qed.

Lemma serialize_special out a b d : length out = 100%nat -> 0 < d <= 1024 -> special a b = true ->
  bqfc_serialize out a b d = Ok (0, special_bytes a).
Proof.
  intros Hout Hd Hs. destruct (compr_size_ok d Hd) as [Ec Hw]. unfold bqfc_serialize. rewrite Ec.
  change BQFC_FORM_SIZE with 100. unfold special in Hs. rewrite Hs.
  destruct (Z.leb_spec (3 * ((d + 31) / 32) + 4) 0); [lia|].
  destruct (Z.ltb_spec 100 (3 * ((d + 31) / 32) + 4)); [lia|]. cbn [orb].
  destruct out as [|x out]; [discriminate|]. cbn [length] in Hout. set (fl := if a =? 2 then _ else _).
  pose proof (write_app [] (x :: out) [fl] ltac:(cbn; lia)) as E. cbn [length app Z.of_nat skipn] in E.
  rewrite E. clear E. cbn [bind].
  unfold memset_0. change (100 - 1) with 99. cbn [length].
  destruct (Z.leb_spec (1 + 99) (Z.of_nat (S (length out)))); [|lia]. change (0 <=? 99) with true. cbn [andb].
  pose proof (write_app [fl] out (repeat 0 (Z.to_nat 99))) as E. cbn [length app] in E.
  change (Z.of_nat 1) with 1 in E. rewrite E by (rewrite repeat_length; lia). cbn [bind].
  rewrite repeat_length, skipn_all2 by lia. now rewrite app_nil_r.
Qed.

Definition form_bytes (w : Z) (c : qfb_c) : bytes := packed w c ++ repeat 0 (Z.to_nat (96 - 3 * w)).

Lemma serialize_form out a b d c : length out = 100%nat -> 0 < d <= 1024 -> special a b = false ->
  bqfc_compr a b = Ok c -> let w := (d + 31) / 32 in g_size c <= w ->
  exists r s, bqfc_serialize out a b d = Ok (r, s) /\ length s = 100%nat /\
    ((r = 0 /\ fits w c /\ s = form_bytes w c) \/ (r = -1 /\ ~ fits w c)).
Proof.
  intros Hout Hd Hs Hc w Hg. destruct (compr_size_ok d Hd) as [Ec Hw]. fold w in Ec, Hw.
  unfold bqfc_serialize. rewrite Ec. change BQFC_FORM_SIZE with 100. unfold special in Hs. rewrite Hs, Hc.
  destruct (Z.leb_spec (3 * w + 4) 0); [lia|]. destruct (Z.ltb_spec 100 (3 * w + 4)); [lia|]. cbn [orb bind].
  destruct (serialize_only_ok out c d Hout Hd Hg) as (r & s & -> & Ls & Hr). cbn [bind]. fold w in Hr.
  pose proof (g_size_nonneg c) as Hg0. pose proof (packed_length w c ltac:(lia)) as Lp.
  destruct (Z.eqb_spec (3 * w + 4) 100) as [E|E]; cbn [negb bind].
  - exists r, s. split; [easy|]. split; [easy|]. destruct Hr as [(-> & F & ->)|]; [left|now right].
    split; [easy|]. split; [easy|]. unfold form_bytes. f_equal.
    replace (Z.to_nat (96 - 3 * w)) with 0%nat by lia. apply skipn_all2. lia.
  - set (n := Z.to_nat (3 * w + 4)) in *.
    assert (Es : s = firstn n s ++ skipn n s) by now rewrite firstn_skipn.
    assert (Ln : length (firstn n s) = n) by (rewrite length_firstn; lia).
    rewrite Es. unfold memset_0.
    match goal with |- context [?u <=? ?v] => destruct (Z.leb_spec u v); [|lia] end. cbn [andb].
    match goal with |- context [?u <=? ?v] => destruct (Z.leb_spec u v) as [_|Hbad] end;
      [|rewrite length_app, length_firstn, length_skipn in Hbad; lia].
    replace (3 * w + 4) with (Z.of_nat (length (firstn n s))) by lia.
    rewrite write_app by (rewrite repeat_length, length_skipn; lia). cbn [bind].
    rewrite repeat_length, skipn_skipn, skipn_all2, app_nil_r by lia.
    replace (100 - Z.of_nat (length (firstn n s))) with (96 - 3 * w) by lia.
    eexists r, _. split; [reflexivity|]. split; [rewrite length_app, repeat_length; lia|].
    destruct Hr as [(-> & F & Hs')|]; [left|now right]. split; [easy|]. split; [easy|].
    unfold form_bytes. f_equal. rewrite Hs', firstn_app, firstn_all2, <- Lp, Nat.sub_diag, firstn_O by lia.
    apply app_nil_r.
Qed.

(** The size of the gcd field, for a first coefficient of at most
    [16 w + 8 k] bits. *)
Lemma g_size_bound a b c rho w : 1 <= w -> 0 < a < 2 ^ (16 * w + 8) -> compr_of a b c rho -> g_size c <= w.
Proof.
  intros Hw Ha [_ Hg Ht0 _ _ _ _ _ _ _ Hsm].
  assert (HL : Z.sqrt a < 2 ^ (8 * w + 4)).
  { apply Z.sqrt_lt_square; [lia|apply Z.pow_nonneg; lia|]. rewrite <- Z.pow_add_r by lia.
    replace (8 * w + 4 + (8 * w + 4)) with (16 * w + 8) by lia. lia. }
  assert (Hgb : c_g c < 2 ^ (8 * w + 8)).
  { replace (8 * w + 8) with ((8 * w + 4) + 4) by lia. rewrite Z.pow_add_r by lia. change (2 ^ 4) with 16.
    assert (2 ^ 4 <= 2 ^ (8 * w + 4)) by (apply Z.pow_le_mono_r; lia). nia. }
  unfold g_size, needed. assert (Hbl : bitlen (c_g c) <= 8 * w + 8) by (apply bitlen_le; lia).
  enough ((bitlen (c_g c) + 7) / 8 < w + 2) by lia. apply Z.div_lt_upper_bound; lia.
Qed.
End Serialization.

Section RoundTrip.
Context `{GL : GmpLaws}.

Lemma read_all (s : bytes) n : Z.of_nat (length s) = n -> read_at s 0 n = Ok s.
Proof.
  intros H. pose proof (read_app [] s [] 0 n eq_refl ltac:(lia)) as E.
  cbn [app] in E. now rewrite app_nil_r in E.
Qed.

(** Serialization is defined on every pair [|b| <= a], and what it writes on
    success does not depend on the buffer's contents. *)
Lemma serialize_total a b d : 0 < d <= 1024 -> let w := (d + 31) / 32 in
  0 <= a < 2 ^ (16 * w + 8) -> Z.abs b <= a -> exists r s0,
    (r = 0 \/ r = -1) /\ forall out, length out = 100%nat ->
      exists s, bqfc_serialize out a b d = Ok (r, s) /\ length s = 100%nat /\ (r = 0 -> s = s0).
Proof.
  intros Hd w Ha Hb. destruct (compr_size_ok d Hd) as [_ Hw]. fold w in Hw.
  destruct (special a b) eqn:Es.
  { exists 0, (special_bytes a). split; [now left|]. intros out Hout. exists (special_bytes a).
    now rewrite (serialize_special out a b d Hout Hd Es). }
  assert (Hc : exists c, bqfc_compr a b = Ok c /\ g_size c <= w).
  { destruct (Z.eq_dec b a) as [->|Hab].
    - exists (mkqfb a 0 0 0 false). unfold bqfc_compr. rewrite Z.eqb_refl. split; [easy|].
      change (g_size _) with 0. lia.
    - destruct (compr_ok a b ltac:(lia) Hb Hab) as (c & rho & E & C). exists c. split; [easy|].
      apply (g_size_bound a b c rho); [lia|lia|easy]. }
  destruct Hc as (c & Ec & Hg).
  destruct (serialize_form (repeat 0 100) a b d c eq_refl Hd Es Ec Hg) as (r & s & E & Ls & Hr).
  exists r, (form_bytes w c). split; [destruct Hr; lia|]. intros out Hout.
  destruct (serialize_form out a b d c Hout Hd Es Ec Hg) as (r' & s' & E' & Ls' & Hr').
  fold w in Hr, Hr'. assert (r' = r) as -> by (destruct Hr as [(-> & F & _)|[-> F]], Hr' as [(-> & F' & _)|[-> F']]; tauto).
  exists s'. split; [easy|]. split; [easy|]. intros ->. destruct Hr' as [(_ & _ & ->)|[H _]]; [easy|lia].
Qed.

Lemma memcmp_eq x : forall y, length x = length y -> memcmp x y = 0 <-> x = y.
Proof.
  induction x as [|a x IH]; intros [|b y] Hl; try discriminate; [easy|]. cbn [memcmp]. destruct (Z.eqb_spec a b) as [<-|Hn].
  - rewrite IH by (cbn [length] in Hl; lia). split; [now intros ->|now intros [= ->]].
  - split; [destruct (a <? b); discriminate|congruence].
Qed.

(** Verification succeeds exactly on the canonical bytes. *)
Lemma verify_canon_ok canon a b s d : length canon = 100%nat -> length s = 100%nat -> 0 < d <= 1024 ->
  let w := (d + 31) / 32 in 0 <= a < 2 ^ (16 * w + 8) -> Z.abs b <= a ->
  exists v, bqfc_verify_canon canon a b s d = Ok v /\
    (v = 0 <-> bqfc_serialize canon a b d = Ok (0, s)).
Proof.
  intros Hc Hs Hd w Ha Hb. destruct (serialize_total a b d Hd Ha Hb) as (r & s0 & Hr & H).
  destruct (H canon Hc) as (s' & E & Ls & Es). unfold bqfc_verify_canon. rewrite E. cbn [bind].
  destruct (Z.eqb_spec r 0) as [->|Hr0]; cbn [negb].
  - change BQFC_FORM_SIZE with 100. rewrite !read_all by lia. cbn [bind].
    eexists. split; [reflexivity|]. rewrite memcmp_eq by lia. split; [now intros ->|now intros [= ->]].
  - exists r. split; [easy|]. split; [easy|]. intros [= ? _]. easy.
Qed.

Lemma form_bytes_flags w c rest : byte_at (packed w c ++ rest) 0 = Ok (flag_byte c).
Proof. apply byte_at_0. Qed.

Lemma reduced_size D f d : valid D f -> reduced f -> 0 < d <= 1024 -> - D < 2 ^ d ->
  0 <= fa f < 2 ^ (16 * ((d + 31) / 32) + 8).
Proof.
  intros V R Hd HD. pose proof (reduced_bound D f V R) as Hb. destruct V as [_ Hn Ha]. split; [lia|].
  destruct (compr_size_ok d Hd) as [_ Hw]. destruct (round_32 d Hd) as (w & _ & _ & Hdw & ->).
  apply Z.nle_gt. intros Hle.
  assert (H2 : 2 ^ (16 * w + 8) * 2 ^ (16 * w + 8) <= fa f * fa f).
  { assert (0 < 2 ^ (16 * w + 8)) by (apply Z.pow_pos_nonneg; lia). nia. }
  rewrite <- Z.pow_add_r in H2 by lia.
  assert (2 ^ d <= 2 ^ (16 * w + 8 + (16 * w + 8))) by (apply Z.pow_le_mono_r; lia). lia.
Qed.

Lemma reduced_abs f : reduced f -> Z.abs (fb f) <= fa f.
Proof. intros [H _]. lia. Qed.

Lemma deserialize_canonical canon out D s a b d strict c :
  length canon = 100%nat -> length s = 100%nat -> 0 < d <= 1024 ->
  let w := (d + 31) / 32 in 0 <= a < 2 ^ (16 * w + 8) -> Z.abs b <= a ->
  s = form_bytes w c -> bqfc_serialize canon a b d = Ok (0, s) ->
  bqfc_deserialize_only s d = Ok (Some c) -> bqfc_decompr out D c strict = Ok (0, (a, b)) ->
  bqfc_deserialize canon out D s 100 d strict = Ok (0, (a, b)).
Proof.
  intros Hc Hs Hd w Ha Hb Es Eser Edes Edec. unfold bqfc_deserialize, BQFC_MAX_D_BITS.
  destruct (Z.eqb_spec d 0); [lia|]. destruct (Z.ltb_spec 1024 d); [lia|]. cbn [orb].
  change (100 =? BQFC_FORM_SIZE) with true. cbn [negb].
  assert (Ef : byte_at s 0 = Ok (flag_byte c)) by (rewrite Es; apply form_bytes_flags).
  rewrite Ef. cbn [bind].
  destruct (flag_byte_bits c) as (_ & _ & -> & _). rewrite Edes. cbn [bind]. rewrite Edec. cbn [bind fst snd]. change (0 =? 0) with true. cbn [negb].
  destruct (verify_canon_ok canon a b s d Hc Hs Hd Ha Hb) as (v & -> & Hv). cbn [bind].
  now rewrite (proj2 Hv Eser).
Qed.

Lemma byte_at_ok str i : 0 <= i < Z.of_nat (length str) -> byte_at str i = Ok (nth (Z.to_nat i) str 0).
Proof.
  intros H. unfold byte_at. destruct (Z.leb_spec 0 i); [|lia].
  now destruct (Z.ltb_spec i (Z.of_nat (length str))); [|lia].
Qed.

Lemma read_at_ok str off n : 0 <= off -> 0 <= n -> off + n <= Z.of_nat (length str) ->
  read_at str off n = Ok (sub str (Z.to_nat off) (Z.to_nat n)).
Proof.
  intros Ho Hn H. unfold read_at. destruct (Z.leb_spec 0 off); [|lia]. destruct (Z.leb_spec 0 n); [|lia].
  now destruct (Z.leb_spec (off + n) (Z.of_nat (length str))); [|lia].
Qed.

Lemma import_sub_range str off n : bytes_ok str -> 0 <= n -> 0 <= off -> off + n <= Z.of_nat (length str) ->
  0 <= mpz_import_lsb (sub str (Z.to_nat off) (Z.to_nat n)) < 2 ^ (8 * n).
Proof.
  intros Hb Hn Ho H. rewrite mpz_import_lsb_spec.
  pose proof (le_combine_range (sub str (Z.to_nat off) (Z.to_nat n)) ltac:(auto with vdf)) as R.
  rewrite sub_length in R by lia. rewrite Z2Nat.id in R by lia.
  rewrite Z.pow_mul_r by lia. exact R.
Qed.

(** Reading the fields of an arbitrary 100-byte string. *)
Lemma deserialize_only_any str d : length str = 100%nat -> bytes_ok str -> 0 < d <= 1024 ->
  let w := (d + 31) / 32 in
  bqfc_deserialize_only str d = Ok None \/
  exists c gs, bqfc_deserialize_only str d = Ok (Some c) /\ 0 <= gs < w /\
    0 <= c_a c < 2 ^ (8 * (2 * w - gs)) /\ 0 <= c_g c < 2 ^ (8 * (gs + 1)).
Proof.
  intros Hl Hb Hd w. destruct (round_32 d Hd) as (w' & Er & Hw & Hdw & Ew). fold w in Ew. subst w'.
  unfold bqfc_deserialize_only, BQFC_MAX_D_BITS. rewrite Er.
  destruct (Z.eqb_spec d 0); [lia|]. destruct (Z.ltb_spec 1024 d); [lia|]. cbn [orb].
  destruct (Z.ltb_spec 1024 (32 * w)); [lia|].
  replace (32 * w / 16) with (2 * w) by (apply Z.div_unique_exact; lia).
  replace (32 * w / 32) with w by (apply Z.div_unique_exact; lia).
  rewrite !byte_at_ok by lia. cbn [bind]. set (gs := nth (Z.to_nat 1) str 0).
  assert (Hgs : 0 <= gs < 256).
  { pose proof (proj1 (Forall_forall is_byte str) Hb gs) as H1. apply H1. apply nth_In. rewrite Hl. cbn. lia. }
  destruct (Z.leb_spec w gs); [now left|]. right.
  rewrite !read_at_ok by lia. cbn [bind].
  eexists _, gs. split; [reflexivity|]. split; [lia|]. cbn [c_a c_g].
  split; apply import_sub_range; lia || easy.
Qed.

(** Decompression traps on no division, and in strict mode the decoded pair is one that serialization accepts. *)
Lemma decompr_strict out D c w gs : 1 <= w -> 0 <= gs < w -> 0 <= c_a c < 2 ^ (8 * (2 * w - gs)) ->
  0 <= c_g c < 2 ^ (8 * (gs + 1)) -> exists ret out', bqfc_decompr out D c true = Ok (ret, out') /\
    (ret = 0 -> 0 <= fst out' < 2 ^ (16 * w + 8) /\ Z.abs (snd out') <= fst out').
Proof.
  intros Hw Hgs Ha Hg. assert (Ha' : c_a c < 2 ^ (16 * w + 8)).
  { eapply Z.lt_le_trans; [apply Ha|]. apply Z.pow_le_mono_r; lia. }
  assert (Hfail : forall o, exists ret out', Ok (-1, o) = Ok (ret, out') /\ (ret = 0 -> 0 <= fst out' < 2 ^ (16 * w + 8) /\ Z.abs (snd out') <= fst out')).
  { intros o. eexists _, _. split; [reflexivity|lia]. }
  unfold bqfc_decompr. destruct (Z.eqb_spec (c_t c) 0) as [|Ht].
  - eexists _, _. split; [reflexivity|]. cbn [fst snd]. lia.
  - destruct (Z.eqb_spec (c_a c) 0); [apply Hfail|]. destruct (mpz_gcdext _ _) as [[tmp t_inv] y].
    destruct (negb (tmp =? 1)); [apply Hfail|]. rewrite !nonzero_ok by assumption. cbn [bind]. cbv zeta.
    destruct (negb (mpz_perfect_square_p _)); [apply Hfail|].
    set (oa := if 1 <? c_g c then _ else _). set (ob := if c_b_sign c then _ else _).
    assert (Hoa : 0 <= oa < 2 ^ (16 * w + 8)).
    { unfold oa. destruct (Z.ltb_spec 1 (c_g c)); [|lia]. split; [nia|].
      replace (16 * w + 8) with (8 * (2 * w - gs) + 8 * (gs + 1)) by lia. rewrite Z.pow_add_r by lia.
      apply Z.mul_lt_mono_nonneg; lia. }
    cbn [andb]. destruct (Z.ltb_spec (Z.abs oa) (Z.abs ob)); [apply Hfail|]. eexists _, _. split; [reflexivity|]. cbn [fst snd]. lia.
Qed.

Lemma deserialize_strict_any canon out D str d : length canon = 100%nat -> length str = 100%nat ->
  bytes_ok str -> 0 < d <= 1024 ->
  exists ret a b, bqfc_deserialize canon out D str 100 d true = Ok (ret, (a, b)) /\
    (ret = 0 -> 0 <= a /\ Z.abs b <= a /\
      (Z.land (nth 0 str 0) (Z.lor BQFC_IS_1 BQFC_IS_GEN) <> 0 \/ bqfc_serialize canon a b d = Ok (0, str))).
Proof.
  intros Hc Hl Hb Hd. unfold bqfc_deserialize, BQFC_MAX_D_BITS.
  destruct (Z.eqb_spec d 0); [lia|]. destruct (Z.ltb_spec 1024 d); [lia|]. cbn [orb].
  change (100 =? BQFC_FORM_SIZE) with true. cbn [negb].
  rewrite byte_at_ok by lia. cbn [bind]. change (Z.to_nat 0) with 0%nat. set (fl := nth 0 str 0).
  destruct (Z.eqb_spec (Z.land fl (Z.lor BQFC_IS_1 BQFC_IS_GEN)) 0) as [E|E]; cbn [negb].
  2:{ eexists _, _, _. split; [reflexivity|]. intros _. destruct (negb (Z.land fl BQFC_IS_GEN =? 0)); cbn [Z.abs]; repeat split; lia || now left. }
  destruct (compr_size_ok d Hd) as [_ Hw]. destruct out as [a0 b0].
  destruct (deserialize_only_any str d Hl Hb Hd) as [-> | (c & gs & -> & Hgs & Ha & Hg)]; cbn [bind]; [eexists _, _, _; split; [reflexivity|lia]|].
  destruct (decompr_strict (a0, b0) D c _ gs (proj1 Hw) Hgs Ha Hg) as (ret & [a b] & -> & Hr). cbn [bind fst snd] in *.
  destruct (Z.eqb_spec ret 0) as [->|]; cbn [negb]; [|exists ret, a, b; split; [reflexivity|lia]]. destruct (Hr eq_refl) as [Hab Hb'].
  destruct (verify_canon_ok canon a b str d Hc Hl Hd Hab Hb') as (v & -> & Hv). cbn [bind].
  exists v, a, b. split; [reflexivity|]. intros Ev. split; [lia|]. split; [easy|]. right. now apply Hv.
Qed.

(** The fields of a reduced form always fit. *)
Lemma compr_fits a b c rho w : 1 <= w -> 0 < a < 2 ^ (16 * w) -> Z.abs b <= a -> compr_of a b c rho -> fits w c.
Proof.
  intros Hw Ha Hb [Ea Hg Ht0 _ _ _ _ _ Hb0 _ Hf].
  assert (HL : Z.sqrt a < 2 ^ (8 * w)).
  { apply Z.sqrt_lt_square; [lia|apply Z.pow_nonneg; lia|]. rewrite <- Z.pow_add_r by lia. replace (8 * w + 8 * w) with (16 * w) by lia. lia. }
  pose proof (g_size_nonneg c) as Hgs. assert (Hgl : g_size c = 0 \/ 2 ^ (8 * g_size c) <= c_g c).
  { destruct (Z.eq_dec (g_size c) 0) as [E0|E0]; [now left|right]. unfold g_size, needed in E0, Hgs |- *. pose proof (bitlen_spec (c_g c) ltac:(lia)) as [HB _]. rewrite Z.abs_eq in HB by lia.
    etransitivity; [|exact HB]. apply Z.pow_le_mono_r; [lia|]. pose proof (Z.div_mod (bitlen (c_g c) + 7) 8 ltac:(lia)). pose proof (Z.mod_pos_bound (bitlen (c_g c) + 7) 8 ltac:(lia)). lia. }
  assert (HG : 1 <= 2 ^ (8 * g_size c) <= c_g c).
  { split; [pose proof (Z.pow_pos_nonneg 2 (8 * g_size c) ltac:(lia) ltac:(lia)); lia|]. destruct Hgl as [->|]; [change (2 ^ (8 * 0)) with 1; lia|assumption]. }
  assert (Hneed : forall x k, 1 <= k -> 0 <= x < 2 ^ (8 * k) -> needed x <= k).
  { intros x k Hk Hx. unfold needed. pose proof (bitlen_le x (8 * k) ltac:(lia) ltac:(rewrite Z.abs_eq; lia)).
    enough ((bitlen x + 7) / 8 < k + 1) by lia. apply Z.div_lt_upper_bound; lia. }
  assert (Hneg : needed (c_t c) = needed (Z.abs (c_t c))) by (unfold needed, bitlen; rewrite Z.abs_idemp; destruct (Z.eqb_spec (c_t c) 0), (Z.eqb_spec (Z.abs (c_t c)) 0); lia).
  assert (HP : forall k, g_size c <= k -> 2 ^ (8 * k) = 2 ^ (8 * (k - g_size c)) * 2 ^ (8 * g_size c)) by (intros k Hk; rewrite <- Z.pow_add_r by lia; f_equal; lia).
  assert (Hgw : g_size c < w).
  { apply Z.nle_gt. intros Hge. pose proof (Z.pow_le_mono_r 2 (8 * w) (8 * g_size c) ltac:(lia) ltac:(lia)). clear - Hf HL HG H Ht0 Hg. nia. }
  split; [|split].
  - apply Hneed; [lia|]. split; [clear - Ea Ha Hg; nia|]. apply (Z.mul_lt_mono_pos_r (2 ^ (8 * g_size c))); [lia|]. rewrite <- HP by lia.
    replace (8 * (2 * w)) with (16 * w) by lia. clear - Ea Ha HG Hg. nia.
  - rewrite Hneg. apply Hneed; [lia|]. split; [lia|]. apply (Z.mul_lt_mono_pos_r (2 ^ (8 * g_size c))); [lia|]. rewrite <- HP by lia. clear - Hf HL HG. nia.
  - assert (Hbg : 0 <= c_b0 c <= c_g c).
    { rewrite Hb0. destruct (c_g c =? 1); [lia|]. split; [apply Z.div_pos; nia|]. apply Z.div_le_upper_bound; [nia|]. rewrite Ea. exact Hb. }
    apply Hneed; [lia|]. split; [lia|]. eapply Z.le_lt_trans; [apply Hbg|]. pose proof (needed_lt (c_g c) (g_size c + 1) ltac:(unfold g_size; lia)) as Hn. rewrite Z.abs_eq in Hn by lia.
    rewrite Z.pow_mul_r by lia. exact Hn.
Qed.

Lemma reduced_size16 D f d : valid D f -> reduced f -> 0 < d <= 1024 -> - D < 2 ^ d -> 0 < fa f < 2 ^ (16 * ((d + 31) / 32)).
Proof.
  intros V R Hd HD. pose proof (reduced_bound D f V R) as Hb. destruct V as [_ Hn Ha]. split; [lia|].
  destruct (round_32 d Hd) as (w & _ & Hw & Hdw & ->). apply Z.nle_gt. intros Hle.
  assert (H2 : 2 ^ (16 * w) * 2 ^ (16 * w) <= fa f * fa f) by (pose proof (Z.pow_pos_nonneg 2 (16 * w) ltac:(lia) ltac:(lia)); nia).
  rewrite <- Z.pow_add_r in H2 by lia. assert (2 ^ d <= 2 ^ (16 * w + 16 * w)) by (apply Z.pow_le_mono_r; lia). lia.
Qed.
End RoundTrip.

(** ** Properties *)

Lemma equal_fits a w : 1 <= w -> 0 < a < 2 ^ (16 * w) -> fits w (mkqfb a 0 0 0 false).
Proof.
  intros Hw Ha. unfold fits. change (g_size _) with 0. change (needed (c_t _)) with 1. change (needed (c_b0 _)) with 1. cbn [c_a].
  split; [|lia]. unfold needed. pose proof (bitlen_le a (16 * w) ltac:(lia) ltac:(rewrite Z.abs_eq; lia)).
  enough ((bitlen a + 7) / 8 < 2 * w + 1) by lia. apply Z.div_lt_upper_bound; lia.
Qed.

Lemma roundtrip_ok {G : Gmp} {GL : GmpLaws G} D f d :
  valid D f -> reduced f -> (forall m, 1 < m -> ~ (m * m | D)) -> 0 < d <= 1024 -> - D < 2 ^ d ->
  exists s, length s = 100%nat /\ (forall out, length out = 100%nat -> bqfc_serialize out (fa f) (fb f) d = Ok (0, s)) /\
    forall canon out strict, length canon = 100%nat -> bqfc_deserialize canon out D s 100 d strict = Ok (0, (fa f, fb f)).
Proof.
  intros V R Hsq Hd HD. pose proof (reduced_size D f d V R Hd HD) as Hsize. pose proof (reduced_size16 D f d V R Hd HD) as Hsize16.
  pose proof (reduced_abs f R) as Hb. pose proof V as [Hdisc Hn Ha]. destruct (special (fa f) (fb f)) eqn:Esp.
  - exists (special_bytes (fa f)). split; [reflexivity|]. split; [intros out Ho; now apply serialize_special|]. intros canon out strict Hc.
    unfold special in Esp. apply Bool.andb_true_iff in Esp as [E1 E2]. apply Z.eqb_eq in E1. apply Z.leb_le in E2.
    unfold bqfc_deserialize, BQFC_MAX_D_BITS. destruct (Z.eqb_spec d 0); [lia|].
    destruct (Z.ltb_spec 1024 d); [lia|]. rewrite E1.
    assert (fa f = 1 \/ fa f = 2) as [-> | ->] by lia; reflexivity.
  - destruct (compr_size_ok d Hd) as [_ Hw]. set (w := (d + 31) / 32) in *.
    assert (Hcc : exists c, bqfc_compr (fa f) (fb f) = Ok c /\ g_size c <= w /\ fits w c /\
      0 <= c_a c /\ 0 <= c_g c /\ 0 <= c_b0 c /\ forall out st, bqfc_decompr out D c st = Ok (0, (fa f, fb f))).
    { destruct (Z.eq_dec (fb f) (fa f)) as [Eab|Hab].
      - exists (mkqfb (fa f) 0 0 0 false). unfold bqfc_compr. rewrite Eab, Z.eqb_refl. split; [easy|].
        split; [change (g_size _) with 0; lia|]. split; [now apply equal_fits|]. cbn [c_a c_g c_b0]. repeat split; lia || easy.
      - destruct (compr_ok (fa f) (fb f) Ha Hb Hab) as (c & rho & Ec & C). exists c. split; [easy|].
        assert (Hlt : Z.abs (fb f) < fa f) by (destruct R; lia).
        split; [apply (g_size_bound (fa f) (fb f) c rho); [lia|fold w in Hsize; lia|easy]|].
        split; [now apply (compr_fits (fa f) (fb f) c rho); [lia|..]|].
        pose proof C as [Ca Cg _ _ _ _ _ _ Cb0 _ _].
        split; [nia|]. split; [lia|]. split.
        { rewrite Cb0. destruct (c_g c =? 1); [lia|]. apply Z.div_pos; nia. }
        intros out st. apply (decompr_ok _ _ _ c rho); try easy.
        + exists (- 4 * fc f). rewrite <- Hdisc. unfold disc. ring.
        + apply (rho_square (fa f) (fb f) c rho D (fc f)); try easy. }
    destruct Hcc as (c & Ec & Hg & Hfits & C1 & C2 & C3 & C4).
    assert (HS : forall out, length out = 100%nat -> bqfc_serialize out (fa f) (fb f) d = Ok (0, form_bytes w c) /\ length (form_bytes w c) = 100%nat).
    { intros out Ho. destruct (serialize_form out _ _ d c Ho Hd Esp Ec Hg) as (r & s & E & Ls & [(-> & _ & ->)|[_ F]]); [now split|contradiction]. }
    exists (form_bytes w c). split; [now apply (HS (repeat 0 100))|]. split; [intros out Ho; now apply HS|]. intros canon out strict Hc.
    apply (deserialize_canonical canon out D _ (fa f) (fb f) d strict c); try easy; [now apply (HS (repeat 0 100))|now apply HS|].
    now apply deserialize_only_ok.
Qed.

(** C16: for a discriminant without square factors (the code uses
    the negative of a prime) that [d] bits hold, serializing a reduced form
    succeeds: the reduced coefficient and the cofactor always fit in their fields. It gives
    100 bytes that [bqfc_deserialize], strict or not, turns back into exactly
    [(a, b)]; the buffers' former contents do not matter, and nothing is
    written outside them. *)
Theorem bqfc_roundtrip {G : Gmp} {GL : GmpLaws G} D f d :
  valid D f -> reduced f -> (forall m, 1 < m -> ~ (m * m | D)) -> 0 < d <= 1024 -> - D < 2 ^ d ->
  exists s, length s = 100%nat /\ (forall out, length out = 100%nat -> bqfc_serialize out (fa f) (fb f) d = Ok (0, s)) /\
    forall canon out strict, length canon = 100%nat -> bqfc_deserialize canon out D s 100 d strict = Ok (0, (fa f, fb f)).
Proof. intros. now apply roundtrip_ok. Qed.

Lemma squarefree_47 m : 1 < m -> ~ (m * m | -47).
Proof.
  intros Hm Hd. apply Z.divide_opp_r in Hd. change (- -47) with 47 in Hd.
  pose proof (Z.divide_pos_le _ 47 ltac:(lia) Hd). destruct Hd as [k Hk]. assert (m < 7) by nia.
  assert (m = 2 \/ m = 3 \/ m = 4 \/ m = 5 \/ m = 6) as [->|[->|[->|[->| ->]]]] by lia; lia.
Qed.

Lemma bqfc_roundtrip_witness :
  (valid (-47) (mkform 3 (-1) 4) /\ reduced (mkform 3 (-1) 4) /\ (forall m, 1 < m -> ~ (m * m | -47)) /\ 0 < 6 <= 1024 /\ - -47 < 2 ^ 6) /\
  exists s, length s = 100%nat /\ (forall out, length out = 100%nat -> bqfc_serialize (G := Ref.gmp) out 3 (-1) 6 = Ok (0, s)) /\
    forall canon out strict, length canon = 100%nat -> bqfc_deserialize (G := Ref.gmp) canon out (-47) s 100 6 strict = Ok (0, (3, -1)).
Proof.
  assert (V : valid (-47) (mkform 3 (-1) 4)) by (split; reflexivity).
  assert (R : reduced (mkform 3 (-1) 4)) by (unfold reduced; cbn [fa fb fc]; lia).
  split; [split; [exact V|split; [exact R|split; [exact squarefree_47|split; easy]]]|].
  exact (bqfc_roundtrip (GL := Ref.laws) (-47) (mkform 3 (-1) 4) 6 V R squarefree_47 ltac:(lia) ltac:(lia)).
Defined.

(** C15: strict deserialization is safe and canonical on
    every input: whatever 100 bytes (or any other number) it is given, it reads
    and writes only inside its buffers, traps on no division (GMP's divisions by zero are
    failures of the model), and either
    returns an error or gives [|b| <= a]; and unless the string carries a special
    flag, it accepts only the bytes that serialization writes for the result,
    so that no two such strings decode to one pair. *)
Theorem bqfc_strict_canonical {G : Gmp} {GL : GmpLaws G} canon out D str size d :
  length canon = 100%nat -> Z.of_nat (length str) = size -> bytes_ok str -> 0 <= d ->
  exists ret a b, bqfc_deserialize canon out D str size d true = Ok (ret, (a, b)) /\
    (ret = 0 -> 0 < d <= 1024 /\ size = 100 /\ 0 <= a /\ Z.abs b <= a /\
      (Z.land (nth 0 str 0) (Z.lor BQFC_IS_1 BQFC_IS_GEN) = 0 ->
        bqfc_serialize canon a b d = Ok (0, str) /\
        forall out' str', bytes_ok str' -> bqfc_deserialize canon out' D str' 100 d true = Ok (0, (a, b)) ->
          length str' = 100%nat -> Z.land (nth 0 str' 0) (Z.lor BQFC_IS_1 BQFC_IS_GEN) = 0 -> str' = str)).
Proof.
  intros Hc Hl Hb Hd0.
  assert (Hfail : bqfc_deserialize canon out D str size d true = Ok (-1, out) -> exists ret a b, bqfc_deserialize canon out D str size d true = Ok (ret, (a, b)) /\ (ret = 0 -> False)).
  { intros E. exists (-1), (fst out), (snd out). rewrite E. split; [now destruct out|lia]. }
  destruct (Z.eq_dec d 0) as [->|Hd1]; [destruct (Hfail eq_refl) as (ret & a & b & E & Hr); exists ret, a, b; split; [exact E|tauto]|].
  destruct (Z.lt_ge_cases 1024 d) as [Hd2|Hd2].
  { destruct Hfail as (ret & a & b & E & Hr); [|exists ret, a, b; split; [exact E|tauto]]. unfold bqfc_deserialize, BQFC_MAX_D_BITS.
    destruct (Z.eqb_spec d 0); [lia|]. now destruct (Z.ltb_spec 1024 d); [|lia]. }
  destruct (Z.eq_dec size 100) as [->|Hs].
  2:{ destruct Hfail as (ret & a & b & E & Hr); [|exists ret, a, b; split; [exact E|tauto]]. unfold bqfc_deserialize, BQFC_MAX_D_BITS.
    destruct (Z.eqb_spec d 0); [lia|]. destruct (Z.ltb_spec 1024 d); [lia|]. cbn [orb].
    change BQFC_FORM_SIZE with 100. now destruct (Z.eqb_spec size 100). }
  clear Hfail. destruct (deserialize_strict_any canon out D str d Hc ltac:(lia) Hb ltac:(lia)) as (ret & a & b & E & H).
  exists ret, a, b. split; [exact E|]. intros Er. destruct (H Er) as (H1 & H2 & H3).
  split; [lia|]. split; [easy|]. split; [easy|]. split; [easy|]. intros Hf. destruct H3 as [|H3]; [easy|].
  split; [easy|]. intros out' str' Hb' Hd' Hl' Hf'.
  destruct (deserialize_strict_any canon out' D str' d Hc Hl' Hb' ltac:(lia)) as (ret' & a' & b' & E' & H'). rewrite Hd' in E'. injection E' as <- <- <-.
  destruct (H' eq_refl) as (_ & _ & [|H4]); [easy|]. congruence.
Qed.

Lemma bqfc_strict_canonical_witness : let str := [1; 0; 3; 0; 1; 1; 0] ++ repeat 0 93 in
  (length (repeat 9 100) = 100%nat /\ Z.of_nat (length str) = 100 /\ bytes_ok str /\ 0 <= 6) /\
  exists ret a b, bqfc_deserialize (G := Ref.gmp) (repeat 9 100) (0, 0) (-47) str 100 6 true = Ok (ret, (a, b)) /\
    (ret = 0 -> 0 < 6 <= 1024 /\ 100 = 100 /\ 0 <= a /\ Z.abs b <= a /\
      (Z.land (nth 0 str 0) (Z.lor BQFC_IS_1 BQFC_IS_GEN) = 0 ->
        bqfc_serialize (G := Ref.gmp) (repeat 9 100) a b 6 = Ok (0, str) /\
        forall out' str', bytes_ok str' -> bqfc_deserialize (G := Ref.gmp) (repeat 9 100) out' (-47) str' 100 6 true = Ok (0, (a, b)) ->
          length str' = 100%nat -> Z.land (nth 0 str' 0) (Z.lor BQFC_IS_1 BQFC_IS_GEN) = 0 -> str' = str)).
Proof.
  intros str. assert (Hb : bytes_ok str).
  { apply Forall_forall. intros x Hx. unfold is_byte. apply in_app_or in Hx as [Hx|Hx].
    - repeat (destruct Hx as [<-|Hx]; [lia|]). destruct Hx.
    - apply repeat_spec in Hx. lia. }
  split; [repeat split; easy|].
  exact (bqfc_strict_canonical (GL := Ref.laws) (repeat 9 100) (0, 0) (-47) str 100 6 eq_refl eq_refl Hb ltac:(lia)).
Defined.

(** A failed canonical check leaves the decoded pair in the outputs: the generator without its flag. *)
Example bqfc_unflagged_generator : bqfc_deserialize (G := Ref.gmp) (repeat 0 100) (0, 0) (-47) ([0; 0; 2; 0; 1; 1; 0] ++ repeat 0 93) 100 32 false = Ok (1, (2, 1)).
Proof. vm_compute. reflexivity. Qed.

(** The two flags of the special forms short-cut every
    check, also in strict mode: a string of any contents whose first byte has
    the identity or the generator bit set decodes to that form, so that these
    two forms, alone, have many encodings. *)
Theorem bqfc_special_not_unique {G : Gmp} canon out D d flags rest strict :
  0 < d <= 1024 -> is_byte flags -> Z.testbit flags 2 = true \/ Z.testbit flags 3 = true ->
  bqfc_deserialize canon out D (flags :: rest) 100 d strict
    = Ok (0, (if Z.testbit flags 3 then 2 else 1, 1)).
Proof.
  intros Hd Hf Hbit. unfold bqfc_deserialize, BQFC_MAX_D_BITS.
  destruct (Z.eqb_spec d 0); [lia|]. destruct (Z.ltb_spec 1024 d); [lia|]. cbn [orb].
  change (100 =? BQFC_FORM_SIZE) with true. cbn [negb]. rewrite byte_at_0. cbn [bind].
  assert (E3 : negb (Z.land flags BQFC_IS_GEN =? 0) = Z.testbit flags 3).
  { destruct (Z.eqb_spec (Z.land flags BQFC_IS_GEN) 0) as [E|E]; cbn [negb].
    - change BQFC_IS_GEN with (2 ^ 3) in E. symmetry.
      apply (f_equal (fun z => Z.testbit z 3)) in E. rewrite Z.land_spec, Z.pow2_bits_true, Bool.andb_true_r in E by lia.
      rewrite E. reflexivity.
    - symmetry. apply Bool.not_false_is_true. intros Hn. apply E. apply Z.bits_inj'. intros i Hi.
      rewrite Z.land_spec, Z.bits_0. change BQFC_IS_GEN with (2 ^ 3). rewrite Z.pow2_bits_eqb by lia.
      destruct (Z.eqb_spec 3 i) as [<-|]; [now rewrite Hn|apply Bool.andb_false_r]. }
  rewrite E3. destruct (Z.eqb_spec (Z.land flags (Z.lor BQFC_IS_1 BQFC_IS_GEN)) 0) as [E|E]; [|easy].
  exfalso. destruct Hbit as [Hb|Hb]; [set (i := 2) in Hb|set (i := 3) in Hb];
    apply (f_equal (fun z => Z.testbit z i)) in E; rewrite Z.land_spec, Hb in E; discriminate E.
Qed.

Lemma bqfc_special_not_unique_witness :
  (0 < 1024 <= 1024 /\ is_byte 12 /\ (Z.testbit 12 2 = true \/ Z.testbit 12 3 = true)) /\
  bqfc_deserialize (G := Ref.gmp) (repeat 0 100) (0, 0) (-47) (12 :: repeat 255 99) 100 1024 true
    = Ok (0, (if Z.testbit 12 3 then 2 else 1, 1)).
Proof.
  split; [unfold is_byte; repeat split; try lia; now left|].
  apply (bqfc_special_not_unique (repeat 0 100) (0, 0) (-47) 1024 12 (repeat 255 99) true);
    [lia|unfold is_byte; lia|now left].
Defined.

(** Where the discriminant has a square factor the round trip can fail: here
    [a = 9] is a square and 3 divides [b]. *)
Example bqfc_square_factor : let f := mkform 9 3 10 in
  disc f = -351 /\ reduced f /\
  bqfc_compr (G := Ref.gmp) 9 3 = Ok (mkqfb 9 1 1 0 false) /\
  bqfc_decompr (G := Ref.gmp) (0, 0) (-351) (mkqfb 9 1 1 0 false) false = Ok (0, (9, 0)).
Proof. unfold reduced. cbn [fa fb fc]. split; [reflexivity|]. split; [lia|]. now vm_compute. Qed.
