(* ===== verification/Pprods.v ===== *)
(** [src/src/pprods.h]: the table of products of consecutive odd primes. *)
From S2P Require Import Prelude NumTheory.

Definition pprods : list Z := [
  0xe221f97c30e94e1d; 0x6329899ea9f2714b; 0x58edcb4c9ed39c8b; 0x9966ff94fd516fb;
  0x3bd7632c1f36eb51; 0xfd14b3c90d88a9; 0x2ad3dbe0cca85ff; 0x787f9a02c3388a7;
  0x1113c5cc6d101657; 0x2456c94f936bdb15; 0x4236a30b85ffe139; 0x805437b38eada69d;
  0x723e97bddcd2af; 0xa5a792ee239667; 0xe451352ebca269; 0x13a7955f14b7805; 0x1d37cbd653b06ff;
  0x288fe4eca4d7cdf; 0x39fddb60d3af63d; 0x4cd73f19080fb03; 0x639c390b9313f05;
  0x8a1c420d25d388f; 0xb4b5322977db499; 0xe94c170a802ee29; 0x11f6a0e8356100df;
  0x166c8898f7b3d683; 0x1babda0a0afd724b; 0x2471b07c44024abf; 0x2d866dbc2558ad71;
  0x3891410d45fb47df; 0x425d5866b049e263; 0x51f767298e2cf13b; 0x6d9f9ece5fc74f13;
  0x7f5ffdb0f56ee64d; 0x943740d46a1bc71f; 0xaf2d7ca25cec848f; 0xcec010484e4ad877;
  0xef972c3cfafbcd25; 0x2a442c1ebb3be5; 0x303fa164bdc919; 0x36521ca14fd8e7; 0x3ca3241ed069e3;
  0x43885d3035c59b; 0x4e1aee1fa9d559; 0x54469dbe5d6c77; 0x5e49791f7429a1; 0x6b2ceda4198e53;
  0x7339d26e3d1ce3; 0x7e2ee3b8aa6bf3; 0x8ae9bb5cda9301; 0x96e917373cdca7; 0xa211e4fecdf953;
  0xb8ff2efb3033cf; 0xcbaca970bdfe31; 0xdb2c9f75b49027; 0xed9fb524fe759d; 0x1007595a2312fc7;
  0x111eccd0898675f; 0x12546177b06c0bf; 0x13e5b450710a16f; 0x164d74c38c8e863;
  0x1836887063c20bb; 0x1ab250719364c7b; 0x1d1d99745c88d5b; 0x1ec730b953d1a27;
  0x2021f7b6341a9ab; 0x21e792f0d4ca61d; 0x249015c16a93885; 0x26f0f9a480c48e5;
  0x29bc3143b9a5a89; 0x2d26abb44109333; 0x30a7492f008069d; 0x343b19b9edc33a7;
  0x385a3fb2c68b433; 0x3c555b3dbe9ef83; 0x411e43a3a8d394b; 0x4775710b7a55833;
  0x4b76972a22d55a1; 0x507bfe226ee0079; 0x56a838dee32fff3; 0x5ac8589165200e9;
  0x5f667749eb2f963; 0x65dd3fc17e3c099; 0x6e031d955a9fef9; 0x742ec64b53bfdff;
  0x7a5cbcb6bae243d; 0x7f7fcb28a3d7137; 0x86be427bf5de82d; 0x8d9ca434d0399a5;
  0x9638c123bcab351; 0x9db5cdd2505eabd; 0xa7882ea2d1e207f; 0xb1a70a51fba0b75;
  0xbbabeb6f4cc2177; 0xc68a56113938121; 0xce86607deddbe4b; 0xdaca6d46347064f;
  0xe6f9cb2334ec11f; 0xf25ac800485a171; 0xff8f0253a89a32d; 0x10ccedf304c329c1;
  0x11bab365a0306ad1; 0x12bc79f95534c5d9; 0x136918855651cae7; 0x1441022b5202f195;
  0x1597271595caf351; 0x16d6d391503c0abb; 0x180c60c57c2aa2eb; 0x1931ed2425952793;
  0x1a4ad806a56da143; 0x1bab1dcc65ac15db; 0x1d309fb6e722f0e1; 0x1e414485a1b107bf;
  0x1f9aa68df17c076b; 0x212b81780b580e97; 0x23006478f7a04647; 0x244664b9e9752837;
  0x26cb4c8923562f31; 0x2885c6c7b07c160f; 0x29cdb8dbe624c3c1; 0x2b4a321722f3b1ef;
  0x2ca3b94e7373f36d; 0x2efa302d0838fad3; 0x30b3fdb20c872a5b; 0x33591223fefd974b;
  0x35c12a863f50eaa9; 0x383533808bd74477; 0x3ac02a15fc89c54d; 0x3e12cc83606624f3;
  0x405f92575cd90b87; 0x42211307d533e619; 0x44b8a22c7f3df3c3; 0x46d3dca711bbaec5;
  0x49a4f62f2bee3201; 0x4d746a3fda9d6ec3; 0x5024bb19621ceac3; 0x528d8d1989f23337;
  0x55b4c3f0688fa659; 0x599291b29311407f; 0x5cc7a1b4f6df9823; 0x5f42cbfa215ab3fd;
  0x616db4fe760c22b9; 0x65ad151b5817da41; 0x6c2e75f079f3deef; 0x706dd813a4085937;
  0x73edc48854faa299; 0x77f1e576ffed49b9; 0x7cc13fe542982693; 0x80cedb56d0c02049;
  0x858f4783e6ff5cf3; 0x892e6d86008f82e3; 0x8d040c52d7c6ab79; 0x90b53592209da955;
  0x954fb9d96ab9ea1d; 0x9caf15af4ce7fcf7; 0xa47dbf171698939f; 0xa9712f0456e54591;
  0xaeed828a42377403; 0xb68603f5eadb8545; 0xbb2bd5d42428b71d; 0xc165b45b4e412e49;
  0xc8348a8471e75ca3; 0xce5ab711e7179571; 0xd4287981935f5b7f; 0xdb9c1eff1b938a91;
  0xe2e20afc369136ff; 0xe78c749d7a119695; 0xedfa86764fa767e1; 0xf7780828d01fcef9;
  0x9311da8eb3ea1; 0x96fc1b51999b5; 0x99d2dc5aa820b; 0x9c18c1a21f755; 0xa019a0d84ce05;
  0xa3837104af50b; 0xa74ba276e925b; 0xad0c05b3ae661; 0xb0da5211cc3e7; 0xb36ca8c3991af;
  0xb6694790c60df; 0xb89a345c48d7d; 0xbb02a8b8a132b; 0xbd6468bb171ff; 0xc17671b548641;
  0xc57f07d496e1b; 0xc814b88200ac3; 0xcb958ba8e9259; 0xcfaa956d67517; 0xd56380a0e8273;
  0xd9c8b65d94f5b; 0xdc90a482debcb; 0xe0ac9922e6235; 0xe4aa6969c4449; 0xeb0ca4d2b0965;
  0xf08c969789d43; 0xf3c97c77c730f; 0xf7aa31273931b; 0xfd32e0bae7a77; 0x102419fda6cc01;
  0x1058b57cd1fec9; 0x10a468ac696a55; 0x10d824894d6521; 0x1131219641c957; 0x1186346cb9c4a7;
  0x11e75887c6bcbf; 0x1226c3d8919ad3; 0x12ae54ca9118b3; 0x12f2143ddeb927; 0x13522200caeeb3;
  0x13a21ad000a461; 0x13ef7c7f69a93d; 0x1436a05ef17841; 0x147142f4cc4c17; 0x14b887295ec96d;
  0x1501b9fe3efaad; 0x156d3ebd5cfffb; 0x15af86361077ad; 0x15fc898c07b90f; 0x167c836a7cdf2b;
  0x16db56bc574209; 0x174097de2edf3b; 0x178dbdb0cfb9fb; 0x17e109fd2af3fb; 0x18716adbb946f7;
  0x18d7bc2e97eaef; 0x192e69d59ba8db; 0x198a3cddb561c9; 0x19e876c274e4fd; 0x1a63555c2e680b;
  0x1ad58f177dacbb; 0x1b29f0db4b3395; 0x1ba4b691e66139; 0x1bfc87fc12613d; 0x1c3e250dac9d87;
  0x1c944c9149df3b; 0x1cff79f4c205cd; 0x1d75566cb1adb3; 0x1e3cd7b5975575; 0x1e92a4033b7417;
  0x1f0502cb33d8c7; 0x1f8943169b2d87; 0x1ffcaebc1a4bad; 0x20730086c8cb89; 0x20d7b89585d217;
  0x2147bfe14a8231; 0x21ae6440d699bf; 0x22306f8188c6fb; 0x22a5af39a69703; 0x235eedc5de5805;
  0x2441e04ba35085; 0x24b8a97a3a59a5; 0x252362655a4d67; 0x25ab86b8cc3567; 0x260aea245bc247;
  0x26b855f8b70077; 0x2750993dd1e65b; 0x27bafa8c9f7853; 0x28402b9d2d22dd; 0x28a66d2d4fc087;
  0x298166c0739b53; 0x2a40d5220cbed9; 0x2ab7670bbab197; 0x2b5b38f61706df; 0x2c3429fa1e037f;
  0x2ceda9fa3b4a9f; 0x2d7b4d561f2739; 0x2e05d3caae9813; 0x2eb7851a14c29b; 0x2f3e1d077d25cf;
  0x3010f41dbeb6ed; 0x311729b61dd159; 0x318dceb77a5837; 0x321cd33785cdf1; 0x32fdf49691bc63;
  0x33b1c5f5f30ced; 0x34a6c59cb6d8d7; 0x355c9029e55dd3; 0x35fb2d1ac371b7; 0x36b44bc2249a47;
  0x3750e273f3b60f; 0x385ce9399c0f85; 0x391ecbd93a9e67; 0x39cd91131ee8e5; 0x3a887d9033256b;
  0x3b77f83e7b7b77; 0x3c5f7ed2eca1bf; 0x3d367feec26269; 0x3debdb2f48a479; 0x3eab0afe5d537b;
  0x3fd435f4d431e7; 0x40b45ff452cb31; 0x420775fbceaf6d; 0x42c7627aefc08d; 0x43e44dcc615d67;
  0x44c330cdfdeb7d; 0x456af335c23b75; 0x4610d2c7c0027b; 0x47384e9bf4bfad; 0x47fa259c013ba3;
  0x48950fc7f50b43; 0x4956836a576163; 0x4a7b8c3c557b65; 0x4b771e5db917ef; 0x4c5834105e9dfb;
  0x4d37df06ec25d9; 0x4e3707bf47eca5; 0x4f77e5a59ceea7; 0x503ced574122d5; 0x50f93a4e9e43e9;
  0x5242764cb96dbf; 0x5373ff17a4f379; 0x544ac8e491c7d9; 0x5534b35cc8f027; 0x56405cd1d8f29b;
  0x56ee39496a06dd; 0x57cf4552f1e303; 0x58b59c4b50c127; 0x59a507c3dbf24b; 0x5a92a6fbea27b9;
  0x5b7e66124ac799; 0x5cab65d44446ef; 0x5de6905c90b503; 0x5f37e803c461fd; 0x60383597fe3f4f;
  0x61e147bd94922b; 0x62cb93e709f30f; 0x63bb5109ddbb39; 0x64b4ccd52a2a97; 0x65a00fb544939d;
  0x66bd48d7520557; 0x684ac380bf1aaf; 0x6975d3e0fb99e1; 0x6a96fad34eb5c9; 0x6b9092527de0b5;
  0x6cfda2f8b38f6f; 0x6e72811aacaeab; 0x6fd5b0d3d77ca9; 0x710c5f58855659; 0x72c045f81a9571;
  0x740178628c8d1f; 0x7518d8f35a1ee9; 0x76a24bc5928fc9; 0x788a7d5fa3bc21; 0x7a0a454ddc12d9;
  0x7b9b6dbf0acbfb; 0x7cb724b29c97e9; 0x7d80316c3aea0b; 0x7e9f02956774f9; 0x7fd78ff30e55dd;
  0x8176f93dcdee1b; 0x83328f181f37ff; 0x844c85844f1ec7; 0x854fb5954cd2e9; 0x871ee1f72316ed;
  0x88f30d5a797dc9; 0x8a8f2c1377c21d; 0x8c01286e805837; 0x8e7712e261c25d; 0x8ffb253ef4179f;
  0x921fbe50feef75; 0x948a2d689dccf3; 0x95ffe36390e923; 0x98301d5150c82f; 0x9965ca922eda71;
  0x9a81df9eec8585; 0x9c4ff7ceb26e9d; 0x9e7b7d2e8d6945; 0x9f6c20cfec7617; 0xa1123741d60349;
  0xa2d85d546633e9; 0xa4576a38b2e863; 0xa67b26cfff14d5; 0xa7a939b6101c2d; 0xa8bb9c6b89238b;
  0xaa21a4d7b7405d; 0xabdd00ad8a3843; 0xad89beafbcecf3; 0xaf157a9999de1f; 0xb1110edec9a5e7
].

(** ** What the table covers *)

Definition small_primes : list Z :=
  [3; 5; 7; 11; 13; 17; 19; 23; 29; 31; 37; 41; 43; 47; 53; 59; 61; 67; 71; 73; 79; 83; 89; 97;
   101; 103; 107; 109; 113].

(** Walk through the odd numbers [m, m + 2, ...] with a pointer into the table:
    each is composite, or divides the current entry or the next one. *)
Fixpoint walk (n : nat) (m : Z) (table : list Z) : bool :=
  match n with
  | O => true
  | S n' =>
      if existsb (fun p => (p <? m) && (m mod p =? 0)) small_primes then walk n' (m + 2) table
      else match table with
           | [] => false
           | e :: rest =>
               if e mod m =? 0 then walk n' (m + 2) table
               else match rest with
                    | [] => false
                    | e' :: _ => if e' mod m =? 0 then walk n' (m + 2) rest else false
                    end
           end
  end.

Lemma walk_sound n : forall m table, 1 < m -> walk n m table = true ->
  forall q, Z.prime q -> m <= q < m + 2 * Z.of_nat n -> (q - m) mod 2 = 0 ->
    exists e, In e table /\ (q | e).
Proof.
  induction n as [|n IH]; intros m table Hm H q Hq Hr Hpar; [lia|]. cbn [walk] in H.
  assert (Hnext : forall t, walk n (m + 2) t = true -> q <> m -> exists e, In e t /\ (q | e)).
  { intros t Ht Hne. apply (IH (m + 2) t ltac:(lia) Ht q Hq).
    - assert (q - m <> 1) by (intros E; rewrite E in Hpar; discriminate). lia.
    - replace (q - (m + 2)) with (q - m + (-1) * 2) by ring. now rewrite Z.mod_add. }
  destruct (existsb _ small_primes) eqn:E.
  - apply (Hnext table H). intros ->. apply existsb_exists in E as (p & Hp & E).
    apply Bool.andb_true_iff in E as [E1 E2]. apply Z.ltb_lt in E1. apply Z.eqb_eq in E2.
    assert (H1 : 1 < p) by (repeat (destruct Hp as [<-|Hp]; [lia|]); destruct Hp).
    apply Z.mod_divide in E2; [|lia]. destruct Hq as [_ Hq]. now apply (Hq p).
  - destruct table as [|e rest]; [discriminate|]. destruct (Z.eqb_spec (e mod m) 0) as [E1|E1].
    + destruct (Z.eq_dec q m) as [->|Hne]; [|now apply Hnext].
      exists e. split; [now left|]. now apply Z.mod_divide; [lia|].
    + destruct rest as [|e' rest]; [discriminate|]. destruct (Z.eqb_spec (e' mod m) 0) as [E2|E2]; [|discriminate].
      destruct (Z.eq_dec q m) as [->|Hne].
      * exists e'. split; [right; now left|]. now apply Z.mod_divide; [lia|].
      * destruct (Hnext _ H Hne) as (e0 & H0 & H1). exists e0. split; [now right|easy].
Qed.

(** Every odd prime up to 14951 divides an entry. *)
Lemma pprods_cover q : Z.prime q -> q <> 2 -> q <= 14951 -> exists e, In e pprods /\ (q | e).
Proof.
  intros Hq H2 Hle. pose proof (Z.prime_ge_2 q Hq). pose proof (odd_prime_mod2 q Hq H2) as Hodd.
  apply (walk_sound (Z.to_nat 7475) 3 pprods); [lia|vm_compute; reflexivity|easy|lia|].
  rewrite Zminus_mod, Hodd. reflexivity.
Qed.

Lemma pprods_range e : In e pprods -> 1 < e < 2 ^ 64.
Proof.
  intros H. assert (F : forallb (fun e => (1 <? e) && (e <? 2 ^ 64)) pprods = true) by (vm_compute; reflexivity).
  rewrite forallb_forall in F. specialize (F e H). lia.
Qed.


(** Divide the entries by [m, m + 2, ...] up to [lim], in order, until nothing
    is left. *)
Fixpoint strip (n : nat) (lim m e : Z) (rest : list Z) : bool :=
  match n with
  | O => false
  | S n' =>
      if e =? 1 then match rest with [] => true | e' :: rest' => strip n' lim m e' rest' end
      else if lim <? m then false
      else if e mod m =? 0 then strip n' lim m (e / m) rest else strip n' lim (m + 2) e rest
  end.

Lemma strip_sound lim n : forall m e rest, 1 < m -> strip n lim m e rest = true ->
  forall q, Z.prime q -> (exists x, (x = e \/ In x rest) /\ (q | x)) -> q <= lim.
Proof.
  induction n as [|n IH]; intros m e rest Hm H q Hq (x & Hx & Hd); [discriminate|].
  cbn [strip] in H. pose proof (Z.prime_ge_2 q Hq). destruct (Z.eqb_spec e 1) as [->|E].
  - destruct Hx as [->|Hx]; [apply Z.divide_pos_le in Hd; lia|].
    destruct rest as [|e' rest]; [destruct Hx|].
    apply (IH m e' rest ltac:(lia) H q Hq). exists x. split; [|easy].
    destruct Hx as [->|Hx]; auto.
  - destruct (Z.ltb_spec lim m); [discriminate|]. destruct (Z.eqb_spec (e mod m) 0) as [E0|E0].
    + apply Z.mod_divide in E0 as [k ->]; [|lia]. rewrite Z.div_mul in H by lia.
      destruct Hx as [->|Hx]; [|apply (IH m k rest ltac:(lia) H q Hq); eauto].
      apply (prime_divide_mul q) in Hd as [Hd|Hd]; [|apply Z.divide_pos_le in Hd; lia|easy].
      apply (IH m k rest ltac:(lia) H q Hq); eauto.
    + apply (IH (m + 2) e rest ltac:(lia) H q Hq). eauto.
Qed.

(** The table's entries have no prime factor above 14951. *)
Lemma pprods_smooth e q : In e pprods -> Z.prime q -> (q | e) -> q <= 14951.
Proof.
  intros He Hq Hd.
  assert (S : strip (Z.to_nat 12000) 14951 3 1 pprods = true) by (vm_compute; reflexivity).
  apply (strip_sound 14951 _ 3 1 pprods ltac:(lia) S q Hq). eauto.
Qed.
