(* ===== verification/Sha256.v ===== *)
(** [src/src/picosha2.h]: SHA-256. The hasher keeps the bytes of an unfinished
    block, the length so far as four 16-bit digits, and the chaining value in
    64-bit words ([unsigned long]) that it masks to 32 bits. The reference is
    FIPS 180-4, in 32-bit arithmetic on the whole padded message. *)
From S2P Require Import Prelude.

(** ** detail *)

Definition k_digest_size : Z := 32.

Definition mask_8bit (x : Z) : Z := Z.land x 0xff.
Definition mask_32bit (x : Z) : Z := Z.land x 0xffffffff.

Definition add_constant : list Z :=
  [0x428a2f98; 0x71374491; 0xb5c0fbcf; 0xe9b5dba5; 0x3956c25b; 0x59f111f1; 0x923f82a4; 0xab1c5ed5] ++
  [0xd807aa98; 0x12835b01; 0x243185be; 0x550c7dc3; 0x72be5d74; 0x80deb1fe; 0x9bdc06a7; 0xc19bf174] ++
  [0xe49b69c1; 0xefbe4786; 0x0fc19dc6; 0x240ca1cc; 0x2de92c6f; 0x4a7484aa; 0x5cb0a9dc; 0x76f988da] ++
  [0x983e5152; 0xa831c66d; 0xb00327c8; 0xbf597fc7; 0xc6e00bf3; 0xd5a79147; 0x06ca6351; 0x14292967] ++
  [0x27b70a85; 0x2e1b2138; 0x4d2c6dfc; 0x53380d13; 0x650a7354; 0x766a0abb; 0x81c2c92e; 0x92722c85] ++
  [0xa2bfe8a1; 0xa81a664b; 0xc24b8b70; 0xc76c51a3; 0xd192e819; 0xd6990624; 0xf40e3585; 0x106aa070] ++
  [0x19a4c116; 0x1e376c08; 0x2748774c; 0x34b0bcb5; 0x391c0cb3; 0x4ed8aa4a; 0x5b9cca4f; 0x682e6ff3] ++
  [0x748f82ee; 0x78a5636f; 0x84c87814; 0x8cc70208; 0x90befffa; 0xa4506ceb; 0xbef9a3f7; 0xc67178f2].

Definition initial_message_digest : list Z :=
  [0x6a09e667; 0xbb67ae85; 0x3c6ef372; 0xa54ff53a; 0x510e527f; 0x9b05688c; 0x1f83d9ab; 0x5be0cd19].

Definition ch (x y z : Z) : Z := Z.lxor (Z.land x y) (Z.land (u64 (Z.lnot x)) z).
Definition maj (x y z : Z) : Z := Z.lxor (Z.lxor (Z.land x y) (Z.land x z)) (Z.land y z).
Definition rotr (x n : Z) : Z := mask_32bit (Z.lor (Z.shiftr x n) (u64 (Z.shiftl x (32 - n)))).
Definition bsig0 (x : Z) : Z := Z.lxor (Z.lxor (rotr x 2) (rotr x 13)) (rotr x 22).
Definition bsig1 (x : Z) : Z := Z.lxor (Z.lxor (rotr x 6) (rotr x 11)) (rotr x 25).
Definition shr (x n : Z) : Z := Z.shiftr x n.
Definition ssig0 (x : Z) : Z := Z.lxor (Z.lxor (rotr x 7) (rotr x 18)) (shr x 3).
Definition ssig1 (x : Z) : Z := Z.lxor (Z.lxor (rotr x 17) (rotr x 19)) (shr x 10).

(** [w[0 .. 16)]: big-endian words of the block. *)
Definition load_word (block : bytes) (i : nat) : Z :=
  Z.lor (Z.lor (Z.lor (Z.shiftl (mask_8bit (nth (i * 4) block 0)) 24)
                      (Z.shiftl (mask_8bit (nth (i * 4 + 1) block 0)) 16))
               (Z.shiftl (mask_8bit (nth (i * 4 + 2) block 0)) 8))
        (mask_8bit (nth (i * 4 + 3) block 0)).

(** The loop that fills [w[16 .. 64)]; [w] is the part of the array written so
    far, so that the index [i] is its length. *)
Fixpoint expand_w (n : nat) (w : list Z) : list Z :=
  match n with
  | O => w
  | S n' =>
      let i := length w in
      expand_w n' (w ++ [mask_32bit (u64 (ssig1 (nth (i - 2) w 0) + nth (i - 7) w 0 +
                                          ssig0 (nth (i - 15) w 0) + nth (i - 16) w 0))])
  end.

(** The variables [a], ..., [h]. *)
Record vars : Type := mkvars { va : Z; vb : Z; vc : Z; vd : Z; ve : Z; vf : Z; vg : Z; vh : Z }.

Definition round (w : list Z) (v : vars) (i : nat) : vars :=
  let '(mkvars a b c d e f g h) := v in
  let temp1 := u64 (h + bsig1 e + ch e f g + nth i add_constant 0 + nth i w 0) in
  let temp2 := u64 (bsig0 a + maj a b c) in
  mkvars (mask_32bit (u64 (temp1 + temp2))) a b c (mask_32bit (u64 (d + temp1))) e f g.

Definition vars_of (message_digest : list Z) : vars :=
  let m i := nth i message_digest 0 in mkvars (m 0%nat) (m 1%nat) (m 2%nat) (m 3%nat) (m 4%nat) (m 5%nat) (m 6%nat) (m 7%nat).

Definition add_digest (m : list Z) (v : vars) : list Z :=
  let '(mkvars a b c d e f g h) := v in
  map (fun '(x, y) => mask_32bit (u64 (x + y))) (combine m [a; b; c; d; e; f; g; h]).

Definition hash256_block (message_digest : list Z) (block : bytes) : list Z :=
  let w := expand_w 48 (map (load_word block) (seq 0 16)) in
  add_digest message_digest (fold_left (round w) (seq 0 64) (vars_of message_digest)).

(** ** hash256_one_by_one *)

Record hash256_one_by_one : Type :=
  mkhasher { buffer_ : bytes; data_length_digits_ : list Z; h_ : list Z }.

Definition init : hash256_one_by_one := mkhasher [] [0; 0; 0; 0] initial_message_digest.

(** The carry loop; it stops at the first digit that does not overflow. *)
Fixpoint add_carry (digits : list Z) (carry : Z) : list Z :=
  match digits with
  | [] => []
  | d :: rest =>
      let d := u64 (d + carry) in
      if 65536 <=? d then Z.land d 65535 :: add_carry rest (Z.shiftr d 16) else d :: rest
  end.

Definition add_to_data_length (digits : list Z) (n : Z) : list Z :=
  match digits with
  | d :: rest => add_carry (u64 (d + n) :: rest) 0
  | [] => []
  end.

(** The block loop of [process]: [i] and the chaining value at its end. *)
Fixpoint process_blocks (fuel : nat) (buffer : bytes) (i : nat) (h : list Z) : nat * list Z :=
  match fuel with
  | O => (i, h)
  | S fuel' =>
      if (i + 64 <=? length buffer)%nat then
        process_blocks fuel' buffer (i + 64) (hash256_block h (sub buffer i 64))
      else (i, h)
  end.

(** A block takes 64 bytes, so [length / 64] iterations are enough. *)
Definition process (s : hash256_one_by_one) (data : bytes) : hash256_one_by_one :=
  let digits := add_to_data_length (data_length_digits_ s) (u64 (Z.of_nat (length data))) in
  let buffer := buffer_ s ++ data in
  let '(i, h) := process_blocks (length buffer / 64) buffer 0 (h_ s) in
  mkhasher (skipn i buffer) digits h.

(** The digits shifted left by 3, the least significant first. *)
Fixpoint shift3 (digits : list Z) (carry : Z) : list Z :=
  match digits with
  | [] => []
  | d :: rest =>
      let before_val := d in
      let d := u64 (Z.shiftl d 3) in
      let d := Z.lor d carry in
      let d := Z.land d 65535 in
      d :: shift3 rest (Z.land (Z.shiftr before_val (16 - 3)) 65535)
  end.

Definition write_data_bit_length (digits : list Z) : bytes :=
  flat_map (fun d => [u8 (Z.shiftr d 8); u8 d]) (rev (shift3 digits 0)).

Definition finish (s : hash256_one_by_one) : hash256_one_by_one :=
  let remains := length (buffer_ s) in
  let temp := buffer_ s ++ [0x80] in
  let '(temp, h) :=
    if (55 <? remains)%nat then
      let temp := temp ++ repeat 0 (64 - (remains + 1)) in
      (repeat 0 (64 - 4), hash256_block (h_ s) temp)
    else (temp ++ repeat 0 (64 - 4 - (remains + 1)), h_ s) in
  let temp := firstn 56 temp ++ write_data_bit_length (data_length_digits_ s) in
  mkhasher (buffer_ s) (data_length_digits_ s) (hash256_block h temp).

Definition get_hash_bytes (s : hash256_one_by_one) : bytes :=
  flat_map (fun w => map (fun i => mask_8bit (u8 (Z.shiftr w (24 - 8 * i)))) [0; 1; 2; 3]) (h_ s).

(** ** hash256: for random-access and for input iterators *)

Definition hash256_impl (data : bytes) : bytes := get_hash_bytes (finish (process init data)).

(** The input is copied to a buffer of [buffer_size] bytes at a time. *)
Fixpoint process_chunks (fuel : nat) (s : hash256_one_by_one) (data : bytes) (buffer_size : nat) : res hash256_one_by_one :=
  match data with
  | [] => Ok s
  | _ :: _ =>
      match fuel with
      | O => Throw out_of_fuel
      | S fuel' => process_chunks fuel' (process s (firstn buffer_size data)) (skipn buffer_size data) buffer_size
      end
  end.

Definition hash256_impl_input (data : bytes) (buffer_size : nat) : res bytes :=
  s <- process_chunks (length data) init data buffer_size ;; Ok (get_hash_bytes (finish s)).

Definition hash256 (src : bytes) : bytes := hash256_impl src.

Example sha256_abc : hash256 [0x61; 0x62; 0x63] =
  be_split 32 0xba7816bf8f01cfea414140de5dae2223b00361a396177a9cb410ff61f20015ad.
Proof. vm_compute. reflexivity. Qed.

(** The two-block message of the FIPS examples. *)
Example sha256_56 : let msg := be_split 56 0x6162636462636465636465666465666765666768666768696768696a68696a6b696a6b6c6a6b6c6d6b6c6d6e6c6d6e6f6d6e6f706e6f7071 in
  hash256 msg = be_split 32 0x248d6a61d20638b8e5c026930c3e6039a33ce45964ff2167f6ecedd419db06c1 /\
  hash256_impl_input msg 5 = Ok (hash256 msg).
Proof. vm_compute. split; reflexivity. Qed.

(** ** The reference: FIPS 180-4, on 32-bit words *)

Module Fips.
Definition add32 (x y : Z) : Z := (x + y) mod 2 ^ 32.
Definition ROTR (n x : Z) : Z := Z.lor (Z.shiftr x n) (Z.shiftl x (32 - n) mod 2 ^ 32).
Definition Ch (x y z : Z) : Z := Z.lxor (Z.land x y) (Z.land (Z.lnot x) z).
Definition Maj (x y z : Z) : Z := Z.lxor (Z.lxor (Z.land x y) (Z.land x z)) (Z.land y z).
Definition Sigma0 (x : Z) : Z := Z.lxor (Z.lxor (ROTR 2 x) (ROTR 13 x)) (ROTR 22 x).
Definition Sigma1 (x : Z) : Z := Z.lxor (Z.lxor (ROTR 6 x) (ROTR 11 x)) (ROTR 25 x).
Definition sigma0 (x : Z) : Z := Z.lxor (Z.lxor (ROTR 7 x) (ROTR 18 x)) (Z.shiftr x 3).
Definition sigma1 (x : Z) : Z := Z.lxor (Z.lxor (ROTR 17 x) (ROTR 19 x)) (Z.shiftr x 10).

(** The message schedule, as the stream whose next word depends on a window
    of 16. *)
Definition next (win : list Z) : Z :=
  add32 (add32 (add32 (sigma1 (nth 14 win 0)) (nth 9 win 0)) (sigma0 (nth 1 win 0))) (nth 0 win 0).
Fixpoint schedule (n : nat) (win : list Z) : list Z :=
  match n with
  | O => win
  | S n' => nth 0 win 0 :: schedule n' (tl win ++ [next win])
  end.

Definition step (v : vars) (kw : Z * Z) : vars :=
  let '(mkvars a b c d e f g h) := v in
  let T1 := add32 (add32 (add32 (add32 h (Sigma1 e)) (Ch e f g)) (fst kw)) (snd kw) in
  let T2 := add32 (Sigma0 a) (Maj a b c) in
  mkvars (add32 T1 T2) a b c (add32 d T1) e f g.

(** The 16 words of a block, and the compression function. *)
Definition words (block : bytes) : list Z := map (fun i => be_combine (sub block (4 * i) 4)) (seq 0 16).
Definition compress (H : list Z) (block : bytes) : list Z :=
  let '(mkvars a b c d e f g h) :=
    fold_left step (combine add_constant (schedule 48 (words block))) (vars_of H) in
  map (fun '(x, y) => add32 x y) (combine H [a; b; c; d; e; f; g; h]).

(** Padding to a multiple of 64 bytes, and the blocks in order. *)
Definition pad (msg : bytes) : bytes :=
  let len := Z.of_nat (length msg) in
  msg ++ [0x80] ++ repeat 0 (Z.to_nat ((55 - len) mod 64)) ++ be_split 8 (8 * len).

Fixpoint blocks (n : nat) (bs : bytes) : list bytes :=
  match n with O => [] | S n' => firstn 64 bs :: blocks n' (skipn 64 bs) end.

Definition compress_all (H : list Z) (bs : bytes) : list Z :=
  fold_left compress (blocks (length bs / 64) bs) H.

Definition sha256 (msg : bytes) : bytes :=
  flat_map (be_split 4) (compress_all initial_message_digest (pad msg)).
End Fips.

(** ** Words *)

Abbreviation is_word := (urange 32).

Lemma mask_32bit_mod x : mask_32bit x = x mod 2 ^ 32.
Proof. unfold mask_32bit. change 0xffffffff with (Z.ones 32). now apply Z.land_ones. Qed.

Lemma u64_mod32 x : u64 x mod 2 ^ 32 = x mod 2 ^ 32.
Proof. unfold uwrap. apply Z.mod_mod_divide. exists (2 ^ 32). reflexivity. Qed.

Lemma mask_u64 x : mask_32bit (u64 x) = x mod 2 ^ 32.
Proof. rewrite mask_32bit_mod. apply u64_mod32. Qed.

Lemma word_bits x : 0 <= x -> is_word x <-> forall i, 32 <= i -> Z.testbit x i = false.
Proof.
  intros Hx. split.
  - intros Hw i Hi. rewrite <- (Z.mod_small x (2 ^ 32)) by exact Hw. now apply Z.mod_pow2_bits_high.
  - intros H. unfold urange. replace x with (x mod 2 ^ 32); [apply Z.mod_pos_bound; reflexivity|].
    apply Z.bits_inj'. intros i Hi. destruct (Z.lt_ge_cases i 32).
    + now apply Z.mod_pow2_bits_low.
    + now rewrite Z.mod_pow2_bits_high, H by lia.
Qed.

Lemma word_lxor x y : is_word x -> is_word y -> is_word (Z.lxor x y).
Proof.
  intros Hx Hy. pose proof Hx as [Hx0 _]. pose proof Hy as [Hy0 _].
  apply word_bits; [apply Z.lxor_nonneg; lia|]. intros i Hi.
  rewrite Z.lxor_spec. now rewrite (proj1 (word_bits x Hx0) Hx), (proj1 (word_bits y Hy0) Hy).
Qed.

Lemma word_land x y : 0 <= x -> is_word y -> is_word (Z.land x y).
Proof.
  intros Hx0 Hy. pose proof Hy as [Hy0 _].
  apply word_bits; [apply Z.land_nonneg; lia|]. intros i Hi.
  rewrite Z.land_spec, (proj1 (word_bits y Hy0) Hy) by easy. apply Bool.andb_false_r.
Qed.

Lemma word_shiftr x n : 0 <= n -> is_word x -> is_word (Z.shiftr x n).
Proof.
  intros Hn Hx. pose proof Hx as [Hx0 _]. apply word_bits; [now apply Z.shiftr_nonneg|]. intros i Hi.
  rewrite Z.shiftr_spec by lia. apply (proj1 (word_bits x Hx0) Hx). lia.
Qed.

Lemma word_mod x : is_word (x mod 2 ^ 32).
Proof. apply Z.mod_pos_bound. reflexivity. Qed.

(** The code's functions are the standard's, on words. *)

Lemma rotr_ok x n : is_word x -> 0 <= n < 32 -> rotr x n = Fips.ROTR n x /\ is_word (rotr x n).
Proof.
  intros Hx Hn. split; [|unfold rotr; rewrite mask_32bit_mod; apply word_mod].
  unfold rotr, Fips.ROTR, mask_32bit. rewrite Z.land_lor_distr_l.
  change (Z.land (Z.shiftr x n) 0xffffffff) with (mask_32bit (Z.shiftr x n)).
  change (Z.land (u64 (Z.shiftl x (32 - n))) 0xffffffff) with (mask_32bit (u64 (Z.shiftl x (32 - n)))).
  rewrite mask_u64, mask_32bit_mod. f_equal. apply Z.mod_small. apply word_shiftr; [lia|easy].
Qed.

Lemma ch_ok x y z : is_word x -> is_word y -> is_word z -> ch x y z = Fips.Ch x y z /\ is_word (ch x y z).
Proof.
  intros Hx Hy Hz. pose proof Hx as [Hx0 _]. pose proof Hz as [Hz0 _]. split.
  - unfold ch, Fips.Ch. f_equal. apply Z.bits_inj'. intros i Hi. rewrite !Z.land_spec. unfold uwrap.
    destruct (Z.lt_ge_cases i 32); [now rewrite Z.mod_pow2_bits_low by lia|].
    now rewrite (proj1 (word_bits z Hz0) Hz), !Bool.andb_false_r.
  - unfold ch. apply word_lxor; apply word_land; try easy. exact (proj1 (uwrap_range 64 _ ltac:(lia))).
Qed.

Lemma maj_ok x y z : is_word x -> is_word y -> is_word z -> maj x y z = Fips.Maj x y z /\ is_word (maj x y z).
Proof.
  intros Hx Hy Hz. split; [reflexivity|]. unfold maj.
  repeat apply word_lxor; apply word_land; try easy; apply Hx || apply Hy.
Qed.

Ltac sigma := intros; split;
  [f_equal; [f_equal|..]; solve [reflexivity|apply rotr_ok; [easy|lia]]
  |repeat apply word_lxor; solve [apply rotr_ok; [easy|lia]|apply word_shiftr; [lia|easy]]].

Lemma bsig0_ok x : is_word x -> bsig0 x = Fips.Sigma0 x /\ is_word (bsig0 x).
Proof. unfold bsig0, Fips.Sigma0. sigma. Qed.
Lemma bsig1_ok x : is_word x -> bsig1 x = Fips.Sigma1 x /\ is_word (bsig1 x).
Proof. unfold bsig1, Fips.Sigma1. sigma. Qed.
Lemma ssig0_ok x : is_word x -> ssig0 x = Fips.sigma0 x /\ is_word (ssig0 x).
Proof. unfold ssig0, Fips.sigma0, shr. sigma. Qed.
Lemma ssig1_ok x : is_word x -> ssig1 x = Fips.sigma1 x /\ is_word (ssig1 x).
Proof. unfold ssig1, Fips.sigma1, shr. sigma. Qed.

(** Sums: 64-bit accumulation and one mask is addition modulo [2^32]. *)
Lemma add32_l x y : Fips.add32 (x mod 2 ^ 32) y = (x + y) mod 2 ^ 32.
Proof. unfold Fips.add32. apply Z.add_mod_idemp_l. vm_compute. congruence. Qed.

Lemma add_mod32 x y : (x mod 2 ^ 32 + y mod 2 ^ 32) mod 2 ^ 32 = (x + y) mod 2 ^ 32.
Proof. symmetry. apply Z.add_mod. vm_compute. congruence. Qed.

Lemma mask_add_u64_r x y : mask_32bit (u64 (x + u64 y)) = (x + y) mod 2 ^ 32.
Proof. now rewrite mask_u64, <- add_mod32, u64_mod32, add_mod32. Qed.

Lemma mask_add_u64 x y : mask_32bit (u64 (u64 x + u64 y)) = (x + y) mod 2 ^ 32.
Proof. now rewrite mask_u64, <- add_mod32, !u64_mod32, add_mod32. Qed.

Lemma add32_4 a b c d : Fips.add32 (Fips.add32 (Fips.add32 a b) c) d = (a + b + c + d) mod 2 ^ 32.
Proof. unfold Fips.add32 at 3. now rewrite !add32_l. Qed.

Lemma add32_5 a b c d e : Fips.add32 (Fips.add32 (Fips.add32 (Fips.add32 a b) c) d) e = (a + b + c + d + e) mod 2 ^ 32.
Proof. unfold Fips.add32 at 4. now rewrite !add32_l. Qed.

(** ** The compression function *)

Lemma nth_word w i : Forall is_word w -> is_word (nth i w 0).
Proof.
  intros H. destruct (Nat.lt_ge_cases i (length w)) as [Hi|Hi].
  - rewrite Forall_forall in H. apply H. now apply nth_In.
  - rewrite nth_overflow by easy. split; [lia|reflexivity].
Qed.

Lemma load_word_ok block i : bytes_ok block -> (4 * i + 4 <= length block)%nat ->
  load_word block i = be_combine (sub block (4 * i) 4).
Proof.
  intros Hb Hi. unfold load_word.
  assert (E : sub block (4 * i) 4 = [nth (i * 4) block 0; nth (i * 4 + 1) block 0; nth (i * 4 + 2) block 0; nth (i * 4 + 3) block 0]).
  { apply nth_ext with (d := 0) (d' := 0); [rewrite sub_length by lia; easy|]. intros k Hk. rewrite sub_length in Hk by lia.
    unfold sub. rewrite nth_firstn, nth_skipn. destruct (Nat.ltb_spec k 4); [|lia]. 
    replace (4 * i + k)%nat with (i * 4 + k)%nat by lia.
    do 4 (destruct k as [|k]; [now rewrite ?Nat.add_0_r|]). lia. }
  rewrite E. assert (Hn : forall k, 0 <= nth k block 0 < 256).
  { intros k. destruct (Nat.lt_ge_cases k (length block)); [|rewrite nth_overflow by easy; lia].
    unfold bytes_ok in Hb. rewrite Forall_forall in Hb. apply Hb. now apply nth_In. }
  assert (Hm : forall x, 0 <= x < 256 -> mask_8bit x = x).
  { intros x Hx. unfold mask_8bit. change 0xff with (Z.ones 8). rewrite Z.land_ones by lia. apply Z.mod_small. easy. }
  rewrite !Hm by apply Hn.
  pose proof (Hn (i * 4)%nat) as H0. pose proof (Hn (i * 4 + 1)%nat) as H1.
  pose proof (Hn (i * 4 + 2)%nat) as H2. pose proof (Hn (i * 4 + 3)%nat) as H3.
  set (b0 := nth (i * 4) block 0) in *. set (b1 := nth (i * 4 + 1) block 0) in *.
  set (b2 := nth (i * 4 + 2) block 0) in *. set (b3 := nth (i * 4 + 3) block 0) in *.
  clearbody b0 b1 b2 b3. clear - H0 H1 H2 H3.
  assert (L : forall x y n, 0 <= n -> 0 <= y < 2 ^ n -> Z.lor (Z.shiftl x n) y = Z.shiftl x n + y).
  { intros x y n Hn Hy. apply Z.add_nocarry_lt_pow2 || idtac. symmetry. rewrite <- Z.lxor_lor, <- Z.add_nocarry_lxor; try easy.
    all: apply Z.bits_inj'; intros k Hk; rewrite Z.land_spec, Z.bits_0; destruct (Z.lt_ge_cases k n).
    all: try (now rewrite Z.shiftl_spec_low by easy).
    all: rewrite <- (Z.mod_small y (2 ^ n) Hy), Z.mod_pow2_bits_high by lia; apply Bool.andb_false_r. }
  rewrite <- !Z.lor_assoc. rewrite (L b2 b3 8) by (change (2 ^ 8) with 256; lia).
  rewrite (L b1 _ 16) by (rewrite ?Z.shiftl_mul_pow2 by lia; change (2 ^ 8) with 256; change (2 ^ 16) with 65536; lia).
  rewrite (L b0 _ 24) by (rewrite ?Z.shiftl_mul_pow2 by lia; change (2 ^ 8) with 256; change (2 ^ 16) with 65536; change (2 ^ 24) with 16777216; lia).
  rewrite !Z.shiftl_mul_pow2 by lia. unfold be_combine. cbn [rev app le_combine].
  change (2 ^ 8) with 256; change (2 ^ 16) with 65536; change (2 ^ 24) with 16777216. ring.
Qed.

Lemma words_ok block : length block = 64%nat -> bytes_ok block ->
  map (load_word block) (seq 0 16) = Fips.words block /\ Forall is_word (Fips.words block).
Proof.
  intros Hl Hb. split.
  - apply map_ext_in. intros i Hi. apply in_seq in Hi. apply load_word_ok; [easy|lia].
  - unfold Fips.words. apply Forall_forall. intros x Hx. apply in_map_iff in Hx as (i & <- & Hi). apply in_seq in Hi.
    pose proof (be_combine_range (sub block (4 * i) 4)) as R. rewrite sub_length in R by lia. apply R.
    unfold sub. now apply Forall_firstn', Forall_skipn'.
Qed.

Lemma next_ok win : Forall is_word win ->
  mask_32bit (u64 (ssig1 (nth 14 win 0) + nth 9 win 0 + ssig0 (nth 1 win 0) + nth 0 win 0)) = Fips.next win.
Proof.
  intros H. unfold Fips.next. rewrite mask_u64, (proj1 (ssig1_ok _ (nth_word win 14 H))), (proj1 (ssig0_ok _ (nth_word win 1 H))).
  symmetry. apply add32_4.
Qed.

(** The array the code fills is the standard's stream. *)
Lemma expand_schedule n : forall pre win, length win = 16%nat -> Forall is_word win ->
  expand_w n (pre ++ win) = pre ++ Fips.schedule n win.
Proof.
  induction n as [|n IH]; intros pre win Hl Hw; [easy|]. cbn [expand_w Fips.schedule].
  destruct win as [|w0 win]; [discriminate|]. cbn [tl nth].
  assert (Hnth : forall k, (k <= 16)%nat -> (0 < k)%nat ->
    nth (length (pre ++ w0 :: win) - k) (pre ++ w0 :: win) 0 = nth (16 - k) (w0 :: win) 0).
  { intros k Hk Hk0. rewrite length_app, Hl, app_nth2 by lia. f_equal. lia. }
  rewrite !Hnth by lia. cbn [Nat.sub]. rewrite next_ok by easy.
  replace ((pre ++ w0 :: win) ++ [Fips.next (w0 :: win)]) with ((pre ++ [w0]) ++ (win ++ [Fips.next (w0 :: win)]))
    by (rewrite <- !app_assoc; reflexivity).
  rewrite IH, <- app_assoc; [reflexivity| |].
  - rewrite length_app. cbn [length] in *. lia.
  - apply Forall_app. split; [now inversion Hw|]. repeat constructor; apply word_mod.
Qed.

Lemma schedule_words n : forall win, length win = 16%nat -> Forall is_word win ->
  Forall is_word (Fips.schedule n win) /\ length (Fips.schedule n win) = (n + 16)%nat.
Proof.
  induction n as [|n IH]; intros win Hl Hw; [easy|]. cbn [Fips.schedule].
  destruct win as [|w0 win]; [discriminate|]. cbn [tl nth length] in *.
  destruct (IH (win ++ [Fips.next (w0 :: win)])) as [IH1 IH2].
  - rewrite length_app. cbn [length]. lia.
  - apply Forall_app. split; [now inversion Hw|]. repeat constructor; apply word_mod.
  - split; [constructor; [now inversion Hw|easy]|lia].
Qed.

Definition vars_ok (v : vars) : Prop :=
  let '(mkvars a b c d e f g h) := v in Forall is_word [a; b; c; d; e; f; g; h].

Lemma round_ok w v i : vars_ok v -> round w v i = Fips.step v (nth i add_constant 0, nth i w 0) /\ vars_ok (round w v i).
Proof.
  destruct v as [a b c d e f g h]. unfold vars_ok, round, Fips.step. intros H.
  repeat match goal with H : Forall _ (_ :: _) |- _ => inversion H; clear H; subst end.
  destruct (bsig1_ok e) as [E1 _], (ch_ok e f g) as [E2 _], (bsig0_ok a) as [E3 _], (maj_ok a b c) as [E4 _]; try easy.
  rewrite E1, E2, E3, E4. cbn [fst snd]. rewrite (add32_5 h). split.
  - f_equal.
    + rewrite mask_add_u64. unfold Fips.add32. now rewrite add_mod32.
    + rewrite mask_add_u64_r. unfold Fips.add32. symmetry. apply Z.add_mod_idemp_r. vm_compute. congruence.
  - repeat (apply Forall_cons; [solve [easy|rewrite mask_u64; apply word_mod]|]). apply Forall_nil.
Qed.

Lemma rounds_ok : forall n i w v, vars_ok v -> (i + n <= 64)%nat -> length w = 64%nat ->
  fold_left (round w) (seq i n) v = fold_left Fips.step (combine (firstn n (skipn i add_constant)) (firstn n (skipn i w))) v /\
  vars_ok (fold_left (round w) (seq i n) v).
Proof.
  assert (Hskip : forall (l : list Z) i n, (i < length l)%nat -> firstn (S n) (skipn i l) = nth i l 0 :: firstn n (skipn (S i) l)).
  { induction l as [|x l IH]; intros [|i] n Hi; cbn [length] in Hi; [lia|lia|easy|]. cbn [skipn nth]. apply IH. lia. }
  induction n as [|n IH]; intros i w v Hv Hi Hw; [easy|].
  assert (Hk : length add_constant = 64%nat) by reflexivity.
  cbn [seq fold_left]. rewrite !Hskip by lia. cbn [combine fold_left].
  destruct (round_ok w v i Hv) as [E Hv']. rewrite <- E. apply IH; [easy|lia|easy].
Qed.

Definition digest_ok (h : list Z) : Prop := length h = 8%nat /\ Forall is_word h.

Lemma vars_of_ok h : digest_ok h -> vars_ok (vars_of h).
Proof. intros [_ H]. unfold vars_of, vars_ok. repeat (apply Forall_cons; [now apply nth_word|]). apply Forall_nil. Qed.

Lemma add_digest_ok h v : digest_ok h -> vars_ok v ->
  add_digest h v = (let '(mkvars a b c d e f g h') := v in map (fun '(x, y) => Fips.add32 x y) (combine h [a; b; c; d; e; f; g; h'])) /\
  digest_ok (add_digest h v).
Proof.
  intros [Hl Hw] Hv. destruct v as [a b c d e f g h']. unfold add_digest.
  do 8 (destruct h as [|? h]; [discriminate|]). destruct h; [|discriminate]. cbn [combine map].
  rewrite !mask_u64. unfold Fips.add32. split; [reflexivity|]. split; [reflexivity|].
  repeat (apply Forall_cons; [apply word_mod|]). apply Forall_nil.
Qed.

Lemma rounds_all w v : vars_ok v -> length w = 64%nat ->
  fold_left (round w) (seq 0 64) v = fold_left Fips.step (combine add_constant w) v /\
  vars_ok (fold_left (round w) (seq 0 64) v).
Proof.
  intros Hv Hw. destruct (rounds_ok 64 0 w v Hv (Nat.le_refl 64) Hw) as [E Hok]. split; [|exact Hok].
  rewrite E, !skipn_O, !firstn_all2; [reflexivity|rewrite Hw; apply Nat.le_refl|apply Nat.le_refl].
Qed.

Lemma words_length block : length (Fips.words block) = 16%nat.
Proof. unfold Fips.words. now rewrite length_map, length_seq. Qed.

(** One block. *)
Lemma hash256_block_ok h block : digest_ok h -> length block = 64%nat -> bytes_ok block ->
  hash256_block h block = Fips.compress h block /\ digest_ok (hash256_block h block).
Proof.
  intros Hh Hl Hb. unfold hash256_block, Fips.compress. destruct (words_ok block Hl Hb) as [E Hw]. rewrite E.
  pose proof (words_length block) as Hlen.
  pose proof (expand_schedule 48 [] _ Hlen Hw) as Ex. rewrite !app_nil_l in Ex. rewrite Ex.
  destruct (schedule_words 48 _ Hlen Hw) as [_ Hs]. set (w := Fips.schedule 48 (Fips.words block)) in *. clearbody w.
  destruct (rounds_all w (vars_of h) (vars_of_ok h Hh) Hs) as [Er Hv]. rewrite Er in *.
  destruct (add_digest_ok h _ Hh Hv) as [Ea Hd]. split; [exact Ea|exact Hd].
Qed.

(** ** The hasher: what its state stands for *)

Lemma blocks_app n : forall xs ys, length xs = (64 * n)%nat -> forall m,
  Fips.blocks (n + m) (xs ++ ys) = Fips.blocks n xs ++ Fips.blocks m ys.
Proof.
  induction n as [|n IH]; intros xs ys Hl m.
  - destruct xs; [easy|discriminate].
  - cbn [Nat.add Fips.blocks app]. rewrite firstn_app, skipn_app.
    replace (64 - length xs)%nat with 0%nat by lia. rewrite firstn_O, skipn_O, app_nil_r, IH; [easy|].
    rewrite length_skipn. lia.
Qed.

Lemma compress_all_app h xs ys : (exists n, length xs = 64 * n)%nat ->
  Fips.compress_all h (xs ++ ys) = Fips.compress_all (Fips.compress_all h xs) ys.
Proof.
  intros [n Hn]. unfold Fips.compress_all. rewrite length_app, Hn.
  replace ((64 * n + length ys) / 64)%nat with (n + length ys / 64)%nat by (rewrite (Nat.mul_comm 64), Nat.div_add_l; lia).
  rewrite blocks_app by easy. rewrite (Nat.mul_comm 64), Nat.div_mul by lia. apply fold_left_app.
Qed.

Lemma compress_all_block h bs : length bs = 64%nat -> Fips.compress_all h bs = Fips.compress h bs.
Proof.
  intros H. unfold Fips.compress_all. rewrite H. change (64 / 64)%nat with 1%nat. cbn [Fips.blocks fold_left].
  rewrite firstn_all2; [reflexivity|rewrite H; apply Nat.le_refl].
Qed.

Lemma firstn_plus {A} a b (l : list A) : firstn (a + b) l = firstn a l ++ firstn b (skipn a l).
Proof.
  revert l. induction a as [|a IH]; intros l; [easy|]. destruct l as [|x l]; [cbn [skipn Nat.add firstn]; now rewrite firstn_nil|].
  cbn [Nat.add firstn skipn app]. now rewrite IH.
Qed.

(** The block loop compresses the complete blocks from index [i] on. *)
Lemma process_blocks_ok buffer : bytes_ok buffer -> forall fuel i h, digest_ok h ->
  (i <= length buffer)%nat -> ((length buffer - i) / 64 <= fuel)%nat ->
  exists k h', process_blocks fuel buffer i h = ((i + 64 * k)%nat, h') /\ digest_ok h' /\
    (i + 64 * k <= length buffer < i + 64 * k + 64)%nat /\
    h' = Fips.compress_all h (firstn (64 * k) (skipn i buffer)).
Proof.
  intros Hb. induction fuel as [|fuel IH]; intros i h Hh Hi Hf.
  - exists 0%nat, h. cbn [process_blocks]. pose proof (Nat.div_str_pos (length buffer - i) 64).
    split; [f_equal; lia|]. split; [easy|]. split; [|reflexivity].
    destruct (Nat.lt_ge_cases (length buffer - i) 64); [lia|].
    assert (1 <= (length buffer - i) / 64)%nat by (apply Nat.div_str_pos; lia). lia.
  - cbn [process_blocks]. destruct (Nat.leb_spec (i + 64) (length buffer)) as [Hle|Hgt].
    + assert (Hs : length (sub buffer i 64) = 64%nat) by (apply sub_length; lia).
      destruct (hash256_block_ok h (sub buffer i 64) Hh Hs) as [E Hd].
      { unfold sub. now apply Forall_firstn', Forall_skipn'. }
      destruct (IH (i + 64)%nat (hash256_block h (sub buffer i 64)) Hd ltac:(lia)) as (k & h' & E1 & Hd' & Hk & Eh').
      { replace (length buffer - i)%nat with (1 * 64 + (length buffer - (i + 64)))%nat in Hf by lia. rewrite Nat.div_add_l in Hf by lia. lia. }
      exists (S k), h'. split; [rewrite E1; f_equal; lia|]. split; [easy|]. split; [lia|]. rewrite Eh', E.
      replace (64 * S k)%nat with (64 + 64 * k)%nat by lia.
      assert (Es : firstn (64 + 64 * k) (skipn i buffer) = sub buffer i 64 ++ firstn (64 * k) (skipn (i + 64) buffer)).
      { unfold sub. rewrite firstn_plus, skipn_skipn, (Nat.add_comm 64 i). reflexivity. }
      rewrite Es, compress_all_app by (exists 1%nat; lia). rewrite (compress_all_block h _ Hs). reflexivity.
    + exists 0%nat, h. split; [f_equal; lia|]. split; [easy|]. split; [lia|reflexivity].
Qed.

(** The state after hashing [msg]. *)
Fixpoint digits_value (ds : list Z) : Z :=
  match ds with [] => 0 | d :: rest => d + 65536 * digits_value rest end.

Definition digits_ok (ds : list Z) : Prop := Forall (fun d => 0 <= d < 65536) ds.

Record represents (s : hash256_one_by_one) (msg : bytes) : Prop := {
  rep_len : length (data_length_digits_ s) = 4%nat;
  rep_digits : digits_ok (data_length_digits_ s);
  rep_value : digits_value (data_length_digits_ s) = Z.of_nat (length msg);
  rep_split : exists full, msg = full ++ buffer_ s /\ (exists n, length full = 64 * n)%nat /\
                h_ s = Fips.compress_all initial_message_digest full;
  rep_buffer : (length (buffer_ s) < 64)%nat;
  rep_h : digest_ok (h_ s);
}.

Lemma init_represents : represents init [].
Proof.
  split; try easy; [repeat constructor; lia| |cbn; lia|].
  - exists []. split; [easy|]. split; [now exists 0%nat|reflexivity].
  - split; [easy|]. repeat (apply Forall_cons; [split; [vm_compute; congruence|reflexivity]|]). apply Forall_nil.
Qed.

Lemma add_carry_cons d rest c : add_carry (d :: rest) c =
  if 65536 <=? u64 (d + c) then Z.land (u64 (d + c)) 65535 :: add_carry rest (Z.shiftr (u64 (d + c)) 16) else u64 (d + c) :: rest.
Proof. reflexivity. Qed.

Lemma add_carry_ok rest : forall d c, digits_ok rest -> 0 <= d -> 0 <= c -> d + c < 2 ^ 64 ->
  d + c + 65536 * digits_value rest < 65536 ^ Z.of_nat (S (length rest)) ->
  digits_ok (add_carry (d :: rest) c) /\ digits_value (add_carry (d :: rest) c) = d + c + 65536 * digits_value rest /\
  length (add_carry (d :: rest) c) = S (length rest).
Proof.
  induction rest as [|r rest IH]; intros d c Hr Hd Hc H64 Hlt; rewrite add_carry_cons, u64_id by lia.
  - cbn [digits_value length] in *. change (65536 ^ Z.of_nat 1) with 65536 in Hlt.
    destruct (Z.leb_spec 65536 (d + c)); [lia|]. cbn [digits_value length]. split; [repeat constructor; lia|]. split; [lia|easy].
  - destruct (Z.leb_spec 65536 (d + c)) as [Hge|Hs].
    + inversion Hr as [|? ? Hr1 Hr2]; subst. change 65535 with (Z.ones 16). rewrite Z.land_ones, Z.shiftr_div_pow2 by lia.
      change (2 ^ 16) with 65536. cbn [digits_value] in Hlt.
      pose proof (Z.div_mod (d + c) 65536 ltac:(lia)) as E. pose proof (Z.mod_pos_bound (d + c) 65536 ltac:(lia)).
      pose proof (Z.div_pos (d + c) 65536 ltac:(lia) ltac:(lia)).
      destruct (IH r ((d + c) / 65536) Hr2 ltac:(lia) ltac:(lia)) as (I1 & I2 & I3); [lia| |].
      { rewrite (Nat2Z.inj_succ (length (r :: rest))), Z.pow_succ_r in Hlt by lia. cbn [length] in Hlt. lia. }
      split; [now constructor|]. cbn [digits_value length]. split; [rewrite I2; lia|]. now rewrite I3.
    + split; [constructor; [lia|easy]|]. cbn [digits_value length]. split; [lia|easy].
Qed.

Lemma digits_value_nonneg ds : digits_ok ds -> 0 <= digits_value ds < 65536 ^ Z.of_nat (length ds).
Proof.
  induction 1 as [|d ds Hd _ IH]; [cbn; lia|]. cbn [digits_value length]. rewrite Nat2Z.inj_succ, Z.pow_succ_r by lia. lia.
Qed.

Lemma add_to_data_length_ok ds n : length ds = 4%nat -> digits_ok ds -> 0 <= n -> digits_value ds + n < 2 ^ 64 ->
  digits_ok (add_to_data_length ds n) /\ digits_value (add_to_data_length ds n) = digits_value ds + n /\
  length (add_to_data_length ds n) = 4%nat.
Proof.
  intros Hl Hok Hn H. destruct ds as [|d rest]; [discriminate|]. cbn [add_to_data_length].
  inversion Hok as [|? ? Hd Hr]; subst. pose proof (digits_value_nonneg rest Hr). cbn [digits_value length] in *.
  rewrite u64_id by lia. injection Hl as Hl.
  destruct (add_carry_ok rest (d + n) 0 Hr) as (A1 & A2 & A3); try lia.
  - rewrite Hl. change (65536 ^ Z.of_nat 4) with (2 ^ 64). lia.
  - split; [easy|]. rewrite A2, A3. split; lia.
Qed.

(** Streaming: [process] extends the message the state stands for. *)
Lemma process_represents s msg data : represents s msg -> bytes_ok msg -> bytes_ok data ->
  Z.of_nat (length (msg ++ data)) < 2 ^ 61 -> represents (process s data) (msg ++ data).
Proof.
  intros [R1 R2 R3 (full & Em & Hf & Eh) R5 R6] Hm Hd Hlen. rewrite length_app in Hlen. unfold process.
  rewrite u64_id by lia.
  destruct (add_to_data_length_ok _ (Z.of_nat (length data)) R1 R2) as (A1 & A2 & A3); [lia|lia|].
  assert (Hb : bytes_ok (buffer_ s ++ data)).
  { apply Forall_app. split; [|easy]. rewrite Em in Hm. now apply Forall_app in Hm. }
  destruct (process_blocks_ok _ Hb (length (buffer_ s ++ data) / 64) 0 (h_ s) R6) as (k & h' & E & Hd' & Hk & Eh'); [lia|now rewrite Nat.sub_0_r|].
  rewrite E. cbn [Nat.add] in *. rewrite skipn_O in Eh'. split; cbn [buffer_ data_length_digits_ h_]; try easy.
  - rewrite A2, R3, length_app. lia.
  - exists (full ++ firstn (64 * k) (buffer_ s ++ data)). split; [|split].
    + rewrite <- app_assoc, firstn_skipn, Em, <- app_assoc. reflexivity.
    + destruct Hf as [n Hn]. exists (n + k)%nat. rewrite length_app, length_firstn. lia.
    + rewrite compress_all_app, <- Eh by exact Hf. exact Eh'.
  - rewrite length_skipn. lia.
Qed.

(** *** The length field *)

Lemma shift3_ok ds : forall c, digits_ok ds -> 0 <= c < 8 ->
  digits_ok (shift3 ds c) /\ length (shift3 ds c) = length ds /\
  digits_value (shift3 ds c) = (8 * digits_value ds + c) mod 65536 ^ Z.of_nat (length ds).
Proof.
  induction ds as [|d ds IH]; intros c Hok Hc; [cbn; now rewrite Z.mod_1_r|].
  inversion Hok as [|? ? Hd Hr]; subst. cbn [shift3]. rewrite Z.shiftl_mul_pow2 by lia. change (2 ^ 3) with 8.
  rewrite u64_id by lia. change 65535 with (Z.ones 16). rewrite !Z.land_ones, Z.shiftr_div_pow2 by lia.
  change (2 ^ (16 - 3)) with 8192. change (2 ^ 16) with 65536.
  assert (El : Z.lor (d * 8) c = 8 * d + c).
  { rewrite <- Z.add_nocarry_lxor || idtac. transitivity (d * 8 + c); [|lia].
    rewrite <- (Z.lxor_lor (d * 8) c), <- Z.add_nocarry_lxor; try easy.
    all: apply Z.bits_inj'; intros i Hi; rewrite Z.land_spec, Z.bits_0; change 8 with (2 ^ 3).
    all: rewrite <- (Z.shiftl_mul_pow2 d 3) by lia; destruct (Z.lt_ge_cases i 3).
    all: try (now rewrite Z.shiftl_spec_low by easy).
    all: rewrite <- (Z.mod_small c (2 ^ 3) Hc), Z.mod_pow2_bits_high by lia; apply Bool.andb_false_r. }
  rewrite El. pose proof (Z.div_mod d 8192 ltac:(lia)) as E1. pose proof (Z.mod_pos_bound d 8192 ltac:(lia)).
  assert (Hq : 0 <= d / 8192 < 8) by lia. rewrite (Z.mod_small (d / 8192)) by lia.
  destruct (IH (d / 8192) Hr Hq) as (I1 & I2 & I3).
  assert (Em : (8 * d + c) mod 65536 = 8 * d + c - 65536 * (d / 8192)) by (symmetry; apply (Z.mod_unique_pos _ _ (d / 8192)); lia).
  split; [constructor; [lia|easy]|]. cbn [length digits_value]. split; [now rewrite I2|].
  rewrite I3, Em, Nat2Z.inj_succ, Z.pow_succ_r by lia. set (M := 65536 ^ Z.of_nat (length ds)).
  assert (HM : 0 < M) by (apply Z.pow_pos_nonneg; lia). set (y := 8 * digits_value ds + d / 8192).
  pose proof (Z.div_mod y M ltac:(lia)). pose proof (Z.mod_pos_bound y M HM).
  apply (Z.mod_unique_pos _ _ (y / M)); [lia|]. subst y. nia.
Qed.

Lemma digits_bytes ds : digits_ok ds ->
  flat_map (fun d => [u8 (Z.shiftr d 8); u8 d]) (rev ds) = be_split (2 * length ds) (digits_value ds).
Proof.
  unfold be_split. induction 1 as [|d ds Hd _ IH]; [easy|]. cbn [rev length digits_value].
  replace (2 * S (length ds))%nat with (S (S (2 * length ds))) by lia. cbn [le_split rev].
  rewrite flat_map_app, IH. cbn [flat_map app]. rewrite <- !app_assoc. cbn [app].
  rewrite Z.shiftr_div_pow2 by lia. change (2 ^ 8) with 256. unfold uwrap. change (2 ^ 8) with 256.
  pose proof (Z.div_mod d 256 ltac:(lia)) as E. pose proof (Z.mod_pos_bound d 256 ltac:(lia)).
  set (v := digits_value ds).
  assert (E1 : (d + 65536 * v) / 256 = d / 256 + 256 * v) by (symmetry; apply (Z.div_unique_pos _ _ _ (d mod 256)); lia).
  assert (E2 : (d / 256 + 256 * v) / 256 = v) by (symmetry; apply (Z.div_unique_pos _ _ _ (d / 256)); lia).
  assert (E3 : (d + 65536 * v) mod 256 = d mod 256) by (symmetry; apply (Z.mod_unique_pos _ _ (d / 256 + 256 * v)); lia).
  assert (E4 : (d / 256 + 256 * v) mod 256 = (d / 256) mod 256) by (rewrite Z.mul_comm; apply Z.mod_add; lia).
  now rewrite E1, E2, E3, E4.
Qed.

Lemma write_data_bit_length_ok ds n : length ds = 4%nat -> digits_ok ds -> digits_value ds = n -> n < 2 ^ 61 ->
  write_data_bit_length ds = be_split 8 (8 * n).
Proof.
  intros Hl Hok Hv Hn. destruct (shift3_ok ds 0 Hok ltac:(lia)) as (S1 & S2 & S3).
  unfold write_data_bit_length. rewrite digits_bytes, S3, S2, Hl, Hv by easy.
  pose proof (digits_value_nonneg ds Hok). change (2 * 4)%nat with 8%nat. f_equal.
  change (65536 ^ Z.of_nat 4) with (2 ^ 64). rewrite Z.mod_small; lia.
Qed.

(** *** finish and get_hash_bytes *)

Lemma get_hash_bytes_ok s : Forall is_word (h_ s) -> get_hash_bytes s = flat_map (be_split 4) (h_ s).
Proof.
  unfold get_hash_bytes. induction 1 as [|w h Hw _ IH]; [easy|]. cbn [flat_map]. rewrite IH. f_equal.
  unfold mask_8bit, uwrap. change 255 with (Z.ones 8). cbn [map Z.mul Pos.mul Z.sub Z.opp Z.add Z.pos_sub Pos.pred_double].
  rewrite !Z.land_ones, !Z.mod_mod by (try lia; vm_compute; congruence). rewrite !Z.shiftr_div_pow2 by lia.
  unfold be_split. cbn [le_split rev app]. change (2 ^ 8) with 256. rewrite !Z.div_div by lia.
  change (2 ^ (24 - 0)) with (256 * 256 * 256). change (2 ^ (24 - 8)) with (256 * 256). change (2 ^ (24 - 16)) with 256.
  change (2 ^ (24 - 24)) with 1. rewrite Z.div_1_r. repeat f_equal.
Qed.

Lemma pad_zeros r (full : Z) : 0 <= r < 64 ->
  Z.to_nat ((55 - (64 * full + r)) mod 64) = if r <=? 55 then Z.to_nat (55 - r) else Z.to_nat (119 - r).
Proof.
  intros Hr. destruct (Z.leb_spec r 55); f_equal; symmetry; [apply (Z.mod_unique_pos _ _ (- full))|apply (Z.mod_unique_pos _ _ (- full - 1))]; lia.
Qed.

Lemma finish_ok s msg : represents s msg -> bytes_ok msg -> Z.of_nat (length msg) < 2 ^ 61 ->
  h_ (finish s) = Fips.compress_all initial_message_digest (Fips.pad msg) /\ digest_ok (h_ (finish s)).
Proof.
  intros [R1 R2 R3 (full & Em & [n Hn] & Eh) R5 R6] Hm Hlen.
  assert (Hb : bytes_ok (buffer_ s)) by (rewrite Em in Hm; now apply Forall_app in Hm).
  pose proof (write_data_bit_length_ok _ _ R1 R2 R3 Hlen) as Ew.
  unfold finish, Fips.pad. rewrite Ew. clear Ew. set (lens := be_split 8 _).
  assert (Hlens : length lens = 8%nat /\ bytes_ok lens) by (split; [apply be_split_length|apply be_split_ok]).
  replace (Z.of_nat (length msg)) with (64 * Z.of_nat n + Z.of_nat (length (buffer_ s))) by (rewrite Em, length_app; lia).
  rewrite pad_zeros by lia. rewrite Em, <- (app_assoc full), compress_all_app, <- Eh by now exists n.
  clear Em Eh Hn Hm Hlen R1 R2 R3. set (buf := buffer_ s) in *. set (r := length buf) in *. clearbody lens.
  assert (Hz : forall m, bytes_ok (repeat 0 m)) by (intros m; apply Forall_forall; intros x Hx; apply repeat_spec in Hx; subst x; split; lia).
  assert (H80 : bytes_ok [0x80]) by (repeat constructor; lia). destruct Hlens as [Hl8 Hlb].
  assert (Hbk : forall a, bytes_ok (buf ++ [0x80] ++ repeat 0 a ++ lens))
    by (intros a; repeat (apply Forall_app; split); first [assumption|apply Hz]).
  destruct (Nat.ltb_spec 55 r) as [Hlt|Hge]; destruct (Z.leb_spec (Z.of_nat r) 55); try lia; cbn [h_].
  - assert (Ht1 : length ((buf ++ [0x80]) ++ repeat 0 (64 - (r + 1))) = 64%nat) by (rewrite !length_app, repeat_length; cbn [length]; lia).
    assert (Hb1 : bytes_ok ((buf ++ [0x80]) ++ repeat 0 (64 - (r + 1)))) by (repeat (apply Forall_app; split); first [assumption|apply Hz]).
    assert (Et2 : firstn 56 (repeat 0 (64 - 4)) = repeat 0 56) by reflexivity. rewrite Et2.
    assert (Ht2 : length (repeat 0 56 ++ lens) = 64%nat) by (rewrite length_app, repeat_length, Hl8; reflexivity).
    assert (Hb2 : bytes_ok (repeat 0 56 ++ lens)) by (apply Forall_app; split; [apply Hz|assumption]).
    destruct (hash256_block_ok (h_ s) _ R6 Ht1 Hb1) as [E1 D1]. destruct (hash256_block_ok _ _ D1 Ht2 Hb2) as [E2 D2].
    split; [|exact D2]. rewrite E2, E1.
    replace (buf ++ [0x80] ++ repeat 0 (Z.to_nat (119 - Z.of_nat r)) ++ lens) with
      (((buf ++ [0x80]) ++ repeat 0 (64 - (r + 1))) ++ (repeat 0 56 ++ lens)).
    + rewrite compress_all_app by (exists 1%nat; lia). rewrite !compress_all_block by assumption. reflexivity.
    + replace (Z.to_nat (119 - Z.of_nat r)) with ((64 - (r + 1)) + 56)%nat by lia. rewrite repeat_app, <- !app_assoc. reflexivity.
  - assert (Et : firstn 56 ((buf ++ [0x80]) ++ repeat 0 (64 - 4 - (r + 1))) ++ lens = buf ++ [0x80] ++ repeat 0 (Z.to_nat (55 - Z.of_nat r)) ++ lens).
    { replace (64 - 4 - (r + 1))%nat with (Z.to_nat (55 - Z.of_nat r) + 4)%nat by lia. rewrite repeat_app, (app_assoc _ _ (repeat 0 4)), firstn_app.
      replace (56 - length ((buf ++ [0x80%Z]) ++ repeat 0%Z (Z.to_nat (55 - Z.of_nat r))))%nat with 0%nat
        by (rewrite !length_app, repeat_length; cbn [length]; lia).
      rewrite firstn_O, app_nil_r, firstn_all2 by (rewrite !length_app, repeat_length; cbn [length]; lia). now rewrite <- !app_assoc. }
    rewrite Et. assert (Ht : length (buf ++ [0x80] ++ repeat 0 (Z.to_nat (55 - Z.of_nat r)) ++ lens) = 64%nat)
      by (rewrite !length_app, repeat_length, Hl8; cbn [length]; lia).
    destruct (hash256_block_ok (h_ s) _ R6 Ht (Hbk _)) as [E1 D1]. split; [|exact D1]. rewrite E1, compress_all_block by exact Ht. reflexivity.
Qed.

Lemma represents_digest s msg : represents s msg -> bytes_ok msg -> Z.of_nat (length msg) < 2 ^ 61 ->
  get_hash_bytes (finish s) = Fips.sha256 msg.
Proof.
  intros R Hm Hl. destruct (finish_ok s msg R Hm Hl) as [E [_ Hw]]. rewrite get_hash_bytes_ok by exact Hw. now rewrite E.
Qed.

Lemma process_chunks_ok n : (0 < n)%nat -> forall fuel s msg data, represents s msg -> bytes_ok msg -> bytes_ok data ->
  Z.of_nat (length (msg ++ data)) < 2 ^ 61 -> (length data <= fuel)%nat ->
  exists s', process_chunks fuel s data n = Ok s' /\ represents s' (msg ++ data).
Proof.
  intros Hn. induction fuel as [|fuel IH]; intros s msg data R Hm Hd Hl Hf.
  - destruct data; [|cbn [length] in Hf; lia]. exists s. split; [easy|]. now rewrite app_nil_r.
  - destruct data as [|x data]; [exists s; split; [easy|]; now rewrite app_nil_r|]. cbn [process_chunks].
    set (d := x :: data) in *. assert (Hne : (0 < length d)%nat) by (subst d; cbn [length]; lia). clearbody d.
    rewrite length_app in Hl.
    assert (Hf1 : bytes_ok (firstn n d)) by now apply Forall_firstn'.
    assert (Hf2 : bytes_ok (skipn n d)) by now apply Forall_skipn'.
    assert (R' : represents (process s (firstn n d)) (msg ++ firstn n d)).
    { apply process_represents; try easy. rewrite length_app, length_firstn. lia. }
    destruct (IH _ _ (skipn n d) R') as (s' & E & R''); try easy.
    + now apply Forall_app.
    + rewrite !length_app, length_firstn, length_skipn. lia.
    + rewrite length_skipn. lia.
    + exists s'. split; [exact E|]. now rewrite <- app_assoc, firstn_skipn in R''.
Qed.

Lemma process_init msg : bytes_ok msg -> Z.of_nat (length msg) < 2 ^ 61 -> represents (process init msg) msg.
Proof. intros Hm Hl. exact (process_represents init [] msg init_represents (Forall_nil _) Hm Hl). Qed.

(** The digest HashPrime uses. *)
Lemma hash256_fips msg : bytes_ok msg -> Z.of_nat (length msg) < 2 ^ 61 -> hash256 msg = Fips.sha256 msg.
Proof.
  intros Hm Hl. apply represents_digest; [exact (process_init msg Hm Hl)|exact Hm|exact Hl].
Qed.

Lemma sha256_length msg : length (Fips.sha256 msg) = (4 * length (Fips.compress_all initial_message_digest (Fips.pad msg)))%nat.
Proof.
  unfold Fips.sha256. induction (Fips.compress_all _ _) as [|w h IH]; [easy|]. cbn [flat_map length]. rewrite length_app, be_split_length. lia.
Qed.

Lemma hash256_ok msg : bytes_ok msg -> Z.of_nat (length msg) < 2 ^ 61 ->
  length (hash256 msg) = 32%nat /\ bytes_ok (hash256 msg).
Proof.
  intros Hm Hl. rewrite hash256_fips by easy. split.
  - pose proof (process_init msg Hm Hl) as R.
    destruct (finish_ok _ msg R Hm Hl) as [E [Hlen _]]. now rewrite sha256_length, <- E, Hlen.
  - unfold Fips.sha256. induction (Fips.compress_all _ _) as [|w h IH]; [constructor|]. cbn [flat_map].
    apply Forall_app. split; [apply be_split_ok|exact IH].
Qed.

(** C36: the hasher computes SHA-256. On every message shorter
    than 2^61 bytes the digest is the one FIPS 180-4 defines (padding, message
    schedule and compression in 32-bit arithmetic), whether the message is
    processed at once or, for input iterators, through a buffer of any positive
    size; and splitting a message between calls of [process] makes no
    difference. *)
Theorem sha256_correct msg1 msg2 (n : nat) : let msg := msg1 ++ msg2 in
  bytes_ok msg -> Z.of_nat (length msg) < 2 ^ 61 -> (0 < n)%nat ->
  hash256 msg = Fips.sha256 msg /\ hash256_impl_input msg n = Ok (Fips.sha256 msg) /\
  get_hash_bytes (finish (process (process init msg1) msg2)) = Fips.sha256 msg /\
  length (hash256 msg) = 32%nat /\ bytes_ok (hash256 msg).
Proof.
  intros msg Hm Hl Hn. split; [now apply hash256_fips|]. split; [|split; [|now apply hash256_ok]].
  - unfold hash256_impl_input. destruct (process_chunks_ok n Hn (length msg) init [] msg init_represents (Forall_nil _) Hm Hl (Nat.le_refl _)) as (s & -> & R).
    cbn [bind]. f_equal. now apply represents_digest.
  - apply represents_digest; try easy. pose proof Hm as [H1 H2]%Forall_app. subst msg. rewrite length_app in Hl.
    apply process_represents; try easy; [|rewrite length_app; lia].
    apply process_init; [exact H1|lia].
Qed.

Lemma sha256_correct_witness :
  (bytes_ok ([97; 98] ++ [99]) /\ Z.of_nat (length ([97; 98] ++ [99])) < 2 ^ 61 /\ (0 < 2)%nat) /\
  hash256 ([97; 98] ++ [99]) = Fips.sha256 ([97; 98] ++ [99]) /\
  hash256_impl_input ([97; 98] ++ [99]) 2 = Ok (Fips.sha256 ([97; 98] ++ [99])) /\
  get_hash_bytes (finish (process (process init [97; 98]) [99])) = Fips.sha256 ([97; 98] ++ [99]) /\
  length (hash256 ([97; 98] ++ [99])) = 32%nat /\ bytes_ok (hash256 ([97; 98] ++ [99])).
Proof.
  assert (Hb : bytes_ok ([97; 98] ++ [99])) by (repeat (apply Forall_cons; [split; lia|]); apply Forall_nil).
  split; [split; [exact Hb|split; [reflexivity|lia]]|].
  exact (sha256_correct [97; 98] [99] 2 Hb ltac:(reflexivity) ltac:(lia)).
Defined.
