(* ===== verification/Lucas.v ===== *)
(** The number theory behind the Lucas test of [src/src/primetest.h]: Lucas
    sequences, their doubling formulas, and the congruence
    [V_(n+1) = 2 Q (mod n)] that holds for a prime [n] when the discriminant
    [P^2 - 4 Q] is not a square modulo [n], by the Frobenius map of
    Z[sqrt D] modulo [n]. *)
From S2P Require Import Prelude NumTheory.

(** ** Lucas sequences *)

Fixpoint lucas_UU (P Q : Z) (k : nat) : Z * Z :=
  match k with
  | O => (0, 1)
  | S k' => let '(u, u') := lucas_UU P Q k' in (u', P * u' - Q * u)
  end.
Definition lucas_U (P Q : Z) (k : nat) : Z := fst (lucas_UU P Q k).
Definition lucas_V (P Q : Z) (k : nat) : Z := 2 * lucas_U P Q (S k) - P * lucas_U P Q k.

Lemma lucas_UU_eq P Q k : lucas_UU P Q k = (lucas_U P Q k, lucas_U P Q (S k)).
Proof. unfold lucas_U. cbn [lucas_UU]. now destruct (lucas_UU P Q k). Qed.

Lemma lucas_U_step P Q k : lucas_U P Q (S (S k)) = P * lucas_U P Q (S k) - Q * lucas_U P Q k.
Proof. unfold lucas_U at 1. cbn [lucas_UU]. now rewrite lucas_UU_eq. Qed.

(** The addition formula, from which the doubling formulas follow. *)
Lemma lucas_U_add P Q j k :
  lucas_U P Q (j + S k) = lucas_U P Q (S j) * lucas_U P Q (S k) - Q * (lucas_U P Q j * lucas_U P Q k) /\
  lucas_U P Q (S j + S k) = lucas_U P Q (S (S j)) * lucas_U P Q (S k) - Q * (lucas_U P Q (S j) * lucas_U P Q k).
Proof.
  induction j as [|j [IH1 IH2]].
  - split; cbn [Nat.add]; [change (lucas_U P Q 0) with 0; change (lucas_U P Q 1) with 1; ring|].
    rewrite lucas_U_step. change (lucas_U P Q 2) with (P * 1 - Q * 0). change (lucas_U P Q 1) with 1. ring.
  - split; [exact IH2|]. change (S (S j) + S k)%nat with (S (S (j + S k))). rewrite lucas_U_step.
    change (S (j + S k)) with (S j + S k)%nat. rewrite IH1, IH2, (lucas_U_step P Q (S j)), (lucas_U_step P Q j). ring.
Qed.

Lemma lucas_U_double P Q k : let u1 := lucas_U P Q k in let u2 := lucas_U P Q (S k) in
  lucas_U P Q (2 * k) = 2 * (u1 * u2) - P * (u1 * u1) /\
  lucas_U P Q (2 * k + 1) = u2 * u2 - Q * (u1 * u1) /\
  lucas_U P Q (2 * k + 2) = P * (u2 * u2) - 2 * Q * (u1 * u2).
Proof.
  intros u1 u2. destruct (lucas_U_add P Q k k) as [E1 E2]. fold u1 u2 in E1, E2.
  replace (2 * k + 1)%nat with (k + S k)%nat by lia. replace (2 * k + 2)%nat with (S k + S k)%nat by lia.
  rewrite lucas_U_step in E2. fold u1 u2 in E2. split; [|split; [lia|rewrite E2; ring]].
  destruct k as [|k']; [subst u1 u2; unfold lucas_U; cbn; ring|]. replace (2 * S k')%nat with (k' + S (S k'))%nat by lia.
  destruct (lucas_U_add P Q k' (S k')) as [E3 _]. rewrite E3.
  pose proof (lucas_U_step P Q k') as E4. subst u1 u2. rewrite E4. ring.
Qed.

(** ** Binomial coefficients modulo a prime *)

Fixpoint binom (n k : nat) : Z :=
  match n, k with
  | _, O => 1
  | O, S _ => 0
  | S n', S k' => binom n' k' + binom n' (S k')
  end.

Lemma binom_0 n : binom n 0 = 1.
Proof. now destruct n. Qed.

Lemma binom_gt n : forall k, (n < k)%nat -> binom n k = 0.
Proof.
  induction n as [|n IH]; intros [|k] H; try lia; [easy|]. cbn [binom]. rewrite !IH by lia. easy.
Qed.

Lemma binom_diag n : binom n n = 1.
Proof. induction n as [|n IH]; [easy|]. cbn [binom]. rewrite IH, binom_gt by lia. easy. Qed.

Lemma binom_absorb n : forall k, Z.of_nat (S k) * binom (S n) (S k) = Z.of_nat (S n) * binom n k.
Proof.
  induction n as [|n IH]; intros k.
  - destruct k as [|k]; [easy|]. cbn [binom]. now rewrite !Z.mul_0_r || (destruct k; lia).
  - destruct k as [|k].
    + change (binom (S (S n)) 1) with (binom (S n) 0 + binom (S n) 1). rewrite binom_0.
      specialize (IH 0%nat). rewrite binom_0 in *. lia.
    + change (binom (S (S n)) (S (S k))) with (binom (S n) (S k) + binom (S n) (S (S k))).
      pose proof (IH (S k)) as H1. pose proof (IH k) as H2.
      change (binom (S n) (S k)) with (binom n k + binom n (S k)) in *. lia.
Qed.

Lemma binom_prime p k : Z.prime (Z.of_nat p) -> (0 < k < p)%nat -> (Z.of_nat p | binom p k).
Proof.
  intros Hp Hk. destruct p as [|p]; [lia|]. destruct k as [|k]; [lia|].
  assert (Hd : (Z.of_nat (S p) | Z.of_nat (S k) * binom (S p) (S k))).
  { rewrite binom_absorb. apply Z.divide_factor_l. }
  apply (prime_divide_mul _ _ _ Hp) in Hd as [Hd|Hd]; [|easy].
  apply Z.divide_pos_le in Hd; lia.
Qed.

(** ** The ring Z[sqrt D] and its Frobenius map *)

Section Quadratic.
Variable D : Z.

(** [(a, b)] is [a + b * sqrt D]. *)
Definition qz : Type := (Z * Z)%type.
Definition qof (a : Z) : qz := (a, 0).
Definition qadd (x y : qz) : qz := (fst x + fst y, snd x + snd y).
Definition qmul (x y : qz) : qz := (fst x * fst y + D * (snd x * snd y), fst x * snd y + snd x * fst y).
Definition qopp (x : qz) : qz := (- fst x, - snd x).
Definition qsub (x y : qz) : qz := qadd x (qopp y).
Definition delta : qz := (0, 1).

Fixpoint qpow (x : qz) (n : nat) : qz :=
  match n with O => qof 1 | S n' => qmul x (qpow x n') end.

Lemma q_ring : ring_theory (qof 0) (qof 1) qadd qmul qsub qopp eq.
Proof.
  split; intros; repeat match goal with x : qz |- _ => destruct x end;
    unfold qof, qsub, qadd, qmul, qopp; cbn [fst snd]; f_equal; ring.
Qed.
Add Ring q_ring_inst : q_ring.

Lemma qof_add a b : qof (a + b) = qadd (qof a) (qof b).
Proof. unfold qof, qadd; cbn. f_equal. Qed.
Lemma qof_mul a b : qof (a * b) = qmul (qof a) (qof b).
Proof. unfold qof, qmul; cbn. f_equal; ring. Qed.

Lemma qof_pow a n : qpow (qof a) n = qof (a ^ Z.of_nat n).
Proof.
  induction n as [|n IH]; [easy|]. cbn [qpow]. rewrite IH, <- qof_mul, Nat2Z.inj_succ, Z.pow_succ_r by lia. easy.
Qed.

(** Divisibility by an integer, and congruence. *)
Definition qdiv (p : Z) (x : qz) : Prop := exists y, x = qmul (qof p) y.
Definition qcong (p : Z) (x y : qz) : Prop := qdiv p (qsub x y).

Lemma qdiv_fst p x : qdiv p x -> (p | fst x).
Proof. intros [[u v] ->]. exists u. unfold qof, qmul; cbn. ring. Qed.

Lemma qof_div p a : (p | a) -> qdiv p (qof a).
Proof. intros [k ->]. exists (qof k). rewrite qof_mul. ring. Qed.

Lemma qdiv_add p x y : qdiv p x -> qdiv p y -> qdiv p (qadd x y).
Proof. intros [u ->] [v ->]. exists (qadd u v). ring. Qed.

Lemma qdiv_mul_r p x y : qdiv p x -> qdiv p (qmul x y).
Proof. intros [u ->]. exists (qmul u y). ring. Qed.

Lemma qcong_refl p x : qcong p x x.
Proof. exists (qof 0). unfold qof; destruct x; unfold qsub, qadd, qmul, qopp; cbn. f_equal; ring. Qed.

Lemma qcong_trans p x y z : qcong p x y -> qcong p y z -> qcong p x z.
Proof. intros [u Hu] [v Hv]. exists (qadd u v). transitivity (qadd (qsub x y) (qsub y z)); [ring|]. rewrite Hu, Hv. ring. Qed.

Lemma qcong_add p x y x' y' : qcong p x y -> qcong p x' y' -> qcong p (qadd x x') (qadd y y').
Proof. intros [u Hu] [v Hv]. exists (qadd u v). transitivity (qadd (qsub x y) (qsub x' y')); [ring|]. rewrite Hu, Hv. ring. Qed.

Lemma qcong_mul_l p z x y : qcong p x y -> qcong p (qmul z x) (qmul z y).
Proof. intros [u Hu]. exists (qmul z u). transitivity (qmul z (qsub x y)); [ring|]. rewrite Hu. ring. Qed.

Lemma qcong_of p a b : (p | a - b) -> qcong p (qof a) (qof b).
Proof. intros H. apply qof_div in H. replace (qsub (qof a) (qof b)) with (qof (a - b)) by (unfold qof, qsub, qadd, qopp; cbn; f_equal; ring). exact H. Qed.

(** The binomial theorem for [1 + y]. *)
Fixpoint qsum (f : nat -> qz) (n : nat) : qz :=
  match n with O => qof 0 | S n' => qadd (qsum f n') (f n') end.

Lemma qsum_shift f n : qsum f (S n) = qadd (f 0%nat) (qsum (fun k => f (S k)) n).
Proof.
  induction n as [|n IH]; [cbn; ring|]. change (qsum f (S (S n))) with (qadd (qsum f (S n)) (f (S n))).
  rewrite IH. cbn [qsum]. ring.
Qed.

Lemma qsum_ext f g n : (forall k, (k < n)%nat -> f k = g k) -> qsum f n = qsum g n.
Proof. induction n as [|n IH]; intros H; [easy|]. cbn [qsum]. rewrite IH, H by auto with arith. easy. Qed.

Lemma qsum_lin f g y n : qsum (fun k => qadd (f k) (qmul y (g k))) n = qadd (qsum f n) (qmul y (qsum g n)).
Proof. induction n as [|n IH]; cbn [qsum]; [ring|]. rewrite IH. ring. Qed.

Lemma qsum_div p f n : (forall k, (k < n)%nat -> qdiv p (f k)) -> qdiv p (qsum f n).
Proof.
  induction n as [|n IH]; intros H; cbn [qsum]; [apply qof_div; exists 0; ring|].
  apply qdiv_add; [apply IH; auto with arith|apply H; lia].
Qed.

Lemma qbinomial y n : qpow (qadd (qof 1) y) n = qsum (fun k => qmul (qof (binom n k)) (qpow y k)) (S n).
Proof.
  induction n as [|n IH]; [cbn [qpow qsum]; rewrite binom_0; ring|]. rewrite qsum_shift.
  rewrite (qsum_ext _ (fun k => qadd (qmul (qof (binom n (S k))) (qpow y (S k))) (qmul y (qmul (qof (binom n k)) (qpow y k))))).
  2: { intros k _. cbn [binom qpow]. rewrite qof_add. ring. }
  rewrite qsum_lin, <- IH. change (binom (S n) 0) with 1.
  assert (E : qadd (qmul (qof 1) (qpow y 0)) (qsum (fun k => qmul (qof (binom n (S k))) (qpow y (S k))) (S n)) =
              qpow (qadd (qof 1) y) n).
  { rewrite IH. cbn [qsum]. rewrite (binom_gt n (S n)) by lia.
    change (qadd (qsum (fun k => qmul (qof (binom n k)) (qpow y k)) n) (qmul (qof (binom n n)) (qpow y n)))
      with (qsum (fun k => qmul (qof (binom n k)) (qpow y k)) (S n)).
    rewrite (qsum_shift (fun k => qmul (qof (binom n k)) (qpow y k))), binom_0. ring. }
  cbn [qpow]. cbn [qpow] in E. transitivity (qadd (qpow (qadd (qof 1) y) n) (qmul y (qpow (qadd (qof 1) y) n))); [ring|].
  rewrite <- E at 1. ring.
Qed.

(** The Frobenius map is additive. *)
Lemma frobenius_1 p y : Z.prime (Z.of_nat p) ->
  qcong (Z.of_nat p) (qpow (qadd (qof 1) y) p) (qadd (qof 1) (qpow y p)).
Proof.
  intros Hp. pose proof (Z.prime_ge_2 _ Hp). rewrite qbinomial. destruct p as [|p]; [lia|]. unfold qcong.
  change (qsum (fun k => qmul (qof (binom (S p) k)) (qpow y k)) (S (S p))) with
    (qadd (qsum (fun k => qmul (qof (binom (S p) k)) (qpow y k)) (S p)) (qmul (qof (binom (S p) (S p))) (qpow y (S p)))).
  rewrite binom_diag, qsum_shift, binom_0.
  set (s := qsum _ p). assert (Hs : qdiv (Z.of_nat (S p)) s).
  { apply qsum_div. intros k Hk. apply qdiv_mul_r, qof_div, binom_prime; [exact Hp|lia]. }
  replace (qsub _ _) with s; [exact Hs|]. cbn [qpow]. ring.
Qed.

Lemma frobenius_of p a y : Z.prime (Z.of_nat p) ->
  qcong (Z.of_nat p) (qpow (qadd (qof (Z.of_nat a)) y) p) (qadd (qof (Z.of_nat a)) (qpow y p)).
Proof.
  intros Hp. induction a as [|a IH].
  - replace (qadd (qof (Z.of_nat 0)) y) with y by (change (Z.of_nat 0) with 0; ring).
    replace (qadd (qof (Z.of_nat 0)) (qpow y p)) with (qpow y p) by (change (Z.of_nat 0) with 0; ring). apply qcong_refl.
  - rewrite Nat2Z.inj_succ. unfold Z.succ. rewrite Z.add_comm, qof_add.
    replace (qadd (qadd (qof 1) (qof (Z.of_nat a))) y) with (qadd (qof 1) (qadd (qof (Z.of_nat a)) y)) by ring.
    eapply qcong_trans; [now apply frobenius_1|].
    replace (qadd (qadd (qof 1) (qof (Z.of_nat a))) (qpow y p)) with (qadd (qof 1) (qadd (qof (Z.of_nat a)) (qpow y p))) by ring.
    apply qcong_add; [apply qcong_refl|exact IH].
Qed.

Lemma delta_pow h : qpow delta (2 * h + 1) = qmul (qof (D ^ Z.of_nat h)) delta.
Proof.
  induction h as [|h IH]; [change (D ^ Z.of_nat 0) with 1; cbn [qpow Nat.mul Nat.add]; ring|].
  replace (2 * S h + 1)%nat with (S (S (2 * h + 1))) by lia. cbn [qpow]. rewrite IH, Nat2Z.inj_succ, Z.pow_succ_r, qof_mul by lia.
  replace (qof D) with (qmul delta delta) by (unfold delta, qof, qmul; cbn; f_equal; ring). ring.
Qed.
End Quadratic.

(** ** V_(p+1) for a prime p *)

Lemma lucas_qpow P Q k : let D := P * P - 4 * Q in
  qmul D (qof 2) (qpow D (qadd (qof P) delta) k) = qmul D (qof (2 ^ Z.of_nat k)) (lucas_V P Q k, lucas_U P Q k).
Proof.
  intros D. induction k as [|k IH].
  - unfold lucas_V, lucas_U, qof, qmul; cbn [qpow]; unfold qof; cbn [fst snd qpow lucas_UU qof]. change (2 ^ Z.of_nat 0) with 1. f_equal; ring.
  - cbn [qpow]. transitivity (qmul D (qadd (qof P) delta) (qmul D (qof 2) (qpow D (qadd (qof P) delta) k))).
    { destruct (qpow D (qadd (qof P) delta) k). unfold qof, qmul, qadd; cbn [fst snd]. f_equal; ring. }
    rewrite IH. unfold lucas_V. rewrite lucas_U_step, Nat2Z.inj_succ, Z.pow_succ_r by lia. subst D.
    unfold qof, qmul, qadd, delta; cbn [fst snd]. f_equal; ring.
Qed.

Lemma lucas_prime (p : nat) P Q : let n := Z.of_nat p in
  Z.prime n -> n <> 2 -> 0 <= P ->
  (P * P - 4 * Q) ^ ((n - 1) / 2) mod n = n - 1 -> (n | lucas_V P Q (S p) - 2 * Q).
Proof.
  intros n Hp H2 HP HD. set (D := P * P - 4 * Q) in *. pose proof (Z.prime_ge_2 n Hp) as Hge.
  pose proof (half_odd n (odd_prime_mod2 n Hp H2)) as Hodd. set (h := Z.to_nat ((n - 1) / 2)).
  assert (Hh : p = (2 * h + 1)%nat) by (subst n h; lia).
  set (x := qadd (qof P) delta).
  assert (H1 : qcong D n (qpow D x p) (qsub (qof P) delta)).
  { pose proof (frobenius_of D p (Z.to_nat P) delta Hp) as F. rewrite Z2Nat.id in F by easy.
    eapply qcong_trans; [exact F|]. apply qcong_add; [apply qcong_refl|]. rewrite Hh, delta_pow.
    replace (qopp delta) with (qmul D delta (qof (-1))) by (unfold qopp, qmul, delta, qof; cbn [fst snd]; f_equal; ring).
    replace (qmul D (qof (D ^ Z.of_nat h)) delta) with (qmul D delta (qof (D ^ Z.of_nat h)))
      by (unfold qmul, delta, qof; cbn [fst snd]; f_equal; ring).
    apply qcong_mul_l, qcong_of. subst h. rewrite Z2Nat.id by lia. fold n.
    pose proof (Z.div_mod (D ^ ((n - 1) / 2)) n ltac:(lia)) as E. rewrite HD in E.
    exists (D ^ ((n - 1) / 2) / n + 1). lia. }
  apply (qcong_mul_l D n (qmul D (qof 2) x)) in H1.
  assert (E1 : qmul D (qmul D (qof 2) x) (qpow D x p) = qmul D (qof 2) (qpow D x (S p))).
  { cbn [qpow]. destruct (qpow D x p), x. unfold qmul, qof; cbn [fst snd]. f_equal; ring. }
  rewrite E1 in H1. subst x D. rewrite lucas_qpow in H1.
  apply qdiv_fst in H1. unfold qmul, qsub, qadd, qopp, qof, delta in H1. cbn [fst snd] in H1.
  assert (H3 : (n | 2 ^ n - 2)).
  { pose proof (fermat_mod n 2 Hp) as F. apply Z.mod_divide; [lia|]. rewrite Zminus_mod, F, Zminus_diag. now apply Z.mod_0_l; lia. }
  rewrite Nat2Z.inj_succ, Z.pow_succ_r in H1 by lia. fold n in H1.
  set (V := lucas_V P Q (S p)) in *. set (U := lucas_U P Q (S p)) in *. set (t := 2 ^ n) in *.
  assert (H4 : (n | 2 * (2 * (V - 2 * Q)))).
  { destruct H1 as [k1 Hk1], H3 as [k3 Hk3]. exists (k1 - 2 * k3 * V). nsatz. }
  assert (Hc : ~ (n | 2)) by (intros Hd; apply Z.divide_pos_le in Hd; lia).
  apply (prime_divide_mul n 2 _ Hp) in H4 as [H4|H4]; [easy|].
  apply (prime_divide_mul n 2 _ Hp) in H4 as [H4|H4]; [easy|exact H4].
Qed.
