(* ===== verification/PrimeTest.v ===== *)
(** [src/src/primetest.h]: the strengthened Baillie-PSW test behind
    [integer::prime]: trial division by a table, one Miller-Rabin round with
    base 2 and a Lucas-V probable prime test. *)
From S2P Require Import Prelude Words NumTheory Gmp Pprods Lucas.

Section WithGmp.
Context `{G : Gmp}.

(** ** miller_rabin *)

(** The [while (1)] loop; [b] is the value before [mpz_add_ui]. *)
Fixpoint miller_rabin_loop (fuel : nat) (n s r b : Z) : res Z :=
match fuel with
| O => Throw out_of_fuel
| S fuel' =>
    let b := b + 1 in
    if b =? n then Ok 1
    else
      let r := r + 1 in
      if r =? s then Ok 0
      else
        let b := b - 1 in
        let b := mpz_powm b 2 n in
        miller_rabin_loop fuel' n s r b
end.

Definition miller_rabin (n b : Z) : res Z :=
let s_bits := mpz_scan1 n 1 in
s <- checked_cast int_t uint64_ty s_bits ;;
let d := Z.quot n (2 ^ s) in
let b := mpz_powm b d n in
if b =? 1 then Ok 1 else miller_rabin_loop (Z.to_nat s) n s 0 b.

(** ** find_pq *)

Definition VPRP_MAX_D : Z := 1000.

Fixpoint find_pq_loop (fuel : nat) (n d : Z) : res (option (Z * Z)) :=
if d <? VPRP_MAX_D then
  match fuel with
  | O => Throw out_of_fuel
  | S fuel' =>
      let d := if Z.rem d 4 =? 1 then d else - d in
      if mpz_jacobi d n =? -1 then
        Ok (Some (if d =? 5 then (5, 5) else (1, Z.quot (1 - d) 4)))
      else find_pq_loop fuel' n (Z.abs d + 2)
  end
else Ok None.

(** [None] is the return value 1. *)
Definition find_pq (n : Z) : res (option (Z * Z)) := find_pq_loop 500 n 5.

(** ** find_lucas_v *)

Definition addmul_si (p a b : Z) : Z := if b <? 0 then p - a * - b else p + a * b.

(** One iteration, for one bit of [e]. *)
Definition lucas_step (m p q : Z) (bit : bool) (u1 u2 : Z) : Z * Z :=
let tmp2 := u2 * u1 in
let u2 := u2 * u2 in
let u1 := u1 * u1 in
let minus_2q := -2 * q in
let '(u1, u2) :=
  if bit then
    let u1 := u1 * q in
    let u1 := u2 - u1 in
    let u2 := if negb (p =? 1) then u2 * p else u2 in
    let u2 := addmul_si u2 tmp2 minus_2q in
    (u1, u2)
  else
    let u2 := addmul_si u2 u1 (- q) in
    let tmp2 := Z.shiftl tmp2 1 in
    if negb (p =? 1) then
      let tmp2 := tmp2 - u1 * p in
      (tmp2, u2)
    else (tmp2 - u1, u2) in
(Z.rem u1 m, Z.rem u2 m).

(** The loop on [i], from [k - 1] down to 0. *)
Fixpoint lucas_loop (e m p q : Z) (k : nat) (u1 u2 : Z) : Z * Z :=
match k with
| O => (u1, u2)
| S k' =>
    let '(u1, u2) := lucas_step m p q (Z.testbit e (Z.of_nat k')) u1 u2 in
    lucas_loop e m p q k' u1 u2
end.

Definition find_lucas_v (e m p q : Z) : res Z :=
let l_bits := mpz_sizeinbase2 e in
l <- checked_cast int_t uint64_ty l_bits ;;
let u1 := 1 in
let u2 := p in
let '(u1, u2) := lucas_loop e m p q (Z.to_nat (l - 1)) u1 u2 in
let u2 := Z.shiftl u2 1 in
Ok (u2 - u1 * p).

(** ** is_vprp, is_prime_bpsw *)

Definition is_vprp (n : Z) : res bool :=
pq <- find_pq n ;;
match pq with
| None => Ok false
| Some (p, q) =>
    let e := n + 1 in
    v <- find_lucas_v e n p q ;;
    (* mpz_cdiv_r or mpz_fdiv_r *)
    let v := if q <? 0 then - ((- v) mod n) else v mod n in
    Ok (v =? 2 * q)
end.

(** The trial divisions by the first [k] products. *)
Fixpoint no_small_factor (n : Z) (products : list Z) (k : nat) : bool :=
match k, products with
| S k', p :: rest => if negb (mpn_gcd_1 n p =? 1) then false else no_small_factor n rest k'
| _, _ => true
end.

Definition n_products (size : Z) : Z :=
let min_pprods := 5 in
let n_pprods := Z.of_nat (length pprods) in
if size <? 16 then
  let size_cube := size * size * size in
  min_pprods + Z.quot ((n_pprods - min_pprods) * size_cube) (16 * 16 * 16)
else n_pprods.

(** [mpn_gcd_1] needs a positive operand. *)
Definition is_prime_bpsw (n : Z) : res Z :=
if negb (Z.testbit n 0) && negb (n =? 2) then Ok 0
else
  require 0 <? n else undefined_behaviour ;;
  let n_pprods := n_products (mpz_size n) in
  if negb (no_small_factor n pprods (Z.to_nat n_pprods)) then Ok 0
  else
    r <- miller_rabin n 2 ;;
    ret <- (if negb (r =? 0) then is_vprp n else Ok false) ;;
    Ok (if ret : bool then 2 else 0).

(** [integer::prime]. *)
Definition prime (n : Z) : res bool := r <- is_prime_bpsw n ;; Ok (negb (r =? 0)).

End WithGmp.

Example prime_runs :
  is_prime_bpsw (G := Ref.gmp) 10007 = Ok 2 /\ is_prime_bpsw (G := Ref.gmp) (241 * 251) = Ok 0 /\
  is_prime_bpsw (G := Ref.gmp) 2 = Ok 0.
Proof. vm_compute. repeat split. Qed.

(** ** What an accepted number satisfies *)

Section Sound.
Context `{GL : GmpLaws}.

Lemma no_small_factor_spec n products k : 0 < n -> (forall e, In e products -> 1 < e) ->
  no_small_factor n products k = true <-> (forall e, In e (firstn k products) -> Z.coprime n e).
Proof.
  intros Hn. revert k. induction products as [|p rest IH]; intros k Hp.
  - destruct k; cbn; split; easy.
  - destruct k as [|k]; cbn [no_small_factor firstn]; [split; easy|].
    assert (1 < p) by (apply Hp; now left). rewrite mpn_gcd_1_spec by lia.
    destruct (Z.eqb_spec (Z.gcd n p) 1) as [E|E]; cbn [negb].
    + rewrite IH by (intros e He; apply Hp; now right). split.
      * intros Hr e [<-|He]; [exact E|now apply Hr].
      * intros Hr e He. apply Hr. now right.
    + split; [easy|]. intros Hr. exfalso. apply E, Hr. now left.
Qed.

Lemma n_products_range size : 0 <= size -> 5 <= n_products size <= 379.
Proof.
  intros Hs. unfold n_products. change (Z.of_nat (length pprods)) with 379.
  destruct (Z.ltb_spec size 16); [|lia].
  assert (0 <= size * size * size <= 15 * 15 * 15) by nia.
  rewrite Z.quot_div_nonneg by lia.
  pose proof (Z.div_pos ((379 - 5) * (size * size * size)) (16 * 16 * 16) ltac:(lia) ltac:(lia)).
  pose proof (Z.div_lt_upper_bound ((379 - 5) * (size * size * size)) (16 * 16 * 16) 374 ltac:(lia) ltac:(lia)). lia.
Qed.
Lemma checked_cast_int v : 0 <= v < 2 ^ 31 -> checked_cast int_t uint64_ty v = Ok v.
Proof.
  intros Hv. rewrite checked_cast_spec by (unfold ity_ok, in_ity, limits_min, limits_max; cbn; lia).
  unfold limits_min, limits_max; cbn. destruct (Z.leb_spec (-2147483648) v), (Z.leb_spec v 2147483647); easy || lia.
Qed.

(** *** The Lucas loop *)

Lemma cong_mul m a b c d : (m | a - b) -> (m | c - d) -> (m | a * c - b * d).
Proof. intros [x Hx] [y Hy]. exists (x * c + b * y). nsatz. Qed.
Lemma cong_sub m a b c d : (m | a - b) -> (m | c - d) -> (m | (a - c) - (b - d)).
Proof. intros [x Hx] [y Hy]. exists (x - y). lia. Qed.
Lemma cong_rem m a b : 0 < m -> (m | a - b) -> (m | Z.rem a m - b).
Proof. intros Hm [x Hx]. exists (x - Z.quot a m). pose proof (Z.quot_rem' a m). lia. Qed.
Lemma cong_self m a : (m | a - a).
Proof. exists 0. lia. Qed.

Lemma lucas_step_ok m p q (bit : bool) u1 u2 k u1' u2' : 0 < m ->
  (m | u1 - lucas_U p q k) -> (m | u2 - lucas_U p q (S k)) -> lucas_step m p q bit u1 u2 = (u1', u2') ->
  let k' := (2 * k + (if bit then 1 else 0))%nat in
  (m | u1' - lucas_U p q k') /\ (m | u2' - lucas_U p q (S k')).
Proof.
  intros Hm H1 H2 E k'. destruct (lucas_U_double p q k) as (D0 & D1 & D2).
  set (U1 := lucas_U p q k) in *. set (U2 := lucas_U p q (S k)) in *.
  assert (Ha : forall pp a b, addmul_si pp a b = pp + a * b) by (intros; unfold addmul_si; destruct (b <? 0); ring).
  assert (Hs : forall x, (if negb (p =? 1) then x * p else x) = x * p)
    by (intros x; destruct (Z.eqb_spec p 1) as [->|]; cbn [negb]; ring).
  unfold lucas_step in E. remember (-2 * q) as minus_2q eqn:Eq. rewrite Hs, !Ha, Z.shiftl_mul_pow2 in E by lia.
  pose proof (cong_mul m _ _ _ _ H2 H1) as H21. pose proof (cong_mul m _ _ _ _ H1 H1) as H11.
  pose proof (cong_mul m _ _ _ _ H2 H2) as H22. subst k'. destruct bit.
  - injection E as <- <-. replace (S (2 * k + 1)) with (2 * k + 2)%nat by lia. rewrite D1, D2.
    split; apply cong_rem; try easy.
    + destruct H11 as [x Hx], H22 as [y Hy]. exists (y - x * q). nsatz.
    + destruct H21 as [x Hx], H22 as [y Hy]. exists (y * p - 2 * x * q). nsatz.
  - replace (2 * k + 0)%nat with (2 * k)%nat by lia. replace (S (2 * k)) with (2 * k + 1)%nat by lia. rewrite D0, D1.
    assert (H0 : (m | u2 * u1 * 2 ^ 1 - u1 * u1 * p - (2 * (U1 * U2) - p * (U1 * U1)))).
    { destruct H21 as [x Hx], H11 as [y Hy]. exists (2 * x - y * p). change (2 ^ 1) with 2. nsatz. }
    assert (H3 : (m | u2 * u2 + u1 * u1 * - q - (U2 * U2 - q * (U1 * U1)))).
    { destruct H22 as [x Hx], H11 as [y Hy]. exists (x - y * q). nsatz. }
    destruct (Z.eqb_spec p 1) as [Ep|]; cbn [negb] in E; injection E as <- <-; split; apply cong_rem; try easy.
    rewrite Ep in H0. rewrite Ep. rewrite Z.mul_1_r in H0. exact H0.
Qed.

Lemma lucas_loop_ok e m p q k : 0 < m -> forall u1 u2 u1' u2',
  (m | u1 - lucas_U p q (Z.to_nat (e / 2 ^ Z.of_nat k))) ->
  (m | u2 - lucas_U p q (S (Z.to_nat (e / 2 ^ Z.of_nat k)))) -> 0 <= e ->
  lucas_loop e m p q k u1 u2 = (u1', u2') ->
  (m | u1' - lucas_U p q (Z.to_nat e)) /\ (m | u2' - lucas_U p q (S (Z.to_nat e))).
Proof.
  intros Hm. induction k as [|k IH]; intros u1 u2 u1' u2' H1 H2 He E; cbn [lucas_loop] in E.
  - injection E as <- <-. change (2 ^ Z.of_nat 0) with 1 in *. now rewrite Z.div_1_r in *.
  - destruct (lucas_step m p q (Z.testbit e (Z.of_nat k)) u1 u2) as [v1 v2] eqn:Es.
    apply (lucas_step_ok m p q _ u1 u2 _ v1 v2 Hm H1 H2) in Es.
    assert (Ek : (2 * Z.to_nat (e / 2 ^ Z.of_nat (S k)) + (if Z.testbit e (Z.of_nat k) then 1 else 0) =
                  Z.to_nat (e / 2 ^ Z.of_nat k))%nat).
    { rewrite Nat2Z.inj_succ, Z.pow_succ_r, Z.mul_comm, <- Z.div_div by lia.
      rewrite Z.testbit_odd, Z.shiftr_div_pow2 by lia.
      set (y := e / 2 ^ Z.of_nat k). assert (0 <= y) by (apply Z.div_pos; lia).
      pose proof (Z.div_mod y 2 ltac:(lia)) as Ey. rewrite Zmod_odd in Ey.
      assert (0 <= y / 2) by (apply Z.div_pos; lia). destruct (Z.odd y); lia. }
    rewrite Ek in Es. destruct Es as [Es1 Es2]. now apply (IH v1 v2).
Qed.

(** What [find_lucas_v] computes. *)
Lemma find_lucas_v_ok e m p q : 0 < m -> 0 < e -> bitlen e < 2 ^ 31 ->
  exists v, find_lucas_v e m p q = Ok v /\ (m | v - lucas_V p q (Z.to_nat e)).
Proof.
  intros Hm He Hl. unfold find_lucas_v. rewrite mpz_sizeinbase2_spec.
  pose proof (bitlen_pos e). pose proof (bitlen_spec e ltac:(lia)) as Hb. rewrite Z.abs_eq in Hb by lia.
  set (l := bitlen e) in *. clearbody l.
  rewrite checked_cast_int by lia. cbn [bind].
  destruct (lucas_loop e m p q (Z.to_nat (l - 1)) 1 p) as [u1 u2] eqn:E. eexists. split; [reflexivity|].
  assert (E1 : Z.to_nat (e / 2 ^ Z.of_nat (Z.to_nat (l - 1))) = 1%nat).
  { rewrite Z2Nat.id by lia. replace (e / 2 ^ (l - 1)) with 1; [easy|].
    apply (Z.div_unique_pos _ _ _ (e - 2 ^ (l - 1))); [|ring].
    replace (2 ^ l) with (2 * 2 ^ (l - 1)) in Hb by (rewrite <- Z.pow_succ_r by lia; f_equal; lia). lia. }
  apply (lucas_loop_ok e m p q _ Hm) in E as [H1 H2]; try lia.
  2, 3: rewrite E1; unfold lucas_U; cbn [lucas_UU fst]; rewrite ?Z.mul_1_r, ?Z.mul_0_r, ?Z.sub_0_r; apply cong_self.
  unfold lucas_V. rewrite Z.shiftl_mul_pow2 by lia. change (2 ^ 1) with 2.
  destruct H1 as [x Hx], H2 as [y Hy]. exists (2 * y - x * p). nsatz.
Qed.
(** *** Miller-Rabin *)

Lemma mod_pred_iff n x : 1 < n -> (x mod n + 1 = n <-> (n | x + 1)).
Proof.
  intros Hn. pose proof (Z.div_mod x n ltac:(lia)) as E. split.
  - intros H. exists (x / n + 1). lia.
  - intros [k Hk]. rewrite <- (Z.mod_unique_pos x n (k - 1) (n - 1)); lia.
Qed.

Lemma mod_one_iff n x : 1 < n -> (x mod n = 1 <-> (n | x - 1)).
Proof.
  intros Hn. pose proof (Z.div_mod x n ltac:(lia)) as E. split.
  - intros H. exists (x / n). lia.
  - intros [k Hk]. rewrite <- (Z.mod_unique_pos x n k 1); lia.
Qed.

(** [n - 1 = 2 ^ s * d] with [d] odd, and the strong test to base [a]. *)
Definition odd_part (n s d : Z) : Prop := 1 <= s /\ 0 < d /\ Z.odd d = true /\ n - 1 = 2 ^ s * d.
Definition strong_prp (n a s d : Z) : Prop :=
  (n | a ^ d - 1) \/ exists r, 0 <= r < s /\ (n | a ^ (d * 2 ^ r) + 1).

Lemma scan1_odd_part n : 1 < n -> Z.odd n = true ->
  odd_part n (mpz_scan1 n 1) (n / 2 ^ mpz_scan1 n 1) /\ mpz_scan1 n 1 < bitlen n.
Proof.
  intros Hn Ho. assert (Hlog : 1 <= Z.log2 n) by (change 1 with (Z.log2 2) at 1; apply Z.log2_le_mono; lia).
  destruct (mpz_scan1_spec n 1 ltac:(lia) ltac:(lia)) as (S1 & S2 & S3).
  { exists (Z.log2 n). split; [easy|]. now apply Z.bit_log2; lia. }
  set (s := mpz_scan1 n 1) in *. assert (Hs : s <= Z.log2 n).
  { destruct (Z.lt_ge_cases (Z.log2 n) s); [|easy]. rewrite Z.bits_above_log2 in S2 by lia. discriminate. }
  assert (Hm : n mod 2 ^ s = 1).
  { apply Z.bits_inj'. intros i Hi. destruct (Z.lt_ge_cases i s) as [Hlt|Hge].
    - rewrite Z.mod_pow2_bits_low by easy. destruct (Z.eq_dec i 0) as [->|].
      + now rewrite Z.bit0_odd.
      + rewrite S3 by lia. symmetry. apply Z.bits_above_log2; [lia|]. change (Z.log2 1) with 0. lia.
    - rewrite Z.mod_pow2_bits_high by lia. symmetry. apply Z.bits_above_log2; [lia|]. change (Z.log2 1) with 0. lia. }
  assert (0 < 2 ^ s) by (apply Z.pow_pos_nonneg; lia).
  assert (Hod : Z.odd (n / 2 ^ s) = true) by (rewrite <- Z.shiftr_div_pow2, <- Z.testbit_odd by lia; easy).
  pose proof (Z.div_mod n (2 ^ s) ltac:(lia)). pose proof (Z.div_pos n (2 ^ s) ltac:(lia) ltac:(lia)).
  assert (n / 2 ^ s <> 0) by (intros E; rewrite E in Hod; discriminate).
  split; [unfold odd_part; repeat split; try easy; lia|].
  unfold bitlen. destruct (Z.eqb_spec n 0); [lia|]. rewrite Z.abs_eq by lia. lia.
Qed.

Lemma odd_part_unique n s d s' d' : odd_part n s d -> odd_part n s' d' -> s = s' /\ d = d'.
Proof.
  assert (W : forall s d s' d', 1 <= s < s' -> Z.odd d = true -> 2 ^ s * d = 2 ^ s' * d' -> False).
  { clear. intros s d s' d' Hs Ho E. replace s' with (s + (1 + (s' - s - 1))) in E by lia.
    rewrite !Z.pow_add_r, <- Z.mul_assoc in E by lia. apply Z.mul_reg_l in E; [|apply Z.pow_nonzero; lia].
    rewrite E, <- Z.mul_assoc, Z.odd_mul in Ho. discriminate. }
  intros (H1 & H2 & H3 & H4) (H1' & H2' & H3' & H4').
  destruct (Z.lt_trichotomy s s') as [H|[->|H]].
  - destruct (W s d s' d'); lia || easy.
  - split; [easy|]. apply (Z.mul_reg_l _ _ (2 ^ s')); [apply Z.pow_nonzero; lia|]. lia.
  - destruct (W s' d' s d); lia || easy.
Qed.

Lemma miller_rabin_loop_ok n a s d : 1 < n -> 0 <= d -> forall fuel r, 0 <= r < s -> s - r <= Z.of_nat fuel ->
  exists c : bool, miller_rabin_loop fuel n s r (a ^ (d * 2 ^ r) mod n) = Ok (if c then 1 else 0) /\
    (c = true <-> exists i, r <= i < s /\ (n | a ^ (d * 2 ^ i) + 1)).
Proof.
  intros Hn Hd. induction fuel as [|fuel IH]; intros r Hr Hf; [lia|]. cbn [miller_rabin_loop].
  destruct (Z.eqb_spec (a ^ (d * 2 ^ r) mod n + 1) n) as [E|E].
  - exists true. split; [easy|]. split; [|easy]. intros _. exists r. split; [lia|]. now apply mod_pred_iff.
  - assert (E' : ~ (n | a ^ (d * 2 ^ r) + 1)) by (intros H; apply E; now apply mod_pred_iff).
    destruct (Z.eqb_spec (r + 1) s) as [Es|Es].
    + exists false. split; [easy|]. split; [easy|]. intros (i & Hi & Hdv). assert (i = r) as -> by lia. now destruct E'.
    + rewrite Z.add_simpl_r, mpz_powm_spec by lia.
      assert (Eq : (a ^ (d * 2 ^ r) mod n) ^ 2 mod n = a ^ (d * 2 ^ (r + 1)) mod n).
      { rewrite !Z.pow_2_r, <- Z.mul_mod, <- Z.pow_add_r by nia. f_equal. f_equal. rewrite Z.pow_add_r by lia. ring. }
      rewrite Eq. destruct (IH (r + 1)) as (c & Ec & Hc); [lia|lia|]. exists c. split; [easy|]. rewrite Hc.
      split; intros (i & Hi & Hdv); exists i; (split; [|easy]); [lia|].
      assert (i <> r) by (intros ->; now destruct E'). lia.
Qed.

Lemma miller_rabin_ok n s d : 1 < n -> Z.odd n = true -> bitlen n < 2 ^ 31 -> odd_part n s d ->
  exists c : bool, miller_rabin n 2 = Ok (if c then 1 else 0) /\ (c = true <-> strong_prp n 2 s d).
Proof.
  intros Hn Ho Hb Hp. destruct (scan1_odd_part n Hn Ho) as [Hp' Hs]. pose proof Hp' as (P1 & P2 & _).
  destruct (odd_part_unique n s d _ _ Hp Hp') as [Es Ed].
  unfold miller_rabin. rewrite checked_cast_int by lia. cbn [bind]. rewrite Z.quot_div_nonneg by lia.
  rewrite <- Ed, <- Es in *. unfold strong_prp. rewrite mpz_powm_spec by lia. destruct (Z.eqb_spec (2 ^ d mod n) 1) as [E|E].
  - exists true. split; [easy|]. split; [|easy]. intros _. left. now apply mod_one_iff.
  - destruct (miller_rabin_loop_ok n 2 s d Hn ltac:(lia) (Z.to_nat s) 0) as (c & Ec & Hc); [lia|lia|].
    rewrite Z.mul_1_r in Ec. exists c. split; [easy|]. rewrite Hc. split; [intros H; now right|].
    intros [H|H]; [|easy]. now apply mod_one_iff in H.
Qed.

Lemma strong_prp_prime n s d : Z.prime n -> n <> 2 -> odd_part n s d -> strong_prp n 2 s d.
Proof.
  intros Hn H2 (Hs & Hd & _ & E). pose proof (Z.prime_ge_2 n Hn) as Hge.
  assert (H : forall k : nat, (n | 2 ^ (d * 2 ^ Z.of_nat k) - 1) ->
    (n | 2 ^ d - 1) \/ exists r, 0 <= r < Z.of_nat k /\ (n | 2 ^ (d * 2 ^ r) + 1)).
  { induction k as [|k IH]; intros Hk; [left; now rewrite Z.mul_1_r in Hk|].
    assert (Eq : 2 ^ (d * 2 ^ Z.of_nat (S k)) - 1 = (2 ^ (d * 2 ^ Z.of_nat k) - 1) * (2 ^ (d * 2 ^ Z.of_nat k) + 1)).
    { rewrite Nat2Z.inj_succ, Z.pow_succ_r by lia. replace (d * (2 * 2 ^ Z.of_nat k)) with (d * 2 ^ Z.of_nat k + d * 2 ^ Z.of_nat k) by ring.
      rewrite Z.pow_add_r by nia. ring. }
    rewrite Eq in Hk. apply (prime_divide_mul n _ _ Hn) in Hk as [Hk|Hk].
    - destruct (IH Hk) as [H1|(r & Hr & H1)]; [now left|]. right. exists r. split; [lia|easy].
    - right. exists (Z.of_nat k). split; [lia|easy]. }
  specialize (H (Z.to_nat s)). rewrite Z2Nat.id, Z.mul_comm, <- E in H by lia. apply H.
  apply mod_one_iff; [lia|]. apply fermat_pred; [easy|]. intros Hd2. apply Z.divide_pos_le in Hd2; lia.
Qed.

(** *** The choice of the parameters *)

Lemma find_pq_loop_ok n fuel : forall d, 5 <= d <= 1001 -> d mod 2 = 1 -> 1001 - d <= 2 * Z.of_nat fuel ->
  exists r, find_pq_loop fuel n d = Ok r /\ forall p q, r = Some (p, q) ->
    (p = 1 \/ p = 5) /\ mpz_jacobi (p * p - 4 * q) n = -1 /\ -500 <= 2 * q <= 500 /\ q <> 0.
Proof.
  induction fuel as [|fuel IH]; intros d Hd Ho Hf; cbn [find_pq_loop]; unfold VPRP_MAX_D;
    destruct (Z.ltb_spec d 1000) as [Hlt|Hge]; try (eexists; split; [reflexivity|easy]); [lia|].
  rewrite Z.rem_mod_nonneg by lia.
  assert (Hm : d mod 4 = 1 \/ d mod 4 = 3).
  { pose proof (Z.div_mod d 4 ltac:(lia)). pose proof (Z.div_mod d 2 ltac:(lia)). pose proof (Z.mod_pos_bound d 4 ltac:(lia)). lia. }
  set (d' := if d mod 4 =? 1 then d else - d).
  assert (Hd' : Z.abs d' = d /\ exists k, d' = 1 - 4 * k).
  { pose proof (Z.div_mod d 4 ltac:(lia)). subst d'. destruct Hm as [Em|Em]; rewrite Em in *; cbn [Z.eqb Pos.eqb];
      [split; [lia|exists (- (d / 4)); lia]|split; [lia|exists (d / 4 + 1); lia]]. }
  destruct Hd' as [Ha [k Hk]]. clearbody d'. destruct (Z.eqb_spec (mpz_jacobi d' n) (-1)) as [Ej|Ej].
  - eexists. split; [reflexivity|]. intros p q E. destruct (Z.eqb_spec d' 5) as [E5|E5].
    + injection E as <- <-. rewrite E5 in Ej. repeat split; try lia. exact Ej.
    + assert (Eq : Z.quot (1 - d') 4 = k) by (rewrite Hk; replace (1 - (1 - 4 * k)) with (k * 4) by ring; now apply Z.quot_mul).
      rewrite Eq in E. injection E as <- <-.
      replace (1 * 1 - 4 * k) with d' by lia. repeat split; try easy; lia.
  - rewrite Ha. apply IH; [lia| |lia]. rewrite <- Ho. rewrite Zplus_mod. change (2 mod 2) with 0. rewrite Z.add_0_r. apply Z.mod_mod. lia.
Qed.

Lemma find_pq_ok n : exists r, find_pq n = Ok r /\ forall p q, r = Some (p, q) ->
    (p = 1 \/ p = 5) /\ mpz_jacobi (p * p - 4 * q) n = -1 /\ -500 <= 2 * q <= 500 /\ q <> 0.
Proof. apply find_pq_loop_ok; easy || (vm_compute; split; congruence). Qed.

(** *** The Lucas test *)

Definition lucas_prp (n : Z) : Prop := exists p q, find_pq n = Ok (Some (p, q)) /\
  mpz_jacobi (p * p - 4 * q) n = -1 /\ (n | lucas_V p q (Z.to_nat (n + 1)) - 2 * q).

Lemma is_vprp_ok n : 1000 < n -> bitlen (n + 1) < 2 ^ 31 ->
  exists c, is_vprp n = Ok c /\ (c = true <-> lucas_prp n).
Proof.
  intros Hn Hb. unfold is_vprp, lucas_prp. destruct (find_pq_ok n) as (r & -> & Hr). cbn [bind].
  destruct r as [[p q]|]; [|exists false; split; [easy|]; split; [easy|intros (p & q & E & _); discriminate]].
  destruct (Hr p q eq_refl) as (_ & Hj & Hq & Hq0). clear Hr.
  destruct (find_lucas_v_ok (n + 1) n p q ltac:(lia) ltac:(lia) Hb) as (v & -> & Hv). cbn [bind].
  set (V := lucas_V p q (Z.to_nat (n + 1))) in *. eexists. split; [reflexivity|].
  assert (Hc : (n | V - 2 * q) <-> (n | v - 2 * q)).
  { destruct Hv as [x Hx]. split; intros [y Hy]; [exists (y + x)|exists (y - x)]; lia. }
  transitivity (n | v - 2 * q).
  - destruct (Z.ltb_spec q 0) as [Hneg|Hpos]; rewrite Z.eqb_eq.
    + pose proof (Z.div_mod (- v) n ltac:(lia)) as Ed. split.
      * intros E. exists (- (- v / n)). lia.
      * intros [y Hy]. rewrite <- (Z.mod_unique_pos (- v) n (- y) (- (2 * q))); lia.
    + pose proof (Z.div_mod v n ltac:(lia)) as Ed. split.
      * intros E. exists (v / n). lia.
      * intros [y Hy]. rewrite <- (Z.mod_unique_pos v n y (2 * q)); lia.
  - rewrite <- Hc. split.
    + intros H. now exists p, q.
    + intros (p' & q' & E & _ & H). now injection E as <- <-.
Qed.

(** *** Both tests *)

Definition trial_products (n : Z) : list Z := firstn (Z.to_nat (n_products (mpz_size n))) pprods.

Lemma bpsw_ok n s d : 1000 < n -> Z.odd n = true -> bitlen (n + 1) < 2 ^ 31 -> odd_part n s d ->
  exists c : bool, is_prime_bpsw n = Ok (if c then 2 else 0) /\
    (c = true <-> (forall e, In e (trial_products n) -> Z.coprime n e) /\ strong_prp n 2 s d /\ lucas_prp n).
Proof.
  intros Hn Ho Hb Hp. unfold is_prime_bpsw, trial_products. rewrite Z.bit0_odd, Ho. cbn [negb andb].
  destruct (Z.ltb_spec 0 n); [|lia].
  assert (Hb' : bitlen n < 2 ^ 31).
  { eapply Z.le_lt_trans; [|exact Hb]. apply bitlen_le; [apply bitlen_pos|].
    pose proof (bitlen_spec (n + 1) ltac:(lia)). lia. }
  pose proof (no_small_factor_spec n pprods (Z.to_nat (n_products (mpz_size n))) ltac:(lia) (fun e He => proj1 (pprods_range e He))) as Hsf.
  destruct (no_small_factor n pprods (Z.to_nat (n_products (mpz_size n)))) eqn:E; cbn [negb].
  2: { exists false. split; [easy|]. split; [easy|]. intros (H1 & _). apply Hsf in H1. congruence. }
  assert (Hall := proj1 Hsf eq_refl). destruct (miller_rabin_ok n s d ltac:(lia) Ho Hb' Hp) as (c1 & -> & H1). cbn [bind].
  destruct c1; cbn [Z.eqb negb bind].
  - destruct (is_vprp_ok n Hn Hb) as (c2 & -> & H2). cbn [bind]. exists c2. split; [easy|]. rewrite H2.
    split; [|easy]. intros Hl. repeat split; try easy. now apply H1.
  - exists false. split; [easy|]. split; [easy|]. intros (_ & Hs & _). apply H1 in Hs. discriminate.
Qed.

Lemma prime_no_table_factor n e : Z.prime n -> 14951 < n -> In e pprods -> Z.coprime n e.
Proof.
  intros Hn Hlt He. apply coprime_primes; [pose proof (pprods_range e He); lia|].
  intros p Hp Hpn Hpe. pose proof (pprods_smooth e p He Hp Hpe).
  destruct Hn as [Hn1 Hn2]. pose proof (Z.prime_ge_2 p Hp). apply (Hn2 p); [lia|easy].
Qed.

Lemma lucas_prp_prime n pq : Z.prime n -> n <> 2 -> find_pq n = Ok (Some pq) -> lucas_prp n.
Proof.
  intros Hn H2 E. destruct pq as [p q]. destruct (find_pq_ok n) as (r & Er & Hr). rewrite E in Er. injection Er as <-.
  destruct (Hr p q eq_refl) as (Hp & Hj & _). pose proof (Z.prime_ge_2 n Hn). exists p, q. repeat split; try easy.
  replace (Z.to_nat (n + 1)) with (S (Z.to_nat n)) by lia.
  pose proof (mpz_jacobi_prime (p * p - 4 * q) n Hn H2) as HJ. rewrite Hj in HJ.
  pose proof (lucas_prime (Z.to_nat n) p q) as L. cbv zeta in L. rewrite Z2Nat.id in L by lia.
  apply L; try easy; [lia|]. rewrite <- HJ. symmetry. apply (Z.mod_unique_pos _ _ (-1)); lia.
Qed.
End Sound.

(** C38: what [is_prime_bpsw] decides. For every odd [n > 1000] whose
    bit length fits an [int], it returns 0 or 2, without overflow and without
    exhausting a loop, and it returns 2 exactly when [n] has no common factor
    with the table entries its size selects (at least the first five, and all
    of them from 16 limbs on, so that no prime up to 14951 divides it), is a
    strong probable prime to base 2 for [n - 1 = 2^s * d], and satisfies
    [V_(n+1) = 2Q (mod n)] for the parameters [find_pq] chooses, whose
    discriminant has Jacobi symbol -1. *)
Theorem bpsw_spec {G : Gmp} {GL : GmpLaws G} n s d :
  1000 < n -> Z.odd n = true -> bitlen (n + 1) < 2 ^ 31 -> odd_part n s d ->
  exists c : bool, is_prime_bpsw n = Ok (if c then 2 else 0) /\
    (c = true <-> (forall e, In e (trial_products n) -> Z.coprime n e) /\ strong_prp n 2 s d /\ lucas_prp n) /\
    (5 <= length (trial_products n))%nat /\
    (c = true -> 2 ^ (64 * 15) <= n -> forall q, Z.prime q -> q <= 14951 -> ~ (q | n)).
Proof.
  intros Hn Ho Hb Hp. destruct (bpsw_ok n s d Hn Ho Hb Hp) as (c & Ec & Hc). exists c. repeat (split; [easy|]).
  assert (Hsz : 0 <= mpz_size n).
  { rewrite mpz_size_spec. destruct (n =? 0); [lia|]. pose proof (Z.log2_nonneg (Z.abs n)).
    pose proof (Z.div_pos (Z.log2 (Z.abs n)) 64 ltac:(lia) ltac:(lia)). lia. }
  pose proof (n_products_range (mpz_size n) Hsz) as Hr. split.
  { unfold trial_products. rewrite length_firstn. change (length pprods) with 379%nat. lia. }
  intros -> Hbig q Hq Hle Hd. destruct (proj1 Hc eq_refl) as (Hall & _).
  assert (Hq2 : q <> 2).
  { intros ->. apply Z.odd_spec in Ho as [k Hk]. destruct Hd as [j Hj]. lia. }
  assert (E : trial_products n = pprods).
  { unfold trial_products, n_products. rewrite mpz_size_spec. destruct (Z.eqb_spec n 0); [lia|].
    assert (64 * 15 <= Z.log2 (Z.abs n)) by (rewrite Z.abs_eq by lia; now apply Z.log2_le_pow2; lia).
    pose proof (Z.div_le_lower_bound (Z.log2 (Z.abs n)) 64 15 ltac:(lia) ltac:(lia)).
    destruct (Z.ltb_spec (Z.log2 (Z.abs n) / 64 + 1) 16); [lia|]. now apply firstn_all2; rewrite Nat2Z.id. }
  rewrite E in Hall. destruct (pprods_cover q Hq Hq2 Hle) as (e & He & Hqe).
  now apply (coprime_not_divide q n e Hq (Hall e He)).
Qed.

Lemma bpsw_spec_witness :
  (1000 < 1000003 /\ Z.odd 1000003 = true /\ bitlen (1000003 + 1) < 2 ^ 31 /\ odd_part 1000003 1 500001) /\
  exists c : bool, is_prime_bpsw (G := Ref.gmp) 1000003 = Ok (if c then 2 else 0) /\
    (c = true <-> (forall e, In e (trial_products (G := Ref.gmp) 1000003) -> Z.coprime 1000003 e) /\
       strong_prp 1000003 2 1 500001 /\ lucas_prp (G := Ref.gmp) 1000003) /\
    (5 <= length (trial_products (G := Ref.gmp) 1000003))%nat /\
    (c = true -> 2 ^ (64 * 15) <= 1000003 -> forall q, Z.prime q -> q <= 14951 -> ~ (q | 1000003)).
Proof.
  assert (P : odd_part 1000003 1 500001) by (repeat split; reflexivity || (vm_compute; congruence)).
  split; [repeat split; reflexivity || exact P || (vm_compute; congruence)|].
  exact (bpsw_spec (GL := Ref.laws) 1000003 1 500001 ltac:(reflexivity) ltac:(reflexivity) ltac:(reflexivity) P).
Defined.

(** [is_prime_bpsw] has no false negatives among large primes:
    every prime above 14951 (whose length in bits fits an [int]) for which
    [find_pq] finds parameters is accepted, by the trial divisions, by the
    Miller-Rabin round and by the Lucas test, and [integer::prime] returns
    true. *)
Theorem bpsw_complete {G : Gmp} {GL : GmpLaws G} n pq :
  Z.prime n -> 14951 < n -> bitlen (n + 1) < 2 ^ 31 -> find_pq n = Ok (Some pq) ->
  is_prime_bpsw n = Ok 2 /\ prime n = Ok true.
Proof.
  intros Hn Hlt Hb Epq. assert (H2 : n <> 2) by lia.
  assert (Ho : Z.odd n = true).
  { pose proof (odd_prime_mod2 n Hn H2) as E. rewrite Zmod_odd in E. now destruct (Z.odd n). }
  destruct (scan1_odd_part n ltac:(lia) Ho) as [Hp _].
  destruct (bpsw_ok n _ _ ltac:(lia) Ho Hb Hp) as (c & Ec & Hc).
  assert (Et : c = true).
  { apply Hc. split; [|split; [now apply strong_prp_prime|now apply (lucas_prp_prime n pq)]].
    intros e He. apply prime_no_table_factor; try easy. unfold trial_products in He.
    rewrite <- (firstn_skipn (Z.to_nat (n_products (mpz_size n))) pprods). apply in_or_app. now left. }
  rewrite Et in Ec. unfold prime. now rewrite Ec.
Qed.

Lemma prime_15053 : Z.prime 15053.
Proof. apply trial_division_prime. vm_compute. reflexivity. Qed.

Lemma bpsw_complete_witness :
  (Z.prime 15053 /\ 14951 < 15053 /\ bitlen (15053 + 1) < 2 ^ 31 /\ find_pq (G := Ref.gmp) 15053 = Ok (Some (5, 5))) /\
  is_prime_bpsw (G := Ref.gmp) 15053 = Ok 2 /\ prime (G := Ref.gmp) 15053 = Ok true.
Proof.
  assert (E : find_pq (G := Ref.gmp) 15053 = Ok (Some (5, 5))) by (vm_compute; reflexivity).
  split; [split; [exact prime_15053|repeat split; reflexivity || exact E]|].
  exact (bpsw_complete (GL := Ref.laws) 15053 (5, 5) prime_15053 ltac:(reflexivity) ltac:(reflexivity) E).
Defined.

(** On the smallest operands the test does not decide primality:
    1 makes it throw, because GMP's [mpz_scan1] reports the largest [mp_bitcnt_t]
    when no bit is set, which does not fit an [int]; and 2 and every other
    prime of the first five table entries is rejected as a multiple of itself. *)
Theorem bpsw_small {G : Gmp} {GL : GmpLaws G} :
  is_prime_bpsw 1 = Throw overflow_error /\ is_prime_bpsw 2 = Ok 0 /\
  forall q e, Z.prime q -> In e (firstn 5 pprods) -> (q | e) -> is_prime_bpsw q = Ok 0.
Proof.
  assert (Hs : forall n k, 0 < n -> no_small_factor n pprods k = true <-> (forall e, In e (firstn k pprods) -> Z.coprime n e)).
  { intros n k Hn. apply no_small_factor_spec; [easy|]. intros e He. now apply pprods_range. }
  assert (Hq : forall q e, Z.prime q -> In e (firstn 5 pprods) -> (q | e) -> is_prime_bpsw q = Ok 0).
  { intros q e Hq He Hd. pose proof (Z.prime_ge_2 q Hq). unfold is_prime_bpsw. destruct (negb _ && negb _); [easy|].
    destruct (Z.ltb_spec 0 q); [|lia]. destruct (no_small_factor _ _ _) eqn:E; cbn [negb]; [|easy].
    apply Hs with (1 := ltac:(lia) : 0 < q) (e := e) in E; [|].
    - exfalso. now apply (coprime_not_divide q q e Hq E); [apply Z.divide_refl|].
    - assert (Hsz : 0 <= mpz_size q).
      { rewrite mpz_size_spec. destruct (q =? 0); [lia|]. pose proof (Z.log2_nonneg (Z.abs q)).
        pose proof (Z.div_pos (Z.log2 (Z.abs q)) 64 ltac:(lia) ltac:(lia)). lia. }
      pose proof (n_products_range _ Hsz). replace (Z.to_nat (n_products (mpz_size q))) with (5 + (Z.to_nat (n_products (mpz_size q)) - 5))%nat by lia.
      set (k := (Z.to_nat (n_products (mpz_size q)) - 5)%nat). clearbody k. revert He. cbn [firstn pprods Nat.add].
      intros He. repeat (destruct He as [<-|He]; [cbn [In]; tauto|]). destruct He. }
  split; [|split; [|exact Hq]].
  - unfold is_prime_bpsw. change (Z.testbit 1 0) with true. cbn [negb andb Z.ltb Z.compare].
    replace (no_small_factor _ _ _) with true.
    + unfold miller_rabin. rewrite mpz_scan1_none; [reflexivity|lia|lia|].
      intros j Hj. apply Z.bits_above_log2; [lia|]. change (Z.log2 1) with 0. lia.
    + symmetry. apply Hs; [lia|]. intros e _. apply Z.gcd_1_l.
  - unfold is_prime_bpsw. change (Z.testbit 2 0) with false. cbn [negb andb].
    destruct (Z.eqb_spec 2 2); [cbn [negb andb]|easy]. destruct (Z.ltb_spec 0 2); [|lia].
    destruct (no_small_factor _ _ _); cbn [negb]; [|easy].
    assert (Es : mpz_scan1 2 1 = 1).
    { destruct (mpz_scan1_spec 2 1 ltac:(lia) ltac:(lia)) as (S1 & S2 & S3); [exists 1; split; [lia|reflexivity]|].
      destruct (Z.eq_dec (mpz_scan1 2 1) 1); [easy|]. specialize (S3 1 ltac:(lia)). discriminate S3. }
    unfold miller_rabin. rewrite Es. rewrite checked_cast_int by lia. cbn [bind].
    rewrite mpz_powm_spec by (try lia; vm_compute; congruence). reflexivity.
Qed.

Lemma bpsw_small_witness : (Z.prime 3 /\ In (hd 0 pprods) (firstn 5 pprods) /\ (3 | hd 0 pprods)) /\
  is_prime_bpsw (G := Ref.gmp) 3 = Ok 0.
Proof.
  assert (P : Z.prime 3) by (apply trial_division_prime; reflexivity).
  assert (Hin : In (hd 0 pprods) (firstn 5 pprods)) by now left.
  assert (Hd : (3 | hd 0 pprods)) by (apply Z.mod_divide; [lia|reflexivity]).
  split; [split; [exact P|split; [exact Hin|exact Hd]]|].
  exact (proj2 (proj2 (bpsw_small (GL := Ref.laws))) 3 (hd 0 pprods) P Hin Hd).
Defined.
