(* ===== verification/HashPrime.v ===== *)
(** [HashPrime] of [src/src/proof_common.h] and [CreateDiscriminant] of
    [create_discriminant.h]: pseudoprimes drawn from SHA-256 of a seed that is
    incremented like a counter. *)
From S2P Require Import Prelude Words NumTheory Gmp Integer Sha256 PrimeTest.

Section WithGmp.
Context `{G : Gmp}.

(** The [for] loop that adds 1 to [sprout], from its last byte. *)
Fixpoint increment_le (s : bytes) : bytes :=
match s with
| [] => []
| x :: rest => let x := u8 (x + 1) in if x =? 0 then x :: increment_le rest else x :: rest
end.
Definition increment (sprout : bytes) : bytes := rev (increment_le (rev sprout)).

(** The [while] loop that fills [blob]; it returns [sprout] as well. *)
Fixpoint expand_blob (fuel : nat) (sprout blob : bytes) (len : Z) : res (bytes * bytes) :=
if Z.of_nat (length blob) * 8 <? len then
  match fuel with
  | O => Throw out_of_fuel
  | S fuel' =>
      let sprout := increment sprout in
      let hash := hash256 sprout in
      let n := Z.min (Z.of_nat (length hash)) (Z.quot len 8 - Z.of_nat (length blob)) in
      expand_blob fuel' sprout (blob ++ firstn (Z.to_nat n) hash) len
  end
else Ok (sprout, blob).

(** [for (int b: bitmask) p.set_bit(b, true)] *)
Fixpoint set_bits (p : Z) (bitmask : list Z) : res Z :=
match bitmask with
| [] => Ok p
| b :: rest => p <- set_bit p b true ;; set_bits p rest
end.

(** One iteration of the outer loop, up to the primality test. A positive
  [len] needs at most [len] hashes. *)
Definition next_candidate (sprout : bytes) (len : Z) (bitmask : list Z) : res (bytes * Z) :=
' (sprout, blob) <- expand_blob (Z.to_nat len) sprout [] len ;;
require Z.of_nat (length blob) * 8 =? len else assertion_failed ;;
let p := integer_of_bytes blob in
p <- set_bits p bitmask ;;
p <- set_bit p 0 true ;;
Ok (sprout, p).

(** The outer [while (true)] loop. *)
Fixpoint HashPrime_loop (fuel : nat) (sprout : bytes) (len : Z) (bitmask : list Z) : res Z :=
match fuel with
| O => Throw out_of_fuel
| S fuel' =>
    ' (sprout, p) <- next_candidate sprout len bitmask ;;
    ok <- prime p ;;
    if ok : bool then Ok p else HashPrime_loop fuel' sprout len bitmask
end.

Definition HashPrime (fuel : nat) (seed : bytes) (len : Z) (bitmask : list Z) : res Z :=
require Z.rem len 8 =? 0 else assertion_failed ;;
HashPrime_loop fuel seed len bitmask.

Definition MAX_DISCRIMINANT_SIZE_BITS : Z := 1024.

Definition CreateDiscriminant (fuel : nat) (seed : bytes) (len : Z) : res Z :=
if len <=? 0 then Throw invalid_argument
else if MAX_DISCRIMINANT_SIZE_BITS <? len then Throw invalid_argument
else if negb (Z.rem len 8 =? 0) then Throw invalid_argument
else match seed with
     | [] => Throw invalid_argument
     | _ :: _ => p <- HashPrime fuel seed len [0; 1; 2; len - 1] ;; Ok (p * -1)
     end.

End WithGmp.

(** ** The counter *)

Lemma le_split_mod n : forall x k, le_split n (x + k * 256 ^ Z.of_nat n) = le_split n x.
Proof.
  induction n as [|n IH]; intros x k; [easy|]. cbn [le_split]. rewrite pow256_S.
  replace (x + k * (256 * 256 ^ Z.of_nat n)) with (x + k * 256 ^ Z.of_nat n * 256) by ring.
  rewrite Z.mod_add, Z.div_add by lia. now rewrite IH.
Qed.

Lemma increment_le_ok s : bytes_ok s -> increment_le s = le_split (length s) (le_combine s + 1).
Proof.
  induction 1 as [|x s Hx Hs IH]; [easy|]. unfold is_byte in Hx. cbn [increment_le length le_split le_combine].
  unfold uwrap. change (2 ^ 8) with 256. set (c := le_combine s) in *.
  destruct (Z.eq_dec x 255) as [->|Hne].
  - change ((255 + 1) mod 256) with 0. cbn [Z.eqb]. replace (255 + 256 * c + 1) with ((c + 1) * 256) by ring.
    rewrite Z.mod_mul, Z.div_mul by lia. now rewrite IH.
  - rewrite Z.mod_small by lia. destruct (Z.eqb_spec (x + 1) 0); [lia|].
    replace (x + 256 * c + 1) with (x + 1 + c * 256) by ring. rewrite Z.mod_add, Z.div_add, Z.mod_small, Z.div_small by lia.
    f_equal. symmetry. now apply le_split_combine.
Qed.

(** [seed + i], as a big-endian counter of the seed's length that wraps. *)
Definition advance (seed : bytes) (i : Z) : bytes := be_split (length seed) (be_combine seed + i).

Lemma advance_0 seed : bytes_ok seed -> advance seed 0 = seed.
Proof. intros H. unfold advance. rewrite Z.add_0_r. now apply be_split_combine. Qed.

Lemma advance_length seed i : length (advance seed i) = length seed.
Proof. apply be_split_length. Qed.

Lemma advance_ok seed i : bytes_ok (advance seed i).
Proof. apply be_split_ok. Qed.

Lemma le_combine_le_split n : forall x, exists k, le_combine (le_split n x) = x + k * 256 ^ Z.of_nat n.
Proof.
  induction n as [|n IH]; intros x; [exists (- x); cbn [le_split le_combine]; change (256 ^ Z.of_nat 0) with 1; ring|].
  cbn [le_split le_combine]. destruct (IH (x / 256)) as [k Hk]. exists k. rewrite Hk, pow256_S.
  pose proof (Z.div_mod x 256 ltac:(lia)). lia.
Qed.

Lemma increment_advance seed i : increment (advance seed i) = advance seed (i + 1).
Proof.
  unfold increment, advance, be_split. rewrite rev_involutive, increment_le_ok by apply le_split_ok.
  rewrite le_split_length. f_equal. destruct (le_combine_le_split (length seed) (be_combine seed + i)) as [k Hk].
  rewrite Hk. replace (be_combine seed + i + k * 256 ^ Z.of_nat (length seed) + 1)
    with (be_combine seed + (i + 1) + k * 256 ^ Z.of_nat (length seed)) by ring. apply le_split_mod.
Qed.

(** ** The candidates *)

(** The number of hashes for [m] bytes, and the digests of the [n] counters
    after [i]. *)
Definition hashes (m : Z) : Z := (m + 31) / 32.

Fixpoint digests (seed : bytes) (i : Z) (n : nat) : bytes :=
  match n with
  | O => []
  | S n' => Fips.sha256 (advance seed (i + 1)) ++ digests seed (i + 1) n'
  end.

Definition mask_bits (x : Z) (bitmask : list Z) : Z := fold_left (fun p b => Z.setbit p b) (bitmask ++ [0]) x.

(** Candidate [k] of [8 * m] bits: the first [m] bytes of the digests of its
    counters, with the bits of the mask and bit 0 set. *)
Definition candidate (seed : bytes) (m : Z) (bitmask : list Z) (k : Z) : Z :=
  mask_bits (be_combine (firstn (Z.to_nat m) (digests seed (k * hashes m) (Z.to_nat (hashes m))))) bitmask.

Section Spec.
Context `{GL : GmpLaws}.
Variable seed : bytes.
Hypothesis Hseed : Z.of_nat (length seed) < 2 ^ 61.

Lemma sha_advance i : hash256 (advance seed i) = Fips.sha256 (advance seed i) /\
  length (Fips.sha256 (advance seed i)) = 32%nat /\ bytes_ok (Fips.sha256 (advance seed i)).
Proof.
  pose proof (advance_ok seed i) as Hb. assert (Hl : Z.of_nat (length (advance seed i)) < 2 ^ 61) by now rewrite advance_length.
  destruct (hash256_ok _ Hb Hl) as [H1 H2]. rewrite (hash256_fips _ Hb Hl) in *. auto.
Qed.

Lemma digests_length n : forall i, length (digests seed i n) = (32 * n)%nat.
Proof.
  induction n as [|n IH]; intros i; [easy|]. cbn [digests]. destruct (sha_advance (i + 1)) as (_ & H & _).
  rewrite length_app, H, IH. lia.
Qed.

Lemma digests_ok n : forall i, bytes_ok (digests seed i n).
Proof.
  induction n as [|n IH]; intros i; [constructor|]. cbn [digests]. apply Forall_app. split; [apply sha_advance|apply IH].
Qed.

Lemma expand_blob_ok m fuel : forall i blob, Z.of_nat (length blob) <= m ->
  m - Z.of_nat (length blob) <= Z.of_nat fuel ->
  let n := hashes (m - Z.of_nat (length blob)) in
  expand_blob fuel (advance seed i) blob (8 * m) =
    Ok (advance seed (i + n), blob ++ firstn (Z.to_nat m - length blob) (digests seed i (Z.to_nat n))).
Proof.
  unfold hashes. induction fuel as [|fuel IH]; intros i blob Hle Hf; cbn [expand_blob];
    (destruct (Z.ltb_spec (Z.of_nat (length blob) * 8) (8 * m)) as [Hlt|Hge];
     [|replace (Z.of_nat (length blob)) with m by lia; rewrite Z.sub_diag; change ((0 + 31) / 32) with 0;
       rewrite Z.add_0_r; cbn [Z.to_nat digests]; now rewrite firstn_nil, app_nil_r]); [lia|].
  destruct (sha_advance (i + 1)) as (E & Hl & _). rewrite increment_advance, E, Hl.
  rewrite Z.quot_div_nonneg, (Z.mul_comm 8), Z.div_mul by lia. rewrite (Z.mul_comm m).
  set (r := m - Z.of_nat (length blob)) in *. assert (Hr : 0 < r) by (subst r; lia).
  assert (Hlen : Z.of_nat (length (blob ++ firstn (Z.to_nat (Z.min (Z.of_nat 32) r)) (Fips.sha256 (advance seed (i + 1))))) =
            Z.of_nat (length blob) + Z.min 32 r) by (rewrite length_app, length_firstn, Hl; lia).
  rewrite IH by (rewrite ?Hlen; lia). rewrite Hlen.
  assert (Hn : (r + 31) / 32 = 1 + (r - Z.min 32 r + 31) / 32).
  { destruct (Z.le_gt_cases r 32).
    - rewrite Z.min_r, Z.sub_diag by lia. change (1 + (0 + 31) / 32) with 1. symmetry. apply (Z.div_unique_pos _ _ _ (r - 1)); lia.
    - rewrite Z.min_l by lia. replace (r + 31) with (r - 32 + 31 + 1 * 32) by ring. rewrite Z.div_add by lia. lia. }
  replace (m - (Z.of_nat (length blob) + Z.min 32 r)) with (r - Z.min 32 r) by lia.
  rewrite Hn. set (n' := (r - Z.min 32 r + 31) / 32) in *. assert (0 <= n') by (apply Z.div_pos; lia).
  f_equal. f_equal; [f_equal; lia|]. rewrite <- app_assoc. f_equal.
  replace (Z.to_nat (1 + n')) with (S (Z.to_nat n')) by lia. cbn [digests]. rewrite firstn_app, Hl. f_equal.
  - rewrite <- (firstn_firstn _ (Z.to_nat m - length blob) 32) || idtac.
    destruct (Z.le_gt_cases r 32).
    + f_equal. lia.
    + rewrite !firstn_all2 by lia. easy.
  - f_equal. rewrite length_app, length_firstn, Hl. lia.
Qed.

Lemma set_bits_ok bitmask : Forall (fun b => 0 <= b) bitmask -> forall p,
  set_bits p bitmask = Ok (fold_left (fun p b => Z.setbit p b) bitmask p).
Proof.
  induction 1 as [|b rest Hb _ IH]; intros p; [easy|]. cbn [set_bits fold_left]. unfold set_bit.
  destruct (Z.leb_spec 0 b); [|lia]. cbn [bind]. apply IH.
Qed.

Lemma next_candidate_ok m bitmask k : 0 <= m -> Forall (fun b => 0 <= b) bitmask ->
  next_candidate (advance seed (k * hashes m)) (8 * m) bitmask =
    Ok (advance seed ((k + 1) * hashes m), candidate seed m bitmask k).
Proof.
  intros Hm Hb. unfold next_candidate. rewrite expand_blob_ok by (cbn [length]; lia). cbn [bind length Z.of_nat app].
  rewrite Z.sub_0_r, Nat.sub_0_r. set (ds := digests _ _ _).
  assert (Hl : length (firstn (Z.to_nat m) ds) = Z.to_nat m).
  { rewrite length_firstn. subst ds. rewrite digests_length. unfold hashes.
    pose proof (Z.div_mod (m + 31) 32 ltac:(lia)). pose proof (Z.mod_pos_bound (m + 31) 32 ltac:(lia)). lia. }
  rewrite Hl, Z2Nat.id by easy. destruct (Z.eqb_spec (m * 8) (8 * m)); [|lia].
  unfold integer_of_bytes. rewrite mpz_import_msb_spec, set_bits_ok by easy. cbn [bind].
  unfold set_bit. cbn [Z.leb Z.compare bind]. unfold candidate, mask_bits. rewrite fold_left_app. cbn [fold_left].
  f_equal. f_equal. f_equal. ring.
Qed.

(** The loop returns the first candidate that passes the test. *)
Lemma loop_finds m bitmask fuel : forall k, 0 <= m -> Forall (fun b => 0 <= b) bitmask -> 
  forall p, HashPrime_loop fuel (advance seed (k * hashes m)) (8 * m) bitmask = Ok p <->
    exists j, k <= j < k + Z.of_nat fuel /\ p = candidate seed m bitmask j /\ prime p = Ok true /\
      forall i, k <= i < j -> prime (candidate seed m bitmask i) = Ok false.
Proof.
  intros k Hm Hb. revert k. induction fuel as [|fuel IH]; intros k p; cbn [HashPrime_loop].
  - split; [easy|]. intros (j & Hj & _). lia.
  - rewrite next_candidate_ok by easy. cbn [bind]. destruct (prime (candidate seed m bitmask k)) as [[|]|e] eqn:E; cbn [bind].
    + split.
      * intros [= <-]. exists k. repeat split; try easy; lia.
      * intros (j & Hj & -> & Hp & Hf). destruct (Z.eq_dec j k) as [->|]; [easy|].
        rewrite (Hf k) in E by lia. discriminate.
    + rewrite IH. split; intros (j & Hj & Ep & Hp & Hf); exists j.
      * repeat split; try easy; try lia. intros i Hi. destruct (Z.eq_dec i k) as [->|]; [easy|]. apply Hf. lia.
      * assert (j <> k) by (intros ->; rewrite <- Ep in E; congruence). repeat split; try easy; try lia.
        intros i Hi. apply Hf. lia.
    + split; [easy|]. intros (j & Hj & Ep & Hp & Hf). destruct (Z.eq_dec j k) as [->|]; [congruence|].
      rewrite (Hf k) in E by lia. discriminate.
Qed.

Lemma candidate_bits m bitmask k : 0 < m -> Forall (fun b => 0 <= b < 8 * m) bitmask ->
  let p := candidate seed m bitmask k in
  0 < p < 2 ^ (8 * m) /\ Z.odd p = true /\ forall b, In b bitmask -> Z.testbit p b = true.
Proof.
  intros Hm Hb. unfold candidate, mask_bits. set (x := be_combine _).
  assert (Hx : 0 <= x < 2 ^ (8 * m)).
  { subst x. pose proof (be_combine_range (firstn (Z.to_nat m) (digests seed (k * hashes m) (Z.to_nat (hashes m)))) (Forall_firstn' _ _ _ (digests_ok _ _))) as R.
    split; [apply R|]. eapply Z.lt_le_trans; [apply R|]. change 256 with (2 ^ 8). rewrite <- Z.pow_mul_r by lia.
    apply Z.pow_le_mono_r; [lia|]. rewrite length_firstn. lia. }
  clearbody x.
  assert (H : forall l x, Forall (fun b => 0 <= b < 8 * m) l -> 0 <= x < 2 ^ (8 * m) ->
    let p := fold_left (fun p b => Z.setbit p b) l x in
    0 <= p < 2 ^ (8 * m) /\ forall b, 0 <= b -> Z.testbit p b = existsb (Z.eqb b) l || Z.testbit x b).
  { clear. induction l as [|b l IH]; intros x Hl Hx; [split; easy|]. inversion Hl as [|? ? Hb Hl']; subst. cbn [fold_left].
    assert (Hs : 0 <= Z.setbit x b < 2 ^ (8 * m)).
    { unfold Z.setbit. split; [apply Z.lor_nonneg; rewrite Z.shiftl_1_l; split; [lia|apply Z.pow_nonneg; lia]|].
      destruct (Z.eq_dec (Z.lor x (Z.shiftl 1 b)) 0) as [->|]; [lia|]. apply Z.log2_lt_pow2.
      - pose proof (proj2 (Z.lor_nonneg x (Z.shiftl 1 b))). rewrite Z.shiftl_1_l in *. pose proof (Z.pow_nonneg 2 b ltac:(lia)). lia.
      - rewrite Z.log2_lor, Z.shiftl_1_l, Z.log2_pow2 by (rewrite ?Z.shiftl_1_l; try apply Z.pow_nonneg; lia).
        apply Z.max_lub_lt; [|lia]. destruct (Z.eq_dec x 0) as [->|]; [change (Z.log2 0) with 0; lia|]. apply Z.log2_lt_pow2; lia. }
    destruct (IH (Z.setbit x b) Hl' Hs) as [I1 I2]. split; [exact I1|]. intros c Hc. rewrite I2 by easy. cbn [existsb].
    destruct (Z.eqb_spec c b) as [->|Hne].
    - rewrite Z.setbit_eq by easy. apply Bool.orb_true_r.
    - rewrite Z.setbit_neq by lia. easy. }
  destruct (H (bitmask ++ [0]) x) as [H1 H2]; [apply Forall_app; split; [easy|repeat constructor; lia]|easy|].
  set (p := fold_left _ _ x) in *. assert (Ho : Z.odd p = true).
  { rewrite <- Z.bit0_odd, H2 by lia. rewrite existsb_app. cbn [existsb Z.eqb]. now rewrite !Bool.orb_true_r. }
  split; [|split; [exact Ho|]].
  - split; [|easy]. destruct (Z.eq_dec p 0) as [E|]; [rewrite E in Ho; discriminate|lia].
  - intros b Hin. assert (0 <= b) by (rewrite Forall_forall in Hb; now apply Hb). rewrite H2 by easy.
    rewrite existsb_app. replace (existsb (Z.eqb b) bitmask) with true; [easy|]. symmetry. apply existsb_exists.
    exists b. split; [easy|apply Z.eqb_refl].
Qed.
End Spec.

(** C34: [HashPrime] is rejection sampling from an explicit
    sequence. Candidate [k] is built from the SHA-256 digests of the seed plus
    the next counters (big-endian, wrapping at the seed's length), cut to the
    length and with the mask bits and bit 0 set; it lies in [(0, 2^length)].
    The function returns [p] exactly when [p] is the first candidate the
    primality test accepts, so that it returns whenever some candidate is
    accepted before one makes the test throw, and more fuel never changes the
    result. *)
Theorem hash_prime_correct {G : Gmp} {GL : GmpLaws G} fuel seed m bitmask :
  bytes_ok seed -> Z.of_nat (length seed) < 2 ^ 61 -> 0 < m -> Forall (fun b => 0 <= b < 8 * m) bitmask ->
  (forall p, HashPrime fuel seed (8 * m) bitmask = Ok p <->
    exists j, 0 <= j < Z.of_nat fuel /\ p = candidate seed m bitmask j /\ prime p = Ok true /\
      forall i, 0 <= i < j -> prime (candidate seed m bitmask i) = Ok false) /\
  (forall k, let p := candidate seed m bitmask k in
    0 < p < 2 ^ (8 * m) /\ Z.odd p = true /\ forall b, In b bitmask -> Z.testbit p b = true).
Proof.
  intros Hs Hl Hm Hb. split; [|intros k; now apply candidate_bits].
  intros p. unfold HashPrime. rewrite Z.mul_comm, Z.rem_mul by lia. cbn [Z.eqb]. rewrite Z.mul_comm.
  rewrite <- (advance_0 seed Hs) at 1. apply (loop_finds seed Hl m bitmask fuel 0); [lia|].
  eapply Forall_impl; [|exact Hb]. cbn. lia.
Qed.

Lemma hash_prime_correct_witness :
  (bytes_ok [1] /\ Z.of_nat (length [1]) < 2 ^ 61 /\ 0 < 2 /\ Forall (fun b => 0 <= b < 8 * 2) [15]) /\
  (forall p, HashPrime (G := Ref.gmp) 3 [1] (8 * 2) [15] = Ok p <->
    exists j, 0 <= j < Z.of_nat 3 /\ p = candidate [1] 2 [15] j /\ prime (G := Ref.gmp) p = Ok true /\
      forall i, 0 <= i < j -> prime (G := Ref.gmp) (candidate [1] 2 [15] i) = Ok false) /\
  (forall k, let p := candidate [1] 2 [15] k in
    0 < p < 2 ^ (8 * 2) /\ Z.odd p = true /\ forall b, In b [15] -> Z.testbit p b = true).
Proof.
  assert (H1 : bytes_ok [1]) by (repeat (apply Forall_cons; [split; lia|]); apply Forall_nil).
  assert (H2 : Forall (fun b => 0 <= b < 8 * 2) [15]) by (repeat (apply Forall_cons; [lia|]); apply Forall_nil).
  split; [split; [exact H1|split; [reflexivity|split; [reflexivity|exact H2]]]|].
  exact (hash_prime_correct (GL := Ref.laws) 3 [1] 2 [15] H1 ltac:(reflexivity) ltac:(reflexivity) H2).
Defined.

(** Runs: 16 bits from the seed [01 02], and two refusals. *)
Example CreateDiscriminant_runs :
  CreateDiscriminant (G := Ref.gmp) 40 [1; 2] 16 = Ok (-43223) /\
  CreateDiscriminant (G := Ref.gmp) 40 [] 16 = Throw invalid_argument /\
  CreateDiscriminant (G := Ref.gmp) 40 [1; 2] 1032 = Throw invalid_argument.
Proof. vm_compute. repeat split. Qed.

Section Discriminant.
Context `{GL : GmpLaws}.

Lemma prime_total n : 1000 < n -> Z.odd n = true -> bitlen (n + 1) < 2 ^ 31 -> exists b, prime n = Ok b.
Proof.
  intros Hn Ho Hb. destruct (scan1_odd_part n ltac:(lia) Ho) as [Hp _].
  destruct (bpsw_ok n _ _ Hn Ho Hb Hp) as (c & E & _). exists c. unfold prime. rewrite E. now destruct c.
Qed.

(** Bits 0, 1, 2 and the top bit. *)
Lemma mask_value p n : 3 < n -> 0 < p < 2 ^ n -> Z.testbit p 0 = true -> Z.testbit p 1 = true -> Z.testbit p 2 = true ->
  Z.testbit p (n - 1) = true -> 2 ^ (n - 1) <= p /\ p mod 8 = 7 /\ bitlen p = n.
Proof.
  intros Hn Hp H0 H1 H2 Ht.
  assert (Hge : 2 ^ (n - 1) <= p).
  { destruct (Z.lt_ge_cases p (2 ^ (n - 1))) as [Hlt|]; [|easy].
    rewrite Z.bits_above_log2 in Ht; [discriminate|lia|]. apply Z.log2_lt_pow2; lia. }
  split; [easy|]. split.
  - change 8 with (2 ^ 3). rewrite <- Z.land_ones by lia. change 7 with (Z.ones 3). apply Z.bits_inj'. intros i Hi.
    rewrite Z.land_spec, Z.testbit_ones_nonneg by lia. destruct (Z.ltb_spec i 3); [|apply Bool.andb_false_r].
    assert (i = 0 \/ i = 1 \/ i = 2) as [-> |[-> | ->]] by lia; now rewrite ?H0, ?H1, ?H2.
  - unfold bitlen. destruct (Z.eqb_spec p 0); [lia|]. rewrite Z.abs_eq by lia.
    rewrite (Z.log2_unique p (n - 1)); try lia. replace (Z.succ (n - 1)) with n by lia. lia.
Qed.

Lemma loop_outcome seed m bitmask fuel : Z.of_nat (length seed) < 2 ^ 61 -> 0 <= m -> Forall (fun b => 0 <= b) bitmask ->
  (forall k, exists b, prime (candidate seed m bitmask k) = Ok b) -> forall k,
  (exists p, HashPrime_loop fuel (advance seed (k * hashes m)) (8 * m) bitmask = Ok p) \/
  (HashPrime_loop fuel (advance seed (k * hashes m)) (8 * m) bitmask = Throw out_of_fuel /\
   forall j, k <= j < k + Z.of_nat fuel -> prime (candidate seed m bitmask j) = Ok false).
Proof.
  intros Hs Hm Hb Hp. induction fuel as [|fuel IH]; intros k; cbn [HashPrime_loop].
  - right. split; [easy|]. intros j Hj. lia.
  - rewrite (next_candidate_ok seed Hs) by easy. cbn [bind]. destruct (Hp k) as [[|] E]; rewrite E; cbn [bind]; [left; eauto|].
    destruct (IH (k + 1)) as [H|[H1 H2]]; [now left|right]. split; [easy|].
    intros j Hj. destruct (Z.eq_dec j k) as [->|]; [easy|]. apply H2. lia.
Qed.
End Discriminant.

(** The mask of [CreateDiscriminant]. *)
Definition disc_mask (m : Z) : list Z := [0; 1; 2; 8 * m - 1].

(** [CreateDiscriminant] refuses a length that is
    not positive, above 1024 or not a multiple of 8, and an empty seed, with
    [invalid_argument]; on every other input (lengths from 16 bits) no
    assertion fails and nothing is thrown: either every candidate that the fuel
    covers is rejected by the primality test, or the result is [D = -p] for the
    first accepted candidate [p], which is 7 modulo 8 and has exactly the
    requested bit length, so that [D] is a negative discriminant, 1 modulo 8. *)
Theorem create_discriminant_correct {G : Gmp} {GL : GmpLaws G} fuel seed len :
  bytes_ok seed -> Z.of_nat (length seed) < 2 ^ 61 ->
  ((len <= 0 \/ 1024 < len \/ Z.rem len 8 <> 0 \/ seed = []) -> CreateDiscriminant fuel seed len = Throw invalid_argument) /\
  (16 <= len <= 1024 -> Z.rem len 8 = 0 -> seed <> [] ->
    let cand := candidate seed (len / 8) (disc_mask (len / 8)) in
    (CreateDiscriminant fuel seed len = Throw out_of_fuel /\ forall j, 0 <= j < Z.of_nat fuel -> prime (cand j) = Ok false) \/
    (exists D j, CreateDiscriminant fuel seed len = Ok D /\ 0 <= j < Z.of_nat fuel /\ D = - cand j /\
      prime (- D) = Ok true /\ (forall i, 0 <= i < j -> prime (cand i) = Ok false) /\
      - D mod 8 = 7 /\ D mod 8 = 1 /\ bitlen D = len /\ 2 ^ (len - 1) <= - D < 2 ^ len)).
Proof.
  intros Hs Hl. split.
  - unfold CreateDiscriminant, MAX_DISCRIMINANT_SIZE_BITS. intros H. destruct (Z.leb_spec len 0); [easy|].
    destruct (Z.ltb_spec 1024 len); [easy|]. destruct (Z.eqb_spec (Z.rem len 8) 0) as [E|E]; cbn [negb]; [|easy].
    destruct H as [H|[H|[H|H]]]; try lia. now subst seed.
  - intros Hlen Hr Hne cand. rewrite Z.rem_mod_nonneg in Hr by lia. pose proof (Z.div_mod len 8 ltac:(lia)) as Ed.
    rewrite Hr, Z.add_0_r in Ed. set (m := len / 8) in *.
    assert (Hm : 2 <= m <= 128) by lia. assert (Hb : Forall (fun b => 0 <= b < 8 * m) (disc_mask m)) by (repeat (apply Forall_cons; [lia|]); apply Forall_nil).
    assert (Hb' : Forall (fun b => 0 <= b) (disc_mask m)) by (eapply Forall_impl; [|exact Hb]; cbn; lia).
    assert (Hc : forall k, 2 ^ (len - 1) <= cand k < 2 ^ len /\ Z.odd (cand k) = true /\ cand k mod 8 = 7 /\ bitlen (cand k) = len).
    { intros k. destruct (candidate_bits seed Hl m (disc_mask m) k ltac:(lia) Hb) as (C1 & C2 & C3).
      fold (cand k) in C1, C2, C3. rewrite <- Ed in C1.
      destruct (mask_value (cand k) len ltac:(lia) C1) as (V1 & V2 & V3); try (apply C3; cbn; now auto).
      - rewrite Ed. apply C3. do 3 right. now left.
      - repeat split; easy || apply C1. }
    assert (Hbig : 2 ^ 15 <= 2 ^ (len - 1)) by (apply Z.pow_le_mono_r; lia). change (2 ^ 15) with 32768 in Hbig.
    assert (Hp : forall k, exists b, prime (cand k) = Ok b).
    { intros k. destruct (Hc k) as (C1 & C2 & _ & C4). apply prime_total; [lia|easy|].
      eapply Z.le_lt_trans; [apply (bitlen_le _ (len + 1)); [lia|]|lia]. rewrite Z.abs_eq, Z.pow_add_r by lia. lia. }
    unfold CreateDiscriminant, MAX_DISCRIMINANT_SIZE_BITS, HashPrime.
    destruct (Z.leb_spec len 0); [lia|]. destruct (Z.ltb_spec 1024 len); [lia|]. rewrite (Z.rem_mod_nonneg len 8), Hr by lia. cbn [Z.eqb negb].
    destruct seed as [|s0 seed']; [easy|]. set (seed := s0 :: seed') in *. clearbody seed.
    replace [0; 1; 2; len - 1] with (disc_mask m) by (unfold disc_mask; now rewrite <- Ed).
    rewrite Ed. pose proof (loop_outcome seed m (disc_mask m) fuel Hl ltac:(lia) Hb' Hp 0) as HL.
    rewrite Z.mul_0_l, Z.add_0_l, (advance_0 seed Hs) in HL. destruct HL as [[p E]|[E HL]].
    + right. pose proof (loop_finds seed Hl m (disc_mask m) fuel 0 ltac:(lia) Hb' p) as HF. rewrite Z.mul_0_l, Z.add_0_l, (advance_0 seed Hs) in HF.
      pose proof (proj1 HF E) as (j & Hj & -> & Hpj & Hf). rewrite E. cbn [bind]. fold (cand j) in Hpj |- *.
      exists (cand j * -1), j. destruct (Hc j) as (C1 & C2 & C3 & C4).
      assert (Eo : - (cand j * -1) = cand j) by ring. rewrite Eo, <- Ed. repeat split; try easy; try lia.
      * Z.div_mod_to_equations. lia.
      * rewrite <- C4. unfold bitlen. rewrite Z.abs_mul, Z.mul_1_r.
        destruct (Z.eqb_spec (cand j * -1) 0), (Z.eqb_spec (cand j) 0); lia || easy.
    + left. rewrite E. cbn [bind]. split; [easy|]. exact HL.
Qed.

Lemma create_discriminant_correct_witness :
  (bytes_ok [1; 2] /\ Z.of_nat (length [1; 2]) < 2 ^ 61) /\
  ((32 <= 0 \/ 1024 < 32 \/ Z.rem 32 8 <> 0 \/ [1; 2] = []) -> CreateDiscriminant (G := Ref.gmp) 40 [1; 2] 32 = Throw invalid_argument) /\
  (16 <= 32 <= 1024 -> Z.rem 32 8 = 0 -> [1; 2] <> [] ->
    let cand := candidate [1; 2] (32 / 8) (disc_mask (32 / 8)) in
    (CreateDiscriminant (G := Ref.gmp) 40 [1; 2] 32 = Throw out_of_fuel /\ forall j, 0 <= j < Z.of_nat 40 -> prime (G := Ref.gmp) (cand j) = Ok false) \/
    (exists D j, CreateDiscriminant (G := Ref.gmp) 40 [1; 2] 32 = Ok D /\ 0 <= j < Z.of_nat 40 /\ D = - cand j /\
      prime (G := Ref.gmp) (- D) = Ok true /\ (forall i, 0 <= i < j -> prime (G := Ref.gmp) (cand i) = Ok false) /\
      - D mod 8 = 7 /\ D mod 8 = 1 /\ bitlen D = 32 /\ 2 ^ (32 - 1) <= - D < 2 ^ 32)).
Proof.
  assert (H1 : bytes_ok [1; 2]) by (repeat (apply Forall_cons; [split; lia|]); apply Forall_nil).
  split; [split; [exact H1|reflexivity]|].
  exact (create_discriminant_correct (GL := Ref.laws) 40 [1; 2] 32 H1 ltac:(reflexivity)).
Defined.
