(* ===== verification/ProofCommon.v ===== *)
(** [src/src/proof_common.h]: the serialized forms, the Fiat-Shamir prime
    [GetB] and exponentiation of forms. [PulmarkReducer::reduce], which
    exponentiation calls, is used through the interface [FormReducer]. *)
From S2P Require Import Prelude Words NumTheory Gmp QuadForm FormClass Integer Forms Nucomp Bqfc Sha256 PrimeTest HashPrime.

(** What exponentiation needs of a reducer: it returns, with an equivalent form. *)
Class FormReducer : Type := reducer_reduce : form -> res form.
Class FormReducerLaws (R : FormReducer) : Prop :=
  reducer_equiv : forall D f, class D f -> exists g, reducer_reduce f = Ok g /\ equiv f g.

(** [form::reduce] satisfies it. *)
#[export] Instance vdf_new_reducer : FormReducer | 10 := reduce.
#[export] Instance vdf_new_reducer_laws : FormReducerLaws vdf_new_reducer.
Proof. intros D f C. destruct (reduce_ok D f (class_valid _ _ C)) as (g & E & _ & Q & _). eauto. Qed.

Definition B_bits : Z := 264.
Definition B_bytes : Z := (B_bits + 7) / 8.

Section WithGmp.
Context `{G : Gmp} `{R : FormReducer}.

(** [y] is reduced in place, so the reduced form is returned as well. An error
  of [bqfc_serialize] is ignored. *)
Definition SerializeForm (y : form) (d_bits : Z) : res (bytes * form) :=
y <- reduce y ;;
let out := repeat 0 (Z.to_nat BQFC_FORM_SIZE) in
' (_, out) <- bqfc_serialize out (fa y) (fb y) d_bits ;;
Ok (out, y).

(** The last argument of [bqfc_deserialize]'s model is the content of the
  uninitialised [canon_str], which is overwritten before it is read. *)
Definition DeserializeForm (D : Z) (bs : bytes) (size : Z) (strict : bool) : res form :=
d_bits <- num_bits D ;;
' (ret, (a, b)) <- bqfc_deserialize (repeat 0 (Z.to_nat BQFC_FORM_SIZE)) (0, 0) D bs size d_bits strict ;;
if ret =? 0 then
  f <- from_abd a b D ;;
  if negb (is_reduced f) then Throw runtime_error else Ok f
else Throw runtime_error.

Definition FastPow (a b c : Z) : res Z :=
if c =? 0 then Throw runtime_error else Ok (mpz_powm a b c).

(** [x] and [y] are reduced in place: the result is [B] and both forms. *)
Definition GetB (fuel : nat) (D : Z) (x y : form) : res (Z * form * form) :=
d_bits <- num_bits D ;;
' (serialization, x) <- SerializeForm x d_bits ;;
' (serialization_y, y) <- SerializeForm y d_bits ;;
B <- HashPrime fuel (serialization ++ serialization_y) B_bits [B_bits - 1] ;;
Ok (B, x, y).

(** The signed [_mp_size] field. *)
Definition mp_size (x : Z) : Z := if x <? 0 then - mpz_size x else mpz_size x.

(** The loop on [i], from [k - 1] down to 0. *)
Fixpoint fast_pow_loop (k : nat) (r x : form) (D n L max_size : Z) : res form :=
match k with
| O => Ok r
| S k' =>
    r <- nudupl_form r D L ;;
    r <- (if max_size <? mp_size (fa r) then reducer_reduce r else Ok r) ;;
    r <- (if get_bit n (Z.of_nat k') then nucomp_form r x D L else Ok r) ;;
    fast_pow_loop k' r x D n L max_size
end.

Definition FastPowFormNucomp (x : form) (D num_iterations L : Z) : res form :=
if Z.sgn num_iterations =? 0 then identity D
else
  let max_size := Z.quot (- mp_size D) 2 in
  bits <- num_bits num_iterations ;;
  r <- fast_pow_loop (Z.to_nat (bits - 1)) x x D num_iterations L max_size ;;
  reducer_reduce r.

End WithGmp.

(** ** Serialization *)

Section Bytes.
Context `{GL : GmpLaws}.

Lemma write_at_bytes out off data s : bytes_ok out -> bytes_ok data -> write_at out off data = Ok s -> bytes_ok s.
Proof.
  unfold write_at. intros Ho Hd. destruct (_ && _); [|discriminate]. intros [= <-].
  apply Forall_app. split; [now apply Forall_firstn'|]. apply Forall_app. split; [easy|]. now apply Forall_skipn'.
Qed.

Lemma zeros_ok n : bytes_ok (repeat 0 n).
Proof. apply Forall_forall. intros x Hx. apply repeat_spec in Hx. subst x. split; lia. Qed.

Lemma memset_0_bytes out off n s : bytes_ok out -> memset_0 out off n = Ok s -> bytes_ok s.
Proof.
  unfold memset_0. intros Ho. destruct (_ && _); [|discriminate]. intros H.
  eapply write_at_bytes in H; eauto using zeros_ok.
Qed.

Lemma export_bytes out off size n r s off' : bytes_ok out -> bqfc_export out off size n = Ok (r, s, off') -> bytes_ok s.
Proof.
  unfold bqfc_export. intros Ho. destruct (_ <? _); [intros [= _ <- _]; easy|]. 
  intros H. apply bind_ok in H as (s1 & H1 & H). assert (bytes_ok s1).
  { eapply write_at_bytes in H1; eauto. rewrite mpz_export_lsb_spec. apply le_split_ok. }
  destruct (_ <? _); [injection H as _ <- _; easy|]. apply bind_ok in H as (s2 & H2 & H). injection H as _ <- _.
  destruct (_ <? _); [now apply memset_0_bytes in H2|now injection H2 as <-].
Qed.

Lemma serialize_only_bytes out c d r s : bytes_ok out -> bqfc_serialize_only out c d = Ok (r, s) -> bytes_ok s.
Proof.
  unfold bqfc_serialize_only. intros Ho H.
  destruct (_ || _); [injection H as _ <-; easy|]. destruct (_ <? _); [injection H as _ <-; easy|].
  apply bind_ok in H as (s1 & H1 & H). apply write_at_bytes in H1; [|easy|].
  2: { repeat constructor; destruct (c_b_sign c), (c_t c <? 0); cbn; lia. }
  destruct (_ <? _); [injection H as _ <-; easy|]. apply bind_ok in H as (s2 & H2 & H).
  apply write_at_bytes in H2; [|easy|repeat constructor; apply (uwrap_range 8); lia].
  do 4 (let E := fresh "E" in apply bind_ok in H as ([[? ?] ?] & E & H); apply export_bytes in E; [|easy];
        destruct (negb _); [injection H as _ <-; easy|]).
  injection H as _ <-. easy.
Qed.

Lemma serialize_bytes out a b d r s : bytes_ok out -> bqfc_serialize out a b d = Ok (r, s) -> bytes_ok s.
Proof.
  unfold bqfc_serialize. intros Ho H. destruct (_ || _); [injection H as _ <-; easy|]. destruct (_ && _).
  - apply bind_ok in H as (s1 & H1 & H). apply write_at_bytes in H1; [|easy|].
    2: { repeat constructor; destruct (a =? 2); cbn; lia. }
    apply bind_ok in H as (s2 & H2 & H). injection H as _ <-. now apply memset_0_bytes in H2.
  - apply bind_ok in H as (c & _ & H). apply bind_ok in H as ([r1 s1] & H1 & H).
    apply serialize_only_bytes in H1; [|easy]. apply bind_ok in H as (s2 & H2 & H). injection H as _ <-.
    destruct (negb _); [now apply memset_0_bytes in H2|now injection H2 as <-].
Qed.
End Bytes.

(** A discriminant of the size the proofs allow, without square factors: the
    negative of a prime congruent to 7 modulo 8, for instance. *)
Record good_disc (D : Z) : Prop := {
  gd_neg : D < 0;
  gd_mod : D mod 4 = 1;
  gd_squarefree : forall m, 1 < m -> ~ (m * m | D);
  gd_size : bitlen D <= 1024;
}.

Lemma valid_class D f : good_disc D -> valid D f -> class D f.
Proof.
  intros HD V. split; [easy|]. apply primitive_primes; [pose proof (valid_pos D f V); lia|].
  intros p Hp Ha Hb Hc. destruct V as [V _ _]. pose proof (Z.prime_ge_2 p Hp).
  apply (gd_squarefree D HD p); [lia|]. rewrite <- V. unfold disc.
  destruct Ha as [a ->], Hb as [b ->], Hc as [c ->]. exists (b * b - 4 * a * c). ring.
Qed.

Lemma good_disc_bound D : good_disc D -> 0 < bitlen D <= 1024 /\ - D < 2 ^ bitlen D.
Proof.
  intros [Hn _ _ Hs]. pose proof (bitlen_pos D). pose proof (bitlen_spec D ltac:(lia)) as [_ H1]. lia.
Qed.

Section Common.
Context `{GL : GmpLaws}.

Lemma num_bits_disc D : good_disc D -> num_bits D = Ok (bitlen D).
Proof. intros HD. apply num_bits_ok. pose proof (gd_size D HD). lia. Qed.

(** The form is reduced, and its bytes depend on the reduced form alone. *)
Lemma SerializeForm_ok D y : good_disc D -> class D y -> exists s y',
  SerializeForm y (bitlen D) = Ok (s, y') /\ reduce y = Ok y' /\ reduced y' /\ equiv y y' /\ class D y' /\
  length s = 100%nat /\ bytes_ok s.
Proof.
  intros HD Cy. destruct (good_disc_bound D HD) as [Hd Hb].
  destruct (reduce_ok D y (class_valid _ _ Cy)) as (y' & E & Ry & Q & V). unfold SerializeForm. rewrite E. cbn [bind].
  destruct (serialize_total (fa y') (fb y') (bitlen D) Hd (reduced_size D y' _ V Ry Hd Hb) (reduced_abs y' Ry))
    as (r & s0 & _ & H).
  destruct (H (repeat 0 (Z.to_nat BQFC_FORM_SIZE)) (repeat_length _ _)) as (s & Es & Hl & _). rewrite Es. cbn [bind].
  exists s, y'. repeat (split; [easy|]). split; [now rewrite <- Q|]. split; [easy|].
  eapply serialize_bytes; [|exact Es]. apply zeros_ok.
Qed.

Lemma SerializeForm_equiv D y y' : class D y -> equiv y y' -> SerializeForm y (bitlen D) = SerializeForm y' (bitlen D).
Proof.
  intros Cy Q. unfold SerializeForm. assert (V' : valid D y') by (rewrite <- Q; apply Cy).
  destruct (reduce_ok D y (class_valid _ _ Cy)) as (z & -> & Rz & Qz & Vz).
  destruct (reduce_ok D y' V') as (z' & -> & Rz' & Qz' & _).
  rewrite (reduced_unique D z z' Vz Rz Rz'); [easy|]. now rewrite <- Qz, Q.
Qed.

(** A serialized form is read back. *)
Lemma SerializeForm_reads D y s y' : good_disc D -> class D y -> SerializeForm y (bitlen D) = Ok (s, y') -> forall strict, DeserializeForm D s 100 strict = Ok y'.
Proof.
  intros HD Cy E strict. destruct (good_disc_bound D HD) as [Hd Hb].
  destruct (reduce_ok D y (class_valid _ _ Cy)) as (z & Ez & Rz & Qz & Vz). unfold SerializeForm in E. rewrite Ez in E. cbn [bind] in E.
  destruct (roundtrip_ok D z (bitlen D) Vz Rz (gd_squarefree D HD) Hd Hb) as (s' & _ & HS & HDes).
  rewrite HS in E by apply repeat_length. injection E as <- <-.
  unfold DeserializeForm. rewrite num_bits_disc by easy. cbn [bind]. rewrite HDes by apply repeat_length. cbn [bind]. change (0 =? 0) with true. cbv iota.
  rewrite (from_abd_id D z Vz Rz). cbn [bind]. now rewrite (proj2 (is_reduced_spec z (valid_pos D z Vz)) Rz).
Qed.

(** Whatever the bytes are, a form that [DeserializeForm] returns is a reduced
    form of the discriminant. *)
Lemma Deserialize_valid D bs size strict f : good_disc D -> DeserializeForm D bs size strict = Ok f ->
  class D f /\ reduced f.
Proof.
  intros HD E. unfold DeserializeForm in E. apply bind_ok in E as (d & _ & E). apply bind_ok in E as ([ret [a b]] & _ & E).
  destruct (ret =? 0); [|discriminate]. apply bind_ok in E as (g & Eg & E).
  pose proof (from_abd_ok a b D (gd_neg D HD)) as H. rewrite Eg in H. destruct H as (_ & _ & V & Rg & _).
  destruct (negb (is_reduced g)); [discriminate|]. injection E as <-. split; [now apply valid_class|easy].
Qed.

(** *** GetB *)

Lemma hash_prime_range fuel seed B : bytes_ok seed -> Z.of_nat (length seed) < 2 ^ 61 ->
  HashPrime fuel seed B_bits [B_bits - 1] = Ok B ->
  2 ^ 263 <= B < 2 ^ 264 /\ Z.odd B = true /\ prime B = Ok true.
Proof.
  intros Hs Hl E. assert (Hb : Forall (fun b => 0 <= b < 8 * 33) [263]) by (repeat (apply Forall_cons; [lia|]); apply Forall_nil).
  assert (Hb' : Forall (fun b => 0 <= b) [263]) by (repeat (apply Forall_cons; [lia|]); apply Forall_nil).
  unfold HashPrime in E. change B_bits with (8 * 33) in E. change (8 * 33 - 1) with 263 in E. change (Z.rem (8 * 33) 8 =? 0) with true in E. cbv iota in E.
  rewrite <- (advance_0 seed Hs) in E. apply (proj1 (loop_finds seed Hl 33 [263] fuel 0 ltac:(lia) Hb' B)) in E. destruct E as (j & _ & -> & Hp & _).
  destruct (candidate_bits seed Hl 33 [263] j ltac:(lia) Hb) as (C1 & C2 & C3).
  set (p := candidate seed 33 [263] j) in *. clearbody p. change (8 * 33) with 264 in C1. repeat split; try easy; try apply C1.
  destruct (Z.lt_ge_cases p (2 ^ 263)) as [Hlt|]; [|easy]. specialize (C3 263 (or_introl eq_refl)).
  rewrite Z.bits_above_log2 in C3; [discriminate|lia|]. apply Z.log2_lt_pow2; lia.
Qed.

Lemma GetB_ok fuel D x y B x' y' : good_disc D -> class D x -> class D y -> GetB fuel D x y = Ok (B, x', y') ->
  reduce x = Ok x' /\ reduce y = Ok y' /\ reduced x' /\ reduced y' /\ equiv x x' /\ equiv y y' /\
  2 ^ 263 <= B < 2 ^ 264 /\ Z.odd B = true /\ prime B = Ok true.
Proof.
  intros HD Cx Cy E. unfold GetB in E. rewrite num_bits_disc in E by easy. cbn [bind] in E.
  destruct (SerializeForm_ok D x HD Cx) as (s1 & x1 & E1 & F1 & R1 & Q1 & _ & L1 & B1).
  destruct (SerializeForm_ok D y HD Cy) as (s2 & y1 & E2 & F2 & R2 & Q2 & _ & L2 & B2).
  rewrite E1, E2 in E. cbn [bind] in E. apply bind_ok in E as (B' & EB & E). injection E as <- <- <-.
  apply hash_prime_range in EB; [|now apply Forall_app|rewrite length_app, L1, L2; reflexivity]. easy.
Qed.

(** [B] depends on the classes of the two forms alone. *)
Lemma GetB_equiv fuel D x y x2 y2 : good_disc D -> class D x -> class D y -> equiv x x2 -> equiv y y2 ->
  GetB fuel D x y = GetB fuel D x2 y2.
Proof.
  intros HD Cx Cy Q1 Q2. unfold GetB. rewrite num_bits_disc by easy. cbn [bind].
  now rewrite (SerializeForm_equiv D x x2), (SerializeForm_equiv D y y2).
Qed.

Lemma GetB_outcome fuel D x y : good_disc D -> class D x -> class D y ->
  exists s x' y', bytes_ok s /\ length s = 200%nat /\ reduce x = Ok x' /\ reduce y = Ok y' /\
    GetB fuel D x y = (B <- HashPrime fuel s B_bits [B_bits - 1] ;; Ok (B, x', y')).
Proof.
  intros HD Cx Cy. unfold GetB. rewrite num_bits_disc by easy. cbn [bind].
  destruct (SerializeForm_ok D x HD Cx) as (s1 & x1 & E1 & F1 & R1 & Q1 & _ & L1 & B1).
  destruct (SerializeForm_ok D y HD Cy) as (s2 & y1 & E2 & F2 & R2 & Q2 & _ & L2 & B2).
  exists (s1 ++ s2), x1, y1. rewrite E1, E2. cbn [bind]. split; [now apply Forall_app|].
  split; [rewrite length_app; lia|easy].
Qed.
End Common.

(** ** Exponentiation *)

Section Power.
Context `{GL : GmpLaws} `{RL : FormReducerLaws}.
Variables D L : Z.
Hypothesis HL : 0 <= L.
Variable x : form.
Hypothesis Cx : class D x.

Lemma fast_pow_loop_ok n max_size k : forall r m, 0 <= n -> Z.of_nat k < 2 ^ 64 ->
  power D x m r -> m = Z.to_nat (n / 2 ^ Z.of_nat k) ->
  exists h, fast_pow_loop k r x D n L max_size = Ok h /\ power D x (Z.to_nat n) h.
Proof.
  induction k as [|k IH]; intros r m Hn Hk Pr Em; cbn [fast_pow_loop].
  - exists r. split; [easy|]. rewrite Em in Pr. change (2 ^ Z.of_nat 0) with 1 in Pr. now rewrite Z.div_1_r in Pr.
  - destruct (nudupl_class D L HL r (power_class D x Cx _ _ Pr)) as (r1 & -> & C1 & Cl1). cbn [bind].
    assert (P1 : power D x (m + m) r1) by now apply (power_add D x Cx m m r r).
    assert (H2 : exists r2, (if max_size <? mp_size (fa r1) then reducer_reduce r1 else Ok r1) = Ok r2 /\ power D x (m + m) r2).
    { destruct (_ <? _); [|eauto]. destruct (reducer_equiv D r1 Cl1) as (r2 & -> & Q). exists r2. split; [easy|].
      now apply (power_equiv D x _ r1). }
    destruct H2 as (r2 & -> & P2). cbn [bind].
    assert (Hq : 0 <= n / 2 ^ Z.of_nat (S k)) by (apply Z.div_pos; lia).
    assert (Hbit : n / 2 ^ Z.of_nat k = 2 * (n / 2 ^ Z.of_nat (S k)) + Z.b2z (Z.testbit n (Z.of_nat k))).
    { rewrite Z.testbit_spec' by lia. assert (Eh : n / 2 ^ Z.of_nat (S k) = n / 2 ^ Z.of_nat k / 2).
      { rewrite Z.div_div, Nat2Z.inj_succ, Z.pow_succ_r, (Z.mul_comm 2) by lia. reflexivity. }
      rewrite Eh. apply Z.div_mod. lia. }
    unfold get_bit. rewrite u64_id by lia. destruct (Z.testbit n (Z.of_nat k)); cbn [Z.b2z] in Hbit.
    + destruct (nucomp_class D L HL r2 x (power_class D x Cx _ _ P2) Cx) as (r3 & -> & C3 & _). cbn [bind].
      apply (IH r3 (S (m + m))); [easy|lia|now apply (power_S D x _ r2)|lia].
    + cbn [bind]. apply (IH r2 (m + m)%nat); [easy|lia|easy|lia].
Qed.

Lemma fast_pow_ok n : D mod 4 = 1 -> 0 <= n -> bitlen n < 2 ^ 31 ->
  exists h, FastPowFormNucomp x D n L = Ok h /\ power D x (Z.to_nat n) h.
Proof.
  intros HD Hn Hb. unfold FastPowFormNucomp. pose proof (valid_neg D x (class_valid _ _ Cx)) as Hneg.
  destruct (identity_ok D Hneg HD) as (e & Ee & Pe & _).
  destruct (Z.eq_dec n 0) as [->|Hne].
  { cbn [Z.sgn Z.eqb]. exists e. split; [easy|]. now apply power_0. }
  rewrite Z.sgn_pos by lia. cbn [Z.eqb]. rewrite num_bits_ok by easy. cbn [bind].
  pose proof (bitlen_pos n). pose proof (bitlen_spec n Hne) as Hs. rewrite Z.abs_eq in Hs by easy.
  destruct (fast_pow_loop_ok n (Z.quot (- mp_size D) 2) (Z.to_nat (bitlen n - 1)) x 1) as (h & -> & P); try easy.
  - lia.
  - now apply (power_one D x Cx e).
  - rewrite Z2Nat.id by lia. replace (n / 2 ^ (bitlen n - 1)) with 1; [easy|].
    apply (Z.div_unique_pos _ _ _ (n - 2 ^ (bitlen n - 1))); [|ring].
    replace (2 ^ bitlen n) with (2 * 2 ^ (bitlen n - 1)) in Hs by (rewrite <- Z.pow_succ_r by lia; f_equal; lia). lia.
  - cbn [bind]. destruct (reducer_equiv D h (power_class D x Cx _ _ P)) as (h' & -> & Q). exists h'. split; [easy|].
    now apply (power_equiv D x _ h).
Qed.
End Power.

Lemma good_disc_47 : good_disc (-47).
Proof. split; [reflexivity|reflexivity|exact squarefree_47|vm_compute; congruence]. Qed.

Lemma class_form_47 : class (-47) (mkform 2 1 6).
Proof. apply valid_class; [exact good_disc_47|]. split; reflexivity. Qed.

(** [FastPowFormNucomp] computes powers in the class group:
    for every primitive form [x] of a negative discriminant 1 modulo 4, every
    exponent [n >= 0] whose bit length fits an [int], every bound [L >= 0] and
    every reducer that returns an equivalent form, it returns a form in the
    class of [x^n], whatever intermediate values it decides to reduce. *)
Theorem fast_pow_correct {G : Gmp} {GL : GmpLaws G} {R : FormReducer} {RL : FormReducerLaws R} D L x n :
  class D x -> D mod 4 = 1 -> 0 <= L -> 0 <= n -> bitlen n < 2 ^ 31 ->
  exists h, FastPowFormNucomp x D n L = Ok h /\ power D x (Z.to_nat n) h /\ class D h.
Proof.
  intros Cx HD HL Hn Hb. destruct (fast_pow_ok D L HL x Cx n HD Hn Hb) as (h & E & P).
  exists h. repeat (split; [easy|]). now apply (power_class D x Cx (Z.to_nat n)).
Qed.

Lemma fast_pow_correct_witness :
  (class (-47) (mkform 2 1 6) /\ -47 mod 4 = 1 /\ 0 <= 2 /\ 0 <= 13 /\ bitlen 13 < 2 ^ 31) /\
  exists h, FastPowFormNucomp (G := Ref.gmp) (R := vdf_new_reducer) (mkform 2 1 6) (-47) 13 2 = Ok h /\
    power (-47) (mkform 2 1 6) (Z.to_nat 13) h /\ class (-47) h.
Proof.
  split; [split; [exact class_form_47|repeat split; vm_compute; congruence]|].
  exact (fast_pow_correct (GL := Ref.laws) (RL := vdf_new_reducer_laws) (-47) 2 (mkform 2 1 6) 13 class_form_47
    eq_refl ltac:(lia) ltac:(lia) ltac:(reflexivity)).
Defined.

(** x^5 is the identity in the class group of order 5. *)
Example fast_pow_47 :
  FastPowFormNucomp (G := Ref.gmp) (R := vdf_new_reducer) (mkform 2 1 6) (-47) 5 2 = Ok (mkform 1 1 12) /\
  FastPowFormNucomp (G := Ref.gmp) (R := vdf_new_reducer) (mkform 2 1 6) (-47) 13 2 =
    FastPowFormNucomp (G := Ref.gmp) (R := vdf_new_reducer) (mkform 2 1 6) (-47) 3 2.
Proof. vm_compute. split; reflexivity. Qed.

(** [SerializeForm] and [DeserializeForm] are a canonical
    encoding of form classes. For a discriminant of at most 1024 bits without
    square factors, serializing any primitive form succeeds with 100 bytes that
    depend only on its class;
    deserializing them, strictly or not, gives the reduced form of the class;
    and whatever bytes it is given, [DeserializeForm] returns nothing but
    reduced primitive forms of the discriminant. *)
Theorem form_serialization {G : Gmp} {GL : GmpLaws G} D y z :
  good_disc D -> class D y -> equiv y z ->
  (exists s y', SerializeForm y (bitlen D) = Ok (s, y') /\ SerializeForm z (bitlen D) = Ok (s, y') /\
    length s = 100%nat /\ bytes_ok s /\ reduced y' /\ equiv y y' /\
    (forall strict, DeserializeForm D s 100 strict = Ok y')) /\
  (forall bs size strict f, DeserializeForm D bs size strict = Ok f -> class D f /\ reduced f).
Proof.
  intros HD Cy Q. split; [|intros bs size strict f; now apply Deserialize_valid].
  destruct (SerializeForm_ok D y HD Cy) as (s & y' & E & _ & Ry & Qy & Cy' & Hl & Hb). exists s, y'.
  split; [easy|]. split; [now rewrite <- (SerializeForm_equiv D y z)|]. repeat (split; [easy|]).
  exact (SerializeForm_reads D y s y' HD Cy E).
Qed.

Lemma form_serialization_witness :
  (good_disc (-47) /\ class (-47) (mkform 2 1 6) /\ equiv (mkform 2 1 6) (mkform 2 1 6)) /\
  (exists s y', SerializeForm (G := Ref.gmp) (mkform 2 1 6) (bitlen (-47)) = Ok (s, y') /\
    SerializeForm (G := Ref.gmp) (mkform 2 1 6) (bitlen (-47)) = Ok (s, y') /\
    length s = 100%nat /\ bytes_ok s /\ reduced y' /\ equiv (mkform 2 1 6) y' /\
    (forall strict, DeserializeForm (G := Ref.gmp) (-47) s 100 strict = Ok y')) /\
  (forall bs size strict f, DeserializeForm (G := Ref.gmp) (-47) bs size strict = Ok f -> class (-47) f /\ reduced f).
Proof.
  assert (Q : equiv (mkform 2 1 6) (mkform 2 1 6)) by reflexivity.
  split; [split; [exact good_disc_47|split; [exact class_form_47|exact Q]]|].
  exact (form_serialization (GL := Ref.laws) (-47) _ _ good_disc_47 class_form_47 Q).
Defined.
