(* ===== verification/Powers.v ===== *)
(** Powers of one form with integer exponents, and what each operation on forms
    does to them: the provers, the callbacks and the main loop are all reasoned
    about through these lemmas. *)
From S2P Require Import Prelude Gmp QuadForm FormClass Integer Forms Nucomp ProofCommon.

(** [z] is in the class of [x^n]. *)
Definition pw (D : Z) (x : form) (n : Z) (z : form) : Prop := 0 <= n /\ power D x (Z.to_nat n) z.

Section Powers.
Context `{GL : GmpLaws} `{RL : FormReducerLaws}.
Variables D L : Z.
Hypothesis HL : 0 <= L.
Variable x : form.
Hypothesis Cx : class D x.

Abbreviation pw := (pw D x).

Lemma pw_class n z : pw n z -> class D z.
Proof. intros [_ H]. now apply (power_class D x Cx _ _ H). Qed.

Lemma pw_equiv n z z' : pw n z -> equiv z z' -> pw n z'.
Proof. intros [Hn H] Q. split; [easy|]. now apply (power_equiv D x _ z). Qed.

Lemma pw_unique n z z' : pw n z -> pw n z' -> equiv z z'.
Proof. intros [_ H] [_ H']. now apply (power_unique D x Cx _ z H). Qed.

Lemma pw_0 e : principal D e -> pw 0 e.
Proof. intros H. split; [lia|]. now apply power_0. Qed.

Lemma pw_1 e : principal D e -> pw 1 x.
Proof. intros H. split; [lia|]. now apply (power_one D x Cx e). Qed.

Lemma pw_composite m n g h k : pw m g -> pw n h -> composite g h k -> pw (m + n) k.
Proof.
  intros [Hm Pg] [Hn Ph] C. split; [lia|]. rewrite Z2Nat.inj_add by easy. now apply (power_add D x Cx _ _ g h).
Qed.

Lemma pw_nucomp m n g h : pw m g -> pw n h -> exists z, nucomp_form g h D L = Ok z /\ pw (m + n) z.
Proof.
  intros Pg Ph. destruct (nucomp_class D L HL g h (pw_class _ _ Pg) (pw_class _ _ Ph)) as (z & E & C & _).
  exists z. split; [easy|]. now apply (pw_composite m n g h).
Qed.

Lemma pw_nudupl n g : pw n g -> exists z, nudupl_form g D L = Ok z /\ pw (2 * n) z.
Proof.
  intros Pg. destruct (nudupl_class D L HL g (pw_class _ _ Pg)) as (z & E & C & _).
  exists z. split; [easy|]. replace (2 * n) with (n + n) by ring. now apply (pw_composite n n g g).
Qed.

Lemma pw_reduce n g : pw n g -> exists z, reducer_reduce g = Ok z /\ pw n z.
Proof.
  intros Pg. destruct (reducer_equiv D g (pw_class _ _ Pg)) as (z & E & Q). exists z. split; [easy|]. now apply (pw_equiv n g).
Qed.

(** One squaring followed by a reduction. *)
Lemma pw_square n g : pw n g -> exists z, (y <- nudupl_form g D L ;; reducer_reduce y) = Ok z /\ pw (2 * n) z.
Proof. intros Pg. destruct (pw_nudupl n g Pg) as (z & -> & Pz). cbn [bind]. now apply pw_reduce. Qed.

Lemma pw_fast_pow n m g : D mod 4 = 1 -> pw m g -> 0 <= n < 2 ^ 264 ->
  exists h, FastPowFormNucomp g D n L = Ok h /\ pw (m * n) h.
Proof.
  intros H4 Pg Hn. assert (Hb : bitlen n < 2 ^ 31).
  { eapply Z.le_lt_trans; [apply (bitlen_le n 264); [lia|rewrite Z.abs_eq; lia]|reflexivity]. }
  destruct (fast_pow_ok D L HL g (pw_class _ _ Pg) n H4 ltac:(lia) Hb) as (h & E & P). exists h. split; [easy|].
  destruct Pg as [Hm Pg]. split; [nia|]. rewrite Z2Nat.inj_mul by lia. now apply (power_mul D x _ g).
Qed.
End Powers.

(** Powers of a power: the exponent can be read off from either base. *)
Lemma pw_rebase D x n xs m g : class D x -> pw D x n xs -> pw D x (n * m) g -> 0 <= m -> pw D xs m g.
Proof.
  intros Cx [Hn Ps] [_ Pg] Hm. split; [easy|]. pose proof (power_class D x Cx _ _ Ps) as Cs.
  assert (He : exists e, principal D e).
  { clear - Ps. induction Ps as [e He|n' g h _ IH _]; eauto. }
  destruct (power_total D xs Cs (Z.to_nat m) He) as (h & Ph). apply (power_equiv D xs _ h); [exact Ph|].
  apply (power_unique D x Cx (Z.to_nat (n * m))); [|exact Pg]. rewrite Z2Nat.inj_mul by easy. now apply (power_mul D x _ xs).
Qed.

Lemma pw_trans D x n xs m g : class D x -> pw D x n xs -> pw D xs m g -> pw D x (n * m) g.
Proof.
  intros Cx [Hn Ps] [Hm Pg]. split; [lia|]. rewrite Z2Nat.inj_mul by easy. now apply (power_mul D x _ xs).
Qed.

Lemma pw_base D x x' n g : equiv x x' -> pw D x n g -> pw D x' n g.
Proof. intros Q [Hn P]. split; [easy|]. now apply (power_equiv_base D x). Qed.
