(* ===== verification/Verifier.v ===== *)
(** [src/src/verifier.h]: checking n-Wesolowski proofs. A proof is the final
    output and its Wesolowski proof (200 bytes), then the segments, the first
    one last: 8 bytes of iterations, 33 bytes of [B], 100 bytes of proof. *)
From S2P Require Import Prelude Words NumTheory Gmp QuadForm FormClass Integer Forms Nucomp Bqfc PrimeTest HashPrime ProofCommon.

Definition DEFAULT_ELEMENT : bytes := [0x08].

Definition IsDiscSizeBitsInRange (disc_size_bits : Z) : bool :=
  (0 <? disc_size_bits) && (disc_size_bits <=? BQFC_MAX_D_BITS).

Definition form_size : Z := BQFC_FORM_SIZE.
Definition segment_len : Z := 8 + B_bytes + form_size.

(** [&blob[i]], up to the end of the buffer. *)
Definition ptr (blob : bytes) (i : Z) : bytes := skipn (Z.to_nat i) blob.

(** The [form_size] bytes at [&blob[i]], which [DeserializeForm] is given. *)
Definition form_at (blob : bytes) (i : Z) : bytes := firstn (Z.to_nat form_size) (ptr blob i).

Section WithGmp.
Context `{G : Gmp} `{R : FormReducer}.

(** GMP traps on an even root of a negative number. *)
Definition root (t n : Z) : res Z :=
require (0 <=? t) || Z.odd n else division_by_zero ;; Ok (mpz_root t n).

Definition IsDiscriminantInRange (D : Z) : res bool :=
d_bits <- num_bits D ;; Ok ((0 <? d_bits) && (d_bits <=? BQFC_MAX_D_BITS)).

(** The first [len] bytes of a pointer, as a big-endian integer. *)
Definition integer_at (p : bytes) (len : Z) : Z := integer_of_bytes (firstn (Z.to_nat len) p).

(** The return code and [out_y], which [GetB] reduces in place. *)
Definition VerifyWesoSegment (fuel : nat) (D : Z) (x proof : form) (B iters : Z) : res (Z * form) :=
L <- root (- D) 4 ;;
r <- FastPow 2 iters B ;;
f1 <- FastPowFormNucomp proof D B L ;;
f2 <- FastPowFormNucomp x D r L ;;
out_y <- op_mul false f1 f2 ;;
' (B', _, out_y) <- GetB fuel D x out_y ;;
Ok (if B =? B' then 0 else -1, out_y).

(** [is_valid]. *)
Definition VerifyWesolowskiProof (fuel : nat) (D : Z) (x y proof : form) (iters : Z) : res bool :=
L <- root (- D) 4 ;;
' (B, x, y) <- GetB fuel D x y ;;
r <- FastPow 2 iters B ;;
f1 <- FastPowFormNucomp proof D B L ;;
f2 <- FastPowFormNucomp x D r L ;;
p <- op_mul false f1 f2 ;;
Ok (form_eqb p y).

(** The [while (i > base_len)] loop: [None] is [return false]. *)
Fixpoint check_segments (steps fuel : nat) (D : Z) (proof_blob : bytes) (base_len i : Z) (x : form) (iterations : Z)
: res (option (form * Z)) :=
if base_len <? i then
  match steps with
  | O => Throw out_of_fuel
  | S steps' =>
      let i := u64 (i - segment_len) in
      let segment_iters := BytesToInt64 (ptr proof_blob i) in
      proof <- DeserializeForm D (form_at proof_blob (i + 8 + B_bytes)) form_size false ;;
      let B := integer_at (ptr proof_blob (i + 8)) B_bytes in
      ' (ret, xnew) <- VerifyWesoSegment fuel D x proof B segment_iters ;;
      if negb (ret =? 0) then Ok None
      else
        let x := xnew in
        if iterations <? segment_iters then Ok None
        else check_segments steps' fuel D proof_blob base_len i x (u64 (iterations - segment_iters))
  end
else Ok (Some (x, iterations)).

(** Null pointers are [None]. *)
Definition CheckProofOfTimeNWesolowski (fuel : nat) (D : Z) (x_s proof_blob : option bytes)
  (proof_blob_len iterations disc_size_bits depth : Z) : res bool :=
in_range <- (if negb (IsDiscSizeBitsInRange disc_size_bits) then Ok false else IsDiscriminantInRange D) ;;
if negb in_range then Ok false
else
  let base_len := 2 * form_size in
  if form_size =? 0 then Ok false
  else
    let max_depth := (2 ^ 64 - 1 - base_len) / segment_len in
    if max_depth <? depth then Ok false
    else
      let expected_len := u64 (base_len + u64 (depth * segment_len)) in
      if negb (proof_blob_len =? expected_len) then Ok false
      else
        match x_s, proof_blob with
        | Some x_s, Some proof_blob =>
            x <- DeserializeForm D (form_at x_s 0) form_size false ;;
            r <- check_segments (Z.to_nat depth) fuel D proof_blob base_len proof_blob_len x iterations ;;
            match r with
            | None => Ok false
            | Some (x, iterations) =>
                y <- DeserializeForm D (form_at proof_blob 0) form_size false ;;
                proof <- DeserializeForm D (form_at proof_blob form_size) form_size false ;;
                VerifyWesolowskiProof fuel D x y proof iterations
            end
        | _, _ => Ok false
        end.

(** *** CheckProofOfTimeNWesolowskiCommon: [x] and [iterations] are references *)

Definition segment_forward (D : Z) (x proof : form) (B iters : Z) : res form :=
L <- root (- D) 4 ;;
r <- FastPow 2 iters B ;;
f1 <- FastPowFormNucomp proof D B L ;;
f2 <- FastPowFormNucomp x D r L ;;
op_mul false f1 f2.

Fixpoint common_segments (steps fuel : nat) (D : Z) (proof_blob : bytes) (last_segment : Z) (skip_check : bool)
  (i : Z) (x : form) (iterations : Z) : res (bool * form * Z) :=
if last_segment <? i then
  match steps with
  | O => Throw out_of_fuel
  | S steps' =>
      let i := u64 (i - segment_len) in
      let segment_iters := BytesToInt64 (ptr proof_blob i) in
      proof <- DeserializeForm D (form_at proof_blob (i + 8 + B_bytes)) form_size false ;;
      let B := integer_at (ptr proof_blob (i + 8)) B_bytes in
      ' (ret, xnew) <- (if negb skip_check then VerifyWesoSegment fuel D x proof B segment_iters
                        else (xnew <- segment_forward D x proof B segment_iters ;; Ok (0, xnew))) ;;
      if negb (ret =? 0) then Ok (false, x, iterations)
      else
        let x := xnew in
        if iterations <? segment_iters then Ok (false, x, iterations)
        else common_segments steps' fuel D proof_blob last_segment skip_check i x (u64 (iterations - segment_iters))
  end
else Ok (true, x, iterations).

(** A segment takes at least one byte, so the length bounds the iterations. *)
Definition CheckProofOfTimeNWesolowskiCommon (fuel : nat) (D : Z) (x : form) (proof_blob : option bytes)
  (proof_blob_len iterations last_segment : Z) (skip_check : bool) : res (bool * form * Z) :=
match proof_blob with
| None => Ok (false, x, iterations)
| Some proof_blob =>
    if proof_blob_len <? last_segment then Ok (false, x, iterations)
    else if negb ((proof_blob_len - last_segment) mod segment_len =? 0) then Ok (false, x, iterations)
    else common_segments (Z.to_nat ((proof_blob_len - last_segment) / segment_len)) fuel D proof_blob last_segment
           skip_check proof_blob_len x iterations
end.

Definition CheckProofOfTimeNWesolowskiWithB (fuel : nat) (D B : Z) (x_s proof_blob : option bytes)
  (proof_blob_len iterations depth : Z) : res (bool * bytes) :=
in_range <- IsDiscriminantInRange D ;;
if negb in_range then Ok (false, [])
else
  let max_depth := (2 ^ 64 - 1 - form_size) / segment_len in
  match x_s, proof_blob with
  | Some x_s, Some blob =>
      x <- DeserializeForm D (form_at x_s 0) form_size false ;;
      if (max_depth <? depth) || negb (proof_blob_len =? u64 (form_size + u64 (depth * segment_len))) then Ok (false, [])
      else
        ' (is_valid, x, iterations) <- CheckProofOfTimeNWesolowskiCommon fuel D x proof_blob proof_blob_len iterations form_size false ;;
        if negb is_valid then Ok (false, [])
        else if proof_blob_len <? form_size then Ok (false, [])
        else
          proof <- DeserializeForm D (form_at blob 0) form_size false ;;
          ' (ret, y_result) <- VerifyWesoSegment fuel D x proof B iterations ;;
          if ret =? -1 then Ok (false, [])
          else
            d_bits <- num_bits D ;;
            ' (result, _) <- SerializeForm y_result d_bits ;;
            Ok (true, result)
  | _, _ => Ok (false, [])
  end.

Definition GetBFromProof (fuel : nat) (D : Z) (x_s proof_blob : option bytes)
  (proof_blob_len iterations depth : Z) : res Z :=
in_range <- IsDiscriminantInRange D ;;
if negb in_range then Throw runtime_error
else
  let base_len := 2 * form_size in
  let max_depth := (2 ^ 64 - 1 - base_len) / segment_len in
  match x_s, proof_blob with
  | Some x_s, Some blob =>
      x <- DeserializeForm D (form_at x_s 0) form_size false ;;
      if (max_depth <? depth) || negb (proof_blob_len =? u64 (base_len + u64 (depth * segment_len))) then Throw runtime_error
      else
        ' (is_valid, x, _) <- CheckProofOfTimeNWesolowskiCommon fuel D x proof_blob proof_blob_len iterations (2 * form_size) true ;;
        if negb is_valid then Throw runtime_error
        else if proof_blob_len <? form_size then Throw runtime_error
        else
          y <- DeserializeForm D (form_at blob 0) form_size false ;;
          ' (B, _, _) <- GetB fuel D x y ;;
          Ok B
  | _, _ => Throw runtime_error
  end.

Definition CreateDiscriminantAndCheckProofOfTimeNWesolowski (fuel : nat) (seed : bytes) (disc_size_bits : Z)
  (x_s proof_blob : option bytes) (proof_blob_len iterations depth : Z) : res bool :=
if negb (IsDiscSizeBitsInRange disc_size_bits) then Ok false
else
  D <- CreateDiscriminant fuel seed disc_size_bits ;;
  in_range <- IsDiscriminantInRange D ;;
  if negb in_range then Ok false
  else CheckProofOfTimeNWesolowski fuel D x_s proof_blob proof_blob_len iterations disc_size_bits depth.

End WithGmp.

(** ** The equation a proof is checked against *)

(** [y = proof^B * x^(2^T mod B)] in the class group. *)
Definition weso (D : Z) (x y proof : form) (T B : Z) : Prop :=
  exists h1 h2, power D proof (Z.to_nat B) h1 /\ power D x (Z.to_nat (2 ^ T mod B)) h2 /\ composite h1 h2 y.

Lemma weso_unique D x y y' proof T B : class D x -> class D proof -> weso D x y proof T B -> weso D x y' proof T B -> equiv y y'.
Proof.
  intros Cx Cp (h1 & h2 & P1 & P2 & C) (h1' & h2' & P1' & P2' & C').
  rewrite <- (power_unique D proof Cp _ _ P1 _ P1'), <- (power_unique D x Cx _ _ P2 _ P2') in C'.
  apply (composite_unique h1 h2); try easy. apply (power_class D proof Cp _ _ P1).
Qed.

Lemma weso_equiv D x y y' proof T B : equiv y y' -> weso D x y proof T B -> weso D x y' proof T B.
Proof. intros Q (h1 & h2 & P1 & P2 & C). exists h1, h2. repeat (split; [easy|]). now rewrite <- Q. Qed.

(** The honest prover's values satisfy it: [y = x^(2^T)], [proof = x^(2^T / B)]. *)
Lemma weso_complete D x y proof T B : D < 0 -> class D x -> 0 < B -> 0 <= T ->
  power D x (Z.to_nat (2 ^ T)) y -> power D x (Z.to_nat (2 ^ T / B)) proof -> weso D x y proof T B.
Proof.
  intros HD Cx HB HT Py Pp. pose proof (power_class D x Cx _ _ Pp) as Cp.
  assert (He : exists e, principal D e).
  { destruct (power_total D x Cx 0) as (e & He); [|inversion He; eauto].
    clear - Py Cx. remember (Z.to_nat (2 ^ T)) as n. clear Heqn. induction Py; eauto. }
  destruct (power_total D proof Cp (Z.to_nat B) He) as (h1 & P1).
  destruct (power_total D x Cx (Z.to_nat (2 ^ T mod B)) He) as (h2 & P2).
  pose proof (power_class D x Cx _ _ P2) as C2. pose proof (power_class D proof Cp _ _ P1) as C1.
  destruct (composite_exists D h1 h2 C1 C2) as (k & C). exists h1, h2. repeat (split; [easy|]).
  pose proof (power_mul D x _ proof _ Cx Pp h1 P1) as P1'. pose proof (power_add D x Cx _ _ h1 h2 k P1' P2 C) as Pk.
  assert (HP : 0 < 2 ^ T) by (apply Z.pow_pos_nonneg; lia).
  pose proof (Z.div_mod (2 ^ T) B ltac:(lia)) as E. pose proof (Z.mod_pos_bound (2 ^ T) B HB). pose proof (Z.div_pos (2 ^ T) B ltac:(lia) HB).
  replace (Z.to_nat (2 ^ T / B) * Z.to_nat B + Z.to_nat (2 ^ T mod B))%nat with (Z.to_nat (2 ^ T)) in Pk.
  - now rewrite <- (power_unique D x Cx _ _ Pk _ Py).
  - rewrite E at 1. rewrite Z2Nat.inj_add, Z2Nat.inj_mul by nia. lia.
Qed.

Section Verify.
Context `{GL : GmpLaws} `{RL : FormReducerLaws}.
Variable D : Z.
Hypothesis HD : good_disc D.

Lemma root_ok : exists L, root (- D) 4 = Ok L /\ 0 <= L.
Proof.
  pose proof (gd_neg D HD). unfold root. destruct (Z.leb_spec 0 (- D)); [|lia]. cbn [orb].
  exists (mpz_root (- D) 4). split; [easy|]. apply root_nonneg; lia.
Qed.

(** The right-hand side of the equation, for any [B] of at most 264 bits. *)
Lemma segment_forward_ok x proof B T : class D x -> class D proof -> 0 < B < 2 ^ 264 -> 0 <= T ->
  exists p, segment_forward D x proof B T = Ok p /\ weso D x p proof T B /\ reduced p /\ class D p.
Proof.
  intros Cx Cp HB HT. unfold segment_forward. destruct root_ok as (L & -> & HL). cbn [bind].
  unfold FastPow. destruct (Z.eqb_spec B 0); [lia|]. cbn [bind]. rewrite mpz_powm_spec by lia.
  assert (Hbit : forall n, 0 <= n < 2 ^ 264 -> bitlen n < 2 ^ 31).
  { intros e He. eapply Z.le_lt_trans; [apply (bitlen_le e 264); [lia|rewrite Z.abs_eq; lia]|reflexivity]. }
  pose proof (Z.mod_pos_bound (2 ^ T) B ltac:(lia)) as Hm.
  destruct (fast_pow_ok D L HL proof Cp B (gd_mod D HD) ltac:(lia) (Hbit B ltac:(lia))) as (h1 & -> & P1). cbn [bind].
  destruct (fast_pow_ok D L HL x Cx (2 ^ T mod B) (gd_mod D HD) (proj1 Hm)
    (Hbit _ (conj (proj1 Hm) (Z.lt_trans _ _ _ (proj2 Hm) (proj2 HB))))) as (h2 & -> & P2). cbn [bind].
  destruct (multiply_class D h1 h2 (power_class D proof Cp _ _ P1) (power_class D x Cx _ _ P2)) as (p & E & C & Rp & Clp).
  exists p. unfold op_mul. repeat (split; [easy|]). split; [|easy]. now exists h1, h2.
Qed.

Lemma VerifyWesoSegment_eq fuel x proof B T :
  VerifyWesoSegment fuel D x proof B T =
    (p <- segment_forward D x proof B T ;; ' (B', _, y) <- GetB fuel D x p ;; Ok (if B =? B' then 0 else -1, y)).
Proof.
  unfold VerifyWesoSegment, segment_forward. destruct (root (- D) 4); [cbn [bind]|easy].
  destruct (FastPow 2 T B); [cbn [bind]|easy]. destruct (FastPowFormNucomp proof D B a); [cbn [bind]|easy].
  now destruct (FastPowFormNucomp x D a0 a).
Qed.

Lemma verify_segment_sound fuel x proof B T ret y : class D x -> class D proof -> 0 <= B < 2 ^ 264 -> 0 <= T ->
  VerifyWesoSegment fuel D x proof B T = Ok (ret, y) ->
  weso D x y proof T B /\ reduced y /\ class D y /\ (ret = 0 \/ ret = -1) /\
  (ret = 0 -> exists x', GetB fuel D x y = Ok (B, x', y)).
Proof.
  intros Cx Cp HB HT E. rewrite VerifyWesoSegment_eq in E. destruct (Z.eq_dec B 0) as [->|HB0].
  { unfold segment_forward in E. destruct root_ok as (L & EL & _). rewrite EL in E. discriminate. }
  destruct (segment_forward_ok x proof B T Cx Cp ltac:(lia) HT) as (p & Ep & W & Rp & Clp). rewrite Ep in E. cbn [bind] in E.
  apply bind_ok in E as ([[B' x'] y'] & EB & E). injection E as <- <-.
  destruct (GetB_ok fuel D x p B' x' y' HD Cx Clp EB) as (_ & Ey & _).
  rewrite (reduce_id D p (class_valid _ _ Clp) Rp) in Ey. injection Ey as <-. repeat (split; [easy|]).
  destruct (Z.eqb_spec B B') as [<-|]; split; try tauto; try lia. intros _. now exists x'.
Qed.

(** The final check. *)
Lemma verify_weso_ok fuel x y proof T : class D x -> class D y -> class D proof -> 0 <= T ->
  VerifyWesolowskiProof fuel D x y proof T =
    ('(B, x', y') <- GetB fuel D x y ;; p <- segment_forward D x' proof B T ;; Ok (form_eqb p y')).
Proof.
  intros Cx Cy Cp HT. unfold VerifyWesolowskiProof, segment_forward. destruct root_ok as (L & -> & HL). cbn [bind].
  destruct (GetB fuel D x y) as [[[B x'] y']|]; [cbn [bind]|easy].
  destruct (FastPow 2 T B); [cbn [bind]|easy]. destruct (FastPowFormNucomp proof D B L); [cbn [bind]|easy].
  now destruct (FastPowFormNucomp x' D a L).
Qed.

Lemma form_eqb_spec f g : form_eqb f g = true <-> f = g.
Proof.
  unfold form_eqb. rewrite !Bool.andb_true_iff, !Z.eqb_eq. destruct f as [a b c], g as [a' b' c']. cbn [fa fb fc]. split.
  - intros [[-> ->] ->]. easy.
  - now intros [= -> -> ->].
Qed.

Lemma weso_base x x' y proof T B : equiv x x' -> weso D x y proof T B <-> weso D x' y proof T B.
Proof.
  intros Q. split; intros (h1 & h2 & P1 & P2 & C); exists h1, h2; repeat (split; [easy|]); (split; [|easy]).
  - now apply (power_equiv_base D x).
  - now apply (power_equiv_base D x').
Qed.

Lemma verify_weso_iff fuel x y proof T : class D x -> class D y -> class D proof -> 0 <= T ->
  forall B x' y', GetB fuel D x y = Ok (B, x', y') ->
  exists b, VerifyWesolowskiProof fuel D x y proof T = Ok b /\ (b = true <-> weso D x y proof T B).
Proof.
  intros Cx Cy Cp HT B x' y' EB. destruct (GetB_ok fuel D x y B x' y' HD Cx Cy EB) as (_ & _ & _ & Ry & Qx & Qy & HB & _).
  rewrite verify_weso_ok, EB by easy. cbn [bind].
  assert (HB0 : 0 < B < 2 ^ 264). { assert (0 < 2 ^ 263) by reflexivity. lia. }
  assert (Cx' : class D x') by now rewrite <- Qx. assert (Cy' : class D y') by now rewrite <- Qy.
  destruct (segment_forward_ok x' proof B T Cx' Cp HB0 HT) as (p & -> & W & Rp & Clp). cbn [bind].
  exists (form_eqb p y'). split; [easy|]. rewrite form_eqb_spec, (weso_base x x') by easy. split.
  - intros ->. apply (weso_equiv D _ y'); [now symmetry|easy].
  - intros W'. apply (reduced_unique D); try easy; [apply Clp|]. rewrite <- Qy. now apply (weso_unique D x' p y proof T B).
Qed.
End Verify.

(** ** Whole proofs *)

(** The bytes of a segment. *)
Definition segment_bytes (T B : Z) (s : bytes) : bytes := Int64ToBytes T ++ be_split 33 B ++ s.

(** The segments' part of the blob: the first segment is last. *)
Definition segments_blob (segs : list (Z * Z * bytes)) : bytes :=
  flat_map (fun '(T, B, s) => segment_bytes T B s) (rev segs).

(** [weso_chain fuel D x segs T y]: the segments, [(T, B, bytes of the proof)] in the order they are checked, lead from [x] to [y], [T] squarings in
    all, each with a proof for the [B] that [GetB] derives from its ends. *)
Inductive weso_chain {G : Gmp} (fuel : nat) (D : Z) : form -> list (Z * Z * bytes) -> Z -> form -> Prop :=
| chain_nil x : weso_chain fuel D x [] 0 x
| chain_cons x x' x1 proof B s T U segs y : 0 <= T -> length s = 100%nat -> DeserializeForm D s 100 false = Ok proof -> reduced x1 -> GetB fuel D x x1 = Ok (B, x', x1) ->
    weso D x x1 proof T B -> weso_chain fuel D x1 segs U y -> weso_chain fuel D x ((T, B, s) :: segs) (T + U) y.

(** An honest chain: the segments in the order they are checked, [(T, B, bytes
    of the proof)]. *)
Inductive honest {G : Gmp} (fuel : nat) (D : Z) : form -> list (Z * Z * bytes) -> Z -> form -> Prop :=
| honest_nil x : honest fuel D x [] 0 x
| honest_cons x x' x1 proof B s T U segs y : 0 <= T -> length s = 100%nat -> DeserializeForm D s 100 false = Ok proof ->
    power D x (Z.to_nat (2 ^ T)) x1 -> reduced x1 -> GetB fuel D x x1 = Ok (B, x', x1) ->
    power D x (Z.to_nat (2 ^ T / B)) proof -> honest fuel D x1 segs U y ->
    honest fuel D x ((T, B, s) :: segs) (T + U) y.

Section Chains.
Context `{GL : GmpLaws} `{RL : FormReducerLaws}.
Variable D : Z.
Hypothesis HD : good_disc D.
Variable fuel : nat.

Lemma integer_at_range p n : bytes_ok p -> 0 <= integer_at p n < 256 ^ Z.of_nat (Z.to_nat n).
Proof.
  intros Hp. unfold integer_at, integer_of_bytes. rewrite mpz_import_msb_spec.
  pose proof (be_combine_range (firstn (Z.to_nat n) p) (Forall_firstn' _ _ _ Hp)) as Hr. split; [apply Hr|].
  eapply Z.lt_le_trans; [apply Hr|]. apply Z.pow_le_mono_r; [lia|]. rewrite length_firstn. lia.
Qed.

Lemma ptr_int64 blob i : bytes_ok blob -> 0 <= i -> i + 8 <= Z.of_nat (length blob) -> 0 <= BytesToInt64 (ptr blob i) < 2 ^ 64.
Proof.
  intros Hb Hi Hl. unfold BytesToInt64. replace (firstn 8 (ptr blob i)) with (firstn 8 (firstn 8 (ptr blob i))) by now rewrite firstn_firstn.
  apply BytesToInt64_range.
  - unfold ptr. rewrite length_firstn, length_skipn. lia.
  - apply Forall_firstn', Forall_skipn'. exact Hb.
Qed.

Lemma segment_len_141 : segment_len = 141.
Proof. reflexivity. Qed.

(** What the loop reads of a segment is all of its bytes. *)
Lemma segment_at blob j : bytes_ok blob -> 0 <= j -> j + 141 <= Z.of_nat (length blob) ->
  firstn 141 (ptr blob j) = segment_bytes (BytesToInt64 (ptr blob j)) (integer_at (ptr blob (j + 8)) B_bytes) (form_at blob (j + 8 + B_bytes)).
Proof.
  intros Hb Hj Hl. set (p := ptr blob j). assert (Lp : (141 <= length p)%nat) by (unfold p, ptr; rewrite length_skipn; lia).
  assert (Bp : bytes_ok p) by (apply Forall_skipn'; exact Hb).
  assert (E8 : ptr blob (j + 8) = skipn 8 p) by (unfold p, ptr; rewrite skipn_skipn; f_equal; lia).
  assert (E41 : ptr blob (j + 8 + B_bytes) = skipn 41 p) by (unfold p, ptr; rewrite skipn_skipn; f_equal; change B_bytes with 33; lia).
  unfold form_at, integer_at, segment_bytes. rewrite E8, E41. change (Z.to_nat form_size) with 100%nat. change (Z.to_nat B_bytes) with 33%nat.
  assert (F8 : Int64ToBytes (BytesToInt64 p) = firstn 8 p).
  { assert (E : BytesToInt64 p = BytesToInt64 (firstn 8 p)) by (unfold BytesToInt64; now rewrite firstn_firstn).
    rewrite E, BytesToInt64_be by (rewrite ?length_firstn; try lia; now apply Forall_firstn'). unfold Int64ToBytes. rewrite bswap_be.
    replace 8%nat with (length (firstn 8 p)) at 1 by (rewrite length_firstn; lia). apply be_split_combine. now apply Forall_firstn'. }
  assert (F33 : be_split 33 (integer_of_bytes (firstn 33 (skipn 8 p))) = firstn 33 (skipn 8 p)).
  { unfold integer_of_bytes. rewrite mpz_import_msb_spec. replace 33%nat with (length (firstn 33 (skipn 8 p))) at 1 by (rewrite length_firstn, length_skipn; lia).
    apply be_split_combine. now apply Forall_firstn', Forall_skipn'. }
  rewrite F8, F33. change 141%nat with (8 + (33 + 100))%nat. rewrite firstn_add, firstn_add, skipn_skipn. reflexivity.
Qed.

(** Soundness of the loop. *)
Lemma check_segments_sound blob base : bytes_ok blob -> 0 <= base -> forall k i x it x' it',
  class D x -> reduced x -> i = base + Z.of_nat k * 141 -> i <= Z.of_nat (length blob) -> i < 2 ^ 64 -> 0 <= it < 2 ^ 64 ->
  check_segments k fuel D blob base i x it = Ok (Some (x', it')) ->
  class D x' /\ reduced x' /\ 0 <= it' <= it /\
  exists segs, length segs = k /\ firstn (Z.to_nat i) blob = firstn (Z.to_nat base) blob ++ segments_blob segs /\ weso_chain fuel D x segs (it - it') x'.
Proof.
  intros Hb H0. induction k as [|k IH]; intros i x it x' it' Cx Rx Hi Hl H64 Hit E; cbn [check_segments] in E.
  - destruct (Z.ltb_spec base i); [lia|]. injection E as <- <-. rewrite Z.sub_diag. split; [easy|]. split; [easy|]. split; [lia|]. exists []. split; [reflexivity|].
    split; [cbn [segments_blob rev flat_map]; rewrite app_nil_r; f_equal; lia|apply chain_nil].
  - destruct (Z.ltb_spec base i); [|lia]. rewrite segment_len_141, u64_id in E by lia. set (j := i - 141) in *.
    pose proof (ptr_int64 blob j Hb ltac:(lia) ltac:(lia)) as Ht. set (T := BytesToInt64 (ptr blob j)) in *.
    apply bind_ok in E as (proof & Ep & E). destruct (Deserialize_valid D _ _ _ _ HD Ep) as [Cp Rp].
    pose proof (integer_at_range (ptr blob (j + 8)) B_bytes (Forall_skipn' _ _ _ Hb)) as HB.
    change (256 ^ Z.of_nat (Z.to_nat B_bytes)) with (2 ^ 264) in HB. set (B := integer_at (ptr blob (j + 8)) B_bytes) in *.
    apply bind_ok in E as ([ret x1] & Ev & E).
    destruct (verify_segment_sound D HD fuel x proof B T ret x1 Cx Cp HB ltac:(lia) Ev) as (W & R1 & C1 & Hr & HG).
    destruct (Z.eqb_spec ret 0) as [->|]; cbn [negb] in E; [|discriminate]. destruct (HG eq_refl) as (xr & EG).
    destruct (Z.ltb_spec it T); [discriminate|]. rewrite u64_id in E by lia.
    destruct (IH j x1 (it - T) x' it' C1 R1 ltac:(lia) ltac:(lia) ltac:(lia) ltac:(lia) E) as (Cx' & Rx' & Hit' & segs & Lsegs & Eb & Hch).
    split; [easy|]. split; [easy|]. split; [lia|]. exists ((T, B, form_at blob (j + 8 + B_bytes)) :: segs). split; [cbn [length]; lia|]. split.
    + unfold segments_blob in *. cbn [rev]. rewrite flat_map_app. cbn [flat_map]. rewrite app_nil_r, app_assoc, <- Eb. unfold T, B. rewrite <- segment_at by (assumption || lia).
      unfold ptr. replace (Z.to_nat i) with (Z.to_nat j + 141)%nat by lia. apply firstn_add.
    + replace (it - it') with (T + (it - T - it')) by lia. apply (chain_cons fuel D x xr x1 proof B); try assumption; [lia|].
      unfold form_at, ptr. rewrite length_firstn, length_skipn. change B_bytes with 33. change (Z.to_nat form_size) with 100%nat. lia.
Qed.

(** *** Completeness of the loop *)

Lemma segment_bytes_length T B s : length s = 100%nat -> length (segment_bytes T B s) = 141%nat.
Proof. intros H. unfold segment_bytes. now rewrite !length_app, Int64ToBytes_length, be_split_length, H. Qed.

Lemma skipn_app_exact {A} (xs ys : list A) n : length xs = n -> skipn n (xs ++ ys) = ys.
Proof. intros <-. rewrite skipn_app, skipn_all, Nat.sub_diag. reflexivity. Qed.

Lemma firstn_app_exact {A} (xs ys : list A) n : length xs = n -> firstn n (xs ++ ys) = xs.
Proof. intros <-. rewrite firstn_app, firstn_all, Nat.sub_diag. cbn [firstn]. apply app_nil_r. Qed.

Lemma read_segment pre T B s post : 0 <= T < 2 ^ 64 -> 0 <= B < 2 ^ 264 -> length s = 100%nat ->
  let blob := pre ++ segment_bytes T B s ++ post in let i := Z.of_nat (length pre) in
  BytesToInt64 (ptr blob i) = T /\ integer_at (ptr blob (i + 8)) B_bytes = B /\ form_at blob (i + 8 + B_bytes) = s.
Proof.
  intros HT HB Hs blob i. subst blob i. unfold segment_bytes, form_at, ptr, integer_at. rewrite Nat2Z.id, <- !app_assoc.
  rewrite (skipn_app_exact pre _ _ eq_refl). set (rest := s ++ post).
  assert (E8 : skipn (Z.to_nat (Z.of_nat (length pre) + 8)) (pre ++ Int64ToBytes T ++ be_split 33 B ++ rest) = be_split 33 B ++ rest).
  { rewrite app_assoc. apply skipn_app_exact. rewrite length_app, Int64ToBytes_length. lia. }
  assert (E41 : skipn (Z.to_nat (Z.of_nat (length pre) + 8 + B_bytes)) (pre ++ Int64ToBytes T ++ be_split 33 B ++ rest) = rest).
  { rewrite !app_assoc. apply skipn_app_exact. rewrite !length_app, Int64ToBytes_length, be_split_length. change B_bytes with 33. lia. }
  rewrite E8, E41. split; [|split].
  - rewrite <- (BytesToInt64_ToBytes T HT) at 2. unfold BytesToInt64.
    rewrite (firstn_app_exact (Int64ToBytes T)) by apply Int64ToBytes_length.
    rewrite (firstn_all2 (n := 8) (Int64ToBytes T)) by (rewrite Int64ToBytes_length; lia). reflexivity.
  - change (Z.to_nat B_bytes) with 33%nat. rewrite firstn_app_exact by apply be_split_length.
    unfold integer_of_bytes. rewrite mpz_import_msb_spec. apply be_combine_split. exact HB.
  - apply firstn_app_exact. exact Hs.
Qed.

Lemma verify_segment_complete x x' x1 proof B T : class D x -> class D proof -> class D x1 -> reduced x1 -> 0 <= T ->
  0 < B < 2 ^ 264 -> GetB fuel D x x1 = Ok (B, x', x1) -> weso D x x1 proof T B ->
  VerifyWesoSegment fuel D x proof B T = Ok (0, x1).
Proof.
  intros Cx Cp C1 R1 HT HB EG W. rewrite VerifyWesoSegment_eq.
  destruct (segment_forward_ok D HD x proof B T Cx Cp HB HT) as (p & -> & W' & Rp & Clp). cbn [bind].
  assert (Ep : p = x1).
  { apply (reduced_unique D); try easy; [apply Clp|]. now apply (weso_unique D x p x1 proof T B). }
  rewrite Ep, EG. cbn [bind]. now rewrite Z.eqb_refl.
Qed.

Lemma honest_class x segs U y : honest fuel D x segs U y -> class D x -> class D y /\ 0 <= U.
Proof.
  induction 1 as [x|x x' x1 proof B s T U segs y HT Hs Ep Py R1 EG Pp Hh IH]; intros Cx; [split; [easy|lia]|].
  destruct IH as [IH1 IH2]; [now apply (power_class D x Cx (Z.to_nat (2 ^ T)))|]. split; [easy|lia].
Qed.

Lemma check_segments_complete pre x segs U y : honest fuel D x segs U y -> class D x ->
  forall it, U <= it < 2 ^ 64 -> Z.of_nat (length (pre ++ segments_blob segs)) < 2 ^ 64 ->
  forall blob post, blob = pre ++ segments_blob segs ++ post ->
  check_segments (length segs) fuel D blob (Z.of_nat (length pre)) (Z.of_nat (length (pre ++ segments_blob segs))) x it =
    Ok (Some (y, it - U)).
Proof.
  induction 1 as [x|x x' x1 proof B s T U segs y HT Hs Ep Py R1 EG Pp Hh IH]; intros Cx it Hit Hl blob post Eb.
  - unfold segments_blob. cbn [rev flat_map length check_segments]. rewrite app_nil_r, Z.ltb_irrefl. now rewrite Z.sub_0_r.
  - pose proof (power_class D x Cx _ _ Py) as C1. destruct (honest_class x1 segs U y Hh C1) as [Cy HU].
    destruct (GetB_ok fuel D x x1 B x' x1 HD Cx C1 EG) as (_ & _ & _ & _ & _ & _ & HB & _).
    assert (Hs1 : segments_blob ((T, B, s) :: segs) = segments_blob segs ++ segment_bytes T B s).
    { unfold segments_blob. cbn [rev]. rewrite flat_map_app. cbn [flat_map]. now rewrite app_nil_r. }
    rewrite Hs1 in *. rewrite app_assoc in *. set (q := pre ++ segments_blob segs) in *.
    rewrite length_app, (segment_bytes_length T B s Hs) in *. cbn [length check_segments].
    assert (Hq : (length pre <= length q)%nat) by (subst q; rewrite length_app; lia).
    destruct (Z.ltb_spec (Z.of_nat (length pre)) (Z.of_nat (length q + 141))); [|lia]. rewrite segment_len_141, u64_id by lia.
    replace (Z.of_nat (length q + 141) - 141) with (Z.of_nat (length q)) by lia.
    assert (HBp : 0 < B) by (assert (0 < 2 ^ 263) by reflexivity; lia).
    assert (Eb' : blob = q ++ segment_bytes T B s ++ post) by (rewrite Eb; subst q; rewrite <- !app_assoc; reflexivity).
    destruct (read_segment q T B s post ltac:(lia) ltac:(lia) Hs) as (E1 & E2 & E3). rewrite <- Eb' in E1, E2, E3.
    rewrite E1, E2, E3. change form_size with 100. rewrite Ep. cbn [bind].
    assert (Cp : class D proof) by apply (power_class D x Cx _ _ Pp).
    assert (W : weso D x x1 proof T B) by (apply weso_complete; try easy; apply HD).
    rewrite (verify_segment_complete x x' x1 proof B T) by (try easy; lia). cbn [bind Z.eqb negb].
    destruct (Z.ltb_spec it T); [lia|]. rewrite u64_id by lia.
    replace (it - (T + U)) with (it - T - U) by lia. subst q.
    apply (IH C1 (it - T) ltac:(lia) ltac:(lia) blob (segment_bytes T B s ++ post)). rewrite Eb, <- !app_assoc. reflexivity.
Qed.
End Chains.

(** [v] decides [P B] for the [B] of [g], or fails as [g] does. *)
Definition decides (g : res (Z * form * form)) (v : res bool) (P : Z -> Prop) : Prop :=
  match g with
  | Ok (B, _, _) => exists b, v = Ok b /\ (b = true <-> P B)
  | Throw e => v = Throw e
  end.

(** The final check decides the Wesolowski equation. For
    forms of one discriminant of at most 1024 bits without square factors: when
    [GetB] derives a [B] from the (classes of the) input and output,
    [VerifyWesolowskiProof] returns, and its verdict is true exactly when
    [y = proof^B * x^(2^T mod B)] in the class group; otherwise it fails the way
    [GetB] does. *)
Theorem weso_check_iff {G : Gmp} {GL : GmpLaws G} {R : FormReducer} {RL : FormReducerLaws R} fuel D x y proof T :
  good_disc D -> class D x -> class D y -> class D proof -> 0 <= T ->
  decides (GetB fuel D x y) (VerifyWesolowskiProof fuel D x y proof T) (weso D x y proof T).
Proof.
  intros HD Cx Cy Cp HT. unfold decides. destruct (GetB fuel D x y) as [[[B x'] y']|e] eqn:EB.
  - now apply (verify_weso_iff D HD fuel x y proof T Cx Cy Cp HT B x' y').
  - rewrite (verify_weso_ok D HD) by easy. now rewrite EB.
Qed.

Lemma weso_check_iff_witness :
  (good_disc (-47) /\ class (-47) (mkform 2 1 6) /\ 0 <= 10) /\
  decides (GetB (G := Ref.gmp) 200 (-47) (mkform 2 1 6) (mkform 2 (-1) 6))
    (VerifyWesolowskiProof (G := Ref.gmp) (R := vdf_new_reducer) 200 (-47) (mkform 2 1 6) (mkform 2 (-1) 6) (mkform 1 1 12) 10)
    (weso (-47) (mkform 2 1 6) (mkform 2 (-1) 6) (mkform 1 1 12) 10).
Proof.
  assert (C2 : class (-47) (mkform 2 (-1) 6)) by (apply valid_class; [exact good_disc_47|split; reflexivity]).
  assert (C1 : class (-47) (mkform 1 1 12)) by (apply valid_class; [exact good_disc_47|split; reflexivity]).
  assert (HT : 0 <= 10) by lia.
  split; [split; [exact good_disc_47|split; [exact class_form_47|exact HT]]|].
  exact (weso_check_iff (GL := Ref.laws) (RL := vdf_new_reducer_laws) 200 (-47) _ _ _ 10 good_disc_47 class_form_47 C2 C1 HT).
Defined.

(** [P] holds whenever [v] is true. *)
Definition accepts (v : res bool) (P : Prop) : Prop := match v with Ok true => P | _ => True end.

(** What an accepted proof shows: the blob is 200 bytes and [depth] segments, and these are a chain. *)
Definition proved {G : Gmp} (fuel : nat) (D : Z) (x_s blob : bytes) (iterations depth : Z) : Prop :=
  exists ys ps segs x xm y proof B T xm' y',
    blob = ys ++ ps ++ segments_blob segs /\ length ys = 100%nat /\ length ps = 100%nat /\ Z.of_nat (length segs) = depth /\
    DeserializeForm D (form_at x_s 0) 100 false = Ok x /\ reduced x /\
    weso_chain fuel D x segs T xm /\ T <= iterations /\
    DeserializeForm D ys 100 false = Ok y /\ reduced y /\
    DeserializeForm D ps 100 false = Ok proof /\
    GetB fuel D xm y = Ok (B, xm', y') /\ weso D xm y proof (iterations - T) B.

(** C1: an accepted n-Wesolowski proof is a chain of proved
    equations. If [CheckProofOfTimeNWesolowski] returns true, the input decodes
    to a reduced form [x] of the discriminant, and the blob consists of the bytes of [y] and of a proof
    and of exactly [depth] segments, each with its iterations in 8 bytes, its [B] in 33 and the 100 bytes of its proof.
    These very segments lead from [x] to
    some [xm] in as many squarings as their iterations add up to, [T <= iterations], each proof
    satisfying the equation for the [B] in its bytes, which [GetB] derives from the segment's ends,
    and the first 200 bytes decode to [y] and a proof for the remaining
    [iterations - T] squarings from [xm] to [y]. *)
Theorem check_proof_sound {G : Gmp} {GL : GmpLaws G} {R : FormReducer} {RL : FormReducerLaws R}
    fuel D x_s blob len iterations size depth :
  good_disc D -> bytes_ok blob -> Z.of_nat (length blob) = len -> 0 <= depth -> 0 <= iterations < 2 ^ 64 ->
  accepts (CheckProofOfTimeNWesolowski fuel D (Some x_s) (Some blob) len iterations size depth)
    (len = 200 + depth * 141 /\ proved fuel D x_s blob iterations depth).
Proof.
  intros HD Hb Hl Hdep Hit. unfold accepts. destruct (CheckProofOfTimeNWesolowski _ _ _ _ _ _ _ _) as [[|]|] eqn:E; try exact I.
  unfold CheckProofOfTimeNWesolowski in E.
  apply bind_ok in E as (ir & _ & E). destruct ir; cbn [negb] in E; [|discriminate].
  change (form_size =? 0) with false in E. cbv iota in E. rewrite segment_len_141 in E. change (2 * form_size) with 200 in E.
  destruct (Z.ltb_spec ((2 ^ 64 - 1 - 200) / 141) depth) as [|Hmax]; [discriminate|].
  assert (Hbound : 200 + depth * 141 < 2 ^ 64).
  { pose proof (Z.mul_div_le (2 ^ 64 - 1 - 200) 141 ltac:(lia)). lia. }
  rewrite (u64_id (depth * 141)), u64_id in E by lia.
  destruct (Z.eqb_spec len (200 + depth * 141)) as [El|]; cbn [negb] in E; [|discriminate].
  apply bind_ok in E as (x & Ex & E). destruct (Deserialize_valid D _ _ _ _ HD Ex) as [Cx Rx].
  apply bind_ok in E as (r & Er & E). destruct r as [[xm it']|]; [|discriminate].
  destruct (check_segments_sound D HD fuel blob 200 Hb ltac:(lia) (Z.to_nat depth) len x iterations xm it' Cx Rx) as (Cm & Rm & Hit' & segs & Lsegs & Eblob & Hch);
    try lia; [exact Er|].
  apply bind_ok in E as (y & Ey & E). destruct (Deserialize_valid D _ _ _ _ HD Ey) as [Cy Ry].
  apply bind_ok in E as (proof & Ep & E). destruct (Deserialize_valid D _ _ _ _ HD Ep) as [Cp _].
  destruct (GetB fuel D xm y) as [[[B xm'] y']|e] eqn:EB.
  2: { rewrite (verify_weso_ok D HD), EB in E by (try easy; lia). discriminate. }
  destruct (verify_weso_iff D HD fuel xm y proof it' Cm Cy Cp ltac:(lia) B xm' y' EB) as (b & Eb & Hbw).
  rewrite E in Eb. injection Eb as <-. split; [exact El|].
  exists (form_at blob 0), (form_at blob 100), segs, x, xm, y, proof, B, (iterations - it'), xm', y'.
  replace (iterations - (iterations - it')) with it' by lia. rewrite (firstn_all2 (n := Z.to_nat len) blob) in Eblob by lia.
  assert (Esplit : firstn (Z.to_nat 200) blob = form_at blob 0 ++ form_at blob 100) by (unfold form_at, ptr; change (Z.to_nat 200) with (100 + 100)%nat; rewrite firstn_add; reflexivity).
  split; [now rewrite app_assoc, <- Esplit|]. split; [unfold form_at, ptr; rewrite length_firstn, length_skipn; change (Z.to_nat form_size) with 100%nat; lia|].
  split; [unfold form_at, ptr; rewrite length_firstn, length_skipn; change (Z.to_nat form_size) with 100%nat; lia|]. split; [lia|].
  do 2 (split; [easy|]). split; [exact Hch|]. split; [lia|]. do 4 (split; [easy|]). now apply Hbw.
Qed.

Lemma check_accepts `{GL : GmpLaws} `{RL : FormReducerLaws}
    fuel D x_s x segs U xm T y ys proof ps size :
  good_disc D -> 0 < size <= 1024 ->
  length x_s = 100%nat -> DeserializeForm D x_s 100 false = Ok x ->
  honest fuel D x segs U xm -> 0 <= T -> U + T < 2 ^ 64 ->
  length ys = 100%nat -> DeserializeForm D ys 100 false = Ok y -> power D xm (Z.to_nat (2 ^ T)) y ->
  length ps = 100%nat -> DeserializeForm D ps 100 false = Ok proof ->
  (forall B xm' y', GetB fuel D xm y = Ok (B, xm', y') -> power D xm (Z.to_nat (2 ^ T / B)) proof) ->
  let blob := ys ++ ps ++ segments_blob segs in let len := Z.of_nat (length blob) in
  len < 2 ^ 64 ->
  CheckProofOfTimeNWesolowski fuel D (Some x_s) (Some blob) len (U + T) size (Z.of_nat (length segs)) =
    (_ <- GetB fuel D xm y ;; Ok true).
Proof.
  intros HD Hsz Lx Ex Hh HT HUT Ly Ey Py Lp Ep Pp blob len Hlen.
  destruct (Deserialize_valid D _ _ _ _ HD Ex) as [Cx Rx]. destruct (honest_class D fuel x segs U xm Hh Cx) as [Cm HU].
  destruct (Deserialize_valid D _ _ _ _ HD Ey) as [Cy Ry]. destruct (Deserialize_valid D _ _ _ _ HD Ep) as [Cp Rp].
  assert (Hsegs : length (segments_blob segs) = (141 * length segs)%nat).
  { clear - Hh. induction Hh as [|x x' x1 proof B s T U segs y HT Hs _ _ _ _ _ _ IH]; [easy|].
    unfold segments_blob in *. cbn [rev]. rewrite flat_map_app, length_app, IH. cbn [flat_map]. rewrite app_nil_r, segment_bytes_length by easy. cbn [length]. lia. }
  assert (Hl : len = 200 + Z.of_nat (length segs) * 141) by (subst len blob; rewrite !length_app, Hsegs; lia).
  unfold CheckProofOfTimeNWesolowski. unfold IsDiscSizeBitsInRange, IsDiscriminantInRange, BQFC_MAX_D_BITS.
  destruct (good_disc_bound D HD) as [Hbd _].
  destruct (Z.ltb_spec 0 size); [|lia]. destruct (Z.leb_spec size 1024); [|lia]. cbn [andb negb].
  rewrite num_bits_disc by easy. cbn [bind]. destruct (Z.ltb_spec 0 (bitlen D)); [|lia]. destruct (Z.leb_spec (bitlen D) 1024); [|lia]. cbn [andb negb].
  change (form_size =? 0) with false. cbv iota. rewrite segment_len_141. change (2 * form_size) with 200.
  destruct (Z.ltb_spec ((2 ^ 64 - 1 - 200) / 141) (Z.of_nat (length segs))) as [Hbad|_].
  { exfalso. pose proof (Z.div_le_lower_bound (2 ^ 64 - 1 - 200) 141 (Z.of_nat (length segs)) ltac:(lia) ltac:(lia)). lia. }
  rewrite (u64_id (Z.of_nat (length segs) * 141)), u64_id by lia. rewrite Hl, Z.eqb_refl. cbn [negb].
  assert (F0 : form_at x_s 0 = x_s) by (apply firstn_all2; change (Z.to_nat form_size) with 100%nat; unfold ptr; cbn [Z.to_nat skipn]; lia).
  rewrite F0. change form_size with 100. rewrite Ex. cbn [bind].
  pose proof (check_segments_complete D HD fuel (ys ++ ps) x segs U xm Hh Cx (U + T) ltac:(lia)) as HC.
  rewrite <- app_assoc in HC. specialize (HC Hlen blob [] ltac:(subst blob; now rewrite app_nil_r, <- app_assoc)).
  rewrite length_app, Ly, Lp in HC. change (Z.of_nat (100 + 100)) with 200 in HC. fold blob in HC. fold len in HC. rewrite Hl in HC.
  rewrite Nat2Z.id, HC. cbn [bind]. replace (U + T - U) with T by lia.
  assert (Fy : form_at blob 0 = ys) by (unfold form_at, ptr, blob; cbn [Z.to_nat skipn]; now apply firstn_app_exact).
  assert (Fp : form_at blob 100 = ps).
  { unfold form_at, ptr, blob. rewrite (skipn_app_exact ys) by (now rewrite Ly). now apply firstn_app_exact. }
  rewrite Fy, Ey, Fp, Ep. cbn [bind].
  destruct (GetB fuel D xm y) as [[[B xm'] y']|e] eqn:EB; [|rewrite (verify_weso_ok D HD) by easy; now rewrite EB].
  specialize (Pp B xm' y' eq_refl). cbn [bind].
  destruct (verify_weso_iff D HD fuel xm y proof T Cm Cy Cp HT B xm' y' EB) as (b & -> & Hb). f_equal. apply Hb.
  destruct (GetB_ok fuel D xm y B xm' y' HD Cm Cy EB) as (_ & _ & _ & _ & _ & _ & HB & _).
  assert (0 < 2 ^ 263) by reflexivity. apply weso_complete; try easy; [apply HD|lia].
Qed.

(** C2: every honest proof is accepted. If each segment
    holds its count, the [B] that [GetB] derives and a serialized
    [x^(2^T / B)], and the first 200 bytes hold [y = xm^(2^T)] and
    [xm^(2^T / B)] for the [B] of the ends, and the counts add up to
    [iterations], then the check returns true as soon as [GetB] returns (and
    otherwise what [GetB] throws), for every number of segments. *)
Theorem check_proof_complete {G : Gmp} {GL : GmpLaws G} {R : FormReducer} {RL : FormReducerLaws R}
    fuel D x_s x segs U xm T y ys proof ps size :
  good_disc D -> 0 < size <= 1024 ->
  length x_s = 100%nat -> DeserializeForm D x_s 100 false = Ok x ->
  honest fuel D x segs U xm -> 0 <= T -> U + T < 2 ^ 64 ->
  length ys = 100%nat -> DeserializeForm D ys 100 false = Ok y -> power D xm (Z.to_nat (2 ^ T)) y ->
  length ps = 100%nat -> DeserializeForm D ps 100 false = Ok proof ->
  (forall B xm' y', GetB fuel D xm y = Ok (B, xm', y') -> power D xm (Z.to_nat (2 ^ T / B)) proof) ->
  let blob := ys ++ ps ++ segments_blob segs in let len := Z.of_nat (length blob) in
  len < 2 ^ 64 ->
  CheckProofOfTimeNWesolowski fuel D (Some x_s) (Some blob) len (U + T) size (Z.of_nat (length segs)) =
    (_ <- GetB fuel D xm y ;; Ok true).
Proof. exact (check_accepts fuel D x_s x segs U xm T y ys proof ps size). Qed.

(** The forms of the witness: [2^4 = 1 (mod 5)], so [x^(2^4) = x] in the class
    group of order 5, and [2^4 / B = 0] for every 264-bit [B]. *)
Lemma power_47_16 : power (-47) (mkform 2 1 6) (Z.to_nat (2 ^ 4)) (mkform 2 1 6).
Proof.
  destruct (fast_pow_ok (GL := Ref.laws) (RL := vdf_new_reducer_laws) (-47) 2 ltac:(lia) (mkform 2 1 6) class_form_47 (2 ^ 4)
    eq_refl ltac:(lia) ltac:(reflexivity)) as (h & E & P).
  assert (E' : FastPowFormNucomp (G := Ref.gmp) (R := vdf_new_reducer) (mkform 2 1 6) (-47) (2 ^ 4) 2 = Ok (mkform 2 1 6)) by (vm_compute; reflexivity).
  rewrite E in E'. injection E' as ->. exact P.
Qed.

Lemma principal_47 : principal (-47) (mkform 1 1 12).
Proof. split; [reflexivity|]. exists 1, 12. split; reflexivity. Qed.

Definition bytes_47_x : bytes := 8 :: repeat 0 99.
Definition bytes_47_1 : bytes := 4 :: repeat 0 99.

Lemma check_proof_complete_witness : let x := mkform 2 1 6 in let e := mkform 1 1 12 in
  let blob := bytes_47_x ++ bytes_47_1 ++ segments_blob [] in
  (good_disc (-47) /\ 0 < 1024 <= 1024 /\ length bytes_47_x = 100%nat /\
   DeserializeForm (G := Ref.gmp) (-47) bytes_47_x 100 false = Ok x /\ honest (G := Ref.gmp) 200 (-47) x [] 0 x /\
   power (-47) x (Z.to_nat (2 ^ 4)) x /\ DeserializeForm (G := Ref.gmp) (-47) bytes_47_1 100 false = Ok e /\
   (forall B x' y', GetB (G := Ref.gmp) 200 (-47) x x = Ok (B, x', y') -> power (-47) x (Z.to_nat (2 ^ 4 / B)) e)) /\
  CheckProofOfTimeNWesolowski (G := Ref.gmp) (R := vdf_new_reducer) 200 (-47) (Some bytes_47_x) (Some blob)
    (Z.of_nat (length blob)) (0 + 4) 1024 (Z.of_nat (length (A := Z * Z * bytes) [])) =
    (_ <- GetB (G := Ref.gmp) 200 (-47) x x ;; Ok true).
Proof.
  intros x e blob.
  assert (Ex : DeserializeForm (G := Ref.gmp) (-47) bytes_47_x 100 false = Ok x) by (vm_compute; reflexivity).
  assert (Ee : DeserializeForm (G := Ref.gmp) (-47) bytes_47_1 100 false = Ok e) by (vm_compute; reflexivity).
  assert (Hp : forall B x' y', GetB (G := Ref.gmp) 200 (-47) x x = Ok (B, x', y') -> power (-47) x (Z.to_nat (2 ^ 4 / B)) e).
  { intros B x' y' E. destruct (GetB_ok (GL := Ref.laws) 200 (-47) x x B x' y' good_disc_47 class_form_47 class_form_47 E) as (_ & _ & _ & _ & _ & _ & HB & _).
    assert (2 ^ 4 < 2 ^ 263) by reflexivity. rewrite Z.div_small by (split; [lia|apply (Z.lt_le_trans _ (2 ^ 263)); [easy|apply HB]]).
    apply power_0, principal_47. }
  assert (H1 : 0 < 1024 <= 1024) by lia. assert (Lx : length bytes_47_x = 100%nat) by reflexivity.
  assert (Le : length bytes_47_1 = 100%nat) by reflexivity. assert (H4 : 0 <= 4) by lia.
  assert (H04 : 0 + 4 < 2 ^ 64) by reflexivity. assert (Hl : Z.of_nat (length blob) < 2 ^ 64) by reflexivity.
  pose proof (honest_nil (G := Ref.gmp) 200 (-47) x) as Hh.
  split; [repeat (split; [eassumption || exact good_disc_47 || exact power_47_16|]); exact Hp|].
  exact (check_proof_complete (GL := Ref.laws) (RL := vdf_new_reducer_laws) 200 (-47) bytes_47_x x [] 0 x 4 x bytes_47_x e bytes_47_1 1024
    good_disc_47 H1 Lx Ex Hh H4 H04 Lx Ex power_47_16 Le Ee Hp Hl).
Defined.

Lemma check_proof_sound_witness : let blob := bytes_47_x ++ bytes_47_1 in
  (good_disc (-47) /\ bytes_ok blob /\ Z.of_nat (length blob) = 200 /\ 0 <= 0 /\ 0 <= 4 < 2 ^ 64) /\
  accepts (CheckProofOfTimeNWesolowski (G := Ref.gmp) (R := vdf_new_reducer) 200 (-47) (Some bytes_47_x) (Some blob) 200 4 1024 0)
    (200 = 200 + 0 * 141 /\ proved (G := Ref.gmp) 200 (-47) bytes_47_x blob 4 0).
Proof.
  intros blob.
  assert (Hb : bytes_ok blob) by (apply Forall_app; split; (apply Forall_cons; [split; lia|apply zeros_ok])).
  assert (Hl : Z.of_nat (length blob) = 200) by reflexivity. assert (H0 : 0 <= 0) by lia. assert (H4 : 0 <= 4 < 2 ^ 64) by lia.
  split; [repeat (split; [assumption || exact good_disc_47|]); exact H4|].
  exact (check_proof_sound (GL := Ref.laws) (RL := vdf_new_reducer_laws) 200 (-47) bytes_47_x blob 200 4 1024 0 good_disc_47 Hb Hl H0 H4).
Defined.
