(* ===== verification/Steps.v ===== *)
(** Shared by the provers: finite sums over [0, n), and computations that a call
    of [PerformExtraStep] can stop, with a Hoare-style rule for each construct. *)
From S2P Require Import Prelude.

(** ** Sums *)

Fixpoint zsum (f : Z -> Z) (n : nat) : Z :=
  match n with
  | O => 0
  | S n' => zsum f n' + f (Z.of_nat n')
  end.

Lemma zsum_ext f g n : (forall i, 0 <= i < Z.of_nat n -> f i = g i) -> zsum f n = zsum g n.
Proof. intros H. induction n as [|n IH]; cbn [zsum]; [easy|]. rewrite IH, H by (intros; try apply H; lia). easy. Qed.

Lemma zsum_nonneg f n : (forall i, 0 <= i < Z.of_nat n -> 0 <= f i) -> 0 <= zsum f n.
Proof.
  intros H. induction n as [|n IH]; cbn [zsum]; [lia|].
  pose proof (H (Z.of_nat n) ltac:(lia)). specialize (IH ltac:(intros; apply H; lia)). lia.
Qed.

Lemma zsum_zero f n : (forall i, 0 <= i < Z.of_nat n -> f i = 0) -> zsum f n = 0.
Proof. intros H. induction n as [|n IH]; cbn [zsum]; [easy|]. rewrite IH, H by (intros; try apply H; lia). easy. Qed.

Lemma zsum_plus f g n : zsum (fun i => f i + g i) n = zsum f n + zsum g n.
Proof. induction n as [|n IH]; cbn [zsum]; [easy|]. rewrite IH. ring. Qed.

Lemma zsum_scale c f n : zsum (fun i => c * f i) n = c * zsum f n.
Proof. induction n as [|n IH]; cbn [zsum]; [ring|]. rewrite IH. ring. Qed.

Lemma zsum_split f m n : zsum f (m + n) = zsum f m + zsum (fun i => f (Z.of_nat m + i)) n.
Proof.
  induction n as [|n IH]; [rewrite Nat.add_0_r; cbn [zsum]; ring|]. rewrite Nat.add_succ_r. cbn [zsum]. rewrite IH, Nat2Z.inj_add. ring.
Qed.

Lemma zsum_swap f m n : zsum (fun i => zsum (fun j => f i j) n) m = zsum (fun j => zsum (fun i => f i j) m) n.
Proof.
  induction m as [|m IH]; cbn [zsum]; [symmetry; now apply zsum_zero|]. rewrite IH. now rewrite <- zsum_plus.
Qed.

(** Row by row. *)
Lemma zsum_blocks f m n :
  zsum (fun i => zsum (fun j => f (i * Z.of_nat n + j)) n) m = zsum f (m * n).
Proof.
  induction m as [|m IH]; [easy|]. cbn [zsum]. rewrite IH. replace (S m * n)%nat with (m * n + n)%nat by lia.
  rewrite zsum_split. f_equal. apply zsum_ext. intros i Hi. f_equal. lia.
Qed.

(** A sum with one term. *)
Lemma zsum_single c v f n : 0 <= c < Z.of_nat n -> zsum (fun b => f b * (if c =? b then v else 0)) n = f c * v.
Proof.
  induction n as [|n IH]; intros H; [lia|]. cbn [zsum]. destruct (Z.eqb_spec c (Z.of_nat n)) as [->|Hne].
  - rewrite zsum_zero; [ring|]. intros i Hi. destruct (Z.eqb_spec (Z.of_nat n) i); [lia|ring].
  - rewrite IH by lia. ring.
Qed.

(** Only the terms below [m] count. *)
Lemma zsum_cut f m n : (m <= n)%nat -> zsum (fun i => if i <? Z.of_nat m then f i else 0) n = zsum f m.
Proof.
  intros H. replace n with (m + (n - m))%nat by lia. rewrite zsum_split.
  rewrite (zsum_ext (fun i => if i <? Z.of_nat m then f i else 0) f m). 2: { intros i Hi. destruct (Z.ltb_spec i (Z.of_nat m)); [easy|lia]. }
  rewrite (zsum_zero _ (n - m)); [ring|]. intros i Hi. destruct (Z.ltb_spec (Z.of_nat m + i) (Z.of_nat m)); [lia|easy].
Qed.

(** ** Computations that [PerformExtraStep] can stop *)

(** The [nat] counts the calls of [PerformExtraStep]; [Ok None] is the early
    [return]. *)
Definition step (A : Type) : Type := nat -> res (option (A * nat)).
Definition ret {A} (a : A) : step A := fun n => Ok (Some (a, n)).
Definition lift {A} (m : res A) : step A := fun n => a <- m ;; Ok (Some (a, n)).
Definition bindS {A B} (m : step A) (f : A -> step B) : step B := fun n =>
  r <- m n ;;
  match r with
  | None => Ok None
  | Some (a, n') => f a n'
  end.
Notation "x <-- m ;; f" := (bindS m (fun x => f)) (at level 61, m at next level, right associativity) : vdf_scope.

(** [perform n] is what the [n]-th call returns. *)
Definition PerformExtraStep (perform : nat -> bool) : step unit :=
  fun n => if perform n then Ok (Some (tt, S n)) else Ok None.

(** A [for] loop over the listed indices. *)
Fixpoint forS {A} (ixs : list Z) (body : Z -> A -> step A) (s : A) : step A :=
  match ixs with
  | [] => ret s
  | i :: rest => s <-- body i s ;; forS rest body s
  end.

(** The indices [0, 1, ..., n - 1] and [hi - 1, ..., lo]. *)
Definition upto (n : Z) : list Z := map Z.of_nat (seq 0 (Z.to_nat n)).
Definition downto (hi lo : Z) : list Z := map (fun i => lo + i) (rev (upto (hi - lo))).

(** The result of a run that nothing stops. *)
Definition finished {A} (m : step A) : res A :=
  r <- m O ;;
  match r with Some (a, _) => Ok a | None => Throw undefined_behaviour end.

(** ** Reasoning about them *)

Section Runs.
Variable perform : nat -> bool.

(** From any call count, [m] returns a value with [Q], or a call stopped it. *)
Definition runs {A} (m : step A) (Q : A -> Prop) : Prop := forall n,
  (exists a n', m n = Ok (Some (a, n')) /\ Q a) \/ (m n = Ok None /\ exists c, perform c = false).

Lemma runs_ret {A} (a : A) (Q : A -> Prop) : Q a -> runs (ret a) Q.
Proof. intros H n. left. exists a, n. easy. Qed.

Lemma runs_lift {A} (m : res A) (Q : A -> Prop) : (exists a, m = Ok a /\ Q a) -> runs (lift m) Q.
Proof. intros (a & -> & H) n. left. exists a, n. easy. Qed.

Lemma runs_bind {A B} (m : step A) (f : A -> step B) (P : A -> Prop) (Q : B -> Prop) :
  runs m P -> (forall a, P a -> runs (f a) Q) -> runs (bindS m f) Q.
Proof.
  intros Hm Hf n. unfold bindS. destruct (Hm n) as [(a & n' & -> & Pa)|(-> & H)]; cbn [bind]; [|now right].
  apply Hf. exact Pa.
Qed.

Lemma runs_perform : runs (PerformExtraStep perform) (fun _ => True).
Proof.
  intros n. unfold PerformExtraStep. destruct (perform n) eqn:E; [left; now exists tt, (S n)|right; split; [easy|now exists n]].
Qed.

Lemma runs_weaken {A} (m : step A) (P Q : A -> Prop) : runs m P -> (forall a, P a -> Q a) -> runs m Q.
Proof. intros H W n. destruct (H n) as [(a & n' & E & Pa)|S]; [left; exists a, n'; auto|now right]. Qed.

Lemma runs_for {A} (body : Z -> A -> step A) (I : list Z -> A -> Prop) ixs : forall pre s, I pre s ->
  (forall p i q s, ixs = p ++ i :: q -> I (pre ++ p) s -> runs (body i s) (I (pre ++ p ++ [i]))) ->
  runs (forS ixs body s) (I (pre ++ ixs)).
Proof.
  induction ixs as [|i ixs IH]; intros pre s H0 Hb; cbn [forS].
  - rewrite app_nil_r. now apply runs_ret.
  - apply (runs_bind _ _ (I (pre ++ [i]))).
    + apply (Hb [] i ixs); [easy|now rewrite app_nil_r].
    + intros s' Hs'. replace (pre ++ i :: ixs) with ((pre ++ [i]) ++ ixs) by now rewrite <- app_assoc.
      apply IH; [easy|]. intros p j q t Eq Ht. rewrite <- app_assoc in Ht |- *. apply (Hb (i :: p) j q); [now rewrite Eq|easy].
Qed.

Lemma upto_cut n p i q : 0 <= n -> upto n = p ++ i :: q -> i = Z.of_nat (length p) /\ 0 <= i < n.
Proof.
  intros Hn E. assert (Hl : (length p < Z.to_nat n)%nat).
  { apply (f_equal (@length Z)) in E. unfold upto in E. rewrite length_map, length_seq, length_app in E. cbn [length] in E. lia. }
  assert (Ei : nth (length p) (upto n) 0 = i) by (rewrite E, app_nth2 by lia; now rewrite Nat.sub_diag).
  unfold upto in Ei. rewrite (map_nth Z.of_nat _ O) in Ei. rewrite seq_nth in Ei by easy. lia.
Qed.

(** The loop [for (i = 0; i < n; i++)], with an invariant on [i]. *)
Lemma runs_upto {A} (body : Z -> A -> step A) (I : Z -> A -> Prop) n s : 0 <= n -> I 0 s ->
  (forall i s, 0 <= i < n -> I i s -> runs (body i s) (I (i + 1))) -> runs (forS (upto n) body s) (I n).
Proof.
  intros Hn H0 Hb. pose proof (runs_for body (fun l s => I (Z.of_nat (length l)) s) (upto n) [] s H0) as H. cbn [app] in H.
  eapply runs_weaken; [apply H|].
  - intros p i q t E Ht. destruct (upto_cut n p i q Hn E) as (Ei & Hi). eapply runs_weaken; [apply Hb; [exact Hi|now rewrite Ei]|].
    intros a Ha. rewrite length_app. cbn [length]. now replace (Z.of_nat (length p + 1)) with (i + 1) by lia.
  - intros a Ha. unfold upto in Ha. rewrite length_map, length_seq, Z2Nat.id in Ha by easy. exact Ha.
Qed.

(** The loop [for (j = hi - 1; j >= lo; j--)]. *)
Lemma runs_downto {A} (body : Z -> A -> step A) (I : Z -> A -> Prop) hi lo s : lo <= hi -> I hi s ->
  (forall j s, lo <= j < hi -> I (j + 1) s -> runs (body j s) (I j)) -> runs (forS (downto hi lo) body s) (I lo).
Proof.
  intros Hn H0 Hb. assert (Hlen : length (downto hi lo) = Z.to_nat (hi - lo)).
  { unfold downto, upto. now rewrite length_map, length_rev, length_map, length_seq. }
  pose proof (runs_for body (fun l s => I (hi - Z.of_nat (length l)) s) (downto hi lo) [] s) as H. cbn [app length] in H.
  rewrite Z.sub_0_r in H. specialize (H H0). eapply runs_weaken; [apply H|].
  - intros p i q t E Ht. assert (Hl : (length p < Z.to_nat (hi - lo))%nat).
    { rewrite <- Hlen, E, length_app. cbn [length]. lia. }
    assert (Ei : i = hi - 1 - Z.of_nat (length p)).
    { assert (Ei : nth (length p) (downto hi lo) (lo + 0) = i) by (rewrite E, app_nth2 by lia; now rewrite Nat.sub_diag).
      unfold downto in Ei. rewrite (map_nth (fun i => lo + i)) in Ei.
      unfold upto in Ei. rewrite <- map_rev in Ei. rewrite (map_nth Z.of_nat _ O), rev_nth in Ei by (rewrite length_seq; lia).
      rewrite length_seq, seq_nth in Ei by lia. lia. }
    eapply runs_weaken; [apply (Hb i); [lia|now replace (i + 1) with (hi - Z.of_nat (length p)) by lia]|].
    intros a Ha. rewrite length_app. cbn [length]. now replace (hi - Z.of_nat (length p + 1)) with i by lia.
  - intros a Ha. rewrite Hlen in Ha. now replace (hi - Z.of_nat (Z.to_nat (hi - lo))) with lo in Ha by lia.
Qed.
End Runs.

(** A run nothing stops. *)
Lemma finished_runs {A} (m : step A) (Q : A -> Prop) :
  runs (fun _ => true) m Q -> exists a, finished m = Ok a /\ Q a.
Proof.
  intros H. destruct (H O) as [(a & n' & E & Qa)|(_ & c & Hc)]; [|discriminate].
  exists a. unfold finished. now rewrite E.
Qed.
