(* ===== verification/Segments.v ===== *)
(** [src/src/util.h]: the segments of a computation that are proved one by one,
    the order in which the event loop prefers them and the bucket of their
    length; and the [Proof] record. *)
From S2P Require Import Prelude Words QuadForm.

Record Segment : Type := mkSegment {
  start : Z;                    (* uint64_t *)
  length_ : Z;                  (* uint64_t *)
  seg_x : form;
  seg_y : form;
  seg_proof : form;
  is_empty : bool;
}.

(** A default-constructed [form] has three zeros. *)
Definition form_0 : form := mkform 0 0 0.

(** [Segment()] leaves [start] and [length] indeterminate: [junk]. *)
Definition Segment_empty (junk : Z * Z) : Segment :=
  mkSegment (fst junk) (snd junk) form_0 form_0 form_0 true.

Definition Segment_make (start length : Z) (x y : form) : Segment :=
  mkSegment start length x y form_0 false.

Definition IsWorseThan (this other : Segment) : bool :=
  if is_empty this then negb (is_empty other)
  else if length_ other <? length_ this then true
  else if length_ this <? length_ other then false
  else start other <? start this.

(** The [while (length > 1)] loop; a 64-bit length is 0 after 32 steps. *)
Fixpoint bucket_loop (fuel : nat) (length index : Z) : res Z :=
  if 1 <? length then
    match fuel with
    | O => Throw out_of_fuel
    | S fuel' => bucket_loop fuel' (Z.shiftr length 2) (index + 1)
    end
  else Ok index.

Definition GetSegmentBucket (s : Segment) : res Z := bucket_loop 32 (Z.shiftr (length_ s) 16) 0.

(** A proof of time: [y], [proof] and the type of the witness. *)
Record Proof_t : Type := mkProof { pr_y : bytes; pr_proof : bytes; witness_type : Z }.

Definition hex (p : Proof_t) : String.string := BytesToStr (pr_y p ++ pr_proof p).

(** ** The order *)

Lemma IsWorseThan_spec s t : IsWorseThan s t = true <->
  if is_empty s then is_empty t = false
  else length_ t < length_ s \/ (length_ t = length_ s /\ start t < start s).
Proof.
  unfold IsWorseThan. destruct (is_empty s).
  - now destruct (is_empty t).
  - destruct (Z.ltb_spec (length_ t) (length_ s)); [split; intros; [lia|easy]|].
    destruct (Z.ltb_spec (length_ s) (length_ t)); [split; intros; [easy|lia]|].
    rewrite Z.ltb_lt. lia.
Qed.

Lemma shiftr_pow2 n k : 0 <= k <= n -> Z.shiftr (2 ^ n) k = 2 ^ (n - k).
Proof. intros H. rewrite Z.shiftr_div_pow2 by lia. rewrite Z.pow_sub_r by lia. easy. Qed.

Lemma bucket_loop_pow4 i : forall fuel index, (i <= fuel)%nat ->
  bucket_loop fuel (2 ^ (2 * Z.of_nat i)) index = Ok (index + Z.of_nat i).
Proof.
  induction i as [|i IH]; intros fuel index Hf.
  - destruct fuel; cbn [bucket_loop]; change (1 <? 2 ^ (2 * Z.of_nat 0)) with false; cbv iota; now rewrite Z.add_0_r.
  - destruct fuel as [|fuel]; [lia|]. cbn [bucket_loop].
    assert (H1 : 2 <= 2 ^ (2 * Z.of_nat (S i))) by (change 2 with (2 ^ 1) at 1; apply Z.pow_le_mono_r; lia).
    destruct (Z.ltb_spec 1 (2 ^ (2 * Z.of_nat (S i)))); [|lia]. rewrite shiftr_pow2 by lia.
    replace (2 * Z.of_nat (S i) - 2) with (2 * Z.of_nat i) by lia. rewrite IH by lia. f_equal. lia.
Qed.

Lemma bucket_loop_total fuel : forall length index, 0 <= length < 4 ^ Z.of_nat fuel -> 0 <= index ->
  exists i, bucket_loop fuel length index = Ok i /\ index <= i <= index + Z.of_nat fuel.
Proof.
  induction fuel as [|fuel IH]; intros length index Hl Hi; cbn [bucket_loop].
  - cbn in Hl. destruct (Z.ltb_spec 1 length); [lia|]. exists index. split; [easy|lia].
  - destruct (Z.ltb_spec 1 length); [|exists index; split; [easy|lia]].
    rewrite Nat2Z.inj_succ, Z.pow_succ_r in Hl by lia. rewrite Z.shiftr_div_pow2 by lia. change (2 ^ 2) with 4.
    destruct (IH (length / 4) (index + 1)) as (i & E & Hb); [|lia|exists i; split; [easy|lia]].
    split; [apply Z.div_pos; lia|apply Z.div_lt_upper_bound; lia].
Qed.

(** The order by which the event loop picks segments is a
    strict weak order on which an empty segment is worst: [IsWorseThan] is
    irreflexive, asymmetric and transitive on segments (an empty segment being
    compared only as the first argument), two non-empty segments neither of
    which is worse have the same length and start; and the lengths the event
    loop creates, [2^(16 + 2 i)] with [i < 24], are mapped to bucket [i] by a
    loop that ends for every 64-bit length. *)
Theorem segment_order :
  (forall s, IsWorseThan s s = false) /\
  (forall s t, is_empty t = false -> IsWorseThan s t = true -> IsWorseThan t s = false \/ is_empty s = true) /\
  (forall s t u, is_empty t = false -> IsWorseThan s t = true -> IsWorseThan t u = true -> is_empty u = false -> IsWorseThan s u = true) /\
  (forall s t, is_empty s = false -> is_empty t = false -> IsWorseThan s t = false -> IsWorseThan t s = false ->
     length_ s = length_ t /\ start s = start t) /\
  (forall s i, 0 <= i < 24 -> length_ s = 2 ^ (16 + 2 * i) -> GetSegmentBucket s = Ok i) /\
  (forall s, 0 <= length_ s < 2 ^ 64 -> exists i, GetSegmentBucket s = Ok i /\ 0 <= i <= 32).
Proof.
  repeat apply conj.
  - intros s. apply Bool.not_true_iff_false. rewrite IsWorseThan_spec. destruct (is_empty s); [easy|lia].
  - intros s t Ht. rewrite IsWorseThan_spec. destruct (is_empty s) eqn:Es; [now right|]. intros H. left.
    apply Bool.not_true_iff_false. rewrite IsWorseThan_spec, Ht. lia.
  - intros s t u Ht. rewrite !IsWorseThan_spec, Ht. destruct (is_empty s); [easy|lia].
  - intros s t Hs Ht. rewrite <- !Bool.not_true_iff_false, !IsWorseThan_spec, Hs, Ht. lia.
  - intros s i Hi El. unfold GetSegmentBucket. rewrite El, shiftr_pow2 by lia.
    replace (16 + 2 * i - 16) with (2 * Z.of_nat (Z.to_nat i)) by lia. rewrite bucket_loop_pow4 by lia. f_equal. lia.
  - intros s Hl. unfold GetSegmentBucket. destruct (bucket_loop_total 32 (Z.shiftr (length_ s) 16) 0) as (i & E & Hb); [|lia|].
    + rewrite Z.shiftr_div_pow2 by lia. split; [apply Z.div_pos; lia|]. apply Z.div_lt_upper_bound; [lia|].
      eapply Z.lt_le_trans; [apply Hl|]. apply Z.leb_le. reflexivity.
    + exists i. split; [exact E|lia].
Qed.

Lemma segment_order_witness :
  let s := Segment_make 65536 65536 form_0 form_0 in let t := Segment_make 0 65536 form_0 form_0 in
  IsWorseThan s t = true /\ GetSegmentBucket (Segment_make 0 (2 ^ 18) form_0 form_0) = Ok 1 /\ IsWorseThan t s = false.
Proof.
  intros s t. split; [reflexivity|]. split.
  - exact (proj1 (proj2 (proj2 (proj2 (proj2 segment_order)))) (Segment_make 0 (2 ^ 18) form_0 form_0) 1 ltac:(lia) eq_refl).
  - destruct (proj1 (proj2 segment_order) s t eq_refl eq_refl) as [H|H]; [exact H|discriminate H].
Defined.
