(* ===== verification/Prover.v ===== *)
(** [src/src/prover_slow.h] and [prover_impl.hpp]: generating Wesolowski proofs.
    [GenerateWesolowski], [Prover::GenerateProof] and [ParallelProver::ProvePart]
    run the same bucket algorithm; they differ in where the intermediate forms
    come from, in the range of the outer loop, in how a block index out of range
    fails, and in the calls of [PerformExtraStep], by which a proof can be
    stopped. *)
From S2P Require Import Prelude Words NumTheory Gmp QuadForm FormClass Integer Forms Nucomp Bqfc PrimeTest HashPrime ProofCommon Powers Verifier Steps Segments.

Fixpoint update {A} (l : list A) (i : nat) (x : A) : list A :=
  match l, i with
  | [], _ => []
  | _ :: rest, O => x :: rest
  | y :: rest, S i' => y :: update rest i' x
  end.

Section WithGmp.
Context `{G : Gmp} `{R : FormReducer}.

Definition GetBlock (i k T B : Z) : res Z :=
  r <- FastPow 2 (u64 (T - u64 (k * u64 (i + 1)))) B ;;
  let r := Z.shiftl r k in
  r <- fdiv_q r B ;;
  match to_vector r with
  | [] => Ok 0
  | limb :: _ => Ok limb
  end.

(** What the three functions share. *)
Record job : Type := mkjob {
  jD : Z;                       (* D *)
  jL : Z;                       (* L = root(-D, 4) *)
  jB : Z;                       (* B = GetB(D, x, y) *)
  jT : Z;                       (* num_iterations *)
  jk : Z;
  jl : Z;
  jlimit : Z;                   (* the bound of the loop on the intermediates *)
  jid : form;                   (* form::identity(D) *)
  jform : Z -> res form;        (* GetForm(i), or intermediates[i] *)
  joob : exn;                   (* what a block index out of range does *)
  jperform : nat -> bool;
}.

Section Job.
Variable J : job.

(** The loop that fills the buckets. *)
Definition fill_buckets (j : Z) (ys : list form) : step (list form) :=
  forS (upto (jlimit J)) (fun i ys =>
    if u64 (jk J * u64 (u64 (i * jl J) + j + 1)) <=? jT J then
      b <-- lift (GetBlock (u64 (u64 (i * jl J) + j)) (jk J) (jT J) (jB J)) ;;
      if Z.shiftl 1 (jk J) <=? b then lift (Throw (joob J))
      else
        _ <-- PerformExtraStep (jperform J) ;;
        tmp <-- lift (jform J i) ;;
        y <-- lift (nucomp_form (nth (Z.to_nat b) ys (jid J)) tmp (jD J) (jL J)) ;;
        ret (update ys (Z.to_nat b) y)
    else ret ys) ys.

(** [z = id; for (..) z = nucomp(z, ys[index])] *)
Definition product (index : Z -> Z) (n : Z) (ys : list form) : step form :=
  forS (upto n) (fun b z =>
    _ <-- PerformExtraStep (jperform J) ;;
    lift (nucomp_form z (nth (Z.to_nat (index b)) ys (jid J)) (jD J) (jL J))) (jid J).

(** The loops over the high and over the low parts of the bucket index. *)
Definition combine_high (k0 k1 : Z) (ys : list form) (x : form) : step form :=
  forS (upto (Z.shiftl 1 k1)) (fun b1 x =>
    z <-- product (fun b0 => b1 * Z.shiftl 1 k0 + b0) (Z.shiftl 1 k0) ys ;;
    z <-- lift (FastPowFormNucomp z (jD J) (b1 * Z.shiftl 1 k0) (jL J)) ;;
    lift (nucomp_form x z (jD J) (jL J))) x.

Definition combine_low (k0 k1 : Z) (ys : list form) (x : form) : step form :=
  forS (upto (Z.shiftl 1 k0)) (fun b0 x =>
    z <-- product (fun b1 => b1 * Z.shiftl 1 k0 + b0) (Z.shiftl 1 k1) ys ;;
    z <-- lift (FastPowFormNucomp z (jD J) b0 (jL J)) ;;
    lift (nucomp_form x z (jD J) (jL J))) x.

(** One iteration of the loop on [j]; [1 << k] is an [int]. *)
Definition proof_step (j : Z) (x : form) : step form :=
  let k1 := Z.quot (jk J) 2 in
  let k0 := jk J - k1 in
  if 31 <=? jk J then lift (Throw undefined_behaviour)
  else
    x <-- lift (FastPowFormNucomp x (jD J) (Z.shiftl 1 (jk J)) (jL J)) ;;
    ys <-- fill_buckets j (repeat (jid J) (Z.to_nat (Z.shiftl 1 (jk J)))) ;;
    x <-- combine_high k0 k1 ys x ;;
    combine_low k0 k1 ys x.

(** The loop [for (j = hi - 1; j >= lo; j--)]. *)
Definition proof_loop (hi lo : Z) : step form := forS (downto hi lo) proof_step (jid J).

End Job.

(** ** prover_slow.h *)

Definition never_stops : nat -> bool := fun _ => true.

(** A read of [intermediates[i]]. *)
Definition at_index (fs : list form) (i : Z) : res form :=
  match nth_error fs (Z.to_nat i) with Some f => Ok f | None => Throw undefined_behaviour end.

(** [y] and [x_init] are reduced in place by [GetB]: the results are the proof
    and both of them. *)
Definition GenerateWesolowski (fuel : nat) (y x_init : form) (D : Z) (intermediates : list form) (num_iterations k l : Z)
  : res (form * form * form) :=
  ' (B, x_init, y) <- GetB fuel D x_init y ;;
  L <- root (- D) 4 ;;
  require 0 <? k else assertion_failed ;;
  require 0 <? l else assertion_failed ;;
  id <- identity D ;;
  let limit := Z.quot (u64 (u64 (num_iterations + u64 (k * l)) - 1)) (u64 (k * l)) in
  let J := mkjob D L B num_iterations k l limit id (at_index intermediates) undefined_behaviour never_stops in
  x <- finished (proof_loop J l 0) ;;
  x <- reducer_reduce x ;;
  Ok (x, x_init, y).

(** The squaring loop of [ProveSlow]: [n] iterations are left, [i] is the next
    one; [cursor] is an index into [intermediates]. [alive i] is false when the
    shutdown file is named and found missing at iteration [i]. *)
Fixpoint square_loop (n : nat) (i kl D L : Z) (alive : Z -> bool) (intermediates : list form) (cursor : Z) (y : form)
  : res (option (list form * form)) :=
  match n with
  | O => Ok (Some (intermediates, y))
  | S n' =>
      ' (intermediates, cursor) <-
        (if Z.rem i kl =? 0 then
           if cursor <? Z.of_nat (length intermediates) then Ok (update intermediates (Z.to_nat cursor) y, cursor + 1)
           else Throw undefined_behaviour
         else Ok (intermediates, cursor)) ;;
      y <- nudupl_form y D L ;;
      y <- reducer_reduce y ;;
      if (Z.land i 0xffff =? 0) && negb (alive i) then Ok None
      else square_loop n' (i + 1) kl D L alive intermediates cursor y
  end.

(** [ApproximateParameters] computes in floating point: it is an argument, [(l,
    k)] for an iteration count. The result is the bytes, empty when the shutdown
    file was found missing, and [x], which is reduced in place. *)
Definition ProveSlow (ApproximateParameters : Z -> res (Z * Z)) (fuel : nat) (D : Z) (x : form) (num_iterations : Z)
  (alive : Z -> bool) : res (bytes * form) :=
  L <- root (- D) 4 ;;
  y <- from_abd (fa x) (fb x) D ;;
  d_bits <- num_bits D ;;
  ' (l, k) <- ApproximateParameters num_iterations ;;
  let k := if k <=? 0 then 1 else k in
  let l := if l <=? 0 then 1 else l in
  require k * l <? 2 ^ 31 else undefined_behaviour ;;
  let kl := k * l in
  let size_vec := Z.quot (u64 (u64 (num_iterations + kl) - 1)) kl in
  r <- square_loop (Z.to_nat num_iterations) 0 kl D L alive (repeat form_0 (Z.to_nat size_vec)) 0 y ;;
  match r with
  | None => Ok ([], x)
  | Some (intermediates, y) =>
      ' (proof, x, y) <- GenerateWesolowski fuel y x D intermediates num_iterations k l ;;
      ' (result, _) <- SerializeForm y d_bits ;;
      ' (proof_bytes, _) <- SerializeForm proof d_bits ;;
      Ok (result ++ proof_bytes, x)
  end.

(** ** prover_impl.hpp *)

(** The object. [GetForm], [PerformExtraStep] and [OnFinish] are virtual: they
    are arguments of the methods that call them. *)
Record prover : Type := mkprover {
  segm : Segment;
  pD : Z;
  num_iterations : Z;
  pk : Z;                       (* uint32_t k *)
  pl : Z;                       (* uint32_t l *)
  proof : form;
  is_finished : bool;
}.

Definition Prover_make (segm : Segment) (D k l : Z) : prover := mkprover segm D (length_ segm) k l form_0 false.
Definition IsFinished (p : prover) : bool := is_finished p.
Definition GetProof (p : prover) : form := proof p.

Definition set_segm (p : prover) (x y : form) : prover :=
  let s := segm p in
  mkprover (mkSegment (start s) (length_ s) x y (seg_proof s) (is_empty s)) (pD p) (num_iterations p) (pk p) (pl p) (proof p) (is_finished p).
Definition set_proof (p : prover) (f : form) : prover :=
  mkprover (segm p) (pD p) (num_iterations p) (pk p) (pl p) f (is_finished p).
Definition set_finished (p : prover) : prover :=
  mkprover (segm p) (pD p) (num_iterations p) (pk p) (pl p) (proof p) true.

(** What [catch (std::exception&)] catches. *)
Definition caught (e : exn) : bool :=
  match e with runtime_error | overflow_error | invalid_argument | system_error => true | _ => false end.

(** [limit = n / (k * l)], plus one if the division leaves a rest; [k * l] is a
    product of two [uint32_t]. The code computes it in every iteration of the
    loop on [j], of which there is at least one (and with [l = 0] it divides by
    zero). *)
Definition loop_limit (n k l : Z) : res Z :=
  let kl := u32 (k * l) in
  if kl =? 0 then Throw undefined_behaviour
  else Ok (if Z.rem n kl =? 0 then Z.quot n kl else Z.quot n kl + 1).

(** [segm.x] and [segm.y] are reduced in place by [GetB]. The early returns
    leave the proof and [is_finished] as they are. *)
Definition GenerateProof (GetForm : Z -> res form) (perform : nat -> bool) (OnFinish : prover -> prover)
  (fuel : nat) (p : prover) : res prover :=
  ' (B, x, y) <- GetB fuel (pD p) (seg_x (segm p)) (seg_y (segm p)) ;;
  let p := set_segm p x y in
  L <- root (- pD p) 4 ;;
  match identity (pD p) with
  | Throw e => if caught e then Ok p else Throw e
  | Ok id =>
      limit <- loop_limit (num_iterations p) (pk p) (pl p) ;;
      let J := mkjob (pD p) L B (num_iterations p) (pk p) (pl p) limit id GetForm runtime_error perform in
      r <- proof_loop J (pl p) 0 O ;;
      match r with
      | None => Ok p
      | Some (x, _) =>
          x <- reducer_reduce x ;;
          Ok (OnFinish (set_proof p x))
      end
  end.

Fixpoint SquareFormN (cnt : nat) (f : form) (D L : Z) : res form :=
  match cnt with
  | O => Ok f
  | S cnt' => f <- nudupl_form f D L ;; f <- reducer_reduce f ;; SquareFormN cnt' f D L
  end.

(** What [ProvePart] writes to [x_vals], if nothing stops it. *)
Definition ProvePart (J : job) (start len : Z) : res (option form) :=
  let end_ := u32 (start - len) in
  r <- proof_loop J start end_ O ;;
  match r with
  | None => Ok None
  | Some (x, _) => x <- SquareFormN (Z.to_nat (u64 (end_ * jk J))) x (jD J) (jL J) ;; Ok (Some x)
  end.

(** The two threads run [PerformExtraStep] on their own; [performs] are the
    answers each of them gets, then the one of the last call. *)
Definition ParallelGenerateProof (GetForm : Z -> res form) (performs : (nat -> bool) * (nat -> bool) * bool)
  (OnFinish : prover -> prover) (fuel : nat) (p : prover) : res prover :=
  ' (B, x, y) <- GetB fuel (pD p) (seg_x (segm p)) (seg_y (segm p)) ;;
  let p := set_segm p x y in
  L <- root (- pD p) 4 ;;
  id <- identity (pD p) ;;
  let l0 := Z.quot (pl p) 2 in
  let l1 := pl p - l0 in
  limit <- loop_limit (num_iterations p) (pk p) (pl p) ;;
  let J perform := mkjob (pD p) L B (num_iterations p) (pk p) (pl p) limit id GetForm undefined_behaviour perform in
  let '(perform0, perform1, perform2) := performs in
  x0 <- ProvePart (J perform0) (pl p) l0 ;;
  x1 <- ProvePart (J perform1) l1 l1 ;;
  if negb perform2 then Ok p
  else
    let x_vals r := match r with Some x => x | None => form_0 end in
    x <- nucomp_form (x_vals x0) (x_vals x1) (pD p) L ;;
    x <- reducer_reduce x ;;
    Ok (OnFinish (set_proof p x)).

End WithGmp.

(** ** The block algorithm computes [x^(2^T / B)] *)

Lemma update_mid {A} (l1 l2 : list A) (x y : A) : update (l1 ++ x :: l2) (length l1) y = l1 ++ y :: l2.
Proof. induction l1 as [|z l1 IH]; cbn [app length update]; [reflexivity|now rewrite IH]. Qed.

Lemma length_update {A} (l : list A) i x : length (update l i x) = length l.
Proof. revert i. induction l as [|y l IH]; intros [|i]; cbn [update length]; auto. Qed.

Lemma nth_update {A} (l : list A) i x n d : (i < length l)%nat ->
  nth n (update l i x) d = if Nat.eqb n i then x else nth n l d.
Proof.
  revert i n. induction l as [|y l IH]; intros i n H; [cbn in H; lia|].
  destruct i as [|i], n as [|n]; cbn [update nth Nat.eqb]; try easy. apply IH. cbn [length] in H. lia.
Qed.

(** The digits of [2^T / B] in base [2^k], the block [i] being digit [i]. *)
Definition blk (k T B i : Z) : Z := 2 ^ k * (2 ^ (T - k * (i + 1)) mod B) / B.

Section Digits.
Variables k T B : Z.
Hypothesis Hk : 1 <= k.
Hypothesis HT : 0 <= T.
Hypothesis HB : 2 ^ k <= B.

Let HB0 : 0 < B.
Proof. pose proof (Z.pow_pos_nonneg 2 k ltac:(lia) ltac:(lia)). lia. Qed.

Lemma blk_range i : k * (i + 1) <= T -> 0 <= blk k T B i < 2 ^ k.
Proof.
  intros Hi. unfold blk. pose proof (Z.mod_pos_bound (2 ^ (T - k * (i + 1))) B HB0).
  pose proof (Z.pow_pos_nonneg 2 k ltac:(lia) ltac:(lia)). split; [apply Z.div_pos; nia|apply Z.div_lt_upper_bound; nia].
Qed.

Lemma blk_digit i : 0 <= i -> k * (i + 1) <= T ->
  2 ^ (T - k * i) / B = 2 ^ k * (2 ^ (T - k * (i + 1)) / B) + blk k T B i.
Proof.
  intros H0 Hi. unfold blk. set (e := T - k * (i + 1)). replace (T - k * i) with (k + e) by (subst e; lia).
  rewrite Z.pow_add_r by (subst e; lia). rewrite (Z.div_mod (2 ^ e) B) at 1 by lia.
  replace (2 ^ k * (B * (2 ^ e / B) + 2 ^ e mod B)) with (2 ^ k * (2 ^ e mod B) + 2 ^ k * (2 ^ e / B) * B) by ring.
  rewrite Z.div_add by lia. ring.
Qed.

Lemma blk_partial n : k * Z.of_nat n <= T ->
  zsum (fun m => 2 ^ (k * m) * blk k T B m) n = 2 ^ T / B - 2 ^ (k * Z.of_nat n) * (2 ^ (T - k * Z.of_nat n) / B).
Proof.
  induction n as [|n IH]; intros Hn.
  - cbn [zsum]. change (Z.of_nat 0) with 0. rewrite Z.mul_0_r, Z.sub_0_r. change (2 ^ 0) with 1. ring.
  - cbn [zsum]. rewrite IH by nia. rewrite (blk_digit (Z.of_nat n)) by lia.
    replace (Z.of_nat (S n)) with (Z.of_nat n + 1) by lia.
    replace (k * (Z.of_nat n + 1)) with (k * Z.of_nat n + k) at 2 by ring. rewrite Z.pow_add_r by nia. ring.
Qed.

(** All the digits. *)
Lemma blk_total n : T / k <= Z.of_nat n ->
  zsum (fun m => if k * (m + 1) <=? T then 2 ^ (k * m) * blk k T B m else 0) n = 2 ^ T / B.
Proof.
  intros Hn. pose proof (Z.div_pos T k HT ltac:(lia)) as Hq. pose proof (Z.mul_div_le T k ltac:(lia)) as H1.
  pose proof (Z.mul_succ_div_gt T k ltac:(lia)) as H2. set (M := Z.to_nat (T / k)).
  assert (HM : Z.of_nat M = T / k) by (subst M; lia).
  rewrite (zsum_ext _ (fun m => if m <? Z.of_nat M then 2 ^ (k * m) * blk k T B m else 0) n).
  2: { intros m Hm. destruct (Z.leb_spec (k * (m + 1)) T), (Z.ltb_spec m (Z.of_nat M)); try easy; exfalso.
       - assert (m + 1 <= T / k) by (apply Z.div_le_lower_bound; lia). lia.
       - assert (k * (m + 1) <= k * (T / k)) by (apply Z.mul_le_mono_nonneg_l; lia). lia. }
  rewrite zsum_cut by lia. rewrite blk_partial by lia.
  rewrite (Z.div_small (2 ^ (T - k * Z.of_nat M))); [ring|]. split; [apply Z.pow_nonneg; lia|].
  eapply Z.lt_le_trans; [|exact HB]. apply Z.pow_lt_mono_r; lia.
Qed.
End Digits.

Section JobProof.
Context `{GL : GmpLaws} `{RL : FormReducerLaws}.
Variables D L : Z.
Hypothesis HL : 0 <= L.
Hypothesis H4 : D mod 4 = 1.
Variable x : form.
Hypothesis Cx : class D x.
Abbreviation pw := (pw D x).

Variables B T k l limit : Z.
Hypothesis Hk : 1 <= k <= 30.
Hypothesis Hl : 1 <= l.
Hypothesis HT : 0 <= T.
Hypothesis H64 : T + 2 * (k * l) < 2 ^ 64.
Hypothesis HB : 2 ^ k <= B.
Hypothesis Hlim : T <= limit * (k * l) < T + k * l.
Variable id : form.
Hypothesis Hid : principal D id.
Variable GetForm : Z -> res form.
Hypothesis HF : forall i, 0 <= i < limit -> exists g, GetForm i = Ok g /\ pw (2 ^ (k * l * i)) g.
Variable oob : exn.
Variable perform : nat -> bool.
Let J := mkjob D L B T k l limit id GetForm oob perform.
Let N := Z.to_nat (2 ^ k).
Abbreviation runs := (runs perform).

Lemma pow_k : 2 <= 2 ^ k <= 2 ^ 30.
Proof. split; [change 2 with (2 ^ 1) at 1|]; apply Z.pow_le_mono_r; lia. Qed.

Lemma shiftl_k n : 0 <= n -> Z.shiftl 1 n = 2 ^ n.
Proof. intros. rewrite Z.shiftl_mul_pow2 by easy. ring. Qed.

Lemma limit_nonneg : 0 <= limit.
Proof. nia. Qed.

Lemma to_vector_small n : 0 <= n < 2 ^ 64 -> match to_vector n with [] => 0 | limb :: _ => limb end = n.
Proof.
  intros Hn. unfold to_vector. rewrite mpz_size_spec. destruct (Z.eqb_spec n 0) as [->|Hne]; [easy|].
  rewrite Z.abs_eq by lia. assert (Z.log2 n < 64) by (apply Z.log2_lt_pow2; lia). pose proof (Z.log2_nonneg n).
  rewrite Z.div_small by lia. change (Z.to_nat (0 + 1)) with 1%nat. cbn [seq map].
  rewrite mpz_getlimbn_spec by lia. rewrite Z.abs_eq by lia. change (2 ^ (64 * Z.of_nat 0)) with 1. rewrite Z.div_1_r. now apply Z.mod_small.
Qed.

Lemma GetBlock_ok i : 0 <= i -> k * (i + 1) <= T -> GetBlock i k T B = Ok (blk k T B i).
Proof.
  intros Hi Ht. pose proof (blk_range k T B ltac:(lia) HB i Ht) as Hr. pose proof pow_k.
  unfold GetBlock, FastPow. rewrite (u64_id (i + 1)), (u64_id (k * (i + 1))), u64_id by nia.
  destruct (Z.eqb_spec B 0); [lia|]. cbn [bind]. rewrite mpz_powm_spec by lia.
  rewrite Z.shiftl_mul_pow2 by lia. rewrite Z.mul_comm, fdiv_q_ok by lia. cbn [bind]. fold (blk k T B i).
  pose proof (to_vector_small (blk k T B i) ltac:(split; [apply Hr|]; assert (2 ^ 30 < 2 ^ 64) by reflexivity; lia)) as E.
  destruct (to_vector (blk k T B i)); now rewrite E.
Qed.

(** The exponents of the buckets in iteration [j]. *)
Definition use (j i : Z) : bool := k * (i * l + j + 1) <=? T.
Definition bucket (j b : Z) (n : nat) : Z :=
  zsum (fun i => if use j i then if blk k T B (i * l + j) =? b then 2 ^ (k * l * i) else 0 else 0) n.
Definition column (j : Z) : Z := zsum (fun i => if use j i then blk k T B (i * l + j) * 2 ^ (k * l * i) else 0) (Z.to_nat limit).

Definition buckets (E : Z -> Z) (ys : list form) : Prop :=
  length ys = N /\ forall b, 0 <= b < 2 ^ k -> pw (E b) (nth (Z.to_nat b) ys id).

Lemma index_bound i j : 0 <= i < limit -> 0 <= j < l -> 0 <= i * l + j /\ k * (i * l + j + 1) < 2 ^ 64 /\ i * l + j + 1 < 2 ^ 64.
Proof.
  intros Hi Hj. assert (i * l + j + 1 <= limit * l) by nia. assert (k * (i * l + j + 1) <= limit * (k * l)) by nia. nia.
Qed.

Lemma fill_buckets_ok j : 0 <= j < l ->
  runs (fill_buckets J j (repeat id N)) (buckets (fun b => bucket j b (Z.to_nat limit))).
Proof.
  intros Hj. unfold fill_buckets. cbn [jlimit J]. pose proof pow_k as Hp.
  apply (runs_upto perform _ (fun i => buckets (fun b => bucket j b (Z.to_nat i)))); [exact limit_nonneg| |].
  - split; [apply repeat_length|]. intros b Hb. cbn [Z.to_nat]. unfold bucket. cbn [zsum]. rewrite nth_repeat. now apply pw_0.
  - intros i ys Hi [Hlen Hys]. cbn [jk jl jT jB J jperform joob jform jid jD jL].
    destruct (index_bound i j Hi Hj) as (B1 & B2 & B3).
    assert (B4 : 0 <= i * l) by (apply Z.mul_nonneg_nonneg; lia). assert (B5 : 0 <= k * (i * l + j + 1)) by (apply Z.mul_nonneg_nonneg; lia).
    rewrite (u64_id (i * l)), (u64_id (i * l + j + 1)), (u64_id (i * l + j)), (u64_id (k * _)) by lia.
    replace (Z.to_nat (i + 1)) with (S (Z.to_nat i)) by lia.
    assert (Enext : forall b, bucket j b (S (Z.to_nat i)) = bucket j b (Z.to_nat i) +
      (if use j i then if blk k T B (i * l + j) =? b then 2 ^ (k * l * i) else 0 else 0)).
    { intros b. unfold bucket. cbn [zsum]. now rewrite Z2Nat.id by lia. }
    unfold use in Enext. destruct (Z.leb_spec (k * (i * l + j + 1)) T) as [Hle|Hgt].
    + pose proof (blk_range k T B ltac:(lia) HB (i * l + j) Hle) as Hr. set (b := blk k T B (i * l + j)) in *.
      apply (runs_bind perform _ _ (fun b' => b' = b)); [apply runs_lift; exists b; split; [now apply GetBlock_ok|easy]|].
      intros b' ->. rewrite shiftl_k by lia. destruct (Z.leb_spec (2 ^ k) b); [lia|].
      apply (runs_bind perform _ _ (fun _ => True)); [apply runs_perform|]. intros _ _.
      destruct (HF i Hi) as (g & Eg & Pg).
      apply (runs_bind perform _ _ (fun g' => g' = g)); [apply runs_lift; now exists g|]. intros g' ->.
      destruct (pw_nucomp D L HL x Cx _ _ _ _ (Hys b Hr) Pg) as (z & Ez & Pz).
      apply (runs_bind perform _ _ (fun z' => z' = z)); [apply runs_lift; now exists z|]. intros z' ->.
      apply runs_ret. split; [now rewrite length_update|]. intros b2 Hb2. rewrite Enext, nth_update by (rewrite Hlen; subst N; lia).
      destruct (Nat.eqb_spec (Z.to_nat b2) (Z.to_nat b)) as [E|E], (Z.eqb_spec b b2) as [E2|E2]; try lia.
      * subst b2. exact Pz.
      * rewrite Z.add_0_r. now apply Hys.
    + apply runs_ret. split; [easy|]. intros b Hb. rewrite Enext, Z.add_0_r. now apply Hys.
Qed.

Lemma product_ok E ys index n : buckets E ys -> 0 <= n -> (forall b, 0 <= b < n -> 0 <= index b < 2 ^ k) ->
  runs (product J index n ys) (pw (zsum (fun b => E (index b)) (Z.to_nat n))).
Proof.
  intros [Hlen Hys] Hn Hi. unfold product. cbn [J jid jperform jD jL].
  apply (runs_upto perform _ (fun i => pw (zsum (fun b => E (index b)) (Z.to_nat i)))); [easy|now apply pw_0|].
  intros b z Hb Pz. apply (runs_bind perform _ _ (fun _ => True)); [apply runs_perform|]. intros _ _.
  destruct (pw_nucomp D L HL x Cx _ _ _ _ Pz (Hys (index b) (Hi b Hb))) as (z' & Ez & Pz').
  apply runs_lift. exists z'. split; [easy|]. replace (Z.to_nat (b + 1)) with (S (Z.to_nat b)) by lia. cbn [zsum].
  now rewrite Z2Nat.id by lia.
Qed.

(** Both combining loops: [outer] runs over rows (or columns) and raises each
    product to [weight]. *)
Lemma combine_loops_ok E ys weight index n m X z0 : buckets E ys -> 0 <= n -> 0 <= m ->
  (forall a, 0 <= a < n -> 0 <= weight a < 2 ^ 264) ->
  (forall a b, 0 <= a < n -> 0 <= b < m -> 0 <= index a b < 2 ^ k) -> pw X z0 ->
  runs (forS (upto n) (fun a x =>
      z <-- product J (index a) m ys ;;
      z <-- lift (FastPowFormNucomp z D (weight a) L) ;;
      lift (nucomp_form x z D L)) z0)
    (pw (X + zsum (fun a => weight a * zsum (fun b => E (index a b)) (Z.to_nat m)) (Z.to_nat n))).
Proof.
  intros Hys Hn Hm Hw Hi Pz.
  apply (runs_upto perform _ (fun a => pw (X + zsum (fun a => weight a * zsum (fun b => E (index a b)) (Z.to_nat m)) (Z.to_nat a)))); [easy| |].
  - cbn [Z.to_nat zsum]. now rewrite Z.add_0_r.
  - intros a z Ha Pa. eapply (runs_bind perform); [apply (product_ok E); [exact Hys|exact Hm|intros b Hb; now apply Hi]|].
    intros p Pp. destruct (pw_fast_pow D L HL x Cx (weight a) _ p H4 Pp (Hw a Ha)) as (q & Eq & Pq).
    apply (runs_bind perform _ _ (fun q' => q' = q)); [apply runs_lift; now exists q|]. intros q' ->.
    destruct (pw_nucomp D L HL x Cx _ _ _ _ Pa Pq) as (r & Er & Pr). apply runs_lift. exists r. split; [easy|].
    replace (Z.to_nat (a + 1)) with (S (Z.to_nat a)) by lia. cbn [zsum]. rewrite Z2Nat.id by lia.
    rewrite Z.add_assoc. rewrite (Z.mul_comm (weight a)). exact Pr.
Qed.

(** The two loops together weigh bucket [b] with [b]. *)
Lemma weights_total E k0 k1 : 0 <= k0 -> 0 <= k1 -> k0 + k1 = k ->
  zsum (fun b1 => b1 * 2 ^ k0 * zsum (fun b0 => E (b1 * 2 ^ k0 + b0)) (Z.to_nat (2 ^ k0))) (Z.to_nat (2 ^ k1)) +
  zsum (fun b0 => b0 * zsum (fun b1 => E (b1 * 2 ^ k0 + b0)) (Z.to_nat (2 ^ k1))) (Z.to_nat (2 ^ k0)) =
  zsum (fun b => b * E b) N.
Proof.
  intros H0 H1 Ek. pose proof (Z.pow_pos_nonneg 2 k0 ltac:(lia) H0). pose proof (Z.pow_pos_nonneg 2 k1 ltac:(lia) H1).
  set (f b1 b0 := b0 * E (b1 * 2 ^ k0 + b0)). set (n0 := Z.to_nat (2 ^ k0)). set (n1 := Z.to_nat (2 ^ k1)).
  rewrite (zsum_ext (fun b0 => b0 * zsum (fun b1 => E (b1 * 2 ^ k0 + b0)) n1) (fun b0 => zsum (fun b1 => f b1 b0) n1) n0)
    by (intros b0 _; symmetry; apply zsum_scale).
  rewrite <- (zsum_swap f n1 n0), <- zsum_plus.
  replace N with (n1 * n0)%nat by (subst N n0 n1; rewrite <- Z2Nat.inj_mul, <- Z.pow_add_r by lia; do 2 f_equal; lia).
  rewrite <- zsum_blocks. apply zsum_ext. intros b1 _. rewrite <- zsum_scale, <- zsum_plus. apply zsum_ext. intros b0 _.
  unfold f. subst n0. rewrite Z2Nat.id by lia. ring.
Qed.

Lemma bucket_total j : 0 <= j -> zsum (fun b => b * bucket j b (Z.to_nat limit)) N = column j.
Proof.
  intros Hj. unfold bucket, column.
  set (w i := if use j i then 2 ^ (k * l * i) else 0). set (d i := blk k T B (i * l + j)).
  rewrite (zsum_ext _ (fun b => zsum (fun i => b * (if d i =? b then w i else 0)) (Z.to_nat limit)) N).
  2: { intros b _. rewrite <- zsum_scale. apply zsum_ext. intros i _. subst w d. cbv beta.
       destruct (use j i), (_ =? b); ring. }
  rewrite zsum_swap. apply zsum_ext. intros i Hi. subst w d. cbv beta. unfold use.
  destruct (Z.leb_spec (k * (i * l + j + 1)) T) as [Hle|_].
  - rewrite (zsum_single (blk k T B (i * l + j)) (2 ^ (k * l * i)) (fun b => b)); [easy|]. unfold N.
    rewrite Z2Nat.id by (pose proof pow_k; lia). apply (blk_range k T B); [lia|exact HB|exact Hle].
  - apply zsum_zero. intros b _. destruct (_ =? b); ring.
Qed.

Lemma proof_step_ok j X z : 0 <= j < l -> pw X z -> runs (proof_step J j z) (pw (2 ^ k * X + column j)).
Proof.
  intros Hj Pz. unfold proof_step. cbn [J jk jD jL jid]. destruct (Z.leb_spec 31 k); [lia|]. rewrite shiftl_k by lia. pose proof pow_k as Hp.
  set (k1 := Z.quot k 2). set (k0 := k - k1).
  assert (Hk1 : 0 <= k1 <= k) by (subst k1; rewrite Z.quot_div_nonneg by lia; Z.div_mod_to_equations; lia).
  assert (Hk0 : 0 <= k0 <= k) by (subst k0; lia).
  assert (Hsplit : 2 ^ k1 * 2 ^ k0 = 2 ^ k) by (rewrite <- Z.pow_add_r by lia; f_equal; subst k0; lia).
  pose proof (Z.pow_pos_nonneg 2 k0 ltac:(lia) (proj1 Hk0)) as P0. pose proof (Z.pow_pos_nonneg 2 k1 ltac:(lia) (proj1 Hk1)) as P1.
  assert (H30 : 2 ^ 30 < 2 ^ 264) by reflexivity.
  destruct (pw_fast_pow D L HL x Cx (2 ^ k) X z H4 Pz ltac:(lia)) as (z1 & E1 & Pz1).
  apply (runs_bind perform _ _ (fun z' => z' = z1)); [apply runs_lift; now exists z1|]. intros z' ->.
  apply (runs_bind perform _ _ _ _ (fill_buckets_ok j Hj)). intros ys Hys.
  assert (Hrow : forall b1 b0, 0 <= b1 < 2 ^ k1 -> 0 <= b0 < 2 ^ k0 -> 0 <= b1 * 2 ^ k0 + b0 < 2 ^ k) by (intros; nia).
  assert (Hw : forall b1, 0 <= b1 < 2 ^ k1 -> b1 * 2 ^ k0 < 2 ^ k) by (intros b1 Hb; nia).
  unfold combine_high, combine_low. cbn [J jD jL]. rewrite !shiftl_k by lia.
  eapply (runs_bind perform).
  - apply (combine_loops_ok (fun b => bucket j b (Z.to_nat limit)) ys (fun b1 => b1 * 2 ^ k0) (fun b1 b0 => b1 * 2 ^ k0 + b0) (2 ^ k1) (2 ^ k0) (X * 2 ^ k) z1);
      try easy; try lia. intros b1 Hb. split; [nia|]. specialize (Hw b1 Hb). lia.
  - intros z2 Pz2. eapply (runs_weaken perform).
    + eapply (combine_loops_ok (fun b => bucket j b (Z.to_nat limit)) ys (fun b0 => b0) (fun b0 b1 => b1 * 2 ^ k0 + b0) (2 ^ k0) (2 ^ k1) _ z2 Hys);
        try lia; [intros b0 Hb; nia| |exact Pz2]. intros b0 b1 Hb0 Hb1. now apply Hrow.
    + intros z3 Pz3. rewrite <- (bucket_total j) by lia. rewrite <- (weights_total _ k0 k1) by (subst k0; lia).
      rewrite (Z.mul_comm (2 ^ k) X), Z.add_assoc. exact Pz3.
Qed.

(** The loop over [j] is Horner's rule on the columns. *)
Definition columns (n : Z) : Z := zsum (fun j => 2 ^ (k * j) * column j) (Z.to_nat n).

Lemma proof_loop_ok hi lo : 0 <= lo <= hi -> hi <= l ->
  runs (proof_loop J hi lo) (fun z => exists A, 2 ^ (k * lo) * A = columns hi - columns lo /\ pw A z).
Proof.
  intros Hlo Hhi. unfold proof_loop. cbn [jid J].
  apply (runs_downto perform _ (fun j z => exists A, 2 ^ (k * j) * A = columns hi - columns j /\ pw A z)); [lia| |].
  - exists 0. split; [ring|now apply pw_0].
  - intros j z Hj (A & EA & PA). eapply (runs_weaken perform); [apply (proof_step_ok j A); [lia|exact PA]|].
    intros z' Pz. exists (2 ^ k * A + column j). split; [|exact Pz].
    assert (E1 : columns (j + 1) = columns j + 2 ^ (k * j) * column j).
    { unfold columns. replace (Z.to_nat (j + 1)) with (S (Z.to_nat j)) by lia. cbn [zsum]. now rewrite Z2Nat.id by lia. }
    assert (E2 : 2 ^ (k * (j + 1)) = 2 ^ (k * j) * 2 ^ k) by (rewrite <- Z.pow_add_r by (try apply Z.mul_nonneg_nonneg; lia); f_equal; ring).
    rewrite E1, E2 in EA. lia.
Qed.

Lemma columns_total : columns l = 2 ^ T / B.
Proof.
  unfold columns, column. pose proof limit_nonneg as Hlim0.
  rewrite <- (blk_total k T B ltac:(lia) HT HB (Z.to_nat limit * Z.to_nat l)) by (apply Z.div_le_upper_bound; [lia|]; rewrite Nat2Z.inj_mul, !Z2Nat.id by lia; lia).
  rewrite <- (zsum_blocks (fun m => if k * (m + 1) <=? T then 2 ^ (k * m) * blk k T B m else 0)).
  rewrite <- (zsum_swap (fun j i => if k * (i * Z.of_nat (Z.to_nat l) + j + 1) <=? T
    then 2 ^ (k * (i * Z.of_nat (Z.to_nat l) + j)) * blk k T B (i * Z.of_nat (Z.to_nat l) + j) else 0)).
  apply zsum_ext. intros j Hj. rewrite <- zsum_scale. apply zsum_ext. intros i Hi. rewrite Z2Nat.id by lia. unfold use.
  destruct (_ <=? _); [|ring].
  replace (k * (i * l + j)) with (k * j + k * l * i) by ring. rewrite Z.pow_add_r by nia. ring.
Qed.

(** From the top to the bottom: [x^(2^T / B)]. *)
Lemma proof_loop_total : runs (proof_loop J l 0) (pw (2 ^ T / B)).
Proof.
  eapply (runs_weaken perform); [apply (proof_loop_ok l 0); lia|]. intros z (A & EA & PA).
  rewrite columns_total, Z.mul_0_r in EA. change (columns 0) with 0 in EA. change (2 ^ 0) with 1 in EA.
  now replace (2 ^ T / B) with A by lia.
Qed.
End JobProof.

(** ** The three provers *)

(** How a run that starts with [GetB] ends: as [P] says for the [B] and the two
    reduced forms, or with the exception of [GetB]. *)
Definition with_B {A} (g : res (Z * form * form)) (run : res A) (P : Z -> form -> form -> Prop) : Prop :=
  match g with
  | Ok (B, x, y) => P B x y
  | Throw e => run = Throw e
  end.

(** Some call of [PerformExtraStep] returns false. *)
Definition stops (perform : nat -> bool) : Prop := exists c, perform c = false.

(** What the provers need to be given. *)
Record proof_task (D : Z) (x y : form) (T k l : Z) (GetForm : Z -> res form) : Prop := {
  task_disc : good_disc D;
  task_x : class D x;
  task_y : class D y;
  task_k : 1 <= k <= 30;
  task_l : 1 <= l;
  task_kl : k * l < 2 ^ 31;
  task_T : 0 <= T < 2 ^ 64 - 2 ^ 32;
  task_forms : forall i, 0 <= i -> k * l * i < T -> exists g, GetForm i = Ok g /\ pw D x (2 ^ (k * l * i)) g;
}.

Section Provers.
Context `{GL : GmpLaws} `{RL : FormReducerLaws}.
Variables (D : Z) (x y : form) (T k l : Z) (GetForm : Z -> res form).
Hypothesis H : proof_task D x y T k l GetForm.

Lemma task_64 : T + 2 * (k * l) < 2 ^ 64.
Proof. pose proof (task_kl _ _ _ _ _ _ _ H). pose proof (task_T _ _ _ _ _ _ _ H). lia. Qed.

Lemma kl_pos : 0 < k * l.
Proof. pose proof (task_k _ _ _ _ _ _ _ H). pose proof (task_l _ _ _ _ _ _ _ H). nia. Qed.

Lemma loop_limit_ok : exists limit, loop_limit T k l = Ok limit /\ T <= limit * (k * l) < T + k * l.
Proof.
  pose proof kl_pos. pose proof (task_kl _ _ _ _ _ _ _ H). pose proof (task_T _ _ _ _ _ _ _ H).
  unfold loop_limit. rewrite (uwrap_id 32) by (unfold urange; lia). destruct (Z.eqb_spec (k * l) 0); [lia|].
  rewrite Z.rem_mod_nonneg, Z.quot_div_nonneg by lia. pose proof (Z.div_mod T (k * l) ltac:(lia)). pose proof (Z.mod_pos_bound T (k * l) ltac:(lia)).
  destruct (Z.eqb_spec (T mod (k * l)) 0); eexists; (split; [reflexivity|lia]).
Qed.

Lemma ceil_limit_ok : let limit := Z.quot (u64 (u64 (T + u64 (k * l)) - 1)) (u64 (k * l)) in T <= limit * (k * l) < T + k * l.
Proof.
  pose proof kl_pos. pose proof (task_kl _ _ _ _ _ _ _ H). pose proof (task_T _ _ _ _ _ _ _ H). cbv zeta.
  rewrite (u64_id (k * l)), (u64_id (T + k * l)), u64_id, Z.quot_div_nonneg by lia.
  pose proof (Z.div_mod (T + k * l - 1) (k * l) ltac:(lia)). pose proof (Z.mod_pos_bound (T + k * l - 1) (k * l) ltac:(lia)). lia.
Qed.

Lemma forms_below limit : limit * (k * l) < T + k * l ->
  forall i, 0 <= i < limit -> exists g, GetForm i = Ok g /\ pw D x (2 ^ (k * l * i)) g.
Proof. intros Hl i Hi. apply (task_forms _ _ _ _ _ _ _ H); [lia|]. pose proof kl_pos. nia. Qed.

(** What [GetB] provides. *)
Lemma GetB_task fuel B x' y' : GetB fuel D x y = Ok (B, x', y') -> 2 ^ k <= B /\ 0 < B.
Proof.
  intros EB. destruct (GetB_ok fuel D x y B x' y' (task_disc _ _ _ _ _ _ _ H) (task_x _ _ _ _ _ _ _ H) (task_y _ _ _ _ _ _ _ H) EB)
    as (_ & _ & _ & _ & _ & _ & HB & _).
  pose proof (task_k _ _ _ _ _ _ _ H). pose proof (Z.pow_le_mono_r 2 k 30 ltac:(lia) ltac:(lia)). assert (2 ^ 30 < 2 ^ 263) by reflexivity. lia.
Qed.

(** The common core: any range of the outer loop, from the identity. *)
Lemma job_ok B L id limit oob perform : 2 ^ k <= B -> 0 <= L -> principal D id -> T <= limit * (k * l) < T + k * l ->
  runs perform (proof_loop (mkjob D L B T k l limit id GetForm oob perform) l 0) (pw D x (2 ^ T / B)).
Proof.
  intros HB HL Hid Hlim. pose proof H as H'. destruct H' as [[_ H4 _ _] Cx _ Hk Hl Hkl HT HF].
  pose proof task_64. apply proof_loop_total; try easy; try lia. now apply forms_below.
Qed.
End Provers.

Lemma SquareFormN_ok `{GL : GmpLaws} `{RL : FormReducerLaws} D L x : 0 <= L -> class D x -> forall cnt n z, pw D x n z ->
  exists z', SquareFormN cnt z D L = Ok z' /\ pw D x (2 ^ Z.of_nat cnt * n) z'.
Proof.
  intros HL Cx. induction cnt as [|cnt IH]; intros n z Pz; cbn [SquareFormN].
  - exists z. split; [easy|]. change (2 ^ Z.of_nat 0) with 1. now rewrite Z.mul_1_l.
  - destruct (pw_nudupl D L HL x Cx n z Pz) as (z1 & -> & P1). cbn [bind].
    destruct (pw_reduce D x Cx _ z1 P1) as (z2 & -> & P2). cbn [bind].
    destruct (IH (2 * n) z2 P2) as (z3 & E3 & P3). exists z3. split; [easy|].
    rewrite Nat2Z.inj_succ, Z.pow_succ_r by lia. now replace (2 * 2 ^ Z.of_nat cnt * n) with (2 ^ Z.of_nat cnt * (2 * n)) by ring.
Qed.

(** One thread's part: the columns of its range, shifted to their place. *)
Lemma ProvePart_ok `{GL : GmpLaws} `{RL : FormReducerLaws} D x y T k l GetForm (H : proof_task D x y T k l GetForm) B L id limit :
  2 ^ k <= B -> 0 <= L -> principal D id -> T <= limit * (k * l) < T + k * l ->
  forall perform start len, 0 <= start - len -> start <= l -> 0 <= len ->
  let J := mkjob D L B T k l limit id GetForm undefined_behaviour perform in
  (exists z, ProvePart J start len = Ok (Some z) /\ pw D x (columns B T k l limit start - columns B T k l limit (start - len)) z) \/
  (ProvePart J start len = Ok None /\ stops perform).
Proof.
  intros HB HL Hid Hlim perform start len H1 H2 H3 J. pose proof (forms_below _ _ _ _ _ _ _ H limit (proj2 Hlim)) as HF.
  pose proof (task_64 _ _ _ _ _ _ _ H) as H64. destruct H as [[_ H4 _ _] Cx _ Hk Hl Hkl HT _].
  assert (Hek : 0 <= (start - len) * k <= k * l) by nia.
  unfold ProvePart. rewrite (uwrap_id 32) by (unfold urange; nia). cbn [J jk jD jL]. rewrite u64_id by lia.
  assert (Hloop : runs perform (proof_loop J start (start - len)) (fun z => exists A,
    2 ^ (k * (start - len)) * A = columns B T k l limit start - columns B T k l limit (start - len) /\ pw D x A z))
    by (apply proof_loop_ok; try easy; lia).
  destruct (Hloop O) as [(z & n & -> & A & EA & PA)|(-> & Hs)]; cbn [bind]; [left|now right].
  destruct (SquareFormN_ok D L x HL Cx (Z.to_nat ((start - len) * k)) A z PA) as (z' & -> & Pz'). exists z'. split; [easy|].
  rewrite Z2Nat.id in Pz' by lia. now rewrite (Z.mul_comm _ k), EA in Pz'.
Qed.

Lemma disc_identity D : good_disc D -> exists id, identity D = Ok id /\ principal D id.
Proof. intros [Hn H4 _ _]. destruct (identity_ok D Hn H4) as (e & E & P & _). eauto. Qed.

Lemma generate_wesolowski_helper `{GL : GmpLaws} `{RL : FormReducerLaws}
    fuel D x y T k l intermediates :
  proof_task D x y T k l (at_index intermediates) ->
  with_B (GetB fuel D x y) (GenerateWesolowski fuel y x D intermediates T k l) (fun B x' y' =>
    exists z, GenerateWesolowski fuel y x D intermediates T k l = Ok (z, x', y') /\ pw D x (2 ^ T / B) z).
Proof.
  intros H. unfold with_B, GenerateWesolowski. destruct (GetB fuel D x y) as [[[B x'] y']|e] eqn:EB; [cbn [bind]|reflexivity].
  destruct (root_ok D (task_disc _ _ _ _ _ _ _ H)) as (L & -> & HL). cbn [bind].
  pose proof (task_k _ _ _ _ _ _ _ H). pose proof (task_l _ _ _ _ _ _ _ H).
  destruct (Z.ltb_spec 0 k), (Z.ltb_spec 0 l); try lia.
  destruct (disc_identity D (task_disc _ _ _ _ _ _ _ H)) as (id & -> & Hid). cbn [bind].
  destruct (finished_runs _ _ (job_ok D x y T k l _ H B L id _ undefined_behaviour never_stops
    (proj1 (GetB_task D x y T k l _ H fuel B x' y' EB)) HL Hid (ceil_limit_ok D x y T k l _ H))) as (z & -> & Pz). cbn [bind].
  destruct (pw_reduce D x (task_x _ _ _ _ _ _ _ H) _ z Pz) as (z' & -> & Pz'). exists z'. easy.
Qed.

(** [GenerateWesolowski] returns the Wesolowski
    proof. For every admissible block size [k] and stride [l], every number of
    iterations [T] and intermediates that hold [x^(2^(k l i))] at index [i]
    wherever [k l i < T], it ends without an exception whenever [GetB] does,
    and its result is in the class of [x^(2^T / B)]: every block index is in
    range, no 64-bit index computation wraps, and the buckets, the two
    combining loops and the outer loop together evaluate the exponent exactly. *)
Theorem generate_wesolowski_correct {G : Gmp} {GL : GmpLaws G} {R : FormReducer} {RL : FormReducerLaws R}
    fuel D x y T k l intermediates :
  proof_task D x y T k l (at_index intermediates) ->
  with_B (GetB fuel D x y) (GenerateWesolowski fuel y x D intermediates T k l) (fun B x' y' =>
    exists z, GenerateWesolowski fuel y x D intermediates T k l = Ok (z, x', y') /\ pw D x (2 ^ T / B) z).
Proof. exact (generate_wesolowski_helper fuel D x y T k l intermediates). Qed.

Lemma generate_proof_helper `{GL : GmpLaws} `{RL : FormReducerLaws}
    GetForm perform OnFinish fuel p :
  proof_task (pD p) (seg_x (segm p)) (seg_y (segm p)) (num_iterations p) (pk p) (pl p) GetForm ->
  with_B (GetB fuel (pD p) (seg_x (segm p)) (seg_y (segm p))) (GenerateProof GetForm perform OnFinish fuel p) (fun B x' y' =>
    (exists z, pw (pD p) (seg_x (segm p)) (2 ^ num_iterations p / B) z /\
       GenerateProof GetForm perform OnFinish fuel p = Ok (OnFinish (set_proof (set_segm p x' y') z))) \/
    (stops perform /\ GenerateProof GetForm perform OnFinish fuel p = Ok (set_segm p x' y'))).
Proof.
  intros H. unfold with_B, GenerateProof. destruct (GetB _ _ _ _) as [[[B x'] y']|e] eqn:EB; [cbn [bind]|reflexivity].
  cbn [set_segm pD num_iterations pk pl].
  destruct (root_ok _ (task_disc _ _ _ _ _ _ _ H)) as (L & -> & HL). cbn [bind].
  destruct (disc_identity _ (task_disc _ _ _ _ _ _ _ H)) as (id & -> & Hid).
  destruct (loop_limit_ok _ _ _ _ _ _ _ H) as (limit & -> & Hlim). cbn [bind].
  destruct (job_ok _ _ _ _ _ _ _ H B L id limit runtime_error perform (proj1 (GetB_task _ _ _ _ _ _ _ H fuel B x' y' EB)) HL Hid Hlim O)
    as [(z & n & -> & Pz)|(-> & Hs)]; cbn [bind].
  - left. destruct (pw_reduce _ _ (task_x _ _ _ _ _ _ _ H) _ z Pz) as (z' & -> & Pz'). exists z'. split; [exact Pz'|reflexivity].
  - right. split; [exact Hs|reflexivity].
Qed.

(** [Prover::GenerateProof] either stores the proof
    or, if [PerformExtraStep] asked it to stop, leaves the object without one.
    Under the same hypotheses on [GetForm], when [GetB] returns [B], the run
    ends in one of two ways: [proof] is in the class of [x^(2^T / B)] and
    [OnFinish] has been called, or some call of [PerformExtraStep] returned
    false and neither [proof] nor [is_finished] has changed; the "block index
    out of bounds" error is never raised. *)
Theorem generate_proof_correct {G : Gmp} {GL : GmpLaws G} {R : FormReducer} {RL : FormReducerLaws R}
    GetForm perform OnFinish fuel p :
  proof_task (pD p) (seg_x (segm p)) (seg_y (segm p)) (num_iterations p) (pk p) (pl p) GetForm ->
  with_B (GetB fuel (pD p) (seg_x (segm p)) (seg_y (segm p))) (GenerateProof GetForm perform OnFinish fuel p) (fun B x' y' =>
    (exists z, pw (pD p) (seg_x (segm p)) (2 ^ num_iterations p / B) z /\
       GenerateProof GetForm perform OnFinish fuel p = Ok (OnFinish (set_proof (set_segm p x' y') z))) \/
    (stops perform /\ GenerateProof GetForm perform OnFinish fuel p = Ok (set_segm p x' y'))).
Proof. exact (generate_proof_helper GetForm perform OnFinish fuel p). Qed.

(** The proof comes from the reducer. *)
Lemma parallel_prover_helper `{GL : GmpLaws} `{RL : FormReducerLaws}
    GetForm perform0 perform1 perform2 OnFinish fuel p :
  proof_task (pD p) (seg_x (segm p)) (seg_y (segm p)) (num_iterations p) (pk p) (pl p) GetForm ->
  (stops perform0 \/ stops perform1 -> perform2 = false) ->
  with_B (GetB fuel (pD p) (seg_x (segm p)) (seg_y (segm p)))
    (ParallelGenerateProof GetForm (perform0, perform1, perform2) OnFinish fuel p) (fun B x' y' =>
    (exists z z0, class (pD p) z0 /\ reducer_reduce z0 = Ok z /\ pw (pD p) (seg_x (segm p)) (2 ^ num_iterations p / B) z /\
       ParallelGenerateProof GetForm (perform0, perform1, perform2) OnFinish fuel p = Ok (OnFinish (set_proof (set_segm p x' y') z))) \/
    (perform2 = false /\ ParallelGenerateProof GetForm (perform0, perform1, perform2) OnFinish fuel p = Ok (set_segm p x' y'))).
Proof.
  intros H Hstop. unfold with_B, ParallelGenerateProof. destruct (GetB _ _ _ _) as [[[B x'] y']|e] eqn:EB; [cbn [bind]|reflexivity].
  cbn [set_segm pD num_iterations pk pl].
  destruct (root_ok _ (task_disc _ _ _ _ _ _ _ H)) as (L & -> & HL). cbn [bind].
  destruct (disc_identity _ (task_disc _ _ _ _ _ _ _ H)) as (id & -> & Hid). cbn [bind].
  destruct (loop_limit_ok _ _ _ _ _ _ _ H) as (limit & -> & Hlim). cbn [bind].
  set (D := pD p) in *. set (x := seg_x (segm p)) in *. set (T := num_iterations p) in *. set (k := pk p) in *. set (l := pl p) in *.
  destruct (GetB_task _ _ _ _ _ _ _ H fuel B x' y' EB) as (HB & HB0).
  pose proof H as H'. destruct H' as [[_ H4 _ _] Cx _ Hk Hl Hkl HT _]. pose proof (task_64 _ _ _ _ _ _ _ H) as H64.
  set (l0 := Z.quot l 2). assert (Hl0 : 0 <= l0 <= l) by (subst l0; rewrite Z.quot_div_nonneg by lia; Z.div_mod_to_equations; lia).
  set (l1 := l - l0). assert (Hl1 : l - l0 = l1) by reflexivity.
  pose proof (ProvePart_ok D x (seg_y (segm p)) T k l GetForm H B L id limit HB HL Hid Hlim) as Hpart.
  cbv zeta in Hpart.
  pose proof (Hpart perform0 l l0 ltac:(lia) ltac:(lia) ltac:(lia)) as H0.
  pose proof (Hpart perform1 l1 l1 ltac:(lia) ltac:(lia) ltac:(lia)) as H1. rewrite Z.sub_diag in H1.
  change (columns B T k l limit 0) with 0 in H1. rewrite Z.sub_0_r in H1. rewrite Hl1 in H0.
  destruct H0 as [(z0 & -> & P0)|(-> & S0)]; cbn [bind]; (destruct H1 as [(z1 & -> & P1)|(-> & S1)]; cbn [bind]).
  2, 3, 4: rewrite (Hstop ltac:(tauto)); right; split; reflexivity.
  destruct perform2; cbn [negb]; [left|now right].
  destruct (pw_nucomp D L HL x Cx _ _ z0 z1 P0 P1) as (z2 & -> & P2). cbn [bind].
  destruct (pw_reduce D x Cx _ z2 P2) as (z3 & E3 & P3). rewrite E3. exists z3, z2. split; [exact (pw_class D x Cx _ _ P2)|]. split; [exact E3|]. split; [|reflexivity].
  rewrite <- (columns_total B T k l limit) by (try easy; lia).
  now replace (columns B T k l limit l) with
    (columns B T k l limit l - columns B T k l limit l1 + columns B T k l limit l1) by ring.
Qed.

(** C22: the two-threaded prover computes the same proof.
    [ParallelProver::GenerateProof] splits the outer loop at [l1 = l - l / 2]:
    one thread runs the upper part and squares its result [l1 * k] times, the
    other runs the lower part, and the product of the two is in the class of
    [x^(2^T / B)]. Provided a stop request, once seen by a thread, is also seen
    by the last call of [PerformExtraStep], a stopped run leaves the object
    without a proof instead of multiplying a part that was never computed. *)
Theorem parallel_prover_correct {G : Gmp} {GL : GmpLaws G} {R : FormReducer} {RL : FormReducerLaws R}
    GetForm perform0 perform1 perform2 OnFinish fuel p :
  proof_task (pD p) (seg_x (segm p)) (seg_y (segm p)) (num_iterations p) (pk p) (pl p) GetForm ->
  (stops perform0 \/ stops perform1 -> perform2 = false) ->
  with_B (GetB fuel (pD p) (seg_x (segm p)) (seg_y (segm p)))
    (ParallelGenerateProof GetForm (perform0, perform1, perform2) OnFinish fuel p) (fun B x' y' =>
    (exists z, pw (pD p) (seg_x (segm p)) (2 ^ num_iterations p / B) z /\
       ParallelGenerateProof GetForm (perform0, perform1, perform2) OnFinish fuel p = Ok (OnFinish (set_proof (set_segm p x' y') z))) \/
    (perform2 = false /\ ParallelGenerateProof GetForm (perform0, perform1, perform2) OnFinish fuel p = Ok (set_segm p x' y'))).
Proof.
  intros H Hstop. pose proof (parallel_prover_helper GetForm perform0 perform1 perform2 OnFinish fuel p H Hstop) as HP. unfold with_B in *.
  destruct (GetB _ _ _ _) as [[[B x'] y']|]; [|exact HP]. destruct HP as [(z & z0 & _ & _ & HP)|HP]; [left; now exists z|now right].
Qed.

(** ** ProveSlow *)

Lemma square_loop_ok `{GL : GmpLaws} `{RL : FormReducerLaws} D L x T kl alive : 0 <= L -> class D x -> 0 < kl ->
  forall n i ints cursor y, i + Z.of_nat n = T -> 0 <= i -> pw D x (2 ^ i) y ->
  i <= kl * cursor < i + kl -> T <= Z.of_nat (length ints) * kl ->
  (forall m, 0 <= m < cursor -> pw D x (2 ^ (kl * m)) (nth (Z.to_nat m) ints form_0)) ->
  (square_loop n i kl D L alive ints cursor y = Ok None /\ exists j, alive j = false) \/
  exists ints' y', square_loop n i kl D L alive ints cursor y = Ok (Some (ints', y')) /\ pw D x (2 ^ T) y' /\
    forall m, 0 <= m -> kl * m < T -> exists g, at_index ints' m = Ok g /\ pw D x (2 ^ (kl * m)) g.
Proof.
  intros HL Cx Hkl. induction n as [|n IH]; intros i ints cursor y Hi H0 Py Hc Hlen Hints; cbn [square_loop].
  - right. exists ints, y. split; [easy|]. replace i with T in * by lia. split; [easy|]. intros m Hm0 Hm.
    assert (Hml : m < Z.of_nat (length ints)) by (apply (Z.mul_lt_mono_pos_l kl); lia).
    assert (Hmc : m < cursor) by (apply (Z.mul_lt_mono_pos_l kl); lia).
    unfold at_index. rewrite (nth_error_nth' ints form_0) by lia. exists (nth (Z.to_nat m) ints form_0). split; [easy|]. now apply Hints.
  - rewrite Z.rem_mod_nonneg by lia. pose proof (Z.div_mod i kl ltac:(lia)) as Hdm. pose proof (Z.mod_pos_bound i kl Hkl) as Hmb.
    destruct (pw_nudupl D L HL x Cx _ y Py) as (y1 & Ey1 & Py1). destruct (pw_reduce D x Cx _ y1 Py1) as (y2 & Ey2 & Py2).
    rewrite <- Z.pow_succ_r in Py2 by lia.
    assert (Hstep : exists ints' cursor', (if i mod kl =? 0 then
           if cursor <? Z.of_nat (length ints) then Ok (update ints (Z.to_nat cursor) y, cursor + 1)
           else Throw undefined_behaviour
         else Ok (ints, cursor)) = Ok (ints', cursor') /\ length ints' = length ints /\ i + 1 <= kl * cursor' < i + 1 + kl /\
         forall m, 0 <= m < cursor' -> pw D x (2 ^ (kl * m)) (nth (Z.to_nat m) ints' form_0)).
    { destruct (Z.eqb_spec (i mod kl) 0) as [E|E].
      - assert (Hq1 : i / kl <= cursor) by (apply (Z.mul_le_mono_pos_l _ _ kl); lia).
        assert (Hq2 : cursor < i / kl + 1) by (apply (Z.mul_lt_mono_pos_l kl); lia).
        assert (Hci : kl * cursor = i) by (replace cursor with (i / kl) by lia; lia).
        assert (Hcl : cursor < Z.of_nat (length ints)) by (apply (Z.mul_lt_mono_pos_l kl); lia).
        destruct (Z.ltb_spec cursor (Z.of_nat (length ints))); [|lia].
        exists (update ints (Z.to_nat cursor) y), (cursor + 1). split; [easy|]. split; [apply length_update|]. split; [lia|].
        intros m Hm. assert (0 <= i / kl) by (apply Z.div_pos; lia). rewrite nth_update by lia.
        destruct (Nat.eqb_spec (Z.to_nat m) (Z.to_nat cursor)) as [E'|E']; [|apply Hints; lia].
        replace m with cursor by lia. now rewrite Hci.
      - exists ints, cursor. repeat (split; [easy|]). split; [|exact Hints]. assert (i <> kl * cursor); [|lia].
        intros ->. apply E. rewrite Z.mul_comm. apply Z.mod_mul. lia. }
    destruct Hstep as (ints' & cursor' & -> & Hl' & Hc' & Hints'). cbn [bind]. rewrite Ey1. cbn [bind]. rewrite Ey2. cbn [bind].
    destruct (Z.land i 0xffff =? 0); cbn [andb]; [destruct (alive i) eqn:Ea; cbn [negb]|].
    2: { left. split; [easy|]. now exists i. }
    all: apply IH; try easy; try lia; now rewrite Hl'.
Qed.

(** The constructor on a form's own coefficients gives an equivalent form. *)
Lemma from_abd_class D f : class D f -> exists g, from_abd (fa f) (fb f) D = Ok g /\ equiv f g.
Proof.
  intros [[HD Hn Ha] _]. pose proof (from_abd_ok (fa f) (fb f) D Hn) as H.
  assert (E : fb f * fb f - D = fc f * (4 * fa f)) by (rewrite <- HD; unfold disc; ring).
  destruct (from_abd (fa f) (fb f) D) as [g|e].
  - destruct H as (_ & _ & _ & _ & Q). exists g. split; [easy|]. rewrite E, Z.div_mul in Q by lia. now rewrite <- form_eta in Q.
  - destruct H as (_ & [H|H]); [lia|]. rewrite E, Z.mod_mul in H by lia. easy.
Qed.

Lemma if_max n : (if n <=? 0 then 1 else n) = Z.max 1 n.
Proof. destruct (Z.leb_spec n 0); lia. Qed.

(** A proof without segments that reads back is accepted. *)
Lemma one_proof_accepted `{GL : GmpLaws} `{RL : FormReducerLaws} fuel D x x' y y' B T ys ps proof x_s size :
  good_disc D -> class D x -> 0 <= T < 2 ^ 64 -> GetB fuel D x y = Ok (B, x', y') -> pw D x (2 ^ T) y -> pw D x (2 ^ T / B) proof ->
  length ys = 100%nat -> DeserializeForm D ys 100 false = Ok y' ->
  length ps = 100%nat -> DeserializeForm D ps 100 false = Ok proof ->
  length x_s = 100%nat -> DeserializeForm D x_s 100 false = Ok x' -> 0 < size <= 1024 ->
  CheckProofOfTimeNWesolowski fuel D (Some x_s) (Some (ys ++ ps)) 200 T size 0 = Ok true.
Proof.
  intros HD Cx HT EB Py Pp Lys Ey Lps Ep Lx Ex Hs. pose proof (pw_class D x Cx _ _ Py) as Cy.
  destruct (GetB_ok fuel D x y B x' y' HD Cx Cy EB) as (_ & _ & _ & _ & Qx & Qy & _).
  assert (EB' : GetB fuel D x' y' = Ok (B, x', y')) by now rewrite <- (GetB_equiv fuel D x y x' y').
  pose proof (check_accepts fuel D x_s x' [] 0 x' T y' ys proof ps size HD Hs Lx Ex (honest_nil fuel D x') (proj1 HT) ltac:(lia) Lys Ey) as HC.
  assert (Py' : power D x' (Z.to_nat (2 ^ T)) y') by (apply (power_equiv_base D x _ _ _ Qx); now apply (pw_equiv D x _ y)).
  specialize (HC Py' Lps Ep). cbv zeta in HC. cbn [segments_blob rev flat_map] in HC. rewrite app_nil_r, length_app, Lys, Lps in HC.
  rewrite EB' in HC. apply HC; [|reflexivity]. intros B0 x0 y0 [= <- <- <-]. apply (power_equiv_base D x _ _ _ Qx). apply Pp.
Qed.

(** What [ProveSlow] returns is the serialized output
    [x^(2^T)] followed by its serialized proof, and the verifier accepts it. For
    a usable choice of parameters the run ends in one of two ways: cancelled,
    with no bytes, because the shutdown file was found missing; or (as soon as
    [GetB] returns) with 200 bytes whose halves read back as the output and the proof, and
    which [CheckProofOfTimeNWesolowski] accepts for [T] iterations from the input. *)
Theorem prove_slow_correct {G : Gmp} {GL : GmpLaws G} {R : FormReducer} {RL : FormReducerLaws R}
    ApproximateParameters fuel D x T alive l k :
  good_disc D -> class D x -> 0 <= T < 2 ^ 64 - 2 ^ 32 ->
  ApproximateParameters T = Ok (l, k) -> k <= 30 -> Z.max 1 k * Z.max 1 l < 2 ^ 31 ->
  (ProveSlow ApproximateParameters fuel D x T alive = Ok ([], x) /\ exists j, alive j = false) \/
  exists y, pw D x (2 ^ T) y /\
    with_B (GetB fuel D x y) (ProveSlow ApproximateParameters fuel D x T alive) (fun B x' y' =>
      exists ys ps proof, ProveSlow ApproximateParameters fuel D x T alive = Ok (ys ++ ps, x') /\
        DeserializeForm D ys 100 false = Ok y' /\ DeserializeForm D ps 100 false = Ok proof /\
        pw D x (2 ^ T / B) proof /\ length ys = 100%nat /\ length ps = 100%nat /\
        forall x_s size, length x_s = 100%nat -> DeserializeForm D x_s 100 false = Ok x' -> 0 < size <= 1024 ->
        CheckProofOfTimeNWesolowski fuel D (Some x_s) (Some (ys ++ ps)) 200 T size 0 = Ok true).
Proof.
  intros HD Cx HT EA Hk Hkl. unfold ProveSlow, with_B. destruct (root_ok D HD) as (L & -> & HL). cbn [bind].
  destruct (from_abd_class D x Cx) as (y0 & -> & Q0). cbn [bind]. rewrite num_bits_disc by easy. cbn [bind].
  rewrite EA. cbn [bind]. rewrite !if_max. set (k' := Z.max 1 k) in *. set (l' := Z.max 1 l) in *.
  destruct (Z.ltb_spec (k' * l') (2 ^ 31)); [|lia].
  destruct (disc_identity D HD) as (id & _ & Hid). assert (Hkl0 : 0 < k' * l') by (subst k' l'; nia).
  set (size_vec := Z.quot _ _). assert (Hsize : T <= size_vec * (k' * l')).
  { subst size_vec. rewrite (u64_id (T + k' * l')), u64_id, Z.quot_div_nonneg by lia.
    pose proof (Z.div_mod (T + k' * l' - 1) (k' * l') ltac:(lia)). pose proof (Z.mod_pos_bound (T + k' * l' - 1) (k' * l') ltac:(lia)). lia. }
  assert (P0 : pw D x (2 ^ 0) y0) by (apply (pw_equiv D x _ x); [now apply (pw_1 D x Cx id)|easy]).
  destruct (square_loop_ok D L x T (k' * l') alive HL Cx Hkl0 (Z.to_nat T) 0 (repeat form_0 (Z.to_nat size_vec)) 0 y0) as [(-> & Hs)|(ints & y & -> & Py & Hints)];
    try lia; try easy; [rewrite repeat_length; nia|left; now split|]. cbn [bind]. right. exists y. split; [exact Py|].
  assert (H' : proof_task D x y T k' l' (at_index ints)).
  { split; try easy; try (subst k' l'; lia). now apply (pw_class D x Cx _ y Py). }
  pose proof (generate_wesolowski_helper fuel D x y T k' l' ints H') as HG. unfold with_B in HG.
  destruct (GetB fuel D x y) as [[[B x'] y']|e] eqn:EB; [|now rewrite HG]. destruct HG as (z & -> & Pz). cbn [bind].
  pose proof (pw_class D x Cx _ _ Py) as Cy. destruct (GetB_ok fuel D x y B x' y' HD Cx Cy EB) as (_ & _ & _ & Ry & Qx & Qy & _).
  assert (Cy' : class D y') by now rewrite <- Qy. pose proof (pw_class D x Cx _ _ Pz) as Cz.
  destruct (SerializeForm_ok D y' HD Cy') as (ys & y2 & Eys & Er & _ & _ & _ & Lys & _). rewrite (reduce_id D y' (class_valid _ _ Cy') Ry) in Er. injection Er as <-. rewrite Eys. cbn [bind].
  destruct (SerializeForm_ok D z HD Cz) as (ps & z2 & Eps & _ & _ & Qz & _ & Lps & _). rewrite Eps. cbn [bind].
  pose proof (SerializeForm_reads D _ ys y' HD Cy' Eys false) as Ey. pose proof (SerializeForm_reads D z ps z2 HD Cz Eps false) as Ep. pose proof (pw_equiv D x _ z z2 Pz Qz) as Pz2.
  exists ys, ps, z2. repeat (split; [easy|]).
  intros x_s size Lx Ex Hsz. now apply (one_proof_accepted fuel D x x' y y' B T ys ps z2 x_s size); try easy; lia.
Qed.

(** ** Witnesses: one iteration in the class group of discriminant -47 *)

Lemma task_47 : proof_task (-47) (mkform 2 1 6) (mkform 2 1 6) 1 1 1 (at_index [mkform 2 1 6]).
Proof.
  split; try exact class_form_47; try exact good_disc_47; try lia.
  intros i Hi Hlt. replace i with 0 by lia. exists (mkform 2 1 6). split; [reflexivity|].
  exact (pw_1 (-47) _ class_form_47 _ principal_47).
Qed.

Lemma generate_wesolowski_correct_witness :
  proof_task (-47) (mkform 2 1 6) (mkform 2 1 6) 1 1 1 (at_index [mkform 2 1 6]) /\
  with_B (GetB (G := Ref.gmp) 50 (-47) (mkform 2 1 6) (mkform 2 1 6))
    (GenerateWesolowski (G := Ref.gmp) (R := vdf_new_reducer) 50 (mkform 2 1 6) (mkform 2 1 6) (-47) [mkform 2 1 6] 1 1 1)
    (fun B x' y' => exists z,
      GenerateWesolowski (G := Ref.gmp) (R := vdf_new_reducer) 50 (mkform 2 1 6) (mkform 2 1 6) (-47) [mkform 2 1 6] 1 1 1 = Ok (z, x', y') /\
      pw (-47) (mkform 2 1 6) (2 ^ 1 / B) z).
Proof.
  split; [exact task_47|].
  exact (generate_wesolowski_correct (GL := Ref.laws) (RL := vdf_new_reducer_laws) 50 (-47) _ _ 1 1 1 _ task_47).
Defined.

Definition prover_47 : prover := Prover_make (Segment_make 0 1 (mkform 2 1 6) (mkform 2 1 6)) (-47) 1 1.

Lemma generate_proof_correct_witness :
  let GF := at_index [mkform 2 1 6] in let run := GenerateProof (G := Ref.gmp) (R := vdf_new_reducer) GF never_stops set_finished 50 prover_47 in
  with_B (GetB (G := Ref.gmp) 50 (-47) (mkform 2 1 6) (mkform 2 1 6)) run (fun B x' y' =>
    (exists z, pw (-47) (mkform 2 1 6) (2 ^ 1 / B) z /\ run = Ok (set_finished (set_proof (set_segm prover_47 x' y') z))) \/
    (stops never_stops /\ run = Ok (set_segm prover_47 x' y'))).
Proof.
  exact (generate_proof_correct (GL := Ref.laws) (RL := vdf_new_reducer_laws) (at_index [mkform 2 1 6]) never_stops set_finished 50 prover_47 task_47).
Defined.

Lemma parallel_prover_correct_witness :
  let GF := at_index [mkform 2 1 6] in
  let run := ParallelGenerateProof (G := Ref.gmp) (R := vdf_new_reducer) GF (never_stops, never_stops, true) set_finished 50 prover_47 in
  ~ (stops never_stops \/ stops never_stops) /\
  with_B (GetB (G := Ref.gmp) 50 (-47) (mkform 2 1 6) (mkform 2 1 6)) run (fun B x' y' =>
    (exists z, pw (-47) (mkform 2 1 6) (2 ^ 1 / B) z /\ run = Ok (set_finished (set_proof (set_segm prover_47 x' y') z))) \/
    (true = false /\ run = Ok (set_segm prover_47 x' y'))).
Proof.
  assert (Hn : ~ (stops never_stops \/ stops never_stops)) by (intros [[c Hc]|[c Hc]]; discriminate Hc).
  split; [exact Hn|].
  exact (parallel_prover_correct (GL := Ref.laws) (RL := vdf_new_reducer_laws) (at_index [mkform 2 1 6]) never_stops never_stops true set_finished 50
    prover_47 task_47 (fun H => match Hn H with end)).
Defined.

Lemma prove_slow_correct_witness :
  let AP := (fun _ => Ok (1, 1)) in let x := mkform 2 1 6 in
  let run := ProveSlow (G := Ref.gmp) (R := vdf_new_reducer) AP 50 (-47) x 3 (fun _ => true) in
  (good_disc (-47) /\ class (-47) x /\ AP 3 = Ok (1, 1)) /\
  ((run = Ok ([], x) /\ exists j : Z, true = false) \/
  exists y, pw (-47) x (2 ^ 3) y /\
    with_B (GetB (G := Ref.gmp) 50 (-47) x y) run (fun B x' y' =>
      exists ys ps proof, run = Ok (ys ++ ps, x') /\
        DeserializeForm (G := Ref.gmp) (-47) ys 100 false = Ok y' /\ DeserializeForm (G := Ref.gmp) (-47) ps 100 false = Ok proof /\
        pw (-47) x (2 ^ 3 / B) proof /\ length ys = 100%nat /\ length ps = 100%nat /\
        forall x_s size, length x_s = 100%nat -> DeserializeForm (G := Ref.gmp) (-47) x_s 100 false = Ok x' -> 0 < size <= 1024 ->
        CheckProofOfTimeNWesolowski (G := Ref.gmp) (R := vdf_new_reducer) 50 (-47) (Some x_s) (Some (ys ++ ps)) 200 3 size 0 = Ok true)).
Proof.
  intros AP x run. split; [split; [exact good_disc_47|split; [exact class_form_47|reflexivity]]|].
  exact (prove_slow_correct (GL := Ref.laws) (RL := vdf_new_reducer_laws) AP 50 (-47) x 3 (fun _ => true) 1 1
    good_disc_47 class_form_47 ltac:(lia) eq_refl ltac:(lia) ltac:(reflexivity)).
Defined.
