(* ===== verification/Callback.v ===== *)
(** [src/src/callback.h]: the callbacks of the squaring loop, which store the
    intermediate forms the provers read. An array of forms is a function on its
    indices with its capacity beside it; a write or read beyond the capacity
    that the code does not check is an error. *)
From S2P Require Import Prelude Words NumTheory Gmp QuadForm FormClass Integer Forms Nucomp Bqfc PrimeTest HashPrime ProofCommon Powers Verifier.

Definition kWindowSize : Z := 20.
Definition kMaxItersAllowed : Z := 800000000.
Definition kSwitchIters : Z := 91000000.

(** What [data] points to, by [type]. [NL_SQUARESTATE] carries what
    [square_state->assign] writes: nothing when it fails. *)
Inductive payload : Type :=
| NL_SQUARESTATE (assigned : option form)
| NL_FORM (f : form)
| NL_unknown.

Definition array : Type := Z -> form.
Definition set_at (a : array) (i : Z) (f : form) : array := fun j => if j =? i then f else a j.

(** [int] arithmetic that overflows is undefined. *)
Definition int_of (x : Z) : res Z := if (- 2 ^ 31 <=? x) && (x <? 2 ^ 31) then Ok x else Throw undefined_behaviour.

Section WithReducer.
Context `{R : FormReducer}.

Definition SetForm (data : payload) (mulf : form) (reduced : bool) : res form :=
  let mulf := match data with
              | NL_SQUARESTATE (Some f) => f
              | NL_SQUARESTATE None => mulf
              | NL_FORM f => f
              | NL_unknown => mulf
              end in
  if reduced then reducer_reduce mulf else Ok mulf.

(** An element of an array, through a pointer. *)
Definition SetForm_at (data : payload) (a : array) (i : Z) : res array :=
  f <- SetForm data (a i) true ;; Ok (set_at a i f).

(** ** OneWesolowskiCallback *)

(** A default-constructed [form]. *)
Definition form_zero : form := mkform 0 0 0.

Record OneWesolowskiCallback : Type := mkOne {
  o_forms : array;
  o_capacity : Z;
  o_wanted_iter : Z;
  o_kl : Z;
  o_result : form;
}.

(** [ApproximateParameters] is floating-point code: an argument, [(l, k)] for an
    iteration count. [garbage] is the content of the fresh array. *)
Definition OneWesolowskiCallback_make (ApproximateParameters : Z -> res (Z * Z)) (garbage : array) (f : form) (wanted_iter : Z)
  : res OneWesolowskiCallback :=
  ' (l, k) <- (if 2 ^ 16 <=? wanted_iter then ApproximateParameters wanted_iter else Ok (1, 10)) ;;
  let step := k * l in
  if step =? 0 then Throw overflow_error
  else if 2 ^ 32 - 1 <? step then Throw overflow_error
  else
    let space_needed := Z.quot wanted_iter step + 100 in
    Ok (mkOne (set_at garbage 0 f) space_needed wanted_iter step form_zero).

Definition One_OnIteration (c : OneWesolowskiCallback) (data : payload) (iteration : Z) : res OneWesolowskiCallback :=
  let iteration := u64 (iteration + 1) in
  if o_wanted_iter c <? iteration then Ok c
  else
    c <- (if Z.rem iteration (o_kl c) =? 0 then
            let pos := Z.quot iteration (o_kl c) in
            if o_capacity c <=? pos then Throw runtime_error
            else
              forms <- SetForm_at data (o_forms c) pos ;;
              Ok (mkOne forms (o_capacity c) (o_wanted_iter c) (o_kl c) (o_result c))
          else Ok c) ;;
    if iteration =? o_wanted_iter c then
      result <- SetForm data (o_result c) true ;;
      Ok (mkOne (o_forms c) (o_capacity c) (o_wanted_iter c) (o_kl c) result)
    else Ok c.

(** ** TwoWesolowskiCallback *)

(** [switch_iters] plus one in the upper, [switch_index] in the lower 32 bits. *)
Definition EncodeTransitionState (switch_index_value switch_iters_value : Z) : res Z :=
  if 2 ^ 32 - 1 <? switch_index_value then Throw overflow_error
  else if (switch_iters_value <? -1) || (2 ^ 32 - 2 <? switch_iters_value) then Throw overflow_error
  else
    let encoded_iters := u32 (switch_iters_value + 1) in
    Ok (Z.lor (u64 (Z.shiftl encoded_iters 32)) (u32 switch_index_value)).

Definition DecodeSwitchIndex (state : Z) : Z := Z.land state 0xffffffff.
Definition DecodeSwitchIters (state : Z) : Z := u32 (Z.shiftr state 32) - 1.

(** A [-1] that [switch_iters] decodes to is not compared with [power]. *)
Definition before_switch (power state : Z) : bool :=
  (DecodeSwitchIters state =? -1) || (power <? u64 (DecodeSwitchIters state)).

Definition GetEffectiveKl (power state : Z) : Z := if before_switch power state then 10 else 100.

Definition GetPositionFromSnapshot (power state : Z) : Z :=
  if before_switch power state then Z.quot power 10
  else u64 (DecodeSwitchIndex state + Z.quot (u64 (power - u64 (DecodeSwitchIters state))) 100).

Record TwoWesolowskiCallback : Type := mkTwo {
  t_forms : array;
  t_capacity : Z;
  t_state : Z;                  (* transition_state *)
  t_kl : Z;
}.

Definition TwoWesolowskiCallback_make (garbage : array) (f : form) : res TwoWesolowskiCallback :=
  let early_points := Z.quot kSwitchIters 10 in
  let late_points := Z.quot (kMaxItersAllowed - kSwitchIters) 100 in
  state <- EncodeTransitionState 0 (-1) ;;
  Ok (mkTwo (set_at garbage 0 f) (early_points + late_points) state 10).

Definition IncreaseConstants (c : TwoWesolowskiCallback) (num_iters : Z) : res TwoWesolowskiCallback :=
  state <- EncodeTransitionState (Z.quot num_iters 10) num_iters ;;
  Ok (mkTwo (t_forms c) (t_capacity c) state 100).

Definition GetPosition2 (c : TwoWesolowskiCallback) (power : Z) : Z := GetPositionFromSnapshot power (t_state c).

Definition GetFormCopy (c : TwoWesolowskiCallback) (power : Z) : res form :=
  let pos := GetPosition2 c power in
  if t_capacity c <=? pos then Throw runtime_error else Ok (t_forms c pos).

Definition LargeConstants (c : TwoWesolowskiCallback) : bool := negb (DecodeSwitchIters (t_state c) =? -1).

(** [current_kl] is what the relaxed load of [kl] returns: it may be an older
    value. *)
Definition Two_OnIteration (c : TwoWesolowskiCallback) (current_kl : Z) (data : payload) (iteration : Z) : res TwoWesolowskiCallback :=
  let iteration := u64 (iteration + 1) in
  if negb (Z.rem iteration current_kl =? 0) then Ok c
  else
    let effective_kl := GetEffectiveKl iteration (t_state c) in
    if negb (Z.rem iteration effective_kl =? 0) then Ok c
    else
      let pos := GetPositionFromSnapshot iteration (t_state c) in
      if t_capacity c <=? pos then Throw runtime_error
      else
        forms <- SetForm_at data (t_forms c) pos ;;
        Ok (mkTwo forms (t_capacity c) (t_state c) (t_kl c)).

(** ** FastAlgorithmCallback *)

Definition bucket_size1 : Z := 6554.
Definition bucket_size2 : Z := 21846.
Definition window_size : Z := kWindowSize.

Record FastAlgorithmCallback : Type := mkFast {
  f_forms : array;
  f_capacity : Z;
  f_checkpoints : array;        (* 1 << 18 forms *)
  f_y_ret : form;
  f_segments : Z;
  f_buckets_begin : list Z;
  f_multi_proc : bool;
}.

(** The [push_back]s of the constructor: for the [i]-th bucket, [i >= 2]. *)
Fixpoint push_buckets (n : nat) (back : Z) : res (list Z) :=
  match n with
  | O => Ok []
  | S n' => b <- int_of (back + bucket_size2 * window_size) ;; rest <- push_buckets n' b ;; Ok (b :: rest)
  end.

Definition buckets_begin_make (segments : Z) : res (list Z) :=
  if 1 <? segments then
    rest <- push_buckets (Z.to_nat (segments - 2)) (bucket_size1 * window_size) ;;
    Ok (0 :: bucket_size1 * window_size :: rest)
  else Ok [0].

Definition FastAlgorithmCallback_make (garbage garbage_checkpoints : array) (segments : Z) (f : form) (multi_proc_machine : bool)
  : res FastAlgorithmCallback :=
  if segments <? 1 then Throw invalid_argument
  else
    begins <- buckets_begin_make segments ;;
    let per_window := bucket_size1 + bucket_size2 * (segments - 1) in
    let total_forms := window_size * per_window in
    let forms := fold_left (fun forms b => set_at forms b f) begins garbage in
    Ok (mkFast forms total_forms (set_at garbage_checkpoints 0 f) f segments begins multi_proc_machine).

(** [power_2] and the checkpoint stride [kl] of a bucket: an [int], which is
    converted to [uint64_t] where it divides. *)
Definition power_2 (bucket : Z) : res Z :=
  if 16 + 2 * bucket <=? 62 then Ok (2 ^ (16 + 2 * bucket)) else Throw undefined_behaviour.

Definition stride (bucket : Z) : res Z :=
  p <- power_2 bucket ;;
  let kl := u64 (s32 (if bucket =? 0 then 10 else u64 (12 * Z.shiftr p 18))) in
  if kl =? 0 then Throw undefined_behaviour else Ok kl.

Definition GetPosition (c : FastAlgorithmCallback) (exponent bucket : Z) : res Z :=
  match nth_error (f_buckets_begin c) (Z.to_nat bucket) with
  | None => Throw undefined_behaviour
  | Some position =>
      let size := if bucket =? 0 then bucket_size1 else bucket_size2 in
      p <- power_2 bucket ;;
      kl <- stride bucket ;;
      let position := s32 (position + Z.rem (Z.quot exponent p) window_size * size) in
      Ok (s32 (position + Z.quot (Z.rem exponent p) kl))
  end.

(** The index of [GetForm]'s pointer; it is dereferenced by every caller. *)
Definition GetForm (c : FastAlgorithmCallback) (exponent bucket : Z) : res Z :=
  pos <- GetPosition c exponent bucket ;;
  if u64 pos <? f_capacity c then Ok (u64 pos) else Throw undefined_behaviour.

Definition with_forms (c : FastAlgorithmCallback) (forms : array) : FastAlgorithmCallback :=
  mkFast forms (f_capacity c) (f_checkpoints c) (f_y_ret c) (f_segments c) (f_buckets_begin c) (f_multi_proc c).

(** The loop over the buckets from [i] on. *)
Fixpoint store_buckets (n : nat) (i : Z) (c : FastAlgorithmCallback) (data : payload) (iteration : Z) : res FastAlgorithmCallback :=
  match n with
  | O => Ok c
  | S n' =>
      p <- power_2 i ;;
      kl <- stride i ;;
      c <- (if Z.rem (Z.rem iteration p) kl =? 0 then
              pos <- GetForm c iteration i ;;
              forms <- SetForm_at data (f_forms c) pos ;;
              Ok (with_forms c forms)
            else Ok c) ;;
      store_buckets n' (i + 1) c data iteration
  end.

Definition Fast_OnIteration (c : FastAlgorithmCallback) (data : payload) (iteration : Z) : res FastAlgorithmCallback :=
  let iteration := u64 (iteration + 1) in
  c <- (if f_multi_proc c then
          if Z.rem iteration (2 ^ 15) =? 0 then
            y <- SetForm data (f_y_ret c) true ;;
            Ok (mkFast (f_forms c) (f_capacity c) (f_checkpoints c) y (f_segments c) (f_buckets_begin c) (f_multi_proc c))
          else Ok c
        else store_buckets (Z.to_nat (f_segments c)) 0 c data iteration) ;;
  if Z.rem iteration (2 ^ 16) =? 0 then
    let i := Z.quot iteration (2 ^ 16) in
    if i <? 2 ^ 18 then
      cps <- SetForm_at data (f_checkpoints c) i ;;
      Ok (mkFast (f_forms c) (f_capacity c) cps (f_y_ret c) (f_segments c) (f_buckets_begin c) (f_multi_proc c))
    else Throw undefined_behaviour
  else Ok c.

End WithReducer.

(** ** What is stored *)

Lemma set_at_eq a i f : set_at a i f i = f.
Proof. unfold set_at. now rewrite Z.eqb_refl. Qed.

Lemma set_at_neq a i f j : j <> i -> set_at a i f j = a j.
Proof. unfold set_at. intros H. now destruct (Z.eqb_spec j i). Qed.

Section Stored.
Context `{RL : FormReducerLaws}.
Variable D : Z.
Variable x : form.
Hypothesis Cx : class D x.
Abbreviation pw := (pw D x).

(** [data] is a form in the class of [x^n]. *)
Definition carries (n : Z) (data : payload) : Prop :=
  exists g, (data = NL_FORM g \/ data = NL_SQUARESTATE (Some g)) /\ pw n g.

Lemma SetForm_ok n data mulf : carries n data -> exists z, SetForm data mulf true = Ok z /\ pw n z.
Proof. intros (g & [-> | ->] & Pg); exact (pw_reduce D x Cx n g Pg). Qed.

Lemma SetForm_at_ok n data a i : carries n data ->
  exists a', SetForm_at data a i = Ok a' /\ pw n (a' i) /\ forall j, j <> i -> a' j = a j.
Proof.
  intros Hc. destruct (SetForm_ok n data (a i) Hc) as (z & E & Pz). unfold SetForm_at. rewrite E. cbn [bind].
  exists (set_at a i z). split; [easy|]. rewrite set_at_eq. split; [easy|]. apply set_at_neq.
Qed.

(** *** OneWesolowskiCallback *)

(** After [n] iterations. *)
Record one_inv (T : Z) (c : OneWesolowskiCallback) (n : Z) : Prop := {
  one_wanted : o_wanted_iter c = T;
  one_kl : 0 < o_kl c;
  one_capacity : T / o_kl c < o_capacity c;
  one_forms : forall i, 0 <= i -> o_kl c * i <= Z.min n T -> pw (2 ^ (o_kl c * i)) (o_forms c i);
  one_result : T <= n -> pw (2 ^ T) (o_result c);
}.

Lemma one_step T c n data : 1 <= T -> 0 <= n < 2 ^ 64 - 1 -> one_inv T c n -> carries (2 ^ (n + 1)) data ->
  exists c', One_OnIteration c data n = Ok c' /\ one_inv T c' (n + 1) /\ o_kl c' = o_kl c /\ o_capacity c' = o_capacity c.
Proof.
  intros HT Hn [HW Hkl Hcap HF HR] Hc. unfold One_OnIteration. rewrite u64_id by lia. rewrite HW.
  destruct (Z.ltb_spec T (n + 1)) as [Hlt|Hle].
  { exists c. repeat (split; [easy|]). split; [|easy]. split; try easy; [intros i Hi Hm; apply HF; lia|intros _; apply HR; lia]. }
  rewrite Z.rem_mod_nonneg, Z.quot_div_nonneg by lia. set (kl := o_kl c) in *.
  pose proof (Z.div_mod (n + 1) kl ltac:(lia)) as Hdm. pose proof (Z.mod_pos_bound (n + 1) kl Hkl) as Hmb.
  assert (H1 : exists c1, (if (n + 1) mod kl =? 0 then
            if o_capacity c <=? (n + 1) / kl then Throw runtime_error
            else forms <- SetForm_at data (o_forms c) ((n + 1) / kl) ;;
              Ok (mkOne forms (o_capacity c) T kl (o_result c))
          else Ok c) = Ok c1 /\ o_wanted_iter c1 = T /\ o_kl c1 = kl /\ o_capacity c1 = o_capacity c /\
          forall i, 0 <= i -> kl * i <= n + 1 -> pw (2 ^ (kl * i)) (o_forms c1 i)).
  { destruct (Z.eqb_spec ((n + 1) mod kl) 0) as [E|E].
    - assert ((n + 1) / kl <= T / kl) by (apply Z.div_le_mono; lia). destruct (Z.leb_spec (o_capacity c) ((n + 1) / kl)); [lia|].
      destruct (SetForm_at_ok _ data (o_forms c) ((n + 1) / kl) Hc) as (a' & -> & Pa & Ha). cbn [bind]. eexists. split; [reflexivity|].
      cbn [o_wanted_iter o_kl o_capacity o_forms]. repeat (split; [easy|]). intros i Hi Hm.
      destruct (Z.eq_dec i ((n + 1) / kl)) as [->|Hne]; [|rewrite Ha by easy; apply HF; [easy|]].
      + replace (kl * ((n + 1) / kl)) with (n + 1) by lia. exact Pa.
      + assert (kl * i <> n + 1); [|lia]. intros E2. apply Hne. apply (Z.mul_cancel_l _ _ kl); lia.
    - exists c. repeat (split; [easy|]). intros i Hi Hm. apply HF; [easy|]. assert (kl * i <> n + 1); [|lia].
      intros E2. apply E. rewrite <- E2, Z.mul_comm. apply Z.mod_mul. lia. }
  destruct H1 as (c1 & -> & HW1 & Hkl1 & Hcap1 & HF1). cbn [bind]. rewrite HW1. destruct (Z.eqb_spec (n + 1) T) as [ET|ET].
  - destruct (SetForm_ok _ data (o_result c1) Hc) as (z & -> & Pz). cbn [bind]. eexists. split; [reflexivity|].
    cbn [o_kl o_capacity]. split; [|easy]. split; cbn [o_wanted_iter o_kl o_capacity o_forms o_result]; rewrite ?Hkl1, ?Hcap1; try easy.
    + intros i Hi Hm. apply HF1; lia.
    + intros _. now rewrite <- ET.
  - exists c1. split; [easy|]. split; [|easy]. split; rewrite ?Hkl1, ?Hcap1; try easy.
    + intros i Hi Hm. apply HF1; lia.
    + intros Hge. lia.
Qed.

Lemma one_init AP garbage T l k e : principal D e -> 1 <= T < 2 ^ 63 ->
  (if 2 ^ 16 <=? T then AP T else Ok (1, 10)) = Ok (l, k) -> 0 < k * l < 2 ^ 32 ->
  exists c, OneWesolowskiCallback_make AP garbage x T = Ok c /\ one_inv T c 0 /\ o_kl c = k * l /\ o_capacity c = T / (k * l) + 100.
Proof.
  intros He HT EP Hkl. unfold OneWesolowskiCallback_make. rewrite EP. cbn [bind].
  destruct (Z.eqb_spec (k * l) 0); [lia|]. destruct (Z.ltb_spec (2 ^ 32 - 1) (k * l)); [lia|]. rewrite Z.quot_div_nonneg by lia.
  eexists. split; [reflexivity|]. cbn [o_wanted_iter o_kl o_capacity o_forms o_result]. split; [|easy].
  split; cbn [o_wanted_iter o_kl o_capacity o_forms o_result]; try easy; try lia.
  intros i Hi Hm. assert (i = 0) as -> by nia. rewrite Z.mul_0_r, set_at_eq. change (2 ^ 0) with 1. now apply (pw_1 D x Cx e).
Qed.

(** *** TwoWesolowskiCallback *)

Lemma high_bits_0 n a i : 0 <= a < 2 ^ n -> n <= i -> Z.testbit a i = false.
Proof.
  intros Ha Hi. destruct (Z.eq_dec a 0) as [->|]; [apply Z.bits_0|]. apply Z.bits_above_log2; [lia|].
  eapply Z.lt_le_trans; [|exact Hi]. apply Z.log2_lt_pow2; lia.
Qed.

(** The two 32-bit fields of the transition state. *)
Lemma transition_roundtrip idx it : 0 <= idx < 2 ^ 32 -> -1 <= it < 2 ^ 32 - 1 ->
  exists st, EncodeTransitionState idx it = Ok st /\ DecodeSwitchIndex st = idx /\ DecodeSwitchIters st = it.
Proof.
  intros Hi Ht. unfold EncodeTransitionState. destruct (Z.ltb_spec (2 ^ 32 - 1) idx); [lia|].
  destruct (Z.ltb_spec it (-1)); [lia|]. destruct (Z.ltb_spec (2 ^ 32 - 2) it); [lia|]. cbn [orb].
  eexists. split; [reflexivity|]. rewrite (uwrap_id 32 (it + 1)), (uwrap_id 32 idx) by (unfold urange; lia). set (e := it + 1).
  assert (He : 0 <= e < 2 ^ 32) by (subst e; lia).
  rewrite u64_id by (rewrite Z.shiftl_mul_pow2 by lia; lia).
  unfold DecodeSwitchIndex, DecodeSwitchIters. split.
  - apply Z.bits_inj'. intros i Hi0. change 0xffffffff with (Z.ones 32). rewrite Z.land_spec, Z.lor_spec, Z.shiftl_spec by easy.
    destruct (Z.lt_ge_cases i 32).
    + rewrite Z.ones_spec_low, (Z.testbit_neg_r e) by lia. cbn [orb]. now rewrite Bool.andb_true_r.
    + rewrite Z.ones_spec_high by lia. rewrite Bool.andb_false_r. symmetry. now apply (high_bits_0 32).
  - assert (E : Z.shiftr (Z.lor (Z.shiftl e 32) idx) 32 = e).
    { apply Z.bits_inj'. intros i Hi0. rewrite Z.shiftr_spec, Z.lor_spec, Z.shiftl_spec by lia.
      replace (i + 32 - 32) with i by lia. rewrite (high_bits_0 32 idx) by lia. apply Bool.orb_false_r. }
    rewrite E, (uwrap_id 32) by (unfold urange; lia). subst e. lia.
Qed.

(** The switch the state encodes. *)
Definition switched (st : Z) (sw : option Z) : Prop :=
  match sw with
  | None => DecodeSwitchIters st = -1
  | Some s => DecodeSwitchIters st = s /\ DecodeSwitchIndex st = s / 10 /\ 0 < s < 2 ^ 32 - 1 /\ s mod 100 = 0
  end.

(** The position of a power. *)
Definition position (sw : option Z) (p : Z) : Z :=
  match sw with
  | Some s => if p <? s then p / 10 else s / 10 + (p - s) / 100
  | None => p / 10
  end.

(** The powers that are stored. *)
Definition on_grid (sw : option Z) (p : Z) : Prop :=
  match sw with
  | Some s => if p <? s then p mod 10 = 0 else p mod 100 = 0
  | None => p mod 10 = 0
  end.

Lemma position_ok st sw p : switched st sw -> 0 <= p < 2 ^ 63 -> GetPositionFromSnapshot p st = position sw p /\
  GetEffectiveKl p st = match sw with Some s => if p <? s then 10 else 100 | None => 10 end.
Proof.
  intros Hs Hp. unfold GetPositionFromSnapshot, GetEffectiveKl, before_switch, position. destruct sw as [s|]; cbn [switched] in Hs.
  - destruct Hs as (E1 & E2 & Hr & _). rewrite E1, E2. destruct (Z.eqb_spec s (-1)); [lia|]. cbn [orb].
    rewrite (u64_id s) by lia. destruct (Z.ltb_spec p s); [rewrite Z.quot_div_nonneg by lia; easy|].
    rewrite (u64_id (p - s)) by lia. rewrite Z.quot_div_nonneg by lia. rewrite u64_id by (Z.div_mod_to_equations; lia). easy.
  - rewrite Hs. cbn [Z.eqb Pos.eqb orb]. rewrite Z.quot_div_nonneg by lia. easy.
Qed.

Lemma grid_inj sw p q : match sw with Some s => s mod 100 = 0 | None => True end -> 0 <= p -> 0 <= q ->
  on_grid sw p -> on_grid sw q -> position sw p = position sw q -> p = q.
Proof.
  destruct sw as [s|]; cbn [on_grid position].
  - intros Hs Hp Hq Gp Gq E. destruct (Z.ltb_spec p s), (Z.ltb_spec q s); Z.div_mod_to_equations; lia.
  - intros _ Hp Hq Gp Gq E. Z.div_mod_to_equations; lia.
Qed.

(** After [n] iterations with the switch [sw]. *)
Record two_inv (c : TwoWesolowskiCallback) (sw : option Z) (n : Z) : Prop := {
  two_state : switched (t_state c) sw;
  two_past : match sw with Some s => s <= n | None => True end;
  two_capacity : t_capacity c = 16190000;
  two_forms : forall p, 0 <= p <= n -> on_grid sw p ->
    position sw p < t_capacity c /\ pw (2 ^ p) (t_forms c (position sw p));
}.

Lemma two_init garbage (e : form) : principal D e -> exists c, TwoWesolowskiCallback_make garbage x = Ok c /\ two_inv c None 0 /\ t_kl c = 10.
Proof.
  intros He. unfold TwoWesolowskiCallback_make. destruct (transition_roundtrip 0 (-1) ltac:(lia) ltac:(lia)) as (st & -> & _ & E).
  cbn [bind]. eexists. split; [reflexivity|]. split; [|reflexivity]. split; [exact E|exact I|reflexivity|].
  intros p Hp _. replace p with 0 by lia. cbn [position t_capacity t_forms]. change (0 / 10) with 0. rewrite set_at_eq.
  split; [reflexivity|]. change (2 ^ 0) with 1. now apply (pw_1 D x Cx e).
Qed.

Lemma two_switch c n : two_inv c None n -> 0 < n < 2 ^ 32 - 1 -> n mod 100 = 0 ->
  exists c', IncreaseConstants c n = Ok c' /\ two_inv c' (Some n) n /\ t_kl c' = 100.
Proof.
  intros [HS _ HC HF] Hn H100. unfold IncreaseConstants. rewrite Z.quot_div_nonneg by lia.
  destruct (transition_roundtrip (n / 10) n ltac:(Z.div_mod_to_equations; lia) ltac:(lia)) as (st & -> & E1 & E2).
  cbn [bind]. eexists. split; [reflexivity|]. split; [|reflexivity]. split; cbn [t_state t_capacity t_forms]; [easy|lia|exact HC|].
  intros p Hp G. assert (G' : on_grid None p /\ position (Some n) p = position None p).
  { cbn [on_grid position] in *. destruct (Z.ltb_spec p n); [easy|]. replace p with n by lia. split; [Z.div_mod_to_equations; lia|].
    rewrite Z.sub_diag. change (0 / 100) with 0. lia. }
  destruct G' as [G' ->]. now apply HF.
Qed.

Lemma two_step c sw n current_kl data : two_inv c sw n -> 0 <= n < 2 ^ 63 - 1 -> carries (2 ^ (n + 1)) data ->
  (current_kl = 10 \/ (current_kl = 100 /\ sw <> None)) ->
  (on_grid sw (n + 1) -> position sw (n + 1) < t_capacity c) ->
  exists c', Two_OnIteration c current_kl data n = Ok c' /\ two_inv c' sw (n + 1) /\ t_kl c' = t_kl c /\ t_state c' = t_state c.
Proof.
  intros [HS HP HC HF] Hn Hc Hkl Hcap. unfold Two_OnIteration. rewrite u64_id by lia.
  destruct (position_ok _ _ (n + 1) HS ltac:(lia)) as (Ep & Ek). rewrite Ep, Ek. clear Ep Ek.
  assert (Hskip : ~ on_grid sw (n + 1) -> two_inv c sw (n + 1)).
  { intros Hg. split; try easy; [destruct sw; [lia|easy]|]. intros p Hp G. apply HF; [|easy]. assert (p <> n + 1); [|lia]. now intros ->. }
  assert (Hgrid : on_grid sw (n + 1) <-> (n + 1) mod current_kl = 0 /\ (n + 1) mod (match sw with Some s => if n + 1 <? s then 10 else 100 | None => 10 end) = 0).
  { clear - Hkl HP. destruct sw as [s|]; cbn [on_grid].
    - destruct (Z.ltb_spec (n + 1) s); [lia|]. destruct Hkl as [->|[-> _]]; Z.div_mod_to_equations; lia.
    - destruct Hkl as [->|[_ Hk]]; [tauto|easy]. }
  assert (Hk0 : 0 < current_kl) by lia. rewrite (Z.rem_mod_nonneg _ current_kl) by lia.
  destruct (Z.eqb_spec ((n + 1) mod current_kl) 0) as [E1|E1]; cbn [negb]; [|exists c; repeat (split; [easy|]); split; [apply Hskip; tauto|easy]].
  rewrite Z.rem_mod_nonneg by (destruct sw as [s|]; [destruct (_ <? _)|]; lia).
  destruct (Z.eqb_spec ((n + 1) mod (match sw with Some s => if n + 1 <? s then 10 else 100 | None => 10 end)) 0) as [E2|E2]; cbn [negb];
    [|exists c; repeat (split; [easy|]); split; [apply Hskip; tauto|easy]].
  assert (G : on_grid sw (n + 1)) by tauto. specialize (Hcap G). destruct (Z.leb_spec (t_capacity c) (position sw (n + 1))); [lia|].
  destruct (SetForm_at_ok _ data (t_forms c) (position sw (n + 1)) Hc) as (a' & -> & Pa & Ha). cbn [bind]. eexists. split; [reflexivity|].
  split; [|easy]. split; cbn [t_state t_capacity t_forms]; [easy|destruct sw; [lia|easy]|easy|].
  intros p Hp Gp. destruct (Z.eq_dec p (n + 1)) as [->|Hne]; [easy|]. destruct (HF p ltac:(lia) Gp) as [H1 H2]. split; [easy|].
  rewrite Ha; [easy|]. intros E. apply Hne. apply (grid_inj sw); try easy; try lia. destruct sw as [s|]; [apply HS|easy].
Qed.

(** A position beyond the capacity is refused. *)
Lemma two_full c sw n current_kl data c' : two_inv c sw n -> 0 <= n < 2 ^ 63 - 1 ->
  (current_kl = 10 \/ (current_kl = 100 /\ sw <> None)) -> on_grid sw (n + 1) -> t_capacity c <= position sw (n + 1) ->
  Two_OnIteration c current_kl data n = Ok c' -> False.
Proof.
  intros [HS HP HC HF] Hn Hkl G Hp. unfold Two_OnIteration. rewrite u64_id by lia.
  destruct (position_ok _ _ (n + 1) HS ltac:(lia)) as (-> & ->).
  assert (E : Z.rem (n + 1) current_kl = 0 /\ Z.rem (n + 1) (match sw with Some s => if n + 1 <? s then 10 else 100 | None => 10 end) = 0).
  { destruct sw as [s|]; cbn [on_grid] in G.
    - destruct (Z.ltb_spec (n + 1) s); [lia|]. destruct Hkl as [->|[-> _]]; rewrite !Z.rem_mod_nonneg by lia; Z.div_mod_to_equations; lia.
    - destruct Hkl as [->|[_ Hk]]; [|easy]. rewrite Z.rem_mod_nonneg by lia. easy. }
  destruct E as [-> ->]. cbn [Z.eqb negb]. destruct (Z.leb_spec (t_capacity c) (position sw (n + 1))); [easy|lia].
Qed.

Lemma two_refused c sw n current_kl data ex : switched (t_state c) sw -> match sw with Some s => s <= n | None => True end ->
  0 <= n < 2 ^ 63 - 1 -> carries (2 ^ (n + 1)) data -> Two_OnIteration c current_kl data n = Throw ex -> ex = runtime_error.
Proof.
  intros HS HP Hn Hc. unfold Two_OnIteration. rewrite u64_id by lia. destruct (position_ok _ _ (n + 1) HS ltac:(lia)) as (-> & ->).
  destruct (negb _); [easy|]. destruct (negb _); [easy|]. destruct (_ <=? _); [now intros [= <-]|].
  destruct (SetForm_at_ok _ data (t_forms c) (position sw (n + 1)) Hc) as (a' & -> & _). easy.
Qed.

(** The form copied for a power of the grid. *)
Lemma two_copy c sw n p : two_inv c sw n -> 0 <= p <= n -> p < 2 ^ 63 -> on_grid sw p ->
  exists g, GetFormCopy c p = Ok g /\ pw (2 ^ p) g.
Proof.
  intros [HS HP HC HF] Hp H63 G. unfold GetFormCopy, GetPosition2. destruct (position_ok _ _ p HS ltac:(lia)) as (-> & _).
  destruct (HF p Hp G) as [H1 H2]. destruct (Z.leb_spec (t_capacity c) (position sw p)); [lia|]. eauto.
Qed.
End Stored.

(** *** FastAlgorithmCallback: the layout *)

Definition P2 (b : Z) : Z := 2 ^ (16 + 2 * b).
Definition kl_of (b : Z) : Z := if b =? 0 then 10 else 12 * 2 ^ (2 * b - 2).
Definition size_of (b : Z) : Z := if b =? 0 then bucket_size1 else bucket_size2.
Definition begin_of (b : Z) : Z := if b =? 0 then 0 else 131080 + (b - 1) * 436920.
Definition slot (b e : Z) : Z := begin_of b + (e / P2 b) mod 20 * size_of b + (e mod P2 b) / kl_of b.
Definition begins (segments : Z) : list Z := map (fun i => begin_of (Z.of_nat i)) (seq 0 (Z.to_nat segments)).
Definition forms_total (segments : Z) : Z := 20 * (bucket_size1 + bucket_size2 * (segments - 1)).

Section Layout.
Variable segments : Z.
Hypothesis Hseg : 1 <= segments <= 15.

Lemma P2_pos b : 0 <= b -> 0 < P2 b.
Proof. intros. apply Z.pow_pos_nonneg; lia. Qed.

Lemma kl_of_pos b : 0 <= b -> 0 < kl_of b.
Proof.
  intros. unfold kl_of. destruct (Z.eqb_spec b 0); [lia|]. pose proof (Z.pow_pos_nonneg 2 (2 * b - 2) ltac:(lia) ltac:(lia)). lia.
Qed.

(** Every index of a segment fits its part of the window. *)
Lemma index_fits b r : 0 <= b -> 0 <= r < P2 b -> 0 <= r / kl_of b < size_of b.
Proof.
  intros Hb Hr. pose proof (kl_of_pos b Hb). split; [apply Z.div_pos; lia|]. apply Z.div_lt_upper_bound; [lia|].
  unfold P2, kl_of, size_of, bucket_size1, bucket_size2 in *. destruct (Z.eqb_spec b 0) as [->|Hne]; [change (2 ^ (16 + 2 * 0)) with 65536 in Hr; lia|].
  replace (16 + 2 * b) with (18 + (2 * b - 2)) in Hr by lia. rewrite Z.pow_add_r in Hr by lia. change (2 ^ 18) with 262144 in Hr. lia.
Qed.

Lemma size_pos b : 6554 <= size_of b <= 21846.
Proof. unfold size_of, bucket_size1, bucket_size2. destruct (b =? 0); lia. Qed.

Lemma slot_range b e : 0 <= b < segments -> 0 <= e ->
  begin_of b <= slot b e < begin_of b + 20 * size_of b /\ begin_of b + 20 * size_of b <= forms_total segments.
Proof.
  intros Hb He. pose proof (P2_pos b ltac:(lia)) as HP. pose proof (index_fits b (e mod P2 b) ltac:(lia) (Z.mod_pos_bound e _ HP)) as Hi.
  pose proof (Z.mod_pos_bound (e / P2 b) 20 ltac:(lia)) as Hm. pose proof (size_pos b). unfold slot. split; [nia|].
  unfold begin_of, size_of, forms_total, bucket_size1, bucket_size2. destruct (Z.eqb_spec b 0); lia.
Qed.

(** The parts of different buckets do not overlap. *)
Lemma buckets_disjoint b b' : 0 <= b -> b < b' -> begin_of b + 20 * size_of b <= begin_of b'.
Proof.
  intros H0 H. unfold begin_of, size_of, bucket_size1, bucket_size2. destruct (Z.eqb_spec b 0), (Z.eqb_spec b' 0); lia.
Qed.

Lemma slot_disjoint b b' e e' : 0 <= b < segments -> 0 <= b' < segments -> b <> b' -> 0 <= e -> 0 <= e' -> slot b e <> slot b' e'.
Proof.
  intros Hb Hb' Hne He He'. pose proof (slot_range b e Hb He). pose proof (slot_range b' e' Hb' He').
  destruct (Z.lt_ge_cases b b'); [pose proof (buckets_disjoint b b' ltac:(lia) ltac:(lia))|pose proof (buckets_disjoint b' b ltac:(lia) ltac:(lia))]; lia.
Qed.

Definition grid (b e : Z) : Prop := (e mod P2 b) mod kl_of b = 0.

(** Inside the window, a slot determines the exponent. *)
Lemma slot_inj b e e' : 0 <= b -> 0 <= e -> 0 <= e' -> grid b e -> grid b e' ->
  -20 < e / P2 b - e' / P2 b < 20 -> slot b e = slot b e' -> e = e'.
Proof.
  intros Hb He He' G G' Hw E. pose proof (P2_pos b Hb) as HP. pose proof (kl_of_pos b Hb) as HK. unfold slot in E.
  pose proof (index_fits b _ Hb (Z.mod_pos_bound e _ HP)) as H1. pose proof (index_fits b _ Hb (Z.mod_pos_bound e' _ HP)) as H2.
  set (q := e / P2 b) in *. set (q' := e' / P2 b) in *. set (r := e mod P2 b) in *. set (r' := e' mod P2 b) in *.
  assert (Eq : q mod 20 = q' mod 20 /\ r / kl_of b = r' / kl_of b).
  { apply (Z.div_mod_unique (size_of b)); [left; exact H1|left; exact H2|lia]. }
  destruct Eq as [Eq Er]. assert (q = q') by (Z.div_mod_to_equations; lia).
  pose proof (Z.div_mod r (kl_of b) ltac:(lia)) as D1. pose proof (Z.div_mod r' (kl_of b) ltac:(lia)) as D2.
  unfold grid in G, G'. fold r in G. fold r' in G'. rewrite G in D1. rewrite G' in D2.
  pose proof (Z.div_mod e (P2 b) ltac:(lia)) as D3. pose proof (Z.div_mod e' (P2 b) ltac:(lia)) as D4. fold q r in D3. fold q' r' in D4.
  rewrite Er in D1. lia.
Qed.

Lemma power_2_ok b : 0 <= b < segments -> power_2 b = Ok (P2 b).
Proof. intros Hb. unfold power_2. destruct (Z.leb_spec (16 + 2 * b) 62); [easy|lia]. Qed.

Lemma kl_bound b : 0 <= b < segments -> kl_of b < 2 ^ 30.
Proof.
  intros Hb. unfold kl_of. destruct (b =? 0); [reflexivity|].
  pose proof (Z.pow_le_mono_r 2 (2 * b - 2) 26 ltac:(lia) ltac:(lia)). change (2 ^ 26) with 67108864 in *. lia.
Qed.

Lemma stride_ok b : 0 <= b < segments -> stride b = Ok (kl_of b).
Proof.
  intros Hb. unfold stride. rewrite power_2_ok by easy. cbn [bind].
  assert (E : (if b =? 0 then 10 else u64 (12 * Z.shiftr (P2 b) 18)) = kl_of b).
  { unfold kl_of. destruct (Z.eqb_spec b 0); [easy|]. unfold P2. rewrite Z.shiftr_div_pow2, <- Z.pow_sub_r by lia.
    replace (16 + 2 * b - 18) with (2 * b - 2) by lia.
    pose proof (kl_bound b Hb) as K. unfold kl_of in K. destruct (Z.eqb_spec b 0); [easy|]. apply u64_id.
    pose proof (Z.pow_pos_nonneg 2 (2 * b - 2) ltac:(lia) ltac:(lia)). lia. }
  rewrite E. pose proof (kl_bound b Hb). pose proof (kl_of_pos b ltac:(lia)).
  rewrite (swrap_id 32), u64_id by (unfold srange; lia). destruct (Z.eqb_spec (kl_of b) 0); [lia|easy].
Qed.

Lemma begins_nth b : 0 <= b < segments -> nth_error (begins segments) (Z.to_nat b) = Some (begin_of b).
Proof.
  intros Hb. unfold begins. rewrite nth_error_map. rewrite nth_error_nth' with (d := O) by (rewrite length_seq; lia).
  rewrite seq_nth by lia. cbn [option_map]. do 2 f_equal. lia.
Qed.

Lemma push_buckets_ok n : forall b, 1 <= b -> b + Z.of_nat n <= 14 ->
  push_buckets n (begin_of b) = Ok (map (fun i => begin_of (b + 1 + Z.of_nat i)) (seq 0 n)).
Proof.
  induction n as [|n IH]; intros b Hb Hn; cbn [push_buckets]; [easy|].
  assert (E : begin_of b + bucket_size2 * window_size = begin_of (b + 1)).
  { unfold begin_of, bucket_size2, window_size, kWindowSize. destruct (Z.eqb_spec b 0), (Z.eqb_spec (b + 1) 0); lia. }
  assert (Hr : 0 <= begin_of (b + 1) < 2 ^ 31) by (unfold begin_of; destruct (b + 1 =? 0); lia).
  rewrite E. unfold int_of. destruct (Z.leb_spec (- 2 ^ 31) (begin_of (b + 1))), (Z.ltb_spec (begin_of (b + 1)) (2 ^ 31)); try lia. cbn [andb bind].
  rewrite IH by lia. cbn [bind seq map]. f_equal. f_equal; [f_equal; lia|]. rewrite <- seq_shift, map_map. apply map_ext. intros i. f_equal. lia.
Qed.

Lemma begins_make : buckets_begin_make segments = Ok (begins segments).
Proof.
  unfold buckets_begin_make. destruct (Z.ltb_spec 1 segments).
  - change (bucket_size1 * window_size) with (begin_of 1). rewrite push_buckets_ok by lia. cbn [bind]. unfold begins.
    replace (Z.to_nat segments) with (S (S (Z.to_nat (segments - 2)))) by lia. cbn [seq map]. do 3 f_equal.
    rewrite <- !seq_shift, !map_map. apply map_ext. intros i. f_equal. lia.
  - replace segments with 1 by lia. reflexivity.
Qed.

Lemma GetPosition_ok c b e : f_buckets_begin c = begins segments -> f_capacity c = forms_total segments ->
  0 <= b < segments -> 0 <= e -> GetPosition c e b = Ok (slot b e) /\ GetForm c e b = Ok (slot b e).
Proof.
  intros Hb Hc Hs He. assert (E : GetPosition c e b = Ok (slot b e)).
  { unfold GetPosition. rewrite Hb, begins_nth by easy. rewrite power_2_ok, stride_ok by easy. cbn [bind].
    pose proof (P2_pos b ltac:(lia)) as HP. pose proof (kl_of_pos b ltac:(lia)) as HK. pose proof (Z.mod_pos_bound e _ HP) as Hm.
    rewrite (Z.quot_div_nonneg e) by lia. rewrite Z.rem_mod_nonneg by (unfold window_size, kWindowSize; try apply Z.div_pos; lia).
    rewrite (Z.rem_mod_nonneg e) by lia. rewrite Z.quot_div_nonneg by lia. change window_size with 20. fold (size_of b).
    pose proof (slot_range b e Hs He) as [Hr1 Hr2]. unfold slot in *. pose proof (index_fits b _ ltac:(lia) Hm) as Hi.
    pose proof (Z.mod_pos_bound (e / P2 b) 20 ltac:(lia)) as Hm2. pose proof (size_pos b).
    assert (0 <= begin_of b) by (unfold begin_of; destruct (Z.eqb_spec b 0); lia).
    assert (Ht : forms_total segments < 2 ^ 31) by (unfold forms_total, bucket_size1, bucket_size2; lia).
    assert (0 <= (e / P2 b) mod 20 * size_of b) by (apply Z.mul_nonneg_nonneg; lia).
    rewrite (swrap_id 32 (begin_of b + _)), (swrap_id 32) by (unfold srange; lia). easy. }
  split; [exact E|]. unfold GetForm. rewrite E. cbn [bind]. pose proof (slot_range b e Hs He) as [Hr1 Hr2].
  assert (0 <= begin_of b) by (unfold begin_of; destruct (Z.eqb_spec b 0); lia).
  assert (Ht : forms_total segments < 2 ^ 31) by (unfold forms_total, bucket_size1, bucket_size2; lia).
  rewrite u64_id by lia. rewrite Hc. destruct (Z.ltb_spec (slot b e) (forms_total segments)); [easy|lia].
Qed.
End Layout.

(** *** FastAlgorithmCallback: what is stored *)

Section FastStored.
Context `{RL : FormReducerLaws}.
Variable D : Z.
Variable x : form.
Hypothesis Cx : class D x.
Abbreviation pw := (pw D x).
Variable segments : Z.
Hypothesis Hseg : 1 <= segments <= 15.

(** The exponents of bucket [b] that the window still holds after [n] iterations. *)
Definition held (b e n : Z) : Prop := 0 <= e <= n /\ grid b e /\ n / P2 b - e / P2 b < 20.
Definition stored (forms : array) (b n : Z) : Prop := forall e, held b e n -> pw (2 ^ e) (forms (slot b e)).

Record fast_inv (c : FastAlgorithmCallback) (n : Z) : Prop := {
  fast_segments : f_segments c = segments;
  fast_begins : f_buckets_begin c = begins segments;
  fast_capacity : f_capacity c = forms_total segments;
  fast_forms : f_multi_proc c = false -> forall b, 0 <= b < segments -> stored (f_forms c) b n;
  fast_y_ret : f_multi_proc c = true -> pw (2 ^ (32768 * (n / 32768))) (f_y_ret c);
  fast_checkpoints : forall j, 0 <= j -> 65536 * j <= n -> pw (2 ^ (65536 * j)) (f_checkpoints c j);
}.

Lemma held_step b e n : 0 <= b -> 0 <= n -> held b e (n + 1) -> e <> n + 1 -> held b e n.
Proof.
  intros Hb Hn [He [G W]] Hne. split; [lia|]. split; [easy|]. pose proof (P2_pos b Hb).
  pose proof (Z.div_le_mono n (n + 1) (P2 b) ltac:(lia) ltac:(lia)). lia.
Qed.

(** Writing the form of iteration [m = n + 1] into its slot. *)
Lemma stored_write forms forms' b n : 0 <= b < segments -> 0 <= n -> stored forms b n -> grid b (n + 1) ->
  pw (2 ^ (n + 1)) (forms' (slot b (n + 1))) -> (forall j, j <> slot b (n + 1) -> forms' j = forms j) -> stored forms' b (n + 1).
Proof.
  intros Hb Hn HS G Pm Ho e He. destruct (Z.eq_dec e (n + 1)) as [->|Hne]; [exact Pm|].
  destruct (held_step b e n ltac:(lia) Hn He Hne) as (He1 & Ge & We). rewrite Ho; [now apply HS|]. intros E. apply Hne.
  destruct He as (_ & _ & W). pose proof (P2_pos b ltac:(lia)). pose proof (Z.div_le_mono e (n + 1) (P2 b) ltac:(lia) ltac:(lia)).
  apply (slot_inj b); try easy; lia.
Qed.

Lemma stored_other forms forms' b b' n k : 0 <= b < segments -> 0 <= b' < segments -> b' <> b -> 0 <= n -> 
  (forall j, j <> slot b n -> forms' j = forms j) -> stored forms b' k -> stored forms' b' k.
Proof.
  intros Hb Hb' Hne Hn Ho HS e He. destruct He as (He & G & W). rewrite Ho; [apply HS; easy|].
  apply (slot_disjoint segments Hseg); try easy; lia.
Qed.

Lemma stored_skip forms b n : 0 <= b -> 0 <= n -> stored forms b n -> ~ grid b (n + 1) -> stored forms b (n + 1).
Proof. intros Hb Hn HS G e He. apply HS. apply held_step; try easy. intros ->. apply G. apply He. Qed.

Lemma store_buckets_ok data n k : forall i c, 0 <= i -> i + Z.of_nat k = segments -> 0 <= n ->
  carries D x (2 ^ (n + 1)) data -> f_buckets_begin c = begins segments -> f_capacity c = forms_total segments ->
  (forall b, 0 <= b < i -> stored (f_forms c) b (n + 1)) -> (forall b, i <= b < segments -> stored (f_forms c) b n) ->
  exists forms, store_buckets k i c data (n + 1) = Ok (with_forms c forms) /\ forall b, 0 <= b < segments -> stored forms b (n + 1).
Proof.
  induction k as [|k IH]; intros i c Hi Hik Hn Hc Hb Hcap H1 H2; cbn [store_buckets].
  - exists (f_forms c). split; [now destruct c|]. intros b Hbs. apply H1. lia.
  - rewrite (power_2_ok segments Hseg), (stride_ok segments Hseg) by lia. cbn [bind].
    pose proof (P2_pos i Hi) as HP. pose proof (kl_of_pos i Hi) as HK. pose proof (Z.mod_pos_bound (n + 1) _ HP).
    rewrite (Z.rem_mod_nonneg (n + 1)) by lia. rewrite Z.rem_mod_nonneg by lia. fold (grid i (n + 1)).
    destruct (Z.eqb_spec ((n + 1) mod P2 i mod kl_of i) 0) as [G|G].
    + rewrite (proj2 (GetPosition_ok segments Hseg c i (n + 1) Hb Hcap ltac:(lia) ltac:(lia))). cbn [bind].
      destruct (SetForm_at_ok D x Cx _ data (f_forms c) (slot i (n + 1)) Hc) as (a' & -> & Pa & Ha). cbn [bind].
      destruct (IH (i + 1) (with_forms c a')) as (forms & -> & HF); try easy; try lia.
      * intros b Hbi. cbn [with_forms f_forms]. destruct (Z.eq_dec b i) as [->|Hne].
        -- apply (stored_write (f_forms c)); try easy; [lia|]. apply H2. lia.
        -- apply (stored_other (f_forms c) a' i b (n + 1)); try easy; try lia. apply H1. lia.
      * intros b Hbi. cbn [with_forms f_forms]. apply (stored_other (f_forms c) a' i b (n + 1)); try easy; try lia. apply H2. lia.
      * exists forms. split; [now destruct c|exact HF].
    + cbn [bind]. apply IH; try easy; try lia.
      * intros b Hbi. destruct (Z.eq_dec b i) as [->|Hne]; [|apply H1; lia]. apply stored_skip; try easy. apply H2. lia.
      * intros b Hbi. apply H2. lia.
Qed.

Lemma fold_set_at l f : forall a i, In i l -> fold_left (fun a b => set_at a b f) l a i = f.
Proof.
  assert (Keep : forall l a i, a i = f -> fold_left (fun a b => set_at a b f) l a i = f).
  { induction l0 as [|b l0 IH]; intros a i E; cbn [fold_left]; [easy|]. apply IH. unfold set_at. now destruct (i =? b). }
  induction l as [|b l IH]; intros a i []; cbn [fold_left]; [|now apply IH]. subst b. apply Keep. apply set_at_eq.
Qed.

Lemma fast_init garbage garbage' mp (e : form) : principal D e ->
  exists c, FastAlgorithmCallback_make garbage garbage' segments x mp = Ok c /\ fast_inv c 0 /\ f_multi_proc c = mp.
Proof.
  intros He. unfold FastAlgorithmCallback_make. destruct (Z.ltb_spec segments 1); [lia|].
  rewrite (begins_make segments Hseg). cbn [bind]. eexists. split; [reflexivity|]. split; [|reflexivity].
  assert (P1 : pw 1 x) by now apply (pw_1 D x Cx e).
  split; cbn [f_segments f_buckets_begin f_capacity f_forms f_checkpoints f_multi_proc f_y_ret]; try reflexivity.
  - intros _ b Hb e' (He' & G & W). replace e' with 0 by lia. change (2 ^ 0) with 1.
    assert (E : slot b 0 = begin_of b) by (unfold slot; rewrite Z.mod_0_l, !Z.div_0_l by (pose proof (P2_pos b); pose proof (kl_of_pos b); lia); change (0 mod 20) with 0; lia).
    rewrite E, fold_set_at; [exact P1|]. pose proof (begins_nth segments Hseg b Hb) as HN. now apply nth_error_In in HN.
  - intros _. change (2 ^ (32768 * (0 / 32768))) with 1. exact P1.
  - intros j Hj Hj2. replace j with 0 by lia. change (2 ^ (65536 * 0)) with 1. now rewrite set_at_eq.
Qed.

Lemma fast_step c n data : 0 <= n < 2 ^ 34 - 1 -> fast_inv c n -> carries D x (2 ^ (n + 1)) data ->
  exists c', Fast_OnIteration c data n = Ok c' /\ fast_inv c' (n + 1) /\ f_multi_proc c' = f_multi_proc c.
Proof.
  intros Hn [HS HB HC HF HY HP] Hc. unfold Fast_OnIteration. rewrite u64_id by lia.
  set (b1 := if f_multi_proc c then _ else _).
  assert (H1 : exists c1, b1 = Ok c1 /\ f_segments c1 = segments /\ f_buckets_begin c1 = begins segments /\ f_capacity c1 = forms_total segments /\
    f_multi_proc c1 = f_multi_proc c /\ f_checkpoints c1 = f_checkpoints c /\
    (f_multi_proc c = false -> forall b, 0 <= b < segments -> stored (f_forms c1) b (n + 1)) /\
    (f_multi_proc c = true -> pw (2 ^ (32768 * ((n + 1) / 32768))) (f_y_ret c1))).
  { subst b1. destruct (f_multi_proc c) eqn:Em.
    - change (2 ^ 15) with 32768. rewrite Z.rem_mod_nonneg by lia. destruct (Z.eqb_spec ((n + 1) mod 32768) 0) as [E|E].
      + destruct (SetForm_ok D x Cx _ data (f_y_ret c) Hc) as (y & -> & Py). cbn [bind]. eexists. split; [reflexivity|].
        cbn [f_segments f_buckets_begin f_capacity f_forms f_checkpoints f_multi_proc f_y_ret]. repeat (split; [easy|]). intros _.
        replace (32768 * ((n + 1) / 32768)) with (n + 1) by (Z.div_mod_to_equations; lia). exact Py.
      + exists c. repeat (split; [easy|]). intros _. replace ((n + 1) / 32768) with (n / 32768) by (Z.div_mod_to_equations; lia). now apply HY.
    - rewrite HS. destruct (store_buckets_ok data n (Z.to_nat segments) 0 c ltac:(lia) ltac:(lia) ltac:(lia) Hc HB HC) as (forms & -> & H1);
        [intros b Hb; lia|intros b Hb; now apply HF|]. eexists. split; [reflexivity|]. destruct c. cbn in *. repeat (split; [easy|]). easy. }
  destruct H1 as (c1 & -> & HS1 & HB1 & HC1 & HM1 & HP1 & HF1 & HY1). cbn [bind]. change (2 ^ 16) with 65536.
  rewrite Z.rem_mod_nonneg, Z.quot_div_nonneg by lia. destruct (Z.eqb_spec ((n + 1) mod 65536) 0) as [E|E].
  - destruct (Z.ltb_spec ((n + 1) / 65536) (2 ^ 18)); [|exfalso; Z.div_mod_to_equations; lia].
    destruct (SetForm_at_ok D x Cx _ data (f_checkpoints c1) ((n + 1) / 65536) Hc) as (a' & -> & Pa & Ha). cbn [bind].
    eexists. split; [reflexivity|]. split; [|exact HM1].
    split; cbn [f_segments f_buckets_begin f_capacity f_forms f_checkpoints f_multi_proc f_y_ret]; rewrite ?HM1; try easy.
    intros j Hj Hj2. destruct (Z.eq_dec j ((n + 1) / 65536)) as [->|Hne].
    + replace (65536 * ((n + 1) / 65536)) with (n + 1) by (Z.div_mod_to_equations; lia). exact Pa.
    + rewrite Ha, HP1 by easy. apply HP; [easy|]. Z.div_mod_to_equations; lia.
  - exists c1. split; [easy|]. split; [|exact HM1]. split; rewrite ?HM1, ?HP1; try easy.
    intros j Hj Hj2. apply HP; [easy|]. Z.div_mod_to_equations; lia.
Qed.

(** The index a prover reads holds the form. *)
Lemma fast_get c n b e : fast_inv c n -> f_multi_proc c = false -> 0 <= b < segments -> held b e n ->
  exists i, GetForm c e b = Ok i /\ pw (2 ^ e) (f_forms c i).
Proof.
  intros [HS HB HC HF HY HP] Em Hb He. exists (slot b e). split; [|now apply HF].
  apply (GetPosition_ok segments Hseg); try easy. apply He.
Qed.
End FastStored.

(** ** The theorems *)

(** [n] calls of [OnIteration], for the iterations 0, 1, ..., n - 1. *)
Fixpoint feed {C} (on : C -> payload -> Z -> res C) (data : Z -> payload) (n : nat) (c : C) : res C :=
  match n with
  | O => Ok c
  | S n' => c <- feed on data n' c ;; on c (data (Z.of_nat n')) (Z.of_nat n')
  end.

(** The loop hands the callback the form after iteration [i]. *)
Definition delivers (D : Z) (x : form) (data : Z -> payload) (n : nat) : Prop :=
  forall i, 0 <= i < Z.of_nat n -> carries D x (2 ^ (i + 1)) (data i).

(** The 1-Wesolowski callback records what its prover
    will read. For any stride that [ApproximateParameters] or the default gives
    and any number of calls, none of the calls fails (the "out of bounds" error
    is unreachable), afterwards [forms[i]] is in the class of [x^(2^(kl i))] for
    every [kl i] up to the number of calls (and to [wanted_iter]), and once
    [wanted_iter] is reached [result] is in the class of [x^(2^wanted_iter)],
    whatever follows. *)
Theorem one_callback_correct {R : FormReducer} {RL : FormReducerLaws R} D x e AP garbage T l k data n :
  class D x -> principal D e -> 1 <= T < 2 ^ 63 ->
  (if 2 ^ 16 <=? T then AP T else Ok (1, 10)) = Ok (l, k) -> 0 < k * l < 2 ^ 32 ->
  Z.of_nat n < 2 ^ 63 -> delivers D x data n ->
  exists c0 c, OneWesolowskiCallback_make AP garbage x T = Ok c0 /\ feed One_OnIteration data n c0 = Ok c /\
    o_kl c = k * l /\ o_capacity c = T / (k * l) + 100 /\
    (forall i, 0 <= i -> k * l * i <= Z.min (Z.of_nat n) T -> pw D x (2 ^ (k * l * i)) (o_forms c i)) /\
    (T <= Z.of_nat n -> pw D x (2 ^ T) (o_result c)).
Proof.
  intros Cx He HT EP Hkl Hn Hd. destruct (one_init D x Cx AP garbage T l k e He HT EP Hkl) as (c0 & E0 & HI0 & Ek0 & Ec0). exists c0.
  assert (HX : exists c, feed One_OnIteration data n c0 = Ok c /\ one_inv D x T c (Z.of_nat n) /\ o_kl c = k * l /\ o_capacity c = T / (k * l) + 100).
  { induction n as [|n IH]; cbn [feed].
    - exists c0. split; [reflexivity|]. split; [exact HI0|]. split; assumption.
    - destruct IH as (c & -> & HI & Ek & Ec); [lia|intros i Hi; apply Hd; lia|]. cbn [bind].
      destruct (one_step D x Cx T c (Z.of_nat n) (data (Z.of_nat n)) ltac:(lia) ltac:(lia) HI (Hd (Z.of_nat n) ltac:(lia)))
        as (c' & -> & HI' & Ek' & Ec'). exists c'. rewrite Nat2Z.inj_succ, <- Z.add_1_r. rewrite Ek', Ec'.
      split; [reflexivity|split; [exact HI'|split; assumption]]. }
  destruct HX as (c & -> & [_ _ _ HF HR] & Ek & Ec). exists c. rewrite Ek in HF.
  split; [exact E0|]. split; [reflexivity|]. split; [exact Ek|]. split; [exact Ec|]. split; [exact HF|exact HR].
Qed.

(** The runs of the 2-Wesolowski callback: iterations whose payloads carry the
    powers of [x], with any value of [kl] that a relaxed load can return, and
    the change of the constants, at a multiple of 100. *)
Inductive two_reach {R : FormReducer} (D : Z) (x : form) : TwoWesolowskiCallback -> option Z -> Z -> Prop :=
| reach_init garbage c : TwoWesolowskiCallback_make garbage x = Ok c -> two_reach D x c None 0
| reach_iter c sw n current_kl data c' : two_reach D x c sw n -> n < 2 ^ 32 -> carries D x (2 ^ (n + 1)) data ->
    (current_kl = 10 \/ current_kl = t_kl c) -> Two_OnIteration c current_kl data n = Ok c' -> two_reach D x c' sw (n + 1)
| reach_switch c n c' : two_reach D x c None n -> kSwitchIters <= n < 2 ^ 32 - 1 -> n mod 100 = 0 ->
    IncreaseConstants c n = Ok c' -> two_reach D x c' (Some n) n.

Lemma two_reach_inv {R : FormReducer} {RL : FormReducerLaws R} D x e c sw n : class D x -> principal D e ->
  two_reach D x c sw n -> two_inv D x c sw n /\ 0 <= n <= 2 ^ 32 /\ t_kl c = match sw with Some _ => 100 | None => 10 end.
Proof.
  intros Cx He. induction 1 as [garbage c E|c sw n ckl data c' Hr (HI & Hn & Hk) Hlt Hc Hkl E|c n c' Hr (HI & Hn & Hk) Hn2 Hm E].
  - destruct (two_init D x Cx garbage e He) as (c0 & E0 & HI & Hk). rewrite E in E0. injection E0 as <-. split; [easy|]. split; [lia|easy].
  - assert (Hkl' : ckl = 10 \/ (ckl = 100 /\ sw <> None)) by (destruct Hkl as [|]; [now left|]; destruct sw; [right; now split; [congruence|]|left; congruence]).
    destruct (Z.lt_ge_cases (position sw (n + 1)) (t_capacity c)) as [Hp|Hp].
    + destruct (two_step D x Cx c sw n ckl data HI ltac:(lia) Hc Hkl' (fun _ => Hp)) as (c2 & E2 & HI2 & Hk2 & _).
      rewrite E in E2. injection E2 as <-. split; [easy|]. split; [lia|congruence].
    + destruct (two_step D x Cx c sw n ckl data HI ltac:(lia) Hc Hkl') as (c2 & E2 & HI2 & Hk2 & _).
      * intros G. exfalso. now apply (two_full D x c sw n ckl data c' HI ltac:(lia) Hkl').
      * rewrite E in E2. injection E2 as <-. split; [easy|]. split; [lia|congruence].
  - unfold kSwitchIters in Hn2. destruct (two_switch D x c n HI ltac:(lia) Hm) as (c2 & E2 & HI2 & Hk2). rewrite E in E2. injection E2 as <-.
    split; [easy|]. split; [lia|easy].
Qed.

(** The stored powers are on the grid of the strides 10 and, after the switch, 100. *)
Definition room (sw : option Z) (n : Z) : Prop :=
  match sw with Some s => 9 * s + n < 1619000000 | None => n < 161900000 end.

Lemma room_iff sw n : match sw with Some s => 0 < s <= n /\ s mod 100 = 0 | None => True end -> 0 <= n ->
  room sw n <-> position sw n < 16190000.
Proof.
  destruct sw as [s|]; cbn [room position].
  - intros [Hs Hm] Hn. destruct (Z.ltb_spec n s); [lia|]. Z.div_mod_to_equations; lia.
  - intros _ Hn. Z.div_mod_to_equations; lia.
Qed.

(** C23: in every reachable state of the 2-Wesolowski callback,
    whatever stale values of the fast-path hint [kl] the iterations have read,
    every power on the grid (multiples of 10, from the switch on multiples of
    100) up to the last iteration can be copied, and the copy is in the class of
    [x] to that power: the change of constants loses and moves nothing.
    [LargeConstants] tells whether the switch has happened. The next iteration
    is stored, or skipped when it is off the grid, as long as [9 s + n + 1 <
    1619000000] for the switch at [s] ([n + 1 < 161900000] before it), and past
    that bound a grid iteration is refused with an exception, not written out of
    bounds. *)
Theorem two_callback_safe {R : FormReducer} {RL : FormReducerLaws R} D x e c sw n :
  class D x -> principal D e -> two_reach D x c sw n -> n < 2 ^ 32 ->
  (forall p, 0 <= p <= n -> on_grid sw p -> exists g, GetFormCopy c p = Ok g /\ pw D x (2 ^ p) g) /\
  LargeConstants c = (match sw with Some _ => true | None => false end) /\
  (forall current_kl data, carries D x (2 ^ (n + 1)) data -> current_kl = 10 \/ current_kl = t_kl c ->
     (room sw (n + 1) -> exists c', Two_OnIteration c current_kl data n = Ok c' /\ two_reach D x c' sw (n + 1)) /\
     (~ room sw (n + 1) -> on_grid sw (n + 1) -> Two_OnIteration c current_kl data n = Throw runtime_error)).
Proof.
  intros Cx He Hr Hn. destruct (two_reach_inv D x e c sw n Cx He Hr) as (HI & Hn0 & Hk). split; [|split].
  - intros p Hp G. apply (two_copy D x c sw n); try easy. lia.
  - unfold LargeConstants. destruct HI as [HS _ _ _]. destruct sw as [s|]; cbn [switched] in HS.
    + destruct HS as (-> & _ & Hs & _). destruct (Z.eqb_spec s (-1)); [lia|easy].
    + now rewrite HS.
  - intros ckl data Hc Hkl. assert (Hkl' : ckl = 10 \/ (ckl = 100 /\ sw <> None)).
    { rewrite Hk in Hkl. destruct sw; [destruct Hkl as [|]; [now left|now right]|left; tauto]. }
    pose proof HI as [HS HP HC HF]. pose proof (room_iff sw (n + 1)) as HR.
    assert (HR' : room sw (n + 1) <-> position sw (n + 1) < 16190000).
    { apply HR; [|lia]. destruct sw as [s|]; [|easy]. cbn [switched] in HS. lia. } clear HR. split.
    + intros Hroom. destruct (two_step D x Cx c sw n ckl data HI ltac:(lia) Hc Hkl') as (c' & E & _); [rewrite HC; tauto|].
      exists c'. split; [easy|]. now apply (reach_iter D x c sw n ckl data).
    + intros Hroom G. destruct (Two_OnIteration c ckl data n) as [c'|ex] eqn:E.
      * exfalso. apply (two_full D x c sw n ckl data c' HI ltac:(lia) Hkl' G); [|exact E].
        rewrite HC. assert (~ position sw (n + 1) < 16190000) by tauto. lia.
      * f_equal. apply (two_refused D x Cx c sw n ckl data ex HS HP ltac:(lia) Hc E).
Qed.

(** C24: the n-Wesolowski callback keeps, for every bucket
    and every number of iterations up to [2^34], the forms of the last 20
    segments: [GetForm] of each exponent on the bucket's grid (10, 12, 48, 192,
    ... apart) inside the window is an index into the array, no two of them
    share a slot, buckets do not overlap, and the slot holds the form in the
    class of [x] to that power. [checkpoints[j]] holds [x^(2^(65536 j))], and on
    a machine with many processors, where the intermediates are left to other
    threads, [y_ret] holds the last multiple of [2^15]. *)
Theorem fast_callback_correct {R : FormReducer} {RL : FormReducerLaws R} D x e segments garbage garbage' mp data n :
  class D x -> principal D e -> 1 <= segments <= 15 -> Z.of_nat n < 2 ^ 34 -> delivers D x data n ->
  exists c0 c, FastAlgorithmCallback_make garbage garbage' segments x mp = Ok c0 /\ feed Fast_OnIteration data n c0 = Ok c /\
    (mp = false -> forall b p, 0 <= b < segments -> held b p (Z.of_nat n) ->
       exists i, GetForm c p b = Ok i /\ 0 <= i < f_capacity c /\ pw D x (2 ^ p) (f_forms c i)) /\
    (mp = true -> pw D x (2 ^ (32768 * (Z.of_nat n / 32768))) (f_y_ret c)) /\
    (forall j, 0 <= j -> 65536 * j <= Z.of_nat n -> pw D x (2 ^ (65536 * j)) (f_checkpoints c j)).
Proof.
  intros Cx He Hs Hn Hd. destruct (fast_init D x Cx segments Hs garbage garbage' mp e He) as (c0 & E0 & HI0 & Em0).
  exists c0. assert (HX : exists c, feed Fast_OnIteration data n c0 = Ok c /\ fast_inv D x segments c (Z.of_nat n) /\ f_multi_proc c = mp).
  { induction n as [|n IH]; cbn [feed]; [now exists c0|].
    destruct IH as (c & -> & HI & Em); [lia|intros i Hi; apply Hd; lia|]. cbn [bind].
    destruct (fast_step D x Cx segments Hs c (Z.of_nat n) (data (Z.of_nat n)) ltac:(lia) HI (Hd (Z.of_nat n) ltac:(lia))) as (c' & -> & HI' & Em').
    exists c'. rewrite Nat2Z.inj_succ, <- Z.add_1_r, Em'.
    split; [reflexivity|split; assumption]. }
  destruct HX as (c & -> & HI & Em). exists c. split; [easy|]. split; [easy|]. pose proof HI as [HS HB HC HF HY HP]. rewrite Em in HF, HY.
  split; [|split; easy]. intros Emp b p Hb Hh. exists (slot b p). pose proof Hh as (Hp & _).
  destruct (slot_range segments Hs b p Hb ltac:(lia)) as [Hr1 Hr2].
  split; [apply (GetPosition_ok segments Hs); try easy; lia|]. split; [|now apply HF].
  rewrite HC. assert (0 <= begin_of b) by (unfold begin_of; destruct (Z.eqb_spec b 0); lia). lia.
Qed.

(** ** Witnesses *)

Lemma pw_47 n h : 0 <= n < 2 ^ 264 -> FastPowFormNucomp (G := Ref.gmp) (R := vdf_new_reducer) (mkform 2 1 6) (-47) n 2 = Ok h ->
  pw (-47) (mkform 2 1 6) n h.
Proof.
  intros Hn E. destruct (pw_fast_pow (GL := Ref.laws) (RL := vdf_new_reducer_laws) (-47) 2 ltac:(lia) (mkform 2 1 6) class_form_47
    n 1 (mkform 2 1 6) eq_refl (pw_1 (-47) _ class_form_47 _ principal_47) Hn) as (h' & E' & P).
  rewrite E in E'. injection E' as <-. now rewrite Z.mul_1_l in P.
Qed.

(** The square of [x]. *)
Definition x2_47 : form := mkform 3 (-1) 4.

Lemma delivers_47 : delivers (-47) (mkform 2 1 6) (fun _ => NL_FORM x2_47) 1.
Proof.
  intros i Hi. replace i with 0 by lia. exists x2_47. split; [now left|]. apply pw_47; [lia|]. vm_compute. reflexivity.
Qed.

Lemma one_callback_correct_witness :
  let D := -47 in let x := mkform 2 1 6 in let data := fun _ : Z => NL_FORM x2_47 in
  exists c0 c, OneWesolowskiCallback_make (fun _ => Throw overflow_error) (fun _ => x) x 1 = Ok c0 /\
    feed (One_OnIteration (R := vdf_new_reducer)) data 1 c0 = Ok c /\ o_kl c = 10 * 1 /\ o_capacity c = 1 / (10 * 1) + 100 /\
    (forall i, 0 <= i -> 10 * 1 * i <= Z.min (Z.of_nat 1) 1 -> pw D x (2 ^ (10 * 1 * i)) (o_forms c i)) /\
    (1 <= Z.of_nat 1 -> pw D x (2 ^ 1) (o_result c)).
Proof.
  intros D x data. exact (one_callback_correct (RL := vdf_new_reducer_laws) D x (mkform 1 1 12) (fun _ => Throw overflow_error) (fun _ => x) 1 1 10 data 1
    class_form_47 principal_47 ltac:(lia) eq_refl ltac:(lia) ltac:(lia) delivers_47).
Defined.

Definition two_47 : TwoWesolowskiCallback := mkTwo (set_at (fun _ => form_zero) 0 (mkform 2 1 6)) 16190000 0 10.

Lemma two_47_reach : two_reach (R := vdf_new_reducer) (-47) (mkform 2 1 6) two_47 None 0.
Proof. apply (reach_init _ _ (fun _ => form_zero)). reflexivity. Qed.

Lemma two_callback_safe_witness :
  let D := -47 in let x := mkform 2 1 6 in
  (forall p, 0 <= p <= 0 -> on_grid None p -> exists g, GetFormCopy two_47 p = Ok g /\ pw D x (2 ^ p) g) /\
  LargeConstants two_47 = false /\
  (forall current_kl data, carries D x (2 ^ (0 + 1)) data -> current_kl = 10 \/ current_kl = t_kl two_47 ->
     (room None (0 + 1) -> exists c', Two_OnIteration (R := vdf_new_reducer) two_47 current_kl data 0 = Ok c' /\
        two_reach (R := vdf_new_reducer) D x c' None (0 + 1)) /\
     (~ room None (0 + 1) -> on_grid None (0 + 1) -> Two_OnIteration (R := vdf_new_reducer) two_47 current_kl data 0 = Throw runtime_error)).
Proof.
  intros D x. exact (two_callback_safe (RL := vdf_new_reducer_laws) D x (mkform 1 1 12) two_47 None 0 class_form_47 principal_47 two_47_reach ltac:(lia)).
Defined.

Lemma fast_callback_correct_witness :
  let D := -47 in let x := mkform 2 1 6 in let data := fun _ : Z => NL_FORM x2_47 in
  exists c0 c, FastAlgorithmCallback_make (fun _ => x) (fun _ => x) 2 x false = Ok c0 /\
    feed (Fast_OnIteration (R := vdf_new_reducer)) data 1 c0 = Ok c /\
    (false = false -> forall b p, 0 <= b < 2 -> held b p (Z.of_nat 1) ->
       exists i, GetForm c p b = Ok i /\ 0 <= i < f_capacity c /\ pw D x (2 ^ p) (f_forms c i)) /\
    (false = true -> pw D x (2 ^ (32768 * (Z.of_nat 1 / 32768))) (f_y_ret c)) /\
    (forall j, 0 <= j -> 65536 * j <= Z.of_nat 1 -> pw D x (2 ^ (65536 * j)) (f_checkpoints c j)).
Proof.
  intros D x data. exact (fast_callback_correct (RL := vdf_new_reducer_laws) D x (mkform 1 1 12) 2 (fun _ => x) (fun _ => x) false data 1
    class_form_47 principal_47 ltac:(lia) ltac:(lia) delivers_47).
Defined.
