(* ===== verification/Provers.v ===== *)
(** [src/src/provers.h]: the three provers of the application. Each is a
    [Prover] that reads the intermediates one of the callbacks stored; the
    interruptible one is also a thread that the event loop pauses, resumes and
    stops. *)
From S2P Require Import Prelude Words NumTheory Gmp QuadForm FormClass Integer Forms Nucomp Bqfc PrimeTest HashPrime ProofCommon Powers Verifier Steps Segments Prover Callback.

Section WithReducer.
Context `{R : FormReducer}.

(** ** Constructors and GetForm *)

(** [ApproximateParameters] gives [(l, k)]. *)
Definition OneWesolowskiProver (ApproximateParameters : Z -> res (Z * Z)) (segm : Segment) (D : Z) : res prover :=
  ' (l, k) <- (if 2 ^ 16 <=? length_ segm then ApproximateParameters (length_ segm) else Ok (1, 10)) ;;
  Ok (Prover_make segm D k l).

(** [intermediates[iteration]]: a pointer into an array of [capacity] forms. *)
Definition One_GetForm (intermediates : array) (capacity iteration : Z) : res form :=
  if iteration <? capacity then Ok (intermediates iteration) else Throw undefined_behaviour.

Definition TwoWesolowskiProver (segm : Segment) (D : Z) : prover :=
  Prover_make segm D 10 (if length_ segm <? 10000000 then 1 else 10).

Definition Two_GetForm (copy : Z -> res form) (p : prover) (i : Z) : res form :=
  copy (u64 (start (segm p) + u64 (u64 (i * pk p) * pl p))).

Definition InterruptableProver (segm : Segment) (D : Z) : res (prover * Z) :=
  bucket <- GetSegmentBucket segm ;;
  let k := if length_ segm <=? 2 ^ 16 then 10 else 12 in
  let l := if length_ segm <=? 2 ^ 18 then 1 else u32 (Z.shiftr (length_ segm) 18) in
  Ok (Prover_make segm D k l, bucket).

(** Each read sees the callback as it is at that time. *)
Definition Interruptable_GetForm (weso : Z -> FastAlgorithmCallback) (p : prover) (bucket i : Z) : res form :=
  let c := weso i in
  pos <- GetForm c (u64 (start (segm p) + u64 (u64 (i * pk p) * pl p))) bucket ;;
  Ok (f_forms c pos).

(** ** The interruptible prover's thread *)

(** The statements of [OnFinish]. *)
Inductive finish_pc : Type :=
| F_finished                    (* is_finished = true *)
| F_test                        (* if (!is_fully_finished) *)
| F_new_event                   (* new_event = true, under new_event_mutex *)
| F_notify                      (* new_event_cv.notify_one() *)
| F_fully_finished.             (* is_fully_finished = true *)

(** Where the worker is: before the next [PerformExtraStep] (with the number of
    calls it has still to make before [OnFinish]), waiting on the condition
    variable inside it, before a statement of [OnFinish], or returned, with or
    without having called [OnFinish]. *)
Inductive worker : Type :=
| Computing (left : nat)
| Waiting (left : nat)
| Finishing (pc : finish_pc)
| Returned (finished_proof : bool).

(** Where the thread that owns the prover is: outside, after the first and the
    second assignment of [stop] (both under [m]), in [join], or past it. *)
Inductive owner : Type :=
| Idle
| Stopping_1
| Stopping_2
| Joining
| Joined.

Record thread : Type := mkthread {
  w : worker;
  t_owner : owner;
  t_paused : bool;              (* is_paused *)
  t_finished : bool;            (* is_finished *)
  t_fully_finished : bool;      (* is_fully_finished *)
  t_new_event : bool;           (* new_event, as OnFinish sets it *)
  t_notified : bool;            (* OnFinish has called notify_one *)
}.

Definition thread_start (left : nat) : thread := mkthread (Computing left) Idle false false false false false.

Definition set_w (v : worker) (t : thread) : thread :=
  mkthread v (t_owner t) (t_paused t) (t_finished t) (t_fully_finished t) (t_new_event t) (t_notified t).

Definition pause (t : thread) : thread :=
  mkthread (w t) (t_owner t) true (t_finished t) (t_fully_finished t) (t_new_event t) (t_notified t).
Definition resume (t : thread) : thread :=
  mkthread (w t) (t_owner t) false (t_finished t) (t_fully_finished t) (t_new_event t) (t_notified t).
Definition IsRunning (t : thread) : bool := negb (t_paused t).
Definition IsFullyFinished (t : thread) : bool := t_fully_finished t.

(** The next statement of [stop]; the last one of them gives [m] back. *)
Definition stop (t : thread) : thread :=
  match t_owner t with
  | Idle => mkthread (w t) Stopping_1 (t_paused t) true (t_fully_finished t) (t_new_event t) (t_notified t)
  | Stopping_1 => mkthread (w t) Stopping_2 (t_paused t) (t_finished t) true (t_new_event t) (t_notified t)
  | Stopping_2 => mkthread (w t) Joining false (t_finished t) (t_fully_finished t) (t_new_event t) (t_notified t)
  | Joining | Joined => t
  end.

(** A statement of [OnFinish]. *)
Definition OnFinish (pc : finish_pc) (t : thread) : thread :=
  match pc with
  | F_finished => mkthread (Finishing F_test) (t_owner t) (t_paused t) true (t_fully_finished t) (t_new_event t) (t_notified t)
  | F_test => if t_fully_finished t then set_w (Returned true) t else set_w (Finishing F_new_event) t
  | F_new_event => mkthread (Finishing F_notify) (t_owner t) (t_paused t) (t_finished t) (t_fully_finished t) true (t_notified t)
  | F_notify => mkthread (Finishing F_fully_finished) (t_owner t) (t_paused t) (t_finished t) (t_fully_finished t) (t_new_event t) true
  | F_fully_finished => mkthread (Returned true) (t_owner t) (t_paused t) (t_finished t) true (t_new_event t) (t_notified t)
  end.

(** [stop] holds [m]. *)
Definition holds_m (t : thread) : bool := match t_owner t with Stopping_1 | Stopping_2 => true | _ => false end.

(** A step of the worker: [PerformExtraStep] returns false when [is_finished] is
    set on entry; otherwise it takes [m] and waits until [is_paused] is clear. *)
Inductive worker_step : thread -> thread -> Prop :=
| step_leave n t : w t = Computing (S n) -> t_finished t = true -> worker_step t (set_w (Returned false) t)
| step_enter n t : w t = Computing (S n) -> t_finished t = false -> worker_step t (set_w (Waiting (S n)) t)
| step_pass n t : w t = Waiting (S n) -> t_paused t = false -> holds_m t = false -> worker_step t (set_w (Computing n) t)
| step_finish t : w t = Computing O -> worker_step t (OnFinish F_finished t)
| step_on_finish pc t : w t = Finishing pc -> worker_step t (OnFinish pc t).

(** A step of the owner. The event loop destroys a prover that is fully
    finished, which joins the worker without a [stop]; [join] returns when the
    worker has. *)
Inductive owner_step : thread -> thread -> Prop :=
| by_pause t : t_owner t = Idle -> owner_step t (pause t)
| by_resume t : t_owner t = Idle -> owner_step t (resume t)
| by_stop t : t_owner t = Idle \/ t_owner t = Stopping_1 \/ t_owner t = Stopping_2 -> owner_step t (stop t)
| by_destroy t : t_owner t = Idle -> t_fully_finished t = true ->
    owner_step t (mkthread (w t) Joining (t_paused t) (t_finished t) (t_fully_finished t) (t_new_event t) (t_notified t))
| by_join r t : t_owner t = Joining -> w t = Returned r ->
    owner_step t (mkthread (w t) Joined (t_paused t) (t_finished t) (t_fully_finished t) (t_new_event t) (t_notified t)).

Inductive thread_step : thread -> thread -> Prop :=
| by_worker t t' : worker_step t t' -> thread_step t t'
| by_owner t t' : owner_step t t' -> thread_step t t'.

End WithReducer.

(** ** The intermediates are the ones the algorithm needs *)

Section Tasks.
Context `{RL : FormReducerLaws}.
Variable D : Z.
Hypothesis HD : good_disc D.
Variable x0 : form.
Hypothesis Cx0 : class D x0.

(** The form at the beginning of a segment. *)
Lemma start_class s xs : pw D x0 (2 ^ s) xs -> class D xs.
Proof. apply pw_class. exact Cx0. Qed.

Lemma stored_power s m xs g : 0 <= s -> 0 <= m -> pw D x0 (2 ^ s) xs -> pw D x0 (2 ^ (s + m)) g -> pw D xs (2 ^ m) g.
Proof.
  intros Hs Hm Ps Pg. apply (pw_rebase D x0 (2 ^ s) xs); try easy; [|apply Z.pow_nonneg; lia].
  now rewrite <- Z.pow_add_r by lia.
Qed.

Lemma one_task sg T l k intermediates capacity : length_ sg = T -> 1 <= T < 2 ^ 63 -> class D (seg_x sg) -> class D (seg_y sg) ->
  1 <= k <= 30 -> 1 <= l -> k * l < 2 ^ 31 -> T / (k * l) + 1 < capacity ->
  (forall i, 0 <= i -> k * l * i <= T -> pw D (seg_x sg) (2 ^ (k * l * i)) (intermediates i)) ->
  proof_task D (seg_x sg) (seg_y sg) T k l (One_GetForm intermediates capacity).
Proof.
  intros EL HT Cx Cy Hk Hl Hkl Hcap HF. split; try easy; [lia|]. intros i Hi Hlt. exists (intermediates i). unfold One_GetForm.
  assert (Hc : i < capacity).
  { assert (i <= T / (k * l)) by (apply Z.div_le_lower_bound; nia). lia. }
  destruct (Z.ltb_spec i capacity); [|lia]. split; [easy|]. apply HF; lia.
Qed.

(** The reads of [TwoWesolowskiProver] fall on the grid of the checkpoints. *)
Definition serves (copy : Z -> res form) (sw : option Z) (n : Z) : Prop :=
  forall p, 0 <= p <= n -> on_grid sw p -> exists g, copy p = Ok g /\ pw D x0 (2 ^ p) g.

Lemma two_task copy sw n sg : serves copy sw n -> is_empty sg = false ->
  0 <= start sg -> start sg mod 100 = 0 -> 0 <= length_ sg -> start sg + length_ sg <= n -> n < 2 ^ 40 ->
  (10000000 <= length_ sg \/ match sw with Some s => start sg + length_ sg <= s | None => True end) ->
  match sw with Some s => s mod 100 = 0 | None => True end ->
  pw D x0 (2 ^ start sg) (seg_x sg) -> class D (seg_y sg) ->
  let p := TwoWesolowskiProver sg D in
  proof_task D (seg_x sg) (seg_y sg) (length_ sg) (pk p) (pl p) (Two_GetForm copy p).
Proof.
  intros HS _ Hst Hm Hl Hn H40 Hgrid Hsw Px Cy p. subst p. unfold TwoWesolowskiProver, Prover_make. cbn [pk pl].
  set (l := if length_ sg <? 10000000 then 1 else 10).
  assert (Hl1 : l = 1 /\ length_ sg < 10000000 \/ l = 10 /\ 10000000 <= length_ sg) by (subst l; destruct (Z.ltb_spec (length_ sg) 10000000); lia).
  split; try easy; try lia; [now apply (start_class (start sg))|].
  intros i Hi Hlt. unfold Two_GetForm. cbn [segm pk pl]. set (p := start sg + 10 * l * i).
  assert (Ep : u64 (start sg + u64 (u64 (i * 10) * l)) = p).
  { subst p. rewrite (u64_id (i * 10)), (u64_id (i * 10 * l)), u64_id by lia. ring. } rewrite Ep.
  destruct (HS p) as (g & Eg & Pg); [subst p; lia| |exists g; split; [exact Eg|]].
  - subst p. destruct sw as [s|]; cbn [on_grid].
    + destruct (Z.ltb_spec (start sg + 10 * l * i) s), Hl1 as [[El Hlen]|[El Hlen]]; rewrite El in *; clear El Ep; Z.div_mod_to_equations; lia.
    + Z.div_mod_to_equations; lia.
  - apply (stored_power (start sg)); try easy; lia.
Qed.

(** *** InterruptableProver *)

Lemma interruptable_kl b : 0 <= b <= 14 ->
  (if P2 b <=? 2 ^ 16 then 10 else 12) * (if P2 b <=? 2 ^ 18 then 1 else u32 (Z.shiftr (P2 b) 18)) = kl_of b /\
  1 <= (if P2 b <=? 2 ^ 16 then 10 else 12) <= 30 /\ 1 <= (if P2 b <=? 2 ^ 18 then 1 else u32 (Z.shiftr (P2 b) 18)) < 2 ^ 31.
Proof.
  intros Hb. unfold P2, kl_of. destruct (Z.eqb_spec b 0) as [->|H0]; [vm_compute; repeat split; congruence|].
  assert (H16 : 2 ^ 16 < 2 ^ (16 + 2 * b)) by (apply Z.pow_lt_mono_r; lia).
  destruct (Z.leb_spec (2 ^ (16 + 2 * b)) (2 ^ 16)); [lia|].
  destruct (Z.eq_dec b 1) as [->|H1]; [vm_compute; repeat split; congruence|].
  assert (H18 : 2 ^ 18 < 2 ^ (16 + 2 * b)) by (apply Z.pow_lt_mono_r; lia).
  destruct (Z.leb_spec (2 ^ (16 + 2 * b)) (2 ^ 18)); [lia|].
  rewrite Z.shiftr_div_pow2, <- Z.pow_sub_r by lia. replace (16 + 2 * b - 18) with (2 * b - 2) by lia.
  pose proof (Z.pow_pos_nonneg 2 (2 * b - 2) ltac:(lia) ltac:(lia)). pose proof (Z.pow_le_mono_r 2 (2 * b - 2) 26 ltac:(lia) ltac:(lia)).
  change (2 ^ 26) with 67108864 in *. rewrite (uwrap_id 32) by (unfold urange; lia). lia.
Qed.

Lemma interruptable_task segments weso n b sg : 1 <= segments <= 15 -> 0 <= b < segments ->
  length_ sg = P2 b -> 0 <= start sg -> start sg mod P2 b = 0 -> start sg + P2 b < 2 ^ 62 ->
  (forall i, fast_inv D x0 segments (weso i) (n i) /\ f_multi_proc (weso i) = false /\
     start sg + P2 b <= n i /\ n i / P2 b - start sg / P2 b < 20) ->
  pw D x0 (2 ^ start sg) (seg_x sg) -> class D (seg_y sg) ->
  exists p, InterruptableProver sg D = Ok (p, b) /\ segm p = sg /\ num_iterations p = P2 b /\ pD p = D /\
    proof_task D (seg_x sg) (seg_y sg) (P2 b) (pk p) (pl p) (Interruptable_GetForm weso p b).
Proof.
  intros Hs Hb EL H0 Hm H62 HW Px Cy. unfold InterruptableProver.
  assert (EB : GetSegmentBucket sg = Ok b).
  { unfold GetSegmentBucket. rewrite EL. unfold P2. rewrite shiftr_pow2 by lia.
    replace (16 + 2 * b - 16) with (2 * Z.of_nat (Z.to_nat b)) by lia. rewrite bucket_loop_pow4 by lia. f_equal. lia. }
  rewrite EB. cbn [bind]. rewrite EL. destruct (interruptable_kl b ltac:(lia)) as (EK & Hk & Hl).
  set (k := if P2 b <=? 2 ^ 16 then 10 else 12) in *. set (l := if P2 b <=? 2 ^ 18 then 1 else u32 (Z.shiftr (P2 b) 18)) in *.
  eexists. split; [reflexivity|]. unfold Prover_make. cbn [segm num_iterations pD pk pl]. do 2 (split; [easy|]). split; [easy|].
  pose proof (P2_pos b ltac:(lia)) as HP. pose proof (kl_of_pos b ltac:(lia)) as HK. pose proof (kl_bound segments Hs b Hb) as HKb.
  split; [exact HD|now apply (start_class (start sg))|exact Cy|exact Hk|lia|lia| |].
  - split; [lia|]. unfold P2. pose proof (Z.pow_le_mono_r 2 (16 + 2 * b) 44 ltac:(lia) ltac:(lia)). change (2 ^ 44) with 17592186044416 in *. lia.
  - rewrite EK. intros i Hi Hlt. unfold Interruptable_GetForm. cbn [segm pk pl]. destruct (HW i) as (HI & Em & Hn & Hw).
    set (e := start sg + kl_of b * i). assert (Hei : 0 <= i * k * l /\ i * k * l = kl_of b * i) by nia. assert (0 <= i * k) by nia.
    assert (i * k <= i * k * l) by nia.
    assert (Ee : u64 (start sg + u64 (u64 (i * k) * l)) = e).
    { subst e. rewrite (u64_id (i * k)), (u64_id (i * k * l)), u64_id by lia. lia. } rewrite Ee.
    assert (Hmul : start sg = P2 b * (start sg / P2 b)) by (pose proof (Z.div_mod (start sg) (P2 b) ltac:(lia)); lia).
    assert (Hq : e / P2 b = start sg / P2 b /\ e mod P2 b = kl_of b * i).
    { assert (Ee2 : e = P2 b * (start sg / P2 b) + kl_of b * i) by (subst e; lia). split.
      - symmetry. apply (Z.div_unique_pos e (P2 b) _ (kl_of b * i)); lia.
      - symmetry. apply (Z.mod_unique_pos e (P2 b) (start sg / P2 b)); lia. }
    destruct (fast_get D x0 segments Hs (weso i) (n i) b e HI Em Hb) as (pos & -> & Pp).
    + split; [subst e; nia|]. split; [|lia]. unfold grid. rewrite (proj2 Hq), Z.mul_comm. apply Z.mod_mul. lia.
    + cbn [bind]. eexists. split; [reflexivity|]. subst e. apply (stored_power (start sg)); try easy. nia.
Qed.
End Tasks.

(** ** The thread *)

Section Thread.

(** The proof is there: the worker is past the first assignment of [OnFinish]. *)
Definition past (v : worker) : bool := match v with Finishing _ | Returned true => true | _ => false end.
Definition returned (v : worker) : bool := match v with Returned _ => true | _ => false end.

(** The invariant of every reachable state. *)
Definition thread_inv (t : thread) : bool :=
  implb (t_fully_finished t) (t_finished t) &&
  match w t with
  | Computing _ => negb (t_new_event t) && negb (t_notified t)
  | Waiting n => negb (Nat.eqb n 0) && negb (t_new_event t) && negb (t_notified t)
  | Finishing F_finished => false
  | Finishing F_test | Finishing F_new_event => t_finished t && negb (t_new_event t) && negb (t_notified t)
  | Finishing F_notify => t_finished t && t_new_event t && negb (t_notified t)
  | Finishing F_fully_finished => t_finished t && t_new_event t && t_notified t
  | Returned true => t_fully_finished t && Bool.eqb (t_new_event t) (t_notified t)
  | Returned false => t_finished t && negb (t_new_event t) && negb (t_notified t)
  end &&
  match t_owner t with
  | Idle => implb (t_finished t) (past (w t)) && implb (t_fully_finished t) (returned (w t))
  | Stopping_1 => t_finished t
  | Stopping_2 => t_fully_finished t
  | Joining => t_fully_finished t && (negb (t_paused t) || past (w t))
  | Joined => t_fully_finished t && returned (w t)
  end.

Lemma thread_inv_step t t' : thread_inv t = true -> thread_step t t' -> thread_inv t' = true.
Proof.
  intros HI Hs. revert HI. destruct Hs as [t t' Hs|t t' Hs]; [destruct Hs as [n u|n u|n u|u|pc u]|destruct Hs as [u|u|u Ho|u|r u]]; destruct u as [v o p f ff e m]; intros HI; unfold holds_m in *; cbn [w t_owner t_paused t_finished t_fully_finished] in *; subst.
  all: try (destruct pc); try (destruct Ho as [->|[->| ->]]).
  all: try (destruct p); try (destruct f); try (destruct ff); destruct e, m; try discriminate; try (destruct n as [|n]); try (destruct v as [|[|]|[]|[]]); try (destruct o); try discriminate; try reflexivity; try (destruct r; reflexivity || discriminate).
Qed.

(** Runs of the whole machine and of the worker alone. *)
Inductive reaches : thread -> thread -> Prop :=
| reaches_refl t : reaches t t
| reaches_step t t' t'' : reaches t t' -> thread_step t' t'' -> reaches t t''.

Inductive works : nat -> thread -> thread -> Prop :=
| works_0 t : works O t t
| works_S n t t' t'' : worker_step t t' -> works n t' t'' -> works (S n) t t''.

Lemma reaches_trans t t' t'' : reaches t t' -> reaches t' t'' -> reaches t t''.
Proof. intros H. induction 1 as [|t1 t2 t3 _ IH Hs]; [exact H|exact (reaches_step _ _ _ (IH H) Hs)]. Qed.

Lemma works_reaches k t t' : works k t t' -> reaches t t'.
Proof.
  induction 1 as [t|k t t' t'' Hs _ IH]; [constructor|]. apply (reaches_trans _ t'); [|exact IH]. apply (reaches_step _ t); [constructor|now apply by_worker].
Qed.

Lemma reaches_inv t t' : thread_inv t = true -> reaches t t' -> thread_inv t' = true.
Proof. intros HI H. induction H as [|t t1 t2 _ IH Hs]; [exact HI|exact (thread_inv_step _ _ (IH HI) Hs)]. Qed.

Lemma works_owner k t t' : works k t t' -> t_owner t' = t_owner t.
Proof.
  induction 1 as [|k t t' t'' Hs _ IH]; [reflexivity|]. rewrite IH. inversion Hs; try reflexivity. destruct pc; try reflexivity. cbn [OnFinish]. now destruct (t_fully_finished t).
Qed.

Lemma worker_det t t1 t2 : worker_step t t1 -> worker_step t t2 -> t1 = t2.
Proof. intros H1 H2. inversion H1; subst; inversion H2; subst; try congruence. Qed.

Lemma works_longest k t t' r : works k t t' -> w t' = Returned r -> forall j t'', works j t t'' -> (j <= k)%nat.
Proof.
  induction 1 as [t|k t t1 t2 Hs _ IH]; intros Er j t'' Hj; inversion Hj as [|j' ? u ? Hs' Hj']; subst; try lia.
  - inversion Hs'; congruence.
  - rewrite (worker_det _ _ _ Hs' Hs) in Hj'. specialize (IH Er _ _ Hj'). lia.
Qed.

Lemma thread_inv_facts t : thread_inv t = true ->
  (t_fully_finished t = true -> t_finished t = true) /\
  (t_owner t = Idle -> (t_finished t = true -> past (w t) = true) /\ (t_fully_finished t = true -> w t = Returned true)) /\
  (forall r, w t = Returned r -> t_finished t = true /\ (r = true -> t_fully_finished t = true)) /\
  (t_new_event t = true \/ t_notified t = true -> past (w t) = true /\ t_finished t = true).
Proof.
  destruct t as [v o p f ff e m]. intros HI. apply andb_prop in HI as [HI HO]. apply andb_prop in HI as [HF HI]. cbn [w t_owner t_paused t_finished t_fully_finished t_new_event t_notified] in *.
  split; [|split; [|split]].
  - intros ->. exact HF.
  - intros ->. destruct f, ff; try discriminate; split; try discriminate; intros _; destruct v as [|[|]|[]|[]]; try discriminate; reflexivity.
  - intros r ->. destruct r, f, ff; try discriminate; now split.
  - intros HE. destruct v as [n|[|n]|[]|[]], e, m, f, ff; try discriminate; try (split; reflexivity); destruct HE; discriminate.
Qed.

(** The worker has returned after [k] steps, which [steps] proves. *)
Local Ltac returned_in k steps := exists k; do 2 eexists; split; [steps|split; [lia|reflexivity]].

(** Once its owner is in [join] the worker returns within three steps. *)
Lemma joining_returns t : thread_inv t = true -> t_owner t = Joining -> exists k t' r, works k t t' /\ (k <= 3)%nat /\ w t' = Returned r.
Proof.
  destruct t as [v o p f ff e m]. cbn [t_owner]. intros HI ->. apply andb_prop in HI as [HI1 HI3]. apply andb_prop in HI1 as [HI1 HI]. cbn [w t_owner t_paused t_finished t_fully_finished t_new_event t_notified] in HI1, HI, HI3. apply andb_prop in HI3 as [-> HI3]. destruct f; [clear HI1|discriminate].
  destruct v as [[|n]|[|n]|[]|r]; cbn in HI; try discriminate.
  - returned_in 2%nat ltac:(econstructor; [now apply step_finish|econstructor; [now apply step_on_finish|constructor]]).
  - returned_in 1%nat ltac:(econstructor; [now apply (step_leave n)|constructor]).
  - assert (p = false) as -> by (destruct p; [discriminate|reflexivity]). destruct n as [|n].
    + returned_in 3%nat ltac:(econstructor; [now apply (step_pass O)|econstructor; [now apply step_finish|econstructor; [now apply step_on_finish|constructor]]]).
    + returned_in 2%nat ltac:(econstructor; [now apply (step_pass (S n))|econstructor; [now apply (step_leave n)|constructor]]).
  - returned_in 1%nat ltac:(econstructor; [now apply step_on_finish|constructor]).
  - returned_in 3%nat ltac:(do 3 (econstructor; [now apply step_on_finish|]); constructor).
  - returned_in 2%nat ltac:(do 2 (econstructor; [now apply step_on_finish|]); constructor).
  - returned_in 1%nat ltac:(econstructor; [now apply step_on_finish|constructor]).
  - returned_in O ltac:(constructor).
Qed.

Lemma reaches_joined t : thread_inv t = true -> exists t', reaches t t' /\ t_owner t' = Joined.
Proof.
  assert (HJ : forall t, thread_inv t = true -> t_owner t = Joining -> exists t', reaches t t' /\ t_owner t' = Joined).
  { intros u HI Eo. destruct (joining_returns u HI Eo) as (k & u' & r & Hw & _ & Er). eexists. split; [apply (reaches_step _ u'); [exact (works_reaches _ _ _ Hw)|]; apply by_owner, (by_join r); [|exact Er]; now rewrite (works_owner _ _ _ Hw)|reflexivity]. }
  assert (Hnext : forall t, thread_inv t = true -> t_owner t = Idle \/ t_owner t = Stopping_1 \/ t_owner t = Stopping_2 ->
    (exists t', reaches (stop t) t' /\ t_owner t' = Joined) -> exists t', reaches t t' /\ t_owner t' = Joined).
  { intros u _ Eo (u' & Hr & E). exists u'. split; [|exact E]. apply (reaches_trans _ (stop u)); [|exact Hr]. apply (reaches_step _ u); [constructor|now apply by_owner, by_stop]. }
  assert (Hinv : forall t, thread_inv t = true -> t_owner t = Idle \/ t_owner t = Stopping_1 \/ t_owner t = Stopping_2 -> thread_inv (stop t) = true).
  { intros u HI Eo. apply (thread_inv_step u); [exact HI|now apply by_owner, by_stop]. }
  assert (H2 : forall t, thread_inv t = true -> t_owner t = Stopping_2 -> exists t', reaches t t' /\ t_owner t' = Joined).
  { intros u HI Eo. apply Hnext; [exact HI|tauto|]. apply HJ; [apply Hinv; tauto|unfold stop; now rewrite Eo]. }
  assert (H1 : forall t, thread_inv t = true -> t_owner t = Stopping_1 -> exists t', reaches t t' /\ t_owner t' = Joined).
  { intros u HI Eo. apply Hnext; [exact HI|tauto|]. apply H2; [apply Hinv; tauto|unfold stop; now rewrite Eo]. }
  intros HI. destruct (t_owner t) eqn:Eo; [|now apply H1|now apply H2|now apply HJ|exists t; split; [constructor|exact Eo]].
  apply Hnext; [exact HI|tauto|]. apply H1; [apply Hinv; tauto|unfold stop; now rewrite Eo].
Qed.

(** Left alone, the worker comes to [OnFinish]. *)
Lemma undisturbed_computes n : works (2 * n) (thread_start n) (thread_start O).
Proof.
  induction n as [|n IH]; [constructor|]. replace (2 * S n)%nat with (S (S (2 * n)))%nat by lia.
  econstructor; [now apply (step_enter n)|]. econstructor; [now apply (step_pass n)|exact IH].
Qed.

Lemma works_app a : forall b t t' t'', works a t t' -> works b t' t'' -> works (a + b) t t''.
Proof. intros b t t' t'' H. induction H as [|a t t1 t2 Hs _ IH]; [easy|]. intros Hb. exact (works_S _ _ _ _ Hs (IH Hb)). Qed.

Lemma undisturbed_notifies n : works (2 * n + 4) (thread_start n) (mkthread (Finishing F_fully_finished) Idle false true false true true).
Proof.
  eapply works_app; [apply undisturbed_computes|]. econstructor; [now apply step_finish|]. do 3 (econstructor; [now apply step_on_finish|]). constructor.
Qed.
End Thread.

(** C33: the thread of an interruptible prover can always be
    stopped and joined. In every state reachable by any interleaving of the
    worker's statements with those of its owner ([pause], [resume], the assignments of
    [stop], the destructor, [join]): [is_fully_finished] is set only after
    [is_finished]; without a [stop] [is_finished] means that the worker is in [OnFinish], with
    its proof complete, and [is_fully_finished] that it has returned; a returned
    worker has set [is_finished], and both flags if it completed its proof; and the event
    loop is sent an event only from [OnFinish]. Once its owner is in [join] the worker
    returns within three of its steps, and from every state a run leads through
    [stop] past [join]. While it is paused inside [PerformExtraStep] the worker makes no step at
    all. Undisturbed it makes its [n] remaining calls, notifies the event loop,
    and only with its next step, the last, sets [is_fully_finished]: the loop can be woken
    and find the prover finished but not fully finished. *)
Theorem interruptable_thread n :
  (forall t, reaches (thread_start n) t ->
     (t_fully_finished t = true -> t_finished t = true) /\
     (t_owner t = Idle -> (t_finished t = true -> past (w t) = true) /\ (t_fully_finished t = true -> w t = Returned true)) /\
     (forall r, w t = Returned r -> t_finished t = true /\ (r = true -> t_fully_finished t = true)) /\
     (t_new_event t = true \/ t_notified t = true -> past (w t) = true /\ t_finished t = true) /\
     (t_owner t = Joining -> exists k t' r, works k t t' /\ (k <= 3)%nat /\ w t' = Returned r /\ forall j t'', works j t t'' -> (j <= k)%nat) /\
     (exists t', reaches t t' /\ t_owner t' = Joined) /\
     (forall m, w t = Waiting m -> t_paused t = true -> forall t', ~ worker_step t t')) /\
  exists t t', works (2 * n + 4) (thread_start n) t /\ t_finished t = true /\ t_new_event t = true /\ t_notified t = true /\ t_fully_finished t = false /\
    worker_step t t' /\ w t' = Returned true /\ t_fully_finished t' = true.
Proof.
  split.
  - intros t Hr. assert (HI : thread_inv t = true) by (apply (reaches_inv (thread_start n)); [reflexivity|exact Hr]). assert (H1 : t_owner t = Joining -> exists k t' r, works k t t' /\ (k <= 3)%nat /\ w t' = Returned r /\ forall j t'', works j t t'' -> (j <= k)%nat).
    { intros Eo. destruct (joining_returns t HI Eo) as (k & t' & r & Hw & Hk & Er). exists k, t', r. do 3 (split; [assumption|]). exact (works_longest k t t' r Hw Er). }
    pose proof (reaches_joined t HI) as H2. clear Hr.
    assert (H3 : forall m, w t = Waiting m -> t_paused t = true -> forall t', ~ worker_step t t') by (intros m Ew Hp t' Hs; inversion Hs; congruence).
    destruct (thread_inv_facts t HI) as (F1 & F2 & F3 & F4). now repeat (split; [assumption|]).
  - eexists. eexists. split; [apply undisturbed_notifies|]. do 4 (split; [reflexivity|]). split; [now apply step_on_finish|]. now split.
Qed.

Lemma interruptable_thread_witness : let t := stop (stop (stop (pause (thread_start 3)))) in
  t_owner t = Joining /\ exists k t' r, works k t t' /\ (k <= 3)%nat /\ w t' = Returned r /\ forall j t'', works j t t'' -> (j <= k)%nat.
Proof.
  split; [reflexivity|]. refine (proj1 (proj2 (proj2 (proj2 (proj2 (proj1 (interruptable_thread 3) (stop (stop (stop (pause (thread_start 3))))) _))))) eq_refl).
  do 3 (eapply reaches_step; [|apply by_owner, by_stop; cbn; tauto]). eapply reaches_step; [constructor|]. now apply by_owner, by_pause.
Defined.
