(* ===== verification/Vdf.v ===== *)
(** [src/src/vdf.h], first part: the squaring loops and the main loop, which
    feed the callbacks and publish the number of iterations done. The callback is
    an interface, [Listener], with its law; so is the fast squaring pipeline. *)
From S2P Require Import Prelude Words NumTheory Gmp QuadForm FormClass Integer Forms OrigForms Nucomp Bqfc PrimeTest HashPrime ProofCommon Powers Verifier Callback.

(** ** INUDUPLListener *)

Class Listener (C : Type) : Type := OnIteration : C -> payload -> Z -> res C.

#[export] Instance One_listener `{R : FormReducer} : Listener OneWesolowskiCallback := One_OnIteration.
#[export] Instance Two_listener `{R : FormReducer} : Listener TwoWesolowskiCallback := fun c => Two_OnIteration c (t_kl c).
#[export] Instance Fast_listener `{R : FormReducer} : Listener FastAlgorithmCallback := Fast_OnIteration.

(** A null pointer is [None]. *)
Definition notify {C} `{L : Listener C} (l : option C) (data : payload) (iteration : Z) : res (option C) :=
  match l with
  | None => Ok None
  | Some c => c <- OnIteration c data iteration ;; Ok (Some c)
  end.

Definition checkpoint_interval : Z := 10000.

(** What the main loop tells the other threads. *)
Inductive event : Type :=
| SubmitCheckpoint (y_ret : form) (iteration : Z)
| NewEvent.

Section Loops.
Context `{G : Gmp} `{R : FormReducer}.
Context {C : Type} `{L : Listener C}.

(** *** repeated_square_original *)

(** [i] iterations are done; after the first one the operand is [f3] itself. *)
Fixpoint original_loop (n : nat) (i base : Z) (alias : bool) (f : form) (l : option C) : res (form * option C) :=
  match n with
  | O => Ok (f, l)
  | S n' =>
      f <- square vdf_original alias f form_zero ;;
      l <- notify l (NL_FORM f) (u64 (base + i)) ;;
      original_loop n' (i + 1) base true f l
  end.

Definition repeated_square_original (f : form) (base iterations : Z) (l : option C) : res (form * option C) :=
  original_loop (Z.to_nat iterations) 0 base false f l.

(** *** repeated_square_nudupl: the reducer is [weso]'s, or one of its own *)

Fixpoint nudupl_loop (n : nat) (i : Z) (f : form) (D Lr base : Z) (l : option C) : res (form * option C) :=
  match n with
  | O => Ok (f, l)
  | S n' =>
      f <- nudupl_form f D Lr ;;
      f <- (if 8 <? mpz_size (fa f) then reducer_reduce f else Ok f) ;;
      l <- notify l (NL_FORM f) (u64 (base + i)) ;;
      nudupl_loop n' (i + 1) f D Lr base l
  end.

Definition repeated_square_nudupl (f : form) (D Lr base iterations : Z) (l : option C) : res (form * option C) :=
  nudupl_loop (Z.to_nat iterations) 0 f D Lr base l.

(** *** repeated_square *)

(** The phased pipeline of x86, or the one above: the callback it leaves, with
    the number of iterations done and the form; no form when it reports
    corruption. *)
Class Squarer : Type := square_batch : form -> Z -> Z -> C -> res (C * option (Z * form)).

Definition nudupl_squarer (D Lr : Z) : Squarer := fun f base iterations c =>
  ' (f, l) <- repeated_square_nudupl f D Lr base iterations (Some c) ;;
  match l with
  | Some c => Ok (c, Some (iterations, f))
  | None => Ok (c, Some (iterations, f))
  end.

(** The globals [fast_algorithm] and [two_weso], [fast_storage != NULL], and the
    operations of the callbacks the main loop uses. *)
Record config : Type := mkconfig {
  fast_algorithm : bool;
  has_fast_storage : bool;
  two_weso : bool;
  y_ret_of : C -> form;
  large_constants : C -> bool;
  increase_constants : C -> Z -> res C;
}.

Record loop_state : Type := mkloop {
  ls_f : form;
  ls_num : Z;                   (* num_iterations *)
  ls_last : Z;                  (* last_checkpoint *)
  ls_weso : C;
  ls_published : Z;             (* weso->iterations *)
  ls_events : list event;
}.

Definition slow (f : form) (base iterations : Z) (c : C) : res (form * C) :=
  ' (f, l) <- repeated_square_original f base iterations (Some c) ;;
  match l with Some c => Ok (f, c) | None => Ok (f, c) end.

(** The squarings of one turn: the batch, redone by the slow loop when it is
    corrupted and completed by one slow iteration when it stopped early. *)
Definition squarings {Sq : Squarer} (f : form) (num : Z) (c : C) : res (form * C * Z) :=
  let batch_size := checkpoint_interval in
  ' (c, r) <- square_batch f num batch_size c ;;
  ' (f, c, actual) <- (match r with
                       | Some (actual, f) => Ok (f, c, actual)
                       | None => ' (f, c) <- slow f num batch_size c ;; Ok (f, c, batch_size)
                       end) ;;
  if actual <? batch_size then
    ' (f, c) <- slow f (u64 (num + actual)) 1 c ;; Ok (f, c, actual + 1)
  else Ok (f, c, actual).

(** The 2-Wesolowski part: the state, and whether the loop goes on. *)
Definition two_weso_part (cfg : config) (s : loop_state) : res (loop_state * bool) :=
  s <- (if (kSwitchIters <=? ls_num s) && negb (large_constants cfg (ls_weso s)) then
          let round_up := Z.rem (100 - Z.rem (ls_num s) 100) 100 in
          ' (f, c) <- (if 0 <? round_up then slow (ls_f s) (ls_num s) round_up (ls_weso s) else Ok (ls_f s, ls_weso s)) ;;
          let num := u64 (ls_num s + round_up) in
          c <- increase_constants cfg c num ;;
          Ok (mkloop f num (ls_last s) c num (ls_events s))
        else Ok s) ;;
  Ok (s, negb (kMaxItersAllowed - 500000 <=? ls_num s)).

(** At every [2^15] iterations: publish the count and notify. *)
Definition publish (cfg : config) (s : loop_state) : loop_state :=
  let events :=
    if fast_algorithm cfg then
      if has_fast_storage cfg then ls_events s ++ [SubmitCheckpoint (y_ret_of cfg (ls_weso s)) (ls_last s)]
      else if Z.rem (ls_last s) (2 ^ 16) =? 0 then ls_events s ++ [NewEvent] else ls_events s
    else ls_events s in
  mkloop (ls_f s) (ls_num s) (ls_last s) (ls_weso s) (ls_num s) events.

Definition checkpoint_part (cfg : config) (s : loop_state) : res (loop_state * bool) :=
  let s := publish cfg s in
  ' (s, go) <- (if two_weso cfg then two_weso_part cfg s else Ok (s, true)) ;;
  if go then Ok (mkloop (ls_f s) (ls_num s) (u64 (ls_last s + 2 ^ 15)) (ls_weso s) (ls_published s) (ls_events s), true)
  else Ok (s, false).

(** One turn of the [while] loop. *)
Definition main_turn {Sq : Squarer} (cfg : config) (iterations : Z) (s : loop_state) : res (loop_state * bool) :=
  ' (f, c, actual) <- squarings (ls_f s) (ls_num s) (ls_weso s) ;;
  let s := mkloop f (u64 (ls_num s + actual)) (ls_last s) c (ls_published s) (ls_events s) in
  ' (s, go) <- (if ls_last s <=? ls_num s then checkpoint_part cfg s else Ok (s, true)) ;;
  if negb go then Ok (s, false)
  else if negb (iterations =? 0) && (iterations <? ls_num s) then
    Ok (mkloop (ls_f s) (ls_num s) (ls_last s) (ls_weso s) (ls_num s) (ls_events s), false)
  else Ok (s, true).

(** [stopped n] is what the loop reads before turn [n]. *)
Fixpoint main_loop {Sq : Squarer} (fuel : nat) (stopped : nat -> bool) (turn : nat) (cfg : config) (iterations : Z) (s : loop_state)
  : res loop_state :=
  if stopped turn then Ok s
  else
    match fuel with
    | O => Throw out_of_fuel
    | S fuel' =>
        ' (s, go) <- main_turn cfg iterations s ;;
        if go then main_loop fuel' stopped (S turn) cfg iterations s else Ok s
    end.

Definition repeated_square {Sq : Squarer} (fuel : nat) (stopped : nat -> bool) (cfg : config) (iterations : Z) (f : form) (weso : C)
  : res loop_state :=
  main_loop fuel stopped O cfg iterations (mkloop f 0 0 weso 0 []).

End Loops.
Arguments config C : clear implicits.
Arguments loop_state C : clear implicits.
Arguments Squarer C : clear implicits.

(** ** The laws of the interfaces *)

(** A callback in the state [I c n] has seen [n] iterations of the squarings of
    [x], and takes the next ones up to [N c]. *)
Class ListenerLaws {C : Type} (L : Listener C) (D : Z) (x : form) (I : C -> Z -> Prop) (N : C -> Z) : Prop := {
  listener_range : forall c n, I c n -> 0 <= n;
  listener_limit : forall c n, I c n -> N c < 2 ^ 63;
  listener_step : forall c n data, I c n -> n < N c -> carries D x (2 ^ (n + 1)) data ->
    exists c', OnIteration c data n = Ok c' /\ I c' (n + 1) /\ N c' = N c;
}.

Section Instances.
Context `{RL : FormReducerLaws}.
Variable D : Z.
Variable x : form.
Hypothesis Cx : class D x.

(** The stride and the capacity do not change. *)
Definition one_I (T kl cap : Z) (c : OneWesolowskiCallback) (n : Z) : Prop :=
  one_inv D x T c n /\ 0 <= n /\ o_kl c = kl /\ o_capacity c = cap.

#[export] Instance One_laws T kl cap : 1 <= T -> ListenerLaws One_listener D x (one_I T kl cap) (fun _ => 2 ^ 63 - 1).
Proof.
  intros HT. split; [intros c n H; apply H|lia|]. intros c n data (HI & Hn & Ek & Ec) Hlt Hc.
  destruct (one_step D x Cx T c n data HT ltac:(lia) HI Hc) as (c' & E & HI' & Ek' & Ec'). exists c'. split; [exact E|].
  split; [|easy]. split; [exact HI'|]. split; [lia|]. split; congruence.
Qed.

#[export] Instance Fast_laws segments : 1 <= segments <= 15 ->
  ListenerLaws Fast_listener D x (fun c n => fast_inv D x segments c n /\ 0 <= n) (fun _ => 2 ^ 34 - 1).
Proof.
  intros Hs. split; [easy|lia|]. intros c n data [HI Hn] Hlt Hc.
  destruct (fast_step D x Cx segments Hs c n data ltac:(lia) HI Hc) as (c' & E & HI' & _). exists c'. split; [exact E|]. split; [split; [exact HI'|lia]|easy].
Qed.
End Instances.

(** A batch of squarings: [actual] of the [n] iterations are done, or none
    counts. The forms stay below the discriminant, so that they can be squared
    by the slow loop. *)
Class SquarerLaws {C : Type} (Sq : Squarer C) (D : Z) (x : form) (I : C -> Z -> Prop) (N : C -> Z) : Prop :=
  square_batch_ok : forall f base n c, 0 <= n -> base + n <= N c -> I c base -> pw D x (2 ^ base) f -> fa f < - D ->
    exists c' r, square_batch f base n c = Ok (c', r) /\ N c' = N c /\
      match r with
      | Some (actual, f') => 0 <= actual <= n /\ I c' (base + actual) /\ pw D x (2 ^ (base + actual)) f' /\ fa f' < - D
      | None => I c' base
      end.

(** ** The loops *)

Section Loop.
Context `{GL : GmpLaws} {R : FormReducer} {RL : FormReducerLaws R}.
Context {C : Type} {L : Listener C}.
Variable D : Z.
Variable x : form.
Hypothesis Cx : class D x.
Hypothesis HD : Z.prime (- D).
Variable I : C -> Z -> Prop.
Variable N : C -> Z.
Context {LL : ListenerLaws L D x I N}.

Abbreviation pw := (pw D x).

(** What every loop keeps: the form, and what the callback has seen. *)
Record at_iteration (n : Z) (f : form) (c : C) : Prop := {
  at_power : pw (2 ^ n) f;
  at_small : fa f < - D;
  at_callback : I c n;
}.

Lemma reduced_small f : class D f -> reduced f -> fa f < - D.
Proof. intros Cf Rf. pose proof (reduced_bound D f (class_valid _ _ Cf) Rf). destruct (class_valid _ _ Cf) as [_ _ Ha]. nia. Qed.

Lemma pow_double n : 0 <= n -> 2 * 2 ^ n = 2 ^ (n + 1).
Proof. intros Hn. rewrite Z.pow_add_r by lia. lia. Qed.

Lemma carries_form n f : pw n f -> carries D x n (NL_FORM f).
Proof. intros P. exists f. tauto. Qed.

Lemma original_square n f alias : 0 <= n -> pw (2 ^ n) f -> fa f < - D ->
  exists g, OrigForms.square vdf_original alias f form_zero = Ok g /\ pw (2 ^ (n + 1)) g /\ fa g < - D.
Proof.
  intros Hn P Hs. rewrite square_eq. pose proof (pw_class D x Cx _ _ P) as Cf.
  destruct (square_class D f Cf (prime_disc_coprime D f Cf HD Hs)) as (g & E & Cg & Rg & Cl). exists g. split; [exact E|]. split.
  - rewrite <- pow_double by easy. replace (2 * 2 ^ n) with (2 ^ n + 2 ^ n) by ring. now apply (pw_composite D x Cx _ _ f f).
  - now apply reduced_small.
Qed.

Lemma notify_ok c n f : I c n -> n < N c -> pw (2 ^ (n + 1)) f -> exists c', notify (Some c) (NL_FORM f) (u64 n) = Ok (Some c') /\ I c' (n + 1) /\ N c' = N c.
Proof.
  intros HI Hlt P. pose proof (listener_range c n HI). pose proof (listener_limit c n HI).
  destruct (listener_step c n (NL_FORM f) HI Hlt (carries_form _ _ P)) as (c' & E & HI' & HN). exists c'. unfold notify.
  rewrite u64_id by lia. now rewrite E.
Qed.

Lemma original_loop_ok base n : forall i f c alias, 0 <= base + i -> at_iteration (base + i) f c -> base + i + Z.of_nat n <= N c ->
  exists f' c', original_loop n i base alias f (Some c) = Ok (f', Some c') /\ at_iteration (base + i + Z.of_nat n) f' c' /\ N c' = N c.
Proof.
  induction n as [|n IH]; intros i f c alias Hi [P Hs HI] HN; cbn [original_loop].
  - rewrite Z.add_0_r. now exists f, c.
  - destruct (original_square _ f alias Hi P Hs) as (g & -> & Pg & Hg). cbn [bind].
    destruct (notify_ok c (base + i) g HI ltac:(lia) Pg) as (c' & -> & HI' & HN'). cbn [bind].
    destruct (IH (i + 1) g c' true ltac:(lia)) as (f' & c2 & E & HA & HN2); [split; rewrite ?Z.add_assoc; assumption|lia|].
    exists f', c2. split; [exact E|]. split; [|congruence]. replace (base + i + Z.of_nat (S n)) with (base + (i + 1) + Z.of_nat n) by lia. exact HA.
Qed.

Lemma slow_ok base n f c : 0 <= base -> 0 <= n -> at_iteration base f c -> base + n <= N c ->
  exists f' c', slow f base n c = Ok (f', c') /\ at_iteration (base + n) f' c' /\ N c' = N c.
Proof.
  intros Hb Hn HA HN. unfold slow, repeated_square_original.
  destruct (original_loop_ok base (Z.to_nat n) 0 f c false) as (f' & c' & -> & HA' & HN'); rewrite ?Z2Nat.id, ?Z.add_0_r in *; try easy.
  cbn [bind]. exists f', c'. split; [reflexivity|]. split; [exact HA'|exact HN'].
Qed.

Lemma squarings_ok {Sq : Squarer C} {SL : SquarerLaws Sq D x I N} f num c : 0 <= num -> at_iteration num f c -> num + 10000 <= N c ->
  exists f' c' a, squarings f num c = Ok (f', c', a) /\ 1 <= a <= 10000 /\ at_iteration (num + a) f' c' /\ N c' = N c.
Proof.
  intros Hn [P Hs HI] HN. unfold squarings, checkpoint_interval. pose proof (listener_limit c num HI) as HL.
  destruct (square_batch_ok f num 10000 c ltac:(lia) HN HI P Hs) as (c1 & r & -> & EN & Hr). cbn [bind].
  destruct r as [[a f1]|].
  - destruct Hr as (Ha & HI1 & P1 & Hs1). cbn [bind]. destruct (Z.ltb_spec a 10000).
    + rewrite u64_id by lia. destruct (slow_ok (num + a) 1 f1 c1 ltac:(lia) ltac:(lia)) as (f2 & c2 & -> & HA & EN2); [now split|lia|].
      cbn [bind]. exists f2, c2, (a + 1). rewrite Z.add_assoc. split; [reflexivity|]. split; [lia|]. split; [exact HA|congruence].
    + exists f1, c1, a. split; [reflexivity|]. split; [lia|]. now split.
  - destruct (slow_ok num 10000 f c1 Hn ltac:(lia)) as (f2 & c2 & -> & HA & EN2); [now split|lia|].
    cbn [bind Z.ltb Z.compare Pos.compare Pos.compare_cont]. exists f2, c2, 10000. split; [reflexivity|]. split; [lia|]. split; [exact HA|congruence].
Qed.

(** The notifications of the first [k] checkpoints. *)
Definition events_ok (cfg : config C) (k : nat) (l : list event) : Prop :=
  if fast_algorithm cfg then
    if has_fast_storage cfg then
      Forall2 (fun i e => exists y, e = SubmitCheckpoint y (2 ^ 15 * Z.of_nat i) /\ pw (2 ^ (2 ^ 15 * Z.of_nat i)) y) (seq 0 k) l
    else l = repeat NewEvent (Z.to_nat ((Z.of_nat k + 1) / 2))
  else l = [].

(** [y_ret] is the form of the last multiple of [2^15]. *)
Definition y_ret_law (cfg : config C) : Prop :=
  fast_algorithm cfg && has_fast_storage cfg = true -> forall c n, I c n -> pw (2 ^ (2 ^ 15 * (n / 2 ^ 15))) (y_ret_of cfg c).

(** A state with [k] checkpoints behind it. *)
Record turn_inv (cfg : config C) (k : nat) (s : loop_state C) : Prop := {
  ti_at : at_iteration (ls_num s) (ls_f s) (ls_weso s);
  ti_last : ls_last s = 2 ^ 15 * Z.of_nat k;
  ti_published : 0 <= ls_published s <= ls_num s;
  ti_events : events_ok cfg k (ls_events s);
}.

(** Between two turns: the next checkpoint is ahead, and the published count is
    less than [2^15] behind. *)
Definition between (s : loop_state C) : Prop :=
  ls_last s - 2 ^ 15 <= ls_published s /\ ls_num s <= ls_last s <= ls_num s + 2 ^ 15.

Lemma publish_ok cfg k s : y_ret_law cfg -> turn_inv cfg k s -> ls_last s <= ls_num s < ls_last s + 2 ^ 15 ->
  exists ev, publish cfg s = mkloop (ls_f s) (ls_num s) (ls_last s) (ls_weso s) (ls_num s) ev /\ events_ok cfg (S k) ev.
Proof.
  intros HY [HA HLast HP HE] Hn. unfold publish. eexists. split; [reflexivity|].
  unfold events_ok in *. unfold y_ret_law in HY. destruct (fast_algorithm cfg); [|exact HE]. destruct (has_fast_storage cfg).
  - rewrite seq_S. apply Forall2_app; [exact HE|]. constructor; [|constructor]. rewrite Nat.add_0_l.
    exists (y_ret_of cfg (ls_weso s)). rewrite <- HLast. split; [reflexivity|]. specialize (HY eq_refl (ls_weso s) (ls_num s) (at_callback _ _ _ HA)).
    replace (ls_last s) with (2 ^ 15 * (ls_num s / 2 ^ 15)); [exact HY|]. rewrite HLast in *.
    rewrite <- (Z.div_unique (ls_num s) (2 ^ 15) (Z.of_nat k) (ls_num s - 2 ^ 15 * Z.of_nat k)); lia.
  - rewrite HLast, Z.rem_mod_nonneg by lia. rewrite HE. destruct (Z.eqb_spec ((2 ^ 15 * Z.of_nat k) mod 2 ^ 16) 0) as [E|E].
    + rewrite <- repeat_cons. apply (f_equal (repeat NewEvent) (x := S _)). Z.div_mod_to_equations; lia.
    + f_equal. Z.div_mod_to_equations; lia.
Qed.

(** *** Without 2-Wesolowski *)

Lemma turn_ok {Sq : Squarer C} {SL : SquarerLaws Sq D x I N} cfg iterations k s : two_weso cfg = false -> y_ret_law cfg ->
  turn_inv cfg k s -> between s -> ls_num s + 10000 <= N (ls_weso s) ->
  exists s' k', main_turn cfg iterations s = Ok (s', (iterations =? 0) || (ls_num s' <=? iterations)) /\
    turn_inv cfg k' s' /\ between s' /\ N (ls_weso s') = N (ls_weso s) /\ ls_num s < ls_num s' <= ls_num s + 10000 /\
    (iterations <> 0 -> iterations < ls_num s' -> ls_published s' = ls_num s').
Proof.
  intros H2 HY HT [HB1 HB2] HN. pose proof HT as [HA HLast HP HE]. unfold main_turn. pose proof (listener_limit _ _ (at_callback _ _ _ HA)) as HL.
  assert (Hn0 : 0 <= ls_num s) by lia.
  destruct (squarings_ok _ _ _ Hn0 HA HN) as (f' & c' & a & -> & Ha & HA' & EN). cbn [bind]. rewrite (u64_id (ls_num s + a)) by lia.
  set (s1 := mkloop f' (ls_num s + a) (ls_last s) c' (ls_published s) (ls_events s)). remember (ls_num s + a) as n' eqn:En'.
  assert (HT1 : turn_inv cfg k s1) by (split; [exact HA'|exact HLast|cbn; lia|exact HE]).
  assert (H1 : exists s2 k2, (if ls_last s1 <=? ls_num s1 then checkpoint_part cfg s1 else Ok (s1, true)) = Ok (s2, true) /\
    turn_inv cfg k2 s2 /\ between s2 /\ ls_num s2 = n' /\ ls_weso s2 = c').
  { change (ls_last s1) with (ls_last s). change (ls_num s1) with n'. destruct (Z.leb_spec (ls_last s) n').
    - destruct (publish_ok cfg k s1 HY HT1) as (ev & EP & HEv); [change (ls_last s <= n' < ls_last s + 2 ^ 15); lia|]. change (publish cfg s1 = mkloop f' n' (ls_last s) c' n' ev) in EP. unfold checkpoint_part. rewrite EP, H2. cbn [bind ls_last ls_f ls_num ls_weso ls_published ls_events].
      rewrite u64_id by (cbn; lia). eexists. exists (S k). split; [reflexivity|]. split; [split|]; cbn [ls_last ls_f ls_num ls_weso ls_published ls_events s1].
      all: try assumption; try lia; try easy. unfold between. cbn [ls_last ls_num ls_published]. split; [lia|easy].
    - exists s1, k. split; [reflexivity|]. split; [exact HT1|]. split; [unfold between; cbn; lia|easy]. }
  destruct H1 as (s2 & k2 & -> & HT2 & HB' & En & Ew). cbn [bind negb].
  assert (HN2 : N (ls_weso s2) = N (ls_weso s)) by congruence. assert (Hlt : ls_num s < ls_num s2 <= ls_num s + 10000) by lia.
  destruct (Z.eqb_spec iterations 0) as [E0|E0]; cbn [negb andb orb]; [|destruct (Z.ltb_spec iterations (ls_num s2)) as [Hi|Hi]].
  - exists s2, k2. do 5 (split; [assumption || reflexivity|]). easy.
  - exists (mkloop (ls_f s2) (ls_num s2) (ls_last s2) (ls_weso s2) (ls_num s2) (ls_events s2)), k2. cbn [ls_num ls_weso ls_published]. rewrite (proj2 (Z.leb_gt (ls_num s2) iterations) Hi).
    split; [reflexivity|]. destruct HT2 as [HA2 HL2 HP2 HE2].
    split; [split; [exact HA2|exact HL2|cbn; lia|exact HE2]|]. split; [unfold between in *; cbn [ls_last ls_num ls_published]; lia|].
    split; [exact HN2|]. split; [exact Hlt|easy].
  - exists s2, k2. rewrite (proj2 (Z.leb_le (ls_num s2) iterations) Hi). do 5 (split; [assumption || reflexivity|]). lia.
Qed.

(** A loop whose turns keep an invariant and make progress up to a bound ends. *)
Lemma main_loop_runs {Sq : Squarer C} cfg iterations (Inv Final : loop_state C -> Prop) M :
  (forall s, Inv s -> ls_num s <= M) ->
  (forall s, Inv s -> exists s' go, main_turn cfg iterations s = Ok (s', go) /\ if go : bool then Inv s' /\ ls_num s < ls_num s' else Final s') ->
  forall fuel stopped turn s, Inv s -> M - ls_num s < Z.of_nat fuel ->
  exists s', main_loop fuel stopped turn cfg iterations s = Ok s' /\ (Final s' \/ Inv s' /\ exists t, stopped t = true).
Proof.
  intros HM Hturn. induction fuel as [|fuel IH]; intros stopped turn s HI HF; [specialize (HM s HI); lia|].
  cbn [main_loop]. destruct (stopped turn) eqn:Es; [exists s; split; [reflexivity|right; split; [exact HI|now exists turn]]|].
  destruct (Hturn s HI) as (s' & go & -> & Hgo). cbn [bind]. destruct go; [|exists s'; split; [reflexivity|now left]].
  destruct Hgo as [HI' Hlt]. apply IH; [exact HI'|lia].
Qed.

Lemma turn_inv_start cfg e c : principal D e -> fa x < - D -> I c 0 -> turn_inv cfg 0 (mkloop x 0 0 c 0 []) /\ between (mkloop x 0 0 c 0 []).
Proof.
  intros He Hx HI. split; [|unfold between; cbn; lia]. split; cbn; try lia.
  - split; [|exact Hx|exact HI]. change (2 ^ 0) with 1. now apply (pw_1 D x Cx e).
  - unfold events_ok. destruct (fast_algorithm cfg); [|reflexivity]. destruct (has_fast_storage cfg); [constructor|reflexivity].
Qed.

Lemma repeated_square_runs {Sq : Squarer C} {SL : SquarerLaws Sq D x I N} cfg e c iterations fuel stopped :
  two_weso cfg = false -> y_ret_law cfg -> principal D e -> fa x < - D -> I c 0 ->
  0 < iterations -> iterations + 10000 <= N c -> iterations < Z.of_nat fuel ->
  exists s k, repeated_square fuel stopped cfg iterations x c = Ok s /\ turn_inv cfg k s /\ between s /\ ls_num s <= iterations + 10000 /\
    ((forall t, stopped t = false) -> iterations < ls_num s /\ ls_published s = ls_num s).
Proof.
  intros H2 HY He Hx HI Hit HN HF. destruct (turn_inv_start cfg e c He Hx HI) as [HT0 HB0]. unfold repeated_square.
  destruct (main_loop_runs cfg iterations
    (fun s => (exists k, turn_inv cfg k s) /\ between s /\ N (ls_weso s) = N c /\ ls_num s <= iterations)
    (fun s => (exists k, turn_inv cfg k s) /\ between s /\ iterations < ls_num s <= iterations + 10000 /\ ls_published s = ls_num s)
    iterations (fun s H => proj2 (proj2 (proj2 H)))) with (fuel := fuel) (stopped := stopped) (turn := O) (s := mkloop x 0 0 c 0 []) as (s & E & Hs).
  - intros s ([k HT] & HB & EN & Hle). destruct (turn_ok cfg iterations k s H2 HY HT HB ltac:(lia)) as (s' & k' & E & HT' & HB' & EN' & Hn & Hp).
    exists s'. eexists. split; [exact E|]. destruct (Z.eqb_spec iterations 0); [lia|]. cbn [orb]. destruct (Z.leb_spec (ls_num s') iterations).
    + split; [|lia]. split; [now exists k'|]. split; [exact HB'|]. split; [congruence|assumption].
    + split; [now exists k'|]. split; [exact HB'|]. split; [lia|]. apply Hp; lia.
  - split; [now exists O|]. split; [exact HB0|]. split; [reflexivity|cbn; lia].
  - cbn. lia.
  - destruct Hs as [([k HT] & HB & Hn & Hp)|[([k HT] & HB & _ & Hle) [t Ht]]]; exists s, k; (split; [exact E|]); (split; [exact HT|]);
      (split; [exact HB|]); (split; [lia|]).
    + intros _. split; [lia|exact Hp].
    + intros Hno. rewrite Hno in Ht. discriminate.
Qed.

(** *** The NUDUPL loop as a squarer *)

Section Nudupl.
Variable Lr : Z.
Hypothesis HLr : 0 <= Lr.
Hypothesis Hbig : 2 ^ 512 <= - D.
Hypothesis Hred : forall f g, class D f -> reducer_reduce f = Ok g -> reduced g.

Lemma nudupl_square n f : 0 <= n -> pw (2 ^ n) f ->
  exists g h, nudupl_form f D Lr = Ok g /\ (if 8 <? mpz_size (fa g) then reducer_reduce g else Ok g) = Ok h /\ pw (2 ^ (n + 1)) h /\ fa h < - D.
Proof.
  intros Hn P. destruct (pw_nudupl D Lr HLr x Cx _ _ P) as (g & E & Pg). rewrite pow_double in Pg by easy. exists g.
  pose proof (pw_class D x Cx _ _ Pg) as Cg. rewrite mpz_size_spec. destruct (Z.ltb_spec 8 (if fa g =? 0 then 0 else Z.log2 (Z.abs (fa g)) / 64 + 1)) as [H8|H8].
  - destruct (pw_reduce D x Cx _ g Pg) as (h & Eh & Ph). exists h. split; [exact E|]. split; [exact Eh|]. split; [exact Ph|].
    apply reduced_small; [now apply (pw_class D x Cx _ _ Ph)|now apply (Hred g)].
  - exists g. split; [exact E|]. split; [reflexivity|]. split; [exact Pg|]. destruct (class_valid _ _ Cg) as [_ _ Ha].
    destruct (Z.eqb_spec (fa g) 0); [lia|]. rewrite Z.abs_eq in H8 by lia. eapply Z.lt_le_trans; [|exact Hbig].
    apply Z.log2_lt_pow2; [lia|]. Z.div_mod_to_equations; lia.
Qed.

Lemma nudupl_loop_ok base n : forall i f c, 0 <= base + i -> at_iteration (base + i) f c -> base + i + Z.of_nat n <= N c ->
  exists f' c', nudupl_loop n i f D Lr base (Some c) = Ok (f', Some c') /\ at_iteration (base + i + Z.of_nat n) f' c' /\ N c' = N c.
Proof.
  induction n as [|n IH]; intros i f c Hi [P Hs HI] HN; cbn [nudupl_loop].
  - rewrite Z.add_0_r. now exists f, c.
  - destruct (nudupl_square _ f Hi P) as (g0 & g & -> & Eg & Pg & Hg). cbn [bind]. rewrite Eg. cbn [bind].
    destruct (notify_ok c (base + i) g HI ltac:(lia) Pg) as (c' & -> & HI' & HN'). cbn [bind].
    destruct (IH (i + 1) g c' ltac:(lia)) as (f' & c2 & E & HA & HN2); [split; rewrite ?Z.add_assoc; assumption|lia|].
    exists f', c2. split; [exact E|]. split; [|congruence]. replace (base + i + Z.of_nat (S n)) with (base + (i + 1) + Z.of_nat n) by lia. exact HA.
Qed.

#[export] Instance nudupl_squarer_laws : SquarerLaws (nudupl_squarer D Lr) D x I N.
Proof.
  intros f base n c Hn HN HI P Hs. pose proof (listener_range c base HI) as Hb. unfold square_batch, nudupl_squarer, repeated_square_nudupl.
  destruct (nudupl_loop_ok base (Z.to_nat n) 0 f c) as (f' & c' & -> & HA & EN); rewrite ?Z2Nat.id, ?Z.add_0_r in *; try easy.
  cbn [bind]. exists c', (Some (n, f')). split; [reflexivity|]. split; [exact EN|]. destruct HA as [PA SA IA]. split; [lia|]. now split.
Qed.
End Nudupl.

(** The slow loop itself is a squarer, for discriminants of any size. *)
Definition slow_squarer : Squarer C := fun f base n c => ' (f, c) <- slow f base n c ;; Ok (c, Some (n, f)).

#[export] Instance slow_squarer_laws : SquarerLaws slow_squarer D x I N.
Proof.
  intros f base n c Hn HN HI P Hs. unfold square_batch, slow_squarer.
  destruct (slow_ok base n f c (listener_range c base HI) Hn) as (f' & c' & -> & [PA SA IA] & EN); [now split|lia|].
  cbn [bind]. exists c', (Some (n, f')). split; [reflexivity|]. split; [exact EN|]. split; [lia|]. now split.
Qed.

End Loop.

(** ** With 2-Wesolowski *)

Definition two_config : config TwoWesolowskiCallback := mkconfig false false true (fun _ => form_zero) LargeConstants IncreaseConstants.

Section TwoWeso.
Context `{GL : GmpLaws} {R : FormReducer} {RL : FormReducerLaws R}.
Variable D : Z.
Variable x e : form.
Hypothesis Cx : class D x.
Hypothesis He : principal D e.
Hypothesis HD : Z.prime (- D).

Definition two_I (c : TwoWesolowskiCallback) (n : Z) : Prop := exists sw, two_reach D x c sw n.
Definition two_N (c : TwoWesolowskiCallback) : Z :=
  if LargeConstants c then 1618999999 - 9 * DecodeSwitchIters (t_state c) else 161899999.

Lemma two_N_eq c sw n : two_reach D x c sw n ->
  two_N c = match sw with Some s => 1618999999 - 9 * s | None => 161899999 end /\
  LargeConstants c = (match sw with Some _ => true | None => false end) /\
  match sw with Some s => 0 < s <= n | None => True end.
Proof.
  intros Hr. destruct (two_reach_inv D x e c sw n Cx He Hr) as ([HS HP _ _] & _). unfold two_N, LargeConstants. destruct sw as [s|]; cbn [switched] in HS.
  - destruct HS as (-> & _ & Hs & _). destruct (Z.eqb_spec s (-1)); [lia|]. cbn [negb]. split; [reflexivity|]. split; [reflexivity|lia].
  - now rewrite HS.
Qed.

Lemma two_reach_step c sw n data : two_reach D x c sw n -> n < two_N c -> carries D x (2 ^ (n + 1)) data ->
  exists c', Two_OnIteration c (t_kl c) data n = Ok c' /\ two_reach D x c' sw (n + 1) /\ two_N c' = two_N c.
Proof.
  intros Hr Hn Hc. destruct (two_reach_inv D x e c sw n Cx He Hr) as (HI & Hn0 & Hk). destruct (two_N_eq c sw n Hr) as (EN & _ & Hsw). rewrite EN in Hn.
  pose proof HI as [HS HP HC HF].
  assert (H32 : 0 <= n < 2 ^ 32 - 1) by (destruct sw; lia).
  assert (Hkl : t_kl c = 10 \/ (t_kl c = 100 /\ sw <> None)) by (rewrite Hk; destruct sw; [right; split; [reflexivity|discriminate]|now left]).
  assert (Hroom : position sw (n + 1) < t_capacity c).
  { rewrite HC. apply room_iff; [destruct sw as [s|]; [cbn [switched] in HS; lia|exact Logic.I]|lia|]. unfold room. destruct sw; lia. }
  destruct (two_step D x Cx c sw n (t_kl c) data HI ltac:(lia) Hc Hkl (fun _ => Hroom)) as (c' & E & HI' & Ek & Est).
  exists c'. split; [exact E|]. split; [apply (reach_iter D x c sw n (t_kl c) data); [exact Hr|lia|exact Hc|right; reflexivity|exact E]|].
  unfold two_N, LargeConstants. now rewrite Est.
Qed.

#[export] Instance Two_laws : ListenerLaws Two_listener D x two_I two_N.
Proof.
  split.
  - intros c n [sw Hr]. apply (two_reach_inv D x e c sw n Cx He Hr).
  - intros c n [sw Hr]. destruct (two_N_eq c sw n Hr) as (-> & _ & Hs). destruct sw; lia.
  - intros c n data [sw Hr] Hn Hc. destruct (two_reach_step c sw n data Hr Hn Hc) as (c' & E & Hr' & EN). exists c'. split; [exact E|]. split; [now exists sw|exact EN].
Qed.

(** The main loop's state: the switch happens at the first checkpoint at or
    after [kSwitchIters]. *)
Record two_inv_loop (s : loop_state TwoWesolowskiCallback) (sw : option Z) : Prop := {
  tl_at : at_iteration D x two_I (ls_num s) (ls_f s) (ls_weso s);
  tl_reach : two_reach D x (ls_weso s) sw (ls_num s);
  tl_last : 0 <= ls_last s;
  tl_switch : match sw with Some t => t <= 91042868 | None => ls_last s <= 91000000 + 2 ^ 15 /\ ls_num s <= 91042868 end;
}.

Lemma two_part_ok s sw : two_inv_loop s sw -> ls_last s <= ls_num s <= ls_last s + 10000 -> ls_num s <= 799600000 -> ls_published s = ls_num s ->
  exists s' sw', two_weso_part two_config s = Ok (s', negb (799500000 <=? ls_num s')) /\
    two_inv_loop s' sw' /\ ls_num s <= ls_num s' < ls_num s + 100 /\ ls_last s' = ls_last s /\ ls_published s' = ls_num s' /\
    (sw' = None -> ls_num s' < 91000000).
Proof.
  intros [HA Hr Hl Hsw] Hn Hm Hp. unfold two_weso_part, two_config. cbn [large_constants increase_constants].
  destruct (two_N_eq _ _ _ Hr) as (EN & ELC & Hs). rewrite ELC. unfold kSwitchIters.
  destruct (Z.leb_spec 91000000 (ls_num s)) as [Hk|Hk]; cbn [andb]; [destruct sw as [t|]; cbn [negb]|].
  - exists s, (Some t). split; [reflexivity|]. split; [split; assumption|]. split; [lia|]. split; [reflexivity|]. split; [exact Hp|discriminate].
  - rewrite (Z.rem_mod_nonneg (ls_num s) 100), Z.rem_mod_nonneg by (try lia; Z.div_mod_to_equations; lia). set (round_up := (100 - ls_num s mod 100) mod 100).
    assert (Hru : 0 <= round_up < 100 /\ (ls_num s + round_up) mod 100 = 0) by (subst round_up; Z.div_mod_to_equations; lia). clearbody round_up.
    assert (H1 : exists f c, (if 0 <? round_up then slow (ls_f s) (ls_num s) round_up (ls_weso s) else Ok (ls_f s, ls_weso s)) = Ok (f, c) /\
      at_iteration D x two_I (ls_num s + round_up) f c /\ two_N c = two_N (ls_weso s)).
    { destruct (Z.ltb_spec 0 round_up).
      - apply (slow_ok D x Cx HD two_I two_N (ls_num s) round_up (ls_f s) (ls_weso s)); [lia|lia|exact HA|rewrite EN; lia].
      - replace round_up with 0 by lia. rewrite Z.add_0_r. now exists (ls_f s), (ls_weso s). }
    destruct H1 as (f & c & -> & HA1 & EN1). cbn [bind]. rewrite u64_id by lia.
    pose proof HA1 as [P1 S1 [sw1 Hr1]]. destruct (two_N_eq _ _ _ Hr1) as (EN2 & _ & Hs1).
    assert (sw1 = None) as ->.
    { destruct sw1 as [t|]; [|reflexivity]. exfalso. rewrite EN2, EN in EN1. lia. }
    destruct (two_reach_inv D x e c None _ Cx He Hr1) as (HI1 & _ & _).
    destruct (two_switch D x c (ls_num s + round_up) HI1 ltac:(lia) ltac:(lia)) as (c2 & E2 & HI2 & _). rewrite E2. cbn [bind].
    assert (Hr2 : two_reach D x c2 (Some (ls_num s + round_up)) (ls_num s + round_up)).
    { apply (reach_switch D x c); [exact Hr1|unfold kSwitchIters; lia|lia|exact E2]. }
    eexists. exists (Some (ls_num s + round_up)). split; [reflexivity|]. cbn [ls_num ls_last ls_published].
    split; [|split; [lia|]; split; [reflexivity|]; split; [reflexivity|discriminate]].
    split; cbn [ls_num ls_f ls_weso ls_last]; [|exact Hr2|exact Hl|lia]. split; [exact P1|exact S1|]. now exists (Some (ls_num s + round_up)).
  - exists s, sw. split; [reflexivity|]. split; [split; assumption|]. split; [lia|]. split; [reflexivity|]. split; [exact Hp|]. intros _. exact Hk.
Qed.

Lemma two_same_switch c c' sw n n' : two_reach D x c sw n -> two_I c' n' -> two_N c' = two_N c -> n <= n' < n + 10001 ->
  match sw with Some t => t <= 91042868 | None => n <= 92000000 end -> two_reach D x c' sw n'.
Proof.
  intros Hr [sw' Hr'] EN Hn Hsw. destruct (two_N_eq _ _ _ Hr) as (E1 & _ & Hs). destruct (two_N_eq _ _ _ Hr') as (E2 & _ & Hs').
  rewrite E1, E2 in EN. destruct sw as [t|], sw' as [t'|]; try (exfalso; lia); [|exact Hr'].
  replace t with t' by lia. exact Hr'.
Qed.

(** What holds between two turns, and when the loop has ended by itself. *)
Definition two_between (iterations : Z) (s : loop_state TwoWesolowskiCallback) : Prop :=
  (exists sw, two_inv_loop s sw) /\ between s /\ ls_last s <= 799532768 /\ 0 <= ls_published s <= ls_num s /\ (iterations = 0 \/ ls_num s <= iterations).
Definition two_final (iterations : Z) (s : loop_state TwoWesolowskiCallback) : Prop :=
  (exists sw, two_inv_loop s sw) /\ ls_num s <= 799542868 /\ ls_published s = ls_num s /\
  (799500000 <= ls_num s \/ iterations <> 0 /\ iterations < ls_num s).

Lemma two_checkpoint_ok s sw : two_inv_loop s sw -> 0 <= ls_published s <= ls_num s -> ls_last s <= 799532768 ->
  ls_last s - 2 ^ 15 <= ls_published s -> ls_num s <= ls_last s + 10000 ->
  exists s' go, (if ls_last s <=? ls_num s then checkpoint_part two_config s else Ok (s, true)) = Ok (s', go) /\
    (exists sw', two_inv_loop s' sw') /\ ls_num s <= ls_num s' < ls_num s + 100 /\ 0 <= ls_published s' <= ls_num s' /\
    if go : bool then between s' /\ ls_last s' <= 799532768 else 799500000 <= ls_num s' /\ ls_published s' = ls_num s'.
Proof.
  intros HT HP HL HB Hn. destruct (Z.leb_spec (ls_last s) (ls_num s)) as [Hc|Hc].
  - unfold checkpoint_part. change (publish two_config s) with (mkloop (ls_f s) (ls_num s) (ls_last s) (ls_weso s) (ls_num s) (ls_events s)).
    change (two_weso two_config) with true. destruct HT as [HA Hr Hl Hsw].
    destruct (two_part_ok (mkloop (ls_f s) (ls_num s) (ls_last s) (ls_weso s) (ls_num s) (ls_events s)) sw) as (s' & sw' & -> & HT' & Hn' & EL & EP & Hnone);
      [split; assumption|cbn [ls_last ls_num]; lia|cbn [ls_num]; lia|reflexivity|]. cbn [ls_num ls_last] in Hn', EL. cbn [bind].
    destruct (Z.leb_spec 799500000 (ls_num s')) as [Hbig|Hbig]; cbn [negb].
    + exists s', false. split; [reflexivity|]. split; [now exists sw'|]. split; [lia|]. split; [lia|]. split; assumption.
    + eexists. exists true. split; [reflexivity|]. cbn [ls_num ls_published ls_last]. rewrite u64_id by lia. destruct HT' as [HA' Hr' Hl' Hsw'].
      split; [exists sw'; split; cbn [ls_num ls_f ls_weso ls_last]; [exact HA'|exact Hr'|lia|destruct sw'; [exact Hsw'|specialize (Hnone eq_refl); lia]]|]. clear Hsw.
      split; [lia|]. split; [lia|]. unfold between. cbn [ls_num ls_published ls_last]. lia.
  - exists s, true. split; [reflexivity|]. split; [now exists sw|]. split; [lia|]. split; [lia|]. unfold between. lia.
Qed.

Lemma two_turn_ok {Sq : Squarer TwoWesolowskiCallback} {SL : SquarerLaws Sq D x two_I two_N} iterations s : 0 <= iterations -> two_between iterations s ->
  exists s' go, main_turn two_config iterations s = Ok (s', go) /\
    if go : bool then two_between iterations s' /\ ls_num s < ls_num s' else two_final iterations s'.
Proof.
  intros Hit ([sw HT] & [HB1 HB2] & Hlast & HP & Hle). pose proof HT as [HA Hr Hl Hsw]. destruct (two_N_eq _ _ _ Hr) as (EN & _ & Hs).
  assert (Hroom : ls_num s + 10000 <= two_N (ls_weso s)) by (rewrite EN; destruct sw; lia). unfold main_turn.
  assert (Hn0 : 0 <= ls_num s) by lia.
  destruct (squarings_ok D x Cx HD two_I two_N _ _ _ Hn0 HA Hroom) as (f' & c' & a & -> & Ha & HA' & EN'). cbn [bind]. rewrite (u64_id (ls_num s + a)) by lia.
  assert (Hr' : two_reach D x c' sw (ls_num s + a)).
  { apply (two_same_switch (ls_weso s) c' sw (ls_num s)); [exact Hr|apply HA'|exact EN'|lia|destruct sw; lia]. }
  destruct (two_checkpoint_ok (mkloop f' (ls_num s + a) (ls_last s) c' (ls_published s) (ls_events s)) sw) as (s2 & go & -> & HT2 & Hn2 & HP2 & Hgo);
    [split; cbn [ls_num ls_f ls_weso ls_last]; [assumption|assumption|assumption|destruct sw; lia]|cbn [ls_num ls_published]; lia|exact Hlast|exact HB1|cbn [ls_num ls_last]; lia|].
  cbn [bind]. cbn [ls_num] in Hn2. destruct go; cbn [negb].
  2:{ exists s2, false. split; [reflexivity|]. split; [exact HT2|]. split; [lia|]. split; [apply Hgo|]. left. apply Hgo. }
  destruct Hgo as [HB2' HL2]. destruct (Z.eqb_spec iterations 0) as [E0|E0]; cbn [negb andb]; [|destruct (Z.ltb_spec iterations (ls_num s2)) as [Hi|Hi]].
  - exists s2, true. split; [reflexivity|]. split; [|lia]. split; [exact HT2|]. split; [exact HB2'|]. split; [exact HL2|]. split; [exact HP2|now left].
  - eexists. exists false. split; [reflexivity|]. destruct HT2 as [sw2 [A1 A2 A3 A4]]. split; [exists sw2; split; assumption|]. cbn [ls_num ls_published].
    split; [unfold between in HB2'; lia|]. split; [reflexivity|]. right. split; assumption.
  - exists s2, true. split; [reflexivity|]. split; [|lia]. split; [exact HT2|]. split; [exact HB2'|]. split; [exact HL2|]. split; [exact HP2|now right].
Qed.

Lemma two_loop_runs {Sq : Squarer TwoWesolowskiCallback} {SL : SquarerLaws Sq D x two_I two_N} iterations fuel stopped garbage c :
  0 <= iterations -> fa x < - D -> TwoWesolowskiCallback_make garbage x = Ok c -> 799532768 < Z.of_nat fuel ->
  exists s, repeated_square fuel stopped two_config iterations x c = Ok s /\
    (two_final iterations s \/ two_between iterations s /\ exists t, stopped t = true).
Proof.
  intros Hit Hx Ec HF. unfold repeated_square. apply (main_loop_runs two_config iterations (two_between iterations) (two_final iterations) 799532768).
  - intros s (_ & [_ H] & HL & _). lia.
  - intros s. now apply two_turn_ok.
  - split; [|unfold between; cbn [ls_num ls_published ls_last]; repeat split; try lia]. exists None. pose proof (reach_init D x garbage c Ec) as Hr.
    split; cbn [ls_num ls_f ls_weso ls_last]; [|exact Hr|lia|lia]. split; [|exact Hx|now exists None]. change (2 ^ 0) with 1. now apply (pw_1 D x Cx e).
  - cbn [ls_num]. lia.
Qed.
End TwoWeso.

Lemma two_switch_point {R : FormReducer} D x c sw n : two_reach D x c sw n ->
  match sw with Some t => 91000000 <= t /\ t mod 100 = 0 | None => True end.
Proof. induction 1 as [| |c n c' _ _ Hn Hm _]; [exact Logic.I|assumption|]. unfold kSwitchIters in Hn. lia. Qed.

(** ** The theorems *)

(** C3: the main loop computes the VDF. For a prime
    discriminant, any callback and any squaring pipeline that satisfy their
    interfaces (the pipeline may stop early or report corruption on any batch),
    and any moments at which [stopped] is read, the loop never fails and
    [iterations + 1] turns are enough. The form it ends with is in the class of
    [x^(2^num_iterations)], the callback has seen exactly these iterations, the
    published count is at most [2^15] behind, and the [k] checkpoints up to
    there have been notified in order, each with the form of its own iteration.
    When nobody stops it, it ends within one batch past [iterations], and
    publishes the count. *)
Theorem repeated_square_correct {G : Gmp} {GL : GmpLaws G} {R : FormReducer} {RL : FormReducerLaws R} {C : Type} {L : Listener C}
  D x e (I : C -> Z -> Prop) (N : C -> Z) {LL : ListenerLaws L D x I N} {Sq : Squarer C} {SL : SquarerLaws Sq D x I N} cfg c iterations fuel stopped :
  class D x -> principal D e -> Z.prime (- D) -> fa x < - D -> two_weso cfg = false -> y_ret_law D x I cfg -> I c 0 ->
  0 < iterations -> iterations + 10000 <= N c -> iterations < Z.of_nat fuel ->
  exists s k, repeated_square fuel stopped cfg iterations x c = Ok s /\
    pw D x (2 ^ ls_num s) (ls_f s) /\ I (ls_weso s) (ls_num s) /\ ls_num s <= iterations + 10000 /\
    0 <= ls_published s <= ls_num s /\ ls_num s <= ls_published s + 2 ^ 15 /\
    events_ok D x cfg k (ls_events s) /\ ls_num s <= 2 ^ 15 * Z.of_nat k <= ls_num s + 2 ^ 15 /\
    ((forall t, stopped t = false) -> iterations < ls_num s /\ ls_published s = ls_num s).
Proof.
  intros Cx He HD Hx H2 HY HI Hit HN HF.
  destruct (repeated_square_runs D x Cx HD I N cfg e c iterations fuel stopped H2 HY He Hx HI Hit HN HF) as (s & k & E & [[P _ HI'] HL HP HE] & [HB1 HB2] & Hn & Hend).
  exists s, k. split; [exact E|]. split; [exact P|]. split; [exact HI'|]. split; [exact Hn|]. split; [exact HP|]. split; [lia|].
  split; [exact HE|]. split; [lia|exact Hend].
Qed.

(** C26: with the 2-Wesolowski callback the main loop stays
    inside its array: whatever the number of iterations asked (0 for no limit),
    no iteration meets the "out of bounds" exception, the constants are
    increased once, at a multiple of 100 between 91,000,000 and 91,042,868, and
    the loop ends by itself before iteration 799,542,869, having published its
    last iteration, unless it is stopped. *)
Theorem two_weso_loop_safe {G : Gmp} {GL : GmpLaws G} {R : FormReducer} {RL : FormReducerLaws R}
  D x e {Sq : Squarer TwoWesolowskiCallback} {SL : SquarerLaws Sq D x (two_I D x) two_N} garbage c iterations fuel stopped :
  class D x -> principal D e -> Z.prime (- D) -> fa x < - D -> TwoWesolowskiCallback_make garbage x = Ok c ->
  0 <= iterations -> 799532768 < Z.of_nat fuel ->
  exists s sw, repeated_square fuel stopped two_config iterations x c = Ok s /\
    pw D x (2 ^ ls_num s) (ls_f s) /\ two_reach D x (ls_weso s) sw (ls_num s) /\ ls_num s <= 799542868 /\
    match sw with Some t => 91000000 <= t <= 91042868 /\ t mod 100 = 0 | None => ls_num s <= 91042868 end /\
    0 <= ls_published s <= ls_num s /\
    ((forall t, stopped t = false) -> ls_published s = ls_num s /\
       (799500000 <= ls_num s \/ iterations <> 0 /\ iterations < ls_num s)).
Proof.
  intros Cx He HD Hx Ec Hit HF. destruct (two_loop_runs D x e Cx He HD iterations fuel stopped garbage c Hit Hx Ec HF) as (s & E & Hs).
  exists s. destruct Hs as [([sw HT] & Hn & Hp & Hor)|[([sw HT] & [HB1 HB2] & HL & HP & _) [t Ht]]]; exists sw; (split; [exact E|]);
    pose proof HT as [HA Hr Hl Hsw]; (split; [apply HA|]); (split; [exact Hr|]); (split; [lia|]);
    (split; [destruct sw as [u|]; [|lia]; destruct (two_switch_point D x _ _ _ Hr); lia|]).
  - split; [lia|]. intros _. split; assumption.
  - split; [exact HP|]. intros Hno. rewrite Hno in Ht. discriminate.
Qed.

(** ** Witnesses: the discriminant -47 *)

Lemma prime_47 : Z.prime (- -47).
Proof. apply trial_division_prime. vm_compute. reflexivity. Qed.

Definition one_config : config OneWesolowskiCallback := mkconfig false false false o_result (fun _ => true) (fun c _ => Ok c).

Definition one_47 : OneWesolowskiCallback := mkOne (set_at (fun _ => mkform 2 1 6) 0 (mkform 2 1 6)) 100 1 10 form_zero.

Lemma one_47_inv : one_I (-47) (mkform 2 1 6) 1 10 100 one_47 0.
Proof.
  destruct (one_init (-47) (mkform 2 1 6) class_form_47 (fun _ => Throw overflow_error) (fun _ => mkform 2 1 6) 1 1 10 _ principal_47
    ltac:(lia) eq_refl ltac:(lia)) as (c & Ec & HI & _). injection Ec as <-. split; [exact HI|]. split; [lia|]. split; reflexivity.
Qed.

Lemma repeated_square_correct_witness :
  let D := -47 in let x := mkform 2 1 6 in let I := one_I D x 1 10 100 in
  exists s k, repeated_square (G := Ref.gmp) (Sq := slow_squarer (G := Ref.gmp) (L := One_listener (R := vdf_new_reducer))) 2 (fun _ => false) one_config 1 x one_47 = Ok s /\
    pw D x (2 ^ ls_num s) (ls_f s) /\ I (ls_weso s) (ls_num s) /\ ls_num s <= 1 + 10000 /\
    0 <= ls_published s <= ls_num s /\ ls_num s <= ls_published s + 2 ^ 15 /\
    events_ok D x one_config k (ls_events s) /\ ls_num s <= 2 ^ 15 * Z.of_nat k <= ls_num s + 2 ^ 15 /\
    ((forall t : nat, false = false) -> 1 < ls_num s /\ ls_published s = ls_num s).
Proof.
  intros D x I.
  pose proof (One_laws (RL := vdf_new_reducer_laws) D x class_form_47 1 10 100 ltac:(lia)) as LL.
  pose proof (slow_squarer_laws (GL := Ref.laws) D x class_form_47 prime_47 I (fun _ => 2 ^ 63 - 1)) as SL.
  apply (repeated_square_correct (GL := Ref.laws) (RL := vdf_new_reducer_laws) (SL := SL) D x (mkform 1 1 12) I (fun _ => 2 ^ 63 - 1) one_config one_47 1 2 (fun _ => false)
    class_form_47 principal_47 prime_47 ltac:(reflexivity) eq_refl ltac:(discriminate) one_47_inv ltac:(lia) ltac:(cbv beta; lia) ltac:(lia)).
Defined.

Lemma two_weso_loop_safe_witness :
  let D := -47 in let x := mkform 2 1 6 in let fuel := Z.to_nat 799532769 in
  exists s sw, repeated_square (G := Ref.gmp) (Sq := slow_squarer (G := Ref.gmp) (L := Two_listener (R := vdf_new_reducer)))
      fuel (fun _ => false) two_config 0 x two_47 = Ok s /\
    pw D x (2 ^ ls_num s) (ls_f s) /\ two_reach (R := vdf_new_reducer) D x (ls_weso s) sw (ls_num s) /\ ls_num s <= 799542868 /\
    match sw with Some t => 91000000 <= t <= 91042868 /\ t mod 100 = 0 | None => ls_num s <= 91042868 end /\
    0 <= ls_published s <= ls_num s /\
    ((forall t : nat, false = false) -> ls_published s = ls_num s /\
       (799500000 <= ls_num s \/ 0 <> 0 /\ 0 < ls_num s)).
Proof.
  intros D x fuel.
  pose proof (Two_laws (RL := vdf_new_reducer_laws) D x (mkform 1 1 12) class_form_47 principal_47) as LL.
  pose proof (slow_squarer_laws (GL := Ref.laws) D x class_form_47 prime_47 (two_I D x) two_N) as SL.
  assert (HF : 799532768 < Z.of_nat fuel) by (unfold fuel; rewrite Z2Nat.id; lia). clearbody fuel.
  apply (two_weso_loop_safe (GL := Ref.laws) (RL := vdf_new_reducer_laws) (SL := SL) D x (mkform 1 1 12) (fun _ => form_zero) two_47 0 fuel (fun _ => false)
    class_form_47 principal_47 prime_47 ltac:(reflexivity) eq_refl ltac:(lia) HF).
Defined.
