(* ===== verification/Storage.v ===== *)
(** [src/src/fast_storage.h]: on a machine with many processors the main loop stores only one form
    in 2^15 iterations, and the threads of [FastStorage] redo the squarings between two of them to
    store the intermediates that the provers read. *)
From S2P Require Import Prelude Words NumTheory Gmp QuadForm FormClass Integer Forms Nucomp Bqfc PrimeTest HashPrime ProofCommon Powers Verifier Callback Vdf.

Definition intermediates_threads : nat := 6.

(** A thread in [CalculateIntermediatesInner]: [iter_begin], [iteration] and [y]. *)
Record job : Type := mkjob { iter_begin : Z; iteration : Z; job_y : form }.

(** [pending_intermediates] is sorted, and has no form for a thread that waits. *)
Record FastStorage : Type := mkstorage {
  weso : FastAlgorithmCallback;
  intermediates_stored : Z -> bool;      (* 1 << 19 of them *)
  pending_intermediates : list (Z * form);
  stopped : bool;
  intermediates_iter : Z;
  storage_threads : list (option job);
  new_event : bool;
}.

Definition FastStorage_make (c : FastAlgorithmCallback) : FastStorage :=
  mkstorage c (fun _ => false) [] false 0 (repeat None intermediates_threads) false.

Definition with_thread (s : FastStorage) (k : nat) (j : option job) : FastStorage :=
  mkstorage (weso s) (intermediates_stored s) (pending_intermediates s) (stopped s) (intermediates_iter s)
    (firstn k (storage_threads s) ++ j :: skipn (S k) (storage_threads s)) (new_event s).

Definition thread_at (s : FastStorage) (k : nat) : option job := nth k (storage_threads s) None.

(** [bool intermediates_stored[1 << 19]] *)
Definition stored_at (s : FastStorage) (i : Z) : res bool := require (0 <=? i) && (i <? 2 ^ 19) else undefined_behaviour ;; Ok (intermediates_stored s i).

Definition AddIntermediates (s : FastStorage) (iter : Z) : res FastStorage :=
  let bucket := s32 (Z.quot iter (2 ^ 16)) in
  let subbucket := if Z.rem iter (2 ^ 16) =? 0 then 0 else 1 in
  let i := 2 * bucket + subbucket in
  _ <- stored_at s i ;;
  let flags := fun j => if j =? i then true else intermediates_stored s j in
  let has_event := flags (2 * bucket) && flags (2 * bucket + 1) in
  Ok (mkstorage (weso s) flags (pending_intermediates s) (stopped s) (intermediates_iter s) (storage_threads s) (new_event s || has_event)).

Section Storage.
Context `{G : Gmp} `{R : FormReducer}.
Variables D L : Z.

(** The loop over the buckets; nothing if the storage is stopped where a form would be stored. *)
Fixpoint store_intermediates (n : nat) (i : Z) (stopped : bool) (c : FastAlgorithmCallback) (y : form) (iteration : Z) : res (option FastAlgorithmCallback) :=
  match n with
  | O => Ok (Some c)
  | S n' =>
      p <- power_2 i ;;
      kl <- stride i ;;
      if Z.rem (Z.rem iteration p) kl =? 0 then
        if stopped then Ok None
        else
          pos <- GetForm c iteration i ;;
          f <- SetForm (NL_FORM y) (f_forms c pos) false ;;
          store_intermediates n' (i + 1) stopped (with_forms c (set_at (f_forms c) pos f)) y iteration
      else store_intermediates n' (i + 1) stopped c y iteration
  end.

(** One iteration of [CalculateIntermediatesInner], or what comes after the last one. *)
Definition CalculateIntermediates_step (s : FastStorage) (k : nat) (j : job) : res FastStorage :=
  if iteration j <? iter_begin j + 2 ^ 15 then
    c <- store_intermediates (Z.to_nat (f_segments (weso s))) 0 (stopped s) (weso s) (job_y j) (iteration j) ;;
    match c with
    | None => Ok (with_thread s k None)
    | Some c =>
        y <- nudupl_form (job_y j) D L ;;
        y <- reducer_reduce y ;;
        Ok (with_thread (mkstorage c (intermediates_stored s) (pending_intermediates s) (stopped s) (intermediates_iter s) (storage_threads s) (new_event s))
              k (Some (mkjob (iter_begin j) (iteration j + 1) y)))
    end
  else
    s <- AddIntermediates s (iter_begin j) ;; Ok (with_thread s k None).

(** [pending_intermediates[iteration] = y_ret] *)
Fixpoint map_set (m : list (Z * form)) (i : Z) (y : form) : list (Z * form) :=
  match m with
  | [] => [(i, y)]
  | (i', y') :: m' => if i <? i' then (i, y) :: m else if i =? i' then (i, y) :: m' else (i', y') :: map_set m' i y
  end.

Definition SubmitCheckpoint (s : FastStorage) (y_ret : form) (iteration : Z) : FastStorage :=
  mkstorage (weso s) (intermediates_stored s) (map_set (pending_intermediates s) iteration y_ret) (stopped s) (intermediates_iter s) (storage_threads s) (new_event s).

(** A thread that waits in [CalculateIntermediatesThread] takes the first pending form. *)
Definition take (s : FastStorage) (k : nat) : FastStorage :=
  match pending_intermediates s with
  | (i, y) :: m =>
      if stopped s then s
      else with_thread (mkstorage (weso s) (intermediates_stored s) m (stopped s) (intermediates_iter s) (storage_threads s) (new_event s)) k (Some (mkjob i i y))
  | [] => s
  end.

(** The segments that can be passed: less than there are. *)
Definition finished_fuel : nat := Z.to_nat (2 ^ 18).

Fixpoint finished_loop (fuel : nat) (s : FastStorage) (iter : Z) : res Z :=
  let i := 2 * Z.quot iter (2 ^ 16) in
  a <- stored_at s i ;;
  b <- (if a : bool then stored_at s (i + 1) else Ok false) ;;
  if b : bool then match fuel with O => Throw out_of_fuel | S fuel => finished_loop fuel s (u64 (iter + 2 ^ 16)) end
  else Ok iter.

Definition GetFinishedSegment (s : FastStorage) : res (Z * FastStorage) :=
  iter <- finished_loop finished_fuel s (intermediates_iter s) ;;
  Ok (iter, mkstorage (weso s) (intermediates_stored s) (pending_intermediates s) (stopped s) iter (storage_threads s) (new_event s)).

(** ** Executions: the threads, the main loop and the event loop interleave *)

Inductive event : Type :=
| Submit (y_ret : form) (iteration : Z)     (* the main loop *)
| Run (k : nat)                             (* thread k: it takes a form, or goes on with its own *)
| Query                                     (* the event loop: GetFinishedSegment *)
| Stop.                                     (* the destructor *)

Definition storage_step (s : FastStorage) (ev : event) : res FastStorage :=
  match ev with
  | Submit y i => Ok (SubmitCheckpoint s y i)
  | Run k =>
      if (k <? intermediates_threads)%nat then match thread_at s k with Some j => CalculateIntermediates_step s k j | None => Ok (take s k) end
      else Ok s
  | Query => ' (_, s) <- GetFinishedSegment s ;; Ok s
  | Stop => Ok (mkstorage (weso s) (intermediates_stored s) (pending_intermediates s) true (intermediates_iter s) (storage_threads s) (new_event s))
  end.

Fixpoint storage_run (evs : list event) (s : FastStorage) : res FastStorage :=
  match evs with
  | [] => Ok s
  | ev :: evs => s <- storage_step s ev ;; storage_run evs s
  end.

(** The iterations that some thread has taken are below the result. *)
Definition taken (high : Z) (s : FastStorage) : Z :=
  fold_left (fun h j => match j with Some j => Z.max h (iter_begin j + 2 ^ 15) | None => h end) (storage_threads s) high.

(** No thread is more than the window of the callback behind the first one: its slots are those of later iterations then. *)
Definition in_window (high : Z) (s : FastStorage) : bool :=
  forallb (fun j => match j with Some j => (high - 1) / 2 ^ 16 - iteration j / 2 ^ 16 <? kWindowSize | None => true end) (storage_threads s).

Fixpoint timely (evs : list event) (high : Z) (s : FastStorage) : bool :=
  let high := taken high s in
  in_window high s &&
  match evs with
  | [] => true
  | ev :: evs => match storage_step s ev with Ok s => timely evs high s | Throw _ => true end
  end.

(** What the threads have taken at the end. *)
Fixpoint furthest (evs : list event) (high : Z) (s : FastStorage) : Z :=
  let high := taken high s in
  match evs with
  | [] => high
  | ev :: evs => match storage_step s ev with Ok s => furthest evs high s | Throw _ => high end
  end.
End Storage.

(** ** What is stored *)

Section Stored.
Context `{GL : GmpLaws} `{RL : FormReducerLaws}.
Variables D L : Z.
Hypothesis HL : 0 <= L.
Variable x : form.
Hypothesis Cx : class D x.
Variable segments : Z.
Hypothesis Hseg : 1 <= segments <= 15.

Abbreviation pw := (pw D x).

(** The checkpoints that the main loop submits. *)
Definition half_start (i : Z) : Prop := 0 <= i /\ i mod 2 ^ 15 = 0 /\ i + 2 ^ 15 < 2 ^ 34.

(** The iterations whose forms are stored. *)
Definition done (s : FastStorage) (e : Z) : Prop :=
  0 <= e /\ (intermediates_stored s (e / 2 ^ 15) = true \/ exists k j, thread_at s k = Some j /\ iter_begin j <= e < iteration j).

Definition right_forms (high : Z) (s : FastStorage) : Prop := forall e b, done s e -> 0 <= b < segments -> grid b e -> (high - 1) / P2 b - e / P2 b < 20 ->
  pw (2 ^ e) (f_forms (weso s) (slot b e)).

Record storage_ok (high : Z) (s : FastStorage) : Prop := {
  so_segments : f_segments (weso s) = segments;
  so_begins : f_buckets_begin (weso s) = begins segments;
  so_capacity : f_capacity (weso s) = forms_total segments;
  so_threads : length (storage_threads s) = intermediates_threads;
  so_pending : Forall (fun '(i, y) => half_start i /\ pw (2 ^ i) y) (pending_intermediates s);
  so_jobs : forall k j, thread_at s k = Some j -> half_start (iter_begin j) /\ iter_begin j <= iteration j <= iter_begin j + 2 ^ 15 /\ pw (2 ^ iteration j) (job_y j) /\ iter_begin j + 2 ^ 15 <= high;
  so_flags : forall h, intermediates_stored s h = true -> half_start (2 ^ 15 * h) /\ 2 ^ 15 * (h + 1) <= high;
  so_forms : right_forms high s;
  so_iter : 0 <= intermediates_iter s /\ intermediates_iter s mod 2 ^ 16 = 0 /\ forall h, 0 <= h < intermediates_iter s / 2 ^ 15 -> intermediates_stored s h = true;
}.

Lemma storage_ok_mono high high' s : storage_ok high s -> high <= high' -> storage_ok high' s.
Proof.
  intros [H1 H2 H3 H4 H5 H6 H7 H8 H9] H. split; try assumption.
  - intros k j E. destruct (H6 k j E) as (A & B & C & E'). repeat (split; [assumption|]). lia.
  - intros h E. destruct (H7 h E). split; [assumption|lia].
  - intros e b Hd Hb Gr W. apply H8; try assumption. pose proof (Z.div_le_mono (high - 1) (high' - 1) (P2 b) (P2_pos b ltac:(lia)) ltac:(lia)). lia.
Qed.

Lemma nth_upd {A} (l : list A) k a d i : (k < length l)%nat -> nth i (firstn k l ++ a :: skipn (S k) l) d = if (i =? k)%nat then a else nth i l d.
Proof.
  intros Hk. pose proof (firstn_skipn k l) as E. destruct (Nat.eqb_spec i k) as [->|Hn].
  - rewrite app_nth2; rewrite length_firstn, Nat.min_l by lia; [|lia]. now rewrite Nat.sub_diag.
  - destruct (Nat.lt_ge_cases i k) as [Hlt|Hge].
    + rewrite app_nth1 by (rewrite length_firstn; lia). rewrite nth_firstn. destruct (Nat.ltb_spec i k); [reflexivity|lia].
    + rewrite app_nth2; rewrite length_firstn, Nat.min_l by lia; [|lia]. replace (i - k)%nat with (S (i - S k)) by lia. cbn [nth]. rewrite nth_skipn. f_equal. lia.
Qed.

Lemma thread_at_with s k j i : (k < length (storage_threads s))%nat -> thread_at (with_thread s k j) i = if (i =? k)%nat then j else thread_at s i.
Proof. intros Hk. unfold thread_at, with_thread. cbn [storage_threads]. now apply nth_upd. Qed.

Lemma length_with s k j : (k < length (storage_threads s))%nat -> length (storage_threads (with_thread s k j)) = length (storage_threads s).
Proof. intros Hk. unfold with_thread. cbn [storage_threads]. rewrite length_app. cbn [length]. rewrite length_firstn, length_skipn. lia. Qed.

Lemma taken_ge l : forall h, h <= fold_left (fun h j => match j with Some j => Z.max h (iter_begin j + 2 ^ 15) | None => h end) l h /\
  forall k j, nth k l None = Some j -> iter_begin j + 2 ^ 15 <= fold_left (fun h j => match j with Some j => Z.max h (iter_begin j + 2 ^ 15) | None => h end) l h.
Proof.
  induction l as [|[j0|] l IH]; intros h; cbn [fold_left].
  - split; [lia|]. now intros [|k] j.
  - destruct (IH (Z.max h (iter_begin j0 + 2 ^ 15))) as [H1 H2]. split; [lia|]. intros [|k] j E; cbn [nth] in E; [injection E as ->; lia|now apply (H2 k)].
  - destruct (IH h) as [H1 H2]. split; [lia|]. intros [|k] j E; cbn [nth] in E; [discriminate|now apply (H2 k)].
Qed.

(** The loop over the buckets stores the form in the slots of its iteration and in no other. *)
Lemma store_intermediates_ok st y e n : 0 <= e -> forall i c, 0 <= i -> i + Z.of_nat n = segments -> f_buckets_begin c = begins segments -> f_capacity c = forms_total segments ->
  exists r, store_intermediates n i st c y e = Ok r /\
    match r with
    | None => st = true
    | Some c' => exists forms, c' = with_forms c forms /\ (forall b, i <= b < segments -> grid b e -> forms (slot b e) = y) /\
        (forall p, (forall b, i <= b < segments -> grid b e -> p <> slot b e) -> forms p = f_forms c p)
    end.
Proof.
  intros He. induction n as [|n IH]; intros i c Hi Hn Hb Hc; cbn [store_intermediates].
  { eexists. split; [reflexivity|]. exists (f_forms c). split; [now destruct c|]. split; [lia|reflexivity]. }
  rewrite (power_2_ok segments Hseg), (stride_ok segments Hseg) by lia. cbn [bind]. pose proof (P2_pos i Hi) as HP. pose proof (kl_of_pos i Hi) as HK. pose proof (Z.mod_pos_bound e _ HP).
  rewrite (Z.rem_mod_nonneg e) by lia. rewrite Z.rem_mod_nonneg by lia. destruct (Z.eqb_spec ((e mod P2 i) mod kl_of i) 0) as [Hg|Hg].
  - destruct st; [now exists None|]. rewrite (proj2 (GetPosition_ok segments Hseg c i e Hb Hc ltac:(lia) He)). cbn [bind SetForm].
    destruct (IH (i + 1) (with_forms c (set_at (f_forms c) (slot i e) y)) ltac:(lia) ltac:(lia) Hb Hc) as ([c'|] & -> & Hr); [|now exists None].
    destruct Hr as (forms & -> & H1 & H2). eexists. split; [reflexivity|]. exists forms. split; [now destruct c|]. split.
    + intros b Hbi Gr. destruct (Z.eq_dec b i) as [->|]; [|apply H1; [lia|exact Gr]]. rewrite H2; [apply set_at_eq|].
      intros b' Hb' Gr'. apply (slot_disjoint segments Hseg); lia.
    + intros p Hp. rewrite H2 by (intros b Hbi; apply Hp; lia). cbn [with_forms f_forms]. apply set_at_neq. apply Hp; [lia|exact Hg].
  - destruct (IH (i + 1) c ltac:(lia) ltac:(lia) Hb Hc) as ([c'|] & -> & Hr); [|now exists None]. destruct Hr as (forms & -> & H1 & H2). eexists. split; [reflexivity|]. exists forms. split; [reflexivity|]. split.
    + intros b Hbi Gr. destruct (Z.eq_dec b i) as [->|]; [now destruct Hg|]. apply H1; [lia|exact Gr].
    + intros p Hp. apply H2. intros b Hbi. apply Hp. lia.
Qed.

(** The window of the smallest bucket is inside those of the others. *)
Lemma window_bucket high e b : 0 <= e -> 0 <= b -> (high - 1) / 2 ^ 16 - e / 2 ^ 16 < 20 -> (high - 1) / P2 b - e / P2 b < 20.
Proof.
  intros He Hb HW. assert (E : forall y, y / P2 b = y / 2 ^ 16 / 2 ^ (2 * b)) by (intros y; unfold P2; rewrite Z.pow_add_r, Z.div_div by lia; reflexivity).
  rewrite !E. set (u := (high - 1) / 2 ^ 16) in *. set (v := e / 2 ^ 16) in *. pose proof (Z.pow_pos_nonneg 2 (2 * b) ltac:(lia) ltac:(lia)) as HP. set (p := 2 ^ (2 * b)) in *.
  pose proof (Z.div_le_mono u (v + 19 * p) p HP ltac:(nia)) as H. rewrite Z.div_add in H by lia. lia.
Qed.

Lemma in_window_at high s k j : in_window high s = true -> thread_at s k = Some j -> (high - 1) / 2 ^ 16 - iteration j / 2 ^ 16 < 20.
Proof.
  unfold in_window, thread_at. intros HW E. rewrite forallb_forall in HW. assert (Hin : In (Some j) (storage_threads s)).
  { rewrite <- E. apply nth_In. destruct (Nat.lt_ge_cases k (length (storage_threads s))) as [|Hge]; [assumption|]. rewrite nth_overflow in E by exact Hge. discriminate. }
  specialize (HW _ Hin). cbn in HW. apply Z.ltb_lt in HW. exact HW.
Qed.

Lemma in_window_all high s : (forall k j, thread_at s k = Some j -> (high - 1) / 2 ^ 16 - iteration j / 2 ^ 16 < 20) -> in_window high s = true.
Proof.
  intros H. unfold in_window. rewrite forallb_forall. intros [j|] Hin; [|reflexivity]. apply In_nth with (d := None) in Hin as (k & _ & E). apply Z.ltb_lt. now apply (H k).
Qed.

Lemma thread_lt s k j : thread_at s k = Some j -> (k < length (storage_threads s))%nat.
Proof. unfold thread_at. intros E. destruct (Nat.lt_ge_cases k (length (storage_threads s))) as [|Hge]; [assumption|]. rewrite nth_overflow in E by exact Hge. discriminate. Qed.

(** A thread that gives up, or has nothing to do. *)
Lemma idle_ok high s k : storage_ok high s -> (k < length (storage_threads s))%nat -> storage_ok high (with_thread s k None).
Proof.
  intros [H1 H2 H3 H4 H5 H6 H7 H8 H9] Hk. split; try assumption.
  - now rewrite length_with.
  - intros i j E. rewrite thread_at_with in E by exact Hk. destruct (i =? k)%nat; [discriminate|now apply (H6 i)].
  - intros e b (He & [Hf|(i & j & E & Hj)]) Hb Gr W; apply H8; try assumption; (split; [exact He|]); [now left|right]. rewrite thread_at_with in E by exact Hk. destruct (i =? k)%nat; [discriminate|now exists i, j].
Qed.

(** What is stored is below the limit. *)
Lemma done_below high s e : storage_ok high s -> done s e -> e < high.
Proof.
  intros HO (He & [Hf|(k & j & E & Hj)]).
  - destruct (so_flags _ _ HO _ Hf) as [_ H]. pose proof (Z.mul_succ_div_gt e (2 ^ 15) ltac:(lia)). lia.
  - destruct (so_jobs _ _ HO k j E) as (_ & H & _ & H'). lia.
Qed.

(** The form of one more iteration is stored. *)
Lemma stored_more high s e forms y : storage_ok high s -> 0 <= e < high -> (high - 1) / 2 ^ 16 - e / 2 ^ 16 < 20 -> pw (2 ^ e) y ->
  (forall b, 0 <= b < segments -> grid b e -> forms (slot b e) = y) -> (forall p, (forall b, 0 <= b < segments -> grid b e -> p <> slot b e) -> forms p = f_forms (weso s) p) ->
  forall e' b, e' = e \/ done s e' -> 0 <= b < segments -> grid b e' -> (high - 1) / P2 b - e' / P2 b < 20 -> pw (2 ^ e') (forms (slot b e')).
Proof.
  intros HO He HW Py F1 F2 e' b [->|Hd] Hb Gr W; [now rewrite F1|]. destruct (Z.eq_dec e' e) as [->|Hne]; [now rewrite F1|].
  pose proof (done_below _ _ _ HO Hd) as Hlt. pose proof Hd as [He' _]. rewrite F2; [now apply (so_forms _ _ HO)|]. intros b' Hb' Gr'.
  destruct (Z.eq_dec b b') as [<-|]; [|apply (slot_disjoint segments Hseg); lia]. intros Es. apply Hne.
  apply (slot_inj b e' e); try lia; try assumption. pose proof (window_bucket high e b ltac:(lia) ltac:(lia) HW). pose proof (P2_pos b ltac:(lia)) as HP.
  pose proof (Z.div_le_mono e (high - 1) (P2 b) HP ltac:(lia)). pose proof (Z.div_le_mono e' (high - 1) (P2 b) HP ltac:(lia)). lia.
Qed.

(** An iteration of a thread. *)
Lemma iteration_ok high s k j : storage_ok high s -> in_window high s = true -> thread_at s k = Some j -> iteration j < iter_begin j + 2 ^ 15 ->
  exists s', CalculateIntermediates_step D L s k j = Ok s' /\ storage_ok high s' /\
    (stopped s = false -> stopped s' = false /\ storage_threads s' = storage_threads (with_thread s k (thread_at s' k)) /\
       exists j', thread_at s' k = Some j' /\ iter_begin j' = iter_begin j /\ iteration j' = iteration j + 1).
Proof.
  intros HO HW E Hlt. pose proof (thread_lt s k j E) as Hk. pose proof (in_window_at high s k j HW E) as Hwin. pose proof HO as [H1 H2 H3 H4 H5 H6 H7 H8 H9].
  destruct (H6 k j E) as ((Hb0 & Hbm & Hb1) & Hit & HP & Hh). unfold CalculateIntermediates_step. destruct (Z.ltb_spec (iteration j) (iter_begin j + 2 ^ 15)); [|lia].
  destruct (store_intermediates_ok (stopped s) (job_y j) (iteration j) (Z.to_nat (f_segments (weso s))) ltac:(lia) 0 (weso s) ltac:(lia) ltac:(rewrite H1; lia) H2 H3) as ([c'|] & -> & Hr); cbn [bind].
  2: { eexists. split; [reflexivity|]. split; [now apply idle_ok|congruence]. }
  destruct Hr as (forms & -> & F1 & F2). destruct (pw_nudupl D L HL x Cx _ _ HP) as (z & -> & Pz). cbn [bind]. destruct (pw_reduce D x Cx _ _ Pz) as (z' & -> & Pz'). cbn [bind].
  set (s1 := mkstorage _ _ _ _ _ _ _). set (j1 := mkjob _ _ _). assert (Hk1 : (k < length (storage_threads s1))%nat) by exact Hk.
  assert (T : forall i, thread_at (with_thread s1 k (Some j1)) i = if (i =? k)%nat then Some j1 else thread_at s i) by exact (fun i => thread_at_with s1 k (Some j1) i Hk1).
  eexists. split; [reflexivity|]. split.
  - split; try assumption.
    + rewrite (length_with s1) by exact Hk1. exact H4.
    + intros i j' Ei. rewrite T in Ei. destruct (i =? k)%nat; [|now apply (H6 i)]. injection Ei as <-. cbn [iter_begin iteration job_y j1].
      split; [now split|]. split; [lia|]. split; [|exact Hh]. rewrite Z.pow_add_r, Z.mul_comm by lia. exact Pz'.
    + intros e b Hd Hb Gr W. cbn [weso with_thread s1 with_forms f_forms]. apply (stored_more high s (iteration j) forms (job_y j)); try assumption; try lia.
      destruct Hd as (He & [Hf|(i & j' & Ei & Hj)]); [right; split; [exact He|now left]|]. rewrite T in Ei. destruct (i =? k)%nat; [|right; split; [exact He|right; now exists i, j']].
      injection Ei as <-. cbn [iter_begin iteration j1] in Hj. destruct (Z.eq_dec e (iteration j)) as [->|]; [now left|]. right. split; [exact He|]. right. exists k, j. split; [exact E|lia].
  - intros Es. split; [exact Es|]. rewrite T, Nat.eqb_refl. split; [reflexivity|]. now exists j1.
Qed.

(** After the last iteration, the half segment is announced. *)
Lemma storage_finish_ok high s k j : storage_ok high s -> thread_at s k = Some j -> iteration j = iter_begin j + 2 ^ 15 ->
  exists s', CalculateIntermediates_step D L s k j = Ok s' /\ storage_ok high s' /\ intermediates_stored s' (iter_begin j / 2 ^ 15) = true /\
    (forall h, intermediates_stored s h = true -> intermediates_stored s' h = true).
Proof.
  intros HO E Hlast. pose proof (thread_lt s k j E) as Hk. pose proof HO as [H1 H2 H3 H4 H5 H6 H7 H8 H9].
  destruct (H6 k j E) as ((Hb0 & Hbm & Hb1) & Hit & HP & Hh). unfold CalculateIntermediates_step. destruct (Z.ltb_spec (iteration j) (iter_begin j + 2 ^ 15)); [lia|].
  remember (iter_begin j / 2 ^ 15) as h eqn:Eh0. assert (Eh : iter_begin j = 2 ^ 15 * h) by (rewrite (Z.div_mod (iter_begin j) (2 ^ 15)) by lia; lia).
  assert (Hh0 : 0 <= h < 2 ^ 19 - 1) by lia. pose proof (Z.div_mod h 2 ltac:(lia)) as Dm. pose proof (Z.mod_pos_bound h 2 ltac:(lia)) as Hm2.
  assert (Ei : 2 * s32 (Z.quot (iter_begin j) (2 ^ 16)) + (if Z.rem (iter_begin j) (2 ^ 16) =? 0 then 0 else 1) = h).
  { rewrite Z.quot_div_nonneg, Z.rem_mod_nonneg by lia. assert (Eq : iter_begin j / 2 ^ 16 = h / 2) by (symmetry; apply (Z.div_unique _ _ _ (2 ^ 15 * (h mod 2))); lia).
    assert (Er : iter_begin j mod 2 ^ 16 = 2 ^ 15 * (h mod 2)) by (symmetry; apply (Z.mod_unique _ _ (h / 2)); lia).
    rewrite Eq, Er, (swrap_id 32 (h / 2)) by (unfold srange; lia). destruct (Z.eqb_spec (2 ^ 15 * (h mod 2)) 0); lia. }
  unfold AddIntermediates. cbv zeta. rewrite Ei. unfold stored_at. destruct (Z.leb_spec 0 h); [|lia]. destruct (Z.ltb_spec h (2 ^ 19)); [|lia]. cbn [andb bind].
  set (s1 := mkstorage _ _ _ _ _ _ _). assert (Hk1 : (k < length (storage_threads s1))%nat) by exact Hk.
  assert (T : forall i, thread_at (with_thread s1 k None) i = if (i =? k)%nat then None else thread_at s i) by exact (fun i => thread_at_with s1 k None i Hk1).
  assert (F : forall h', intermediates_stored (with_thread s1 k None) h' = if h' =? h then true else intermediates_stored s h') by reflexivity.
  eexists. split; [reflexivity|]. split; [|split; [rewrite F, Z.eqb_refl; reflexivity|intros h' Hf; rewrite F, Hf; now destruct (h' =? h)]].
  split; try assumption.
  - rewrite (length_with s1) by exact Hk1. exact H4.
  - intros i j' Ej. rewrite T in Ej. destruct (i =? k)%nat; [discriminate|now apply (H6 i)].
  - intros h' Hf. rewrite F in Hf. destruct (Z.eqb_spec h' h) as [Ehh|]; [|now apply H7]. rewrite Ehh, <- Eh. split; [now split|lia].
  - intros e b (He & Hd) Hb Gr W. apply H8; try assumption. split; [exact He|]. destruct Hd as [Hf|(i & j' & Ej & Hj)].
    + rewrite F in Hf. destruct (Z.eqb_spec (e / 2 ^ 15) h) as [Ee|]; [|now left]. right. exists k, j. split; [exact E|].
      pose proof (Z.div_mod e (2 ^ 15) ltac:(lia)). pose proof (Z.mod_pos_bound e (2 ^ 15) ltac:(lia)). lia.
    + rewrite T in Ej. destruct (i =? k)%nat; [discriminate|right; now exists i, j'].
  - destruct H9 as (I0 & Im & I2). split; [exact I0|]. split; [exact Im|]. intros h' Hb'. rewrite F, I2 by exact Hb'. now destruct (h' =? h).
Qed.

(** A waiting thread takes a form. *)
Lemma take_ok high s k : storage_ok high s -> (k < length (storage_threads s))%nat -> thread_at s k = None -> storage_ok (taken high (take s k)) (take s k).
Proof.
  intros HO Hk E. assert (HO' : forall high', high <= high' -> storage_ok high' s) by (intros high' H; now apply (storage_ok_mono high)).
  pose proof (taken_ge (storage_threads (take s k)) high) as [Hge Hjobs]. fold (taken high (take s k)) in Hge, Hjobs. specialize (HO' _ Hge). revert HO' Hjobs.
  generalize (taken high (take s k)). clear Hge HO. unfold take. destruct (pending_intermediates s) as [|[i y] m] eqn:Ep; [easy|]. destruct (stopped s) eqn:Es; [easy|].
  set (s1 := mkstorage _ _ _ _ _ _ _). assert (Hk1 : (k < length (storage_threads s1))%nat) by exact Hk. set (j1 := mkjob i i y).
  assert (T : forall n, thread_at (with_thread s1 k (Some j1)) n = if (n =? k)%nat then Some j1 else thread_at s n) by exact (fun n => thread_at_with s1 k (Some j1) n Hk1).
  intros high' [H1 H2 H3 H4 H5 H6 H7 H8 H9] Hjobs. rewrite Ep in H5. apply Forall_cons_iff in H5 as [[Hi Py] Hm]. split; try assumption.
  - rewrite (length_with s1) by exact Hk1. exact H4.
  - intros n j' Ej. pose proof (Hjobs n j' Ej) as Hj'. rewrite T in Ej. destruct (n =? k)%nat; [|now apply (H6 n)]. injection Ej as <-. cbn [iter_begin iteration job_y j1] in *. split; [exact Hi|]. split; [lia|]. split; [exact Py|exact Hj'].
  - intros e b (He & Hd) Hb Gr W. apply H8; try assumption. split; [exact He|]. destruct Hd as [Hf|(n & j' & Ej & Hj)]; [now left|].
    rewrite T in Ej. destruct (n =? k)%nat; [|right; now exists n, j']. injection Ej as <-. cbn [iter_begin iteration j1] in Hj. lia.
Qed.

Lemma map_set_ok m i y : half_start i -> pw (2 ^ i) y -> Forall (fun '(i, y) => half_start i /\ pw (2 ^ i) y) m -> Forall (fun '(i, y) => half_start i /\ pw (2 ^ i) y) (map_set m i y).
Proof.
  intros Hi Py H. induction H as [|[i' y'] m Hy Hm IH]; cbn [map_set]; [constructor; [now split|constructor]|].
  destruct (i <? i'); [|destruct (i =? i')]; constructor; try assumption; try (now split). now constructor.
Qed.

(** The loop of [GetFinishedSegment] stops at the first segment that is not complete. *)
Lemma finished_loop_ok high s : storage_ok high s -> forall fuel iter, 0 <= iter -> iter mod 2 ^ 16 = 0 -> (forall h, 0 <= h < iter / 2 ^ 15 -> intermediates_stored s h = true) ->
  2 ^ 18 - iter / 2 ^ 16 <= Z.of_nat fuel -> exists r, finished_loop fuel s iter = Ok r /\ iter <= r /\ r mod 2 ^ 16 = 0 /\ (forall h, 0 <= h < r / 2 ^ 15 -> intermediates_stored s h = true) /\
    intermediates_stored s (2 * (r / 2 ^ 16)) && intermediates_stored s (2 * (r / 2 ^ 16) + 1) = false.
Proof.
  intros HO. induction fuel as [|fuel IH]; intros iter H0 Hm Hs Hf; cbn [finished_loop]; rewrite Z.quot_div_nonneg by lia; set (q := iter / 2 ^ 16) in *.
  all: assert (Eq : iter = 2 ^ 16 * q) by (unfold q; rewrite (Z.div_mod iter (2 ^ 16)) at 1 by lia; lia); assert (E15 : iter / 2 ^ 15 = 2 * q) by (symmetry; apply (Z.div_unique _ _ _ 0); lia).
  all: assert (Hq : q < 2 ^ 18) by (destruct (Z.le_gt_cases q 0); [lia|]; destruct (so_flags _ _ HO _ (Hs (2 * q - 1) ltac:(lia))) as [(_ & _ & ?) _]; lia).
  { lia. }
  unfold stored_at. destruct (Z.leb_spec 0 (2 * q)); [|lia]. destruct (Z.ltb_spec (2 * q) (2 ^ 19)); [|lia]. cbn [andb bind].
  assert (Stops : intermediates_stored s (2 * q) && intermediates_stored s (2 * q + 1) = false -> exists r, Ok iter = Ok r /\ iter <= r /\ r mod 2 ^ 16 = 0 /\ (forall h, 0 <= h < r / 2 ^ 15 -> intermediates_stored s h = true) /\
    intermediates_stored s (2 * (r / 2 ^ 16)) && intermediates_stored s (2 * (r / 2 ^ 16) + 1) = false).
  { intros Hstop. exists iter. fold q. split; [reflexivity|]. split; [lia|]. split; [exact Hm|]. split; [exact Hs|exact Hstop]. }
  destruct (intermediates_stored s (2 * q)) eqn:Ea; cbn [bind]; [|now apply Stops].
  destruct (Z.leb_spec 0 (2 * q + 1)); [|lia]. destruct (Z.ltb_spec (2 * q + 1) (2 ^ 19)); [|lia]. cbn [andb bind].
  destruct (intermediates_stored s (2 * q + 1)) eqn:Eb; [|now apply Stops]. rewrite u64_id by lia.
  assert (Eq' : (iter + 2 ^ 16) / 2 ^ 16 = q + 1) by (symmetry; apply (Z.div_unique _ _ _ 0); lia).
  destruct (IH (iter + 2 ^ 16)) as (r & Er & Hge & Hrest); [lia|symmetry; apply (Z.mod_unique _ _ (q + 1)); lia| |lia|exists r; split; [exact Er|]; split; [lia|exact Hrest]].
  intros h Hh. assert (E2 : (iter + 2 ^ 16) / 2 ^ 15 = 2 * q + 2) by (symmetry; apply (Z.div_unique _ _ _ 0); lia). rewrite E2 in Hh.
  destruct (Z.eq_dec h (2 * q)) as [->|]; [exact Ea|]. destruct (Z.eq_dec h (2 * q + 1)) as [->|]; [exact Eb|]. apply Hs. lia.
Qed.

Lemma query_ok high s : storage_ok high s -> exists r s', GetFinishedSegment s = Ok (r, s') /\ storage_ok high s' /\ storage_threads s' = storage_threads s /\ weso s' = weso s /\
  0 <= r /\ r mod 2 ^ 16 = 0 /\ (forall h, 0 <= h < r / 2 ^ 15 -> intermediates_stored s h = true) /\
  intermediates_stored s (2 * (r / 2 ^ 16)) && intermediates_stored s (2 * (r / 2 ^ 16) + 1) = false.
Proof.
  intros HO. pose proof HO as [H1 H2 H3 H4 H5 H6 H7 H8 (I0 & Im & Is)].
  destruct (finished_loop_ok high s HO finished_fuel (intermediates_iter s) I0 Im Is) as (r & Er & Hr & Hm & Hs & Hstop).
  { unfold finished_fuel. rewrite Z2Nat.id by lia. pose proof (Z.div_pos (intermediates_iter s) (2 ^ 16) I0 ltac:(lia)). lia. }
  unfold GetFinishedSegment. rewrite Er. cbn [bind]. exists r. eexists. split; [reflexivity|]. split; [|split; [reflexivity|]; split; [reflexivity|]; split; [lia|]; split; [exact Hm|]; split; [exact Hs|exact Hstop]].
  split; try assumption. cbn [intermediates_iter]. split; [lia|]. now split.
Qed.

(** The main loop submits forms of the right powers. *)
Definition right_events (evs : list event) : Prop := Forall (fun ev => match ev with Submit y i => half_start i /\ pw (2 ^ i) y | _ => True end) evs.

Lemma step_ok high s ev : storage_ok high s -> in_window high s = true -> right_events [ev] -> exists s', storage_step D L s ev = Ok s' /\ storage_ok (taken high s') s'.
Proof.
  intros HO HW Hev. assert (M : forall s', storage_ok high s' -> storage_ok (taken high s') s') by (intros s' H; apply (storage_ok_mono high); [exact H|apply taken_ge]).
  destruct ev as [y i|k| |]; cbn [storage_step].
  - apply Forall_inv in Hev as [Hi Py]. eexists. split; [reflexivity|]. apply M. destruct HO as [H1 H2 H3 H4 H5 H6 H7 H8 H9]. split; try assumption. now apply map_set_ok.
  - destruct (Nat.ltb_spec k intermediates_threads) as [Hk|]; [|now eauto]. rewrite <- (so_threads _ _ HO) in Hk. destruct (thread_at s k) as [j|] eqn:E; [|eexists; split; [reflexivity|now apply take_ok]].
    destruct (so_jobs _ _ HO k j E) as (_ & Hit & _ & _). destruct (Z.eq_dec (iteration j) (iter_begin j + 2 ^ 15)) as [Hlast|].
    + destruct (storage_finish_ok high s k j HO E Hlast) as (s' & -> & HO' & _). eauto.
    + destruct (iteration_ok high s k j HO HW E ltac:(lia)) as (s' & -> & HO' & _). eauto.
  - destruct (query_ok high s HO) as (r & s' & -> & HO' & _). cbn [bind]. eauto.
  - eexists. split; [reflexivity|]. apply M. destruct HO as [H1 H2 H3 H4 H5 H6 H7 H8 H9]. now split.
Qed.

Lemma storage_run_ok evs : forall high s, storage_ok (taken high s) s -> right_events evs -> timely D L evs high s = true ->
  exists s', storage_run D L evs s = Ok s' /\ storage_ok (furthest D L evs high s) s' /\ in_window (furthest D L evs high s) s' = true.
Proof.
  induction evs as [|ev evs IH]; intros high s HO Hev HT; cbn [timely storage_run furthest] in *; apply andb_prop in HT as [HW HT]; [now exists s|].
  destruct (step_ok _ s ev HO HW) as (s' & E & HO'); [constructor; [exact (Forall_inv Hev)|constructor]|]. rewrite E in *. cbn [bind].
  apply IH; [exact HO'|exact (Forall_inv_tail Hev)|exact HT].
Qed.

Lemma timely_run evs1 : forall evs2 high s, timely D L (evs1 ++ evs2) high s = true -> timely D L evs1 high s = true.
Proof.
  induction evs1 as [|ev evs1 IH]; intros evs2 high s HT; cbn [app timely] in *.
  - destruct evs2; cbn [timely] in HT; apply andb_prop in HT as [HW _]; now rewrite HW.
  - apply andb_prop in HT as [HW HT]. rewrite HW. cbn [andb]. destruct (storage_step D L s ev); [now apply (IH evs2)|reflexivity].
Qed.

Lemma storage_run_cons ev evs s : storage_run D L (ev :: evs) s = (s <- storage_step D L s ev ;; storage_run D L evs s).
Proof. reflexivity. Qed.

(** A thread that is not stopped ends its half segment. *)
Lemma thread_ends n : forall high s k j, storage_ok high s -> in_window high s = true -> thread_at s k = Some j -> stopped s = false ->
  Z.of_nat n = iter_begin j + 2 ^ 15 - iteration j ->
  exists s', storage_run D L (repeat (Run k) (S n)) s = Ok s' /\ intermediates_stored s' (iter_begin j / 2 ^ 15) = true.
Proof.
  induction n as [|n IH]; intros high s k j HO HW E Es Hn; pose proof (thread_lt s k j E) as Hk; rewrite (so_threads _ _ HO) in Hk;
    cbn [repeat]; rewrite storage_run_cons; cbn [storage_step]; rewrite (proj2 (Nat.ltb_lt _ _) Hk), E.
  - destruct (storage_finish_ok high s k j HO E ltac:(lia)) as (s' & -> & _ & F & _). cbn [bind]. now exists s'.
  - destruct (iteration_ok high s k j HO HW E ltac:(lia)) as (s' & -> & HO' & HS). cbn [bind]. destruct (HS Es) as (Es' & Et & j' & E' & Eb & Ei).
    rewrite <- Eb. apply (IH high s' k j'); try assumption; [|lia].
    apply in_window_all. intros i ji Ej. unfold thread_at in Ej. rewrite Et in Ej. fold (thread_at (with_thread s k (thread_at s' k)) i) in Ej.
    rewrite thread_at_with in Ej by (rewrite (so_threads _ _ HO); exact Hk). destruct (i =? k)%nat; [|now apply (in_window_at high s i)].
    rewrite E' in Ej. injection Ej as <-. pose proof (in_window_at high s k j HW E). pose proof (Z.div_le_mono (iteration j) (iteration j') (2 ^ 16) ltac:(lia) ltac:(lia)). lia.
Qed.
End Stored.

(** What the main loop does, among the events. *)
Definition submits (evs : list event) : list Vdf.event := flat_map (fun ev => match ev with Submit y i => [Vdf.SubmitCheckpoint y i] | _ => [] end) evs.

(** The main loop submits the powers of [x] at the multiples of [2^15]. *)
Lemma submits_right D x {C : Type} (cfg : config C) k evs : fast_algorithm cfg && has_fast_storage cfg = true -> events_ok D x cfg k (submits evs) -> Z.of_nat k < 2 ^ 19 ->
  right_events D x evs.
Proof.
  intros Hc He Hk. apply andb_prop in Hc as [H1 H2]. unfold events_ok in He. rewrite H1, H2 in He.
  assert (HA : Forall (fun ev => exists y i, ev = Vdf.SubmitCheckpoint y i /\ half_start i /\ Powers.pw D x (2 ^ i) y) (submits evs)).
  { apply Forall_forall. intros ev Hin. apply In_nth_error in Hin as [n Hn]. destruct (nth_error (seq 0 k) n) as [i|] eqn:Ei.
    2: { apply nth_error_None in Ei. rewrite (Forall2_length He) in Ei. apply nth_error_None in Ei. congruence. }
    assert (Hi : (i < k)%nat) by (apply nth_error_In, in_seq in Ei; lia). revert n Hn Ei.
    induction He as [|a b l l' Hab Hl IH]; intros [|n] Hn Ei; try discriminate; cbn [nth_error] in *; [|now apply (IH n)].
    injection Hn as <-. injection Ei as ->. destruct Hab as (y & -> & P). exists y, (2 ^ 15 * Z.of_nat i). split; [reflexivity|]. split; [|exact P].
    split; [lia|]. split; [rewrite Z.mul_comm; apply Z.mod_mul; lia|lia]. }
  clear He. unfold right_events. induction evs as [|ev evs IH]; [constructor|]. cbn [submits flat_map] in HA. apply Forall_app in HA as [HA1 HA2]. constructor; [|now apply IH].
  destruct ev as [y i|t| |]; try exact I. apply Forall_inv in HA1 as (y' & i' & Ee & H). injection Ee as <- <-. exact H.
Qed.

(** C25: on a machine with many processors, the intermediates that the provers read are right. The
    main loop submits what [repeated_square] notifies, one form in 2^15 iterations, and the six threads
    run in any interleaving with it, with the event loop and with the destructor, as long as no thread
    is more than the callback's window behind the first one. Then nothing fails, no index is out of
    range, the loop of [GetFinishedSegment] ends and its result [r] is a multiple of 2^16 such that
    every position of a bucket's grid below [r] (and inside the window) holds the form of its own
    iteration, in the class of [x^(2^n)]. A thread that works on a form and is not stopped ends in
    2^15 iterations at most, and marks its half of the segment as stored. *)
Theorem fast_storage_correct {G : Gmp} {GL : GmpLaws G} {R : FormReducer} {RL : FormReducerLaws R} {C : Type} D L x e (cfg : config C) segments garbage garbage' c k evs :
  0 <= L -> class D x -> principal D e -> 1 <= segments <= 15 -> FastAlgorithmCallback_make garbage garbage' segments x true = Ok c ->
  fast_algorithm cfg && has_fast_storage cfg = true -> events_ok D x cfg k (submits evs) -> Z.of_nat k < 2 ^ 19 -> timely D L evs 0 (FastStorage_make c) = true ->
  exists s, storage_run D L evs (FastStorage_make c) = Ok s /\
    (exists r s', GetFinishedSegment s = Ok (r, s') /\ 0 <= r /\ r mod 2 ^ 16 = 0 /\
       intermediates_stored s (2 * (r / 2 ^ 16)) && intermediates_stored s (2 * (r / 2 ^ 16) + 1) = false /\
       forall b n, 0 <= b < segments -> 0 <= n < r -> grid b n -> (furthest D L evs 0 (FastStorage_make c) - 1) / P2 b - n / P2 b < kWindowSize ->
         exists i, GetForm (weso s') n b = Ok i /\ pw D x (2 ^ n) (f_forms (weso s') i)) /\
    (forall t j, thread_at s t = Some j -> stopped s = false ->
       exists s', storage_run D L (repeat (Run t) (S (Z.to_nat (iter_begin j + 2 ^ 15 - iteration j)))) s = Ok s' /\ intermediates_stored s' (iter_begin j / 2 ^ 15) = true).
Proof.
  intros HL Cx Pe Hseg Ec Hcfg Hev Hk HT. destruct (fast_init D x Cx segments Hseg garbage garbage' true e Pe) as (c' & Ec' & [HS HB HC _ _ _] & _).
  rewrite Ec in Ec'. injection Ec' as <-. assert (HO : storage_ok D x segments 0 (FastStorage_make c)).
  { assert (T : forall t, thread_at (FastStorage_make c) t = None) by (intros t; unfold thread_at; cbn [storage_threads FastStorage_make]; apply nth_repeat).
    split; try assumption; try reflexivity.
    - constructor.
    - intros t j Et. rewrite T in Et. discriminate.
    - discriminate.
    - intros n b (_ & [Hf|(t & j & Et & _)]); [discriminate|rewrite T in Et; discriminate].
    - cbn [intermediates_iter FastStorage_make]. split; [lia|]. split; [reflexivity|]. change (0 / 2 ^ 15) with 0. lia. }
  destruct (storage_run_ok D L HL x Cx segments Hseg evs 0 (FastStorage_make c) HO (submits_right D x cfg k evs Hcfg Hev Hk) HT) as (s & Es & HO' & HW). exists s. split; [exact Es|]. split.
  - destruct (query_ok D x segments _ s HO') as (r & s' & Er & _ & _ & Ew & Hr & Hm & Hs & Hstop). exists r, s'. split; [exact Er|]. split; [exact Hr|]. split; [exact Hm|]. split; [exact Hstop|].
    intros b n Hb Hn Gr W. exists (slot b n). rewrite Ew. split; [apply (GetPosition_ok segments Hseg); try lia; apply HO'|].
    apply (so_forms _ _ _ _ _ HO'); try assumption. split; [lia|]. left. apply Hs. split; [apply Z.div_pos; lia|].
    apply Z.div_lt_upper_bound; [lia|]. pose proof (Z.div_mod r (2 ^ 16) ltac:(lia)) as Dr. rewrite Hm in Dr.
    assert (Er15 : r / 2 ^ 15 = 2 * (r / 2 ^ 16)) by (symmetry; apply (Z.div_unique _ _ _ 0); lia). lia.
  - intros t j Et Hst. apply (thread_ends D L HL x Cx segments Hseg _ _ s t j HO' HW Et Hst).
    destruct (so_jobs _ _ _ _ _ HO' t j Et) as (_ & Hj & _). rewrite Z2Nat.id; lia.
Qed.

(** ** Witness: a thread of the storage at the discriminant -47 *)

Definition storage_config : config FastAlgorithmCallback := mkconfig true true false f_y_ret (fun _ => true) (fun c _ => Ok c).
Definition storage_events : list event := [Submit (mkform 2 1 6) 0; Run 0; Run 0; Query; Run 0].

Lemma fast_storage_correct_witness : let D := -47 in let x := mkform 2 1 6 in
  exists c, FastAlgorithmCallback_make (fun _ => x) (fun _ => x) 2 x true = Ok c /\
  exists s, storage_run (G := Ref.gmp) (R := vdf_new_reducer) D 2 storage_events (FastStorage_make c) = Ok s /\
    (exists r s', GetFinishedSegment s = Ok (r, s') /\ 0 <= r /\ r mod 2 ^ 16 = 0 /\
       intermediates_stored s (2 * (r / 2 ^ 16)) && intermediates_stored s (2 * (r / 2 ^ 16) + 1) = false /\
       forall b n, 0 <= b < 2 -> 0 <= n < r -> grid b n -> (furthest (G := Ref.gmp) (R := vdf_new_reducer) D 2 storage_events 0 (FastStorage_make c) - 1) / P2 b - n / P2 b < kWindowSize ->
         exists i, GetForm (weso s') n b = Ok i /\ pw D x (2 ^ n) (f_forms (weso s') i)) /\
    (forall t j, thread_at s t = Some j -> stopped s = false ->
       exists s', storage_run (G := Ref.gmp) (R := vdf_new_reducer) D 2 (repeat (Run t) (S (Z.to_nat (iter_begin j + 2 ^ 15 - iteration j)))) s = Ok s' /\
         intermediates_stored s' (iter_begin j / 2 ^ 15) = true).
Proof.
  intros D x. eexists. split; [reflexivity|].
  refine (fast_storage_correct (GL := Ref.laws) (RL := vdf_new_reducer_laws) D 2 x (mkform 1 1 12) storage_config 2 (fun _ => x) (fun _ => x) _ 1 storage_events
    ltac:(lia) class_form_47 principal_47 ltac:(lia) eq_refl eq_refl _ ltac:(lia) _).
  - unfold events_ok. cbn [storage_config fast_algorithm has_fast_storage]. constructor; [|constructor]. exists x. split; [reflexivity|]. exact (pw_1 (-47) x class_form_47 _ principal_47).
  - vm_compute. reflexivity.
Defined.

