(* ===== verification/FastGcd.v ===== *)
(** The gcd of the phased squaring pipeline: its reference [gcd_unsigned_slow] of
    [src/src/gcd_unsigned.h], the matrices of [src/src/threading.h], and the interface to the
    assembly code that is generated at build time. *)
From S2P Require Import Prelude NumTheory Gmp.

Definition gcd_size : Z := 20.
Definition gcd_max_iterations : Z := gcd_size * 2.

(** ** gcd_unsigned_slow *)

(** [ab], [uv] and [parity]. *)
Record gcd_state : Type := mkgcd { ab_0 : Z; ab_1 : Z; uv_0 : Z; uv_1 : Z; parity_ : Z }.

Fixpoint slow_loop (fuel : nat) (threshold : Z) (s : gcd_state) : res gcd_state :=
  if threshold <? ab_1 s then
    match fuel with
    | O => Throw out_of_fuel
    | S fuel =>
        let q := ab_0 s / ab_1 s in
        let r := ab_0 s mod ab_1 s in
        slow_loop fuel threshold (mkgcd (ab_1 s) r (uv_1 s) (uv_0 s + q * uv_1 s) (- parity_ s))
    end
  else Ok s.

(** Each turn halves the product of the two numbers. *)
Definition slow_fuel (a b : Z) : nat := Z.to_nat (Z.log2 (a * b) + 2).

Definition gcd_unsigned_slow (s : gcd_state) (threshold : Z) : res gcd_state :=
  require threshold <? ab_0 s else assertion_failed ;;
  slow_loop (slow_fuel (ab_0 s) (ab_1 s)) threshold s.

(** ** The matrices *)

Record gcd_uv_entry : Type := mkentry { u_0 : Z; u_1 : Z; v_0 : Z; v_1 : Z; parity : Z }.

Definition matrix_multiply (e : gcd_uv_entry) (in_a in_b : Z) : Z * Z :=
  let even := parity e =? 0 in
  let out_a := (if even then in_a else in_b) * (if even then u_0 e else v_0 e) in
  let out_a := out_a - (if even then in_b else in_a) * (if even then v_0 e else u_0 e) in
  let out_b := (if even then in_b else in_a) * (if even then v_1 e else u_1 e) in
  let out_b := out_b - (if even then in_a else in_b) * (if even then u_1 e else v_1 e) in
  (out_a, out_b).

(** The loop over the entries. Entry 0 has no matrix, the last one has the exit flag. *)
Definition matrices (es : list gcd_uv_entry) (in_a in_b : Z) : Z * Z := fold_left (fun '(a, b) e => matrix_multiply e a b) es (in_a, in_b).

(** ** The assembly code *)

(** [asm_avx2_func_gcd_unsigned] or [asm_cel_func_gcd_unsigned] on a, b and the threshold: the
    matrices it publishes, and the last a and b or, for an error code, nothing. *)
Class AsmGcd : Type := asm_gcd_unsigned : Z -> Z -> Z -> list gcd_uv_entry * option (Z * Z).

Definition entry_ok (e : gcd_uv_entry) : Prop :=
  0 <= u_0 e < 2 ^ 64 /\ 0 <= u_1 e < 2 ^ 64 /\ 0 <= v_0 e < 2 ^ 64 /\ 0 <= v_1 e < 2 ^ 64 /\ (parity e = 0 \/ parity e = 1).

(** The product of the matrices without signs, and the product of the signs. *)
Definition cofactors (es : list gcd_uv_entry) (x y : Z) : Z * Z := fold_left (fun '(x, y) e => (u_0 e * x + v_0 e * y, u_1 e * x + v_1 e * y)) es (x, y).
Definition sign (es : list gcd_uv_entry) : Z := fold_left (fun s e => s * (1 - 2 * parity e)) es 1.

(** When it succeeds it has computed what the reference does, as the tests of the sources assert: the
    same a and b, and matrices whose product is the one the reference finds, started on <1,0> and on <0,1>. *)
Class AsmGcdLaws (A : AsmGcd) : Prop := {
  asm_gcd_count : forall a b threshold, Z.of_nat (length (fst (asm_gcd_unsigned a b threshold))) <= gcd_max_iterations;
  asm_gcd_spec : forall a b threshold es a' b', 0 <= b <= a -> 0 <= threshold < a -> a < 2 ^ (64 * gcd_size) ->
    asm_gcd_unsigned a b threshold = (es, Some (a', b')) -> Forall entry_ok es /\
    gcd_unsigned_slow (mkgcd a b 1 0 1) threshold = Ok (mkgcd a' b' (fst (cofactors es 1 0)) (snd (cofactors es 1 0)) (sign es)) /\
    gcd_unsigned_slow (mkgcd a b 0 1 1) threshold = Ok (mkgcd a' b' (fst (cofactors es 0 1)) (snd (cofactors es 0 1)) (sign es));
}.

(** ** The reference *)

(** [gcd_unsigned_slow] ends. *)
Lemma slow_loop_ends fuel T : forall s, 0 <= T -> 0 <= ab_1 s <= ab_0 s -> (Z.to_nat (Z.log2 (ab_0 s * ab_1 s) + 2) <= fuel)%nat -> exists s', slow_loop fuel T s = Ok s'.
Proof.
  induction fuel as [|fuel IH]; intros s HT Hs Hf; cbn [slow_loop]; [pose proof (Z.log2_nonneg (ab_0 s * ab_1 s)); lia|].
  destruct (Z.ltb_spec T (ab_1 s)) as [H|H]; [|now exists s]. pose proof (Z.mod_pos_bound (ab_0 s) (ab_1 s) ltac:(lia)) as Hr. pose proof (Z.div_mod (ab_0 s) (ab_1 s) ltac:(lia)) as Hd.
  pose proof (Z.div_le_lower_bound (ab_0 s) (ab_1 s) 1 ltac:(lia) ltac:(lia)) as Hq. set (r := ab_0 s mod ab_1 s) in *.
  destruct (Z.eq_dec r 0) as [E|E].
  { rewrite E. destruct fuel; cbn [slow_loop ab_1]; (destruct (Z.ltb_spec T 0); [lia|]); eexists; reflexivity. }
  apply IH; cbn [ab_0 ab_1]; [exact HT|lia|]. assert (H2 : 2 * (ab_1 s * r) < ab_0 s * ab_1 s) by nia. assert (Hl : Z.log2 (ab_1 s * r) + 1 <= Z.log2 (ab_0 s * ab_1 s)).
  { replace (Z.log2 (ab_1 s * r) + 1) with (Z.log2 (2 * (ab_1 s * r))) by (rewrite Z.log2_double by nia; lia). apply Z.log2_le_mono. lia. }
  lia.
Qed.

(** What the loop keeps: with the signs, the cofactors express its two numbers by the first two, and have determinant 1 up to the sign. *)
Record gcd_inv (a b : Z) (u v : gcd_state) : Prop := {
  gi_same : ab_0 u = ab_0 v /\ ab_1 u = ab_1 v /\ parity_ u = parity_ v;
  gi_sign : parity_ v = 1 \/ parity_ v = - 1;
  gi_ab0 : ab_0 v = parity_ v * (uv_0 u * a - uv_0 v * b);
  gi_ab1 : ab_1 v = parity_ v * (uv_1 v * b - uv_1 u * a);
  gi_det : uv_0 u * uv_1 v - uv_1 u * uv_0 v = parity_ v;
  gi_pos : 0 <= uv_0 v /\ 1 <= uv_1 v;
}.

Lemma slow_loop_inv a b fuel T : forall u v u' v', 0 <= T -> 0 <= ab_1 v <= ab_0 v -> T < ab_0 v -> gcd_inv a b u v ->
  slow_loop fuel T u = Ok u' -> slow_loop fuel T v = Ok v' -> gcd_inv a b u' v' /\ T < ab_0 v' /\ 0 <= ab_1 v' <= T.
Proof.
  induction fuel as [|fuel IH]; intros u v u' v' HT Hs Ha HI Eu Ev; pose proof HI as [(E0 & E1 & Ep) Sg H0 H1 Hd Hp]; cbn [slow_loop] in Eu, Ev; rewrite E1 in Eu;
    (destruct (Z.ltb_spec T (ab_1 v)); [|injection Eu as <-; injection Ev as <-; split; [exact HI|lia]]); [discriminate|].
  pose proof (Z.mod_pos_bound (ab_0 v) (ab_1 v) ltac:(lia)) as Hr. pose proof (Z.div_mod (ab_0 v) (ab_1 v) ltac:(lia)) as Em. pose proof (Z.div_le_lower_bound (ab_0 v) (ab_1 v) 1 ltac:(lia) ltac:(lia)) as Hq.
  rewrite E0, Ep in Eu. eapply IH; [exact HT| | | |exact Eu|exact Ev]; cbn [ab_0 ab_1]; [lia|lia|]. set (q := ab_0 v / ab_1 v) in *. set (r := ab_0 v mod ab_1 v) in *.
  constructor; cbn [ab_0 ab_1 uv_0 uv_1 parity_]; [now repeat split|lia|rewrite H1; ring| |lia|].
  - replace r with (ab_0 v - ab_1 v * q) by lia. rewrite H0, H1. ring.
  - split; [lia|]. nia.
Qed.

(** ** The signed product of the matrices *)

Lemma sign_start es : forall s, fold_left (fun s e => s * (1 - 2 * parity e)) es s = s * sign es.
Proof. unfold sign. induction es as [|e es IH]; intros s; cbn [fold_left]; [lia|]. rewrite IH, (IH (1 * _)). ring. Qed.

(** A signed vector whose entries have opposite signs keeps this shape. *)
Lemma matrices_signed es : Forall entry_ok es -> forall s x y, matrices es (s * x) (- s * y) = (s * sign es * fst (cofactors es x y), - (s * sign es) * snd (cofactors es x y)).
Proof.
  unfold matrices, cofactors. induction 1 as [|e es He _ IH]; intros s x y; cbn [fold_left fst snd]; [unfold sign; cbn [fold_left]; f_equal; ring|].
  assert (Em : matrix_multiply e (s * x) (- s * y) = ((s * (1 - 2 * parity e)) * (u_0 e * x + v_0 e * y), - (s * (1 - 2 * parity e)) * (u_1 e * x + v_1 e * y))).
  { destruct He as (_ & _ & _ & _ & [E|E]); unfold matrix_multiply; rewrite E; cbn; f_equal; ring. }
  rewrite Em, IH. replace (sign (e :: es)) with ((1 - 2 * parity e) * sign es) by (unfold sign at 2; cbn [fold_left]; rewrite sign_start; ring). f_equal; ring.
Qed.

Lemma matrices_opp es : forall x y, matrices es (- x) (- y) = (- fst (matrices es x y), - snd (matrices es x y)).
Proof.
  unfold matrices. induction es as [|e es IH]; intros x y; cbn [fold_left]; [reflexivity|].
  assert (E : matrix_multiply e (- x) (- y) = (- fst (matrix_multiply e x y), - snd (matrix_multiply e x y))).
  { unfold matrix_multiply. cbn [fst snd]. f_equal; destruct (parity e =? 0); ring. }
  rewrite E. destruct (matrix_multiply e x y) as [x' y']. apply IH.
Qed.

(** ** What a successful call gives *)

(** [u0], [u1], [v0], [v1] are the cofactors; the last two conjuncts are the matrices on <1,0> and <0,1>. *)
Record gcd_outcome (a b T : Z) (es : list gcd_uv_entry) (a' b' d u0 u1 v0 v1 : Z) : Prop := {
  go_sign : d = 1 \/ d = - 1;
  go_a : a' = d * (u0 * a - v0 * b);
  go_b : b' = d * (v1 * b - u1 * a);
  go_det : u0 * v1 - u1 * v0 = d;
  go_pos : 0 <= v0 /\ 1 <= v1;
  go_stop : T < a' /\ 0 <= b' <= T;
  go_10 : matrices es 1 0 = (d * u0, - d * u1);
  go_01 : matrices es 0 1 = (- d * v0, d * v1);
}.

Lemma asm_gcd_outcome {A : AsmGcd} {AL : AsmGcdLaws A} a b T es a' b' : 0 <= b <= a -> 0 <= T < a -> a < 2 ^ (64 * gcd_size) ->
  asm_gcd_unsigned a b T = (es, Some (a', b')) -> exists d u0 u1 v0 v1, gcd_outcome a b T es a' b' d u0 u1 v0 v1.
Proof.
  intros Hb HT Ha E. destruct (asm_gcd_spec a b T es a' b' Hb HT Ha E) as (Hes & Eu & Ev).
  exists (sign es), (fst (cofactors es 1 0)), (snd (cofactors es 1 0)), (fst (cofactors es 0 1)), (snd (cofactors es 0 1)).
  unfold gcd_unsigned_slow in Eu, Ev. cbn [ab_0 ab_1] in Eu, Ev. destruct (Z.ltb_spec T a); [|lia].
  destruct (slow_loop_inv a b _ T (mkgcd a b 1 0 1) (mkgcd a b 0 1 1) _ _ ltac:(lia) Hb ltac:(cbn [ab_0]; lia) ltac:(split; cbn [ab_0 ab_1 uv_0 uv_1 parity_]; lia) Eu Ev)
    as ([_ Sg H0 H1 Hd Hp] & Hs & Ht). cbn [ab_0 ab_1 uv_0 uv_1 parity_] in *.
  constructor; try assumption; try lia.
  - pose proof (matrices_signed es Hes 1 1 0) as M. rewrite !Z.mul_1_l in M. exact M.
  - pose proof (matrices_signed es Hes (- 1) 0 1) as M. replace (- 1 * 0) with 0 in M by ring. replace (- -1 * 1) with 1 in M by ring. rewrite M. f_equal; ring.
Qed.

(** ** Euclid's algorithm, one quotient for each matrix: the instance the examples run *)

Fixpoint euclid (fuel : nat) (a b T parity : Z) : list gcd_uv_entry * option (Z * Z) :=
  if T <? b then
    match fuel with
    | O => ([], None)
    | S fuel =>
        if 2 ^ 64 <=? a / b then ([], None)
        else let '(es, r) := euclid fuel b (a mod b) T (1 - parity) in (mkentry 0 1 1 (a / b) 1 :: es, r)
    end
  else ([], Some (a, b)).

Definition euclid_gcd : AsmGcd := fun a b T => euclid (Z.to_nat gcd_max_iterations) a b T 1.

Lemma euclid_count fuel : forall a b T p, (length (fst (euclid fuel a b T p)) <= fuel)%nat.
Proof.
  induction fuel as [|fuel IH]; intros a b T p; cbn [euclid]; (destruct (T <? b); [|cbn; lia]); [cbn; lia|].
  destruct (2 ^ 64 <=? a / b); [cbn; lia|]. specialize (IH b (a mod b) T (1 - p)). destruct (euclid fuel b (a mod b) T (1 - p)). cbn in *. lia.
Qed.

Lemma euclid_slow fuel : forall a b T p es a' b', 0 <= T -> 0 <= b <= a -> euclid fuel a b T p = (es, Some (a', b')) ->
  Forall entry_ok es /\ forall n x y s, (length es <= n)%nat ->
    slow_loop n T (mkgcd a b x y s) = Ok (mkgcd a' b' (fst (cofactors es x y)) (snd (cofactors es x y)) (s * sign es)).
Proof.
  induction fuel as [|fuel IH]; intros a b T p es a' b' HT Hb E; cbn [euclid] in E; destruct (Z.ltb_spec T b) as [H|H]; try discriminate.
  1,3: injection E as <- <- <-; split; [constructor|]; intros n x y s _; destruct n; cbn [slow_loop ab_1]; (destruct (Z.ltb_spec T b); [lia|]);
    unfold cofactors, sign; cbn; now rewrite Z.mul_1_r.
  destruct (Z.leb_spec (2 ^ 64) (a / b)) as [Hq|Hq]; [discriminate|]. destruct (euclid fuel b (a mod b) T (1 - p)) as [es' r] eqn:E'.
  injection E as <- ->. pose proof (Z.mod_pos_bound a b ltac:(lia)). pose proof (Z.div_pos a b ltac:(lia) ltac:(lia)).
  destruct (IH b (a mod b) T (1 - p) es' a' b' HT ltac:(lia) E') as [Hes Hs]. split.
  { constructor; [|exact Hes]. repeat split; cbn; lia. }
  intros n x y s Hn. destruct n as [|n]; cbn [length] in Hn; [lia|]. cbn [slow_loop ab_0 ab_1 uv_0 uv_1 parity_]. destruct (Z.ltb_spec T b); [|lia].
  rewrite (Hs n y (x + a / b * y) (- s) ltac:(lia)). unfold cofactors at 3 4, sign at 2. cbn [fold_left u_0 u_1 v_0 v_1 parity].
  rewrite sign_start. replace (0 * x + 1 * y) with y by ring. replace (1 * x + a / b * y) with (x + a / b * y) by ring. fold (cofactors es' y (x + a / b * y)).
  do 2 f_equal. ring.
Qed.

(** More fuel does not change the result. *)
Lemma slow_loop_more n T : forall s s' m, slow_loop n T s = Ok s' -> (n <= m)%nat -> slow_loop m T s = Ok s'.
Proof.
  induction n as [|n IH]; intros s s' m E Hm; cbn [slow_loop] in E.
  - destruct m; cbn [slow_loop]; destruct (T <? ab_1 s); [discriminate|exact E|discriminate|exact E].
  - destruct m as [|m]; [lia|]. cbn [slow_loop]. destruct (T <? ab_1 s); [|exact E]. apply (IH _ _ m E). lia.
Qed.

#[export] Instance euclid_gcd_laws : AsmGcdLaws euclid_gcd.
Proof.
  split.
  - intros a b T. pose proof (euclid_count (Z.to_nat gcd_max_iterations) a b T 1). unfold asm_gcd_unsigned, euclid_gcd. unfold gcd_max_iterations, gcd_size in *. lia.
  - intros a b T es a' b' Hb HT _ E. destruct (euclid_slow _ a b T 1 es a' b' ltac:(lia) Hb E) as [Hes Hs]. split; [exact Hes|].
    assert (G : forall x y, gcd_unsigned_slow (mkgcd a b x y 1) T = Ok (mkgcd a' b' (fst (cofactors es x y)) (snd (cofactors es x y)) (sign es))).
    { intros x y. unfold gcd_unsigned_slow. cbn [ab_0 ab_1]. destruct (Z.ltb_spec T a); [|lia].
      destruct (slow_loop_ends (slow_fuel a b) T (mkgcd a b x y 1)) as [s' Es]; [lia|cbn; lia|cbn; unfold slow_fuel; lia|].
      pose proof (Hs (length es) x y 1 (le_n _)) as E1. rewrite Z.mul_1_l in E1.
      destruct (Nat.le_ge_cases (length es) (slow_fuel a b)) as [L|L]; [exact (slow_loop_more _ _ _ _ _ E1 L)|].
      pose proof (slow_loop_more _ _ _ _ _ Es L) as E2. congruence. }
    split; apply G.
Qed.
