(* ===== verification/FastThreads.v ===== *)
(** The two threads of the phased squaring pipeline and how they wait for each other:
    [thread_counter] and [thread_state] of [src/src/threading.h]. A thread runs a program, [prog],
    whose steps are interleaved with those of the other thread in any order. The last part is the
    logic in which the programs of [FastSquare] are proved: what the other thread has written is
    known from the values of the two counters. *)
From S2P Require Import Prelude.

Definition max_spin_counter : Z := 10000000.

(** ** Programs *)

Section Programs.
Context {data C : Type}.

(** What one thread does next. The counter values are absolute. A step on the data gets the
    thread's own data and the other's. *)
Inductive prog : Type :=
| Finish
| Fence (t_v : Z) (k : prog)                                     (* fence_absolute *)
| Advance (t_v : Z) (k : prog)                                   (* advance_absolute *)
| Publish (t_v : Z) (k : prog)                                   (* the assembly code stores the counter *)
| HasError (k : prog)                                            (* if (has_error()) return false *)
| Do (f : data -> data -> res data) (k : prog)
| Guard (bad : bool) (cond : data -> data -> bool) (k : prog)    (* if not: corruption_flag, return false *)
| Branch (cond : data -> data -> bool) (k1 k2 : prog)
| Notify (iteration : Z) (k : prog)                              (* OnIteration *)
| Raise                                                          (* raise_error, the flag of this thread *)
| RaiseOther.                                                    (* and the flag of the other *)

(** A sequence of steps before [k]. *)
Definition seq (ops : list (prog -> prog)) (k : prog) : prog := fold_right (fun op k => op k) k ops.

(** [counter_value] and [error_flag] of the thread's counter, [last_fence] of its state, and [spin_counter]. *)
Record thread : Type := mkthread { rest : prog; dat : data; counter_value : Z; error_flag : bool; last_fence : Z; spin_counter : Z }.

Definition go (a : thread) (k : prog) : thread := mkthread k (dat a) (counter_value a) (error_flag a) (last_fence a) 0.
Definition go_with (a : thread) (d : data) (k : prog) : thread := mkthread k d (counter_value a) (error_flag a) (last_fence a) 0.
Definition go_fenced (a : thread) (t_v : Z) (k : prog) : thread := mkthread k (dat a) (counter_value a) (error_flag a) t_v 0.
Definition go_counted (a : thread) (t_v : Z) (k : prog) : thread := mkthread k (dat a) t_v (error_flag a) (last_fence a) 0.
Definition set_error (a : thread) : thread := mkthread (rest a) (dat a) (counter_value a) true (last_fence a) (spin_counter a).
Definition set_data (a : thread) (d : data) : thread := mkthread (rest a) d (counter_value a) (error_flag a) (last_fence a) (spin_counter a).
Definition spun (a : thread) : thread := mkthread (rest a) (dat a) (counter_value a) (error_flag a) (last_fence a) (spin_counter a + 1).

Record config : Type := mkconfig { master : thread; slave : thread; corruption_flag : bool; listener : C }.

(** The listener gets the data of both threads, and may write to those of the slave: [choice] says whether it does. *)
Variable on_iteration : bool -> data -> data -> bool -> Z -> C -> res (C * data).

(** One step of thread [a]; [o] is the other one. A finished thread does nothing. *)
Definition act (choice : bool) (a o : thread) (corrupt : bool) (l : C) : res (thread * thread * bool * C) :=
  match rest a with
  | Finish => Ok (a, o, corrupt, l)
  | Fence t_v k =>
      if t_v <=? last_fence a then Ok (go a k, o, corrupt, l)
      else if counter_value o <? t_v then
        if error_flag a || error_flag o || (max_spin_counter <? spin_counter a) then Ok (go a Raise, o, corrupt, l)
        else Ok (spun a, o, corrupt, l)
      else if error_flag a then Ok (go a Raise, o, corrupt, l)
      else Ok (go_fenced a t_v k, o, corrupt, l)
  | Advance t_v k =>
      if t_v =? counter_value a then Ok (go a k, o, corrupt, l)
      else if t_v <? counter_value a then Throw assertion_failed
      else Ok (go_counted a t_v (if error_flag a then Raise else k), o, corrupt, l)
  | Publish t_v k => Ok (go_counted a t_v k, o, corrupt, l)
  | HasError k => Ok (go a (if error_flag a then Raise else k), o, corrupt, l)
  | Do f k => d <- f (dat a) (dat o) ;; Ok (go_with a d k, o, corrupt, l)
  | Guard bad cond k => if cond (dat a) (dat o) then Ok (go a k, o, corrupt, l) else Ok (go a Raise, o, corrupt || bad, l)
  | Branch cond k1 k2 => Ok (go a (if cond (dat a) (dat o) then k1 else k2), o, corrupt, l)
  | Notify iteration k => ' (l, d) <- on_iteration choice (dat a) (dat o) corrupt iteration l ;; Ok (go a k, set_data o d, corrupt, l)
  | Raise => Ok (set_error (go a RaiseOther), o, corrupt, l)
  | RaiseOther => Ok (go a Finish, set_error o, corrupt, l)
  end.

(** Which thread moves, and what its listener does. *)
Definition turn : Type := (bool * bool)%type.

Definition step (t : turn) (c : config) : res config :=
  let '(is_slave, choice) := t in
  if is_slave then
    ' (s, m, corrupt, l) <- act choice (slave c) (master c) (corruption_flag c) (listener c) ;; Ok (mkconfig m s corrupt l)
  else
    ' (m, s, corrupt, l) <- act choice (master c) (slave c) (corruption_flag c) (listener c) ;; Ok (mkconfig m s corrupt l).

(** An execution: the threads move in the order of the schedule. *)
Fixpoint run (schedule : list turn) (c : config) : res config :=
  match schedule with
  | [] => Ok c
  | t :: schedule => c <- step t c ;; run schedule c
  end.

Definition is_finished (t : thread) : bool := match rest t with Finish => true | _ => false end.
Definition both_finished (c : config) : bool := is_finished (master c) && is_finished (slave c).

(** ** No thread waits forever *)

(** The most steps a thread can take. *)
Fixpoint longest (p : prog) : Z :=
  match p with
  | Finish => 0
  | Fence _ k => longest k + max_spin_counter + 5
  | Advance _ k | Publish _ k | HasError k | Do _ k | Guard _ _ k | Notify _ k => longest k + 3
  | Branch _ k1 k2 => Z.max (longest k1) (longest k2) + 3
  | Raise => 2
  | RaiseOther => 1
  end.

Lemma longest_nonneg p : 0 <= longest p.
Proof. induction p; cbn; unfold max_spin_counter; lia. Qed.

Definition remaining (t : thread) : Z := longest (rest t) - match rest t with Fence _ _ => spin_counter t | _ => 0 end.

Definition spin_ok (t : thread) : Prop := 0 <= spin_counter t <= max_spin_counter + 1.

Lemma remaining_nonneg t : spin_ok t -> 0 <= remaining t.
Proof. unfold remaining, spin_ok. pose proof (longest_nonneg (rest t)). destruct (rest t) as [|? k| | | | | | | | |] eqn:E; try lia. cbn [longest]. pose proof (longest_nonneg k). lia. Qed.

Lemma remaining_fresh p d c e f : remaining (mkthread p d c e f 0) = longest p.
Proof. unfold remaining. cbn. destruct p; lia. Qed.

Lemma remaining_zero t : spin_counter t = 0 -> remaining t = longest (rest t).
Proof. intros H. unfold remaining. rewrite H. destruct (rest t); lia. Qed.

(** A step of an unfinished thread uses up some of its work, and leaves the other's. *)
Lemma act_remaining choice a o corrupt l a' o' corrupt' l' : spin_ok a -> spin_ok o -> act choice a o corrupt l = Ok (a', o', corrupt', l') ->
  spin_ok a' /\ spin_ok o' /\ remaining o' = remaining o /\ remaining a' <= Z.max 0 (remaining a - 1).
Proof.
  intros Ha Ho E. unfold act in E. assert (M : 0 <= max_spin_counter) by (unfold max_spin_counter; lia).
  assert (F : forall p d c e f, spin_ok (mkthread p d c e f 0)) by (unfold spin_ok; cbn; lia).
  assert (W : remaining a = longest (rest a) - match rest a with Fence _ _ => spin_counter a | _ => 0 end) by reflexivity.
  destruct (rest a) as [|t k|t k|t k|k|f k|bad cond k|cond k1 k2|i k| |] eqn:Er; cbn [longest] in W; try (pose proof (longest_nonneg k) as Hk); unfold spin_ok in Ha.
  - injection E as <- <- <- <-. repeat split; try apply Ho; try lia.
  - destruct (t <=? last_fence a); [|destruct (counter_value o <? t); [destruct (Z.ltb_spec max_spin_counter (spin_counter a)) as [Hs|Hs]; rewrite ?orb_true_r, ?orb_false_r in E;
      [|destruct (error_flag a || error_flag o)]|destruct (error_flag a)]]; injection E as <- <- <- <-; (split; [try apply F|split; [exact Ho|split; [reflexivity|]]]);
      unfold go, go_fenced; rewrite ?remaining_fresh; cbn [longest]; try lia.
    + unfold spin_ok, spun. cbn [spin_counter]. lia.
    + unfold remaining, spun. cbn [rest spin_counter]. rewrite Er. cbn [longest]. lia.
  - destruct (t =? counter_value a); [|destruct (t <? counter_value a); [discriminate|]]; injection E as <- <- <- <-; (split; [apply F|split; [exact Ho|split; [reflexivity|]]]);
      unfold go, go_counted; rewrite remaining_fresh; [|destruct (error_flag a); cbn [longest]]; lia.
  - injection E as <- <- <- <-. split; [apply F|split; [exact Ho|split; [reflexivity|]]]. unfold go_counted. rewrite remaining_fresh. lia.
  - injection E as <- <- <- <-. split; [apply F|split; [exact Ho|split; [reflexivity|]]]. unfold go. rewrite remaining_fresh. destruct (error_flag a); cbn [longest]; lia.
  - apply bind_ok in E as (d & _ & E). injection E as <- <- <- <-. split; [apply F|split; [exact Ho|split; [reflexivity|]]]. unfold go_with. rewrite remaining_fresh. lia.
  - destruct (cond (dat a) (dat o)); injection E as <- <- <- <-; (split; [apply F|split; [exact Ho|split; [reflexivity|]]]); unfold go; rewrite remaining_fresh; cbn [longest]; lia.
  - injection E as <- <- <- <-. split; [apply F|split; [exact Ho|split; [reflexivity|]]]. unfold go. rewrite remaining_fresh. destruct (cond (dat a) (dat o)); lia.
  - apply bind_ok in E as ([l2 d] & _ & E). injection E as <- <- <- <-. split; [apply F|split; [exact Ho|split; [reflexivity|]]]. unfold go. rewrite remaining_fresh. lia.
  - injection E as <- <- <- <-. split; [apply F|split; [exact Ho|split; [reflexivity|]]]. unfold set_error, go. cbn [rest dat counter_value error_flag last_fence spin_counter]. rewrite remaining_fresh. cbn [longest]. lia.
  - injection E as <- <- <- <-. split; [apply F|split; [exact Ho|split; [reflexivity|]]]. unfold go. rewrite remaining_fresh. cbn [longest]. lia.
Qed.

Lemma remaining_finished t : spin_ok t -> remaining t <= 0 -> is_finished t = true.
Proof.
  unfold remaining, is_finished, spin_ok. destruct (rest t) as [|u k|u k|u k|k|f k|bad cond k|cond k1 k2|i k| |]; cbn [longest]; intros Hs Hl; try reflexivity; exfalso; try (pose proof (longest_nonneg k)); try lia.
  pose proof (longest_nonneg k1). lia.
Qed.

Definition turns (is_slave : bool) (schedule : list turn) : Z := Z.of_nat (length (filter (fun t => eqb (fst t) is_slave) schedule)).

Lemma run_remaining schedule : forall c c', spin_ok (master c) -> spin_ok (slave c) -> run schedule c = Ok c' ->
  spin_ok (master c') /\ spin_ok (slave c') /\ remaining (master c') <= Z.max 0 (remaining (master c) - turns false schedule) /\ remaining (slave c') <= Z.max 0 (remaining (slave c) - turns true schedule).
Proof.
  induction schedule as [|[b ch] schedule IH]; intros c c' Hm Hs E; cbn [run] in E.
  { injection E as <-. unfold turns. cbn. repeat split; try apply Hm; try apply Hs; lia. }
  apply bind_ok in E as (c1 & E1 & E). unfold step in E1. destruct b; apply bind_ok in E1 as ([[[x y] corrupt] l] & EA & E1); injection E1 as <-.
  - destruct (act_remaining _ _ _ _ _ _ _ _ _ Hs Hm EA) as (H1 & H2 & H3 & H4). destruct (IH (mkconfig y x corrupt l) c' H2 H1 E) as (G1 & G2 & G3 & G4). cbn [master slave] in *.
    unfold turns in *. cbn [filter fst eqb] in *. cbn [length]. repeat split; try apply G1; try apply G2; lia.
  - destruct (act_remaining _ _ _ _ _ _ _ _ _ Hm Hs EA) as (H1 & H2 & H3 & H4). destruct (IH (mkconfig x y corrupt l) c' H1 H2 E) as (G1 & G2 & G3 & G4). cbn [master slave] in *.
    unfold turns in *. cbn [filter fst eqb] in *. cbn [length]. repeat split; try apply G1; try apply G2; lia.
Qed.

(** Whatever the other one does, a thread that has had enough turns is finished. *)
Lemma run_finishes schedule c c' : spin_ok (master c) -> spin_ok (slave c) -> run schedule c = Ok c' ->
  remaining (master c) <= turns false schedule -> remaining (slave c) <= turns true schedule -> both_finished c' = true.
Proof.
  intros Hm Hs E Lm Ls. destruct (run_remaining schedule c c' Hm Hs E) as (H1 & H2 & H3 & H4). unfold both_finished.
  rewrite (remaining_finished (master c')), (remaining_finished (slave c')) by (assumption || lia). reflexivity.
Qed.
End Programs.
Arguments prog data : clear implicits.
Arguments thread data : clear implicits.
Arguments config data C : clear implicits.

(** ** What a thread knows of the other *)

(** [F] and [G] are the facts on the data of this thread and of the other, by the counter of their
    owner, its last fence, and the counter of its reader. [Q] holds of the data wherever the thread
    may stop, [n] being the number of notifications so far. The other thread's listener may replace
    the data by one related by [alter]. [blame] holds of the counter and the fence where this
    thread finds the state corrupted. *)
Section Safe.
Context {data : Type}.
Variable F G : Z -> Z -> Z -> data -> Prop.
Variable Q : data -> Z -> Prop.
Variable alter : Z -> Z -> data -> data -> Prop.
Variable blame : Z -> Z -> Prop.
Variable notifies : data -> Z -> Z -> Z -> Z -> Prop.

Definition knows (c f : Z) (o : data) : Prop := exists oc of_, f <= oc /\ of_ <= c /\ G oc of_ c o.

(** The facts that hold of [d] at the counter [c] also hold at [c'], and with [d']. *)
Definition keeps (c c' f : Z) (d d' : data) : Prop := forall oc, f <= oc -> F c f oc d -> F c' f oc d'.

Definition unaltered (c f : Z) (d : data) : Prop := forall d', alter c f d d' -> d' = d.

Fixpoint safe (p : prog data) (d : data) (c f n : Z) : Prop :=
  match p with
  | Finish | Raise | RaiseOther => Q d n
  | Fence t_v k => forall d', alter c f d d' -> Q d' n /\ safe k d' c (Z.max f t_v) n
  | Advance t_v k => forall d', alter c f d d' -> Q d' n /\ c <= t_v /\ keeps c t_v f d' d' /\ safe k d' t_v f n
  | Publish t_v k => unaltered c f d /\ c <= t_v /\ keeps c t_v f d d /\ safe k d t_v f n
  | HasError k => unaltered c f d /\ Q d n /\ safe k d c f n
  | Do g k => unaltered c f d /\ forall o, knows c f o -> exists d', g d o = Ok d' /\ keeps c c f d d' /\ safe k d' c f n
  | Guard bad cond k => unaltered c f d /\ Q d n /\ (bad = true -> blame c f) /\ forall o, knows c f o -> cond d o = true -> safe k d c f n
  | Branch cond k1 k2 => unaltered c f d /\ forall o, knows c f o -> if cond d o then safe k1 d c f n else safe k2 d c f n
  | Notify i k => unaltered c f d /\ notifies d c f n i /\ safe k d c f (n + 1)
  end.

Hypothesis alter_refl : forall c f d, alter c f d d.
Hypothesis alter_trans : forall c f d1 d2 d3, alter c f d1 d2 -> alter c f d2 d3 -> alter c f d1 d3.
Hypothesis Q_alter : forall c f d d' n, alter c f d d' -> Q d n -> Q d' n.

Lemma safe_alter p d d' c f n : safe p d c f n -> alter c f d d' -> safe p d' c f n.
Proof.
  intros H A. destruct p; cbn [safe] in *; try (now apply (Q_alter c f d)); try (intros d2 A2; apply H; now apply (alter_trans c f d d' d2));
    (rewrite (proj1 H d' A); exact H).
Qed.
End Safe.

Section Soundness.
Context {data C : Type}.
Variable on_iteration : bool -> data -> data -> bool -> Z -> C -> res (C * data).
Variable Inv : C -> Z -> Prop.

(** A dead thread has raised an error, or is about to. *)
Definition dead (p : prog data) : Prop := match p with Raise | RaiseOther | Finish => True | _ => False end.

Section OneStep.
Variable F G : Z -> Z -> Z -> data -> Prop.
Variable Q : data -> Z -> Prop.
Variable alter alter_o : Z -> Z -> data -> data -> Prop.
Variable blame blame_o : Z -> Z -> Prop.
Variable notifies : data -> Z -> Z -> Z -> Z -> Prop.

Hypothesis alter_refl : forall c f d, alter c f d d.
Hypothesis alter_o_refl : forall c f d, alter_o c f d d.
Hypothesis F_fence : forall c f oc f' d, f <= f' -> F c f oc d -> F c f' oc d.
Hypothesis G_reader : forall c f oc oc' d, oc <= oc' -> G c f oc d -> G c f oc' d.
Hypothesis notifies_ok : forall d c f n i, notifies d c f n i ->
  (forall oc of_, f <= oc -> of_ <= c -> ~ blame_o oc of_) /\
  forall choice o l, knows G c f o -> Inv l n -> exists l' o', on_iteration choice d o false i l = Ok (l', o') /\ Inv l' (n + 1) /\
    forall oc of_, f <= oc -> of_ <= c -> G oc of_ c o -> G oc of_ c o' /\ alter_o oc of_ o o'.

(** What holds of a thread and of the other one. *)
Record sound (a o : thread data) (corrupt : bool) (l : C) (n : Z) : Prop := {
  so_safe : safe F G Q alter blame notifies (rest a) (dat a) (counter_value a) (last_fence a) n;
  so_own : F (counter_value a) (last_fence a) (counter_value o) (dat a);
  so_other : G (counter_value o) (last_fence o) (counter_value a) (dat o);
  so_fence : last_fence a <= counter_value o;
  so_fence_o : last_fence o <= counter_value a;
  so_inv : Inv l n;
  so_blame : corrupt = true -> dead (rest a) /\ blame (counter_value a) (last_fence a) \/ dead (rest o) /\ blame_o (counter_value o) (last_fence o);
}.

(** What a step of the first does to the second: nothing but the error flag and the listener's writes. *)
Definition untouched (o o' : thread data) : Prop :=
  rest o' = rest o /\ counter_value o' = counter_value o /\ last_fence o' = last_fence o /\ alter_o (counter_value o) (last_fence o) (dat o) (dat o').

Ltac sound_step n := do 4 eexists; exists n; split; [reflexivity|]; split; [split; cbn; try tauto|split; [assumption|tauto]].

Lemma act_sound choice a o corrupt l n : sound a o corrupt l n ->
  exists a' o' corrupt' l' n', act on_iteration choice a o corrupt l = Ok (a', o', corrupt', l') /\ sound a' o' corrupt' l' n' /\ untouched o o' /\ (n' = n \/ exists i k, rest a = Notify i k).
Proof.
  intros [S Fa Go Hf Hfo HI HB]. assert (U : untouched o o) by (repeat split; apply alter_o_refl).
  assert (K : knows G (counter_value a) (last_fence a) (dat o)) by (exists (counter_value o), (last_fence o); tauto).
  unfold act. destruct a as [p d c e f sp]. cbn [rest dat counter_value error_flag last_fence spin_counter] in *.
  destruct p as [|t k|t k|t k|k|g k|bad cond k|cond k1 k2|i k| |]; cbn [safe] in S; cbn [dead] in HB.
  - sound_step n.
  - destruct (S d (alter_refl c f d)) as [HQ Hk]. destruct (Z.leb_spec t f) as [Ht|Ht]; [|destruct (Z.ltb_spec (counter_value o) t) as [Hc|Hc]; [destruct (e || error_flag o || (max_spin_counter <? sp))|destruct e]]; sound_step n.
    + now rewrite Z.max_l in Hk by lia.
    + now rewrite Z.max_r in Hk by lia.
    + apply (F_fence c f); [lia|exact Fa].
  - destruct (S d (alter_refl c f d)) as (HQ & Ht & KF & Hk). destruct (Z.eqb_spec t c) as [->|Hn]; [sound_step n|]. destruct (Z.ltb_spec t c); [lia|].
    destruct e; sound_step n; try (apply KF; [lia|exact Fa]); try (apply (G_reader _ _ c); [lia|exact Go]); lia.
  - destruct S as (HU & Ht & KF & Hk). sound_step n; try (apply KF; [lia|exact Fa]); try (apply (G_reader _ _ c); [lia|exact Go]); lia.
  - destruct S as (HU & HQ & Hk). destruct e; sound_step n.
  - destruct S as (HU & Hk). destruct (Hk _ K) as (d' & -> & KF & Hd). cbn [bind]. sound_step n. apply KF; [lia|exact Fa].
  - destruct S as (HU & HQ & Hb & Hk). destruct (cond d (dat o)) eqn:Ec; [specialize (Hk _ K Ec)|]; sound_step n.
    intros Hb'. apply orb_true_iff in Hb' as [Hb'|Hb']; [|left; split; [exact I|now apply Hb]]. destruct (HB Hb') as [[[] _]|?]. now right.
  - destruct S as (HU & Hk). specialize (Hk _ K). destruct (cond d (dat o)); sound_step n.
  - destruct S as (HU & HN & Hk). destruct (notifies_ok _ _ _ _ _ HN) as [Hnb Hn].
    assert (Ec : corrupt = false) by (destruct corrupt; [|reflexivity]; destruct (HB eq_refl) as [[[] _]|[_ B]]; exfalso; now apply (Hnb (counter_value o) (last_fence o))). subst corrupt.
    destruct (Hn choice (dat o) l K HI) as (l' & o' & -> & HI' & HG). destruct (HG _ _ Hf Hfo Go) as [Go' Ao]. cbn [bind].
    do 4 eexists. exists (n + 1). split; [reflexivity|]. split; [split; cbn; try tauto; discriminate|]. split; [repeat split; exact Ao|right; eauto].
  - sound_step n.
  - sound_step n.
Qed.
End OneStep.

(** *** Both threads *)

Variables FM FS : Z -> Z -> Z -> data -> Prop.
Variable Q : data -> Z -> Prop.
Variable alter : Z -> Z -> data -> data -> Prop.
Variable blame_m blame_s : Z -> Z -> Prop.
Variable notifies : data -> Z -> Z -> Z -> Z -> Prop.

Hypothesis alter_refl : forall c f d, alter c f d d.
Hypothesis alter_trans : forall c f d1 d2 d3, alter c f d1 d2 -> alter c f d2 d3 -> alter c f d1 d3.
Hypothesis FM_fence : forall c f oc f' d, f <= f' -> FM c f oc d -> FM c f' oc d.
Hypothesis FS_fence : forall c f oc f' d, f <= f' -> FS c f oc d -> FS c f' oc d.
Hypothesis FM_reader : forall c f oc oc' d, oc <= oc' -> FM c f oc d -> FM c f oc' d.
Hypothesis FS_reader : forall c f oc oc' d, oc <= oc' -> FS c f oc d -> FS c f oc' d.
Hypothesis notifies_ok : forall d c f n i, notifies d c f n i ->
  (forall oc of_, f <= oc -> of_ <= c -> ~ blame_s oc of_) /\
  forall choice o l, knows FS c f o -> Inv l n -> exists l' o', on_iteration choice d o false i l = Ok (l', o') /\ Inv l' (n + 1) /\
    forall oc of_, f <= oc -> of_ <= c -> FS oc of_ c o -> FS oc of_ c o' /\ alter oc of_ o o'.

(** Only the listener of the master exists, so only the data of the slave is altered. *)
Definition same (c f : Z) (d d' : data) : Prop := d' = d.
Definition nothing (d : data) (n : Z) : Prop := True.
Definition never (d : data) (c f n i : Z) : Prop := False.

Definition safe_m := safe FM FS Q same blame_m notifies.
Definition safe_s := safe FS FM nothing alter blame_s never.

Record both (c : config data C) (n : Z) : Prop := {
  bo_master : sound FM FS Q same blame_m blame_s notifies (master c) (slave c) (corruption_flag c) (listener c) n;
  bo_slave : safe_s (rest (slave c)) (dat (slave c)) (counter_value (slave c)) (last_fence (slave c)) n;
}.

Lemma safe_s_count p : forall d c f n n', safe_s p d c f n -> safe_s p d c f n'.
Proof.
  unfold safe_s. induction p as [|t k IH|t k IH|t k IH|k IH|g k IH|bad cond k IH|cond k1 IH1 k2 IH2|i k IH| |]; intros d c f n n' H; cbn [safe] in *; try exact H.
  - intros d' A. destruct (H d' A) as [_ Hk]. split; [exact I|]. exact (IH _ _ _ _ n' Hk).
  - intros d' A. destruct (H d' A) as (_ & Ht & K & Hk). do 3 (split; [assumption || exact I|]). exact (IH _ _ _ _ n' Hk).
  - destruct H as (U & Ht & K & Hk). do 3 (split; [assumption|]). exact (IH _ _ _ _ n' Hk).
  - destruct H as (U & _ & Hk). do 2 (split; [assumption || exact I|]). exact (IH _ _ _ _ n' Hk).
  - destruct H as (U & Hk). split; [exact U|]. intros o K. destruct (Hk o K) as (d' & E & KK & Hd). exists d'. do 2 (split; [assumption|]). exact (IH _ _ _ _ n' Hd).
  - destruct H as (U & _ & Hb & Hk). do 3 (split; [assumption || exact I|]). intros o K E. exact (IH _ _ _ _ n' (Hk o K E)).
  - destruct H as (U & Hk). split; [exact U|]. intros o K. specialize (Hk o K). destruct (cond d o); [exact (IH1 _ _ _ _ n' Hk)|exact (IH2 _ _ _ _ n' Hk)].
  - destruct H as (_ & [] & _).
Qed.

Lemma step_sound t c n : both c n -> exists c' n', step on_iteration t c = Ok c' /\ both c' n'.
Proof.
  intros [HM HS]. destruct c as [m s corrupt l]. cbn [master slave corruption_flag listener] in *. destruct t as [[] choice]; cbn [step master slave corruption_flag listener].
  - pose proof HM as [Sm Fm Gs Hf Hfo HI HB].
    assert (HS' : sound FS FM nothing alter blame_s blame_m never s m corrupt l n).
    { split; try assumption. intros Ec. destruct (HB Ec); tauto. }
    destruct (act_sound FS FM nothing alter same blame_s blame_m never alter_refl (fun _ _ _ => eq_refl) FS_fence FM_reader ltac:(intros ? ? ? ? ? []) choice s m corrupt l n HS')
      as (s' & m' & corrupt' & l' & n' & -> & [Ss Fs Gm Hf' Hfo' HI' HB'] & (Er & Ecv & Elf & Ed) & Hn). cbn [bind].
    assert (n' = n) as -> by (destruct Hn as [|(i & k & E)]; [assumption|]; rewrite E in HS; destruct HS as (_ & [] & _)).
    exists (mkconfig m' s' corrupt' l'), n. split; [reflexivity|]. split; cbn [master slave corruption_flag listener]; [|exact Ss].
    split; try assumption; [now rewrite Er, Ecv, Elf, Ed|]. intros Ec. destruct (HB' Ec); tauto.
  - destruct (act_sound FM FS Q same alter blame_m blame_s notifies (fun _ _ _ => eq_refl) alter_refl FM_fence FS_reader notifies_ok choice m s corrupt l n HM)
      as (m' & s' & corrupt' & l' & n' & -> & HM' & (Er & Ecv & Elf & Ed) & Hn). cbn [bind].
    exists (mkconfig m' s' corrupt' l'), n'. split; [reflexivity|]. split; cbn [master slave corruption_flag listener]; [exact HM'|].
    rewrite Er, Ecv, Elf. apply (safe_s_count _ _ _ _ n). apply (safe_alter FS FM nothing alter blame_s never alter_trans ltac:(easy) _ (dat s)); assumption.
Qed.

(** Programs that are safe never fail, in whatever order the threads move. *)
Lemma run_sound schedule : forall c n, both c n -> exists c' n', run on_iteration schedule c = Ok c' /\ both c' n'.
Proof.
  induction schedule as [|t schedule IH]; intros c n H; cbn [run]; [now exists c, n|].
  destruct (step_sound t c n H) as (c1 & n1 & -> & H1). exact (IH c1 n1 H1).
Qed.

(** Where the master stops, its data has what it has promised. *)
Lemma both_dead c n : both c n -> dead (rest (master c)) -> Q (dat (master c)) n.
Proof. intros [[S _ _ _ _ _ _] _]. destruct (rest (master c)); cbn; try easy. Qed.
End Soundness.
