(* ===== verification/FastStep.v ===== *)
(** The arithmetic of the phased squaring pipeline: why the numbers of its five phases make up the
    square of the form. *)
From S2P Require Import Prelude NumTheory Gmp QuadForm FormClass Integer FastGcd.

(** The Dirichlet square of (a, b, c), with [k b + c = a m]. *)
Definition dirichlet (a b k m : Z) : form := mkform (a * a) (b + 2 * a * k) (m + k * k).

Lemma dirichlet_composite a b c k m : a <> 0 -> k * b + c = a * m -> composite (mkform a b c) (mkform a b c) (dirichlet a b k m).
Proof.
  intros Ha E. assert (Q : equiv (mkform a b c) (mkform a (b + 2 * a * k) (a * (m + k * k)))).
  { apply (shift_equiv a b c _ _ k Ha eq_refl). unfold disc. cbn [fa fb fc]. nia. }
  rewrite Q. apply united_composite.
Qed.

Section Step.
Variables a b c k m d u0 u1 v0 v1 s t V0 V1 : Z.
Hypothesis Ha : 0 < a.
Hypothesis HD : b * b - 4 * a * c < 0.
Hypothesis Hk : k * b + c = a * m.
Hypothesis Hd : d = 1 \/ d = - 1.
Hypothesis Es : s = d * (u0 * a - v0 * k).
Hypothesis Et : t = d * (v1 * k - u1 * a).
Hypothesis Hdet : u0 * v1 - u1 * v0 = d.
Hypothesis Hv1 : 1 <= v1.
Hypothesis E0 : V0 = - d * v0.
Hypothesis E1 : V1 = d * v1.

Let h := v1 * m - b * u1.

Lemma dd : d * d = 1.
Proof. nia. Qed.

Lemma h_exact : b * t + c * V1 = d * h * a.
Proof. unfold h. rewrite Et, E1. replace c with (a * m - k * b) by lia. ring. Qed.

Lemma det_mul x : u0 * v1 * x - u1 * v0 * x = d * x.
Proof. rewrite <- Hdet. ring. Qed.

Lemma e_exact : 2 * t * (a + d * (t * V0)) = 2 * d * t * s * V1.
Proof.
  assert (Q : a + d * (t * V0) = v1 * s). { rewrite E0, Es, Et. pose proof (det_mul a). destruct Hd as [-> | ->]; lia. }
  rewrite Q, E1. pose proof dd as H. replace (2 * d * t * s * (d * v1)) with (d * d * (2 * t * s * v1)) by ring. rewrite H. ring.
Qed.

Let G := dirichlet a b k m.

Lemma dirichlet_valid : valid (b * b - 4 * a * c) G.
Proof. unfold G, dirichlet. constructor; [|assumption|cbn; nia]. unfold disc. cbn [fa fb fc]. replace (4 * a * c) with (4 * a * (a * m - k * b)) by (rewrite <- Hk; ring). ring. Qed.

(** The new coefficients are those of [G] under a change of variables. *)
Lemma square_act : exists p q r x, p * x - q * r = 1 /\ fa (act p q r x G) = t * t + v1 * h /\ fb (act p q r x G) = - b - 2 * d * t * s - 2 * V0 * h /\ r <> 0.
Proof.
  exists (- u1), (- d * u0), v1, (d * v0). pose proof dd as H. split; [|split; [|split; [|lia]]].
  - replace (- u1 * (d * v0) - - d * u0 * v1) with (d * (u0 * v1 - u1 * v0)) by ring. now rewrite Hdet.
  - unfold G, dirichlet, act, h. cbn [fa fb fc]. rewrite Et. replace (d * (v1 * k - u1 * a) * (d * (v1 * k - u1 * a))) with (d * d * ((v1 * k - u1 * a) * (v1 * k - u1 * a))) by ring.
    rewrite H. ring.
  - unfold G, dirichlet, act, h. cbn [fa fb fc]. rewrite Et, Es, E0. pose proof (det_mul b). destruct Hd as [-> | ->]; lia.
Qed.
End Step.

(** [mpz_mod] of the middle coefficient by 2A. *)
Lemma mod_equiv D g : valid D g -> let B := fb g mod (2 * fa g) in
  (B * B - D) mod (4 * fa g) = 0 /\ equiv g (mkform (fa g) B ((B * B - D) / (4 * fa g))).
Proof.
  intros [Eg Hn Hp] B. pose proof (Z.div_mod (fb g) (2 * fa g) ltac:(lia)) as E. fold B in E. set (n := fb g / (2 * fa g)) in *.
  assert (Ed : B * B - D = (fc g - n * fb g + fa g * n * n) * (4 * fa g)).
  { rewrite <- Eg. unfold disc. replace B with (fb g - 2 * fa g * n) by lia. ring. }
  split; [rewrite Ed; apply Z.mod_mul; lia|]. rewrite (form_eta g) at 1. apply (shift_equiv _ _ _ _ _ (- n)); [lia|lia|].
  rewrite Ed, Z.div_mul by lia. rewrite <- form_eta, Eg. unfold disc. cbn [fa fb fc]. lia.
Qed.

Section Square.
Variables a b c k m d u0 u1 v0 v1 s t V0 V1 : Z.
Hypothesis Ha : 0 < a.
Hypothesis HD : b * b - 4 * a * c < 0.
Hypothesis Hk : k * b + c = a * m.
Hypothesis Hd : d = 1 \/ d = - 1.
Hypothesis Es : s = d * (u0 * a - v0 * k).
Hypothesis Et : t = d * (v1 * k - u1 * a).
Hypothesis Hdet : u0 * v1 - u1 * v0 = d.
Hypothesis Hv1 : 1 <= v1.
Hypothesis E0 : V0 = - d * v0.
Hypothesis E1 : V1 = d * v1.

(** The exact divisions, and the form that the last phase leaves. *)
Lemma square_form : exists h, b * t + c * V1 = d * h * a /\ 2 * t * (a + d * (t * V0)) = 2 * d * t * s * V1 /\
  let A := d * (t * t) + V1 * h in let f := - (b + 2 * d * t * s) - 2 * V0 * h in let B := f mod Z.abs (2 * A) in
  0 < Z.abs A /\ (B * B - (b * b - 4 * a * c)) mod (4 * Z.abs A) = 0 /\
  composite (mkform a b c) (mkform a b c) (mkform (Z.abs A) B ((B * B - (b * b - 4 * a * c)) / (4 * Z.abs A))).
Proof.
  exists (v1 * m - b * u1). split; [eapply h_exact; eassumption|].
  split; [eapply e_exact; eassumption|]. intros A f B.
  destruct (square_act a b k m d u0 u1 v0 v1 s t V0 V1) as (p & q & r & x & Hdet' & Hfa & Hfb & Hr); try assumption.
  assert (HV : valid (b * b - 4 * a * c) (dirichlet a b k m)) by (eapply dirichlet_valid; eassumption). set (g := act p q r x (dirichlet a b k m)) in *.
  assert (Q : equiv (dirichlet a b k m) g) by now apply act_equiv. rewrite Q in HV. pose proof (valid_pos _ _ HV) as Hp.
  assert (EA : A = d * fa g) by (unfold A; rewrite Hfa, E1; ring).
  assert (EA' : Z.abs A = fa g) by (rewrite EA; destruct Hd as [-> | ->]; lia).
  assert (E2 : Z.abs (2 * A) = 2 * fa g) by (rewrite Z.abs_mul, EA'; reflexivity).
  assert (Ef : f = fb g) by (rewrite Hfb; unfold f; lia).
  destruct (mod_equiv _ g HV) as [Hm Hq]. rewrite <- Ef, <- E2 in Hm, Hq. fold B in Hm, Hq. rewrite EA'. split; [lia|]. split; [exact Hm|].
  apply (composite_equiv_3 _ _ (dirichlet a b k m)); [apply dirichlet_composite; [lia|exact Hk]|]. now rewrite Q.
Qed.
End Square.
