(* ===== verification/FastSquare.v ===== *)
(** [src/src/vdf_fast.h]: the phased squaring pipeline, in which two threads share the work of a
    squaring. Each phase of each thread is a list of the steps of [FastThreads], statement by
    statement. The constants of [parameters.h] are those of the production build. *)
From S2P Require Import Prelude Words NumTheory Gmp QuadForm FormClass Integer Forms Nucomp ProofCommon Powers Callback Vdf FastGcd FastThreads FastStep.

Definition max_bits_base : Z := 1024.
Definition num_extra_bits_ab : Z := 3.
Definition validate_interval : Z := 1.

(** ** The state *)

(** The fields of [square_state_type] and of the results of a gcd. Those of [phase_start] and of the
    master's parts belong to the master, those of the slave's parts to the slave. Of a pair of
    buffers that a loop alternates, one variable is kept; [U0] at the end is k. *)
Module V.
Inductive var : Type :=
| a | b | A | B | b_higher_magnitude_than_a | num_valid_iterations
| gcd_a_start | gcd_b_start | gcd_a_end | gcd_b_end
| validate_iter | b_b | a_4 | b_b_D | c | c_remainder | U0 | U1
| v0 | v1
| c_v1 | b_t | b_t_c_v1 | h | v1_h
| t_t_S | v0_2
| A_2
| S_t_v0 | a_S_t_v0 | t_2_a_S_t_v0 | t_2 | t_2_a_S_t_v0_v1 | e
| v0_2_h | f.
Scheme Equality for var.
End V.

(** The data of one thread: its numbers, the entries its gcd has written ([uv_entries]), and what its assembly code is computing. *)
Record data : Type := mkdata {
  z : V.var -> Z;
  entry : Z -> gcd_uv_entry;
  exit_flag : Z -> bool;
  asm_result : list gcd_uv_entry * option (Z * Z);
}.
Coercion z : data >-> Funclass.

Definition set (v : V.var) (x : Z) (d : data) : data := mkdata (fun w => if V.var_beq w v then x else z d w) (entry d) (exit_flag d) (asm_result d).

Definition op : Type := prog data -> prog data.

(** An assignment, of the thread's own data [s] and the other's [o]. *)
Definition assign_ (v : V.var) (e : data -> data -> Z) : op := Do (fun s o : data => Ok (set v (e s o) s)).
Definition assign_res (v : V.var) (e : data -> data -> res Z) : op := Do (fun s o : data => x <- e s o ;; Ok (set v x s)).

(** The divisions of [struct mpz] assert that the divisor is not zero. *)
Definition set_divide_floor (a b : Z) : res Z := require negb (b =? 0) else assertion_failed ;; Ok (a / b).
Definition divide_remainder (a b : Z) : res Z := require negb (b =? 0) else assertion_failed ;; Ok (a mod b).
Definition set_mod (a b : Z) : res Z := require negb (b =? 0) else assertion_failed ;; Ok (a mod Z.abs b).

Definition counter_start_phase_0 : Z := 0.
Definition gcd_num_counter : Z := gcd_max_iterations + 1.
Definition counter_start_phase_1 : Z := counter_start_phase_0 + gcd_num_counter + 1.
Definition counter_start_phase_2 : Z := counter_start_phase_1 + gcd_num_counter + 1.
Definition counter_start_phase_3 : Z := counter_start_phase_2 + 1.
Definition counter_start_phase_4 : Z := counter_start_phase_3 + 1.
Definition counter_start_phase_5 : Z := counter_start_phase_4 + 1.
Definition counter_end : Z := counter_start_phase_5.

(** [fence] and [advance]: [counter_start + uint64 (delta)]. *)
Definition at_counter (counter_start delta : Z) : Z := u64 (counter_start + delta).

(** *** gcd_unsigned *)

Definition write_entry (index : Z) (s : data) : data :=
  let es := fst (asm_result s) in
  mkdata (z s)
    (fun i => if i =? index then nth (Z.to_nat (index - 1)) es (mkentry 0 0 0 0 0) else entry s i)
    (fun i => if i =? index then (index =? Z.of_nat (length es)) && match snd (asm_result s) with Some _ => true | None => false end else exit_flag s i)
    (asm_result s).

(** The assembly code writes one entry after the other and stores the counter after each of them;
    entry 0 is written before the first matrix. *)
Fixpoint publish (n : nat) (index : Z) (counter_start delta : Z) (k : prog data) : prog data :=
  match n with
  | O => k
  | S n =>
      Do (fun s _ : data => Ok (write_entry index s))
      (Publish (at_counter counter_start (delta + index))
      (Branch (fun s _ : data => index =? Z.of_nat (length (fst (asm_result s)))) k (publish n (index + 1) counter_start delta k)))
  end.

Section Pipeline.
Context `{G : Gmp} {Asm : AsmGcd}.
Variables D L : Z.

Definition set_divide_exact (a b : Z) : res Z := require negb (b =? 0) else assertion_failed ;; Ok (mpz_divexact a b).

(** The assembly code reads the limbs of the magnitudes. *)
Definition call_asm (threshold : Z) (s : data) : data :=
  mkdata (z s) (entry s) (exit_flag s) (asm_gcd_unsigned (Z.abs (s V.gcd_a_start)) (Z.abs (s V.gcd_b_start)) threshold).

Definition finish_gcd (s : data) : data :=
  match snd (asm_result s) with Some (a, b) => set V.gcd_b_end b (set V.gcd_a_end a s) | None => s end.

Definition gcd_unsigned (counter_start delta threshold : Z) : list op := [
  HasError;
  Guard false (fun s _ : data => (mpz_size (s V.gcd_a_start) <=? gcd_size) && (mpz_size (s V.gcd_b_start) <=? gcd_size));
  Do (fun s _ : data => Ok (call_asm threshold s));
  publish (Z.to_nat gcd_num_counter) 0 counter_start delta;
  Guard false (fun s _ : data => match snd (asm_result s) with Some _ => true | None => false end);
  Do (fun s _ : data => Ok (finish_gcd s));
  Advance (at_counter counter_start (delta + gcd_num_counter))
].

(** *** get_entry, and the loops that consume the matrices *)

Definition apply_entry (index : Z) (x y : V.var) (s o : data) : data :=
  let '(x', y') := matrix_multiply (entry o index) (s x) (s y) in set y y' (set x x' s).

(** [n] is what is left of [gcd_max_iterations+1] entries. *)
Fixpoint entry_loop (n : nat) (index : Z) (counter_start delta : Z) (x y : V.var) (k : prog data) : prog data :=
  match n with
  | O => Raise
  | S n =>
      Fence (at_counter counter_start (delta + index + 1))
      ((if index =? 0 then fun k => k else Do (fun s o : data => Ok (apply_entry index x y s o)))
      (Branch (fun _ o : data => exit_flag o index) k (entry_loop n (index + 1) counter_start delta x y k)))
  end.

Definition entries (counter_start delta : Z) (x y : V.var) : op := entry_loop (Z.to_nat gcd_num_counter) 0 counter_start delta x y.

(** ** The phases *)

Definition is_true (x : Z) : bool := negb (x =? 0).

Definition phase_0_master (counter_start : Z) : list op :=
  let max_bits_ab := max_bits_base + num_extra_bits_ab in [
  Fence (at_counter counter_start counter_start_phase_0);
  Guard false (fun m _ : data => (mpz_sizeinbase2 (m V.a) <=? max_bits_ab) && (mpz_sizeinbase2 (m V.b) <=? max_bits_ab) && (0 <=? m V.a));
  Guard false (fun m _ : data => mpz_size L <? mpz_size (m V.a));
  assign_ V.gcd_a_start (fun m _ => if is_true (m V.b_higher_magnitude_than_a) then m V.b else m V.a);
  assign_ V.gcd_b_start (fun m _ => if is_true (m V.b_higher_magnitude_than_a) then m V.a else m V.b)
] ++ gcd_unsigned counter_start counter_start_phase_0 0.

Definition validate_c (s _ : data) : bool := (Z.land (s V.validate_iter) (validate_interval - 1) =? 0) && negb (validate_interval =? -1).

Definition phase_0_slave (counter_start : Z) : list op := [
  Fence (at_counter counter_start counter_start_phase_0);
  assign_res V.validate_iter (fun s _ => int_of (s V.validate_iter + 1));
  assign_ V.b_b (fun s m => m V.b * m V.b);
  assign_ V.a_4 (fun s m => Z.shiftl (m V.a) 2);
  assign_ V.b_b_D (fun s m => s V.b_b - D);
  (fun k => Branch validate_c
     (seq [
        assign_res V.c (fun s _ => set_divide_floor (s V.b_b_D) (s V.a_4));
        assign_res V.c_remainder (fun s _ => divide_remainder (s V.b_b_D) (s V.a_4));
        Guard true (fun s _ : data => s V.c_remainder =? 0)] k)
     (assign_res V.c (fun s _ => set_divide_exact (s V.b_b_D) (s V.a_4)) k));
  Guard true (fun s m : data => negb ((m V.a <? 0) || (s V.c <? 0)));
  assign_ V.U0 (fun s m => if is_true (m V.b_higher_magnitude_than_a) then 1 else 0);
  assign_ V.U1 (fun s m => if is_true (m V.b_higher_magnitude_than_a) then 0 else 1);
  assign_ V.U0 (fun s m => if m V.b <? 0 then - s V.U0 else s V.U0);
  assign_ V.U1 (fun s m => if m V.b <? 0 then - s V.U1 else s V.U1);
  entries counter_start counter_start_phase_0 V.U0 V.U1;
  assign_ V.U0 (fun s _ => s V.U0 * s V.c);
  assign_ V.U0 (fun s _ => - s V.U0);
  assign_res V.U0 (fun s m => set_mod (s V.U0) (m V.a))
].

Definition phase_1_master (counter_start : Z) : list op := [
  Fence (at_counter counter_start counter_start_phase_1);
  assign_ V.v0 (fun _ _ => 0);
  assign_ V.v1 (fun _ _ => 1);
  entries counter_start counter_start_phase_1 V.v0 V.v1
].

Definition phase_1_slave (counter_start : Z) : list op := [
  Fence (at_counter counter_start counter_start_phase_0);
  assign_ V.gcd_a_start (fun s m => m V.a);
  assign_ V.gcd_b_start (fun s m => s V.U0)
] ++ gcd_unsigned counter_start counter_start_phase_1 L.

(** [v1().sgn()<=0] *)
Definition S_negative (m : data) : bool := m V.v1 <=? 0.

Definition phase_2_master (counter_start : Z) : list op := [
  Fence (at_counter counter_start counter_start_phase_1);
  assign_ V.c_v1 (fun m s => s V.c * m V.v1);
  Fence (at_counter counter_start counter_start_phase_2);
  assign_ V.b_t (fun m s => m V.b * s V.gcd_b_end);
  assign_ V.b_t_c_v1 (fun m s => m V.b_t + m V.c_v1);
  assign_res V.h (fun m s => set_divide_exact (m V.b_t_c_v1) (m V.a));
  assign_ V.h (fun m s => if S_negative m then - m V.h else m V.h);
  assign_ V.v1_h (fun m s => m V.v1 * m V.h)
].

Definition phase_2_slave (counter_start : Z) : list op := [
  Fence (at_counter counter_start counter_start_phase_1);
  assign_ V.t_t_S (fun s m => s V.gcd_b_end * s V.gcd_b_end);
  Fence (at_counter counter_start counter_start_phase_2);
  assign_ V.t_t_S (fun s m => if S_negative m then - s V.t_t_S else s V.t_t_S);
  assign_ V.v0_2 (fun s m => Z.shiftl (m V.v0) 1)
].

Definition phase_3_master (counter_start : Z) : list op := [
  Fence (at_counter counter_start counter_start_phase_3);
  assign_ V.A (fun m s => s V.t_t_S + m V.v1_h);
  assign_ V.A_2 (fun m s => Z.shiftl (m V.A) 1)
].

Definition phase_3_slave (counter_start : Z) : list op := [
  Fence (at_counter counter_start counter_start_phase_2);
  assign_ V.S_t_v0 (fun s m => s V.gcd_b_end * m V.v0);
  assign_ V.S_t_v0 (fun s m => if S_negative m then - s V.S_t_v0 else s V.S_t_v0);
  assign_ V.a_S_t_v0 (fun s m => m V.a + s V.S_t_v0);
  assign_ V.t_2 (fun s m => Z.shiftl (s V.gcd_b_end) 1);
  assign_ V.t_2_a_S_t_v0 (fun s m => s V.t_2 * s V.a_S_t_v0);
  assign_res V.t_2_a_S_t_v0_v1 (fun s m => set_divide_exact (s V.t_2_a_S_t_v0) (m V.v1));
  assign_ V.e (fun s m => m V.b + s V.t_2_a_S_t_v0_v1);
  assign_ V.e (fun s m => - s V.e)
].

(** [ab_index=1-ab_index]: the new values become a and b. *)
Definition switch_ab (m : data) : data := set V.A (m V.a) (set V.B (m V.b) (set V.a (m V.A) (set V.b (m V.B) m))).

Definition phase_4_master (counter_start : Z) : list op := [
  Fence (at_counter counter_start counter_start_phase_3);
  Guard true (fun m _ : data => m V.gcd_a_end =? 1);
  Guard true (fun m _ : data => m V.gcd_b_end =? 0);
  assign_ V.v0_2_h (fun m s => s V.v0_2 * m V.h);
  Fence (at_counter counter_start counter_start_phase_4);
  assign_ V.f (fun m s => s V.e - m V.v0_2_h);
  assign_res V.B (fun m s => set_mod (m V.f) (m V.A_2));
  assign_ V.A (fun m s => Z.abs (m V.A));
  assign_ V.b_higher_magnitude_than_a (fun m s => Z.b2z (Z.abs (m V.A) <=? Z.abs (m V.B)));
  Do (fun m _ : data => Ok (switch_ab m));
  assign_ V.num_valid_iterations (fun m _ => u64 (m V.num_valid_iterations + 1))
].

Definition phase_4_slave (counter_start : Z) : list op := [].

Definition num_phases : nat := 5.

Definition get_counter_start (phase : nat) : Z := nth phase [counter_start_phase_0; counter_start_phase_1; counter_start_phase_2; counter_start_phase_3; counter_start_phase_4] 0.

Definition call_phase (counter_start : Z) (phase : nat) (is_slave : bool) : list op :=
  let funcs_master := [phase_0_master; phase_1_master; phase_2_master; phase_3_master; phase_4_master] in
  let funcs_slave := [phase_0_slave; phase_1_slave; phase_2_slave; phase_3_slave; phase_4_slave] in
  nth phase (if is_slave then funcs_slave else funcs_master) (fun _ => []) counter_start.

(** *** repeated_square_fast_work *)

Definition all_phases (counter_start : Z) (is_slave : bool) : list op :=
  flat_map (fun phase => Advance (at_counter counter_start (get_counter_start phase)) :: call_phase counter_start phase is_slave) (List.seq 0 num_phases).

(** [n] iterations are left; [iter] are done. *)
Fixpoint repeated_square_fast_work (n : nat) (iter counter_start : Z) (is_slave : bool) (base : Z) : prog data :=
  match n with
  | O => Finish
  | S n =>
      let next := repeated_square_fast_work n (iter + 1) (u64 (counter_start + counter_end)) is_slave base in
      seq (all_phases counter_start is_slave) (if is_slave then next else Notify (u64 (base + iter)) next)
  end.

(** ** init and assign *)

(** The other fields keep what [garbage] has in them. *)
Definition init (garbage : data) (t_a t_b : Z) : data :=
  set V.b_higher_magnitude_than_a (Z.b2z (Z.abs t_a <=? Z.abs t_b)) (set V.b t_b (set V.a t_a (set V.num_valid_iterations 0 garbage))).

(** The form that it writes, and the fields of the slave that it uses. *)
Definition assign (corruption_flag : bool) (m s : data) : res (option form * data) :=
  if corruption_flag then Ok (None, s)
  else
    let s := set V.b_b (m V.b * m V.b) s in
    let s := set V.a_4 (Z.shiftl (m V.a) 2) s in
    let s := set V.b_b_D (s V.b_b - D) s in
    q <- set_divide_floor (s V.b_b_D) (s V.a_4) ;;
    r <- divide_remainder (s V.b_b_D) (s V.a_4) ;;
    let s := set V.c_remainder r (set V.c q s) in
    if is_true r || (m V.a <? 0) || (q <? 0) then Ok (None, s) else Ok (Some (mkform (m V.a) (m V.b) q), s).

Section Threads.
Context {C : Type} `{Li : Listener C}.

(** A listener that stores the form calls [assign]. *)
Definition on_iteration (choice : bool) (m s : data) (corruption_flag : bool) (iteration : Z) (l : option C) : res (option C * data) :=
  ' (assigned, s') <- assign corruption_flag m s ;;
  l <- notify l (NL_SQUARESTATE assigned) iteration ;;
  Ok (l, if choice then s' else s).

(** [to_array] asserts that L has at most [gcd_size] limbs. *)
Definition start (garbage_m garbage_s : data) (f : form) (base iterations : Z) (l : option C) : res (config data (option C)) :=
  require mpz_size L <=? gcd_size else assertion_failed ;;
  let m := init garbage_m (fa f) (fb f) in
  let work is_slave := repeated_square_fast_work (Z.to_nat iterations) 0 0 is_slave base in
  Ok (mkconfig (mkthread (work false) m 0 false 0 0) (mkthread (work true) garbage_s 0 false 0 0) false l).

(** The result in [num_iterations], with the form and the listener; it is -1 as a [uint64] when [assign] fails. *)
Definition repeated_square_fast_multithread (schedule : list turn) (garbage_m garbage_s : data) (f : form) (base iterations : Z) (l : option C)
  : res (Z * form * option C) :=
  c <- start garbage_m garbage_s f base iterations l ;;
  c <- run on_iteration schedule c ;;
  require both_finished c else out_of_fuel ;;
  ' (assigned, _) <- assign (corruption_flag c) (dat (master c)) (dat (slave c)) ;;
  Ok (match assigned with
      | Some f => (dat (master c) V.num_valid_iterations, f, listener c)
      | None => (2 ^ 64 - 1, f, listener c)
      end).
End Threads.
End Pipeline.
