(* ===== verification/FastLoops.v ===== *)
(** The two loops of the pipeline in the logic of [FastThreads]: the thread that writes the matrices
    of a gcd, and the one that multiplies by them. *)
From S2P Require Import Prelude NumTheory Gmp FastGcd FastThreads FastSquare.

Lemma seq_app {data} (xs ys : list (prog data -> prog data)) k : seq (xs ++ ys) k = seq xs (seq ys k).
Proof. unfold seq. apply fold_right_app. Qed.

Lemma set_same v x d : set v x d v = x.
Proof. cbn. now rewrite (V.internal_var_dec_lb v v eq_refl). Qed.

Lemma set_other v x d w : w <> v -> set v x d w = d w.
Proof. intros H. cbn. destruct (V.var_beq w v) eqn:E; [|reflexivity]. now apply V.internal_var_dec_bl in E. Qed.

(** The data differ at most in the variables [vs]. *)
Record agree (vs : list V.var) (d d' : data) : Prop := {
  ag_z : forall v, ~ In v vs -> d' v = d v;
  ag_entry : entry d' = entry d;
  ag_exit : exit_flag d' = exit_flag d;
  ag_asm : asm_result d' = asm_result d;
}.

Lemma agree_refl vs d : agree vs d d.
Proof. now split. Qed.

Lemma agree_trans vs d1 d2 d3 : agree vs d1 d2 -> agree vs d2 d3 -> agree vs d1 d3.
Proof. intros [A1 A2 A3 A4] [B1 B2 B3 B4]. split; try congruence. intros v H. now rewrite B1, A1. Qed.

Lemma agree_set vs v x d : In v vs -> agree vs d (set v x d).
Proof. intros H. split; try reflexivity. intros w Hw. apply set_other. now intros ->. Qed.

Lemma matrices_snoc es e x y : matrices (es ++ [e]) x y = matrix_multiply e (fst (matrices es x y)) (snd (matrices es x y)).
Proof. unfold matrices. rewrite fold_left_app. cbn [fold_left]. now destruct (fold_left _ es (x, y)). Qed.

Lemma firstn_snoc {A} (l : list A) j d : (j < length l)%nat -> firstn (S j) l = firstn j l ++ [nth j l d].
Proof. revert j. induction l as [|x l IH]; intros [|j] Hj; cbn [length] in Hj; try lia; [reflexivity|]. cbn [firstn nth app]. f_equal. apply IH. lia. Qed.

Section Loops.
Variable F G : Z -> Z -> Z -> data -> Prop.
Variable Q : data -> Z -> Prop.
Variable alter : Z -> Z -> data -> data -> Prop.
Variable blame : Z -> Z -> Prop.
Variable notifies : data -> Z -> Z -> Z -> Z -> Prop.
Abbreviation Safe := (safe F G Q alter blame notifies).
Variables cs delta n c : Z.

(** *** The rules for one step *)

Section Rules.
Variables (d : data) (f : Z) (k : prog data).
Hypothesis Hun : unaltered alter c f d.

Lemma wp_fence t : Q d n -> (forall f', f <= f' -> t <= f' -> Safe k d c f' n) -> Safe (Fence t k) d c f n.
Proof. intros HQ Hk d' A. rewrite (Hun d' A). split; [exact HQ|]. apply Hk; lia. Qed.

Lemma wp_advance t : Q d n -> c <= t -> keeps F c t f d d -> Safe k d t f n -> Safe (Advance t k) d c f n.
Proof. intros HQ Ht HF Hk d' A. now rewrite (Hun d' A). Qed.

Lemma wp_guard bad cond : Q d n -> (bad = true -> blame c f) -> (forall o, knows G c f o -> cond d o = true -> Safe k d c f n) -> Safe (Guard bad cond k) d c f n.
Proof. intros HQ Hb Hk. now split. Qed.

Lemma wp_do g d' : (forall o, knows G c f o -> g d o = Ok d') -> keeps F c c f d d' -> Safe k d' c f n -> Safe (Do g k) d c f n.
Proof. intros Hg HF Hk. split; [exact Hun|]. intros o K. exists d'. now rewrite (Hg o K). Qed.

Lemma wp_assign v e x : (forall o, knows G c f o -> e d o = x) -> keeps F c c f d (set v x d) -> Safe k (set v x d) c f n -> Safe (assign_ v e k) d c f n.
Proof. intros He HF Hk. apply (wp_do _ (set v x d)); [|exact HF|exact Hk]. intros o K. now rewrite (He o K). Qed.

Lemma wp_assign_res v e x : (forall o, knows G c f o -> e d o = Ok x) -> keeps F c c f d (set v x d) -> Safe k (set v x d) c f n -> Safe (assign_res v e k) d c f n.
Proof. intros He HF Hk. apply (wp_do _ (set v x d)); [|exact HF|exact Hk]. intros o K. now rewrite (He o K). Qed.
End Rules.

(** *** The matrices of the other thread *)

Section Entries.
Variable es : list gcd_uv_entry.
Variable success : bool.
Variables x y : V.var.
Variables f0 x0 y0 : Z.
Variable d0 : data.
Variable k : prog data.
Hypothesis Hxy : x <> y.
Hypothesis Hes : Z.of_nat (length es) <= gcd_max_iterations.
Hypothesis Hun : forall d f, f0 <= f -> unaltered alter c f d.
Hypothesis HQ : forall d, agree [x; y] d0 d -> Q d n.
Hypothesis Hkeep : forall d d' f, f0 <= f -> agree [x; y] d d' -> keeps F c c f d d'.
Hypothesis Hentry : forall j o f, 0 <= j <= Z.of_nat (length es) -> f0 <= f -> at_counter cs (delta + j + 1) <= f -> knows G c f o ->
  (1 <= j -> entry o j = nth (Z.to_nat (j - 1)) es (mkentry 0 0 0 0 0)) /\ exit_flag o j = (j =? Z.of_nat (length es)) && success.
Hypothesis Hsuccess : forall o f, f0 <= f -> at_counter cs (delta + Z.of_nat (length es) + 1) <= f -> knows G c f o -> success = true.
Hypothesis Hk : forall d f, f0 <= f -> success = true -> agree [x; y] d0 d -> d x = fst (matrices es x0 y0) -> d y = snd (matrices es x0 y0) -> Safe k d c f n.

(** [j] matrices are multiplied. *)
Definition multiplied (j : nat) (d : data) : Prop := agree [x; y] d0 d /\ d x = fst (matrices (firstn j es) x0 y0) /\ d y = snd (matrices (firstn j es) x0 y0).

Lemma multiplied_next j d o : (j < length es)%nat -> multiplied j d -> entry o (Z.of_nat (S j)) = nth j es (mkentry 0 0 0 0 0) ->
  multiplied (S j) (apply_entry (Z.of_nat (S j)) x y d o) /\ agree [x; y] d (apply_entry (Z.of_nat (S j)) x y d o).
Proof.
  intros Hj (HA & Ex & Ey) He. unfold apply_entry. rewrite He, Ex, Ey. set (e := nth j es _).
  assert (Em : matrices (firstn (S j) es) x0 y0 = matrix_multiply e (fst (matrices (firstn j es) x0 y0)) (snd (matrices (firstn j es) x0 y0)))
    by (unfold e; rewrite (firstn_snoc _ _ (mkentry 0 0 0 0 0) Hj); apply matrices_snoc).
  destruct (matrix_multiply e _ _) as [x' y']. assert (A : agree [x; y] d (set y y' (set x x' d))).
  { apply (agree_trans _ _ (set x x' d)); apply agree_set; cbn; tauto. }
  split; [|exact A]. split; [now apply (agree_trans _ _ d)|]. rewrite Em. cbn [fst snd]. split; [rewrite set_other by exact Hxy|]; apply set_same.
Qed.

Lemma entry_loop_ok m : forall j d f, (m + j = Z.to_nat gcd_num_counter)%nat -> (j <= length es)%nat -> multiplied (pred j) d -> f0 <= f ->
  Safe (entry_loop m (Z.of_nat j) cs delta x y k) d c f n.
Proof.
  induction m as [|m IH]; intros j d f Hm Hj HM Hf; cbn [entry_loop]. { unfold gcd_num_counter, gcd_max_iterations, gcd_size in *. lia. }
  set (t := at_counter cs (delta + Z.of_nat j + 1)). cbn [safe]. intros d' A. rewrite (Hun d f Hf d' A). split; [apply HQ; apply HM|].
  set (f' := Z.max f t). assert (Hf' : f0 <= f') by lia. assert (Ht : t <= f') by lia. clearbody f'.
  assert (B : forall d, multiplied j d -> Safe (Branch (fun _ o : data => exit_flag o (Z.of_nat j)) k (entry_loop m (Z.of_nat j + 1) cs delta x y k)) d c f' n).
  { intros d2 HM2. cbn [safe]. split; [now apply Hun|]. intros o K. destruct (Hentry (Z.of_nat j) o f' ltac:(lia) Hf' Ht K) as [_ Ee].
    destruct (exit_flag o (Z.of_nat j)) eqn:Ex; symmetry in Ee.
    - apply andb_true_iff in Ee as [Ej Es]. apply Z.eqb_eq in Ej. destruct HM2 as (HA & Hx & Hy). replace j with (length es) in Hx, Hy by lia. rewrite firstn_all in Hx, Hy. now apply Hk.
    - replace (Z.of_nat j + 1) with (Z.of_nat (S j)) by lia. apply IH; [lia| |exact HM2|exact Hf']. destruct (Nat.eq_dec j (length es)) as [E|]; [|lia]. exfalso.
      subst j. rewrite Z.eqb_refl in Ee. rewrite (Hsuccess o f' Hf' Ht K) in Ee. discriminate. }
  destruct j as [|j]; [now apply B|]. cbn [Z.of_nat Z.eqb]. cbn [safe]. split; [now apply Hun|]. intros o K.
  destruct (Hentry (Z.of_nat (S j)) o f' ltac:(lia) Hf' Ht K) as [He _]. specialize (He ltac:(lia)). replace (Z.to_nat (Z.of_nat (S j) - 1)) with j in He by lia.
  destruct (multiplied_next j d o ltac:(lia) HM He) as [HM' HA]. eexists. split; [reflexivity|]. split; [now apply Hkeep|]. now apply B.
Qed.

Lemma entries_ok d f : agree [x; y] d0 d -> d x = x0 -> d y = y0 -> f0 <= f -> Safe (entries cs delta x y k) d c f n.
Proof. intros HA Hx Hy Hf. apply (entry_loop_ok _ 0); [lia|lia| |exact Hf]. split; [exact HA|]. now split. Qed.
End Entries.

(** *** The matrices that this thread writes *)

Section Gcd.
Context `{GL : GmpLaws} {Asm : AsmGcd}.
Variables threshold f : Z.
Variable d0 : data.
Variable k : prog data.
Let r := asm_gcd_unsigned (Z.abs (d0 V.gcd_a_start)) (Z.abs (d0 V.gcd_b_start)) threshold.
Let es := fst r.

Definition written (j : Z) (d : data) : Prop :=
  (forall v, v <> V.gcd_a_end -> v <> V.gcd_b_end -> d v = d0 v) /\ asm_result d = r /\
  forall i, 0 <= i < j -> (1 <= i -> entry d i = nth (Z.to_nat (i - 1)) es (mkentry 0 0 0 0 0)) /\
    exit_flag d i = (i =? Z.of_nat (length es)) && match snd r with Some _ => true | None => false end.

Let len := Z.of_nat (length es).

Hypothesis Hes : len <= gcd_max_iterations.
Hypothesis Hat : forall j, 0 <= j <= gcd_num_counter -> at_counter cs (delta + j) = c + j.
Hypothesis Hun : forall d c', c <= c' <= c + gcd_num_counter -> unaltered alter c' f d.
Hypothesis HQ : forall d j, written j d -> Q d n.
Hypothesis HQ0 : Q d0 n.
Hypothesis Kasm : keeps F c c f d0 (call_asm threshold d0).
Hypothesis Kwrite : forall j d c', 0 <= j <= len -> c <= c' <= c + j -> written j d -> keeps F c' c' f d (write_entry j d).
Hypothesis Kpublish : forall j d c', 0 <= j <= len -> c <= c' <= c + j -> written (j + 1) d -> keeps F c' (c + j) f d d.
Hypothesis Kfinish : forall d, written (len + 1) d -> keeps F (c + len) (c + len) f d (finish_gcd d).
Hypothesis Kadvance : forall d, snd r <> None -> written (len + 1) d -> keeps F (c + len) (c + gcd_num_counter) f d d.
Hypothesis Hk : forall d a b, snd r = Some (a, b) -> written (len + 1) d -> d V.gcd_a_end = a -> d V.gcd_b_end = b -> Safe k d (c + gcd_num_counter) f n.

Lemma write_entry_written j d : 0 <= j -> written j d -> written (j + 1) (write_entry j d).
Proof.
  intros Hj (H1 & H2 & H3). split; [exact H1|]. split; [exact H2|]. intros i Hi. cbn [write_entry entry exit_flag]. rewrite H2. destruct (Z.eqb_spec i j) as [->|Hn]; [|apply H3; lia].
  split; reflexivity.
Qed.

Lemma publish_safe k' : (forall d, written (len + 1) d -> Safe k' d (c + len) f n) ->
  forall m j d c', (m + Z.to_nat j = Z.to_nat gcd_num_counter)%nat -> 0 <= j <= len -> c <= c' <= c + j -> written j d -> Safe (publish m j cs delta k') d c' f n.
Proof.
  intros Hk'. induction m as [|m IH]; intros j d c' Hm Hj Hc HW; cbn [publish safe]. { unfold gcd_num_counter, gcd_max_iterations, gcd_size in *. lia. }
  assert (Hb : c' <= c + gcd_num_counter) by (unfold gcd_num_counter; lia).
  split; [apply Hun; lia|]. intros o _. exists (write_entry j d). split; [reflexivity|]. split; [apply Kwrite; try assumption; lia|].
  pose proof (write_entry_written j d ltac:(lia) HW) as HW'. split; [apply Hun; lia|]. rewrite Hat by (unfold gcd_num_counter; lia). split; [lia|]. split; [apply Kpublish; try assumption; lia|].
  split; [apply Hun; unfold gcd_num_counter; lia|]. intros o' _. assert (El : length (fst (asm_result (write_entry j d))) = length es) by (destruct HW' as (_ & -> & _); reflexivity).
  rewrite El. fold len. destruct (Z.eqb_spec j len) as [->|Hn]; [now apply Hk'|]. apply IH; try assumption; lia.
Qed.

Lemma gcd_unsigned_ok : Safe (seq (gcd_unsigned cs delta threshold) k) d0 c f n.
Proof.
  assert (H0 : 0 <= len) by (unfold len; lia). assert (Hb : c + len <= c + gcd_num_counter) by (unfold gcd_num_counter; lia).
  unfold gcd_unsigned. cbn [seq fold_right safe]. split; [apply Hun; unfold gcd_num_counter, gcd_max_iterations, gcd_size; lia|]. split; [exact HQ0|].
  split; [apply Hun; lia|]. split; [exact HQ0|]. split; [discriminate|]. intros _ _ _. split; [apply Hun; lia|]. intros _ _.
  exists (call_asm threshold d0). split; [reflexivity|]. split; [exact Kasm|].
  apply publish_safe; [|reflexivity|lia|lia|]; [|split; [reflexivity|]; split; [reflexivity|lia]].
  intros d HW. cbn [safe]. split; [apply Hun; lia|]. split; [now apply (HQ d (len + 1))|]. split; [discriminate|]. intros _ _. pose proof HW as (H1 & H2 & H3). rewrite H2.
  destruct (snd r) as [[a b]|] eqn:Er; [intros _|discriminate]. split; [apply Hun; lia|]. intros _ _. exists (finish_gcd d). split; [reflexivity|]. split; [now apply Kfinish|].
  assert (HWf : written (len + 1) (finish_gcd d)).
  { unfold finish_gcd, written. rewrite H2, Er. split; [intros v Hv Hv'; rewrite !set_other by assumption; now apply H1|]. split; [exact H2|exact H3]. }
  intros d' A. rewrite (Hun _ (c + len) ltac:(lia) d' A). split; [now apply (HQ _ (len + 1) HWf)|]. rewrite Hat by (unfold gcd_num_counter; lia). split; [lia|].
  split; [apply Kadvance; [discriminate|exact HWf]|]. assert (Ef : finish_gcd d = set V.gcd_b_end b (set V.gcd_a_end a d)) by (unfold finish_gcd; now rewrite H2, Er).
  apply (Hk _ a b); [reflexivity|exact HWf| |]; rewrite Ef; [rewrite set_other by discriminate|]; apply set_same.
Qed.
End Gcd.
End Loops.
