(* ===== verification/FastProof.v ===== *)
(** The pipeline squares: in every order in which the two threads can move, the master's form is
    the square of the one before, and what a thread reads is what the other has computed for the
    same iteration. *)
From S2P Require Import Prelude Words NumTheory Gmp QuadForm FormClass Integer Forms Nucomp ProofCommon Powers Callback Vdf FastGcd FastThreads FastStep FastSquare FastLoops.

Section Values.
Context `{GL : GmpLaws} {Asm : AsmGcd} {AL : AsmGcdLaws Asm}.
Variables D L : Z.

(** ** What one iteration computes from a and b *)

Section Iteration.
Variables a b : Z.

Definition b_higher : bool := Z.abs a <=? Z.abs b.
Definition gcd_1_0 := asm_gcd_unsigned (Z.abs (if b_higher then b else a)) (Z.abs (if b_higher then a else b)) 0.
Definition val_c : Z := (b * b - D) / Z.shiftl a 2.
Definition val_U : Z :=
  fst (matrices (fst gcd_1_0) (let x := if b_higher then 1 else 0 in if b <? 0 then - x else x) (let y := if b_higher then 0 else 1 in if b <? 0 then - y else y)).
Definition val_k : Z := (- (val_U * val_c)) mod Z.abs a.
Definition gcd_s_t := asm_gcd_unsigned (Z.abs a) (Z.abs val_k) L.
Definition val_v0 : Z := fst (matrices (fst gcd_s_t) 0 1).
Definition val_v1 : Z := snd (matrices (fst gcd_s_t) 0 1).
Definition val_t : Z := match snd gcd_s_t with Some (_, t) => t | None => 0 end.
Definition signed (x : Z) : Z := if val_v1 <=? 0 then - x else x.
Definition val_h : Z := signed (mpz_divexact (b * val_t + val_c * val_v1) a).
Definition val_t_t_S : Z := signed (val_t * val_t).
Definition val_v0_2 : Z := Z.shiftl val_v0 1.
Definition val_A : Z := val_t_t_S + val_v1 * val_h.
Definition val_e : Z := - (b + mpz_divexact (Z.shiftl val_t 1 * (a + signed (val_t * val_v0))) val_v1).
Definition val_f : Z := val_e - val_v0_2 * val_h.
Definition val_B : Z := val_f mod Z.abs (Z.shiftl val_A 1).

(** *** It is a square *)

Variable c : Z.
Hypothesis Ha : 0 < a.
Hypothesis HD : D < 0.
Hypothesis Ec : b * b - D = 4 * a * c.
Hypothesis HL : 0 <= L < a.
Hypothesis Hlim : a < 2 ^ (64 * gcd_size) /\ Z.abs b < 2 ^ (64 * gcd_size).

Lemma val_c_eq : val_c = c.
Proof. unfold val_c. rewrite Z.shiftl_mul_pow2, Ec by lia. change (2 ^ 2) with 4. replace (4 * a * c) with (c * (a * 4)) by ring. apply Z.div_mul. lia. Qed.

(** The first gcd inverts b. *)
Lemma val_U_ok : snd gcd_1_0 = Some (1, 0) -> exists q, val_U * b = 1 + a * q.
Proof.
  intros E. unfold val_U. destruct gcd_1_0 as [es r] eqn:Eg. cbn [snd] in E. subst r. cbn [fst]. unfold gcd_1_0, b_higher in *.
  assert (S : forall x y u q, fst (matrices es x y) = u -> u * Z.abs b = 1 + a * q -> exists q, fst (matrices es (if b <? 0 then - x else x) (if b <? 0 then - y else y)) * b = 1 + a * q).
  { intros x y u q Eu Eq. exists q. destruct (Z.ltb_spec b 0); [rewrite matrices_opp; cbn [fst]|]; rewrite Eu; nia. }
  destruct (Z.leb_spec (Z.abs a) (Z.abs b)) as [H|H]; cbn zeta.
  - destruct (asm_gcd_outcome (Z.abs b) (Z.abs a) 0 es 1 0 ltac:(lia) ltac:(lia) ltac:(lia) Eg) as (d & u0 & u1 & v0 & v1 & [Hd E1 _ _ _ _ M10 _]).
    apply (S 1 0 (d * u0) (d * v0)); [now rewrite M10|]. rewrite (Z.abs_eq a) in E1 by lia. nia.
  - destruct (asm_gcd_outcome (Z.abs a) (Z.abs b) 0 es 1 0 ltac:(lia) ltac:(lia) ltac:(lia) Eg) as (d & u0 & u1 & v0 & v1 & [Hd E1 _ _ _ _ _ M01]).
    apply (S 0 1 (- d * v0) (- d * u0)); [now rewrite M01|]. rewrite (Z.abs_eq a) in E1 by lia. nia.
Qed.

Lemma val_k_ok : snd gcd_1_0 = Some (1, 0) -> 0 <= val_k < a /\ exists m, val_k * b + c = a * m.
Proof.
  intros E. unfold val_k. rewrite (Z.abs_eq a), val_c_eq by lia. split; [now apply Z.mod_pos_bound|]. destruct (val_U_ok E) as [q Hq].
  pose proof (Z.div_mod (- (val_U * c)) a ltac:(lia)) as Ed. set (n := - (val_U * c) / a) in *. exists (- n * b - q * c).
  replace (- (val_U * c) mod a) with (- (val_U * c) - a * n) by lia. replace ((- (val_U * c) - a * n) * b + c) with (- (val_U * b) * c - a * n * b + c) by ring. rewrite Hq. ring.
Qed.

(** The second one: v1 is not 0, and its sign is the one of the cofactors. *)
Lemma val_v_ok s t : 0 <= val_k < a -> snd gcd_s_t = Some (s, t) -> exists d u0 u1 v0 v1, gcd_outcome a val_k L (fst gcd_s_t) s t d u0 u1 v0 v1 /\
  val_v0 = - d * v0 /\ val_v1 = d * v1 /\ (forall x, signed x = d * x) /\ val_v1 <> 0.
Proof.
  intros Hk E. assert (Eg : gcd_s_t = (fst gcd_s_t, Some (s, t))) by (rewrite <- E; now destruct gcd_s_t). unfold gcd_s_t at 1 in Eg. rewrite (Z.abs_eq a), (Z.abs_eq val_k) in Eg by lia.
  destruct (asm_gcd_outcome a val_k L _ s t ltac:(lia) ltac:(lia) ltac:(lia) Eg) as (d & u0 & u1 & v0 & v1 & HO). exists d, u0, u1, v0, v1. split; [exact HO|].
  destruct HO as [Hd _ _ _ [_ Hv1] _ _ M01]. unfold signed, val_v0, val_v1. rewrite M01. cbn [fst snd]. split; [reflexivity|]. split; [reflexivity|].
  split; [|nia]. intros x. destruct (Z.leb_spec (d * v1) 0); destruct Hd as [-> | ->]; lia.
Qed.

(** The form of the next iteration. *)
Lemma val_square_ok s t : snd gcd_1_0 = Some (1, 0) -> snd gcd_s_t = Some (s, t) -> 0 < Z.abs val_A /\ (val_B * val_B - D) mod (4 * Z.abs val_A) = 0 /\
  composite (mkform a b c) (mkform a b c) (mkform (Z.abs val_A) val_B ((val_B * val_B - D) / (4 * Z.abs val_A))).
Proof.
  intros E1 E2. destruct (val_k_ok E1) as [Hk [m Hm]]. destruct (val_v_ok s t Hk E2) as (d & u0 & u1 & v0 & v1 & [Hd Es Et Hdet [_ Hv1] _ _ _] & V0 & V1 & HS & HV).
  assert (ED : D = b * b - 4 * a * c) by lia. destruct (square_form a b c val_k m d u0 u1 v0 v1 s t val_v0 val_v1 Ha ltac:(lia) Hm Hd Es Et Hdet Hv1 V0 V1) as (h & Eh & Ee & HF).
  assert (Ev : val_t = t) by (unfold val_t; now rewrite E2). assert (Dd : d * d = 1) by nia.
  assert (Hh : val_h = h). { unfold val_h. rewrite HS, Ev, val_c_eq, Eh, divexact_div, Z.div_mul by (lia || now exists (d * h)). lia. }
  assert (HA : val_A = d * (t * t) + val_v1 * h) by (unfold val_A, val_t_t_S; now rewrite HS, Ev, Hh).
  assert (He : val_e = - (b + 2 * d * t * s)).
  { unfold val_e. rewrite HS, Ev, Z.shiftl_mul_pow2 by lia. change (2 ^ 1) with 2. rewrite (Z.mul_comm t 2), Ee, divexact_div, Z.div_mul by (assumption || now exists (2 * d * t * s)). reflexivity. }
  assert (Hf : val_f = - (b + 2 * d * t * s) - 2 * val_v0 * h).
  { unfold val_f, val_v0_2. rewrite He, Hh, Z.shiftl_mul_pow2 by lia. change (2 ^ 1) with 2. ring. }
  assert (HB : val_B = (- (b + 2 * d * t * s) - 2 * val_v0 * h) mod Z.abs (2 * (d * (t * t) + val_v1 * h))).
  { unfold val_B. rewrite Hf, HA, Z.shiftl_mul_pow2 by lia. change (2 ^ 1) with 2. now rewrite (Z.mul_comm _ 2). }
  rewrite HA, HB, ED. exact HF.
Qed.
End Iteration.

(** The next a and b. *)
Definition next (ab : Z * Z) : Z * Z := (Z.abs (val_A (fst ab) (snd ab)), val_B (fst ab) (snd ab)).
End Values.
