(* ===== verification/FastPipeline.v ===== *)
(** What each thread of the pipeline promises to the other, by the values of the counters, and the
    proof of the master's program. *)
From S2P Require Import Prelude Words NumTheory Gmp QuadForm FormClass Integer Forms Nucomp ProofCommon Powers Callback Vdf FastGcd FastThreads FastStep FastSquare FastLoops FastProof.

(** ** The facts *)

(** The entries of a gcd as its thread writes them. *)
Definition entry_done (r : list gcd_uv_entry * option (Z * Z)) (j : Z) (d : data) : Prop :=
  (1 <= j -> entry d j = nth (Z.to_nat (j - 1)) (fst r) (mkentry 0 0 0 0 0)) /\
  exit_flag d j = (j =? Z.of_nat (length (fst r))) && match snd r with Some _ => true | None => false end.

Definition entries_done (r : list gcd_uv_entry * option (Z * Z)) (start c : Z) (d : data) : Prop :=
  (forall j, 0 <= j <= Z.of_nat (length (fst r)) -> start + j + 1 <= c -> entry_done r j d) /\ (start + Z.of_nat (length (fst r)) + 1 <= c -> snd r <> None).

Lemma entries_write r start c j d : c <= start + j -> entries_done r start c d -> entries_done r start c (write_entry j d).
Proof.
  intros Hc [H1 H2]. split; [|exact H2]. intros i Hi Hic. destruct (H1 i Hi Hic) as [E1 E2]. unfold entry_done. cbn [write_entry entry exit_flag].
  destruct (Z.eqb_spec i j); [lia|]. now split.
Qed.

Lemma entries_publish r start j d : j <= Z.of_nat (length (fst r)) -> (forall i, 0 <= i < j + 1 -> entry_done r i d) -> entries_done r start (start + j) d.
Proof. intros Hj H. split; [intros i Hi Hc; apply H; lia|lia]. Qed.

Lemma entries_all r start c d : snd r <> None -> (forall i, 0 <= i < Z.of_nat (length (fst r)) + 1 -> entry_done r i d) -> entries_done r start c d.
Proof. intros Hr H. split; [intros i Hi _; apply H; lia|easy]. Qed.

Section Facts.
Context `{GL : GmpLaws} {Asm : AsmGcd} {AL : AsmGcdLaws Asm}.
Variables D L : Z.
Hypothesis HD : D < 0.
Hypothesis HL : 0 <= L.
Variable x : form.
Hypothesis Cx : class D x.
Variables base N a0 b0 : Z.
Hypothesis Hbase : 0 <= base.
Hypothesis HN : 0 <= N /\ 87 * (N + 1) < 2 ^ 64.

(** a and b at the start of iteration i. *)
Definition ab (i : Z) : Z * Z := Nat.iter (Z.to_nat i) (next D L) (a0, b0).
Definition a_ (i : Z) : Z := fst (ab i).
Definition b_ (i : Z) : Z := snd (ab i).

Lemma ab_next i : 0 <= i -> a_ (i + 1) = Z.abs (val_A D L (a_ i) (b_ i)) /\ b_ (i + 1) = val_B D L (a_ i) (b_ i).
Proof. intros Hi. unfold a_, b_, ab. replace (Z.to_nat (i + 1)) with (S (Z.to_nat i)) by lia. split; reflexivity. Qed.

(** They are the form of x^(2^(base+i)). *)
Record good (i : Z) : Prop := {
  good_a : 0 < a_ i;
  good_c : (b_ i * b_ i - D) mod (4 * a_ i) = 0;
  good_pw : pw D x (2 ^ (base + i)) (mkform (a_ i) (b_ i) ((b_ i * b_ i - D) / (4 * a_ i)));
}.

(** What the first checks of the master establish. *)
Definition small (i : Z) : Prop := L < a_ i < 2 ^ (64 * gcd_size) /\ Z.abs (b_ i) < 2 ^ (64 * gcd_size).

Abbreviation g0 i := (gcd_1_0 (a_ i) (b_ i)).
Abbreviation g1 i := (gcd_s_t D L (a_ i) (b_ i)).
Abbreviation c_ i := (val_c D (a_ i) (b_ i)).

Lemma good_eq i : good i -> b_ i * b_ i - D = 4 * a_ i * ((b_ i * b_ i - D) / (4 * a_ i)).
Proof. intros [Ha Hc _]. pose proof (Z.div_mod (b_ i * b_ i - D) (4 * a_ i) ltac:(lia)). lia. Qed.

Lemma good_next i s t : 0 <= i -> good i -> small i -> snd (g0 i) = Some (1, 0) -> snd (g1 i) = Some (s, t) -> good (i + 1) /\ val_A D L (a_ i) (b_ i) <> 0.
Proof.
  intros Hi Hg [Ha Hb] E0 E1. pose proof (good_eq i Hg) as Ec. destruct Hg as [Hp Hc HP]. set (c := (b_ i * b_ i - D) / (4 * a_ i)) in *.
  destruct (val_square_ok D L (a_ i) (b_ i) c Hp HD Ec ltac:(lia) ltac:(lia) s t E0 E1) as (HA & HM & HC). destruct (ab_next i Hi) as [Ea Eb]. split; [|lia].
  split; rewrite ?Ea, ?Eb; [exact HA|exact HM|]. replace (base + (i + 1)) with (base + i + 1) by lia. rewrite Z.pow_add_r, Z.mul_comm by lia. change (2 ^ 1) with 2.
  replace (2 * 2 ^ (base + i)) with (2 ^ (base + i) + 2 ^ (base + i)) by ring. now apply (pw_composite D x Cx _ _ _ _ _ HP HP).
Qed.

Definition start_ok (i : Z) (m : data) : Prop := m V.a = a_ i /\ m V.b = b_ i /\ is_true (m V.b_higher_magnitude_than_a) = b_higher (a_ i) (b_ i) /\ good i.

(** The master's data, at its counter [c] after the fence [f]. *)
Record master_facts (i c f : Z) (m : data) : Prop := {
  mf_start : 87 * i <= c -> f < 87 * i + 86 -> start_ok i m;
  mf_small : 87 * i + 1 <= c -> f < 87 * (i + 1) -> small i;
  mf_entries : f < 87 * (i + 1) -> entries_done (g0 i) (87 * i) c m;
  mf_v : 87 * i + 84 <= c -> f < 87 * (i + 1) -> m V.v0 = val_v0 D L (a_ i) (b_ i) /\ m V.v1 = val_v1 D L (a_ i) (b_ i);
}.

(** The slave's data; the master's counter is [oc]. *)
Record slave_facts (i c f oc : Z) (s : data) : Prop := {
  sf_c : 87 * i + 42 <= c -> f < 87 * (i + 1) -> oc < 87 * i + 86 -> s V.c = c_ i;
  sf_entries : f < 87 * (i + 1) -> entries_done (g1 i) (87 * i + 42) c s;
  sf_t : 87 * i + 84 <= c -> f < 87 * (i + 1) -> s V.gcd_b_end = val_t D L (a_ i) (b_ i);
  sf_2 : 87 * i + 85 <= c -> f < 87 * (i + 1) -> s V.t_t_S = val_t_t_S D L (a_ i) (b_ i) /\ s V.v0_2 = val_v0_2 D L (a_ i) (b_ i);
  sf_e : 87 * i + 86 <= c -> f < 87 * (i + 1) -> s V.e = val_e D L (a_ i) (b_ i);
  sf_fence : 87 * i + 42 <= c -> 87 * i <= f;
}.

Definition FM (c f oc : Z) (m : data) : Prop := forall i, 0 <= i -> master_facts i c f m.
Definition FS (c f oc : Z) (s : data) : Prop := forall i, 0 <= i -> slave_facts i c f oc s.

Lemma FM_fence c f oc f' d : f <= f' -> FM c f oc d -> FM c f' oc d.
Proof. intros H HF i Hi. destruct (HF i Hi) as [H1 H2 H3 H4]. split; intros; [apply H1|apply H2|apply H3|apply H4]; lia. Qed.

Lemma FS_fence c f oc f' d : f <= f' -> FS c f oc d -> FS c f' oc d.
Proof. intros H HF i Hi. destruct (HF i Hi) as [H1 H2 H3 H4 H5 HF6]. split; intros; [apply H1|apply H2|apply H3|apply H4|apply H5|]; lia. Qed.

Lemma FM_reader c f oc oc' d : oc <= oc' -> FM c f oc d -> FM c f oc' d.
Proof. easy. Qed.

Lemma FS_reader c f oc oc' d : oc <= oc' -> FS c f oc d -> FS c f oc' d.
Proof. intros H HF i Hi. destruct (HF i Hi) as [H1 H2 H3 H4 H5 HF6]. split; intros; [apply H1|apply H2|apply H3|apply H4|apply H5|]; lia. Qed.

(** In iteration i only its own facts are in question. *)
Lemma keeps_m i c c' f d d' : 0 <= i -> 87 * i <= f -> c' <= 87 * i + 86 -> (master_facts i c f d -> master_facts i c' f d') -> keeps FM c c' f d d'.
Proof.
  intros Hi Hf Hc H oc Ho HF j Hj. destruct (Z.lt_trichotomy j i) as [Hji|[->|Hji]]; [split; intros; lia|apply H; now apply HF|].
  split; [intros; lia|intros; lia| |intros; lia]. intros _. split; intros; lia.
Qed.

Lemma keeps_s i c c' f d d' : 0 <= i -> 87 * i <= f -> c' <= 87 * i + 86 -> (forall oc, f <= oc -> slave_facts i c f oc d -> slave_facts i c' f oc d') -> keeps FS c c' f d d'.
Proof.
  intros Hi Hf Hc H oc Ho HF j Hj. destruct (Z.lt_trichotomy j i) as [Hji|[->|Hji]]; [split; intros; lia|apply H; [exact Ho|now apply HF]|].
  split; [intros; lia| |intros; lia|intros; lia|intros; lia|intros; lia]. intros _. split; intros; lia.
Qed.

Definition private_m (v : V.var) : bool := match v with V.a | V.b | V.b_higher_magnitude_than_a | V.num_valid_iterations | V.v0 | V.v1 => false | _ => true end.

Lemma keeps_private_m v y c f d : private_m v = true -> keeps FM c c f d (set v y d).
Proof.
  intros Hv oc _ HF i Hi. destruct (HF i Hi) as [H1 H2 H3 H4]. split; [|exact H2|exact H3|].
  - unfold start_ok. rewrite !set_other by (intros <-; discriminate). exact H1.
  - rewrite !set_other by (intros <-; discriminate). exact H4.
Qed.

(** What the result is read from. *)
Definition Q (m : data) (n : Z) : Prop := 0 <= n <= N /\ m V.num_valid_iterations = n /\ start_ok n m.

Lemma Q_set v y m n : private_m v = true -> Q m n -> Q (set v y m) n.
Proof. intros Hv. unfold Q, start_ok. now rewrite !set_other by (intros <-; discriminate). Qed.

Lemma at_ok i d : 0 <= i < N -> 0 <= d <= 87 -> at_counter (87 * i) d = 87 * i + d.
Proof. intros Hi Hd. unfold at_counter. apply u64_id. lia. Qed.

(** ** The master *)

(** At a notification the master has the next form, and the slave waits for the next iteration. *)
Definition notifies (d : data) (c f n i : Z) : Prop := 0 <= n < N /\ c = 87 * n + 86 /\ 87 * n + 86 <= f /\ Q d (n + 1) /\ i = base + n.

Definition anywhere (c f : Z) : Prop := True.

Abbreviation SafeM := (safe FM FS Q same anywhere notifies).

Lemma unaltered_m c f (d : data) : unaltered same c f d.
Proof. now intros d' A. Qed.

(** The slave's facts about iteration i, once its counter has passed a fence. *)
Lemma knows_s c f o i : knows FS c f o -> 0 <= i -> exists oc of_, f <= oc /\ of_ <= c /\ slave_facts i oc of_ c o.
Proof. intros (oc & of_ & H1 & H2 & H3) Hi. exists oc, of_. split; [exact H1|]. split; [exact H2|]. now apply H3. Qed.

Lemma bits_small y : mpz_sizeinbase2 y <= max_bits_base + num_extra_bits_ab -> Z.abs y < 2 ^ (64 * gcd_size).
Proof.
  rewrite mpz_sizeinbase2_spec. unfold bitlen, max_bits_base, num_extra_bits_ab, gcd_size. destruct (Z.eqb_spec y 0) as [->|Hy]; [lia|]. intros H.
  apply Z.log2_lt_pow2; lia.
Qed.

Lemma size_less y : mpz_size L < mpz_size y -> L < Z.abs y.
Proof.
  rewrite !mpz_size_spec. intros H. destruct (Z.lt_ge_cases L (Z.abs y)) as [|Hge]; [assumption|exfalso].
  pose proof (Z.div_pos (Z.log2 (Z.abs L)) 64 (Z.log2_nonneg _) ltac:(lia)).
  destruct (Z.eqb_spec y 0); [destruct (Z.eqb_spec L 0); lia|]. destruct (Z.eqb_spec L 0); [lia|]. pose proof (Z.log2_le_mono (Z.abs y) (Z.abs L) ltac:(lia)) as Hl. pose proof (Z.div_le_mono _ _ 64 ltac:(lia) Hl). lia.
Qed.

Lemma keeps_advance_m i c c' f (d : data) : 0 <= i -> 87 * i <= f -> c' <= 87 * i + 86 -> (87 * i <= c) -> small i -> snd (g0 i) <> None -> 87 * i + 41 <= c ->
  (87 * i + 84 <= c' -> c < 87 * i + 84 -> d V.v0 = val_v0 D L (a_ i) (b_ i) /\ d V.v1 = val_v1 D L (a_ i) (b_ i)) -> keeps FM c c' f d d.
Proof.
  intros Hi Hf Hc Hc0 Hs Hg Hc1 Hv. apply (keeps_m i); try assumption. pose proof (asm_gcd_count (Z.abs (if b_higher (a_ i) (b_ i) then b_ i else a_ i)) (Z.abs (if b_higher (a_ i) (b_ i) then a_ i else b_ i)) 0) as Hes.
  fold (g0 i) in Hes. unfold gcd_max_iterations, gcd_size in Hes. intros [H1 H2 H3 H4]. split; [intros _; now apply H1|easy| |].
  - intros Hf'. destruct (H3 Hf') as [He _]. split; [|easy]. intros j Hj _. apply He; lia.
  - intros Hc' Hf'. destruct (Z.lt_ge_cases c (87 * i + 84)); [now apply Hv|apply H4; lia].
Qed.

Lemma phase_0_master_ok i (d : data) f k : 0 <= i < N -> Q d i ->
  (forall (d : data) f, 87 * i <= f -> Q d i -> small i -> snd (g0 i) = Some (d V.gcd_a_end, d V.gcd_b_end) -> SafeM k d (87 * i + 41) f i) ->
  SafeM (seq (phase_0_master L (87 * i)) k) d (87 * i) f i.
Proof.
  intros Hi HQ Hk. unfold phase_0_master. rewrite seq_app. set (k1 := seq (gcd_unsigned _ _ _) k). cbn [seq fold_right].
  apply wp_fence; [apply unaltered_m|exact HQ|]. unfold counter_start_phase_0. rewrite at_ok by lia. intros f1 _ Hf1. rewrite Z.add_0_r in Hf1.
  apply wp_guard; [apply unaltered_m|exact HQ|discriminate|]. intros _ _ Hbits. apply wp_guard; [apply unaltered_m|exact HQ|discriminate|]. intros _ _ Hsize.
  destruct HQ as (Hn & En & HS). pose proof HS as (Ea & Eb & Ebh & Hg). rewrite Ea, Eb in Hbits. rewrite Ea in Hsize.
  apply andb_true_iff in Hbits as [Hbits _]. apply andb_true_iff in Hbits as [Ba Bb]. apply Z.leb_le in Ba, Bb. apply Z.ltb_lt, size_less in Hsize. apply bits_small in Ba, Bb.
  assert (Hs : small i) by (pose proof (good_a i Hg); split; lia).
  eapply wp_assign; [apply unaltered_m|intros o _; rewrite Ea, Eb, Ebh; reflexivity|now apply keeps_private_m|].
  eapply wp_assign; [apply unaltered_m|intros o _; rewrite !set_other by discriminate; rewrite Ea, Eb, Ebh; reflexivity|now apply keeps_private_m|].
  set (d1 := set V.gcd_b_start _ _). assert (HQ1 : Q d1 i) by (apply Q_set; [reflexivity|]; apply Q_set; [reflexivity|]; now split).
  assert (Er : asm_gcd_unsigned (Z.abs (d1 V.gcd_a_start)) (Z.abs (d1 V.gcd_b_start)) 0 = g0 i).
  { unfold d1. rewrite set_same, set_other, set_same by discriminate. reflexivity. }
  assert (HQw : forall d j, written 0 d1 j d -> Q d i).
  { intros d2 j (Hz & _ & _). unfold Q, start_ok. rewrite !Hz by discriminate. exact HQ1. }
  assert (Hes : Z.of_nat (length (fst (g0 i))) <= gcd_max_iterations) by apply asm_gcd_count.
  pose proof Hes as Hes'. unfold gcd_max_iterations, gcd_size in Hes'. unfold k1. apply gcd_unsigned_ok; rewrite ?Er; try assumption.
  - intros j Hj. unfold gcd_num_counter, gcd_max_iterations, gcd_size in Hj. apply at_ok; lia.
  - intros d2 c' _. apply unaltered_m.
  - apply (keeps_m i); try lia. intros [H1 H2 H3 H4]. now split.
  - intros j d2 c' Hj Hc HW. apply (keeps_m i); try lia. intros [H1 H2 H3 H4]. split; [exact H1|exact H2| |exact H4]. intros Hf. apply entries_write; [lia|now apply H3].
  - intros j d2 c' Hj Hc (_ & _ & HW). apply (keeps_m i); try lia. intros [H1 H2 H3 H4]. split; [intros _; apply H1; lia|easy| |lia].
    intros _. rewrite Er in HW. now apply entries_publish.
  - intros d2 _. apply (keeps_m i); try lia. intros [H1 H2 H3 H4]. unfold finish_gcd. destruct (snd (asm_result d2)) as [[a' b']|]; [|now split].
    split; [|exact H2|exact H3|lia]. intros Hc' Hf. destruct (H1 Hc' Hf) as (A & B & C & E). unfold start_ok. now rewrite !set_other by discriminate.
  - intros d2 Hr (_ & _ & HW). rewrite Er in HW. apply (keeps_m i); try (unfold gcd_num_counter, gcd_max_iterations, gcd_size; lia). intros [H1 H2 H3 H4].
    unfold gcd_num_counter, gcd_max_iterations, gcd_size. split; [intros _; apply H1; lia|easy| |lia]. intros _. now apply entries_all.
  - intros d2 a' b' E HW E1 E2. apply Hk; [exact Hf1|now apply (HQw d2 _ HW)|exact Hs|congruence].
Qed.

Lemma phase_1_master_ok i (d : data) f k : 0 <= i < N -> 87 * i <= f -> Q d i ->
  (forall (d' : data) f', f <= f' -> agree [V.v0; V.v1] d d' -> Q d' i -> snd (g1 i) <> None ->
     d' V.v0 = val_v0 D L (a_ i) (b_ i) -> d' V.v1 = val_v1 D L (a_ i) (b_ i) -> SafeM k d' (87 * i + 42) f' i) ->
  SafeM (seq (phase_1_master (87 * i)) k) d (87 * i + 42) f i.
Proof.
  intros Hi Hf HQ Hk. unfold phase_1_master. change counter_start_phase_1 with 42. cbn [seq fold_right]. rewrite at_ok by lia.
  assert (HQA : forall d', agree [V.v0; V.v1] d d' -> Q d' i).
  { intros d' [A _ _ _]. unfold Q, start_ok. rewrite !A by (cbn; intuition discriminate). exact HQ. }
  assert (HKA : forall d1 d2 f, 87 * i <= f -> agree [V.v0; V.v1] d1 d2 -> keeps FM (87 * i + 42) (87 * i + 42) f d1 d2).
  { intros d1 d2 f2 Hf2 [A Ae Ax _]. apply (keeps_m i); try lia. intros [H1 H2 H3 H4]. split; [|exact H2| |lia].
    - unfold start_ok. rewrite !A by (cbn; intuition discriminate). exact H1.
    - unfold entries_done, entry_done. now rewrite Ae, Ax. }
  apply wp_fence; [apply unaltered_m|exact HQ|]. intros f1 Hf1 Hf1'.
  assert (A1 : forall y1, agree [V.v0; V.v1] d (set V.v0 y1 d)) by (intros y1; apply agree_set; cbn; tauto).
  apply (wp_assign _ _ _ _ _ _ _ _ _ _ _ (unaltered_m _ _ _) _ _ 0); [reflexivity|apply HKA; [lia|apply A1]|].
  assert (A2 : agree [V.v0; V.v1] (set V.v0 0 d) (set V.v1 1 (set V.v0 0 d))) by (apply agree_set; cbn; tauto).
  apply (wp_assign _ _ _ _ _ _ _ _ _ _ _ (unaltered_m _ _ _) _ _ 1); [reflexivity|apply HKA; [lia|exact A2]|].
  set (d1 := set V.v1 1 _) in *. assert (A : agree [V.v0; V.v1] d d1) by exact (agree_trans _ _ _ _ (A1 0) A2).
  assert (KE : forall o f, 87 * i <= f -> knows FS (87 * i + 42) f o -> exists oc, f <= oc /\ entries_done (g1 i) (87 * i + 42) oc o).
  { intros o f2 Hf2 K. destruct (knows_s _ _ _ i K ltac:(lia)) as (oc & of_ & H1 & H2 & [_ H3 _ _ _ _]). exists oc. split; [exact H1|apply H3; lia]. }
  pose proof (asm_gcd_count (Z.abs (a_ i)) (Z.abs (val_k D (a_ i) (b_ i))) L) as Hes. pose proof Hes as Hes'. unfold gcd_max_iterations, gcd_size in Hes'. fold (g1 i) in Hes, Hes'.
  apply (entries_ok FM FS Q same anywhere notifies (87 * i) 42 i (87 * i + 42) (fst (g1 i)) (match snd (g1 i) with Some _ => true | None => false end) V.v0 V.v1 f1 0 1 d1); try discriminate; try assumption.
  - intros d2 f2 _. apply unaltered_m.
  - intros d2 A3. apply HQA. now apply (agree_trans _ _ d1).
  - intros d2 d3 f2 Hf2. apply HKA. lia.
  - intros j o f2 Hj Hf2 Ht K. rewrite at_ok in Ht by lia. destruct (KE o f2 ltac:(lia) K) as (oc & Hoc & [He _]). apply He; lia.
  - intros o f2 Hf2 Ht K. rewrite at_ok in Ht by lia. destruct (KE o f2 ltac:(lia) K) as (oc & Hoc & [_ He]). specialize (He ltac:(lia)). now destruct (snd (g1 i)).
  - intros d2 f2 Hf2 Hs A3 E0 E1. assert (A4 : agree [V.v0; V.v1] d d2) by now apply (agree_trans _ _ d1). apply Hk; try assumption; [lia|now apply HQA|now destruct (snd (g1 i))].
  - apply agree_refl.
  - reflexivity.
  - reflexivity.
  - lia.
Qed.

(** An assignment to a variable that the slave does not read. *)
Lemma private_step v e y (d : data) c f n k : private_m v = true -> (forall o, knows FS c f o -> e d o = y) -> SafeM k (set v y d) c f n -> SafeM (assign_ v e k) d c f n.
Proof. intros Hv He Hk. apply (wp_assign _ _ _ _ _ _ _ _ _ _ _ (unaltered_m _ _ _) _ _ y); [exact He|now apply keeps_private_m|exact Hk]. Qed.

Lemma private_step_res v e y (d : data) c f n k : private_m v = true -> (forall o, knows FS c f o -> e d o = Ok y) -> SafeM k (set v y d) c f n -> SafeM (assign_res v e k) d c f n.
Proof. intros Hv He Hk. apply (wp_assign_res _ _ _ _ _ _ _ _ _ _ _ (unaltered_m _ _ _) _ _ y); [exact He|now apply keeps_private_m|exact Hk]. Qed.

Lemma divide_exact_ok y w : w <> 0 -> set_divide_exact y w = Ok (mpz_divexact y w).
Proof. intros H. unfold set_divide_exact. now destruct (Z.eqb_spec w 0). Qed.

Lemma phase_2_master_ok i (d : data) f k : 0 <= i < N -> 87 * i <= f -> Q d i -> d V.v1 = val_v1 D L (a_ i) (b_ i) ->
  (forall (d' : data) f', f <= f' -> Q d' i -> d' V.gcd_a_end = d V.gcd_a_end -> d' V.gcd_b_end = d V.gcd_b_end ->
     d' V.h = val_h D L (a_ i) (b_ i) -> d' V.v1_h = val_v1 D L (a_ i) (b_ i) * val_h D L (a_ i) (b_ i) -> SafeM k d' (87 * i + 84) f' i) ->
  SafeM (seq (phase_2_master (87 * i)) k) d (87 * i + 84) f i.
Proof.
  intros Hi Hf HQ Ev Hk. pose proof HQ as (_ & _ & Ea & Eb & _ & Hg). pose proof (good_a i Hg) as Ha. unfold phase_2_master. change counter_start_phase_1 with 42. change counter_start_phase_2 with 84. cbn [seq fold_right]. rewrite !at_ok by lia.
  apply wp_fence; [apply unaltered_m|exact HQ|]. intros f1 Hf1 Hf1'.
  apply (private_step _ _ (c_ i * val_v1 D L (a_ i) (b_ i))); [reflexivity| |].
  { intros o K. destruct (knows_s _ _ _ i K ltac:(lia)) as (oc & of_ & H1 & H2 & [H3 _ _ _ _ _]). rewrite H3, Ev by lia. reflexivity. }
  apply wp_fence; [apply unaltered_m|now apply Q_set|]. intros f2 Hf2 Hf2'.
  apply (private_step _ _ (b_ i * val_t D L (a_ i) (b_ i))); [reflexivity| |].
  { intros o K. destruct (knows_s _ _ _ i K ltac:(lia)) as (oc & of_ & H1 & H2 & [_ _ H3 _ _ _]). rewrite H3, set_other, Eb by (lia || discriminate). reflexivity. }
  eapply private_step; [reflexivity|intros o _; cbn [z set V.var_beq]; reflexivity|].
  eapply private_step_res; [reflexivity|intros o _; cbn [z set V.var_beq]; rewrite Ea, divide_exact_ok by lia; reflexivity|].
  apply (private_step _ _ (val_h D L (a_ i) (b_ i))); [reflexivity| |].
  { intros o _. unfold S_negative. cbn [z set V.var_beq]. rewrite Ev. reflexivity. }
  apply (private_step _ _ (val_v1 D L (a_ i) (b_ i) * val_h D L (a_ i) (b_ i))); [reflexivity| |].
  { intros o _. cbn [z set V.var_beq]. now rewrite Ev. }
  apply Hk; try reflexivity; [lia|]. now repeat apply Q_set.
Qed.

Lemma phase_3_master_ok i (d : data) f k : 0 <= i < N -> 87 * i <= f -> Q d i -> d V.v1_h = val_v1 D L (a_ i) (b_ i) * val_h D L (a_ i) (b_ i) ->
  (forall (d' : data) f', f <= f' -> Q d' i -> d' V.gcd_a_end = d V.gcd_a_end -> d' V.gcd_b_end = d V.gcd_b_end -> d' V.h = d V.h ->
     d' V.A = val_A D L (a_ i) (b_ i) -> d' V.A_2 = Z.shiftl (val_A D L (a_ i) (b_ i)) 1 -> SafeM k d' (87 * i + 85) f' i) ->
  SafeM (seq (phase_3_master (87 * i)) k) d (87 * i + 85) f i.
Proof.
  intros Hi Hf HQ Ev Hk. unfold phase_3_master. change counter_start_phase_3 with 85. cbn [seq fold_right]. rewrite !at_ok by lia.
  apply wp_fence; [apply unaltered_m|exact HQ|]. intros f1 Hf1 Hf1'.
  apply (private_step _ _ (val_A D L (a_ i) (b_ i))); [reflexivity| |].
  { intros o K. destruct (knows_s _ _ _ i K ltac:(lia)) as (oc & of_ & H1 & H2 & [_ _ _ H3 _ _]). destruct H3 as [H3 _]; [lia|lia|]. now rewrite H3, Ev. }
  eapply private_step; [reflexivity|intros o _; cbn [z set V.var_beq]; reflexivity|].
  apply Hk; try reflexivity; [lia|]. now repeat apply Q_set.
Qed.

(** Once the slave is done with the iteration, its a and b may change. *)
Lemma late_step e v y i (d : data) f n k : 0 <= i -> 87 * i + 86 <= f -> v <> V.v0 -> v <> V.v1 -> (forall o, knows FS (87 * i + 86) f o -> e d o = Ok (set v y d)) ->
  SafeM k (set v y d) (87 * i + 86) f n -> SafeM (Do e k) d (87 * i + 86) f n.
Proof.
  intros Hi Hf H0 H1 He Hk. apply (wp_do _ _ _ _ _ _ _ _ _ _ _ (unaltered_m _ _ _) _ (set v y d)); [exact He| |exact Hk].
  apply (keeps_m i); try lia. intros [_ H2 H3 H4]. split; [lia|exact H2|exact H3|]. now rewrite !set_other by congruence.
Qed.

Lemma set_mod_ok y w : w <> 0 -> set_mod y w = Ok (y mod Z.abs w).
Proof. intros H. unfold set_mod. now destruct (Z.eqb_spec w 0). Qed.

Lemma phase_4_master_ok i (d : data) f k : 0 <= i < N -> 87 * i <= f -> Q d i -> small i -> snd (g0 i) = Some (d V.gcd_a_end, d V.gcd_b_end) -> snd (g1 i) <> None ->
  d V.h = val_h D L (a_ i) (b_ i) -> d V.A = val_A D L (a_ i) (b_ i) -> d V.A_2 = Z.shiftl (val_A D L (a_ i) (b_ i)) 1 ->
  (forall (d' : data) f', 87 * i + 86 <= f' -> Q d' (i + 1) -> SafeM k d' (87 * i + 86) f' i) ->
  SafeM (seq (phase_4_master (87 * i)) k) d (87 * i + 86) f i.
Proof.
  intros Hi Hf HQ Hs E0 E1 Eh EA EA2 Hk. unfold phase_4_master. change counter_start_phase_3 with 85. change counter_start_phase_4 with 86. cbn [seq fold_right]. rewrite !at_ok by lia.
  apply wp_fence; [apply unaltered_m|exact HQ|]. intros f1 Hf1 Hf1'.
  apply wp_guard; [apply unaltered_m|exact HQ|exact (fun _ => I)|]. intros _ _ Ga. apply Z.eqb_eq in Ga.
  apply wp_guard; [apply unaltered_m|exact HQ|exact (fun _ => I)|]. intros _ _ Gb. apply Z.eqb_eq in Gb. rewrite Ga, Gb in E0.
  pose proof HQ as (Hn & En & _ & _ & _ & Hg). destruct (snd (g1 i)) as [[s t]|] eqn:Es; [|now destruct E1].
  destruct (good_next i s t ltac:(lia) Hg Hs E0 Es) as [Hg' HA]. destruct (ab_next i ltac:(lia)) as [Ea' Eb'].
  apply (private_step _ _ (val_v0_2 D L (a_ i) (b_ i) * val_h D L (a_ i) (b_ i))); [reflexivity| |].
  { intros o K. destruct (knows_s _ _ _ i K ltac:(lia)) as (oc & of_ & H1 & H2 & [_ _ _ H3 _ _]). destruct H3 as [_ H3]; [lia|lia|]. now rewrite H3, Eh. }
  apply wp_fence; [apply unaltered_m|now apply Q_set|]. intros f2 Hf2 Hf2'.
  apply (private_step _ _ (val_f D L (a_ i) (b_ i))); [reflexivity| |].
  { intros o K. destruct (knows_s _ _ _ i K ltac:(lia)) as (oc & of_ & H1 & H2 & [_ _ _ _ H3 _]). now rewrite H3 by lia. }
  apply (private_step_res _ _ (b_ (i + 1))); [reflexivity| |].
  { intros o _. cbn [z set V.var_beq]. rewrite EA2, Eb'. apply set_mod_ok. rewrite Z.shiftl_mul_pow2 by lia. lia. }
  apply (private_step _ _ (a_ (i + 1))); [reflexivity|intros o _; cbn [z set V.var_beq]; now rewrite EA, Ea'|].
  apply (late_step _ V.b_higher_magnitude_than_a (Z.b2z (b_higher (a_ (i + 1)) (b_ (i + 1)))) i); try discriminate; [lia|lia|intros o _; reflexivity|].
  set (d1 := set V.b_higher_magnitude_than_a _ _).
  apply (wp_do _ _ _ _ _ _ _ _ _ _ _ (unaltered_m _ _ _) _ (switch_ab d1)); [reflexivity| |].
  { apply (keeps_m i); try lia. intros [_ H2 H3 H4]. split; [lia|exact H2|exact H3|exact H4]. }
  apply (late_step _ V.num_valid_iterations (i + 1) i); try discriminate; [lia|lia| |].
  { intros o _. cbn [switch_ab d1 z set V.var_beq]. rewrite En. cbn [bind]. rewrite u64_id by lia. reflexivity. }
  apply Hk; [lia|]. split; [lia|]. split; [apply set_same|]. unfold start_ok, d1. cbn [switch_ab z set V.var_beq]. split; [reflexivity|]. split; [reflexivity|]. split; [|exact Hg'].
  now destruct (b_higher _ _).
Qed.

(** *** An iteration *)

Lemma all_phases_seq cs b k : seq (all_phases D L cs b) k =
  Advance (at_counter cs 0) (seq (call_phase D L cs 0 b) (Advance (at_counter cs 42) (seq (call_phase D L cs 1 b) (Advance (at_counter cs 84) (seq (call_phase D L cs 2 b)
    (Advance (at_counter cs 85) (seq (call_phase D L cs 3 b) (Advance (at_counter cs 86) (seq (call_phase D L cs 4 b) k))))))))).
Proof. destruct b; reflexivity. Qed.

Lemma iteration_master_ok i (d : data) c f k : 0 <= i < N -> c = Z.max 0 (87 * i - 1) -> i = 0 \/ 87 * i - 1 <= f -> Q d i ->
  (forall (d' : data) f', 87 * i + 86 <= f' -> Q d' (i + 1) -> SafeM k d' (87 * i + 86) f' i) ->
  SafeM (seq (all_phases D L (87 * i) false) k) d c f i.
Proof.
  intros Hi Hc Hf HQ Hk. rewrite all_phases_seq, !at_ok by lia. rewrite Z.add_0_r.
  apply wp_advance; [apply unaltered_m|exact HQ|lia| |].
  { intros oc _ HF j Hj. destruct (HF j Hj) as [H1 H2 H3 H5]. pose proof (asm_gcd_count (Z.abs (if b_higher (a_ j) (b_ j) then b_ j else a_ j)) (Z.abs (if b_higher (a_ j) (b_ j) then a_ j else b_ j)) 0) as Hes.
    fold (g0 j) in Hes. unfold gcd_max_iterations, gcd_size in Hes.
    destruct (Z.eq_dec j i) as [->|Hn]; [|split; [intros; apply H1; lia|intros; apply H2; lia| |intros; apply H5; lia]].
    - split; [intros _ _; apply HQ|lia| |lia]. intros _. split; lia.
    - intros Hf'. destruct (H3 Hf') as [H6 H7]. split; [intros; apply H6; lia|intros; apply H7; lia]. }
  apply phase_0_master_ok; [exact Hi|exact HQ|]. intros d1 f1 Hf1 Q1 Hs E0.
  assert (Eg : snd (g0 i) <> None) by (rewrite E0; discriminate).
  apply wp_advance; [apply unaltered_m|exact Q1|lia|apply (keeps_advance_m i); lia || assumption|].
  apply phase_1_master_ok; [exact Hi|exact Hf1|exact Q1|]. intros d2 f2 Hf2 [A2 _ _ _] Q2 E1 Ev0 Ev1.
  apply wp_advance; [apply unaltered_m|exact Q2|lia|apply (keeps_advance_m i); lia || assumption || now split|].
  apply phase_2_master_ok; [exact Hi|lia|exact Q2|exact Ev1|]. intros d3 f3 Hf3 Q3 Ea3 Eb3 Eh Evh.
  apply wp_advance; [apply unaltered_m|exact Q3|lia|apply (keeps_advance_m i); lia || assumption|].
  apply phase_3_master_ok; [exact Hi|lia|exact Q3|exact Evh|]. intros d4 f4 Hf4 Q4 Ea4 Eb4 Eh4 EA EA2.
  apply wp_advance; [apply unaltered_m|exact Q4|lia|apply (keeps_advance_m i); lia || assumption|].
  apply phase_4_master_ok; try assumption; [lia| |congruence]. rewrite Ea4, Eb4, Ea3, Eb3, !A2 by (cbn; intuition discriminate). exact E0.
Qed.

Lemma work_master_ok m : forall i (d : data) c f, Z.of_nat m + i = N -> 0 <= i -> base + N < 2 ^ 64 -> c = Z.max 0 (87 * i - 1) -> i = 0 \/ 87 * i - 1 <= f -> Q d i ->
  SafeM (repeated_square_fast_work D L m i (87 * i) false base) d c f i.
Proof.
  induction m as [|m IH]; intros i d c f Hm Hi Hb Hc Hf HQ; cbn [repeated_square_fast_work]; [exact HQ|].
  apply iteration_master_ok; [lia|exact Hc|exact Hf|exact HQ|]. intros d' f' Hf' HQ'. split; [apply unaltered_m|]. split.
  - split; [lia|]. split; [reflexivity|]. split; [exact Hf'|]. split; [exact HQ'|]. apply u64_id. lia.
  - replace (u64 (87 * i + counter_end)) with (87 * (i + 1)) by (change counter_end with 87; rewrite u64_id; lia). apply IH; try lia. exact HQ'.
Qed.

(** ** The slave *)

(** What a listener of the master may write: between two iterations only. *)
Definition scratch : list V.var := [V.b_b; V.a_4; V.b_b_D; V.c; V.c_remainder].
Definition alter (c f : Z) (d d' : data) : Prop := d' = d \/ exists i, 0 <= i /\ 87 * i + 86 <= c /\ f < 87 * (i + 1) /\ agree scratch d d'.

(** It finds a corrupted form before it has a k. *)
Definition blame (c f : Z) : Prop := exists i, 0 <= i /\ 87 * i <= f /\ c < 87 * i + 42.

Abbreviation SafeS := (safe FS FM nothing alter blame never).

Lemma alter_refl c f d : alter c f d d.
Proof. now left. Qed.

Lemma alter_trans c f d1 d2 d3 : alter c f d1 d2 -> alter c f d2 d3 -> alter c f d1 d3.
Proof.
  intros [-> | (i & H1 & H2 & H3 & A)] [-> | (j & J1 & J2 & J3 & B)]; [now left|right; now exists j|right; now exists i|right; exists i].
  repeat (split; [assumption|]). now apply (agree_trans _ _ d2).
Qed.

Lemma unaltered_s i c f d : 87 * i <= f -> c < 87 * i + 86 -> unaltered alter c f d.
Proof. intros Hf Hc d' [-> | (j & Hj & H1 & H2 & _)]; [reflexivity|lia]. Qed.

(** The master's facts about iteration i. *)
Lemma knows_m c f o i : knows FM c f o -> 0 <= i -> exists oc of_, f <= oc /\ of_ <= c /\ master_facts i oc of_ o.
Proof. intros (oc & of_ & H1 & H2 & H3) Hi. exists oc, of_. split; [exact H1|]. split; [exact H2|]. now apply H3. Qed.

Lemma knows_start c f o i : knows FM c f o -> 0 <= i -> 87 * i <= f -> c < 87 * i + 86 -> start_ok i o.
Proof. intros K Hi Hf Hc. destruct (knows_m c f o i K Hi) as (oc & of_ & H1 & H2 & [H3 _ _ _]). apply H3; lia. Qed.

Lemma knows_v c f o i : knows FM c f o -> 0 <= i -> 87 * i + 84 <= f -> c < 87 * i + 86 ->
  small i /\ o V.v0 = val_v0 D L (a_ i) (b_ i) /\ o V.v1 = val_v1 D L (a_ i) (b_ i).
Proof. intros K Hi Hf Hc. destruct (knows_m c f o i K Hi) as (oc & of_ & H1 & H2 & [_ H3 _ H4]). split; [apply H3|apply H4]; lia. Qed.

Lemma keeps_set_s i c f v y d : 0 <= i -> 87 * i <= f -> c <= 87 * i + 86 -> (v = V.c -> c < 87 * i + 42) -> (v = V.gcd_b_end -> c < 87 * i + 84) ->
  (v = V.t_t_S \/ v = V.v0_2 -> c < 87 * i + 85) -> (v = V.e -> c < 87 * i + 86) -> keeps FS c c f d (set v y d).
Proof.
  intros Hi Hf Hc X1 X2 X3 X4. apply (keeps_s i); try assumption. intros oc Ho [H1 H2 H3 H4 H5 HF6].
  assert (S : forall w, w = v \/ set v y d w = d w) by (intros w; destruct (V.var_eq_dec w v); [now left|right; now apply set_other]).
  split; [| exact H2| | | |intros; lia]; intros.
  - destruct (S V.c) as [E| ->]; [specialize (X1 (eq_sym E)); lia|now apply H1].
  - destruct (S V.gcd_b_end) as [E| ->]; [specialize (X2 (eq_sym E)); lia|now apply H3].
  - destruct (S V.t_t_S) as [E| ->]; [specialize (X3 (or_introl (eq_sym E))); lia|]. destruct (S V.v0_2) as [E| ->]; [specialize (X3 (or_intror (eq_sym E))); lia|now apply H4].
  - destruct (S V.e) as [E| ->]; [specialize (X4 (eq_sym E)); lia|now apply H5].
Qed.

(** An assignment of the slave that the master does not read yet. *)
Lemma slave_step_res i v e y (d : data) c f n k : 0 <= i -> 87 * i <= f -> c < 87 * i + 86 ->
  (v = V.c -> c < 87 * i + 42) -> (v = V.gcd_b_end -> c < 87 * i + 84) -> (v = V.t_t_S \/ v = V.v0_2 -> c < 87 * i + 85) ->
  (forall o, knows FM c f o -> e d o = Ok y) -> SafeS k (set v y d) c f n -> SafeS (assign_res v e k) d c f n.
Proof.
  intros Hi Hf Hc X1 X2 X3 He Hk. apply (wp_assign_res _ _ _ _ _ _ _ _ _ _ _ (unaltered_s i _ _ _ Hf Hc) _ _ y); [exact He| |exact Hk].
  apply (keeps_set_s i); try assumption; lia.
Qed.

Lemma slave_step i v e y (d : data) c f n k : 0 <= i -> 87 * i <= f -> c < 87 * i + 86 ->
  (v = V.c -> c < 87 * i + 42) -> (v = V.gcd_b_end -> c < 87 * i + 84) -> (v = V.t_t_S \/ v = V.v0_2 -> c < 87 * i + 85) ->
  (forall o, knows FM c f o -> e d o = y) -> SafeS k (set v y d) c f n -> SafeS (assign_ v e k) d c f n.
Proof. intros Hi Hf Hc X1 X2 X3 He Hk. apply (slave_step_res i v (fun s o => Ok (e s o)) y); try assumption. intros o K. now rewrite He. Qed.

Lemma keeps_advance_s i c c' f (d : data) : 0 <= i -> 87 * i <= f -> 87 * i <= c -> c' <= 87 * i + 86 ->
  (87 * i + 42 <= c' -> c < 87 * i + 42 -> d V.c = c_ i) ->
  (c' < 87 * i + 43 \/ 87 * i + 83 <= c) ->
  (87 * i + 84 <= c' -> c < 87 * i + 84 -> d V.gcd_b_end = val_t D L (a_ i) (b_ i)) ->
  (87 * i + 85 <= c' -> c < 87 * i + 85 -> d V.t_t_S = val_t_t_S D L (a_ i) (b_ i) /\ d V.v0_2 = val_v0_2 D L (a_ i) (b_ i)) ->
  (87 * i + 86 <= c' -> c < 87 * i + 86 -> d V.e = val_e D L (a_ i) (b_ i)) -> keeps FS c c' f d d.
Proof.
  intros Hi Hf Hc0 Hc X1 XE X2 X3 X4. apply (keeps_s i); try assumption. intros oc Ho [H1 H2 H3 H4 H5 HF6].
  pose proof (asm_gcd_count (Z.abs (a_ i)) (Z.abs (val_k D (a_ i) (b_ i))) L) as Hes. fold (g1 i) in Hes. unfold gcd_max_iterations, gcd_size in Hes.
  split; intros.
  - destruct (Z.lt_ge_cases c (87 * i + 42)); [now apply X1|now apply H1].
  - destruct (H2 ltac:(assumption)) as [H6 H7]. split; [intros; apply H6; lia|intros; apply H7; lia].
  - destruct (Z.lt_ge_cases c (87 * i + 84)); [now apply X2|now apply H3].
  - destruct (Z.lt_ge_cases c (87 * i + 85)); [now apply X3|now apply H4].
  - destruct (Z.lt_ge_cases c (87 * i + 86)); [now apply X4|now apply H5].
  - exact Hf.
Qed.

Lemma shiftl_2 y : Z.shiftl y 2 = 4 * y.
Proof. rewrite Z.shiftl_mul_pow2 by lia. change (2 ^ 2) with 4. lia. Qed.

Ltac slave_side := try discriminate; try lia; try (intros [|]; discriminate).

Lemma phase_0_slave_ok i (d : data) f n k : 0 <= i < N -> srange 32 (d V.validate_iter + 1) ->
  (forall (d' : data) f', 87 * i <= f' -> d' V.validate_iter = d V.validate_iter + 1 -> d' V.c = c_ i -> d' V.U0 = val_k D (a_ i) (b_ i) -> SafeS k d' (87 * i) f' n) ->
  SafeS (seq (phase_0_slave D (87 * i)) k) d (87 * i) f n.
Proof.
  intros Hi Hw Hk. unfold phase_0_slave. cbn [seq fold_right]. change counter_start_phase_0 with 0. rewrite !at_ok, Z.add_0_r by lia.
  intros d1 A. split; [exact I|]. assert (Ew : d1 V.validate_iter = d V.validate_iter).
  { destruct A as [-> | (j & _ & _ & _ & A)]; [reflexivity|]. apply A. cbn. intuition discriminate. }
  clear A. set (f1 := Z.max f (87 * i)). assert (Hf1 : 87 * i <= f1) by lia. clearbody f1.
  assert (Hwi : int_of (d V.validate_iter + 1) = Ok (d V.validate_iter + 1)).
  { unfold int_of, srange in *. destruct (Z.leb_spec (- 2 ^ 31) (d V.validate_iter + 1)); [|lia]. destruct (Z.ltb_spec (d V.validate_iter + 1) (2 ^ 31)); [reflexivity|lia]. }
  assert (KS : forall o, knows FM (87 * i) f1 o -> start_ok i o) by (intros o K; apply (knows_start _ _ _ _ K); lia).
  apply (slave_step_res i _ _ (d V.validate_iter + 1)); slave_side; [intros o K; now rewrite Ew|].
  apply (slave_step i _ _ (b_ i * b_ i)); slave_side; [intros o K; destruct (KS o K) as (_ & -> & _); reflexivity|].
  apply (slave_step i _ _ (Z.shiftl (a_ i) 2)); slave_side; [intros o K; destruct (KS o K) as (-> & _); reflexivity|].
  apply (slave_step i _ _ (b_ i * b_ i - D)); slave_side; [intros o K; reflexivity|].
  split; [now apply (unaltered_s i); [|lia]|]. intros o1 K1. destruct (KS o1 K1) as (_ & _ & _ & Hg). pose proof (good_a i Hg) as Ha.
  assert (H4 : Z.shiftl (a_ i) 2 <> 0) by (rewrite shiftl_2; lia).
  unfold validate_c, validate_interval. change (1 - 1) with 0. rewrite Z.land_0_r. cbn [Z.eqb Pos.eqb negb andb].
  apply (slave_step_res i _ _ (c_ i)); slave_side. { intros o K. cbn [z set V.var_beq]. unfold set_divide_floor. now destruct (Z.eqb_spec (Z.shiftl (a_ i) 2) 0). }
  apply (slave_step_res i _ _ ((b_ i * b_ i - D) mod Z.shiftl (a_ i) 2)); slave_side.
  { intros o K. cbn [z set V.var_beq]. unfold divide_remainder. now destruct (Z.eqb_spec (Z.shiftl (a_ i) 2) 0). }
  assert (HB : blame (87 * i) f1) by (exists i; lia).
  apply wp_guard; [apply (unaltered_s i); lia|exact I|easy|]. intros _ _ _. apply wp_guard; [apply (unaltered_s i); lia|exact I|easy|]. intros _ _ _.
  set (x0 := if b_higher (a_ i) (b_ i) then 1 else 0). set (y0 := if b_higher (a_ i) (b_ i) then 0 else 1).
  apply (slave_step i _ _ x0); slave_side; [intros o K; destruct (KS o K) as (_ & _ & -> & _); reflexivity|].
  apply (slave_step i _ _ y0); slave_side; [intros o K; destruct (KS o K) as (_ & _ & -> & _); reflexivity|].
  apply (slave_step i _ _ (if b_ i <? 0 then - x0 else x0)); slave_side; [intros o K; destruct (KS o K) as (_ & -> & _); reflexivity|].
  apply (slave_step i _ _ (if b_ i <? 0 then - y0 else y0)); slave_side; [intros o K; destruct (KS o K) as (_ & -> & _); reflexivity|].
  set (d2 := set V.U1 _ (set V.U0 _ (set V.U1 _ _))).
  assert (HKA : forall d3 d4 f, 87 * i <= f -> agree [V.U0; V.U1] d3 d4 -> keeps FS (87 * i) (87 * i) f d3 d4).
  { intros d3 d4 f2 Hf2 [_ Ae Ax _]. apply (keeps_s i); try lia. intros oc _ [H1 H2 H3 H5 H6 HF6]. split; [lia| |lia|lia|lia|lia]. unfold entries_done, entry_done. now rewrite Ae, Ax. }
  assert (KE : forall o f, 87 * i <= f -> knows FM (87 * i) f o -> exists oc, f <= oc /\ entries_done (g0 i) (87 * i) oc o).
  { intros o f2 Hf2 K. destruct (knows_m _ _ _ i K ltac:(lia)) as (oc & of_ & H1 & H2 & [_ _ H3 _]). exists oc. split; [exact H1|apply H3; lia]. }
  assert (Hes : Z.of_nat (length (fst (g0 i))) <= gcd_max_iterations) by apply asm_gcd_count. pose proof Hes as Hes'. unfold gcd_max_iterations, gcd_size in Hes'.
  apply (entries_ok FS FM nothing alter blame never (87 * i) 0 n (87 * i) (fst (g0 i)) (match snd (g0 i) with Some _ => true | None => false end) V.U0 V.U1 f1
           (if b_ i <? 0 then - x0 else x0) (if b_ i <? 0 then - y0 else y0) d2); try discriminate; try reflexivity; try assumption.
  - intros d3 f2 Hf2. apply (unaltered_s i); lia.
  - intros d3 d4 f2 Hf2. apply HKA. lia.
  - intros j o f2 Hj Hf2 Ht K. rewrite at_ok in Ht by lia. destruct (KE o f2 ltac:(lia) K) as (oc & Hoc & [He _]). apply He; lia.
  - intros o f2 Hf2 Ht K. rewrite at_ok in Ht by lia. destruct (KE o f2 ltac:(lia) K) as (oc & Hoc & [_ He]). specialize (He ltac:(lia)). now destruct (snd (g0 i)).
  - intros d3 f2 Hf2 _ [A3 _ _ _] EU _. assert (EU' : d3 V.U0 = val_U (a_ i) (b_ i)) by exact EU.
    assert (Ec : d3 V.c = c_ i) by (rewrite A3 by (cbn; intuition discriminate); reflexivity).
    assert (Ev : d3 V.validate_iter = d V.validate_iter + 1) by (rewrite A3 by (cbn; intuition discriminate); reflexivity). clear EU A3.
    apply (slave_step i _ _ (val_U (a_ i) (b_ i) * c_ i)); slave_side.
    apply (slave_step i _ _ (- (val_U (a_ i) (b_ i) * c_ i))); slave_side; [intros o K; reflexivity|].
    apply (slave_step_res i _ _ (val_k D (a_ i) (b_ i))); slave_side.
    { intros o K. destruct (knows_start _ _ _ i K ltac:(lia) ltac:(lia) ltac:(lia)) as (-> & _). apply set_mod_ok. lia. }
    apply Hk; [lia|exact Ev|exact Ec|reflexivity].
  - apply agree_refl.
Qed.

Lemma phase_1_slave_ok i (d : data) f n k : 0 <= i < N -> 87 * i <= f -> d V.U0 = val_k D (a_ i) (b_ i) ->
  (forall (d' : data) f', f <= f' -> d' V.validate_iter = d V.validate_iter -> d' V.gcd_b_end = val_t D L (a_ i) (b_ i) -> snd (g1 i) <> None -> SafeS k d' (87 * i + 83) f' n) ->
  SafeS (seq (phase_1_slave L (87 * i)) k) d (87 * i + 42) f n.
Proof.
  intros Hi Hf EU Hk. unfold phase_1_slave. rewrite seq_app. set (k1 := seq (gcd_unsigned _ _ _) k). cbn [seq fold_right]. change counter_start_phase_0 with 0. rewrite at_ok, Z.add_0_r by lia.
  apply wp_fence; [apply (unaltered_s i); lia|exact I|]. intros f1 Hf1 _.
  apply (slave_step i _ _ (a_ i)); slave_side; [intros o K; destruct (knows_start _ _ _ i K ltac:(lia) ltac:(lia) ltac:(lia)) as (-> & _); reflexivity|].
  apply (slave_step i _ _ (val_k D (a_ i) (b_ i))); slave_side; [intros o K; exact EU|].
  set (d1 := set V.gcd_b_start _ _).
  pose proof (asm_gcd_count (Z.abs (a_ i)) (Z.abs (val_k D (a_ i) (b_ i))) L) as Hes. fold (g1 i) in Hes. pose proof Hes as Hes'. unfold gcd_max_iterations, gcd_size in Hes'.
  assert (Er : asm_gcd_unsigned (Z.abs (d1 V.gcd_a_start)) (Z.abs (d1 V.gcd_b_start)) L = g1 i) by reflexivity.
  unfold k1. change counter_start_phase_1 with 42.
  assert (KS : forall c' (d2 d3 : data), c' < 87 * i + 84 -> entry d3 = entry d2 -> exit_flag d3 = exit_flag d2 -> d3 V.c = d2 V.c -> keeps FS c' c' f1 d2 d3).
  { intros c' d2 d3 Hc' Ee Ex Ecc. apply (keeps_s i); try lia. intros oc _ [H1 H2 H3 H4 H5 HF6]. split; [now rewrite Ecc| |lia|lia|lia|lia]. unfold entries_done, entry_done. now rewrite Ee, Ex. }
  apply gcd_unsigned_ok; rewrite ?Er; try assumption; try exact I.
  - intros j Hj. unfold gcd_num_counter, gcd_max_iterations, gcd_size in Hj. rewrite at_ok; lia.
  - intros d2 c' Hc'. apply (unaltered_s i); [lia|]. unfold gcd_num_counter, gcd_max_iterations, gcd_size in Hc'. lia.
  - intros d2 j _. exact I.
  - apply KS; reflexivity || lia.
  - intros j d2 c' Hj Hc HW. apply (keeps_s i); try lia. intros oc _ [H1 H2 H3 H4 H5 HF6]. split; [exact H1| |exact H3|exact H4|exact H5|exact HF6]. intros Hf'. apply entries_write; [lia|now apply H2].
  - intros j d2 c' Hj Hc (_ & _ & HW). apply (keeps_s i); try lia. intros oc _ [H1 H2 H3 H4 H5 HF6]. split; [intros _; apply H1; lia| |lia|lia|lia|lia]. intros _. rewrite Er in HW. now apply entries_publish.
  - intros d2 _. unfold finish_gcd. destruct (snd (asm_result d2)) as [[a' b']|]; apply KS; reflexivity || lia.
  - intros d2 Hr (_ & _ & HW). rewrite Er in HW. unfold gcd_num_counter, gcd_max_iterations, gcd_size. apply (keeps_s i); try lia. intros oc _ [H1 H2 H3 H4 H5 HF6].
    split; [intros _; apply H1; lia| |lia|lia|lia|lia]. intros _. now apply entries_all.
  - intros d2 a' b' E HW E1 E2. unfold gcd_num_counter, gcd_max_iterations, gcd_size. replace (87 * i + 42 + (20 * 2 + 1)) with (87 * i + 83) by lia.
    apply Hk; [lia| | |rewrite E; discriminate].
    + destruct HW as (Hz & _). rewrite Hz by discriminate. reflexivity.
    + rewrite E2. unfold val_t. now rewrite E.
Qed.

Lemma phase_2_slave_ok i (d : data) f n k : 0 <= i < N -> 87 * i <= f -> d V.gcd_b_end = val_t D L (a_ i) (b_ i) ->
  (forall (d' : data) f', f <= f' -> d' V.validate_iter = d V.validate_iter -> d' V.gcd_b_end = d V.gcd_b_end ->
     d' V.t_t_S = val_t_t_S D L (a_ i) (b_ i) -> d' V.v0_2 = val_v0_2 D L (a_ i) (b_ i) -> SafeS k d' (87 * i + 84) f' n) ->
  SafeS (seq (phase_2_slave (87 * i)) k) d (87 * i + 84) f n.
Proof.
  intros Hi Hf Et Hk. unfold phase_2_slave. change counter_start_phase_1 with 42. change counter_start_phase_2 with 84. cbn [seq fold_right]. rewrite !at_ok by lia.
  apply wp_fence; [apply (unaltered_s i); lia|exact I|]. intros f1 Hf1 Hf1'.
  apply (slave_step i _ _ (val_t D L (a_ i) (b_ i) * val_t D L (a_ i) (b_ i))); slave_side; try (intros o K; now rewrite Et).
  apply wp_fence; [apply (unaltered_s i); lia|exact I|]. intros f2 Hf2 Hf2'.
  apply (slave_step i _ _ (val_t_t_S D L (a_ i) (b_ i))); slave_side.
  { intros o K. destruct (knows_v _ _ _ i K ltac:(lia) ltac:(lia) ltac:(lia)) as (_ & _ & E1). unfold S_negative. rewrite E1. reflexivity. }
  apply (slave_step i _ _ (val_v0_2 D L (a_ i) (b_ i))); slave_side.
  { intros o K. destruct (knows_v _ _ _ i K ltac:(lia) ltac:(lia) ltac:(lia)) as (_ & E0 & _). now rewrite E0. }
  apply Hk; try reflexivity. lia.
Qed.

Lemma phase_3_slave_ok i (d : data) f n k : 0 <= i < N -> 87 * i <= f -> d V.gcd_b_end = val_t D L (a_ i) (b_ i) -> snd (g1 i) <> None ->
  (forall (d' : data) f', f <= f' -> d' V.validate_iter = d V.validate_iter -> d' V.e = val_e D L (a_ i) (b_ i) -> SafeS k d' (87 * i + 85) f' n) ->
  SafeS (seq (phase_3_slave (87 * i)) k) d (87 * i + 85) f n.
Proof.
  intros Hi Hf Et Hg Hk. unfold phase_3_slave. change counter_start_phase_2 with 84. cbn [seq fold_right]. rewrite !at_ok by lia.
  apply wp_fence; [apply (unaltered_s i); lia|exact I|]. intros f1 Hf1 Hf1'.
  assert (KS : forall o, knows FM (87 * i + 85) f1 o -> start_ok i o) by (intros o K; apply (knows_start _ _ _ _ K); lia).
  assert (KV : forall o, knows FM (87 * i + 85) f1 o -> small i /\ o V.v0 = val_v0 D L (a_ i) (b_ i) /\ o V.v1 = val_v1 D L (a_ i) (b_ i)) by (intros o K; apply (knows_v _ _ _ _ K); lia).
  apply (slave_step i _ _ (val_t D L (a_ i) (b_ i) * val_v0 D L (a_ i) (b_ i))); slave_side; [intros o K; destruct (KV o K) as (_ & -> & _); now rewrite Et|].
  apply (slave_step i _ _ (signed D L (a_ i) (b_ i) (val_t D L (a_ i) (b_ i) * val_v0 D L (a_ i) (b_ i)))); slave_side.
  { intros o K. destruct (KV o K) as (_ & _ & E1). unfold S_negative. rewrite E1. reflexivity. }
  eapply (slave_step i); slave_side; [intros o K; destruct (KS o K) as (-> & _); reflexivity|].
  apply (slave_step i _ _ (Z.shiftl (val_t D L (a_ i) (b_ i)) 1)); slave_side; [intros o K; cbn [z set V.var_beq]; now rewrite Et|].
  eapply (slave_step i); slave_side; [intros o K; reflexivity|].
  eapply (slave_step_res i _ _ (mpz_divexact (Z.shiftl (val_t D L (a_ i) (b_ i)) 1 * (a_ i + signed D L (a_ i) (b_ i) (val_t D L (a_ i) (b_ i) * val_v0 D L (a_ i) (b_ i)))) (val_v1 D L (a_ i) (b_ i)))); slave_side.
  { intros o K. destruct (KV o K) as ([Hs Hs'] & _ & E1). destruct (KS o K) as (_ & _ & _ & Hgd). pose proof (good_a i Hgd) as Ha. rewrite E1. apply divide_exact_ok.
    destruct (snd (g1 i)) as [[s t]|] eqn:E; [|now destruct Hg].
    assert (Hkk : 0 <= val_k D (a_ i) (b_ i) < a_ i) by (unfold val_k; rewrite (Z.abs_eq (a_ i)) by lia; now apply Z.mod_pos_bound).
    destruct (val_v_ok D L (a_ i) (b_ i) Ha ltac:(lia) ltac:(lia) s t Hkk E) as (? & ? & ? & ? & ? & _ & _ & _ & _ & Hv). exact Hv. }
  eapply (slave_step i); slave_side; [intros o K; destruct (KS o K) as (_ & -> & _); reflexivity|].
  apply (slave_step i _ _ (val_e D L (a_ i) (b_ i))); slave_side; [intros o K; reflexivity|].
  apply Hk; try reflexivity. exact Hf1.
Qed.

Lemma iteration_slave_ok i (d : data) c f n k : 0 <= i < N -> c = Z.max 0 (87 * i - 1) -> srange 32 (d V.validate_iter + 1) ->
  (forall (d' : data) f', d' V.validate_iter = d V.validate_iter + 1 -> SafeS k d' (87 * i + 86) f' n) ->
  SafeS (seq (all_phases D L (87 * i) true) k) d c f n.
Proof.
  intros Hi Hc Hw Hk. rewrite all_phases_seq, !at_ok by lia. rewrite Z.add_0_r. intros d0 A. split; [exact I|]. split; [lia|]. split.
  { intros oc _ HF j Hj. destruct (HF j Hj) as [H1 H2 H3 H4 H5 HF6]. pose proof (asm_gcd_count (Z.abs (a_ j)) (Z.abs (val_k D (a_ j) (b_ j))) L) as Hes. fold (g1 j) in Hes. unfold gcd_max_iterations, gcd_size in Hes.
    split; [intros; apply H1; lia| |intros; apply H3; lia|intros; apply H4; lia|intros; apply H5; lia|intros; apply HF6; lia]. intros Hf. destruct (H2 Hf) as [H6 H7]. split; [intros; apply H6; lia|intros; apply H7; lia]. }
  assert (Ew : d0 V.validate_iter = d V.validate_iter).
  { destruct A as [-> | (j & _ & _ & _ & A)]; [reflexivity|]. apply A. cbn. intuition discriminate. }
  apply phase_0_slave_ok; [exact Hi|now rewrite Ew|]. intros d1 f1 Hf1 Ew1 Ec EU.
  apply wp_advance; [apply (unaltered_s i); lia|exact I|lia|apply (keeps_advance_s i); lia || (intros; exact Ec)|].
  apply phase_1_slave_ok; [exact Hi|exact Hf1|exact EU|]. intros d2 f2 Hf2 Ew2 Et Hg.
  apply wp_advance; [apply (unaltered_s i); lia|exact I|lia|apply (keeps_advance_s i); lia || (intros; exact Et)|].
  apply phase_2_slave_ok; [exact Hi|lia|exact Et|]. intros d3 f3 Hf3 Ew3 Et3 E0 E1.
  apply wp_advance; [apply (unaltered_s i); lia|exact I|lia|apply (keeps_advance_s i); lia || (now split)|].
  apply phase_3_slave_ok; [exact Hi|lia|now rewrite Et3|exact Hg|]. intros d4 f4 Hf4 Ew4 Ee.
  apply wp_advance; [apply (unaltered_s i); lia|exact I|lia|apply (keeps_advance_s i); lia || (intros; exact Ee)|].
  apply Hk. lia.
Qed.

Lemma work_slave_ok w0 m : forall i (d : data) c f n, Z.of_nat m + i = N -> 0 <= i -> srange 32 w0 -> w0 + N < 2 ^ 31 -> c = Z.max 0 (87 * i - 1) -> d V.validate_iter = w0 + i ->
  SafeS (repeated_square_fast_work D L m i (87 * i) true base) d c f n.
Proof.
  induction m as [|m IH]; intros i d c f n Hm Hi Hw HwN Hc Ew; cbn [repeated_square_fast_work]; [exact I|].
  apply iteration_slave_ok; [lia|exact Hc|unfold srange in *; lia|]. intros d' f' Ew'.
  replace (u64 (87 * i + counter_end)) with (87 * (i + 1)) by (change counter_end with 87; rewrite u64_id; lia). apply IH; lia || assumption.
Qed.
End Facts.
