(* ===== verification/FastCorrect.v ===== *)
(** The phased squaring pipeline as a whole: whatever the order in which its two threads move, they
    end, they never fail, and the form they leave is the one squared as many times as they say. *)
From S2P Require Import Prelude Words NumTheory Gmp QuadForm FormClass Integer Forms Nucomp ProofCommon Powers Callback Vdf FastGcd FastThreads FastStep FastSquare FastLoops FastProof FastPipeline.

(** ** The threads end *)

Section Ends.
Context `{G : Gmp} {Asm : AsmGcd}.
Variables D L : Z.

Lemma longest_entry_loop m : forall j cs delta x y k, longest (entry_loop m j cs delta x y k) <= longest k + Z.of_nat m * (max_spin_counter + 11) + 2.
Proof.
  induction m as [|m IH]; intros j cs delta x y k; cbn [entry_loop longest]; [pose proof (longest_nonneg k); lia|].
  specialize (IH (j + 1) cs delta x y k). assert (0 <= max_spin_counter) by (unfold max_spin_counter; lia). pose proof (longest_nonneg k). destruct (j =? 0); cbn [longest]; nia.
Qed.

Lemma longest_publish m : forall j cs delta k, longest (publish m j cs delta k) <= longest k + Z.of_nat m * 9.
Proof. induction m as [|m IH]; intros j cs delta k; cbn [publish longest]; [lia|]. specialize (IH (j + 1) cs delta k). pose proof (longest_nonneg k). lia. Qed.

Lemma longest_gcd cs delta T k : longest (seq (gcd_unsigned cs delta T) k) <= longest k + 400.
Proof.
  unfold gcd_unsigned. cbn [seq fold_right longest]. match goal with |- context [publish ?m ?j ?c ?d ?k] => pose proof (longest_publish m j c d k) as H end. cbn [longest] in H.
  change (Z.of_nat (Z.to_nat gcd_num_counter)) with 41 in H. lia.
Qed.

Lemma longest_entries cs delta x y k : longest (entries cs delta x y k) <= longest k + 41 * (max_spin_counter + 11) + 2.
Proof. unfold entries. pose proof (longest_entry_loop (Z.to_nat gcd_num_counter) 0 cs delta x y k) as H. change (Z.of_nat (Z.to_nat gcd_num_counter)) with 41 in H. exact H. Qed.

(** Enough turns for an iteration, in which each thread has fewer than 60 fences to wait at. *)
Definition turns_per_iteration : Z := 60 * (max_spin_counter + 40).

Ltac count_steps := unfold assign_, assign_res; cbn [seq fold_right longest].

Lemma longest_0_master cs k : longest (seq (phase_0_master L cs) k) <= longest k + max_spin_counter + 417.
Proof. unfold phase_0_master. rewrite seq_app. count_steps. pose proof (longest_gcd cs counter_start_phase_0 0 k). lia. Qed.

Lemma longest_0_slave cs k : longest (seq (phase_0_slave D cs) k) <= longest k + 42 * max_spin_counter + 515.
Proof.
  unfold phase_0_slave. count_steps. match goal with |- context [entries ?c ?d ?x ?y ?k'] => pose proof (longest_entries c d x y k') as H; set (e := entries c d x y k') in * end.
  cbn [longest] in H. pose proof (longest_nonneg e). lia.
Qed.

Lemma longest_1_master cs k : longest (seq (phase_1_master cs) k) <= longest k + 42 * max_spin_counter + 464.
Proof. unfold phase_1_master. count_steps. pose proof (longest_entries cs counter_start_phase_1 V.v0 V.v1 k). lia. Qed.

Lemma longest_1_slave cs k : longest (seq (phase_1_slave L cs) k) <= longest k + max_spin_counter + 411.
Proof. unfold phase_1_slave. rewrite seq_app. count_steps. pose proof (longest_gcd cs counter_start_phase_1 L k). lia. Qed.

Lemma longest_late cs k :
  longest (seq (phase_2_master cs) k) <= longest k + 2 * max_spin_counter + 28 /\ longest (seq (phase_2_slave cs) k) <= longest k + 2 * max_spin_counter + 28 /\
  longest (seq (phase_3_master cs) k) <= longest k + max_spin_counter + 29 /\ longest (seq (phase_3_slave cs) k) <= longest k + max_spin_counter + 29 /\
  longest (seq (phase_4_master cs) k) <= longest k + 2 * max_spin_counter + 37 /\ longest (seq (phase_4_slave cs) k) <= longest k.
Proof. unfold phase_2_master, phase_2_slave, phase_3_master, phase_3_slave, phase_4_master, phase_4_slave. count_steps. repeat split; lia. Qed.

Lemma longest_phases cs is_slave k : longest (seq (all_phases D L cs is_slave) k) + 3 <= longest k + turns_per_iteration.
Proof.
  rewrite all_phases_seq. unfold turns_per_iteration. assert (0 <= max_spin_counter) by (unfold max_spin_counter; lia).
  destruct is_slave; cbn [call_phase nth longest].
  - set (k4 := seq (phase_4_slave cs) k). set (k3 := seq (phase_3_slave cs) _). set (k2 := seq (phase_2_slave cs) _). set (k1 := seq (phase_1_slave L cs) _).
    pose proof (longest_late cs k) as (_ & _ & _ & _ & _ & H4). pose proof (longest_late cs (Advance (at_counter cs 86) k4)) as (_ & _ & _ & H3 & _).
    pose proof (longest_late cs (Advance (at_counter cs 85) k3)) as (_ & H2 & _). pose proof (longest_1_slave cs (Advance (at_counter cs 84) k2)) as H1. pose proof (longest_0_slave cs (Advance (at_counter cs 42) k1)) as H0.
    fold k4 in H4. fold k3 in H3. fold k2 in H2. fold k1 in H1. cbn [longest] in *. lia.
  - set (k4 := seq (phase_4_master cs) k). set (k3 := seq (phase_3_master cs) _). set (k2 := seq (phase_2_master cs) _). set (k1 := seq (phase_1_master cs) _).
    pose proof (longest_late cs k) as (_ & _ & _ & _ & H4 & _). pose proof (longest_late cs (Advance (at_counter cs 86) k4)) as (_ & _ & H3 & _).
    pose proof (longest_late cs (Advance (at_counter cs 85) k3)) as (H2 & _). pose proof (longest_1_master cs (Advance (at_counter cs 84) k2)) as H1. pose proof (longest_0_master cs (Advance (at_counter cs 42) k1)) as H0.
    fold k4 in H4. fold k3 in H3. fold k2 in H2. fold k1 in H1. cbn [longest] in *. lia.
Qed.

Lemma longest_work m : forall i cs is_slave base, longest (repeated_square_fast_work D L m i cs is_slave base) <= Z.of_nat m * turns_per_iteration.
Proof.
  induction m as [|m IH]; intros i cs is_slave base; cbn [repeated_square_fast_work]; [cbn; lia|].
  specialize (IH (i + 1) (u64 (cs + counter_end)) is_slave base). set (next := repeated_square_fast_work _ _ _ _ _ _ _) in *.
  pose proof (longest_phases cs is_slave (if is_slave then next else Notify (u64 (base + i)) next)) as H. destruct is_slave; cbn [longest] in H; lia.
Qed.
End Ends.

(** ** The pipeline squares *)

Section Correct.
Context `{GL : GmpLaws} {Asm : AsmGcd} {AL : AsmGcdLaws Asm}.
Context {C : Type} {Li : Listener C}.
Variables D L : Z.
Variable x : form.
Hypothesis Cx : class D x.
Hypothesis HL : 0 <= L.
Variable I : C -> Z -> Prop.
Variable Nc : C -> Z.
Context {LL : ListenerLaws Li D x I Nc}.
Variables base n : Z.
Variable f : form.
Variable c0 : C.
Hypothesis Hn : 0 <= n /\ 87 * (n + 1) < 2 ^ 64.
Hypothesis Hf : pw D x (2 ^ base) f.
Hypothesis Hc0 : I c0 base.
Hypothesis HNc : base + n <= Nc c0.

Lemma HD : D < 0.
Proof. apply (valid_neg D x). apply Cx. Qed.

Lemma base_ok : 0 <= base /\ base + n < 2 ^ 63.
Proof. pose proof (listener_range c0 base Hc0). pose proof (listener_limit c0 base Hc0). lia. Qed.

Abbreviation FMn := (FM D L x base (fa f) (fb f)).
Abbreviation FSn := (FS D L (fa f) (fb f)).
Abbreviation Qn := (Q D L x base n (fa f) (fb f)).

(** What the listener has seen. *)
Definition Inv (l : option C) (k : Z) : Prop := exists c, l = Some c /\ I c (base + k) /\ Nc c = Nc c0.

Lemma assign_ok m s k : Qn m k -> exists s', assign D false m s = Ok (Some (mkform (m V.a) (m V.b) ((m V.b * m V.b - D) / (4 * m V.a))), s') /\ agree scratch s s' /\
  pw D x (2 ^ (base + k)) (mkform (m V.a) (m V.b) ((m V.b * m V.b - D) / (4 * m V.a))).
Proof.
  intros (Hk & _ & Ea & Eb & _ & Hg). pose proof HD as Hneg. pose proof Hg as [Ha Hc HP]. rewrite <- Ea, <- Eb in *. set (a := m V.a) in *. set (b := m V.b) in *.
  unfold assign. fold a b. cbn [z set V.var_beq]. rewrite shiftl_2. unfold set_divide_floor, divide_remainder.
  destruct (Z.eqb_spec (4 * a) 0) as [E|_]; [lia|]. cbn [negb bind]. rewrite Hc. cbn [is_true Z.eqb negb orb].
  destruct (Z.ltb_spec a 0); [lia|]. cbn [orb]. destruct (Z.ltb_spec ((b * b - D) / (4 * a)) 0) as [Hlt|_]; [pose proof (Z.div_pos (b * b - D) (4 * a) ltac:(nia) ltac:(lia)); lia|].
  eexists. split; [reflexivity|]. split; [|exact HP]. repeat (eapply agree_trans; [|apply agree_set; cbn; tauto]). apply agree_refl.
Qed.

Abbreviation notifies_n := (notifies D L x base n (fa f) (fb f)).

Lemma notification_ok (d : data) c fe k i : notifies_n d c fe k i ->
  (forall oc of_, fe <= oc -> of_ <= c -> ~ blame oc of_) /\
  forall choice o l, knows FSn c fe o -> Inv l k -> exists l' o', on_iteration D choice d o false i l = Ok (l', o') /\ Inv l' (k + 1) /\
    forall oc of_, fe <= oc -> of_ <= c -> FSn oc of_ c o -> FSn oc of_ c o' /\ alter oc of_ o o'.
Proof.
  intros (Hk & -> & Hfk & HQ & ->). pose proof base_ok as [Hb Hb']. split. { intros oc of_ H1 H2 (j & H3 & H4 & H5). lia. }
  intros choice o l _ (c & -> & HI & EN). destruct (assign_ok d o (k + 1) HQ) as (o' & Ea & HA & HP). unfold on_iteration. rewrite Ea. cbn [bind notify].
  assert (Hlt : base + k < Nc c) by lia. destruct (listener_step c (base + k) (NL_SQUARESTATE (Some (mkform (d V.a) (d V.b) ((d V.b * d V.b - D) / (4 * d V.a))))) HI Hlt) as (c' & -> & HI' & EN').
  { eexists. split; [now right|]. now replace (base + k + 1) with (base + (k + 1)) by lia. }
  cbn [bind]. exists (Some c'), (if choice then o' else o). split; [reflexivity|]. split; [exists c'; split; [reflexivity|]; split; [now replace (base + (k + 1)) with (base + k + 1) by lia|congruence]|].
  intros oc of_ H1 H2 HF. destruct choice; [|split; [exact HF|now left]]. split; [|right; exists k; repeat split; lia || apply HA].
  destruct HA as [Az Ae Ax _]. intros i Hi. destruct (HF i Hi) as [F1 F2 F3 F4 F5 F6]. split; [lia| | | | |exact F6].
  - unfold entries_done, entry_done. now rewrite Ae, Ax.
  - rewrite Az by (cbn; intuition discriminate). exact F3.
  - rewrite !Az by (cbn; intuition discriminate). exact F4.
  - rewrite Az by (cbn; intuition discriminate). exact F5.
Qed.

Variables gm gs : data.
Hypothesis Hsize : mpz_size L <= gcd_size.
Hypothesis Hvi : srange 32 (gs V.validate_iter) /\ gs V.validate_iter + n < 2 ^ 31.

Abbreviation both_n := (both Inv FMn FSn Qn alter anywhere blame notifies_n).

Lemma start_Q : Qn (init gm (fa f) (fb f)) 0.
Proof.
  pose proof (pw_class D x Cx _ _ Hf) as Cf. destruct (class_valid _ _ Cf) as [Ed _ Hp]. split; [lia|]. split; [reflexivity|]. split; [reflexivity|]. split; [reflexivity|].
  split; [cbn [init z set V.var_beq]; unfold b_higher, a_, b_; cbn [ab Z.to_nat Nat.iter nat_rect fst snd]; now destruct (Z.abs (fa f) <=? Z.abs (fb f))|].
  assert (E : fb f * fb f - D = fc f * (4 * fa f)) by (unfold disc in Ed; lia).
  split; unfold a_, b_; cbn [ab Z.to_nat Nat.iter nat_rect fst snd]; [exact Hp|rewrite E; apply Z.mod_mul; lia|]. rewrite E, Z.div_mul, Z.add_0_r, <- form_eta by lia. exact Hf.
Qed.

Lemma start_ok_config : exists c, start D L gm gs f base n (Some c0) = Ok c /\ both_n c 0 /\ spin_ok (master c) /\ spin_ok (slave c) /\
  rest (master c) = repeated_square_fast_work D L (Z.to_nat n) 0 0 false base /\ rest (slave c) = repeated_square_fast_work D L (Z.to_nat n) 0 0 true base /\ spin_counter (master c) = 0 /\ spin_counter (slave c) = 0.
Proof.
  pose proof base_ok as [Hb Hb']. pose proof HD as Hneg. unfold start. destruct (Z.leb_spec (mpz_size L) gcd_size); [|lia]. eexists. split; [reflexivity|].
  split; [|repeat split; cbn; lia || (unfold max_spin_counter; lia)]. split; cbn [master slave corruption_flag listener rest dat counter_value last_fence].
  - split; cbn [rest dat counter_value last_fence]; try lia.
    + apply (work_master_ok D L Hneg HL x Cx base n (fa f) (fb f) Hb Hn (Z.to_nat n) 0); [lia|lia|lia|lia|now left|exact start_Q].
    + intros j Hj. split; [intros H1 _; replace j with 0 by lia; apply start_Q|lia| |lia]. intros _. split; lia.
    + intros j Hj. split; [lia| |lia|lia|lia|lia]. intros _. split; lia.
    + exists c0. rewrite Z.add_0_r. now split.
  - apply (work_slave_ok D L HL x base n (fa f) (fb f) Hn (gs V.validate_iter) (Z.to_nat n) 0); lia || tauto.
Qed.

(** At every moment of every execution. *)
Lemma pipeline_runs schedule : exists c c' k, start D L gm gs f base n (Some c0) = Ok c /\ run (on_iteration D) schedule c = Ok c' /\ both_n c' k.
Proof.
  destruct start_ok_config as (c & Es & HB & _).
  destruct (run_sound (on_iteration D) Inv FMn FSn Qn alter anywhere blame notifies_n alter_refl (alter_trans n Hn) (FM_fence D L x base (fa f) (fb f)) (FS_fence D L (fa f) (fb f))
    (FM_reader D L x base (fa f) (fb f)) (FS_reader D L (fa f) (fb f)) notification_ok schedule c 0 HB) as (c' & k & E & HB'). now exists c, c', k.
Qed.

(** The result and what the listener has seen: nothing counts when the form was found to be
    corrupted, else the form is the one of as many iterations as reported. *)
Definition fast_outcome (r : Z) (f' : form) (l : option C) : Prop :=
  r = 2 ^ 64 - 1 /\ f' = f /\ (exists k, 0 <= k <= n /\ Inv l k) \/ 0 <= r <= n /\ pw D x (2 ^ (base + r)) f' /\ Inv l r.

Lemma multithread_outcome schedule :
  match repeated_square_fast_multithread D L schedule gm gs f base n (Some c0) with
  | Ok (r, f', l) => fast_outcome r f' l
  | Throw e => e = out_of_fuel /\ (turns false schedule < n * turns_per_iteration \/ turns true schedule < n * turns_per_iteration)
  end.
Proof.
  destruct start_ok_config as (c & Es & _ & Pm & Ps & Rm & Rs & Sm & Ss). destruct (pipeline_runs schedule) as (c1 & c' & k & Es' & E & HB').
  assert (c1 = c) as -> by congruence. unfold repeated_square_fast_multithread. rewrite Es. cbn [bind]. rewrite E. cbn [bind].
  destruct (both_finished c') eqn:Ef.
  - unfold both_finished in Ef. apply andb_true_iff in Ef as [Ef _]. pose proof (both_dead _ _ _ _ _ _ _ _ c' k HB') as HQ.
    unfold is_finished in Ef. destruct (rest (master c')); try discriminate. specialize (HQ Logic.I). pose proof HQ as (Hk & En & _).
    destruct HB' as [[_ _ _ _ _ HI _] _]. destruct (corruption_flag c') eqn:Ec.
    + cbn [assign bind]. left. split; [reflexivity|]. split; [reflexivity|]. now exists k.
    + destruct (assign_ok (dat (master c')) (dat (slave c')) k HQ) as (s' & -> & _ & HP). cbn [bind]. right. rewrite En. now split.
  - split; [reflexivity|]. destruct (Z.lt_ge_cases (turns false schedule) (n * turns_per_iteration)); [now left|]. destruct (Z.lt_ge_cases (turns true schedule) (n * turns_per_iteration)); [now right|].
    exfalso. enough (both_finished c' = true) by congruence. apply (run_finishes (on_iteration D) schedule c c' Pm Ps E).
    + pose proof (longest_work D L (Z.to_nat n) 0 0 false base) as H1. rewrite Z2Nat.id in H1 by lia. rewrite remaining_zero, Rm by assumption. lia.
    + pose proof (longest_work D L (Z.to_nat n) 0 0 true base) as H1. rewrite Z2Nat.id in H1 by lia. rewrite remaining_zero, Rs by assumption. lia.
Qed.
End Correct.

(** C4: whatever the order in which the two threads of the pipeline move, the call does not fail. When
    both threads have had [n * turns_per_iteration] turns it has returned. It reports some number r of iterations, at most n: the
    form is then that of x^(2^(base+r)), and the listener has seen exactly these r iterations; or it reports corruption, and the
    form is unchanged. *)
Theorem repeated_square_fast_correct {G : Gmp} {GL : GmpLaws G} {Asm : AsmGcd} {AL : AsmGcdLaws Asm} {C : Type} {Li : Listener C} (D L : Z) (x : form)
  (I : C -> Z -> Prop) (N : C -> Z) {LL : ListenerLaws Li D x I N} (base n : Z) (f : form) (c : C) (garbage_m garbage_s : data) (schedule : list turn) :
  class D x -> 0 <= L -> mpz_size L <= gcd_size -> 0 <= n -> 87 * (n + 1) < 2 ^ 64 -> base + n <= N c -> I c base -> pw D x (2 ^ base) f ->
  srange 32 (garbage_s V.validate_iter) -> garbage_s V.validate_iter + n < 2 ^ 31 ->
  match repeated_square_fast_multithread D L schedule garbage_m garbage_s f base n (Some c) with
  | Ok (r, f', l) =>
      r = 2 ^ 64 - 1 /\ f' = f /\ (exists k c', 0 <= k <= n /\ l = Some c' /\ I c' (base + k) /\ N c' = N c) \/
      0 <= r <= n /\ pw D x (2 ^ (base + r)) f' /\ (exists c', l = Some c' /\ I c' (base + r) /\ N c' = N c)
  | Throw e => e = out_of_fuel /\ (turns false schedule < n * turns_per_iteration \/ turns true schedule < n * turns_per_iteration)
  end.
Proof.
  intros Cx HL Hs Hn Hn' HN HI Hf Hv Hv'.
  pose proof (multithread_outcome D L x Cx HL I N base n f c (conj Hn Hn') Hf HI HN garbage_m garbage_s Hs (conj Hv Hv') schedule) as H.
  destruct (repeated_square_fast_multithread D L schedule garbage_m garbage_s f base n (Some c)) as [[[r f'] l]|e]; [|exact H].
  destruct H as [(E & Ef & k & Hk & c' & Hc)|H]; [left; split; [exact E|]; split; [exact Ef|]; now exists k, c'|now right].
Qed.

(** C5: no thread of the pipeline runs or waits forever: after [n * turns_per_iteration] turns of its own it is
    finished, whatever the other one does and whatever the numbers are. *)
Theorem pipeline_ends {G : Gmp} {Asm : AsmGcd} {C : Type} {Li : Listener C} (D L : Z) (garbage_m garbage_s : data) (f : form) (base n : Z) (l : option C)
  (schedule : list turn) (c c' : config data (option C)) :
  0 <= n -> start D L garbage_m garbage_s f base n l = Ok c -> run (on_iteration D) schedule c = Ok c' ->
  (n * turns_per_iteration <= turns false schedule -> is_finished (master c') = true) /\ (n * turns_per_iteration <= turns true schedule -> is_finished (slave c') = true).
Proof.
  intros Hn Es E. unfold start in Es. destruct (mpz_size L <=? gcd_size); [|discriminate]. injection Es as Ec.
  assert (Pm : spin_ok (master c)) by (rewrite <- Ec; unfold spin_ok, max_spin_counter; cbn; lia). assert (Ps : spin_ok (slave c)) by (rewrite <- Ec; unfold spin_ok, max_spin_counter; cbn; lia).
  destruct (run_remaining (on_iteration D) schedule c c' Pm Ps E) as (Pm' & Ps' & Lm & Ls). rewrite <- Ec in Lm, Ls. cbn [master slave] in Lm, Ls. rewrite remaining_fresh in Lm, Ls.
  pose proof (longest_work D L (Z.to_nat n) 0 0 false base) as Wm. pose proof (longest_work D L (Z.to_nat n) 0 0 true base) as Ws. rewrite Z2Nat.id in Wm, Ws by exact Hn.
  split; intros H; apply remaining_finished; assumption || lia.
Qed.

(** ** An execution *)

(** A listener that counts. *)
#[export] Instance counting_listener : Listener Z := fun c _ _ => Ok (c + 1).

#[export] Instance counting_laws D x : ListenerLaws counting_listener D x (fun c n => c = n /\ 0 <= n) (fun _ => 2 ^ 62).
Proof. split; [easy|lia|]. intros c n data [-> Hn] _ _. exists (n + 1). split; [reflexivity|]. split; [lia|reflexivity]. Qed.

Definition example_D : Z := -17227221929186374489023653983235348680707.
Definition example_form : form := mkform 67368094064362257961 32656912855333 63929454174289333759.
Definition example_data : data := mkdata (fun _ => 0) (fun _ => mkentry 0 0 0 0 0) (fun _ => false) ([], None).
Definition example_schedule : list turn := concat (repeat [(true, true); (false, true); (false, false)] 1000).

Lemma example_class : class example_D example_form.
Proof. split; [split; [vm_compute; reflexivity|reflexivity|reflexivity]|vm_compute; reflexivity]. Qed.

Lemma example_power : pw example_D example_form (2 ^ 0) example_form.
Proof.
  apply (pw_1 example_D example_form example_class (mkform 1 1 ((1 - example_D) / 4))). split; [reflexivity|].
  exists 1, ((1 - example_D) / 4). split; [reflexivity|vm_compute; reflexivity].
Qed.

Lemma repeated_square_fast_correct_witness :
  exists f', repeated_square_fast_multithread (G := Ref.gmp) (Asm := euclid_gcd) example_D 11456548873 example_schedule example_data example_data example_form 0 2 (Some 0) = Ok (2, f', Some 2) /\
    pw example_D example_form (2 ^ 2) f'.
Proof.
  pose proof (repeated_square_fast_correct (GL := Ref.laws) (AL := euclid_gcd_laws) example_D 11456548873 example_form (fun c n => c = n /\ 0 <= n) (fun _ => 2 ^ 62) 0 2 example_form 0
    example_data example_data example_schedule example_class ltac:(lia) ltac:(vm_compute; discriminate) ltac:(lia) ltac:(lia) ltac:(lia) ltac:(split; [reflexivity|lia]) example_power ltac:(unfold srange; cbn; lia) ltac:(cbn; lia)) as H.
  assert (E : repeated_square_fast_multithread (G := Ref.gmp) (Asm := euclid_gcd) example_D 11456548873 example_schedule example_data example_data example_form 0 2 (Some 0)
    = Ok (2, mkform 23515771295650144429 27110296133135222055 190958972382666828177, Some 2)) by (vm_compute; reflexivity).
  rewrite E in H. exists (mkform 23515771295650144429 27110296133135222055 190958972382666828177). split; [exact E|]. destruct H as [(H & _)|(_ & H & _)]; [discriminate H|exact H].
Defined.

Lemma turns_repeat b choice k : turns b (repeat (b, choice) k) = Z.of_nat k.
Proof. unfold turns. induction k as [|k IH]; [reflexivity|]. cbn [repeat filter fst]. rewrite eqb_reflx. cbn [length]. lia. Qed.

(** A master that has had all its turns, beside a slave that never moves. *)
Lemma pipeline_ends_witness :
  exists c c', start (G := Ref.gmp) (Asm := euclid_gcd) example_D 11456548873 example_data example_data example_form 0 1 (Some 0) = Ok c /\
    run (on_iteration example_D) (repeat (false, true) (Z.to_nat (1 * turns_per_iteration))) c = Ok c' /\ is_finished (master c') = true.
Proof.
  destruct (pipeline_runs (GL := Ref.laws) (AL := euclid_gcd_laws) example_D 11456548873 example_form example_class ltac:(lia) (fun c n => c = n /\ 0 <= n) (fun _ => 2 ^ 62) 0 1 example_form 0
    ltac:(lia) example_power ltac:(split; [reflexivity|lia]) ltac:(lia) example_data example_data ltac:(vm_compute; discriminate) ltac:(unfold srange; cbn; lia)
    (repeat (false, true) (Z.to_nat (1 * turns_per_iteration)))) as (c & c' & k & Es & E & _).
  exists c, c'. split; [exact Es|]. split; [exact E|].
  apply (pipeline_ends (G := Ref.gmp) (Asm := euclid_gcd) (Li := counting_listener) example_D 11456548873 example_data example_data example_form 0 1 (Some 0)
    (repeat (false, true) (Z.to_nat (1 * turns_per_iteration))) c c' ltac:(lia) Es E).
  rewrite turns_repeat, Z2Nat.id; unfold turns_per_iteration, max_spin_counter; lia.
Defined.

(** The counter of the slave's validations is never reset: an [int] that has counted 2^31-1 of them overflows. *)
Lemma validate_iter_overflows :
  run (on_iteration (Li := counting_listener) example_D) [(true, true); (true, true); (true, true)]
    (mkconfig (mkthread Finish (init example_data (fa example_form) (fb example_form)) 0 false 0 0)
      (mkthread (repeated_square_fast_work (G := Ref.gmp) (Asm := euclid_gcd) example_D 11456548873 1 0 0 true 0) (set V.validate_iter (2 ^ 31 - 1) example_data) 0 false 0 0) false (Some 0))
  = Throw undefined_behaviour.
Proof. reflexivity. Qed.
