(* ===== verification/Proving.v ===== *)
(** [src/src/vdf.h], second part: [ProveOneWesolowski] and [ProveTwoWeso], which
    wait for the main loop, run the provers and put the bytes of a proof
    together. What the other threads do is an environment: the values the reads
    of the shared variables return, by a clock that counts the reads. *)
From S2P Require Import Prelude Words NumTheory Gmp QuadForm FormClass Integer Forms OrigForms Nucomp Bqfc PrimeTest HashPrime ProofCommon Powers Verifier Steps Segments Prover Callback Provers Vdf.

(** ** The environment *)

(** [stop_at t], [published_at t]: the [t]-th read of the stop signal and of
    [weso->iterations]. A default-constructed [Proof] leaves [witness_type]
    indeterminate: [junk_type]. *)
Record env : Type := mkenv {
  stop_at : nat -> bool;
  published_at : nat -> Z;
  junk_type : Z;
}.

Definition empty_proof (E : env) : Proof_t := mkProof [] [] (junk_type E).

(** [while (!stopped && weso->iterations < target) sleep;] from the clock [t]. *)
Fixpoint wait_iterations (fuel : nat) (E : env) (target : Z) (t : nat) : res nat :=
  if negb (stop_at E t) && (u64 (published_at E t) <? target) then
    match fuel with
    | O => Throw out_of_fuel
    | S fuel' => wait_iterations fuel' E target (S t)
    end
  else Ok t.

(** [while (!prover.IsFinished()) sleep;] when no thread runs the prover. *)
Fixpoint wait_finished (fuel : nat) (p : prover) : res unit :=
  if IsFinished p then Ok tt
  else match fuel with O => Throw out_of_fuel | S fuel' => wait_finished fuel' p end.

Section WithGmp.
Context `{G : Gmp} `{R : FormReducer}.

(** ** ProveOneWesolowski *)

(** [start] runs [GenerateProof] in the calling thread: its [PerformExtraStep]s
    are the next reads of [stopped]. The callback no longer changes once
    [wanted_iter] iterations are published. *)
Definition ProveOneWesolowski (ApproximateParameters : Z -> res (Z * Z)) (wait_fuel fuel : nat) (E : env)
  (iters D : Z) (f : form) (weso : OneWesolowskiCallback) : res Proof_t :=
  t <- wait_iterations wait_fuel E iters O ;;
  if stop_at E (S t) then Ok (empty_proof E)
  else
    let sg := Segment_make 0 iters f (o_result weso) in
    p <- OneWesolowskiProver ApproximateParameters sg D ;;
    p <- GenerateProof (One_GetForm (o_forms weso) (o_capacity weso)) (fun c => negb (stop_at E (S (S t) + c))) set_finished fuel p ;;
    _ <- wait_finished wait_fuel p ;;
    d_bits <- num_bits D ;;
    ' (y_serialized, _) <- SerializeForm (o_result weso) d_bits ;;
    ' (proof_serialized, _) <- SerializeForm (GetProof p) d_bits ;;
    Ok (mkProof y_serialized proof_serialized 0).

(** ** ProveTwoWeso *)

(** What the threads of the provers see: [perform_at depth] answers the
    [PerformExtraStep]s of the prover started at that depth, [copy_at depth] is
    what its [GetFormCopy]s return, and [finish_at depth] the read of
    [IsFinished] from which on the main thread sees it finished. *)
Record two_env : Type := mktwo_env {
  base_env : env;
  perform_at : nat -> nat -> bool;
  copy_at : nat -> Z -> res form;
  finish_at : nat -> nat;
}.

(** [while (!stop_signal && !prover.IsFinished()) sleep;] *)
Fixpoint wait_prover (fuel : nat) (E : two_env) (depth : nat) (p : prover) (t : nat) : res nat :=
  if negb (stop_at (base_env E) t) && negb (IsFinished p && (finish_at E depth <=? t)%nat) then
    match fuel with
    | O => Throw out_of_fuel
    | S fuel' => wait_prover fuel' E depth p (S t)
    end
  else Ok t.

(** The branch [depth == 2]. The clock is passed on. *)
Definition prove_last (wait_fuel fuel : nat) (E : two_env) (D : Z) (x : form) (iters done_iterations : Z) (t : nat)
  : res (Proof_t * nat) :=
  let total := u64 (done_iterations + iters) in
  t <- wait_iterations wait_fuel (base_env E) total t ;;
  if stop_at (base_env E) (S t) then Ok (empty_proof (base_env E), S t)
  else
    let checkpoint := u64 (total - Z.rem total 100) in
    y <- copy_at E 2 checkpoint ;;
    ' (y, _) <- repeated_square_original (L := One_listener) y 0 (Z.rem total 100) None ;;
    let p := TwoWesolowskiProver (Segment_make done_iterations iters x y) D in
    p <- GenerateProof (Two_GetForm (copy_at E 2) p) (perform_at E 2) set_finished fuel p ;;
    if stop_at (base_env E) (S (S t)) then Ok (empty_proof (base_env E), S (S t))
    else
      d_bits <- num_bits D ;;
      ' (y_bytes, _) <- SerializeForm y d_bits ;;
      ' (proof_bytes, _) <- SerializeForm (GetProof p) d_bits ;;
      Ok (mkProof y_bytes proof_bytes (junk_type (base_env E)), S (S t)).

(** [levels] is [2 - depth]. The prover's thread runs beside the recursive call. *)
Fixpoint ProveTwoWeso (levels : nat) (wait_fuel fuel : nat) (E : two_env) (D : Z) (x : form) (iters done_iterations : Z) (t : nat)
  : res (Proof_t * nat) :=
  _ <- root (- D) 4 ;;
  match levels with
  | O => prove_last wait_fuel fuel E D x iters done_iterations t
  | S levels' =>
      let depth := (2 - levels)%nat in
      let iterations1 := Z.quot (u64 (iters * 2)) 3 in
      let iterations1 := u64 (iterations1 - Z.rem iterations1 100) in
      let iterations2 := u64 (iters - iterations1) in
      let split := u64 (done_iterations + iterations1) in
      t <- wait_iterations wait_fuel (base_env E) split t ;;
      if stop_at (base_env E) (S t) then Ok (empty_proof (base_env E), S t)
      else
        y1 <- copy_at E depth split ;;
        let p := TwoWesolowskiProver (Segment_make done_iterations iterations1 x y1) D in
        p <- GenerateProof (Two_GetForm (copy_at E depth) p) (perform_at E depth) set_finished fuel p ;;
        ' (proof2, t) <- ProveTwoWeso levels' wait_fuel fuel E D y1 iterations2 split (S (S t)) ;;
        t <- wait_prover wait_fuel E depth p (S t) ;;
        if stop_at (base_env E) (S t) then Ok (empty_proof (base_env E), S t)
        else
          d_bits <- num_bits D ;;
          ' (B, _, _) <- GetB fuel D x y1 ;;
          ' (proof_serialized, _) <- SerializeForm (GetProof p) d_bits ;;
          Ok (mkProof (pr_y proof2) (pr_proof proof2 ++ Int64ToBytes iterations1 ++ to_bytes B ++ proof_serialized)
                (if (depth =? 0)%nat then 2 else junk_type (base_env E)), S t)
  end.

End WithGmp.

(** ** Waiting *)

(** Nobody stops the computation. *)
Definition undisturbed (E : env) : Prop := forall t, stop_at E t = false.

(** After [n] reads of the count, [target] iterations are published. *)
Definition reaches_count (E : env) (target : Z) (n : nat) : Prop :=
  forall t, (n <= t)%nat -> target <= published_at E t < 2 ^ 63.

Lemma wait_iterations_ok E target n fuel : undisturbed E -> reaches_count E target n -> 0 <= target -> forall t, (n <= t + fuel)%nat ->
  exists t', wait_iterations fuel E target t = Ok t' /\ (t <= t')%nat.
Proof.
  intros HU HR H0. induction fuel as [|fuel IH]; intros t Ht; cbn [wait_iterations]; rewrite HU; cbn [negb andb].
  - specialize (HR t ltac:(lia)). rewrite u64_id by lia. destruct (Z.ltb_spec (published_at E t) target); [lia|]. now exists t.
  - destruct (_ <? _); [|now exists t]. destruct (IH (S t) ltac:(lia)) as (t' & Ew & Ht'). exists t'. split; [exact Ew|lia].
Qed.

(** A stop request ends the wait. *)
Lemma wait_iterations_stopped E target n fuel : (forall t, (n <= t)%nat -> stop_at E t = true) -> forall t, (n <= t + fuel)%nat ->
  exists t', wait_iterations fuel E target t = Ok t'.
Proof.
  intros HS. induction fuel as [|fuel IH]; intros t Ht; cbn [wait_iterations].
  - rewrite HS by lia. now exists t.
  - destruct (_ && _); [apply IH; lia|now exists t].
Qed.

Lemma wait_finished_never fuel p : is_finished p = false -> wait_finished fuel p = Throw out_of_fuel.
Proof. intros H. unfold IsFinished. induction fuel as [|fuel IH]; cbn [wait_finished]; unfold IsFinished; now rewrite H. Qed.

Lemma wait_finished_ok fuel p : is_finished p = true -> wait_finished fuel p = Ok tt.
Proof. intros H. destruct fuel; cbn [wait_finished]; unfold IsFinished; now rewrite H. Qed.

(** ** ProveOneWesolowski *)

Section One.
Context `{GL : GmpLaws} `{RL : FormReducerLaws}.
Variable D : Z.
Hypothesis HD : good_disc D.
Variable x : form.
Hypothesis Cx : class D x.
Variables T l k : Z.
Variable AP : Z -> res (Z * Z).
Hypothesis HT : 1 <= T < 2 ^ 63.
Hypothesis HAP : (if 2 ^ 16 <=? T then AP T else Ok (1, 10)) = Ok (l, k).
Hypothesis Hk : 1 <= k <= 30.
Hypothesis Hl : 1 <= l.
Hypothesis Hkl : k * l < 2 ^ 31.
Variable c : OneWesolowskiCallback.
Variable n : Z.
Hypothesis HC : one_I D x T (k * l) (T / (k * l) + 100) c n.
Hypothesis Hn : T <= n.

(** The callback holds what the prover needs. *)
Lemma one_result_ok : pw D x (2 ^ T) (o_result c).
Proof. destruct HC as ([_ _ _ _ HR] & _). now apply HR. Qed.

Lemma one_prover : OneWesolowskiProver AP (Segment_make 0 T x (o_result c)) D = Ok (Prover_make (Segment_make 0 T x (o_result c)) D k l).
Proof. unfold OneWesolowskiProver. cbn [length_ Segment_make]. now rewrite HAP. Qed.

Lemma one_proof_task : proof_task D x (o_result c) T k l (One_GetForm (o_forms c) (o_capacity c)).
Proof.
  destruct HC as ([HW Hkl0 Hcap HF HR] & _ & Ek & Ec). rewrite Ek in HF.
  apply (one_task D HD (Segment_make 0 T x (o_result c)) T l k); try assumption; try reflexivity; try lia.
  - exact (pw_class D x Cx _ _ one_result_ok).
  - intros i Hi Hle. apply HF; [exact Hi|lia].
Qed.

Lemma prove_one_runs E wait_fuel fuel : undisturbed E -> reaches_count E T wait_fuel ->
  with_B (GetB fuel D x (o_result c)) (ProveOneWesolowski AP wait_fuel fuel E T D x c) (fun B x' y' =>
    exists ys ps proof, ProveOneWesolowski AP wait_fuel fuel E T D x c = Ok (mkProof ys ps 0) /\
      SerializeForm (o_result c) (bitlen D) = Ok (ys, y') /\ DeserializeForm D ys 100 false = Ok y' /\
      DeserializeForm D ps 100 false = Ok proof /\ pw D x (2 ^ T / B) proof /\ length ys = 100%nat /\ length ps = 100%nat /\
      forall x_s size, length x_s = 100%nat -> DeserializeForm D x_s 100 false = Ok x' -> 0 < size <= 1024 ->
      CheckProofOfTimeNWesolowski fuel D (Some x_s) (Some (ys ++ ps)) 200 T size 0 = Ok true).
Proof.
  intros HU HR. unfold ProveOneWesolowski, with_B. destruct (wait_iterations_ok E T wait_fuel wait_fuel HU HR ltac:(lia) O ltac:(lia)) as (t & -> & _).
  cbn [bind]. rewrite HU, one_prover. cbn [bind]. set (p := Prover_make (Segment_make 0 T x (o_result c)) D k l).
  set (perform := fun c : nat => negb (stop_at E (S (S t) + c))).
  pose proof (generate_proof_helper (One_GetForm (o_forms c) (o_capacity c)) perform set_finished fuel p one_proof_task) as HG.
  unfold with_B in HG. change (pD p) with D in HG. change (seg_x (segm p)) with x in HG. change (seg_y (segm p)) with (o_result c) in HG.
  change (num_iterations p) with T in HG. destruct (GetB fuel D x (o_result c)) as [[[B x'] y']|e] eqn:EB; [|now rewrite HG].
  destruct HG as [(z & Pz & ->)|([m Hm] & _)]; [|unfold perform in Hm; rewrite HU in Hm; discriminate]. cbn [bind].
  rewrite wait_finished_ok by reflexivity. cbn [bind]. rewrite num_bits_disc by exact HD. cbn [bind].
  pose proof one_result_ok as Py. pose proof (pw_class D x Cx _ _ Py) as Cy.
  destruct (GetB_ok fuel D x _ B x' y' HD Cx Cy EB) as (_ & Ry & _).
  destruct (SerializeForm_ok D _ HD Cy) as (ys & y2 & Eys & Ry2 & _ & _ & _ & Lys & _). rewrite Ry in Ry2. injection Ry2 as <-. rewrite Eys. cbn [bind].
  change (GetProof (set_finished (set_proof (set_segm p x' y') z))) with z. pose proof (pw_class D x Cx _ _ Pz) as Cz.
  destruct (SerializeForm_ok D z HD Cz) as (ps & z2 & Eps & _ & _ & Qz & _ & Lps & _). rewrite Eps. cbn [bind].
  pose proof (SerializeForm_reads D _ ys y' HD Cy Eys false) as Ey. pose proof (SerializeForm_reads D z ps z2 HD Cz Eps false) as Ep. pose proof (pw_equiv D x _ z z2 Pz Qz) as Pz2.
  exists ys, ps, z2. repeat (split; [easy|]).
  intros x_s size Lx Ex Hsz. apply (one_proof_accepted fuel D x x' (o_result c) y' B T ys ps z2 x_s size); try assumption. lia.
Qed.
End One.

(** *** Stopping it *)

(** Computations that make at least one [PerformExtraStep]. *)
Section Never.
Variable perform : nat -> bool.
Hypothesis Hno : forall c, perform c = false.

Definition never {A} (m : step A) : Prop := forall n a n', m n <> Ok (Some (a, n')).

Lemma never_perform : never (PerformExtraStep perform).
Proof. intros n a n'. unfold PerformExtraStep. now rewrite Hno. Qed.

Lemma never_bind_l {A B} (m : step A) (f : A -> step B) : never m -> never (bindS m f).
Proof. intros H n b n' E. unfold bindS in E. destruct (m n) as [[[a n1]|]|] eqn:Em; cbn [bind] in E; try discriminate. now apply (H n a n1). Qed.

Lemma never_bind_r {A B} (m : step A) (f : A -> step B) : (forall a, never (f a)) -> never (bindS m f).
Proof. intros H n b n' E. unfold bindS in E. destruct (m n) as [[[a n1]|]|] eqn:Em; cbn [bind] in E; try discriminate. now apply (H a n1 b n'). Qed.

Lemma never_for {A} ixs (body : Z -> A -> step A) s : ixs <> [] -> (forall i s, never (body i s)) -> never (forS ixs body s).
Proof. destruct ixs as [|i ixs]; [easy|]. intros _ H. cbn [forS]. apply never_bind_l, H. Qed.
End Never.

Lemma upto_nonempty n : 1 <= n -> upto n <> [].
Proof. intros H E. apply (f_equal (@length Z)) in E. unfold upto in E. rewrite length_map, length_seq in E. cbn [length] in E. lia. Qed.

Lemma proof_loop_never `{G : Gmp} `{R : FormReducer} J lo hi : (forall c, jperform J c = false) -> 0 <= jk J -> lo < hi -> never (proof_loop J hi lo).
Proof.
  intros Hno Hk Hlt. unfold proof_loop. apply never_for.
  - intros E. apply (f_equal (@length Z)) in E. unfold downto, upto in E. rewrite length_map, length_rev, length_map, length_seq in E. cbn [length] in E. lia.
  - intros j s. unfold proof_step. destruct (31 <=? jk J); [now intros n a n'|]. apply never_bind_r. intros x1. apply never_bind_r. intros ys.
    assert (Hpos : forall m, 0 <= m -> 1 <= Z.shiftl 1 m) by (intros m Hm; rewrite Z.shiftl_1_l; pose proof (Z.pow_pos_nonneg 2 m); lia).
    rewrite Z.quot_div_nonneg by lia. apply never_bind_l. unfold combine_high. apply never_for; [apply upto_nonempty, Hpos; Z.div_mod_to_equations; lia|].
    intros b1 x2. apply never_bind_l. unfold product. apply never_for; [apply upto_nonempty, Hpos; Z.div_mod_to_equations; lia|].
    intros b0 z. apply never_bind_l. now apply never_perform.
Qed.

(** A prover that is stopped from the start ends without a proof. *)
Lemma GenerateProof_stopped `{GL : GmpLaws} `{RL : FormReducerLaws} GetForm perform OnFinish fuel p B x' y' :
  proof_task (pD p) (seg_x (segm p)) (seg_y (segm p)) (num_iterations p) (pk p) (pl p) GetForm -> (forall c, perform c = false) ->
  GetB fuel (pD p) (seg_x (segm p)) (seg_y (segm p)) = Ok (B, x', y') ->
  GenerateProof GetForm perform OnFinish fuel p = Ok (set_segm p x' y').
Proof.
  intros H Hno EB. pose proof (generate_proof_helper GetForm perform OnFinish fuel p H) as HG. unfold with_B in HG. rewrite EB in HG.
  destruct HG as [(z & _ & E)|[_ E]]; [|exact E]. unfold GenerateProof in E |- *. rewrite EB in E |- *. cbn [bind] in E |- *.
  destruct (root _ 4) as [L|e]; cbn [bind] in E |- *; [|discriminate]. destruct (identity _) as [id|e]; [|destruct (caught e); [reflexivity|discriminate]].
  destruct (loop_limit _ _ _) as [limit|e]; cbn [bind] in E |- *; [|discriminate].
  destruct (proof_loop _ _ _ O) as [[[z2 n2]|]|e] eqn:Er; cbn [bind] in E |- *; [exfalso|reflexivity|discriminate].
  pose proof (task_k _ _ _ _ _ _ _ H). pose proof (task_l _ _ _ _ _ _ _ H).
  match type of Er with proof_loop ?J ?hi ?lo O = _ => assert (Hn : never (proof_loop J hi lo)) end.
  - clear E Er EB H. apply proof_loop_never.
    + exact Hno.
    + change (0 <= pk p). lia.
    + change (0 < pl p). lia.
  - exact (Hn _ _ _ Er).
Qed.

(** The wait ends at the first read [n] that stops it or finds the count. *)
Lemma wait_iterations_until E target n fuel : (forall t, (t < n)%nat -> stop_at E t = false /\ 0 <= published_at E t < target) -> target <= 2 ^ 63 ->
  stop_at E n = true \/ target <= published_at E n < 2 ^ 63 -> 0 <= target ->
  forall t, (t <= n)%nat -> (n <= t + fuel)%nat -> wait_iterations fuel E target t = Ok n.
Proof.
  intros Hlt H63 Hend H0. induction fuel as [|fuel IH]; intros t Ht Hf; cbn [wait_iterations].
  all: destruct (Nat.eq_dec t n) as [->|Hne].
  1, 3: destruct Hend as [->|Hp]; [reflexivity|]; rewrite u64_id by lia; destruct (Z.ltb_spec (published_at E n) target); [lia|]; now rewrite Bool.andb_false_r.
  - lia.
  - destruct (Hlt t ltac:(lia)) as [-> Hp]. rewrite u64_id by lia. destruct (Z.ltb_spec (published_at E t) target); [|lia].
    cbn [negb andb]. apply IH; lia.
Qed.

Lemma one_stopped_runs `{GL : GmpLaws} `{RL : FormReducerLaws} D x T l k AP c n E r fuel : good_disc D -> class D x -> 1 <= T < 2 ^ 63 ->
  (if 2 ^ 16 <=? T then AP T else Ok (1, 10)) = Ok (l, k) -> 1 <= k <= 30 -> 1 <= l -> k * l < 2 ^ 31 ->
  one_I D x T (k * l) (T / (k * l) + 100) c n -> T <= n ->
  (forall t, stop_at E t = (S (S r) <=? t)%nat) -> (forall t, (t < r)%nat -> 0 <= published_at E t < T) -> T <= published_at E r < 2 ^ 63 ->
  with_B (GetB fuel D x (o_result c)) (ProveOneWesolowski AP r fuel E T D x c) (fun _ _ _ =>
    forall wait_fuel, (r <= wait_fuel)%nat -> ProveOneWesolowski AP wait_fuel fuel E T D x c = Throw out_of_fuel).
Proof.
  intros HD Cx HT HAP Hk Hl Hkl HC Hn HS Hp Hr. unfold with_B.
  assert (HW : forall wf, (r <= wf)%nat -> wait_iterations wf E T O = Ok r).
  { intros wf Hwf. apply wait_iterations_until; try lia. intros t Ht. rewrite HS. split; [apply Nat.leb_gt; lia|now apply Hp]. }
  pose proof (one_proof_task D HD x Cx T l k HT Hk Hl Hkl c n HC Hn) as HTask.
  set (p := Prover_make (Segment_make 0 T x (o_result c)) D k l) in *. set (perform := fun m : nat => negb (stop_at E (S (S r) + m))).
  assert (Hno : forall m, perform m = false) by (intros m; unfold perform; rewrite HS; apply Bool.negb_false_iff, Nat.leb_le; lia).
  assert (Hs1 : stop_at E (S r) = false) by (rewrite HS; apply Nat.leb_gt; lia).
  assert (HE : forall wf, (r <= wf)%nat -> ProveOneWesolowski AP wf fuel E T D x c =
    (p <- GenerateProof (One_GetForm (o_forms c) (o_capacity c)) perform set_finished fuel p ;;
     _ <- wait_finished wf p ;; d_bits <- num_bits D ;; ' (y_serialized, _) <- SerializeForm (o_result c) d_bits ;;
     ' (proof_serialized, _) <- SerializeForm (GetProof p) d_bits ;; Ok (mkProof y_serialized proof_serialized 0))).
  { intros wf Hwf. unfold ProveOneWesolowski. rewrite HW by exact Hwf. cbn [bind]. rewrite Hs1, (one_prover D x T l k AP HAP c). reflexivity. }
  destruct (GetB fuel D x (o_result c)) as [[[B x'] y']|e] eqn:EB.
  - intros wf Hwf. rewrite HE by exact Hwf.
    rewrite (GenerateProof_stopped (One_GetForm (o_forms c) (o_capacity c)) perform set_finished fuel p B x' y' HTask Hno EB).
    cbn [bind]. rewrite wait_finished_never by reflexivity. reflexivity.
  - rewrite HE by lia. unfold GenerateProof. change (pD p) with D. change (seg_x (segm p)) with x. change (seg_y (segm p)) with (o_result c).
    rewrite EB. reflexivity.
Qed.

(** ** The theorems on 1-Wesolowski proofs *)

(** C6: the whole 1-Wesolowski computation, from the input
    form to bytes the verifier accepts. For a prime discriminant and any number
    [T] of iterations, the callback is built, the main loop run for [T]
    iterations ends with it filled (whichever squaring pipeline satisfies the
    interface), and [ProveOneWesolowski], waiting until the published count
    reaches [T], returns (as soon as [GetB] does) the serialized [x^(2^T)] and
    its serialized proof: the bytes read back as those two forms, and
    [CheckProofOfTimeNWesolowski] accepts them for every challenge that reads as the input. *)
Theorem one_weso_end_to_end {G : Gmp} {GL : GmpLaws G} {R : FormReducer} {RL : FormReducerLaws R} D x T l k AP garbage
  {Sq : Squarer OneWesolowskiCallback} {SL : SquarerLaws Sq D x (one_I D x T (k * l) (T / (k * l) + 100)) (fun _ => 2 ^ 63 - 1)}
  turns stopped fuel :
  good_disc D -> Z.prime (- D) -> class D x -> fa x < - D -> 1 <= T < 2 ^ 62 ->
  (if 2 ^ 16 <=? T then AP T else Ok (1, 10)) = Ok (l, k) -> 1 <= k <= 30 -> 1 <= l -> k * l < 2 ^ 31 ->
  T < Z.of_nat turns -> (forall t, stopped t = false) ->
  exists c0 s, OneWesolowskiCallback_make AP garbage x T = Ok c0 /\ repeated_square turns stopped one_config T x c0 = Ok s /\
    let y := o_result (ls_weso s) in pw D x (2 ^ T) y /\
    forall E wait_fuel, undisturbed E -> (forall t, (wait_fuel <= t)%nat -> published_at E t = ls_published s) ->
    with_B (GetB fuel D x y) (ProveOneWesolowski AP wait_fuel fuel E T D x (ls_weso s)) (fun B x' y' =>
      exists ys ps proof, ProveOneWesolowski AP wait_fuel fuel E T D x (ls_weso s) = Ok (mkProof ys ps 0) /\
        SerializeForm y (bitlen D) = Ok (ys, y') /\ DeserializeForm D ys 100 false = Ok y' /\
        DeserializeForm D ps 100 false = Ok proof /\ pw D x (2 ^ T / B) proof /\ length ys = 100%nat /\ length ps = 100%nat /\
        forall x_s size, length x_s = 100%nat -> DeserializeForm D x_s 100 false = Ok x' -> 0 < size <= 1024 ->
        CheckProofOfTimeNWesolowski fuel D (Some x_s) (Some (ys ++ ps)) 200 T size 0 = Ok true).
Proof.
  intros HD HPr Cx Hx HT HAP Hk Hl Hkl Hturns Hst. destruct (disc_identity D HD) as (e & _ & He).
  destruct (one_init D x Cx AP garbage T l k e He ltac:(lia) HAP ltac:(nia)) as (c0 & Ec & HI0 & Ek & Ecap). exists c0.
  assert (HI : one_I D x T (k * l) (T / (k * l) + 100) c0 0) by (split; [exact HI0|split; [lia|split; assumption]]).
  pose proof (One_laws D x Cx T (k * l) (T / (k * l) + 100) ltac:(lia)) as LL.
  destruct (repeated_square_runs D x Cx HPr (one_I D x T (k * l) (T / (k * l) + 100)) (fun _ => 2 ^ 63 - 1) one_config e c0 T turns stopped
    eq_refl ltac:(discriminate) He Hx HI ltac:(lia) ltac:(cbv beta; lia) Hturns) as (s & m & E & [HA _ _ _] & _ & Hn & Hend).
  destruct (Hend Hst) as [Hgt Hpub]. exists s. split; [exact Ec|]. split; [exact E|].
  pose proof (at_callback _ _ _ _ _ _ HA) as HC. split; [exact (one_result_ok D x T l k (ls_weso s) (ls_num s) HC ltac:(lia))|].
  intros En wf HU Hp. apply (prove_one_runs D HD x Cx T l k AP ltac:(lia) HAP Hk Hl Hkl (ls_weso s) (ls_num s) HC ltac:(lia)); [exact HU|].
  intros t Ht. rewrite Hp by exact Ht. lia.
Qed.

(** C39: stopping a 1-Wesolowski proof. A stop request
    seen while [ProveOneWesolowski] waits for the iterations (the count is below
    [T] up to it) gives the empty proof. A request that arrives after the wait,
    before the prover's first [PerformExtraStep], makes [GenerateProof] return
    without a proof and without setting [is_finished]; the loop
    [while (!prover.IsFinished())] that follows then never ends, whatever the
    fuel: the call does not return. *)
Theorem prove_one_weso_stopped {G : Gmp} {GL : GmpLaws G} {R : FormReducer} {RL : FormReducerLaws R} D x T l k AP c n E r fuel :
  good_disc D -> class D x -> 1 <= T < 2 ^ 63 ->
  (if 2 ^ 16 <=? T then AP T else Ok (1, 10)) = Ok (l, k) -> 1 <= k <= 30 -> 1 <= l -> k * l < 2 ^ 31 ->
  one_I D x T (k * l) (T / (k * l) + 100) c n -> T <= n -> (forall t, (t < r)%nat -> 0 <= published_at E t < T) ->
  ((forall t, stop_at E t = (r <=? t)%nat) -> forall wait_fuel, (r <= wait_fuel)%nat ->
     ProveOneWesolowski AP wait_fuel fuel E T D x c = Ok (empty_proof E)) /\
  ((forall t, stop_at E t = (S (S r) <=? t)%nat) -> T <= published_at E r < 2 ^ 63 ->
     with_B (GetB fuel D x (o_result c)) (ProveOneWesolowski AP r fuel E T D x c) (fun _ _ _ =>
       forall wait_fuel, (r <= wait_fuel)%nat -> ProveOneWesolowski AP wait_fuel fuel E T D x c = Throw out_of_fuel)).
Proof.
  intros HD Cx HT HAP Hk Hl Hkl HC Hn Hp. split.
  - intros HS wf Hwf. unfold ProveOneWesolowski. rewrite (wait_iterations_until E T r wf); try lia.
    + cbn [bind]. rewrite HS. now rewrite (proj2 (Nat.leb_le r (S r)) ltac:(lia)).
    + intros t Ht. rewrite HS. split; [apply Nat.leb_gt; lia|now apply Hp].
    + left. rewrite HS. apply Nat.leb_le. lia.
  - intros HS Hr. exact (one_stopped_runs D x T l k AP c n E r fuel HD Cx HT HAP Hk Hl Hkl HC Hn HS Hp Hr).
Qed.

Lemma segments_blob_length `{G : Gmp} fuel D x segs U y : honest fuel D x segs U y -> length (segments_blob segs) = (141 * length segs)%nat.
Proof.
  induction 1 as [|x x' x1 proof B s T U segs y HT Hs _ _ _ _ _ _ IH]; [reflexivity|]. unfold segments_blob in *. cbn [rev].
  rewrite flat_map_app, length_app, IH. cbn [flat_map]. rewrite app_nil_r, segment_bytes_length by exact Hs. cbn [length]. lia.
Qed.

(** ** ProveTwoWeso *)

(** The result satisfies [P], or [GetB] has thrown. *)
Definition or_GetB {A} `{G : Gmp} (fuel : nat) (D : Z) (m : res A) (P : A -> Prop) : Prop :=
  match m with
  | Ok a => P a
  | Throw e => exists x y, class D x /\ class D y /\ GetB fuel D x y = Throw e
  end.

Lemma or_GetB_impl {A} `{G : Gmp} fuel D (m : res A) (P Q : A -> Prop) : or_GetB fuel D m P -> (forall a, P a -> Q a) -> or_GetB fuel D m Q.
Proof. destruct m; cbn [or_GetB]; auto. Qed.

Lemma or_GetB_result {A} `{G : Gmp} fuel D (m : res A) (P : A -> Prop) : or_GetB fuel D m P -> or_GetB fuel D m (fun a => m = Ok a /\ P a).
Proof. destruct m; cbn [or_GetB]; auto. Qed.

Lemma or_GetB_bind {A B} `{G : Gmp} fuel D (m : res A) (f : A -> res B) P Q : or_GetB fuel D m P -> (forall a, P a -> or_GetB fuel D (f a) Q) ->
  or_GetB fuel D (bind m f) Q.
Proof. destruct m as [a|e]; cbn [bind or_GetB]; [intros H Hf; now apply Hf|easy]. Qed.

Lemma to_bytes_33 `{GL : GmpLaws} B : 2 ^ 263 <= B < 2 ^ 264 -> to_bytes B = be_split 33 B.
Proof.
  intros HB. assert (H263 : 0 < 2 ^ 263) by reflexivity. assert (EL : bitlen B = 264).
  { unfold bitlen. destruct (Z.eqb_spec B 0); [lia|]. rewrite Z.abs_eq by lia. rewrite (Z.log2_unique B 263); [reflexivity|lia|]. exact HB. }
  unfold to_bytes. rewrite mpz_sizeinbase2_spec, mpz_export_msb_spec, EL. unfold bytelen. destruct (Z.eqb_spec B 0); [lia|].
  rewrite EL, Z.abs_eq, be_split_length by lia. change (Z.to_nat ((264 + 7) / 8)) with 33%nat. cbn [Nat.sub repeat]. apply app_nil_r.
Qed.

Section Two.
Context `{GL : GmpLaws} {R : FormReducer} {RL : FormReducerLaws R}.
Variable D : Z.
Hypothesis HD : good_disc D.
Hypothesis HPr : Z.prime (- D).
Variable x0 : form.
Hypothesis Cx0 : class D x0.
Variable E : two_env.
Variable sw : option Z.
Variable n : Z.
Hypothesis Hn : 0 <= n < 2 ^ 32.
Hypothesis Hsw : match sw with Some s => 91000000 <= s /\ s mod 100 = 0 | None => True end.
Hypothesis HS : forall depth p, 0 <= p <= n -> on_grid sw p -> exists g, copy_at E depth p = Ok g /\ pw D x0 (2 ^ p) g /\ fa g < - D.
Hypothesis HU : undisturbed (base_env E).
Hypothesis HPerf : forall depth c, perform_at E depth c = true.
Variables wait_fuel fuel : nat.
Hypothesis HR : reaches_count (base_env E) n wait_fuel.
Hypothesis HF : forall depth, (finish_at E depth <= wait_fuel)%nat.

Lemma wait_ok target t : 0 <= target <= n -> exists t', wait_iterations wait_fuel (base_env E) target t = Ok t' /\ (t <= t')%nat.
Proof.
  intros Ht. apply (wait_iterations_ok (base_env E) target wait_fuel wait_fuel HU); [|lia|lia].
  intros m Hm. specialize (HR m Hm). lia.
Qed.

Lemma wait_prover_ok depth p t : is_finished p = true -> exists t', wait_prover wait_fuel E depth p t = Ok t'.
Proof.
  intros Hp. assert (H : forall f t, (wait_fuel <= t + f)%nat -> exists t', wait_prover f E depth p t = Ok t'); [|apply H; lia].
  clear t. induction f as [|f IH]; intros t Ht; cbn [wait_prover]; rewrite HU; unfold IsFinished; rewrite Hp; cbn [negb andb].
  - specialize (HF depth). rewrite (proj2 (Nat.leb_le (finish_at E depth) t)) by lia. now exists t.
  - destruct (_ <=? _)%nat; [now exists t|]. apply IH. lia.
Qed.

(** The rounding up of the output, without a callback. *)
Lemma original_loop_none m : forall i base alias a f, 0 <= a -> pw D x0 (2 ^ a) f -> fa f < - D ->
  exists g, original_loop (L := One_listener) m i base alias f None = Ok (g, None) /\ pw D x0 (2 ^ (a + Z.of_nat m)) g.
Proof.
  induction m as [|m IH]; intros i base alias a f Ha P Hs; cbn [original_loop]; [exists f; now rewrite Z.add_0_r|].
  destruct (original_square D x0 Cx0 HPr a f alias Ha P Hs) as (g & -> & Pg & Hg). cbn [bind notify].
  destruct (IH (i + 1) base true (a + 1) g ltac:(lia) Pg Hg) as (h & Eh & Ph). exists h. split; [exact Eh|].
  now replace (a + Z.of_nat (S m)) with (a + 1 + Z.of_nat m) by lia.
Qed.

(** One prover: the segment of [len] iterations from [done]. *)
Lemma two_prover_ok depth done len x y : 0 <= done -> done mod 100 = 0 -> 0 <= len -> done + len <= n ->
  (10000000 <= len \/ n <= 91000000) -> pw D x0 (2 ^ done) x -> class D y ->
  let p := TwoWesolowskiProver (Segment_make done len x y) D in
  or_GetB fuel D (GenerateProof (Two_GetForm (copy_at E depth) p) (perform_at E depth) set_finished fuel p) (fun p' =>
    is_finished p' = true /\ exists B x' y', GetB fuel D x y = Ok (B, x', y') /\ pw D x (2 ^ len / B) (GetProof p')).
Proof.
  intros Hd H100 Hl Hle Hgrid Px Cy p. pose proof (start_class D x0 Cx0 done x Px) as Cx.
  assert (HS' : serves D x0 (copy_at E depth) sw n).
  { intros q Hq Gq. destruct (HS depth q Hq Gq) as (g & Eg & Pg & _). now exists g. }
  assert (HT : proof_task D x y len (pk p) (pl p) (Two_GetForm (copy_at E depth) p)).
  { apply (two_task D HD x0 Cx0 (copy_at E depth) sw n (Segment_make done len x y) HS' eq_refl Hd H100 Hl Hle); try assumption; [lia| |].
    - cbn [length_ start Segment_make]. destruct sw as [s|]; [|now right]. destruct Hgrid; [now left|right; lia].
    - destruct sw as [s|]; [apply Hsw|exact Logic.I]. }
  pose proof (generate_proof_helper (Two_GetForm (copy_at E depth) p) (perform_at E depth) set_finished fuel p HT) as HG.
  unfold with_B in HG. change (pD p) with D in HG. change (seg_x (segm p)) with x in HG. change (seg_y (segm p)) with y in HG.
  change (num_iterations p) with len in HG. unfold or_GetB. destruct (GetB fuel D x y) as [[[B x'] y']|ex] eqn:EB.
  - destruct HG as [(z & Pz & ->)|([m Hm] & _)]; [|rewrite HPerf in Hm; discriminate]. split; [reflexivity|].
    exists B, x', y'. split; [reflexivity|exact Pz].
  - rewrite HG. exists x, y. split; [exact Cx|]. split; [exact Cy|exact EB].
Qed.

(** The output [y] and its proof satisfy the equation, read from any form equivalent to [x]. *)
Definition final_ok (x : form) (T : Z) (y proof : form) : Prop :=
  power D x (Z.to_nat (2 ^ T)) y /\ exists B x', GetB fuel D x y = Ok (B, x', y) /\ power D x (Z.to_nat (2 ^ T / B)) proof.

Lemma final_from_GetB x T y B x' y' z x_v z' : class D x -> pw D x (2 ^ T) y -> GetB fuel D x y = Ok (B, x', y') -> pw D x (2 ^ T / B) z ->
  equiv x x_v -> equiv z z' -> final_ok x_v T y' z'.
Proof.
  intros Cx Py EB Pz Qv Qz. pose proof (pw_class D x Cx _ _ Py) as Cy. destruct (GetB_ok fuel D x y B x' y' HD Cx Cy EB) as (_ & _ & _ & _ & Qx & Qy & _).
  assert (Cv : class D x_v) by now rewrite <- Qv. split.
  - apply (power_equiv_base D x _ _ _ Qv). now apply (pw_equiv D x _ y).
  - exists B, x'. split; [now rewrite <- (GetB_equiv fuel D x y x_v y')|]. apply (power_equiv_base D x _ _ _ Qv). now apply (pw_equiv D x _ z).
Qed.

Lemma serialize_bits f : class D f -> exists s g, SerializeForm f (bitlen D) = Ok (s, g) /\ Forms.reduce f = Ok g /\ equiv f g /\ length s = 100%nat /\ DeserializeForm D s 100 false = Ok g.
Proof. intros Cf. destruct (SerializeForm_ok D f HD Cf) as (s & g & Es & Er & _ & Q & _ & Ls & _). exists s, g. pose proof (SerializeForm_reads D f s g HD Cf Es false). now repeat (split; [assumption|]). Qed.

Lemma prove_last_ok x iters done t : 0 <= done -> done mod 100 = 0 -> 0 <= iters -> done + iters = n ->
  (10000000 <= iters \/ n <= 91000000) -> pw D x0 (2 ^ done) x ->
  or_GetB fuel D (prove_last wait_fuel fuel E D x iters done t) (fun '(pr, _) => exists ys ps y proof,
    pr_y pr = ys /\ pr_proof pr = ps /\ length ys = 100%nat /\ length ps = 100%nat /\
    DeserializeForm D ys 100 false = Ok y /\ DeserializeForm D ps 100 false = Ok proof /\ pw D x0 (2 ^ n) y /\
    forall x_v, equiv x x_v -> final_ok x_v iters y proof).
Proof.
  intros Hd H100 Hi HT Hgrid Px. pose proof (start_class D x0 Cx0 done x Px) as Cx. unfold prove_last. rewrite HT, (u64_id n) by lia.
  destruct (wait_ok n t ltac:(lia)) as (t' & -> & _). cbn [bind]. rewrite HU. rewrite Z.rem_mod_nonneg, u64_id by (try lia; Z.div_mod_to_equations; lia).
  assert (Hcp : 0 <= n - n mod 100 <= n /\ on_grid sw (n - n mod 100)).
  { split; [Z.div_mod_to_equations; lia|]. destruct sw as [s|]; cbn [on_grid]; [destruct (_ <? _)|]; Z.div_mod_to_equations; lia. }
  destruct (HS 2 (n - n mod 100) (proj1 Hcp) (proj2 Hcp)) as (y0 & -> & Py0 & Hy0). cbn [bind].
  unfold repeated_square_original. destruct (original_loop_none (Z.to_nat (n mod 100)) 0 0 false (n - n mod 100) y0 (proj1 (proj1 Hcp)) Py0 Hy0) as (y & -> & Py).
  cbn [bind]. rewrite Z2Nat.id in Py by (Z.div_mod_to_equations; lia). replace (n - n mod 100 + n mod 100) with n in Py by lia.
  assert (Pxy : pw D x (2 ^ iters) y) by (apply (stored_power D x0 Cx0 done); try assumption; now rewrite HT).
  pose proof (pw_class D x0 Cx0 _ _ Py) as Cy.
  eapply or_GetB_bind; [apply (two_prover_ok 2 done iters x y Hd H100 Hi ltac:(lia) Hgrid Px Cy)|].
  intros p' (_ & B & x' & y' & EB & Pz). rewrite HU, num_bits_disc by exact HD. cbn [bind].
  destruct (GetB_ok fuel D x y B x' y' HD Cx Cy EB) as (_ & Ey & _).
  destruct (serialize_bits y Cy) as (ys & y2 & -> & Ey2 & Qy & Lys & Dy). rewrite Ey in Ey2. injection Ey2 as <-. cbn [bind].
  destruct (serialize_bits (GetProof p') (pw_class D x Cx _ _ Pz)) as (ps & z & -> & _ & Qz & Lps & Dz). cbn [bind or_GetB].
  exists ys, ps, y', z. pose proof (pw_equiv D x0 _ _ _ Py Qy) as Py'. do 2 (split; [reflexivity|]). do 5 (split; [assumption|]).
  intros x_v Qv. exact (final_from_GetB x iters y B x' y' (GetProof p') x_v z Cx Pxy EB Pz Qv Qz).
Qed.

(** The proof of [levels] segments and the output. *)
Definition two_ok (levels : nat) (x : form) (iters : Z) (pr : Proof_t) : Prop := exists segs ps y proof,
  pr_proof pr = ps ++ segments_blob segs /\ length segs = levels /\ length (pr_y pr) = 100%nat /\ length ps = 100%nat /\
  DeserializeForm D (pr_y pr) 100 false = Ok y /\ DeserializeForm D ps 100 false = Ok proof /\ pw D x0 (2 ^ n) y /\
  forall x_v, equiv x x_v -> exists U xm T, 0 <= T /\ U + T = iters /\ honest fuel D x_v segs U xm /\ final_ok xm T y proof.

Lemma split_bounds iters : 0 <= iters < 2 ^ 32 -> exists it1, u64 (Z.quot (u64 (iters * 2)) 3 - Z.rem (Z.quot (u64 (iters * 2)) 3) 100) = it1 /\
  0 <= it1 <= iters /\ it1 mod 100 = 0 /\ iters * 2 - 300 <= it1 * 3 <= iters * 2.
Proof.
  intros Hi. rewrite (u64_id (iters * 2)) by lia. rewrite Z.quot_div_nonneg, Z.rem_mod_nonneg by (try lia; Z.div_mod_to_equations; lia).
  rewrite u64_id by (Z.div_mod_to_equations; lia). eexists. split; [reflexivity|]. Z.div_mod_to_equations; lia.
Qed.

(** The segments are long enough for the stride 10 of the prover beyond the switch. *)
Definition long_enough (levels : nat) (iters : Z) : Prop := n <= 91000000 \/ 91000000 < iters * 3 ^ (2 - Z.of_nat levels).

Lemma ProveTwoWeso_ok levels : (levels <= 2)%nat -> forall x iters done t, 0 <= done -> done mod 100 = 0 -> 0 <= iters -> done + iters = n ->
  long_enough levels iters -> pw D x0 (2 ^ done) x ->
  or_GetB fuel D (ProveTwoWeso levels wait_fuel fuel E D x iters done t) (fun '(pr, _) =>
    two_ok levels x iters pr /\ (levels = 2%nat -> witness_type pr = 2)).
Proof.
  destruct (root_ok D HD) as (L & EL & _). induction levels as [|levels IH]; intros Hlv x iters done t Hd H100 Hi HT Hlong Px; cbn [ProveTwoWeso]; rewrite EL; cbn [bind].
  - pose proof (prove_last_ok x iters done t Hd H100 Hi HT ltac:(destruct Hlong as [|Hlong]; [now right|left; change (3 ^ (2 - Z.of_nat 0)) with 9 in Hlong; lia]) Px) as H.
    unfold or_GetB in *. destruct (prove_last _ _ _ _ _ _ _ _) as [[pr t']|ex]; [|exact H]. destruct H as (ys & ps & y & proof & Ey & Ep & Ly & Lp & Dy & Dp & Py & H).
    split; [|discriminate]. exists [], ps, y, proof. rewrite Ep, Ey. cbn [segments_blob rev flat_map]. rewrite app_nil_r. do 2 (split; [reflexivity|]). do 5 (split; [assumption|]).
    intros x_v Qv. exists 0, x_v, iters. split; [exact Hi|]. split; [reflexivity|]. split; [apply honest_nil|now apply H].
  - set (depth := (2 - S levels)%nat). destruct (split_bounds iters ltac:(lia)) as (it1 & E1 & H1 & Hm1 & Hb1). rewrite E1. clear E1.
    rewrite (u64_id (iters - it1)), (u64_id (done + it1)) by lia.
    destruct (wait_ok (done + it1) t ltac:(lia)) as (t' & -> & _). cbn [bind]. rewrite HU.
    assert (Gs : on_grid sw (done + it1)) by (destruct sw as [s|]; cbn [on_grid]; [destruct (_ <? _)|]; Z.div_mod_to_equations; lia).
    destruct (HS depth (done + it1) ltac:(lia) Gs) as (y1 & -> & Py1 & _). cbn [bind].
    pose proof (pw_class D x0 Cx0 _ _ Py1) as Cy1. pose proof (start_class D x0 Cx0 done x Px) as Cx.
    assert (Hl1 : 10000000 <= it1 \/ n <= 91000000).
    { destruct Hlong as [|Hlong]; [now right|left]. assert (Hlv1 : levels = 0%nat \/ levels = 1%nat) by lia. clear - Hlong Hb1 Hlv1.
      destruct Hlv1 as [-> | ->]; [change (3 ^ (2 - Z.of_nat 1)) with 3 in Hlong|change (3 ^ (2 - Z.of_nat 2)) with 1 in Hlong]; lia. }
    assert (Hl2 : long_enough levels (iters - it1)).
    { destruct Hlong as [|Hlong]; [now left|right]. assert (Hlv1 : levels = 0%nat \/ levels = 1%nat) by lia. clear - Hlong Hb1 Hlv1.
      destruct Hlv1 as [-> | ->]; [change (3 ^ (2 - Z.of_nat 1)) with 3 in Hlong; change (3 ^ (2 - Z.of_nat 0)) with 9
        |change (3 ^ (2 - Z.of_nat 2)) with 1 in Hlong; change (3 ^ (2 - Z.of_nat 1)) with 3]; lia. }
    eapply or_GetB_bind; [apply (two_prover_ok depth done it1 x y1 Hd H100 ltac:(lia) ltac:(lia) Hl1 Px Cy1)|].
    intros p' (Hfin & B & x' & y1' & EB & Pz).
    eapply or_GetB_bind; [apply (IH ltac:(lia) y1 (iters - it1) (done + it1) (S (S t')) ltac:(lia) ltac:(Z.div_mod_to_equations; lia) ltac:(lia) ltac:(lia) Hl2 Py1)|].
    intros [pr2 t2] [(segs & ps & y & proof & Ep & Lsegs & Ly & Lp & Dy & Dp & Py & Hrest) _].
    destruct (wait_prover_ok depth p' (S t2) Hfin) as (t3 & ->). cbn [bind]. rewrite HU, num_bits_disc, EB by exact HD. cbn [bind].
    destruct (serialize_bits (GetProof p') (pw_class D x Cx _ _ Pz)) as (s & z & -> & _ & Qz & Ls & Hz). cbn [bind or_GetB].
    destruct (GetB_ok fuel D x y1 B x' y1' HD Cx Cy1 EB) as (_ & _ & _ & Ry1 & _ & Qy1 & HB & _). rewrite (to_bytes_33 B HB).
    assert (Pxy : pw D x (2 ^ it1) y1) by (apply (stored_power D x0 Cx0 done); try assumption; lia).
    split; [|intros El; subst depth; rewrite El; reflexivity].
    exists ((it1, B, s) :: segs), ps, y, proof. cbn [pr_proof pr_y length].
    split; [rewrite Ep; unfold segments_blob; cbn [rev]; rewrite flat_map_app; cbn [flat_map segment_bytes]; unfold segment_bytes; now rewrite app_nil_r, <- !app_assoc|].
    split; [now rewrite Lsegs|]. do 5 (split; [assumption|]). intros x_v Qv.
    destruct (Hrest y1' Qy1) as (U & xm & T & HT0 & HUT & Hh & Hfinal). exists (it1 + U), xm, T. split; [exact HT0|]. split; [lia|]. split; [|exact Hfinal].
    destruct (final_from_GetB x it1 y1 B x' y1' (GetProof p') x_v z Cx Pxy EB Pz Qv Qz) as (Pv & B2 & x2 & EB2 & Pz2).
    assert (Cv : class D x_v) by now rewrite <- Qv.
    assert (B2 = B) as ->. { rewrite <- (GetB_equiv fuel D x y1 x_v y1' HD Cx Cy1 Qv Qy1), EB in EB2. now injection EB2. }
    apply (honest_cons fuel D x_v x2 y1' z B s it1 U segs xm); try assumption; lia.
Qed.

End Two.

(** C7: the proofs of the 2-Wesolowski service are
    accepted. Let [GetFormCopy] serve the grid of the checkpoints up to
    [iters] for a switch of the constants at or after 91,000,000, the count
    reach [iters], and nobody stop the computation. Then [ProveTwoWeso]
    at depth 0 returns (unless a [GetB] throws): two segments of about
    two thirds of what is left and the output, of witness type 2. The output's
    bytes read back as a form of [x^(2^iters)], the last proof's as a form, and
    [CheckProofOfTimeNWesolowski] accepts the whole for [iters] iterations and depth 2,
    for every challenge that reads as a form equivalent to [x]. In particular every form the three provers
    read is on the grid: a segment beyond the switch has at least 10,000,000
    iterations, for which the prover's stride is 100. *)
Theorem two_weso_proof_accepted {G : Gmp} {GL : GmpLaws G} {R : FormReducer} {RL : FormReducerLaws R} D x E sw iters wait_fuel fuel :
  good_disc D -> Z.prime (- D) -> class D x -> 0 <= iters < 2 ^ 32 ->
  match sw with Some s => 91000000 <= s /\ s mod 100 = 0 | None => True end ->
  (forall depth p, 0 <= p <= iters -> on_grid sw p -> exists g, copy_at E depth p = Ok g /\ pw D x (2 ^ p) g /\ fa g < - D) ->
  undisturbed (base_env E) -> (forall depth c, perform_at E depth c = true) ->
  reaches_count (base_env E) iters wait_fuel -> (forall depth, (finish_at E depth <= wait_fuel)%nat) ->
  or_GetB fuel D (ProveTwoWeso 2 wait_fuel fuel E D x iters 0 O) (fun '(pr, _) => witness_type pr = 2 /\
    exists segs ps y proof, pr_proof pr = ps ++ segments_blob segs /\ length segs = 2%nat /\ length (pr_y pr) = 100%nat /\ length ps = 100%nat /\
    DeserializeForm D (pr_y pr) 100 false = Ok y /\ pw D x (2 ^ iters) y /\ DeserializeForm D ps 100 false = Ok proof /\
    forall x_s x_v size, length x_s = 100%nat -> DeserializeForm D x_s 100 false = Ok x_v -> equiv x x_v -> 0 < size <= 1024 ->
      CheckProofOfTimeNWesolowski fuel D (Some x_s) (Some (pr_y pr ++ pr_proof pr)) 482 iters size 2 = Ok true).
Proof.
  intros HD HPr Cx Hi Hsw HS HU HP HR HF. destruct (disc_identity D HD) as (e & _ & He).
  assert (Px : pw D x (2 ^ 0) x) by (change (2 ^ 0) with 1; now apply (pw_1 D x Cx e)).
  assert (Hlong : long_enough iters 2 iters) by (unfold long_enough; change (3 ^ (2 - Z.of_nat 2)) with 1; lia).
  pose proof (ProveTwoWeso_ok D HD HPr x Cx E sw iters Hi Hsw HS HU HP wait_fuel fuel HR HF 2 (le_n 2) x iters 0 O ltac:(lia) eq_refl ltac:(lia) ltac:(lia) Hlong Px) as H.
  unfold or_GetB in *. destruct (ProveTwoWeso _ _ _ _ _ _ _ _ _) as [[pr t]|ex]; [|exact H]. destruct H as [(segs & ps & y & proof & Ep & Lsegs & Ly & Lp & Ey & Eproof & Pn & H) Hw].
  split; [now apply Hw|]. exists segs, ps, y, proof. do 7 (split; [assumption|]). intros x_s x_v size Lx Ex Qv Hsz.
  destruct (H x_v Qv) as (U & xm & T & HT & HUT & Hh & Py & B & x' & EB & Pz). rewrite Ep. assert (Cv : class D x_v) by now rewrite <- Qv.
  destruct (honest_class D fuel x_v segs U xm Hh Cv) as [_ HU0].
  pose proof (check_accepts fuel D x_s x_v segs U xm T y (pr_y pr) proof ps size HD Hsz Lx Ex Hh HT ltac:(lia) Ly Ey Py Lp Eproof) as HC.
  cbv zeta in HC. rewrite EB in HC. rewrite Lsegs, HUT in HC.
  assert (Len : Z.of_nat (length (pr_y pr ++ ps ++ segments_blob segs)) = 482).
  { rewrite !length_app, (segments_blob_length fuel D x_v segs U xm Hh), Ly, Lp, Lsegs. reflexivity. }
  rewrite Len in HC. apply HC; [|reflexivity]. intros B0 x1 y1 [= <- <- <-]. exact Pz.
Qed.

(** ** Witnesses *)

Lemma one_weso_end_to_end_witness :
  let D := -47 in let x := mkform 2 1 6 in let AP := fun _ : Z => Throw overflow_error in
  exists c0 s, OneWesolowskiCallback_make AP (fun _ => x) x 1 = Ok c0 /\
    repeated_square (G := Ref.gmp) (Sq := slow_squarer (G := Ref.gmp) (L := One_listener (R := vdf_new_reducer))) 2 (fun _ => false) one_config 1 x c0 = Ok s /\
    let y := o_result (ls_weso s) in pw D x (2 ^ 1) y /\
    forall E wait_fuel, undisturbed E -> (forall t, (wait_fuel <= t)%nat -> published_at E t = ls_published s) ->
    with_B (GetB (G := Ref.gmp) 50 D x y) (ProveOneWesolowski (G := Ref.gmp) (R := vdf_new_reducer) AP wait_fuel 50 E 1 D x (ls_weso s)) (fun B x' y' =>
      exists ys ps proof, ProveOneWesolowski (G := Ref.gmp) (R := vdf_new_reducer) AP wait_fuel 50 E 1 D x (ls_weso s) = Ok (mkProof ys ps 0) /\
        SerializeForm (G := Ref.gmp) y (bitlen D) = Ok (ys, y') /\ DeserializeForm (G := Ref.gmp) D ys 100 false = Ok y' /\
        DeserializeForm (G := Ref.gmp) D ps 100 false = Ok proof /\ pw D x (2 ^ 1 / B) proof /\ length ys = 100%nat /\ length ps = 100%nat /\
        forall x_s size, length x_s = 100%nat -> DeserializeForm (G := Ref.gmp) D x_s 100 false = Ok x' -> 0 < size <= 1024 ->
        CheckProofOfTimeNWesolowski (G := Ref.gmp) (R := vdf_new_reducer) 50 D (Some x_s) (Some (ys ++ ps)) 200 1 size 0 = Ok true).
Proof.
  intros D x AP. pose proof (One_laws (RL := vdf_new_reducer_laws) D x class_form_47 1 (10 * 1) (1 / (10 * 1) + 100) ltac:(lia)) as LL.
  pose proof (slow_squarer_laws (GL := Ref.laws) D x class_form_47 prime_47 (one_I D x 1 (10 * 1) (1 / (10 * 1) + 100)) (fun _ => 2 ^ 63 - 1)) as SL.
  exact (one_weso_end_to_end (GL := Ref.laws) (RL := vdf_new_reducer_laws) (SL := SL) D x 1 1 10 AP (fun _ => x) 2 (fun _ => false) 50
    good_disc_47 prime_47 class_form_47 ltac:(reflexivity) ltac:(lia) eq_refl ltac:(lia) ltac:(lia) ltac:(lia) ltac:(lia) (fun _ => eq_refl)).
Defined.

(** The callback after one iteration. *)
Definition one_47_done : OneWesolowskiCallback := mkOne (set_at (fun _ => mkform 2 1 6) 0 (mkform 2 1 6)) 100 1 10 x2_47.

Lemma one_47_done_inv : one_I (-47) (mkform 2 1 6) 1 (10 * 1) (1 / (10 * 1) + 100) one_47_done 1.
Proof.
  split; [|split; [lia|split; reflexivity]]. split; cbn [one_47_done o_wanted_iter o_kl o_capacity o_forms o_result]; try reflexivity.
  - intros i Hi Hm. assert (i = 0) as -> by lia. rewrite set_at_eq. change (2 ^ (10 * 0)) with 1. exact (pw_1 (-47) _ class_form_47 _ principal_47).
  - intros _. apply pw_47; [lia|]. vm_compute. reflexivity.
Qed.

Lemma prove_one_weso_stopped_witness :
  let D := -47 in let x := mkform 2 1 6 in let AP := fun _ : Z => Throw overflow_error in
  let early := mkenv (fun t => (3 <=? t)%nat) (fun _ => 0) 7 in let late := mkenv (fun t => (2 <=? t)%nat) (fun _ => 1) 7 in
  let run E wait_fuel := ProveOneWesolowski (G := Ref.gmp) (R := vdf_new_reducer) AP wait_fuel 50 E 1 D x one_47_done in
  run early 3%nat = Ok (mkProof [] [] 7) /\
  with_B (GetB (G := Ref.gmp) 50 D x x2_47) (run late O) (fun _ _ _ => forall wait_fuel, (0 <= wait_fuel)%nat -> run late wait_fuel = Throw out_of_fuel).
Proof.
  intros D x AP early late run. split.
  - exact (proj1 (prove_one_weso_stopped (GL := Ref.laws) (RL := vdf_new_reducer_laws) D x 1 1 10 AP one_47_done 1 early 3 50
      good_disc_47 class_form_47 ltac:(lia) eq_refl ltac:(lia) ltac:(lia) ltac:(lia) one_47_done_inv ltac:(lia)
      (fun t _ => conj (Z.le_refl 0) Z.lt_0_1)) (fun t => eq_refl) 3%nat (le_n 3)).
  - exact (proj2 (prove_one_weso_stopped (GL := Ref.laws) (RL := vdf_new_reducer_laws) D x 1 1 10 AP one_47_done 1 late O 50
      good_disc_47 class_form_47 ltac:(lia) eq_refl ltac:(lia) ltac:(lia) ltac:(lia) one_47_done_inv ltac:(lia)
      (fun t Ht => match Nat.nlt_0_r t Ht with end)) (fun t => eq_refl) ltac:(cbn; lia)).
Defined.

(** No iterations: every checkpoint is the input itself. *)
Definition two_env_47 : two_env :=
  mktwo_env (mkenv (fun _ => false) (fun _ => 0) 7) (fun _ _ => true) (fun _ _ => Ok (mkform 2 1 6)) (fun _ => O).

Lemma two_env_47_serves : forall (depth : nat) p, 0 <= p <= 0 -> on_grid None p ->
  exists g, copy_at two_env_47 depth p = Ok g /\ pw (-47) (mkform 2 1 6) (2 ^ p) g /\ fa g < - -47.
Proof.
  intros depth p Hp _. replace p with 0 by lia. exists (mkform 2 1 6). split; [reflexivity|]. split; [|reflexivity].
  change (2 ^ 0) with 1. exact (pw_1 (-47) _ class_form_47 _ principal_47).
Qed.

Lemma two_weso_proof_accepted_witness :
  let D := -47 in let x := mkform 2 1 6 in let run := ProveTwoWeso (G := Ref.gmp) (R := vdf_new_reducer) 2 3 50 two_env_47 D x 0 0 O in
  or_GetB (G := Ref.gmp) 50 D run (fun '(pr, _) => witness_type pr = 2 /\
    exists segs ps y proof, pr_proof pr = ps ++ segments_blob segs /\ length segs = 2%nat /\ length (pr_y pr) = 100%nat /\ length ps = 100%nat /\
    DeserializeForm (G := Ref.gmp) D (pr_y pr) 100 false = Ok y /\ pw D x (2 ^ 0) y /\ DeserializeForm (G := Ref.gmp) D ps 100 false = Ok proof /\
    forall x_s x_v size, length x_s = 100%nat -> DeserializeForm (G := Ref.gmp) D x_s 100 false = Ok x_v -> equiv x x_v -> 0 < size <= 1024 ->
      CheckProofOfTimeNWesolowski (G := Ref.gmp) (R := vdf_new_reducer) 50 D (Some x_s) (Some (pr_y pr ++ pr_proof pr)) 482 0 size 2 = Ok true).
Proof.
  intros D x run. assert (HR : reaches_count (base_env two_env_47) 0 3) by (intros t _; cbn; lia).
  exact (two_weso_proof_accepted (GL := Ref.laws) (RL := vdf_new_reducer_laws) D x two_env_47 None 0 3 50 good_disc_47 prime_47 class_form_47 ltac:(lia)
    Logic.I two_env_47_serves (fun _ => eq_refl) (fun _ _ => eq_refl) HR (fun _ => Nat.le_0_l 3)).
Defined.
