(* ===== verification/Manager.v ===== *)
(** [src/src/vdf.h], third part: [ProverManager], which proves the segments of an
    n-Wesolowski computation while it runs. The event loop collects the finished
    segments, extends what can be proved, queues new segments and schedules the
    prover threads. [Prove] itself is in the file Prove. *)
From Stdlib Require Import Permutation Sorted.
From S2P Require Import Prelude Words NumTheory Gmp QuadForm FormClass Integer Forms Nucomp Bqfc PrimeTest HashPrime ProofCommon Powers Verifier Steps Segments Prover Callback Provers Vdf Proving.

(** ** The state *)

(** An element of [provers]: what the event loop sees of the thread, and the
    segment. *)
Record slot : Type := mkslot {
  sl_seg : Segment;
  sl_paused : bool;             (* negb IsRunning *)
  sl_finished : bool;           (* IsFinished *)
  sl_fully : bool;              (* IsFullyFinished *)
  sl_proof : form;              (* GetProof *)
}.

Definition slot_start (s : Segment) : slot := mkslot s false false false form_0.
Definition set_paused (b : bool) (p : slot) : slot := mkslot (sl_seg p) b (sl_finished p) (sl_fully p) (sl_proof p).

(** The two [std::set<uint64_t>] are sorted lists without duplicates. *)
Record manager : Type := mkmanager {
  segment_count : nat;
  max_proving_threads : Z;
  provers : list slot;
  pending_segments : list (list Segment);
  last_appended : list Z;
  done_segments : list (list Segment);
  pending_iters : list Z;
  pending_iters_last_sg : list Z;
  max_proving_iteration : Z;
  vdf_iteration : Z;
  intermediates_iter : Z;
  increased_proving : bool;     (* a local of the event loop *)
}.

Definition ProverManager_make (segment_count : nat) (max_proving_threads junk : Z) : manager :=
  mkmanager segment_count max_proving_threads [] (repeat [] segment_count) (repeat 0 segment_count) (repeat [] segment_count) [] [] 0 0 junk false.

Fixpoint set_insert (x : Z) (l : list Z) : list Z :=
  match l with
  | [] => [x]
  | y :: r => if x <? y then x :: l else if x =? y then l else y :: set_insert x r
  end.
Definition set_erase (x : Z) (l : list Z) : list Z := filter (fun y => negb (y =? x)) l.

(** What [Prove] does to the sets, each under its lock: it asks for the iteration
    first, and again before a retry. *)
Definition insert_pending (iteration : Z) (m : manager) : manager :=
  mkmanager (segment_count m) (max_proving_threads m) (provers m) (pending_segments m) (last_appended m) (done_segments m)
    (set_insert iteration (pending_iters m)) (pending_iters_last_sg m)
    (max_proving_iteration m) (vdf_iteration m) (intermediates_iter m) (increased_proving m).
Definition insert_last_segment (iteration : Z) (m : manager) : manager :=
  mkmanager (segment_count m) (max_proving_threads m) (provers m) (pending_segments m) (last_appended m) (done_segments m)
    (pending_iters m) (set_insert (iteration - Z.rem iteration (2 ^ 16)) (pending_iters_last_sg m))
    (max_proving_iteration m) (vdf_iteration m) (intermediates_iter m) (increased_proving m).

(** The last segment has been reached; the segments of the proof are copied. *)
Definition erase_last_segment (iteration : Z) (m : manager) : manager :=
  mkmanager (segment_count m) (max_proving_threads m) (provers m) (pending_segments m) (last_appended m) (done_segments m)
    (pending_iters m) (set_erase (iteration - Z.rem iteration (2 ^ 16)) (pending_iters_last_sg m))
    (max_proving_iteration m) (vdf_iteration m) (intermediates_iter m) (increased_proving m).
Definition erase_pending (iteration : Z) (m : manager) : manager :=
  mkmanager (segment_count m) (max_proving_threads m) (provers m) (pending_segments m) (last_appended m) (done_segments m)
    (set_erase iteration (pending_iters m)) (pending_iters_last_sg m)
    (max_proving_iteration m) (vdf_iteration m) (intermediates_iter m) (increased_proving m).

(** [1LL << (16 + 2 * i)] *)
Definition segment_size (i : nat) : Z := 2 ^ (16 + 2 * Z.of_nat i).

(** [iteration - iteration % (1 << 16)] *)
Definition round_down (iteration : Z) : Z := iteration - Z.rem iteration (2 ^ 16).

(** ** RunEventLoop: finished provers *)

(** [junk]: the indeterminate fields of the [Segment()] the vector is filled with. *)
Definition store_segment (junk : Z * Z) (l : list Segment) (position : nat) (s : Segment) : list Segment :=
  update (l ++ repeat (Segment_empty junk) (S position - length l)) position s.

Definition with_proof (s : Segment) (proof : form) : Segment := mkSegment (start s) (length_ s) (seg_x s) (seg_y s) proof (is_empty s).

Fixpoint collect (junk : Z * Z) (ps : list slot) (done : list (list Segment)) (small : bool) : res (list slot * list (list Segment) * bool) :=
  match ps with
  | [] => Ok ([], done, small)
  | p :: rest =>
      if sl_finished p then
        let s := with_proof (sl_seg p) (sl_proof p) in
        let p := mkslot s (sl_paused p) (sl_finished p) (sl_fully p) (sl_proof p) in
        let small := small || (length_ s =? 2 ^ 16) in
        index <- GetSegmentBucket s ;;
        require negb (length_ s =? 0) else division_by_zero ;;
        let position := Z.to_nat (Z.quot (start s) (length_ s)) in
        match nth_error done (Z.to_nat index) with
        | None => Throw undefined_behaviour
        | Some l =>
            let done := update done (Z.to_nat index) (store_segment junk l position s) in
            ' (rest, done, small) <- collect junk rest done small ;;
            Ok (if sl_fully p then rest else p :: rest, done, small)
        end
      else
        ' (rest, done, small) <- collect junk rest done small ;;
        Ok (p :: rest, done, small)
  end.

(** ** RunEventLoop: what can be proved *)

(** The inner [while] from the current position on: the new
    [max_proving_iteration] and number of blobs. *)
Fixpoint take_done (l : list Segment) (size max blobs : Z) : Z * Z :=
  match l with
  | [] => (max, blobs)
  | s :: rest =>
      if is_empty s then (max, blobs)
      else if blobs + 1 =? 63 then (max + size, blobs + 1) else take_done rest size (max + size) (blobs + 1)
  end.

(** The buckets [n - 1, ..., 0]. *)
Fixpoint advance (n : nat) (done : list (list Segment)) (max blobs : Z) : Z :=
  match n with
  | O => max
  | S i =>
      if blobs <? 63 then
        if negb (Z.rem max (segment_size i) =? 0) then advance i done max blobs
        else
          let '(max, blobs) := take_done (skipn (Z.to_nat (Z.quot max (segment_size i))) (nth i done [])) (segment_size i) max blobs in
          advance i done max blobs
      else max
  end.

(** [done_segments[0]]'s end; [pending_iters.begin()], or [1LL << 63]. *)
Definition expected_proving_iters (done : list (list Segment)) : Z :=
  match rev (nth O done []) with
  | [] => 0
  | s :: _ => u64 (start s + length_ s)
  end.

Definition best_pending_iter (m : manager) (small : bool) : Z :=
  match pending_iters m with
  | it :: _ => if small then it else 2 ^ 63
  | [] => 2 ^ 63
  end.

Definition new_max (m : manager) (done : list (list Segment)) (small : bool) : Z :=
  match pending_iters m with
  | it :: _ => if small && (round_down it <=? expected_proving_iters done) then advance (segment_count m) done 0 0 else max_proving_iteration m
  | [] => max_proving_iteration m
  end.

(** ** RunEventLoop: new segments *)

(** [weso->checkpoints] has [1 << 18] elements. *)
Definition checkpoint_at (checkpoints : array) (i : Z) : res form :=
  if i <? 2 ^ 18 then Ok (checkpoints i) else Throw undefined_behaviour.

Fixpoint append_bucket (fuel : nat) (checkpoints : array) (size intermediates last : Z) (pending : list Segment) : res (list Segment * Z) :=
  if last + size <=? intermediates then
    match fuel with
    | O => Throw out_of_fuel
    | S fuel' =>
        x <- checkpoint_at checkpoints (Z.quot last (2 ^ 16)) ;;
        y <- checkpoint_at checkpoints (Z.quot (last + size) (2 ^ 16)) ;;
        append_bucket fuel' checkpoints size intermediates (last + size) (pending ++ [Segment_make last size x y])
    end
  else Ok (pending, last).

(** The buckets from [i] on. *)
Fixpoint append_new (checkpoints : array) (intermediates : Z) (i : nat) (pending : list (list Segment)) (lasts : list Z)
  : res (list (list Segment) * list Z) :=
  match pending, lasts with
  | p :: pending, last :: lasts =>
      ' (p, last) <- append_bucket (Z.to_nat (Z.quot intermediates (segment_size i))) checkpoints (segment_size i) intermediates last p ;;
      ' (pending, lasts) <- append_new checkpoints intermediates (S i) pending lasts ;;
      Ok (p :: pending, last :: lasts)
  | _, _ => Ok ([], [])
  end.

(** ** RunEventLoop: scheduling *)

(** Where the best segment is: a paused prover, or the head of a queue. *)
Inductive place : Type :=
| Paused (index : nat)
| Pending (index : nat).

Fixpoint scan_paused (ps : list slot) (i : nat) (best : Segment) (at_ : option place) : Segment * option place :=
  match ps with
  | [] => (best, at_)
  | p :: rest =>
      if sl_paused p && IsWorseThan best (sl_seg p) then scan_paused rest (S i) (sl_seg p) (Some (Paused i))
      else scan_paused rest (S i) best at_
  end.

Fixpoint scan_pending (pending : list (list Segment)) (i : nat) (best : Segment) (at_ : option place) : Segment * option place :=
  match pending with
  | [] => (best, at_)
  | (s :: _) :: rest =>
      if IsWorseThan best s then scan_pending rest (S i) s (Some (Pending i)) else scan_pending rest (S i) best at_
  | [] :: rest => scan_pending rest (S i) best at_
  end.

Fixpoint scan_running (ps : list slot) (i : nat) (worst : Segment) (at_ : option nat) : Segment * option nat :=
  match ps with
  | [] => (worst, at_)
  | p :: rest =>
      if negb (sl_paused p) && (is_empty worst || IsWorseThan (sl_seg p) worst) then scan_running rest (S i) (sl_seg p) (Some i)
      else scan_running rest (S i) worst at_
  end.

Definition update_slot (ps : list slot) (i : nat) (f : slot -> slot) : list slot :=
  match nth_error ps i with Some p => update ps i (f p) | None => ps end.

(** Resume the prover, or start one for the head of the queue. *)
Definition spawn (ps : list slot) (pending : list (list Segment)) (best : Segment) (at_ : place) : list slot * list (list Segment) :=
  match at_ with
  | Paused i => (update_slot ps i (set_paused false), pending)
  | Pending i => (ps ++ [slot_start best], update pending i (tl (nth i pending [])))
  end.

(** One turn of the [while (!stopped)] loop, up to the spawning: nothing to do,
    or the provers, the number of active ones and what to spawn. *)
Definition pick (junk : Z * Z) (max_threads active : Z) (ps : list slot) (pending : list (list Segment))
  : res (option (list slot * Z * Segment * place)) :=
  let '(best, at_) := (let '(b, a) := scan_paused ps O (Segment_empty junk) None in scan_pending pending O b a) in
  if is_empty best then Ok None
  else
    match at_ with
    | None => Throw undefined_behaviour
    | Some pl =>
        if active <? max_threads then Ok (Some (ps, active + 1, best, pl))
        else
          let '(worst, worst_at) := scan_running ps O (Segment_empty junk) None in
          if IsWorseThan worst best then
            match worst_at with
            | None => Throw undefined_behaviour
            | Some i => Ok (Some (update_slot ps i (set_paused true), active, best, pl))
            end
          else Ok None
    end.

Fixpoint schedule (fuel : nat) (junk : Z * Z) (max_threads active : Z) (ps : list slot) (pending : list (list Segment))
  : res (list slot * list (list Segment)) :=
  r <- pick junk max_threads active ps pending ;;
  match r with
  | None => Ok (ps, pending)
  | Some (ps, active, best, pl) =>
      match fuel with
      | O => Throw out_of_fuel
      | S fuel' => let '(ps, pending) := spawn ps pending best pl in schedule fuel' junk max_threads active ps pending
      end
  end.

Definition count_running (ps : list slot) : Z := Z.of_nat (length (filter (fun p => negb (sl_paused p)) ps)).

Definition schedule_fuel (ps : list slot) (pending : list (list Segment)) : nat := length ps + length (concat pending).

(** ** RunEventLoop: one turn *)

(** [published] is [weso->iterations], [finished] what [fast_storage] reports
    if there is one. The booleans: which condition variables are notified. *)
Definition event_turn (junk : Z * Z) (multi_proc_machine : bool) (checkpoints : array) (published : Z) (finished : option Z) (m : manager)
  : res (manager * (bool * bool)) :=
  let vdf := published in
  let more := (500000000 <=? vdf) && negb (increased_proving m) && multi_proc_machine in
  let threads := if more then max_proving_threads m + 2 else max_proving_threads m in
  let new_last_segment := match pending_iters_last_sg m with it :: _ => it <=? vdf | [] => false end in
  ' (ps, done, small) <- collect junk (provers m) (done_segments m) false ;;
  let max_ := new_max m done small in
  let notify_proof := round_down (best_pending_iter m small) <=? max_ in
  let intermediates := match finished with Some it => it | None => vdf end in
  ' (pending, lasts) <- append_new checkpoints intermediates O (pending_segments m) (last_appended m) ;;
  ' (ps, pending) <- schedule (schedule_fuel ps pending) junk threads (count_running ps) ps pending ;;
  Ok (mkmanager (segment_count m) threads ps pending lasts done (pending_iters m) (pending_iters_last_sg m) max_ vdf intermediates
        (increased_proving m || more), (new_last_segment, notify_proof)).

(** ** The measure of the scheduler *)

(** The order on non-empty segments as an order on numbers: longer is worse,
    then later is worse. *)
Definition seg_ok (s : Segment) : Prop := is_empty s = false /\ 0 <= start s < 2 ^ 64.
Definition key (s : Segment) : Z := length_ s * 2 ^ 64 + start s.

Lemma IsWorseThan_key s t : seg_ok s -> seg_ok t -> IsWorseThan s t = (key t <? key s).
Proof.
  intros [Es Hs] [Et Ht]. apply Bool.eq_true_iff_eq. rewrite IsWorseThan_spec, Es, Z.ltb_lt. unfold key. nia.
Qed.

Lemma IsWorseThan_empty s t : is_empty s = true -> seg_ok t -> IsWorseThan s t = true.
Proof. intros Es [Et _]. apply IsWorseThan_spec. now rewrite Es. Qed.

Section Measure.

(** How many running keys are worse than some waiting one. *)
Definition worse_count (R W : list Z) : nat := length (filter (fun r => existsb (fun w => w <? r) W) R).
Definition mu (R W : list Z) : nat := worse_count R W + length W.

Lemma existsb_lt W r : existsb (fun w => w <? r) W = true <-> exists w, In w W /\ w < r.
Proof. rewrite existsb_exists. split; intros (w & Hw & H); exists w; (split; [exact Hw|]); apply Z.ltb_lt; assumption. Qed.

Lemma worse_count_le R W W' : (forall r w', In r R -> In w' W' -> w' < r -> exists w, In w W /\ w < r) -> (worse_count R W' <= worse_count R W)%nat.
Proof.
  unfold worse_count. induction R as [|r R IH]; intros H; cbn [filter]; [lia|]. specialize (IH ltac:(intros; eapply H; eauto; now right)).
  destruct (existsb _ W') eqn:E'; [|destruct (existsb _ W); cbn [length]; lia].
  apply existsb_lt in E' as (w' & Hw' & Hlt). destruct (H r w' (or_introl eq_refl) Hw' Hlt) as (w & Hw & Hlt').
  rewrite (proj2 (existsb_lt W r)) by (now exists w). cbn [length]. lia.
Qed.

Lemma worse_count_perm R R' W : Permutation R R' -> worse_count R W = worse_count R' W.
Proof.
  intros P. unfold worse_count. induction P as [|r R R' _ IH|r r' R|R R' R'' _ IH1 _ IH2]; cbn [filter]; [reflexivity| | |congruence].
  - destruct (existsb _ W); cbn [length]; now rewrite IH.
  - now destruct (existsb _ W), (existsb _ W).
Qed.

(** The least waiting key starts running. *)
Lemma mu_spawn R W w W' : Permutation W (w :: W') -> (forall v, In v W -> w <= v) -> (mu (w :: R) W' < mu R W)%nat.
Proof.
  intros P Hmin. unfold mu. rewrite (Permutation_length P). cbn [length].
  assert (Hin : forall v, In v W' -> In v W) by (intros v Hv; apply (Permutation_in _ (Permutation_sym P)); now right).
  assert (E : worse_count (w :: R) W' = worse_count R W').
  { unfold worse_count. cbn [filter]. destruct (existsb _ W') eqn:E; [|reflexivity]. apply existsb_lt in E as (v & Hv & Hlt). specialize (Hmin v (Hin v Hv)). lia. }
  rewrite E. pose proof (worse_count_le R W W') as H. specialize (H ltac:(intros r v _ Hv Hlt; exists v; auto)). lia.
Qed.

(** It replaces the greatest running key. *)
Lemma mu_swap R R' W w W' r : Permutation W (w :: W') -> Permutation R (r :: R') -> (forall v, In v W -> w <= v) -> (forall v, In v R -> v <= r) -> w < r ->
  (mu (w :: R') (r :: W') < mu R W)%nat.
Proof.
  intros PW PR Hmin Hmax Hlt. unfold mu. rewrite (Permutation_length PW), (worse_count_perm _ _ W PR). cbn [length].
  assert (HinW : forall v, In v W' -> In v W) by (intros v Hv; apply (Permutation_in _ (Permutation_sym PW)); now right).
  assert (Hw : In w W) by (apply (Permutation_in _ (Permutation_sym PW)); now left).
  assert (E1 : worse_count (w :: R') (r :: W') = worse_count R' (r :: W')).
  { unfold worse_count. cbn [filter]. destruct (existsb _ (r :: W')) eqn:E; [|reflexivity]. apply existsb_lt in E as (v & [<-|Hv] & Hv2); [lia|].
    specialize (Hmin v (HinW v Hv)). lia. }
  assert (E2 : worse_count (r :: R') W = S (worse_count R' W)).
  { unfold worse_count. cbn [filter]. now rewrite (proj2 (existsb_lt W r)) by (now exists w). }
  rewrite E1, E2. pose proof (worse_count_le R' W (r :: W')) as H.
  specialize (H ltac:(intros r1 v Hr1 [<-|Hv] Hv2; [exfalso; assert (In r1 R) by (apply (Permutation_in _ (Permutation_sym PR)); now right); specialize (Hmax r1 ltac:(assumption)); lia|exists v; auto])). lia.
Qed.

Lemma mu_le R W : (mu R W <= length R + length W)%nat.
Proof. unfold mu, worse_count. pose proof (filter_length_le (fun r => existsb (fun w => w <? r) W) R). lia. Qed.
End Measure.

(** ** The scans *)

Definition running (ps : list slot) : list slot := filter (fun p => negb (sl_paused p)) ps.
Definition paused (ps : list slot) : list slot := filter sl_paused ps.
Definition rkeys (ps : list slot) : list Z := map (fun p => key (sl_seg p)) (running ps).
Definition wkeys (ps : list slot) (pending : list (list Segment)) : list Z :=
  map (fun p => key (sl_seg p)) (paused ps) ++ map key (concat pending).

Definition sorted (l : list Segment) : Prop := StronglySorted (fun s t => key s <= key t) l.

Record queues_ok (ps : list slot) (pending : list (list Segment)) : Prop := {
  q_slots : Forall (fun p => seg_ok (sl_seg p)) ps;
  q_pending : Forall (Forall seg_ok) pending;
  q_sorted : Forall sorted pending;
}.

Section Scan.
Variable ps : list slot.
Variable pending : list (list Segment).

(** [best] is where [at_] says. *)
Definition found (best : Segment) (at_ : option place) : Prop :=
  match at_ with
  | None => is_empty best = true
  | Some (Paused i) => exists p, nth_error ps i = Some p /\ sl_paused p = true /\ sl_seg p = best
  | Some (Pending i) => exists rest, nth_error pending i = Some (best :: rest)
  end.

(** It is the best of the segments [S]. *)
Definition best_of (best : Segment) (at_ : option place) (S : list Segment) : Prop :=
  match at_ with
  | None => S = []
  | Some _ => seg_ok best /\ Forall (fun s => key best <= key s) S
  end.

Lemma best_step best at_ S s pl : found best at_ -> best_of best at_ S -> seg_ok s ->
  if IsWorseThan best s then best_of s (Some pl) (S ++ [s]) else best_of best at_ (S ++ [s]).
Proof.
  intros Hf Hb Hs. destruct at_ as [p|]; cbn [best_of] in Hb.
  - destruct Hb as [Hok Hall]. rewrite (IsWorseThan_key best s Hok Hs). destruct (Z.ltb_spec (key s) (key best)); cbn [best_of].
    + split; [exact Hs|]. apply Forall_app. split; [|constructor; [lia|constructor]]. eapply Forall_impl; [|exact Hall]. cbv beta. intros t Ht. lia.
    + split; [exact Hok|]. apply Forall_app. split; [exact Hall|constructor; [assumption|constructor]].
  - subst S. cbn [found] in Hf. rewrite (IsWorseThan_empty best s Hf Hs). cbn [best_of app]. split; [exact Hs|]. constructor; [lia|constructor].
Qed.

Lemma scan_paused_ok ps2 : forall ps1 best at_ S, ps = ps1 ++ ps2 -> Forall (fun p => seg_ok (sl_seg p)) ps2 -> found best at_ -> best_of best at_ S ->
  let '(best', at') := scan_paused ps2 (length ps1) best at_ in found best' at' /\ best_of best' at' (S ++ map sl_seg (paused ps2)).
Proof.
  induction ps2 as [|p ps2 IH]; intros ps1 best at_ S E Hok Hf Hb; cbn [scan_paused]; [now rewrite app_nil_r|].
  pose proof (Forall_inv Hok) as Hp. pose proof (Forall_inv_tail Hok) as Hok'. assert (E' : ps = (ps1 ++ [p]) ++ ps2) by now rewrite <- app_assoc.
  replace (Datatypes.S (length ps1)) with (length (ps1 ++ [p])) by (rewrite length_app; cbn [length]; lia).
  unfold paused. cbn [filter]. destruct (sl_paused p) eqn:Ep; cbn [andb map].
  - pose proof (best_step best at_ S (sl_seg p) (Paused (length ps1)) Hf Hb Hp) as Hstep. destruct (IsWorseThan best (sl_seg p)).
    + specialize (IH (ps1 ++ [p]) (sl_seg p) (Some (Paused (length ps1))) (S ++ [sl_seg p]) E' Hok').
      rewrite <- app_assoc in IH. apply IH; [|exact Hstep]. exists p. split; [|now split]. rewrite E, nth_error_app2, Nat.sub_diag by lia. reflexivity.
    + specialize (IH (ps1 ++ [p]) best at_ (S ++ [sl_seg p]) E' Hok'). rewrite <- app_assoc in IH. now apply IH.
  - now apply (IH (ps1 ++ [p]) best at_ S).
Qed.

(** The heads of the queues. *)
Definition heads (q : list (list Segment)) : list Segment := flat_map (fun l => match l with s :: _ => [s] | [] => [] end) q.

Lemma scan_pending_ok q2 : forall q1 best at_ S, pending = q1 ++ q2 -> Forall (Forall seg_ok) q2 -> found best at_ -> best_of best at_ S ->
  let '(best', at') := scan_pending q2 (length q1) best at_ in found best' at' /\ best_of best' at' (S ++ heads q2).
Proof.
  induction q2 as [|l q2 IH]; intros q1 best at_ S E Hok Hf Hb; cbn [scan_pending heads flat_map]; [now rewrite app_nil_r|].
  pose proof (Forall_inv Hok) as Hl. pose proof (Forall_inv_tail Hok) as Hok'. assert (E' : pending = (q1 ++ [l]) ++ q2) by now rewrite <- app_assoc.
  replace (Datatypes.S (length q1)) with (length (q1 ++ [l])) by (rewrite length_app; cbn [length]; lia).
  destruct l as [|s l]; cbn [app]; [now apply (IH (q1 ++ [[]]) best at_ S)|].
  inversion Hl as [|? ? Hs _]; subst. pose proof (best_step best at_ S s (Pending (length q1)) Hf Hb Hs) as Hstep. destruct (IsWorseThan best s).
  - specialize (IH (q1 ++ [s :: l]) s (Some (Pending (length q1))) (S ++ [s]) E' Hok'). rewrite <- app_assoc in IH. apply IH; [|exact Hstep].
    exists l. rewrite E, nth_error_app2, Nat.sub_diag by lia. reflexivity.
  - specialize (IH (q1 ++ [s :: l]) best at_ (S ++ [s]) E' Hok'). rewrite <- app_assoc in IH. now apply IH.
Qed.

(** A head is the best of its queue. *)
Lemma heads_best k : Forall sorted pending -> Forall (fun s => k <= key s) (heads pending) -> Forall (fun s => k <= key s) (concat pending).
Proof.
  induction pending as [|l q IH]; intros Hs Hh; cbn [concat]; [constructor|]. inversion Hs as [|? ? Hl Hs']; subst. cbn [heads flat_map] in Hh.
  apply Forall_app in Hh as [H1 H2]. apply Forall_app. split; [|now apply IH]. destruct l as [|s l]; [constructor|].
  inversion H1 as [|? ? Hk _]; subst. constructor; [exact Hk|]. inversion Hl as [|? ? _ Hall]; subst. eapply Forall_impl; [|exact Hall].
  cbv beta. intros t Ht. lia.
Qed.

Lemma heads_nil : heads pending = [] -> concat pending = [].
Proof.
  induction pending as [|l q IH]; intros H; cbn [concat]; [reflexivity|]. cbn [heads flat_map] in H. apply app_eq_nil in H as [H1 H2].
  destruct l; [now apply IH|discriminate].
Qed.

(** The two scans together. *)
Lemma scans_ok junk : queues_ok ps pending -> forall best at_, (let '(b, a) := scan_paused ps O (Segment_empty junk) None in scan_pending pending O b a) = (best, at_) ->
  found best at_ /\
  match at_ with
  | None => wkeys ps pending = [] /\ is_empty best = true
  | Some _ => seg_ok best /\ Forall (fun k => key best <= k) (wkeys ps pending)
  end.
Proof.
  intros [H1 H2 H3] best at_ E. pose proof (scan_paused_ok ps [] (Segment_empty junk) None [] eq_refl H1 eq_refl eq_refl) as HA. cbn [length app] in HA.
  destruct (scan_paused ps 0 (Segment_empty junk) None) as [b a]. destruct HA as [Hf Hb].
  pose proof (scan_pending_ok pending [] b a _ eq_refl H2 Hf Hb) as HB. cbn [length] in HB. rewrite E in HB. destruct HB as [Hf' Hb'].
  split; [exact Hf'|]. unfold wkeys. destruct at_ as [pl|]; cbn [best_of] in Hb'.
  - destruct Hb' as [Hok Hall]. split; [exact Hok|]. apply Forall_app in Hall as [HP HQ]. apply (heads_best _ H3) in HQ.
    apply Forall_app. rewrite !Forall_map in *. split; assumption.
  - split; [|exact Hf']. apply app_eq_nil in Hb' as [HP HQ]. apply heads_nil in HQ. rewrite HQ. apply map_eq_nil in HP. now rewrite HP.
Qed.

(** The scan of the running provers. *)
Lemma scan_running_ok ps2 : forall ps1 worst at_ S, ps = ps1 ++ ps2 -> Forall (fun p => seg_ok (sl_seg p)) ps2 ->
  match at_ with
  | None => is_empty worst = true /\ S = []
  | Some i => (exists p, nth_error ps i = Some p /\ sl_paused p = false /\ sl_seg p = worst) /\ seg_ok worst /\ Forall (fun s => key s <= key worst) S
  end ->
  let '(worst', at') := scan_running ps2 (length ps1) worst at_ in
  match at' with
  | None => is_empty worst' = true /\ S ++ map sl_seg (running ps2) = []
  | Some i => (exists p, nth_error ps i = Some p /\ sl_paused p = false /\ sl_seg p = worst') /\ seg_ok worst' /\
      Forall (fun s => key s <= key worst') (S ++ map sl_seg (running ps2))
  end.
Proof.
  induction ps2 as [|p ps2 IH]; intros ps1 worst at_ S E Hok HI; cbn [scan_running]; [now rewrite app_nil_r|].
  pose proof (Forall_inv Hok) as Hp. pose proof (Forall_inv_tail Hok) as Hok'. assert (E' : ps = (ps1 ++ [p]) ++ ps2) by now rewrite <- app_assoc.
  replace (Datatypes.S (length ps1)) with (length (ps1 ++ [p])) by (rewrite length_app; cbn [length]; lia).
  unfold running. cbn [filter]. destruct (sl_paused p) eqn:Ep; cbn [andb negb map]; [now apply (IH (ps1 ++ [p]) worst at_ S)|].
  assert (Hnth : nth_error ps (length ps1) = Some p) by (rewrite E, nth_error_app2, Nat.sub_diag by lia; reflexivity).
  destruct at_ as [i|].
  - destruct HI as (Hat & Hw & Hall). rewrite (proj1 Hw), (IsWorseThan_key _ _ Hp Hw). cbn [orb]. destruct (Z.ltb_spec (key worst) (key (sl_seg p))).
    + specialize (IH (ps1 ++ [p]) (sl_seg p) (Some (length ps1)) (S ++ [sl_seg p]) E' Hok'). rewrite <- app_assoc in IH. apply IH.
      split; [now exists p|]. split; [exact Hp|]. apply Forall_app. split; [|constructor; [lia|constructor]].
      eapply Forall_impl; [|exact Hall]. cbv beta. intros t Ht. lia.
    + specialize (IH (ps1 ++ [p]) worst (Some i) (S ++ [sl_seg p]) E' Hok'). rewrite <- app_assoc in IH. apply IH.
      split; [exact Hat|]. split; [exact Hw|]. apply Forall_app. split; [exact Hall|constructor; [assumption|constructor]].
  - destruct HI as [He ->]. rewrite He. cbn [orb]. specialize (IH (ps1 ++ [p]) (sl_seg p) (Some (length ps1)) [sl_seg p] E' Hok').
    apply IH. split; [now exists p|]. split; [exact Hp|]. constructor; [lia|constructor].
Qed.
End Scan.

(** ** The moves *)

Definition all_segments (ps : list slot) (pending : list (list Segment)) : list Segment := map sl_seg ps ++ concat pending.

Lemma update_slot_mid l1 l2 p f : update_slot (l1 ++ p :: l2) (length l1) f = l1 ++ f p :: l2.
Proof. unfold update_slot. rewrite nth_error_app2, Nat.sub_diag by lia. cbn [nth_error]. apply update_mid. Qed.

Lemma running_app l1 l2 : running (l1 ++ l2) = running l1 ++ running l2.
Proof. apply filter_app. Qed.
Lemma paused_app l1 l2 : paused (l1 ++ l2) = paused l1 ++ paused l2.
Proof. apply filter_app. Qed.

Lemma count_running_keys ps : count_running ps = Z.of_nat (length (rkeys ps)).
Proof. unfold rkeys. now rewrite length_map. Qed.

(** Changing the flag of one slot. *)
Lemma flip_running l1 l2 p b : sl_paused p = negb b ->
  let ps := l1 ++ p :: l2 in let ps' := l1 ++ set_paused b p :: l2 in
  if b then Permutation (rkeys ps) (key (sl_seg p) :: rkeys ps') /\ (forall q, Permutation (wkeys ps' q) (key (sl_seg p) :: wkeys ps q))
  else Permutation (rkeys ps') (key (sl_seg p) :: rkeys ps) /\ (forall q, Permutation (wkeys ps q) (key (sl_seg p) :: wkeys ps' q)).
Proof.
  intros Hp ps ps'. subst ps ps'. unfold rkeys, wkeys. rewrite !running_app, !paused_app. unfold running, paused.
  cbn [filter]. change (sl_paused (set_paused b p)) with b. rewrite Hp. destruct b; cbn [negb]; rewrite !map_app; cbn [map app];
    change (sl_seg (set_paused _ p)) with (sl_seg p); (split; [symmetry; apply Permutation_middle|]); intros q; rewrite <- !app_assoc; cbn [app];
    symmetry; apply Permutation_middle.
Qed.

Lemma slots_flip l1 l2 p b : Forall (fun p => seg_ok (sl_seg p)) (l1 ++ p :: l2) -> Forall (fun p => seg_ok (sl_seg p)) (l1 ++ set_paused b p :: l2).
Proof. rewrite !Forall_app, !Forall_cons_iff. easy. Qed.

Lemma segments_flip l1 l2 p b : map sl_seg (l1 ++ set_paused b p :: l2) = map sl_seg (l1 ++ p :: l2).
Proof. rewrite !map_app. reflexivity. Qed.

(** Queues lose segments from their front only. *)
Definition shrunk (q' q : list (list Segment)) : Prop := Forall2 (fun l' l => exists n, l' = skipn n l) q' q.

Lemma shrunk_refl q : shrunk q q.
Proof. induction q as [|l q IH]; constructor; [now exists O|exact IH]. Qed.

Lemma shrunk_trans q1 q2 q3 : shrunk q1 q2 -> shrunk q2 q3 -> shrunk q1 q3.
Proof.
  intros H. revert q3. induction H as [|l1 l2 q1 q2 [n ->] _ IH]; intros q3 H3; inversion H3 as [|? l3 ? q3' [m ->] H3']; subst; constructor; [|now apply IH].
  exists (n + m)%nat. apply skipn_skipn.
Qed.

Lemma shrunk_tl q1 l q2 : shrunk (q1 ++ tl l :: q2) (q1 ++ l :: q2).
Proof.
  induction q1 as [|l1 q1 IH]; cbn [app]; constructor; [|apply shrunk_refl|now exists O|exact IH]. exists 1%nat. now destruct l.
Qed.

Lemma spawn_ok ps pending best pl : queues_ok ps pending -> found ps pending best (Some pl) ->
  let '(ps', pending') := spawn ps pending best pl in
  queues_ok ps' pending' /\ Permutation (rkeys ps') (key best :: rkeys ps) /\ Permutation (wkeys ps pending) (key best :: wkeys ps' pending') /\
  Permutation (all_segments ps' pending') (all_segments ps pending) /\ shrunk pending' pending.
Proof.
  intros [H1 H2 H3] Hf. destruct pl as [i|i]; cbn [spawn found] in *.
  - destruct Hf as (p & Hp & Hpa & <-). destruct (nth_error_split ps i Hp) as (l1 & l2 & -> & <-). rewrite update_slot_mid.
    destruct (flip_running l1 l2 p false Hpa) as [HR HW]. split; [split; [now apply slots_flip|exact H2|exact H3]|]. split; [exact HR|]. split; [apply HW|].
    split; [unfold all_segments; now rewrite segments_flip|apply shrunk_refl].
  - destruct Hf as (rest & Hq). rewrite (nth_error_nth _ _ _ Hq). cbn [tl]. destruct (nth_error_split pending i Hq) as (q1 & q2 & -> & <-). rewrite update_mid.
    assert (Hbest : seg_ok best) by (apply Forall_app in H2 as [_ H2]; apply Forall_inv in H2; now apply Forall_inv in H2).
    split; [split|].
    + apply Forall_app. split; [exact H1|constructor; [exact Hbest|constructor]].
    + rewrite Forall_app, Forall_cons_iff in H2 |- *. destruct H2 as (A & B & C). apply Forall_inv_tail in B. now repeat split.
    + rewrite Forall_app, Forall_cons_iff in H3 |- *. destruct H3 as (A & B & C). split; [exact A|]. split; [now inversion B|exact C].
    + split; [|split; [|split; [|exact (shrunk_tl q1 (best :: rest) q2)]]].
      * unfold rkeys. rewrite running_app, map_app. cbn [running filter slot_start sl_paused negb map sl_seg]. symmetry. apply Permutation_cons_append.
      * unfold wkeys. rewrite paused_app. cbn [paused filter slot_start sl_paused]. rewrite app_nil_r, !concat_app. cbn [concat]. rewrite !map_app. cbn [map app].
        etransitivity; [apply Permutation_app_head; symmetry; apply Permutation_middle|]. symmetry. apply Permutation_middle.
      * unfold all_segments. rewrite map_app, !concat_app. cbn [map slot_start sl_seg concat app]. rewrite <- app_assoc. cbn [app].
        apply Permutation_app_head. apply Permutation_middle.
Qed.

Lemma found_other l1 l2 p pending best pl : sl_paused p = false -> found (l1 ++ p :: l2) pending best (Some pl) ->
  found (l1 ++ set_paused true p :: l2) pending best (Some pl).
Proof.
  intros Hp. destruct pl as [j|j]; cbn [found]; [|easy]. intros (p' & Hj & Hpa & Eb). destruct (lt_eq_lt_dec j (length l1)) as [[Hlt| ->]|Hgt].
  - exists p'. rewrite nth_error_app1 in Hj |- * by exact Hlt. now repeat split.
  - rewrite nth_error_app2, Nat.sub_diag in Hj by lia. injection Hj as <-. congruence.
  - exists p'. rewrite nth_error_app2 in Hj |- * by lia. destruct (j - length l1)%nat eqn:Ej; [lia|]. now repeat split.
Qed.

(** ** The scheduler *)

(** No waiting segment is better than a running one, and while segments wait all
    threads are in use. *)
Definition scheduled (max_threads : Z) (ps : list slot) (pending : list (list Segment)) : Prop :=
  count_running ps <= max_threads /\
  (wkeys ps pending = [] \/ count_running ps = max_threads /\ forall r w, In r (rkeys ps) -> In w (wkeys ps pending) -> r <= w).

(** What [pick] decides. *)
Lemma pick_ok junk max_threads ps pending : 1 <= max_threads -> queues_ok ps pending -> count_running ps <= max_threads ->
  exists r, pick junk max_threads (count_running ps) ps pending = Ok r /\
  match r with
  | None => scheduled max_threads ps pending
  | Some (ps1, active, best, pl) => queues_ok ps1 pending /\ found ps1 pending best (Some pl) /\ map sl_seg ps1 = map sl_seg ps /\
      active = count_running ps1 + 1 /\ active <= max_threads /\
      forall ps' pending', Permutation (rkeys ps') (key best :: rkeys ps1) -> Permutation (wkeys ps1 pending) (key best :: wkeys ps' pending') ->
        (mu (rkeys ps') (wkeys ps' pending') < mu (rkeys ps) (wkeys ps pending))%nat
  end.
Proof.
  intros Hmax HQ Hle. unfold pick.
  destruct (let '(b, a) := scan_paused ps O (Segment_empty junk) None in scan_pending pending O b a) as [best at_] eqn:Escan.
  destruct (scans_ok ps pending junk HQ best at_ Escan) as [Hf Hbest]. destruct at_ as [pl|].
  2:{ destruct Hbest as [HW He]. rewrite He. exists None. split; [reflexivity|]. split; [exact Hle|now left]. }
  destruct Hbest as [Hok Hall]. rewrite (proj1 Hok). rewrite Forall_forall in Hall. destruct (Z.ltb_spec (count_running ps) max_threads) as [Hlt|Hge].
  - eexists. split; [reflexivity|]. split; [exact HQ|]. split; [exact Hf|]. split; [reflexivity|]. split; [reflexivity|]. split; [lia|].
    intros ps' pending' PR PW. unfold mu at 1. rewrite (worse_count_perm _ _ _ PR). change (mu (key best :: rkeys ps) (wkeys ps' pending') < mu (rkeys ps) (wkeys ps pending))%nat.
    now apply mu_spawn.
  - pose proof (scan_running_ok ps ps [] (Segment_empty junk) None [] eq_refl (q_slots _ _ HQ) (conj eq_refl eq_refl)) as HS. cbn [length app] in HS.
    destruct (scan_running ps 0 (Segment_empty junk) None) as [worst [i|]].
    2:{ exfalso. destruct HS as [_ HS]. apply map_eq_nil in HS. unfold count_running in Hge. fold (running ps) in Hge. rewrite HS in Hge. cbn [length] in Hge. lia. }
    destruct HS as ((p & Hp & Hpa & <-) & Hw & HR). rewrite (IsWorseThan_key _ _ Hw Hok).
    assert (HR' : forall v, In v (rkeys ps) -> v <= key (sl_seg p)).
    { intros v Hv. unfold rkeys in Hv. apply in_map_iff in Hv as (q & <- & Hq). rewrite Forall_map in HR. rewrite Forall_forall in HR. exact (HR q Hq). }
    destruct (Z.ltb_spec (key best) (key (sl_seg p))) as [Hbw|Hbw].
    + destruct (nth_error_split ps i Hp) as (l1 & l2 & -> & <-). rewrite update_slot_mid. destruct (flip_running l1 l2 p true Hpa) as [HRp HWp].
      assert (Ec : count_running (l1 ++ p :: l2) = count_running (l1 ++ set_paused true p :: l2) + 1).
      { rewrite !count_running_keys, (Permutation_length HRp). cbn [length]. lia. }
      eexists. split; [reflexivity|]. destruct HQ as [H1 H2 H3]. split; [split; [now apply slots_flip|exact H2|exact H3]|].
      split; [now apply found_other|]. split; [apply segments_flip|]. split; [exact Ec|]. split; [exact Hle|].
      intros ps' pending' PR PW. rewrite (HWp pending) in PW.
      assert (Hin : In (key best) (wkeys (l1 ++ p :: l2) pending)).
      { assert (Hin : In (key best) (key (sl_seg p) :: wkeys (l1 ++ p :: l2) pending)) by (apply (Permutation_in _ (Permutation_sym PW)); now left).
        destruct Hin as [E|Hin]; [lia|exact Hin]. }
      apply in_split in Hin as (w1 & w2 & EW). assert (PW0 : Permutation (wkeys (l1 ++ p :: l2) pending) (key best :: (w1 ++ w2))) by (rewrite EW; symmetry; apply Permutation_middle).
      assert (PW' : Permutation (wkeys ps' pending') (key (sl_seg p) :: (w1 ++ w2))).
      { apply (Permutation_cons_inv (a := key best)). rewrite <- PW, PW0. apply perm_swap. }
      eapply Nat.le_lt_trans; [|exact (mu_swap _ _ _ _ _ _ PW0 HRp Hall HR' Hbw)].
      unfold mu. rewrite (worse_count_perm _ _ _ PR), (Permutation_length PW'). apply Nat.add_le_mono_r. apply worse_count_le.
      intros r w _ Hin2 Hlt2. exists w. split; [|exact Hlt2]. now apply (Permutation_in _ PW').
    + exists None. split; [reflexivity|]. split; [exact Hle|]. right. split; [lia|]. intros r w Hr Hw2. specialize (Hall w Hw2). specialize (HR' r Hr). lia.
Qed.

Lemma schedule_ok junk max_threads : 1 <= max_threads -> forall fuel ps pending, queues_ok ps pending ->
  count_running ps <= max_threads -> (mu (rkeys ps) (wkeys ps pending) <= fuel)%nat ->
  exists ps' pending', schedule fuel junk max_threads (count_running ps) ps pending = Ok (ps', pending') /\ queues_ok ps' pending' /\
    Permutation (all_segments ps' pending') (all_segments ps pending) /\ shrunk pending' pending /\ scheduled max_threads ps' pending'.
Proof.
  intros Hmax. induction fuel as [|fuel IH]; intros ps pending HQ Hle Hmu; cbn [schedule];
    destruct (pick_ok junk max_threads ps pending Hmax HQ Hle) as (r & -> & Hr); cbn [bind]; destruct r as [[[[ps1 active] best] pl]|].
  1, 3: destruct Hr as (HQ1 & Hf & Em & Ea & Hle' & Hdec).
  3, 4: exists ps, pending; split; [reflexivity|]; split; [exact HQ|]; split; [reflexivity|]; split; [apply shrunk_refl|exact Hr].
  all: pose proof (spawn_ok ps1 pending best pl HQ1 Hf) as HS; destruct (spawn ps1 pending best pl) as [ps2 pending2];
    destruct HS as (HQ2 & HR2 & HW2 & HA2 & HL2); specialize (Hdec ps2 pending2 HR2 HW2).
  - exfalso. lia.
  - assert (Ea2 : active = count_running ps2).
    { rewrite Ea, !count_running_keys, (Permutation_length HR2). cbn [length]. lia. } rewrite Ea2 in *.
    destruct (IH ps2 pending2 HQ2 ltac:(lia) ltac:(lia)) as (ps' & pending' & E & HQ' & HA' & HL' & HSch).
    exists ps', pending'. split; [exact E|]. split; [exact HQ'|]. split; [|split; [now apply (shrunk_trans _ pending2)|exact HSch]].
    rewrite HA', HA2. unfold all_segments. now rewrite Em.
Qed.

(** ** The invariant of the event loop *)

(** A segment of bucket [i]. *)
Definition bucket_seg (i : nat) (s : Segment) : Prop :=
  is_empty s = false /\ length_ s = segment_size i /\ (segment_size i | start s) /\ 0 <= start s < 2 ^ 34.

Lemma segment_size_pos i : 2 ^ 16 <= segment_size i.
Proof. apply Z.pow_le_mono_r; lia. Qed.

Lemma bucket_seg_ok i s : bucket_seg i s -> seg_ok s.
Proof. intros (H1 & _ & _ & H2). split; [exact H1|]. lia. Qed.

Lemma bucket_index i s : (i < 24)%nat -> bucket_seg i s -> GetSegmentBucket s = Ok (Z.of_nat i).
Proof.
  intros Hi (_ & El & _). unfold GetSegmentBucket, segment_size in *. rewrite El, shiftr_pow2 by lia.
  replace (16 + 2 * Z.of_nat i - 16) with (2 * Z.of_nat i) by lia. rewrite bucket_loop_pow4 by lia. f_equal.
Qed.

(** A queue of bucket [i], up to the iteration [last]. *)
Definition queue_ok (i : nat) (last : Z) (l : list Segment) : Prop :=
  sorted l /\ Forall (fun s => bucket_seg i s /\ start s + segment_size i <= last) l.

(** What is stored at a position is the segment of that position. *)
Definition table_ok (done : list (list Segment)) : Prop :=
  forall i p s, nth_error (nth i done []) p = Some s -> is_empty s = false -> bucket_seg i s /\ start s = Z.of_nat p * segment_size i.

Record manager_ok (m : manager) : Prop := {
  mo_count : (1 <= segment_count m <= 15)%nat;
  mo_threads : 1 <= max_proving_threads m;
  mo_pending_length : length (pending_segments m) = segment_count m;
  mo_last_length : length (last_appended m) = segment_count m;
  mo_done_length : length (done_segments m) = segment_count m;
  mo_slots : Forall (fun p => exists i, (i < segment_count m)%nat /\ bucket_seg i (sl_seg p)) (provers m);
  mo_queues : forall i, (i < segment_count m)%nat -> queue_ok i (nth i (last_appended m) 0) (nth i (pending_segments m) []);
  mo_last : forall i, (i < segment_count m)%nat -> (segment_size i | nth i (last_appended m) 0) /\ 0 <= nth i (last_appended m) 0 < 2 ^ 34;
  mo_running : count_running (provers m) <= max_proving_threads m;
  mo_done : table_ok (done_segments m);
}.

(** *** Storing finished segments *)

Lemma nth_error_update {A} (l : list A) i x j : (i < length l)%nat -> nth_error (update l i x) j = if Nat.eqb j i then Some x else nth_error l j.
Proof.
  revert i j. induction l as [|y l IH]; intros i j Hi; cbn [length] in Hi; [lia|]. destruct i as [|i], j as [|j]; cbn [update nth_error Nat.eqb]; try reflexivity.
  apply IH. lia.
Qed.

Lemma nth_update_list {A} (l : list (list A)) i x j : (i < length l)%nat -> nth j (update l i x) [] = if Nat.eqb j i then x else nth j l [].
Proof.
  intros Hi. pose proof (nth_error_update l i x j Hi) as H. destruct (Nat.eqb j i); [now apply nth_error_nth|].
  destruct (nth_error l j) as [y|] eqn:E; [rewrite (nth_error_nth _ _ _ E); now apply nth_error_nth|].
  apply nth_error_None in E. apply nth_error_None in H. now rewrite !nth_overflow.
Qed.

Lemma nth_error_store junk l position s j : nth_error (store_segment junk l position s) j =
  if Nat.eqb j position then Some s
  else if (j <? length l)%nat then nth_error l j else if (j <=? position)%nat then Some (Segment_empty junk) else None.
Proof.
  unfold store_segment. rewrite nth_error_update by (rewrite length_app, repeat_length; lia). destruct (Nat.eqb_spec j position); [reflexivity|].
  destruct (Nat.ltb_spec j (length l)); [now apply nth_error_app1|]. rewrite nth_error_app2 by lia. destruct (Nat.leb_spec j position).
  - apply nth_error_repeat. lia.
  - apply nth_error_None. rewrite repeat_length. lia.
Qed.

(** A position holds a finished segment. *)
Definition is_done (done : list (list Segment)) (i p : nat) : Prop := exists s, nth_error (nth i done []) p = Some s /\ is_empty s = false.

Lemma store_ok junk done i s p : (i < length done)%nat -> bucket_seg i s -> start s = Z.of_nat p * segment_size i -> table_ok done ->
  let done' := update done i (store_segment junk (nth i done []) p s) in
  table_ok done' /\ is_done done' i p /\ forall i' p', is_done done i' p' -> is_done done' i' p'.
Proof.
  intros Hi Hs Hp HT done'. assert (E : forall j q, nth_error (nth j done' []) q =
    if Nat.eqb j i then nth_error (store_segment junk (nth i done []) p s) q else nth_error (nth j done []) q).
  { intros j q. unfold done'. rewrite nth_update_list by exact Hi. now destruct (Nat.eqb j i). }
  assert (Es : is_empty s = false) by apply Hs. split; [|split].
  - intros j q t. rewrite E. destruct (Nat.eqb_spec j i) as [->|]; [|apply HT]. rewrite nth_error_store. destruct (Nat.eqb_spec q p) as [->|].
    + intros [= <-] _. now split.
    + destruct (_ <? _)%nat; [apply HT|]. destruct (_ <=? _)%nat; [intros [= <-]; discriminate|discriminate].
  - exists s. rewrite E, Nat.eqb_refl, nth_error_store, Nat.eqb_refl. now split.
  - intros j q (t & Ht & Et). unfold is_done. setoid_rewrite E. destruct (Nat.eqb_spec j i) as [->|]; [|now exists t]. setoid_rewrite nth_error_store.
    destruct (Nat.eqb_spec q p) as [->|]; [now exists s|]. assert (Hq : (q < length (nth i done []))%nat) by (apply nth_error_Some; congruence).
    apply Nat.ltb_lt in Hq. rewrite Hq. now exists t.
Qed.

Lemma count_running_cons p ps : count_running (p :: ps) = (if sl_paused p then 0 else 1) + count_running ps.
Proof. unfold count_running. cbn [filter]. destruct (sl_paused p); cbn [negb length]; lia. Qed.

Lemma collect_ok junk n ps : (n <= 24)%nat -> forall done small, Forall (fun p => exists i, (i < n)%nat /\ bucket_seg i (sl_seg p)) ps -> length done = n -> table_ok done ->
  exists ps' done' small', collect junk ps done small = Ok (ps', done', small') /\ length done' = n /\ table_ok done' /\
    Forall (fun p => exists i, (i < n)%nat /\ bucket_seg i (sl_seg p)) ps' /\ count_running ps' <= count_running ps /\
    (forall i p, is_done done i p -> is_done done' i p) /\
    (forall p, In p ps -> sl_finished p = true -> exists i q, (i < n)%nat /\ bucket_seg i (sl_seg p) /\ start (sl_seg p) = Z.of_nat q * segment_size i /\ is_done done' i q) /\
    (forall p, In p ps' -> sl_fully p && sl_finished p = false).
Proof.
  intros Hn. induction ps as [|p ps IH]; intros done small Hps Hlen HT; cbn [collect].
  { exists [], done, small. do 5 (split; [reflexivity || assumption || constructor|]). split; [easy|]. split; easy. }
  pose proof (Forall_inv Hps) as (i & Hi & Hb). apply Forall_inv_tail in Hps. destruct (sl_finished p) eqn:Ef.
  - set (s := with_proof (sl_seg p) (sl_proof p)). assert (Hs : bucket_seg i s) by exact Hb. rewrite (bucket_index i s ltac:(lia) Hs). cbn [bind].
    pose proof Hb as (_ & El & [j Ej] & Hst). pose proof (segment_size_pos i) as Hpos. change (length_ s) with (length_ (sl_seg p)). change (start s) with (start (sl_seg p)). rewrite El.
    destruct (Z.eqb_spec (segment_size i) 0); [lia|]. cbn [negb]. rewrite Nat2Z.id, (nth_error_nth' done []) by lia.
    assert (Hq : Z.quot (start (sl_seg p)) (segment_size i) = j) by (rewrite Ej; apply Z.quot_mul; lia). rewrite Hq.
    assert (Hj : 0 <= j) by nia. destruct (store_ok junk done i s (Z.to_nat j) ltac:(lia) Hs ltac:(rewrite Z2Nat.id by exact Hj; exact Ej) HT) as (HT' & Hd & Hmono).
    destruct (IH (update done i (store_segment junk (nth i done []) (Z.to_nat j) s)) (small || (segment_size i =? 2 ^ 16)) Hps ltac:(now rewrite length_update) HT')
      as (ps' & done' & small' & -> & L' & HT2 & HS' & Hc & Hm2 & Hf2 & Hfull). cbn [bind].
    eexists. exists done', small'. split; [reflexivity|]. cbn [sl_fully]. split; [exact L'|]. split; [exact HT2|]. rewrite count_running_cons.
    split; [destruct (sl_fully p); [exact HS'|constructor; [now exists i|exact HS']]|].
    split; [destruct (sl_fully p); rewrite ?count_running_cons; cbn [sl_paused]; destruct (sl_paused p); lia|].
    split; [intros; now apply Hm2, Hmono|]. split.
    + intros p' [<-|Hin] Hf; [|now apply Hf2]. exists i, (Z.to_nat j). rewrite Z2Nat.id by exact Hj. split; [exact Hi|]. split; [exact Hb|]. split; [exact Ej|now apply Hm2].
    + destruct (sl_fully p) eqn:Efu; [exact Hfull|]. intros p' [<-|Hin]; [reflexivity|now apply Hfull].
  - destruct (IH done small Hps Hlen HT) as (ps' & done' & small' & -> & L' & HT2 & HS' & Hc & Hm2 & Hf2 & Hfull). cbn [bind].
    exists (p :: ps'), done', small'. split; [reflexivity|]. split; [exact L'|]. split; [exact HT2|]. rewrite !count_running_cons.
    split; [constructor; [now exists i|exact HS']|]. split; [lia|]. split; [exact Hm2|]. split.
    + intros p' [<-|Hin] Hf; [congruence|now apply Hf2].
    + intros p' [<-|Hin]; [rewrite Ef; apply Bool.andb_false_r|now apply Hfull].
Qed.

(** *** Queueing new segments *)

Section Append.
Variable checkpoints : array.
Variable inter : Z.
Hypothesis Hinter : 0 <= inter < 2 ^ 34.

(** The ends of a new segment are the checkpoints of its iterations. *)
Definition from_checkpoints (i : nat) (s : Segment) : Prop :=
  seg_x s = checkpoints (start s / 2 ^ 16) /\ seg_y s = checkpoints ((start s + segment_size i) / 2 ^ 16).

Lemma sorted_snoc i last l s : sorted l -> Forall (fun t => bucket_seg i t /\ start t + segment_size i <= last) l ->
  length_ s = segment_size i -> start s = last -> sorted (l ++ [s]).
Proof.
  intros Hs Hl El Es. induction l as [|t l IH]; cbn [app]; [constructor; constructor|]. inversion Hs as [|? ? Hs' Ht]; subst.
  pose proof (Forall_inv Hl) as [(_ & Et & _) Hst]. apply Forall_inv_tail in Hl. constructor; [now apply IH|]. apply Forall_app. split; [exact Ht|].
  constructor; [|constructor]. unfold key. rewrite El, Et. pose proof (segment_size_pos i). lia.
Qed.

Definition bucket_ok (i : nat) (last : Z) (l : list Segment) : Prop := queue_ok i last l /\ (segment_size i | last) /\ 0 <= last < 2 ^ 34.

Lemma append_bucket_ok i fuel : forall last l, bucket_ok i last l -> inter < last + (Z.of_nat fuel + 1) * segment_size i ->
  exists new last', append_bucket fuel checkpoints (segment_size i) inter last l = Ok (l ++ new, last') /\
    bucket_ok i last' (l ++ new) /\ Forall (from_checkpoints i) new /\ inter < last' + segment_size i.
Proof.
  pose proof (segment_size_pos i) as Hpos. induction fuel as [|fuel IH]; intros last l ([Hs Hl] & Hd & Hlast) Hf; cbn [append_bucket].
  - destruct (Z.leb_spec (last + segment_size i) inter); [lia|]. exists [], last. rewrite app_nil_r. repeat split; try assumption; try constructor; lia.
  - destruct (Z.leb_spec (last + segment_size i) inter) as [Hle|Hgt].
    2:{ exists [], last. rewrite app_nil_r. repeat split; try assumption; try constructor; lia. }
    unfold checkpoint_at. rewrite !Z.quot_div_nonneg by lia.
    assert (H1 : last / 2 ^ 16 < 2 ^ 18) by (apply Z.div_lt_upper_bound; lia). assert (H2 : (last + segment_size i) / 2 ^ 16 < 2 ^ 18) by (apply Z.div_lt_upper_bound; lia).
    apply Z.ltb_lt in H1, H2. rewrite H1, H2. cbn [bind]. set (sg := Segment_make last (segment_size i) _ _).
    destruct (IH (last + segment_size i) (l ++ [sg])) as (new & last' & E & HB & HC & Hend); [|lia|].
    + split; [split|].
      * apply (sorted_snoc i last); try assumption; reflexivity.
      * apply Forall_app. split; [eapply Forall_impl; [|exact Hl]; cbv beta; intros t [Ht Hle2]; split; [exact Ht|lia]|].
        constructor; [|constructor]. split; [split; [reflexivity|split; [reflexivity|split; [exact Hd|exact Hlast]]]|cbn [sg start Segment_make]; lia].
      * split; [apply Z.divide_add_r; [exact Hd|apply Z.divide_refl]|lia].
    + exists (sg :: new), last'. rewrite <- app_assoc in E, HB. cbn [app] in E, HB. split; [exact E|]. split; [exact HB|]. split; [|exact Hend].
      constructor; [split; reflexivity|exact HC].
Qed.

Lemma append_new_ok pending : forall i lasts, length lasts = length pending ->
  (forall k, (k < length pending)%nat -> bucket_ok (i + k) (nth k lasts 0) (nth k pending [])) ->
  exists pending' lasts', append_new checkpoints inter i pending lasts = Ok (pending', lasts') /\ length pending' = length pending /\ length lasts' = length pending /\
    forall k, (k < length pending)%nat -> bucket_ok (i + k) (nth k lasts' 0) (nth k pending' []) /\ inter < nth k lasts' 0 + segment_size (i + k) /\
      exists new, nth k pending' [] = nth k pending [] ++ new /\ Forall (from_checkpoints (i + k)) new.
Proof.
  induction pending as [|p pending IH]; intros i lasts Hlen H; cbn [append_new length].
  - exists [], []. do 3 (split; [reflexivity|]). intros k Hk. cbn [length] in Hk. lia.
  - destruct lasts as [|last lasts]; [discriminate|]. cbn [length] in Hlen, H. injection Hlen as Hlen.
    pose proof (H O ltac:(lia)) as H0. cbn [nth] in H0. rewrite Nat.add_0_r in H0. pose proof (segment_size_pos i) as Hpos.
    destruct (append_bucket_ok i (Z.to_nat (Z.quot inter (segment_size i))) last p H0) as (new & last' & -> & HB & HC & Hend).
    { rewrite Z.quot_div_nonneg, Z2Nat.id by (try lia; apply Z.div_pos; lia). destruct H0 as (_ & _ & Hlast).
      pose proof (Z.mul_succ_div_gt inter (segment_size i) ltac:(lia)). lia. }
    cbn [bind]. destruct (IH (S i) lasts Hlen) as (pending' & lasts' & -> & L1 & L2 & Hk).
    { intros k Hk. specialize (H (S k) ltac:(lia)). cbn [nth] in H. now rewrite Nat.add_succ_r in H. }
    cbn [bind]. exists ((p ++ new) :: pending'), (last' :: lasts'). split; [reflexivity|]. cbn [length]. split; [now rewrite L1|]. split; [now rewrite L2|].
    intros [|k] Hlt; cbn [nth].
    + rewrite Nat.add_0_r. split; [exact HB|]. split; [exact Hend|]. now exists new.
    + rewrite Nat.add_succ_r. apply Hk. lia.
Qed.
End Append.

(** *** A turn of the event loop *)

Lemma shrunk_bucket i last l l' n : queue_ok i last l -> l' = skipn n l -> queue_ok i last l'.
Proof.
  intros [Hs Hl] ->. split.
  - revert l Hs Hl. induction n as [|n IH]; intros l Hs Hl; [exact Hs|]. destruct l as [|t l]; [constructor|]. cbn [skipn]. inversion Hs; subst.
    apply IH; [assumption|]. now apply Forall_inv_tail in Hl.
  - apply Forall_forall. intros t Ht. rewrite Forall_forall in Hl. apply Hl. rewrite <- (firstn_skipn n l). apply in_or_app. now right.
Qed.

Lemma shrunk_nth q' q i : shrunk q' q -> exists n, nth i q' [] = skipn n (nth i q []).
Proof.
  intros H. revert i. induction H as [|l' l q' q [n ->] _ IH]; intros i; [exists O; now destruct i|]. destruct i as [|i]; cbn [nth]; [now exists n|apply IH].
Qed.

Lemma event_turn_runs junk multi checkpoints published finished m : manager_ok m -> 0 <= published < 2 ^ 34 ->
  match finished with Some it => 0 <= it < 2 ^ 34 | None => True end ->
  let inter := match finished with Some it => it | None => published end in
  exists m' notify, event_turn junk multi checkpoints published finished m = Ok (m', notify) /\ manager_ok m' /\
    scheduled (max_proving_threads m') (provers m') (pending_segments m') /\
    (forall p, In p (provers m) -> sl_finished p = true -> exists i q, bucket_seg i (sl_seg p) /\ start (sl_seg p) = Z.of_nat q * segment_size i /\ is_done (done_segments m') i q) /\
    (forall i p, is_done (done_segments m) i p -> is_done (done_segments m') i p) /\
    (forall i, (i < segment_count m)%nat -> inter < nth i (last_appended m') 0 + segment_size i).
Proof.
  intros [M1 M2 M3 M4 M5 M6 M7 M8 M9 M10] Hp Hfin inter. assert (Hinter : 0 <= inter < 2 ^ 34) by (unfold inter; destruct finished; lia).
  unfold event_turn. set (more := _ && _ && _). set (threads := if more then _ else _). assert (Hth : max_proving_threads m <= threads) by (unfold threads; destruct more; lia).
  destruct (collect_ok junk (segment_count m) (provers m) ltac:(lia) (done_segments m) false M6 M5 M10) as (ps1 & done1 & small & -> & L1 & T1 & S1 & C1 & Mono & Fin & _).
  cbn [bind]. fold inter.
  destruct (append_new_ok checkpoints inter Hinter (pending_segments m) O (last_appended m) ltac:(lia)) as (pend1 & lasts1 & -> & L2 & L3 & HA).
  { intros k Hk. rewrite M3 in Hk. split; [now apply M7|now apply M8]. }
  cbn [bind]. assert (HQ : queues_ok ps1 pend1).
  { split.
    - eapply Forall_impl; [|exact S1]. cbv beta. intros p (i & _ & Hb). now apply (bucket_seg_ok i).
    - apply Forall_forall. intros l Hl. apply (In_nth _ _ []) in Hl as (k & Hk & <-). rewrite L2 in Hk. destruct (HA k Hk) as (([_ Hall] & _) & _).
      eapply Forall_impl; [|exact Hall]. cbv beta. intros s [Hb _]. now apply (bucket_seg_ok (0 + k)).
    - apply Forall_forall. intros l Hl. apply (In_nth _ _ []) in Hl as (k & Hk & <-). rewrite L2 in Hk. destruct (HA k Hk) as (([Hsort _] & _) & _). exact Hsort. }
  destruct (schedule_ok junk threads ltac:(lia) (schedule_fuel ps1 pend1) ps1 pend1 HQ ltac:(lia)) as (ps2 & pend2 & -> & HQ2 & HP & HSh & HSch).
  { eapply Nat.le_trans; [apply mu_le|]. unfold schedule_fuel, rkeys, wkeys. rewrite length_app, !length_map.
    pose proof (filter_length (fun p => negb (sl_paused p)) ps1) as HL. unfold running, paused.
    assert (EL : length (filter (fun p => negb (negb (sl_paused p))) ps1) = length (filter sl_paused ps1)) by (f_equal; apply filter_ext; intros; apply Bool.negb_involutive). lia. }
  cbn [bind]. eexists. eexists. split; [reflexivity|].
  cbn [segment_count max_proving_threads provers pending_segments last_appended done_segments pending_iters pending_iters_last_sg].
  split; [split; cbn [segment_count max_proving_threads provers pending_segments last_appended done_segments]|].
  - exact M1.
  - lia.
  - rewrite (Forall2_length HSh). congruence.
  - congruence.
  - exact L1.
  - apply Forall_forall. intros p Hin. assert (Hin2 : In (sl_seg p) (all_segments ps1 pend1)).
    { apply (Permutation_in _ HP). apply in_or_app. left. now apply in_map. }
    apply in_app_or in Hin2 as [Hin2|Hin2].
    + apply in_map_iff in Hin2 as (p0 & <- & Hin0). rewrite Forall_forall in S1. now apply S1.
    + apply in_concat in Hin2 as (l & Hl & Hin2). apply (In_nth _ _ []) in Hl as (k & Hk & <-). rewrite L2, M3 in Hk. exists k. split; [exact Hk|].
      destruct (HA k ltac:(lia)) as (([_ Hall] & _) & _). rewrite Forall_forall in Hall. now apply Hall.
  - intros i Hi. destruct (shrunk_nth _ _ i HSh) as (k & Ek). destruct (HA i ltac:(lia)) as ((HQi & _) & _). exact (shrunk_bucket i _ _ _ k HQi Ek).
  - intros i Hi. destruct (HA i ltac:(lia)) as ((_ & Hd & Hr) & _). now split.
  - apply HSch.
  - exact T1.
  - split; [exact HSch|]. split; [|split].
    + intros p Hin Hf. destruct (Fin p Hin Hf) as (i & q & _ & Hb & Eq & Hd). now exists i, q.
    + exact Mono.
    + intros i Hi. destruct (HA i ltac:(lia)) as (_ & Hend & _). exact Hend.
Qed.

(** ** The manager as a transition system *)

(** A prover thread runs on: its segment stays, and only the event loop pauses it. *)
Definition runs_on (p q : slot) : Prop := sl_seg q = sl_seg p /\ sl_paused q = sl_paused p.

Definition set_provers (ps : list slot) (m : manager) : manager :=
  mkmanager (segment_count m) (max_proving_threads m) ps (pending_segments m) (last_appended m) (done_segments m)
    (pending_iters m) (pending_iters_last_sg m) (max_proving_iteration m) (vdf_iteration m) (intermediates_iter m) (increased_proving m).

(** The states that the event loop, its provers and the callers of [Prove] lead to. *)
Inductive reachable (junk : Z * Z) (multi : bool) (checkpoints : array) (n : nat) (threads : Z) : manager -> Prop :=
| reach_make junk_iter : reachable junk multi checkpoints n threads (ProverManager_make n threads junk_iter)
| reach_pending iteration m : reachable junk multi checkpoints n threads m -> reachable junk multi checkpoints n threads (insert_pending iteration m)
| reach_last iteration m : reachable junk multi checkpoints n threads m -> reachable junk multi checkpoints n threads (insert_last_segment iteration m)
| reach_erase_last iteration m : reachable junk multi checkpoints n threads m -> reachable junk multi checkpoints n threads (erase_last_segment iteration m)
| reach_erase iteration m : reachable junk multi checkpoints n threads m -> reachable junk multi checkpoints n threads (erase_pending iteration m)
| reach_provers ps m : reachable junk multi checkpoints n threads m -> Forall2 runs_on (provers m) ps -> reachable junk multi checkpoints n threads (set_provers ps m)
| reach_turn published finished m m' notify : reachable junk multi checkpoints n threads m -> 0 <= published < 2 ^ 34 ->
    match finished with Some it => 0 <= it < 2 ^ 34 | None => True end ->
    event_turn junk multi checkpoints published finished m = Ok (m', notify) -> reachable junk multi checkpoints n threads m'.

Lemma nth_repeat_any {A} (x : A) n i : nth i (repeat x n) x = x.
Proof. revert i. induction n as [|n IH]; intros [|i]; cbn [repeat nth]; auto. Qed.

Lemma manager_make_ok n threads junk_iter : (1 <= n <= 15)%nat -> 1 <= threads -> manager_ok (ProverManager_make n threads junk_iter).
Proof.
  intros Hn Ht. split; cbn [ProverManager_make segment_count max_proving_threads provers pending_segments last_appended done_segments]; try assumption; try (now rewrite repeat_length).
  - constructor.
  - intros i _. rewrite !nth_repeat_any. split; constructor.
  - intros i _. rewrite nth_repeat_any. split; [apply Z.divide_0_r|lia].
  - cbn. lia.
  - intros i p s E. rewrite nth_repeat_any in E. now destruct p.
Qed.

Lemma runs_on_count ps qs : Forall2 runs_on ps qs -> count_running qs = count_running ps.
Proof. induction 1 as [|p q ps qs [_ E] _ IH]; [reflexivity|]. now rewrite !count_running_cons, E, IH. Qed.

Lemma reachable_ok junk multi checkpoints n threads m : (1 <= n <= 15)%nat -> 1 <= threads ->
  reachable junk multi checkpoints n threads m -> manager_ok m.
Proof.
  intros Hn Ht. induction 1 as [junk_iter|it m _ IH|it m _ IH|it m _ IH|it m _ IH|ps m _ IH HF|published finished m m' notify _ IH Hp Hf E].
  - now apply manager_make_ok.
  - destruct IH. now split.
  - destruct IH. now split.
  - destruct IH. now split.
  - destruct IH. now split.
  - destruct IH as [M1 M2 M3 M4 M5 M6 M7 M8 M9 M10]. split; try assumption; cbn [set_provers provers max_proving_threads segment_count].
    + clear - M6 HF. induction HF as [|p q ps qs [E _] _ IH]; [constructor|]. inversion M6 as [|? ? H6 M6']; subst. constructor; [now rewrite E|now apply IH].
    + now rewrite (runs_on_count _ _ HF).
  - destruct (event_turn_runs junk multi checkpoints published finished m IH Hp Hf) as (m1 & notify1 & E1 & H & _). rewrite E1 in E. now injection E as <- _.
Qed.

(** C9: the event loop of [ProverManager] keeps its state sound and schedules
    the best segments. In every state that turns of the loop, the provers'
    progress and callers of [Prove] lead to, for 1 to 15 buckets, at least one
    thread and less than 2^34 iterations, a turn of the loop ends without an
    access out of range. Then: the invariant holds (queues are sorted and hold
    segments of their bucket, [done_segments] holds segments at their position,
    at most [max_proving_threads] provers run); no waiting segment is better than
    a running one, and none waits while a thread is free; every prover that had
    finished has its segment stored and none is lost; and every full
    segment up to the iteration reached has been queued. *)
Theorem event_loop_invariant junk multi checkpoints n threads m published finished : (1 <= n <= 15)%nat -> 1 <= threads ->
  reachable junk multi checkpoints n threads m -> 0 <= published < 2 ^ 34 -> match finished with Some it => 0 <= it < 2 ^ 34 | None => True end ->
  manager_ok m /\
  let inter := match finished with Some it => it | None => published end in
  exists m' notify, event_turn junk multi checkpoints published finished m = Ok (m', notify) /\ manager_ok m' /\
    scheduled (max_proving_threads m') (provers m') (pending_segments m') /\
    (forall p, In p (provers m) -> sl_finished p = true -> exists i q, bucket_seg i (sl_seg p) /\ start (sl_seg p) = Z.of_nat q * segment_size i /\ is_done (done_segments m') i q) /\
    (forall i p, is_done (done_segments m) i p -> is_done (done_segments m') i p) /\
    (forall i, (i < segment_count m)%nat -> inter < nth i (last_appended m') 0 + segment_size i).
Proof.
  intros Hn Ht Hr Hp Hf. pose proof (reachable_ok junk multi checkpoints n threads m Hn Ht Hr) as Hm.
  split; [exact Hm|]. exact (event_turn_runs junk multi checkpoints published finished m Hm Hp Hf).
Qed.

(** ** Witnesses *)

Lemma event_loop_invariant_witness :
  let m := insert_pending (2 ^ 18) (ProverManager_make 2 3 0) in
  manager_ok m /\
  exists m' notify, event_turn (0, 0) false (fun _ => mkform 2 1 6) (2 ^ 19) None m = Ok (m', notify) /\ manager_ok m' /\
    scheduled (max_proving_threads m') (provers m') (pending_segments m') /\
    (forall p, In p (provers m) -> sl_finished p = true -> exists i q, bucket_seg i (sl_seg p) /\ start (sl_seg p) = Z.of_nat q * segment_size i /\ is_done (done_segments m') i q) /\
    (forall i p, is_done (done_segments m) i p -> is_done (done_segments m') i p) /\
    (forall i, (i < segment_count m)%nat -> 2 ^ 19 < nth i (last_appended m') 0 + segment_size i).
Proof.
  exact (event_loop_invariant (0, 0) false (fun _ => mkform 2 1 6) 2 3 (insert_pending (2 ^ 18) (ProverManager_make 2 3 0)) (2 ^ 19) None
    ltac:(lia) ltac:(lia) (reach_pending _ _ _ _ _ _ _ (reach_make _ _ _ _ _ 0)) ltac:(lia) Logic.I).
Defined.
