(* ===== verification/Prove.v ===== *)
(** [src/src/vdf.h], fourth part: [ProverManager::Prove], which waits for the
    segments up to an iteration, recomputes what follows the last checkpoint and
    puts the bytes of an n-Wesolowski proof together. *)
From S2P Require Import Prelude Words NumTheory Gmp QuadForm FormClass Integer Forms Nucomp Bqfc PrimeTest HashPrime ProofCommon Powers Verifier Steps Segments Prover Callback Provers Vdf Proving Manager.

(** ** Choosing the segments *)

(** The inner [while], from the current position of the bucket on. *)
Fixpoint gather_bucket (l : list Segment) (size iteration proved blobs : Z) (acc : list Segment) : list Segment * Z * Z :=
  match l with
  | [] => (acc, proved, blobs)
  | s :: rest =>
      if proved + size <=? iteration then gather_bucket rest size iteration (proved + size) (blobs + 1) (acc ++ [s])
      else (acc, proved, blobs)
  end.

(** The buckets [n - 1, ..., 0]. *)
Fixpoint gather (n : nat) (done : list (list Segment)) (iteration proved blobs : Z) (acc : list Segment) : list Segment * Z * Z :=
  match n with
  | O => (acc, proved, blobs)
  | S i =>
      let '(acc, proved, blobs) := gather_bucket (skipn (Z.to_nat (Z.quot proved (segment_size i))) (nth i done [])) (segment_size i) iteration proved blobs acc in
      gather i done iteration proved blobs acc
  end.

(** The segments of a proof, or "Insufficient segments yet". *)
Definition attempt (n : nat) (done : list (list Segment)) (iteration : Z) : option (list Segment) :=
  let '(segs, proved, blobs) := gather n done iteration 0 0 [] in
  if (63 <? blobs) || (proved <? round_down iteration) then None else Some segs.

(** [stop_at] are the reads of [stopped] in [Prove] itself, [perform] those of the
    prover of the last segment, [table a] is [done_segments] at attempt [a]. *)
Record prove_env : Type := mkprove_env {
  prove_base : env;
  prove_perform : nat -> bool;
  prove_table : nat -> list (list Segment);
}.

(** [while (!valid_proof && !stopped)]: [None] when it returns the empty proof. A
    stop that is seen by the condition itself only ends the loop. *)
Fixpoint attempts (fuel : nat) (E : prove_env) (n a t : nat) (iteration : Z) : res (option (list Segment)) :=
  if stop_at (prove_base E) t then Ok (Some [])
  else if stop_at (prove_base E) (S t) then Ok None
  else
    match attempt n (prove_table E a) iteration with
    | Some segs => Ok (Some segs)
    | None => match fuel with O => Throw out_of_fuel | S fuel' => attempts fuel' E n (S a) (S (S t)) iteration end
    end.

Section WithGmp.
Context `{G : Gmp} `{R : FormReducer}.

(** ** The last segment *)

(** [if (i % 10 == 0) intermediates[i / 10] = y]; the array has [capacity]
    elements. *)
Definition keep (i capacity : Z) (y : form) (intermediates : array) : res array :=
  if Z.rem i 10 =? 0 then
    if Z.quot i 10 <? capacity then Ok (set_at intermediates (Z.quot i 10) y) else Throw undefined_behaviour
  else Ok intermediates.

(** The squarings from the checkpoint on, every tenth form kept. *)
Fixpoint recompute (n : nat) (i capacity : Z) (E : env) (D L : Z) (y : form) (intermediates : array) : res (option (form * array)) :=
  match n with
  | O => Ok (Some (y, intermediates))
  | S n' =>
      intermediates <- keep i capacity y intermediates ;;
      y <- nudupl_form y D L ;;
      y <- reducer_reduce y ;;
      if stop_at E (S (Z.to_nat i)) then Ok None else recompute n' (i + 1) capacity E D L y intermediates
  end.

(** The output, and the segment after the last checkpoint if there is one; [None]
    when it was stopped. *)
Definition last_part (ApproximateParameters : Z -> res (Z * Z)) (fuel : nat) (E : prove_env) (D : Z) (checkpoints : array) (iteration : Z)
  : res (option (form * option Segment)) :=
  let rest := Z.rem iteration (2 ^ 16) in
  x <- checkpoint_at checkpoints (Z.quot iteration (2 ^ 16)) ;;
  if negb (rest =? 0) then
    L <- root (- D) 4 ;;
    let capacity := Z.quot rest 10 + 100 in
    r <- recompute (Z.to_nat rest) 0 capacity (prove_base E) D L x (fun _ => form_zero) ;;
    match r with
    | None => Ok None
    | Some (y, intermediates) =>
        let sg := Segment_make (iteration - rest) rest x y in
        p <- OneWesolowskiProver ApproximateParameters sg D ;;
        p <- GenerateProof (One_GetForm intermediates capacity) (prove_perform E) set_finished fuel p ;;
        if stop_at (prove_base E) (S (Z.to_nat rest)) then Ok None else Ok (Some (y, Some (with_proof sg (GetProof p))))
    end
  else Ok (Some (x, None)).

(** ** The bytes *)

Fixpoint append_segments (fuel : nat) (D d_bits : Z) (l : list Segment) (acc : bytes) : res bytes :=
  match l with
  | [] => Ok acc
  | s :: rest =>
      ' (B, _, _) <- GetB fuel D (seg_x s) (seg_y s) ;;
      ' (proof, _) <- SerializeForm (seg_proof s) d_bits ;;
      append_segments fuel D d_bits rest (acc ++ Int64ToBytes (length_ s) ++ to_bytes B ++ proof)
  end.

Definition assemble (fuel : nat) (D : Z) (y : form) (segs : list Segment) : res Proof_t :=
  d_bits <- num_bits D ;;
  ' (y_serialized, _) <- SerializeForm y d_bits ;;
  match rev segs with
  | [] => Throw undefined_behaviour
  | last :: rest =>
      ' (proof, _) <- SerializeForm (seg_proof last) d_bits ;;
      proof <- append_segments fuel D d_bits rest proof ;;
      Ok (mkProof y_serialized proof (u8 (Z.of_nat (length segs) - 1)))
  end.

(** The first read is the one after the wait for the last checkpoint; the clock of
    the attempts starts after [last_part]'s. *)
Definition Prove (ApproximateParameters : Z -> res (Z * Z)) (fuel attempt_fuel : nat) (E : prove_env) (D : Z) (checkpoints : array) (segment_count : nat) (iteration : Z)
  : res Proof_t :=
  if stop_at (prove_base E) O then Ok (empty_proof (prove_base E))
  else
    r <- last_part ApproximateParameters fuel E D checkpoints iteration ;;
    match r with
    | None => Ok (empty_proof (prove_base E))
    | Some (y, last) =>
        r <- attempts attempt_fuel E segment_count O (2 ^ 16 + 1) iteration ;;
        match r with
        | None => Ok (empty_proof (prove_base E))
        | Some segs => assemble fuel D y (segs ++ match last with Some s => [s] | None => [] end)
        end
    end.
End WithGmp.

(** ** Chains of proved segments *)

Section Chains.
Context `{GL : GmpLaws} `{RL : FormReducerLaws}.
Variable D : Z.
Hypothesis HD : good_disc D.
Variable x0 : form.
Hypothesis Cx0 : class D x0.
Variable fuel : nat.

(** The segment's ends and proof are right. *)
Definition proved_seg (s : Segment) : Prop :=
  0 <= start s /\ 0 <= length_ s /\ pw D x0 (2 ^ start s) (seg_x s) /\ pw D x0 (2 ^ (start s + length_ s)) (seg_y s) /\
  exists B x' y', GetB fuel D (seg_x s) (seg_y s) = Ok (B, x', y') /\ pw D (seg_x s) (2 ^ length_ s / B) (seg_proof s).

(** The segments lead from iteration [a] to [b]. *)
Fixpoint chain (segs : list Segment) (a b : Z) : Prop :=
  match segs with
  | [] => a = b
  | s :: rest => start s = a /\ proved_seg s /\ chain rest (a + length_ s) b
  end.

Lemma chain_app l1 l2 a b c : chain l1 a b -> chain l2 b c -> chain (l1 ++ l2) a c.
Proof. revert a. induction l1 as [|s l1 IH]; intros a; cbn [chain app]; [now intros ->|]. intros (E & P & H) H2. split; [exact E|]. split; [exact P|now apply IH]. Qed.

(** A table without holes, whose segments are proved. *)
Definition proved_table (done : list (list Segment)) : Prop :=
  table_ok done /\ (forall i, Forall (fun s => is_empty s = false /\ proved_seg s) (nth i done [])).

Lemma gather_bucket_ok i iteration l : forall proved blobs acc,
  (forall k s, nth_error l k = Some s -> start s = proved + Z.of_nat k * segment_size i /\ length_ s = segment_size i /\ proved_seg s) ->
  chain acc 0 proved -> blobs = Z.of_nat (length acc) -> (segment_size i | proved) -> proved <= iteration ->
  let '(acc', proved', blobs') := gather_bucket l (segment_size i) iteration proved blobs acc in
  chain acc' 0 proved' /\ blobs' = Z.of_nat (length acc') /\ (segment_size i | proved') /\ proved <= proved' <= iteration.
Proof.
  induction l as [|s l IH]; intros proved blobs acc Hl Hc Hb Hd Hle; cbn [gather_bucket]; [repeat split; try assumption; lia|].
  destruct (Z.leb_spec (proved + segment_size i) iteration); [|repeat split; try assumption; lia]. pose proof (segment_size_pos i) as Hpos.
  destruct (Hl O s eq_refl) as (E & El & P). specialize (IH (proved + segment_size i) (blobs + 1) (acc ++ [s])).
  destruct (gather_bucket l (segment_size i) iteration (proved + segment_size i) (blobs + 1) (acc ++ [s])) as [[acc' proved'] blobs'].
  destruct IH as (H1 & H2 & H3 & H4); [| | |apply Z.divide_add_r; [exact Hd|apply Z.divide_refl]|assumption|].
  - intros k t Ht. destruct (Hl (S k) t Ht) as (Et & Elt & Pt). split; [lia|now split].
  - apply (chain_app acc [s] 0 proved); [exact Hc|]. cbn [chain]. split; [lia|]. split; [exact P|]. now rewrite El.
  - rewrite length_app. cbn [length]. lia.
  - repeat split; try assumption; lia.
Qed.

Lemma segment_size_divide i j : (i <= j)%nat -> (segment_size i | segment_size j).
Proof. intros H. exists (2 ^ (2 * Z.of_nat j - 2 * Z.of_nat i)). unfold segment_size. rewrite <- Z.pow_add_r by lia. f_equal. lia. Qed.

Lemma gather_ok done iteration n : proved_table done -> forall proved blobs acc,
  chain acc 0 proved -> blobs = Z.of_nat (length acc) -> 0 <= proved <= iteration -> (forall i, (i < n)%nat -> (segment_size i | proved)) ->
  (2 ^ 16 | proved) ->
  let '(acc', proved', blobs') := gather n done iteration proved blobs acc in
  chain acc' 0 proved' /\ blobs' = Z.of_nat (length acc') /\ (2 ^ 16 | proved') /\ proved <= proved' <= iteration.
Proof.
  intros [HT HN]. induction n as [|n IH]; intros proved blobs acc Hc Hb Hp Hd H16; cbn [gather]; [repeat split; try assumption; lia|].
  pose proof (segment_size_pos n) as Hpos. destruct (Hd n ltac:(lia)) as [j Ej]. assert (Hj : 0 <= j) by nia.
  assert (Hq : Z.quot proved (segment_size n) = j) by (rewrite Ej; apply Z.quot_mul; lia). rewrite Hq.
  pose proof (gather_bucket_ok n iteration (skipn (Z.to_nat j) (nth n done [])) proved blobs acc) as HG.
  destruct (gather_bucket (skipn (Z.to_nat j) (nth n done [])) (segment_size n) iteration proved blobs acc) as [[acc1 proved1] blobs1].
  destruct HG as (H1 & H2 & H3 & H4); try assumption; [|now exists j|lia|].
  - intros k s Hk. rewrite nth_error_skipn in Hk. specialize (HN n). rewrite Forall_forall in HN. destruct (HN s (nth_error_In _ _ Hk)) as [Hne Hps].
    destruct (HT n _ s Hk Hne) as ((_ & El & _) & Es). split; [rewrite Es, Ej; lia|]. now split.
  - specialize (IH proved1 blobs1 acc1 H1 H2 ltac:(lia)). destruct (gather n done iteration proved1 blobs1 acc1) as [[acc2 proved2] blobs2].
    destruct IH as (A & B & C & E).
    + intros i Hi. apply (Z.divide_trans _ (segment_size n)); [apply segment_size_divide; lia|exact H3].
    + apply (Z.divide_trans _ (segment_size n)); [exact (segment_size_divide 0 n ltac:(lia))|exact H3].
    + repeat split; try assumption; lia.
Qed.

Lemma attempt_ok n done iteration segs : proved_table done -> 0 <= iteration -> attempt n done iteration = Some segs ->
  chain segs 0 (round_down iteration) /\ (length segs <= 63)%nat.
Proof.
  intros HP Hit E. unfold attempt in E. pose proof (gather_ok done iteration n HP 0 0 [] eq_refl eq_refl ltac:(lia)) as HG.
  destruct (gather n done iteration 0 0 []) as [[acc proved] blobs].
  destruct HG as (H1 & H2 & [j Hj] & H4); [intros i _; apply Z.divide_0_r|apply Z.divide_0_r|].
  destruct (Z.ltb_spec 63 blobs); [discriminate|]. destruct (Z.ltb_spec proved (round_down iteration)) as [|Hge]; [discriminate|]. injection E as <-.
  split; [|lia]. replace (round_down iteration) with proved; [exact H1|]. unfold round_down in *. rewrite Z.rem_mod_nonneg in * by lia.
  clear - Hj H4 Hge. Z.div_mod_to_equations. lia.
Qed.

Lemma attempts_ok E n iteration a0 : undisturbed (prove_base E) -> (forall a, proved_table (prove_table E a)) -> 0 <= iteration ->
  attempt n (prove_table E a0) iteration <> None -> forall f a t, (a <= a0)%nat -> (a0 <= a + f)%nat ->
  exists segs, attempts f E n a t iteration = Ok (Some segs) /\ chain segs 0 (round_down iteration) /\ (length segs <= 63)%nat.
Proof.
  intros HU HP Hit Ha0. assert (Hgot : forall a segs, attempt n (prove_table E a) iteration = Some segs -> chain segs 0 (round_down iteration) /\ (length segs <= 63)%nat)
    by (intros a segs Es; now apply (attempt_ok n (prove_table E a))).
  induction f as [|f IH]; intros a t Hle Hf; cbn [attempts]; rewrite !HU; destruct (attempt n (prove_table E a) iteration) as [segs|] eqn:Ea.
  - exists segs. split; [reflexivity|now apply (Hgot a)].
  - exfalso. replace a with a0 in Ea by lia. contradiction.
  - exists segs. split; [reflexivity|now apply (Hgot a)].
  - destruct (Nat.eq_dec a a0) as [->|]; [contradiction|]. apply IH; lia.
Qed.

(** ** The last segment *)

Lemma keep_ok c i capacity y inter : 0 <= i -> i / 10 < capacity -> pw D x0 (2 ^ (c + i)) y ->
  (forall j, 0 <= j -> 10 * j < i -> pw D x0 (2 ^ (c + 10 * j)) (inter j)) ->
  exists inter', keep i capacity y inter = Ok inter' /\ forall j, 0 <= j -> 10 * j < i + 1 -> pw D x0 (2 ^ (c + 10 * j)) (inter' j).
Proof.
  intros Hi Hcap Py HI. unfold keep. rewrite Z.rem_mod_nonneg, Z.quot_div_nonneg by lia. destruct (Z.eqb_spec (i mod 10) 0) as [Em|Em].
  - destruct (Z.ltb_spec (i / 10) capacity); [|lia]. eexists. split; [reflexivity|]. intros j Hj Hlt. destruct (Z.eq_dec j (i / 10)) as [->|Hne].
    + rewrite set_at_eq. replace (10 * (i / 10)) with i by (Z.div_mod_to_equations; lia). exact Py.
    + rewrite set_at_neq by exact Hne. apply HI; [exact Hj|]. Z.div_mod_to_equations; lia.
  - exists inter. split; [reflexivity|]. intros j Hj Hlt. apply HI; [exact Hj|]. Z.div_mod_to_equations; lia.
Qed.

Lemma recompute_ok E L c capacity n : 0 <= L -> undisturbed E -> 0 <= c -> forall i y inter, 0 <= i -> (i + Z.of_nat n) / 10 < capacity ->
  pw D x0 (2 ^ (c + i)) y -> (forall j, 0 <= j -> 10 * j < i -> pw D x0 (2 ^ (c + 10 * j)) (inter j)) ->
  exists y' inter', recompute n i capacity E D L y inter = Ok (Some (y', inter')) /\ pw D x0 (2 ^ (c + i + Z.of_nat n)) y' /\
    forall j, 0 <= j -> 10 * j < i + Z.of_nat n -> pw D x0 (2 ^ (c + 10 * j)) (inter' j).
Proof.
  intros HL HU Hc. induction n as [|n IH]; intros i y inter Hi Hcap Py HI; cbn [recompute].
  { exists y, inter. rewrite !Z.add_0_r. split; [reflexivity|]. now split. }
  assert (i / 10 < capacity) by (pose proof (Z.div_le_mono i (i + Z.of_nat (S n)) 10 ltac:(lia) ltac:(lia)); lia).
  destruct (keep_ok c i capacity y inter Hi ltac:(assumption) Py HI) as (inter1 & -> & HI1). cbn [bind].
  destruct (pw_nudupl D L HL x0 Cx0 _ y Py) as (z & -> & Pz). cbn [bind].
  destruct (pw_reduce D x0 Cx0 _ z Pz) as (z' & -> & Pz'). cbn [bind]. rewrite HU.
  replace (2 * 2 ^ (c + i)) with (2 ^ (c + (i + 1))) in Pz' by (rewrite Z.add_assoc, (Z.pow_add_r 2 (c + i) 1) by lia; lia).
  destruct (IH (i + 1) z' inter1 ltac:(lia)) as (y' & inter' & E' & Py' & HI'); try assumption.
  - now replace (i + 1 + Z.of_nat n) with (i + Z.of_nat (S n)) by lia.
  - exists y', inter'. split; [exact E'|]. replace (c + i + Z.of_nat (S n)) with (c + (i + 1) + Z.of_nat n) by lia. split; [exact Py'|].
    intros j Hj Hlt. apply HI'; [exact Hj|lia].
Qed.
(** The output, and the proved segment that leads to it. *)
Lemma last_part_ok AP E cps iteration : 0 <= iteration < 2 ^ 34 -> undisturbed (prove_base E) -> (forall c, prove_perform E c = true) ->
  pw D x0 (2 ^ round_down iteration) (cps (iteration / 2 ^ 16)) ->
  or_GetB fuel D (last_part AP fuel E D cps iteration) (fun r => exists y last, r = Some (y, last) /\ pw D x0 (2 ^ iteration) y /\
    chain (match last with Some s => [s] | None => [] end) (round_down iteration) iteration).
Proof.
  intros Hit HU HP Hcp. unfold last_part, checkpoint_at. rewrite Z.rem_mod_nonneg, Z.quot_div_nonneg by lia.
  assert (Hr : 0 <= iteration mod 2 ^ 16 < 2 ^ 16) by (apply Z.mod_pos_bound; lia).
  assert (Hrd : round_down iteration = iteration - iteration mod 2 ^ 16) by (unfold round_down; rewrite Z.rem_mod_nonneg by lia; reflexivity).
  assert (H18 : iteration / 2 ^ 16 < 2 ^ 18) by (apply Z.div_lt_upper_bound; lia). apply Z.ltb_lt in H18 as ->. cbn [bind].
  set (c := round_down iteration) in *. set (rest := iteration mod 2 ^ 16) in *. set (x := cps (iteration / 2 ^ 16)) in *.
  assert (Hc : 0 <= c) by (pose proof (Z.mod_le iteration (2 ^ 16) ltac:(lia) ltac:(lia)); lia).
  destruct (Z.eqb_spec rest 0) as [E0|Hne]; cbn [negb].
  { cbn [or_GetB]. exists x, None. split; [reflexivity|]. replace iteration with c by lia. split; [exact Hcp|reflexivity]. }
  destruct (root_ok D HD) as (L & -> & HL). cbn [bind]. rewrite Z.quot_div_nonneg by lia.
  destruct (recompute_ok (prove_base E) L c (rest / 10 + 100) (Z.to_nat rest) HL HU Hc 0 x (fun _ => form_zero) (Z.le_refl 0))
    as (y & inter & -> & Py & HI); [rewrite Z.add_0_l, Z2Nat.id by lia; lia|now rewrite Z.add_0_r|intros; lia|].
  cbn [bind]. rewrite Z.add_0_r, Z2Nat.id in Py by lia. rewrite Z.add_0_l, Z2Nat.id in HI by lia. replace (c + rest) with iteration in Py by lia.
  rewrite <- Hrd. unfold OneWesolowskiProver. cbn [length_ Segment_make]. destruct (Z.leb_spec (2 ^ 16) rest); [lia|]. cbn [bind].
  set (sg := Segment_make c rest x y). set (p := Prover_make sg D 10 1).
  pose proof (pw_class D x0 Cx0 _ _ Hcp) as Cx. pose proof (pw_class D x0 Cx0 _ _ Py) as Cy.
  assert (HT : proof_task D x y rest 10 1 (One_GetForm inter (rest / 10 + 100))).
  { split; try assumption; try lia. intros i Hi Hlt. exists (inter i). unfold One_GetForm.
    assert (Hcap : i < rest / 10 + 100) by (assert (i <= rest / 10) by (apply Z.div_le_lower_bound; lia); lia). apply Z.ltb_lt in Hcap as ->.
    split; [reflexivity|]. apply (stored_power D x0 Cx0 c); try assumption; try lia. replace (10 * 1 * i) with (10 * i) by lia. apply HI; lia. }
  pose proof (generate_proof_helper (One_GetForm inter (rest / 10 + 100)) (prove_perform E) set_finished fuel p HT) as HG.
  unfold with_B in HG. change (pD p) with D in HG. change (seg_x (segm p)) with x in HG. change (seg_y (segm p)) with y in HG.
  change (num_iterations p) with rest in HG. destruct (GetB fuel D x y) as [[[B x'] y']|e] eqn:EB; [|rewrite HG; cbn [bind or_GetB]; now exists x, y].
  destruct HG as [(z & Pz & ->)|([m Hm] & _)]; [|rewrite HP in Hm; discriminate]. cbn [bind]. rewrite HU. cbn [or_GetB].
  eexists. eexists. split; [reflexivity|]. split; [exact Py|]. cbn [chain]. split; [reflexivity|]. unfold with_proof. cbn [sg start length_ seg_x seg_y Segment_make].
  split; [|lia]. split; [exact Hc|]. cbn [start length_ seg_x seg_y seg_proof]. replace (c + rest) with iteration by lia.
  split; [lia|]. split; [exact Hcp|]. split; [exact Py|]. exists B, x', y'. split; [exact EB|exact Pz].
Qed.
(** ** The bytes *)

(** The bytes of a segment, and the form that the bytes of its proof read back as. *)
Definition encodes (s : Segment) (e : Z * Z * bytes) (f : form) : Prop :=
  let '(T, B, b) := e in T = length_ s /\ length b = 100%nat /\ equiv (seg_proof s) f /\ DeserializeForm D b 100 false = Ok f /\
    exists x' y', GetB fuel D (seg_x s) (seg_y s) = Ok (B, x', y').

Definition encode_all (l : list Segment) (es : list (Z * Z * bytes)) (fs : list form) : Prop :=
  Forall2 (fun s ef => encodes s (fst ef) (snd ef)) l (combine es fs) /\ length es = length fs.

Lemma proved_classes s : proved_seg s -> class D (seg_x s) /\ class D (seg_y s) /\ class D (seg_proof s).
Proof.
  intros (_ & _ & Px & Py & B & x' & y' & _ & Pz). pose proof (pw_class D x0 Cx0 _ _ Px) as Cx.
  split; [exact Cx|]. split; [exact (pw_class D x0 Cx0 _ _ Py)|exact (pw_class D _ Cx _ _ Pz)].
Qed.

Lemma encode_seg s : proved_seg s -> exists B x' y' b f, GetB fuel D (seg_x s) (seg_y s) = Ok (B, x', y') /\
  SerializeForm (seg_proof s) (bitlen D) = Ok (b, f) /\ encodes s (length_ s, B, b) f.
Proof.
  intros Hs. destruct (proved_classes s Hs) as (_ & _ & Cz). destruct Hs as (_ & _ & _ & _ & B & x' & y' & EB & _).
  destruct (serialize_bits D HD _ Cz) as (b & f & Es & _ & Q & Lb & Db). exists B, x', y', b, f. do 2 (split; [assumption|]).
  do 4 (split; [assumption || reflexivity|]). now exists x', y'.
Qed.

Lemma append_segments_ok l : Forall proved_seg l -> forall acc, exists es fs,
  append_segments fuel D (bitlen D) l acc = Ok (acc ++ flat_map (fun '(T, B, s) => segment_bytes T B s) es) /\ encode_all l es fs.
Proof.
  induction 1 as [|s l Hs _ IH]; intros acc; cbn [append_segments].
  - exists [], []. cbn [flat_map]. rewrite app_nil_r. split; [reflexivity|]. split; [constructor|reflexivity].
  - destruct (encode_seg s Hs) as (B & x' & y' & b & f & EB & Es & He). rewrite EB, Es. cbn [bind].
    destruct (proved_classes s Hs) as (Cx & Cy & _). destruct (GetB_ok fuel D _ _ B x' y' HD Cx Cy EB) as (_ & _ & _ & _ & _ & _ & HB & _).
    rewrite (to_bytes_33 B HB). destruct (IH (acc ++ Int64ToBytes (length_ s) ++ be_split 33 B ++ b)) as (es & fs & -> & [H1 H2]).
    exists ((length_ s, B, b) :: es), (f :: fs). cbn [flat_map]. unfold segment_bytes at 2. rewrite <- !app_assoc. split; [reflexivity|].
    split; [constructor; assumption|]. cbn [length]. now f_equal.
Qed.

Lemma combine_app {A B} (l1 l2 : list A) (m1 m2 : list B) : length l1 = length m1 -> combine (l1 ++ l2) (m1 ++ m2) = combine l1 m1 ++ combine l2 m2.
Proof. revert m1. induction l1 as [|a l1 IH]; intros [|b m1] E; try discriminate; [reflexivity|]. cbn [app combine]. injection E as E. now rewrite IH. Qed.

Lemma combine_rev {A B} (l : list A) (m : list B) : length l = length m -> combine (rev l) (rev m) = rev (combine l m).
Proof.
  revert m. induction l as [|a l IH]; intros [|b m] E; try discriminate; [reflexivity|]. injection E as E. cbn [rev combine].
  rewrite combine_app by now rewrite !length_rev. now rewrite IH.
Qed.

Lemma Forall2_rev {A B} (P : A -> B -> Prop) l m : Forall2 P l m -> Forall2 P (rev l) (rev m).
Proof. induction 1 as [|a b l m H _ IH]; cbn [rev]; [constructor|]. apply Forall2_app; [exact IH|]. constructor; [exact H|constructor]. Qed.

Lemma encode_all_rev l es fs : encode_all l es fs -> encode_all (rev l) (rev es) (rev fs).
Proof. intros [H E]. split; [rewrite combine_rev by exact E; now apply Forall2_rev|now rewrite !length_rev]. Qed.

(** The bytes of a chain are an honest chain of the verifier. *)
Lemma chain_honest l : forall a b es fs, chain l a b -> encode_all l es fs -> forall x_v, 0 <= a -> pw D x0 (2 ^ a) x_v ->
  exists xm, honest fuel D x_v es (b - a) xm /\ pw D x0 (2 ^ b) xm /\ a <= b.
Proof.
  induction l as [|s l IH]; intros a b es fs Hc [He El] x_v Ha Pv; cbn [chain] in Hc.
  - inversion He as [Hnil|]. destruct es as [|e es]; [|destruct fs; discriminate]. subst b. exists x_v. rewrite Z.sub_diag. split; [constructor|]. split; [exact Pv|lia].
  - destruct Hc as (Es & Hs & Hc). destruct es as [|[[T B] bs] es], fs as [|f fs]; try discriminate; [inversion He|]. injection El as El.
    cbn [combine] in He. inversion He as [|? ? ? ? He1 He']; subst. destruct He1 as (-> & Lb & Qz & Ef & x' & y' & EB). cbn [snd] in *.
    destruct (proved_classes s Hs) as (Cx & Cy & _). destruct Hs as (Hst & Hlen & Px & Py & B0 & x1 & y1 & EB0 & Pz). rewrite EB in EB0. injection EB0 as <- <- <-.
    pose proof (pw_unique D x0 Cx0 _ _ _ Px Pv) as Qv. destruct (GetB_ok fuel D _ _ B x' y' HD Cx Cy EB) as (_ & _ & _ & Ry & _ & Qy & _).
    assert (Pxy : pw D (seg_x s) (2 ^ length_ s) (seg_y s)) by (apply (stored_power D x0 Cx0 (start s)); assumption).
    destruct (final_from_GetB D HD fuel _ _ _ B x' y' _ x_v f Cx Pxy EB Pz Qv Qz) as (Pv1 & B2 & x2 & EB2 & Pz2).
    assert (B2 = B) as ->. { rewrite <- (GetB_equiv fuel D (seg_x s) (seg_y s) x_v y' HD Cx Cy Qv Qy), EB in EB2. now injection EB2. }
    destruct (IH (start s + length_ s) b es fs Hc (conj He' El) y' ltac:(lia) (pw_equiv D x0 _ _ _ Py Qy)) as (xm & Hh & Pm & Hle).
    exists xm. split; [|split; [exact Pm|lia]]. replace (b - start s) with (length_ s + (b - (start s + length_ s))) by lia.
    exact (honest_cons fuel D x_v x2 y' f B bs (length_ s) _ es xm Hlen Lb Ef Pv1 Ry EB2 Pz2 Hh).
Qed.
Lemma chain_proved l : forall a b, chain l a b -> Forall proved_seg l.
Proof. induction l as [|s l IH]; intros a b H; constructor; destruct H as (_ & Hs & H); [exact Hs|exact (IH _ _ H)]. Qed.

Lemma chain_split l1 : forall l2 a c, chain (l1 ++ l2) a c -> exists b, chain l1 a b /\ chain l2 b c.
Proof.
  induction l1 as [|s l1 IH]; intros l2 a c H; cbn [app chain] in *; [now exists a|]. destruct H as (Es & Hs & H).
  destruct (IH _ _ _ H) as (b & H1 & H2). exists b. split; [|exact H2]. now split.
Qed.

(** The bytes of a chain to [iteration], of whose last segment [ps] is the proof, are accepted. *)
Lemma chain_accepts init last y iteration es fs ys yf ps pf : chain (init ++ [last]) 0 iteration -> pw D x0 (2 ^ iteration) y -> iteration < 2 ^ 64 -> (length es <= 255)%nat ->
  encode_all init es fs -> SerializeForm y (bitlen D) = Ok (ys, yf) -> SerializeForm (seg_proof last) (bitlen D) = Ok (ps, pf) ->
  forall x_s x_v size, length x_s = 100%nat -> DeserializeForm D x_s 100 false = Ok x_v -> equiv x0 x_v -> 0 < size <= 1024 ->
    CheckProofOfTimeNWesolowski fuel D (Some x_s) (Some (ys ++ ps ++ segments_blob es)) (200 + 141 * Z.of_nat (length es)) iteration size (Z.of_nat (length es)) = Ok true.
Proof.
  intros Hc Py Hit Hles He Eys Eps x_s x_v size Lx Ex Qv Hsz. destruct (chain_split _ _ _ _ Hc) as (b & H1 & (Eb & Hlast & Ei)). cbn [chain] in Ei.
  pose proof (pw_class D x0 Cx0 _ _ Py) as Cy. destruct (proved_classes last Hlast) as (Cx & Cyl & Cz).
  pose proof (SerializeForm_reads D y ys yf HD Cy Eys false) as Dy. pose proof (SerializeForm_reads D _ ps pf HD Cz Eps false) as Dp.
  destruct (SerializeForm_ok D y HD Cy) as (ys' & yf' & Eys' & Ry & _ & Qy' & _ & Lys & _). rewrite Eys in Eys'. injection Eys' as <- <-.
  destruct (SerializeForm_ok D _ HD Cz) as (ps' & pf' & Eps' & _ & _ & Qz & _ & Lps & _). rewrite Eps in Eps'. injection Eps' as <- <-.
  destruct (disc_identity D HD) as (e & _ & Hpe).
  assert (Pv : pw D x0 (2 ^ 0) x_v) by (apply (pw_equiv D x0 _ x0); [exact (pw_1 D x0 Cx0 e Hpe)|exact Qv]).
  destruct (chain_honest init 0 b es fs H1 He x_v (Z.le_refl 0) Pv) as (xm & Hh & Pm & Hb). rewrite Z.sub_0_r in Hh.
  destruct Hlast as (_ & HT & Px & Pyl & B & x' & y' & EB & Pz). rewrite Eb in Px, Pyl. rewrite <- Ei in Py.
  pose proof (pw_unique D x0 Cx0 _ _ _ Pyl Py) as Qy. assert (Qx : equiv (seg_x last) (seg_x last)) by reflexivity.
  rewrite (GetB_equiv fuel D _ _ _ _ HD Cx Cyl Qx Qy) in EB. destruct (GetB_ok fuel D _ _ B x' y' HD Cx Cy EB) as (_ & Ey & _).
  rewrite Ry in Ey. injection Ey as <-.
  destruct (final_from_GetB D HD fuel (seg_x last) (length_ last) y B x' yf (seg_proof last) xm pf Cx (stored_power D x0 Cx0 b _ _ _ Hb HT Px Py) EB Pz (pw_unique D x0 Cx0 _ _ _ Px Pm) Qz) as (Pyf & B2 & x2 & EB2 & Pz2).
  pose proof (check_accepts fuel D x_s x_v es b xm (length_ last) yf ys pf ps size HD Hsz Lx Ex Hh HT ltac:(lia) Lys Dy Pyf Lps Dp) as HA.
  cbv zeta in HA. rewrite EB2, Ei in HA.
  assert (Len : Z.of_nat (length (ys ++ ps ++ segments_blob es)) = 200 + 141 * Z.of_nat (length es)) by (rewrite !length_app, (segments_blob_length fuel D x_v es b xm Hh), Lys, Lps; lia).
  rewrite Len in HA. apply HA; [|lia]. intros B0 x1 y1 [= <- <- <-]. exact Pz2.
Qed.

Lemma assemble_ok init last y iteration : chain (init ++ [last]) 0 iteration -> pw D x0 (2 ^ iteration) y -> (length init <= 63)%nat ->
  exists es fs ys ps yf pf, assemble fuel D y (init ++ [last]) = Ok (mkProof ys (ps ++ segments_blob es) (Z.of_nat (length es))) /\
    length es = length init /\ length ys = 100%nat /\ length ps = 100%nat /\
    encode_all init es fs /\ SerializeForm y (bitlen D) = Ok (ys, yf) /\ SerializeForm (seg_proof last) (bitlen D) = Ok (ps, pf).
Proof.
  intros Hc Py Hlen. destruct (chain_split _ _ _ _ Hc) as (b & H1 & (_ & Hlast & _)). pose proof (chain_proved _ _ _ H1) as Hp1. unfold assemble. rewrite num_bits_disc by exact HD. cbn [bind].
  pose proof (pw_class D x0 Cx0 _ _ Py) as Cy. destruct (serialize_bits D HD y Cy) as (ys & yf & Eys & _ & _ & Lys & _). rewrite Eys. cbn [bind].
  rewrite rev_app_distr. cbn [rev app]. destruct (proved_classes last Hlast) as (_ & _ & Cz).
  destruct (serialize_bits D HD _ Cz) as (ps & pf & Eps & _ & _ & Lps & _). rewrite Eps. cbn [bind].
  destruct (append_segments_ok (rev init) (Forall_rev Hp1) ps) as (es & fs & -> & He). cbn [bind].
  apply encode_all_rev in He. rewrite rev_involutive in He.
  assert (El : length (rev es) = length init).
  { destruct He as [He Ees]. apply Forall2_length in He. rewrite length_combine, Ees, Nat.min_id in He. lia. }
  exists (rev es), (rev fs), ys, ps, yf, pf. unfold segments_blob. rewrite rev_involutive, length_app, El. cbn [length].
  split; [do 2 f_equal; unfold u8; rewrite Z.mod_small; lia|]. do 5 (split; [assumption || reflexivity|]). reflexivity.
Qed.
End Chains.

(** C8: the n-Wesolowski proofs of [ProverManager::Prove] are accepted. Let the
    checkpoints be the right powers up to [iteration], the segments
    in [done_segments] be proved and without holes, some attempt find enough of
    them, and nobody stop the computation. Then [Prove] returns (unless a
    [GetB] throws): at most 63 segments before the last one, in the order of the
    chain, and an output whose bytes read back as a form of [x^(2^iteration)];
    [CheckProofOfTimeNWesolowski] accepts the whole for [iteration] iterations at the
    depth in [witness_type], for every challenge that reads as a form equivalent to [x]. *)
Theorem prove_accepted {G : Gmp} {GL : GmpLaws G} {R : FormReducer} {RL : FormReducerLaws R} D x AP E checkpoints n iteration a0 attempt_fuel fuel :
  good_disc D -> class D x -> 0 < iteration < 2 ^ 34 -> undisturbed (prove_base E) -> (forall c, prove_perform E c = true) ->
  (forall j, 0 <= j <= iteration / 2 ^ 16 -> pw D x (2 ^ (2 ^ 16 * j)) (checkpoints j)) ->
  (forall a, proved_table D x fuel (prove_table E a)) -> attempt n (prove_table E a0) iteration <> None -> (a0 <= attempt_fuel)%nat ->
  or_GetB fuel D (Prove AP fuel attempt_fuel E D checkpoints n iteration) (fun pr =>
    exists segs ps y proof, pr_proof pr = ps ++ segments_blob segs /\ witness_type pr = Z.of_nat (length segs) /\ (length segs <= 63)%nat /\
    length (pr_y pr) = 100%nat /\ length ps = 100%nat /\
    DeserializeForm D (pr_y pr) 100 false = Ok y /\ pw D x (2 ^ iteration) y /\ DeserializeForm D ps 100 false = Ok proof /\
    forall x_s x_v size, length x_s = 100%nat -> DeserializeForm D x_s 100 false = Ok x_v -> equiv x x_v -> 0 < size <= 1024 ->
      CheckProofOfTimeNWesolowski fuel D (Some x_s) (Some (pr_y pr ++ pr_proof pr)) (200 + 141 * witness_type pr) iteration size (witness_type pr) = Ok true).
Proof.
  intros HD Cx Hit HU HP Hcp HT Ha0 Hf. unfold Prove. rewrite HU.
  assert (Hrd : round_down iteration = 2 ^ 16 * (iteration / 2 ^ 16)).
  { unfold round_down. rewrite Z.rem_mod_nonneg by lia. pose proof (Z.div_mod iteration (2 ^ 16) ltac:(lia)). lia. }
  eapply or_GetB_bind; [apply (last_part_ok D HD x Cx fuel AP E checkpoints iteration ltac:(lia) HU HP)|].
  { rewrite Hrd. apply Hcp. split; [apply Z.div_pos; lia|lia]. }
  intros r (y & last & -> & Py & Hlast). destruct (attempts_ok D x fuel E n iteration a0 HU HT ltac:(lia) Ha0 attempt_fuel 0 (2 ^ 16 + 1) ltac:(lia) ltac:(lia)) as (segs & -> & Hc & Hlen).
  cbn [bind]. pose proof (chain_app D x fuel _ _ _ _ _ Hc Hlast) as Hall. set (tail := match last with Some s => [s] | None => [] end) in *.
  assert (Hne : segs ++ tail <> []).
  { intros E0. rewrite E0 in Hall. cbn [chain] in Hall. lia. }
  destruct (exists_last Hne) as (init & s & El). rewrite El in *.
  assert (Hlen2 : (length init <= 63)%nat).
  { apply (f_equal (@length _)) in El. rewrite !length_app in El. cbn [length] in El. subst tail. destruct last; cbn [length] in El; lia. }
  destruct (assemble_ok D HD x Cx fuel init s y iteration Hall Py Hlen2) as (es & fs & ys & ps & yf & pf & -> & Les & Lys & Lps & He & Eys & Eps). cbn [or_GetB].
  pose proof (pw_class D x Cx _ _ Py) as Cy. destruct (SerializeForm_ok D y HD Cy) as (ys' & yf' & Eys' & _ & _ & Qy & _). rewrite Eys in Eys'. injection Eys' as <- <-.
  destruct (chain_split D x fuel _ _ _ _ Hall) as (b & _ & (_ & Hs & _)). destruct (proved_classes D x Cx fuel s Hs) as (_ & _ & Cz).
  pose proof (SerializeForm_reads D y ys yf HD Cy Eys false) as Dy. pose proof (SerializeForm_reads D _ ps pf HD Cz Eps false) as Dp. pose proof (pw_equiv D x _ _ _ Py Qy) as Pyf.
  exists es, ps, yf, pf. cbn [pr_proof pr_y witness_type]. split; [reflexivity|]. split; [reflexivity|]. split; [lia|]. do 5 (split; [assumption|]).
  exact (chain_accepts D HD x Cx fuel init s y iteration es fs ys yf ps pf Hall Py ltac:(lia) ltac:(lia) He Eys Eps).
Qed.

(** ** A hole in the table *)

(** The manager's second turn: every prover but the first of bucket 1 is through. *)
Definition hole_slot (p : slot) : slot :=
  if (start (sl_seg p) =? 0) && (length_ (sl_seg p) =? 2 ^ 18) then p else mkslot (sl_seg p) (sl_paused p) true true (mkform 2 1 6).

Definition hole_turn (m : manager) : res (manager * (bool * bool)) := event_turn (0, 0) false (fun _ => mkform 2 1 6) (2 ^ 19) None m.

(** C40: [Prove] takes the holes of [done_segments] for segments. The event loop
    counts only stored segments, but when the second segment of 2^18 iterations is
    done before the first, a default-constructed [Segment] fills its
    place, and [Prove] does not look at [is_empty]. A reachable state: two
    buckets, ten threads, a proof for iteration 2^18 asked for, all eight segments of
    2^16 iterations done, with which the loop promises the asked iterations and
    notifies [proof_cv]. [Prove] takes the hole for the whole proof,
    and reducing its form 0 divides by zero. *)
Theorem prove_hole : exists m1 n1 m2 segs,
  hole_turn (insert_last_segment (2 ^ 18) (insert_pending (2 ^ 18) (ProverManager_make 2 10 0))) = Ok (m1, n1) /\
  hole_turn (set_provers (map hole_slot (provers m1)) m1) = Ok (m2, (true, true)) /\
  reachable (0, 0) false (fun _ => mkform 2 1 6) 2 10 m2 /\ round_down (2 ^ 18) <= max_proving_iteration m2 /\
  attempt 2 (done_segments m2) (2 ^ 18) = Some segs /\ existsb is_empty segs = true /\
  Prove (G := Ref.gmp) (R := vdf_new_reducer) (fun _ => Throw overflow_error) 50 5
    (mkprove_env (mkenv (fun _ => false) (fun _ => 2 ^ 19) 0) (fun _ => true) (fun _ => done_segments m2)) (-47) (fun _ => mkform 2 1 6) 2 (2 ^ 18) = Throw division_by_zero.
Proof.
  destruct (hole_turn (insert_last_segment (2 ^ 18) (insert_pending (2 ^ 18) (ProverManager_make 2 10 0)))) as [[m1 n1]|] eqn:E1; [|vm_compute in E1; discriminate].
  assert (R1 : reachable (0, 0) false (fun _ => mkform 2 1 6) 2 10 m1).
  { refine (reach_turn _ _ _ _ _ (2 ^ 19) None _ m1 n1 _ _ Logic.I E1); [repeat constructor|lia]. }
  destruct (hole_turn (set_provers (map hole_slot (provers m1)) m1)) as [[m2 n2]|] eqn:E2; [|vm_compute in E1; injection E1 as <- <-; vm_compute in E2; discriminate].
  assert (R2 : reachable (0, 0) false (fun _ => mkform 2 1 6) 2 10 m2).
  { refine (reach_turn _ _ _ _ _ (2 ^ 19) None _ m2 n2 _ _ Logic.I E2); [|lia]. apply reach_provers; [exact R1|]. clear.
    induction (provers m1) as [|p ps IH]; constructor; [|exact IH]. unfold hole_slot. destruct (_ && _); now split. }
  exists m1, n1, m2. vm_compute in E1. injection E1 as <- <-. vm_compute in E2. injection E2 as <- <-.
  eexists. split; [reflexivity|]. split; [reflexivity|]. split; [exact R2|]. split; [discriminate|]. split; [vm_compute; reflexivity|].
  split; vm_compute; reflexivity.
Qed.

(** ** Witnesses *)

Lemma prove_accepted_witness :
  let D := -47 in let x := mkform 2 1 6 in let AP := fun _ : Z => Throw overflow_error in
  let E := mkprove_env (mkenv (fun _ => false) (fun _ => 0) 7) (fun _ => true) (fun _ => [[]]) in
  or_GetB (G := Ref.gmp) 50 D (Prove (G := Ref.gmp) (R := vdf_new_reducer) AP 50 0 E D (fun _ => x) 1 3) (fun pr =>
    exists segs ps y proof, pr_proof pr = ps ++ segments_blob segs /\ witness_type pr = Z.of_nat (length segs) /\ (length segs <= 63)%nat /\
    length (pr_y pr) = 100%nat /\ length ps = 100%nat /\
    DeserializeForm (G := Ref.gmp) D (pr_y pr) 100 false = Ok y /\ pw D x (2 ^ 3) y /\ DeserializeForm (G := Ref.gmp) D ps 100 false = Ok proof /\
    forall x_s x_v size, length x_s = 100%nat -> DeserializeForm (G := Ref.gmp) D x_s 100 false = Ok x_v -> equiv x x_v -> 0 < size <= 1024 ->
      CheckProofOfTimeNWesolowski (G := Ref.gmp) (R := vdf_new_reducer) 50 D (Some x_s) (Some (pr_y pr ++ pr_proof pr)) (200 + 141 * witness_type pr) 3 size (witness_type pr) = Ok true).
Proof.
  intros D x AP E.
  assert (Hcp : forall j, 0 <= j <= 3 / 2 ^ 16 -> pw D x (2 ^ (2 ^ 16 * j)) x).
  { intros j Hj. assert (j = 0) as -> by (cbn in Hj; lia). rewrite Z.mul_0_r. change (2 ^ 0) with 1. exact (pw_1 D x class_form_47 _ principal_47). }
  assert (HT : forall a, proved_table (G := Ref.gmp) D x 50 (prove_table E a)).
  { intros a. assert (H0 : forall i, nth i [@nil Segment] [] = []) by (intros [|[|i]]; reflexivity). split.
    - intros i p s Hs. cbn [E prove_table] in Hs. rewrite H0 in Hs. now destruct p.
    - intros i. cbn [E prove_table]. rewrite H0. constructor. }
  exact (prove_accepted (GL := Ref.laws) (RL := vdf_new_reducer_laws) D x AP E (fun _ => x) 1 3 O O 50 good_disc_47 class_form_47 ltac:(lia)
    (fun _ => eq_refl) (fun _ => eq_refl) Hcp HT ltac:(vm_compute; discriminate) (le_n O)).
Defined.
