(* ===== verification/HwQueue.v ===== *)
(** [src/src/hw/hw_proof.cpp], the queue of proofs of the hardware client: the
    requests of the timelord are split into chains of segments with checkpoints,
    which later requests share and earlier ones can displace. *)
From Stdlib Require Import Permutation Sorted.
From S2P Require Import Prelude Words Prover.

(** [std::sort] with a comparison of keys; elements of equal keys may come in
    any order. *)
Class StdSort : Type := std_sort : forall {A : Type}, (A -> A -> bool) -> list A -> list A.
Class StdSortLaws (S : StdSort) : Prop := std_sort_spec : forall (A : Type) (key : A -> Z) (l : list A),
  Permutation (std_sort (fun a b => key a <? key b) l) l /\
  StronglySorted (fun a b => key a <= key b) (std_sort (fun a b => key a <? key b) l).

(** ** Proofs *)

Definition HW_VDF_PROOF_NONE : Z := 0xffff.
Definition FLAG_DONE : Z := 1.
Definition FLAG_IS_REQ : Z := 2.
Definition FLAG_STARTED : Z := 4.

(** [y], [proof] and [B] are indeterminate until the proof is done: [[]]. *)
Record vdf_proof : Type := mkproof {
  p_iters : Z;
  p_seg_iters : Z;
  p_y : bytes;
  p_proof : bytes;
  p_B : bytes;
  p_flags : Z;                  (* uint8_t *)
  p_prev : Z;                   (* uint16_t *)
  p_ref_cnt : Z;                (* uint16_t *)
}.

Definition has (flag : Z) (p : vdf_proof) : bool := negb (Z.land (p_flags p) flag =? 0).
Abbreviation is_done := (has FLAG_DONE).
Abbreviation is_req := (has FLAG_IS_REQ).
Abbreviation is_started := (has FLAG_STARTED).

Definition set_ref (r : Z) (p : vdf_proof) : vdf_proof :=
  mkproof (p_iters p) (p_seg_iters p) (p_y p) (p_proof p) (p_B p) (p_flags p) (p_prev p) r.
Definition set_flags (f : Z) (p : vdf_proof) : vdf_proof :=
  mkproof (p_iters p) (p_seg_iters p) (p_y p) (p_proof p) (p_B p) f (p_prev p) (p_ref_cnt p).

(** [memset(proof, 0xff, sizeof(proof))] *)
Definition deleted_proof : vdf_proof :=
  mkproof (2 ^ 64 - 1) (2 ^ 64 - 1) (repeat 255 100) (repeat 255 100) (repeat 255 33) 255 0xffff 0xffff.

(** The queue's part of [struct vdf_state]; [is_chkp] of a request is always false. *)
Record hw_queue : Type := mkqueue {
  req_proofs : list (Z * bool);
  proofs : list vdf_proof;
  queued_proofs : list Z;
  done_proofs : list Z;
}.

(** [proofs[idx]] *)
Definition get (ps : list vdf_proof) (idx : Z) : res vdf_proof :=
  match nth_error ps (Z.to_nat idx) with Some p => Ok p | None => Throw undefined_behaviour end.
Definition put (ps : list vdf_proof) (idx : Z) (p : vdf_proof) : list vdf_proof := update ps (Z.to_nat idx) p.

(** [ProofCmp] *)
Definition iters_at (ps : list vdf_proof) (idx : Z) : Z :=
  match nth_error ps (Z.to_nat idx) with Some p => p_iters p | None => 0 end.

(** ** Operations *)

Definition hw_queue_proof (seg_iters prev flags : Z) (q : hw_queue) : res (Z * hw_queue) :=
  iters <- (if negb (prev =? HW_VDF_PROOF_NONE) then p <- get (proofs q) prev ;; Ok (u64 (seg_iters + p_iters p)) else Ok seg_iters) ;;
  let pos := u16 (Z.of_nat (length (proofs q))) in
  Ok (pos, mkqueue (req_proofs q) (proofs q ++ [mkproof iters seg_iters [] [] [] flags prev 1]) (queued_proofs q ++ [pos]) (done_proofs q)).

(** The chains end after at most as many proofs as there are: the fuel. *)
Fixpoint cnt_segments (fuel : nat) (ps : list vdf_proof) (idx cnt : Z) : res Z :=
  let cnt := u8 (cnt + 1) in
  p <- get ps idx ;;
  if p_prev p =? HW_VDF_PROOF_NONE then Ok cnt
  else match fuel with O => Throw out_of_fuel | S fuel' => cnt_segments fuel' ps (p_prev p) cnt end.
Definition hw_proof_cnt_segments (ps : list vdf_proof) (idx : Z) : res Z := cnt_segments (length ps) ps idx 0.

Fixpoint inc_ref (fuel : nat) (ps : list vdf_proof) (idx : Z) : res (list vdf_proof) :=
  p <- get ps idx ;;
  let ps := put ps idx (set_ref (u16 (p_ref_cnt p + 1)) p) in
  if p_prev p =? HW_VDF_PROOF_NONE then Ok ps
  else match fuel with O => Throw out_of_fuel | S fuel' => inc_ref fuel' ps (p_prev p) end.
Definition hw_proof_inc_ref (ps : list vdf_proof) (idx : Z) : res (list vdf_proof) := inc_ref (length ps) ps idx.

(** [hw_proof_dec_ref]: the walk from one of [idxs]. *)
Fixpoint dec_walk (fuel : nat) (ps : list vdf_proof) (idx : Z) (del : list Z) : res (list vdf_proof * list Z) :=
  p <- get ps idx ;;
  if is_started p then Ok (ps, del)
  else
    let r := u16 (p_ref_cnt p - 1) in
    let ps := put ps idx (set_ref r p) in
    let del := if r =? 0 then del ++ [idx] else del in
    if p_prev p =? HW_VDF_PROOF_NONE then Ok (ps, del)
    else match fuel with O => Throw out_of_fuel | S fuel' => dec_walk fuel' ps (p_prev p) del end.

Fixpoint dec_walks (ps : list vdf_proof) (idxs del : list Z) : res (list vdf_proof * list Z) :=
  match idxs with
  | [] => Ok (ps, del)
  | idx :: idxs => ' (ps, del) <- dec_walk (length ps) ps idx del ;; dec_walks ps idxs del
  end.

(** The loop on [queued_proofs], which erases at [j] and goes on with [j + 1]. *)
Fixpoint erase_queued (l : list Z) (idx : Z) : list Z :=
  match l with
  | [] => []
  | x :: r =>
      if x =? idx then match r with [] => [] | y :: r => y :: erase_queued r idx end
      else x :: erase_queued r idx
  end.

(** [dels] in descending order. *)
Fixpoint delete_proofs (ps : list vdf_proof) (queued : list Z) (last : Z) (dels : list Z) : list vdf_proof * list Z * Z :=
  match dels with
  | [] => (ps, queued, last)
  | idx :: dels =>
      let last := if idx =? last then last - 1 else last in
      delete_proofs (put ps idx deleted_proof) (erase_queued queued idx) last dels
  end.

Section WithSort.
Context `{Srt : StdSort}.

Definition hw_proof_dec_ref (idxs : list Z) (q : hw_queue) : res hw_queue :=
  let last := Z.of_nat (length (proofs q)) - 1 in
  ' (ps, del) <- dec_walks (proofs q) idxs [] ;;
  let del := std_sort Z.ltb del in
  let '(ps, queued, last) := delete_proofs ps (queued_proofs q) last (rev del) in
  Ok (mkqueue (req_proofs q) (firstn (Z.to_nat (last + 1)) ps) queued (done_proofs q)).

Definition hw_proof_should_queue (iters : Z) (q : hw_queue) : res bool :=
  match rev (queued_proofs q) with
  | [] => Throw undefined_behaviour
  | last :: _ => p <- get (proofs q) last ;; Ok (iters <? p_iters p)
  end.

Definition hw_request_proof (iters : Z) (is_chkp : bool) (q : hw_queue) : hw_queue :=
  mkqueue (std_sort (fun a b => fst a <? fst b) (req_proofs q ++ [(iters, is_chkp)])) (proofs q) (queued_proofs q) (done_proofs q).

(** The queued requests from [req_iters] on are asked for again. *)
Fixpoint displace (req_iters : Z) (queued del : list Z) (q : hw_queue) : res (list Z * hw_queue) :=
  match queued with
  | [] => Ok (del, q)
  | idx :: queued =>
      p <- get (proofs q) idx ;;
      if negb (is_req p) || (p_iters p <? req_iters) then displace req_iters queued del q
      else displace req_iters queued (del ++ [idx]) (hw_request_proof (p_iters p) false q)
  end.

Definition max_chkp_segments : Z := 64 - 3.

(** The last checkpoint to build on, from the end of the queue. *)
Fixpoint find_base (ps : list vdf_proof) (req_iters : Z) (rqueued : list Z) : res (option (Z * Z)) :=
  match rqueued with
  | [] => Ok None
  | idx :: rqueued =>
      p <- get ps idx ;;
      if is_req p then find_base ps req_iters rqueued
      else
        n_segments <- hw_proof_cnt_segments ps idx ;;
        if (p_iters p <=? req_iters) && (n_segments <=? max_chkp_segments) then Ok (Some (p_iters p, idx))
        else find_base ps req_iters rqueued
  end.

Definition g_chkp_thres : Z := 1000000.

(** The checkpoints of [iters] iterations after [prev], and what is left for the
    last segment. *)
Definition queue_checkpoints (interval iters prev : Z) (q : hw_queue) : res (Z * Z * hw_queue) :=
  if g_chkp_thres <? iters then
    let chkp_iters := u64 (iters * 3) / 4 in
    ' (iters, chkp_iters, prev, q) <-
      (if g_chkp_thres <? u64 (iters - chkp_iters) then
         let chkp_iters := u64 (iters * 69) / 100 in
         let chkp_iters := chkp_iters / interval * interval in
         ' (prev, q) <- hw_queue_proof chkp_iters prev 0 q ;;
         let chkp2_iters := u64 (u64 (iters * (69 + 23)) / 100 - chkp_iters) in
         Ok (u64 (iters - chkp_iters), chkp2_iters, prev, q)
       else Ok (iters, chkp_iters, prev, q)) ;;
    let chkp_iters := chkp_iters / interval * interval in
    ' (prev, q) <- hw_queue_proof chkp_iters prev 0 q ;;
    Ok (u64 (iters - chkp_iters), prev, q)
  else Ok (iters, prev, q).

Definition sort_queued (q : hw_queue) : res hw_queue :=
  if forallb (fun idx => idx <? Z.of_nat (length (proofs q))) (queued_proofs q) then
    Ok (mkqueue (req_proofs q) (proofs q) (std_sort (fun a b => iters_at (proofs q) a <? iters_at (proofs q) b) (queued_proofs q)) (done_proofs q))
  else Throw undefined_behaviour.

(** The deletion at the beginning. *)
Definition make_room (req_iters : Z) (q : hw_queue) : res hw_queue :=
  match queued_proofs q with
  | [] => Ok q
  | _ =>
      should <- hw_proof_should_queue req_iters q ;;
      if should : bool then ' (del, q) <- displace req_iters (queued_proofs q) [] q ;; hw_proof_dec_ref del q else Ok q
  end.

Definition hw_proof_process_req (interval : Z) (q : hw_queue) : res hw_queue :=
  match req_proofs q with
  | [] => Ok q
  | (req_iters, _) :: rest =>
      q <- make_room req_iters (mkqueue rest (proofs q) (queued_proofs q) (done_proofs q)) ;;
      base <- find_base (proofs q) req_iters (rev (queued_proofs q)) ;;
      ' (base_iters, prev, q) <- (match base with
                                  | None => Ok (0, HW_VDF_PROOF_NONE, q)
                                  | Some (iters, idx) =>
                                      ps <- hw_proof_inc_ref (proofs q) idx ;;
                                      Ok (iters, idx, mkqueue (req_proofs q) ps (queued_proofs q) (done_proofs q))
                                  end) ;;
      ' (iters, prev, q) <- queue_checkpoints interval (u64 (req_iters - base_iters)) prev q ;;
      ' (_, q) <- hw_queue_proof iters prev FLAG_IS_REQ q ;;
      sort_queued q
  end.

(** The first loop of [hw_proof_process_work]. *)
Fixpoint process_reqs (fuel : nat) (interval : Z) (q : hw_queue) : res hw_queue :=
  match req_proofs q with
  | [] => Ok q
  | (iters, _) :: _ =>
      go <- (if (length (queued_proofs q) <? 3)%nat then Ok true else hw_proof_should_queue iters q) ;;
      if go : bool then
        match fuel with
        | O => Throw out_of_fuel
        | S fuel' => q <- hw_proof_process_req interval q ;; process_reqs fuel' interval q
        end
      else Ok q
  end.
End WithSort.

(** [hw_retrieve_proof]: the chain of [prev]s, with the number of its proofs if all are done. *)
Fixpoint chain_done (fuel : nat) (ps : list vdf_proof) (j cnt : Z) : res (option Z) :=
  if j =? HW_VDF_PROOF_NONE then Ok (Some cnt)
  else
    p <- get ps j ;;
    if negb (is_done p) then Ok None
    else match fuel with O => Throw out_of_fuel | S fuel' => chain_done fuel' ps (p_prev p) (cnt + 1) end.

Fixpoint retrieve (ps : list vdf_proof) (before dones : list Z) : res (option (Z * Z * list Z)) :=
  match dones with
  | [] => Ok None
  | idx :: dones =>
      p <- get ps idx ;;
      r <- chain_done (length ps) ps (p_prev p) 0 ;;
      match r with
      | Some cnt => Ok (Some (cnt, idx, before ++ dones))
      | None => retrieve ps (before ++ [idx]) dones
      end
  end.

(** The number of segments before the last, and the proof's index; [None] is [-1]. *)
Definition hw_retrieve_proof (q : hw_queue) : res (option (Z * Z) * hw_queue) :=
  r <- retrieve (proofs q) [] (done_proofs q) ;;
  match r with
  | None => Ok (None, q)
  | Some (cnt, idx, dones) => Ok (Some (cnt, idx), mkqueue (req_proofs q) (proofs q) (queued_proofs q) dones)
  end.

(** The first queued proof is started. *)
Definition start_first (q : hw_queue) : res (Z * hw_queue) :=
  match queued_proofs q with
  | [] => Throw undefined_behaviour
  | idx :: queued =>
      p <- get (proofs q) idx ;;
      Ok (idx, mkqueue (req_proofs q) (put (proofs q) idx (set_flags (Z.lor (p_flags p) FLAG_STARTED) p)) queued (done_proofs q))
  end.

(** [hw_compute_proof] stores its results; [B] is only of a checkpoint. *)
Definition finish_proof (idx : Z) (y proof B : bytes) (q : hw_queue) : res hw_queue :=
  p <- get (proofs q) idx ;;
  let done := if is_req p then done_proofs q ++ [u16 idx] else done_proofs q in
  let p' := mkproof (p_iters p) (p_seg_iters p) y proof (if is_req p then p_B p else B) (Z.lor (p_flags p) FLAG_DONE) (p_prev p) (p_ref_cnt p) in
  Ok (mkqueue (req_proofs q) (put (proofs q) idx p') (queued_proofs q) done).

(** Insertion sort, which [std::sort] is on short vectors. *)
Fixpoint insert {A} (lt : A -> A -> bool) (x : A) (l : list A) : list A :=
  match l with
  | [] => [x]
  | y :: r => if lt x y then x :: l else y :: insert lt x r
  end.
#[export] Instance insertion_sort : StdSort | 10 := fun A lt l => fold_left (fun acc x => insert lt x acc) l [].

(** ** The well-formed states *)

Definition at_ (ps : list vdf_proof) (i : Z) (p : vdf_proof) : Prop := 0 <= i /\ nth_error ps (Z.to_nat i) = Some p.
Definition live (p : vdf_proof) : Prop := 0 <= p_flags p < 8.

(** [prev] is a checkpoint before [i], and the iterations add up. *)
Definition link (ps : list vdf_proof) (i : Z) (p : vdf_proof) : Prop :=
  (p_prev p = HW_VDF_PROOF_NONE /\ p_iters p = p_seg_iters p) \/
  (0 <= p_prev p < i /\ exists q, at_ ps (p_prev p) q /\ live q /\ is_req q = false /\ p_iters p = p_iters q + p_seg_iters p).

(** The number of proofs of a chain. *)
Inductive depth (ps : list vdf_proof) : Z -> nat -> Prop :=
| depth_first i p : at_ ps i p -> p_prev p = HW_VDF_PROOF_NONE -> depth ps i 1
| depth_next i p n : at_ ps i p -> 0 <= p_prev p < i -> depth ps (p_prev p) n -> depth ps i (S n).

(** The references from the later proofs of the chains. *)
Definition share (p : vdf_proof) (i : Z) : Z := if p_prev p =? i then p_ref_cnt p else 0.
Fixpoint children (ps : list vdf_proof) (i : Z) : Z :=
  match ps with [] => 0 | p :: ps => share p i + children ps i end.

(** A request refers to itself, until it is about to be deleted. *)
Definition own (p : vdf_proof) : Z := if is_req p && negb (p_ref_cnt p =? 0) then 1 else 0.

Section Wf.
Variable interval : Z.

Record entry_ok (ps : list vdf_proof) (N i : Z) (p : vdf_proof) : Prop := {
  e_live : live p;
  e_link : link ps i p;
  e_seg : 0 <= p_seg_iters p;
  e_iters : 0 <= p_iters p < 2 ^ 56;
  e_chkp : is_req p = false -> 0 < p_seg_iters p /\ (interval | p_seg_iters p);
  e_ref : 0 <= p_ref_cnt p <= N;
  e_req : is_req p = true -> p_ref_cnt p <= 1;
  e_depth : exists n, depth ps i n /\ (n <= if is_req p then 64 else 63)%nat;
}.

(** [e] is what the counts of the proofs that have not started are off by. *)
Record table_ok (ps : list vdf_proof) (N : Z) (e : Z -> Z) : Prop := {
  t_len : Z.of_nat (length ps) < 2 ^ 16 - 1;
  t_N : 0 <= N < 2 ^ 16 - 1;
  t_entry : forall i p, at_ ps i p -> p = deleted_proof \/ entry_ok ps N i p;
  t_ref : forall i p, at_ ps i p -> live p -> is_started p = false -> p_ref_cnt p = own p + children ps i + e i;
  t_started : forall i p q, at_ ps i p -> live p -> is_started p = true -> 0 < p_seg_iters p -> at_ ps (p_prev p) q -> p_prev p <> HW_VDF_PROOF_NONE -> is_started q = true;
}.

Definition by_iters (ps : list vdf_proof) (a b : Z) : Prop := iters_at ps a <= iters_at ps b.

Record queue_ok (ps : list vdf_proof) (queued : list Z) : Prop := {
  k_nodup : NoDup queued;
  k_in : forall i, In i queued <-> exists p, at_ ps i p /\ live p /\ is_started p = false;
  k_sorted : StronglySorted (by_iters ps) queued;
}.

Definition no_more (i : Z) : Z := 0.
Definition one_more (k i : Z) : Z := if i =? k then 1 else 0.

(** After [N] requests. *)
Record hw_queue_ok (N : Z) (q : hw_queue) : Prop := {
  q_table : table_ok (proofs q) N no_more;
  q_refs : forall i p, at_ (proofs q) i p -> live p -> 1 <= p_ref_cnt p;
  q_queue : queue_ok (proofs q) (queued_proofs q);
  q_req : StronglySorted (fun a b => fst a <= fst b) (req_proofs q) /\ Forall (fun r => 0 < fst r < 2 ^ 56) (req_proofs q);
  q_done : forall i, In i (done_proofs q) -> exists p, at_ (proofs q) i p /\ live p /\ is_req p = true /\ is_done p = true /\ is_started p = true;
}.
End Wf.

(** ** Reading and writing the table *)

Lemma at_get ps i p : at_ ps i p -> get ps i = Ok p.
Proof. intros [_ H]. unfold get. now rewrite H. Qed.

Lemma at_range ps i p : at_ ps i p -> 0 <= i < Z.of_nat (length ps).
Proof. intros [H0 H]. split; [exact H0|]. assert (Z.to_nat i < length ps)%nat by (apply nth_error_Some; now rewrite H). lia. Qed.

Lemma at_fun ps i p q : at_ ps i p -> at_ ps i q -> p = q.
Proof. intros [_ H] [_ H']. rewrite H in H'. now injection H'. Qed.

Lemma at_exists ps i : 0 <= i < Z.of_nat (length ps) -> exists p, at_ ps i p.
Proof. intros H. destruct (nth_error ps (Z.to_nat i)) as [p|] eqn:E; [exists p; now split|]. apply nth_error_None in E. lia. Qed.

Lemma nth_error_update_nat {A} (l : list A) i x j : (i < length l)%nat -> nth_error (update l i x) j = if Nat.eqb j i then Some x else nth_error l j.
Proof.
  revert i j. induction l as [|y l IH]; intros i j Hi; cbn [length] in Hi; [lia|]. destruct i as [|i], j as [|j]; cbn [update nth_error Nat.eqb]; try reflexivity.
  apply IH. lia.
Qed.

Lemma at_put ps k x i p : 0 <= k < Z.of_nat (length ps) -> at_ (put ps k x) i p <-> (i = k /\ p = x) \/ (i <> k /\ at_ ps i p).
Proof.
  intros Hk. unfold at_, put. rewrite nth_error_update_nat by lia. destruct (Nat.eqb_spec (Z.to_nat i) (Z.to_nat k)) as [E|E].
  - split; [intros [H0 [= <-]]; left; split; [lia|reflexivity]|]. intros [[-> ->]|[Hn [H0 _]]]; [split; [lia|reflexivity]|lia].
  - split; [intros [H0 H]; right; split; [intros ->; now apply E|now split]|]. intros [[-> _]|[_ H]]; [now elim E|exact H].
Qed.

Lemma at_snoc ps x i p : at_ (ps ++ [x]) i p <-> at_ ps i p \/ (i = Z.of_nat (length ps) /\ p = x).
Proof.
  unfold at_. destruct (Nat.lt_ge_cases (Z.to_nat i) (length ps)) as [H|H].
  - rewrite nth_error_app1 by exact H. split; [tauto|]. intros [H'|[-> _]]; [exact H'|lia].
  - rewrite nth_error_app2 by exact H. split.
    + intros [H0 E]. destruct (Z.to_nat i - length ps)%nat as [|n] eqn:En; [|destruct n; discriminate]. injection E as ->. right. split; [lia|reflexivity].
    + intros [[_ E]|[-> ->]]; [apply nth_error_None in H; congruence|]. split; [lia|]. now rewrite Nat2Z.id, Nat.sub_diag.
Qed.

Lemma put_length ps k x : length (put ps k x) = length ps.
Proof. apply length_update. Qed.

Lemma iters_at_ok ps i p : at_ ps i p -> iters_at ps i = p_iters p.
Proof. intros [_ H]. unfold iters_at. now rewrite H. Qed.

Lemma deleted_not_live : ~ live deleted_proof.
Proof. unfold live. cbn. lia. Qed.

(** *** The references *)

Lemma children_put ps k p x i : at_ ps k p -> children (put ps k x) i = children ps i - share p i + share x i.
Proof.
  intros [Hk H]. unfold put. revert H. generalize (Z.to_nat k). clear. intros n. revert ps. induction n as [|n IH]; intros [|y ps] H; try discriminate; cbn [update children nth_error] in *.
  - injection H as ->. lia.
  - rewrite (IH ps H). lia.
Qed.

Lemma children_snoc ps x i : children (ps ++ [x]) i = children ps i + share x i.
Proof. induction ps as [|y ps IH]; cbn [app children]; lia. Qed.

Lemma children_app ps1 ps2 i : children (ps1 ++ ps2) i = children ps1 i + children ps2 i.
Proof. induction ps1 as [|y ps IH]; cbn [app children]; lia. Qed.

Lemma share_nonneg p i : 0 <= p_ref_cnt p -> 0 <= share p i.
Proof. unfold share. destruct (_ =? _); lia. Qed.

Lemma children_ge ps i j p : (forall k q, at_ ps k q -> 0 <= p_ref_cnt q) -> at_ ps j p -> share p i <= children ps i.
Proof.
  intros H0 [Hj H]. assert (HF : Forall (fun q => 0 <= p_ref_cnt q) ps).
  { apply Forall_forall. intros q Hq. apply In_nth_error in Hq as [n Hn]. apply (H0 (Z.of_nat n)). split; [lia|now rewrite Nat2Z.id]. }
  clear H0. revert H. generalize (Z.to_nat j). intros n. revert n. induction HF as [|q ps Hq HF IH]; intros [|n] H; try discriminate; cbn [children nth_error] in *.
  - injection H as ->. enough (0 <= children ps i) by lia. clear - HF. induction HF as [|q ps Hq _ IH]; cbn [children]; [lia|]. pose proof (share_nonneg q i Hq). lia.
  - specialize (IH n H). pose proof (share_nonneg q i Hq). lia.
Qed.

Lemma children_none ps i : (forall k q, at_ ps k q -> share q i = 0) -> children ps i = 0.
Proof.
  intros H. assert (HF : Forall (fun q => share q i = 0) ps).
  { apply Forall_forall. intros q Hq. apply In_nth_error in Hq as [n Hn]. apply (H (Z.of_nat n)). split; [lia|now rewrite Nat2Z.id]. }
  clear H. induction HF; cbn [children]; lia.
Qed.

(** *** Chains *)

Lemma depth_bound ps i n : depth ps i n -> 0 <= i < Z.of_nat (length ps) /\ Z.of_nat n <= i + 1.
Proof. induction 1 as [i p H E|i p n H Hp _ [IH1 IH2]]; pose proof (at_range _ _ _ H); lia. Qed.

Lemma depth_mono ps ps' (P : Z -> Prop) :
  (forall i p, P i -> at_ ps i p -> (exists p', at_ ps' i p' /\ p_prev p' = p_prev p) /\ (0 <= p_prev p < i -> P (p_prev p))) ->
  forall i n, depth ps i n -> P i -> depth ps' i n.
Proof.
  intros H. induction 1 as [i p Hp E|i p n Hp Hr _ IH]; intros Pi; destruct (H i p Pi Hp) as [(p' & Hp' & E') Hn].
  - apply (depth_first _ i p'); [exact Hp'|congruence].
  - apply (depth_next _ i p'); [exact Hp'|now rewrite E'|]. rewrite E'. now apply IH, Hn.
Qed.

Lemma link_mono ps ps' i p :
  (forall j q, at_ ps j q -> live q -> is_req q = false -> j = p_prev p -> exists q', at_ ps' j q' /\ live q' /\ is_req q' = false /\ p_iters q' = p_iters q) ->
  forall p', p_prev p' = p_prev p -> p_iters p' = p_iters p -> p_seg_iters p' = p_seg_iters p -> link ps i p -> link ps' i p'.
Proof.
  intros H p' E1 E2 E3 [[L1 L2]|[L1 (q & Hq & Lq & Rq & Eq)]]; [left|right]; rewrite E1, E2, E3; [now split|]. split; [exact L1|].
  destruct (H _ _ Hq Lq Rq eq_refl) as (q' & Hq' & Lq' & Rq' & Eq'). exists q'. do 3 (split; [assumption|]). congruence.
Qed.

(** *** What the changes keep *)

(** All but the count of references. *)
Definition shape (p : vdf_proof) : vdf_proof := set_ref 0 p.
Definition extends (ps ps' : list vdf_proof) : Prop := forall i p, at_ ps i p -> exists p', at_ ps' i p' /\ shape p' = shape p.

Lemma shape_facts p p' : shape p' = shape p -> p_iters p' = p_iters p /\ p_seg_iters p' = p_seg_iters p /\ p_prev p' = p_prev p /\
  (live p -> live p') /\ is_req p' = is_req p /\ is_started p' = is_started p.
Proof. unfold shape, set_ref, live, has. intros [= -> -> _ _ _ -> ->]. tauto. Qed.

Lemma extends_refl ps : extends ps ps.
Proof. intros i p H. now exists p. Qed.

Lemma extends_trans ps1 ps2 ps3 : extends ps1 ps2 -> extends ps2 ps3 -> extends ps1 ps3.
Proof. intros H1 H2 i p H. destruct (H1 i p H) as (p1 & A1 & E1). destruct (H2 i p1 A1) as (p2 & A2 & E2). exists p2. split; [exact A2|congruence]. Qed.

Lemma extends_snoc ps x : extends ps (ps ++ [x]).
Proof. intros i p H. exists p. split; [apply at_snoc; now left|reflexivity]. Qed.

Lemma extends_set_ref ps k p r : at_ ps k p -> extends ps (put ps k (set_ref r p)).
Proof.
  intros Hk i q Hq. destruct (Z.eq_dec i k) as [->|Hn].
  - rewrite (at_fun _ _ _ _ Hq Hk). exists (set_ref r p). split; [apply at_put; [exact (at_range _ _ _ Hk)|now left]|reflexivity].
  - exists q. split; [apply at_put; [exact (at_range _ _ _ Hk)|now right]|reflexivity].
Qed.

Section WfOps.
Variable interval : Z.
Abbreviation table_ok := (table_ok interval).
Abbreviation entry_ok := (entry_ok interval).

Lemma entry_extends ps ps' N N' i p p' : extends ps ps' -> entry_ok ps N i p -> shape p' = shape p -> 0 <= p_ref_cnt p' <= N' ->
  (is_req p = true -> p_ref_cnt p' <= 1) -> entry_ok ps' N' i p'.
Proof.
  intros HX [E1 E2 E3 E4 E5 E6 E7 (n & E8 & E9)] S Hr Hq. destruct (shape_facts _ _ S) as (S1 & S2 & S3 & S4 & S5 & S6).
  split; rewrite ?S1, ?S2, ?S5; try assumption; [now apply S4| |].
  - apply (link_mono ps ps' i p); try assumption. intros j q Hq1 Lq Rq _. destruct (HX j q Hq1) as (q' & Hq' & Sq).
    destruct (shape_facts _ _ Sq) as (T1 & T2 & T3 & T4 & T5 & T6). exists q'. rewrite T5, T1. split; [exact Hq'|]. split; [now apply T4|]. now split.
  - exists n. split; [|exact E9]. apply (depth_mono ps ps' (fun _ => True)); try easy. clear - HX. intros i p _ Hp. split; [|easy].
    destruct (HX i p Hp) as (p' & Hp' & S). exists p'. split; [exact Hp'|]. now destruct (shape_facts _ _ S) as (_ & _ & S3 & _).
Qed.

Lemma live_entry ps N e i p : table_ok ps N e -> at_ ps i p -> live p -> entry_ok ps N i p.
Proof. intros T H L. destruct (t_entry _ _ _ _ T i p H) as [->|E]; [now elim deleted_not_live|exact E]. Qed.

Lemma refs_nonneg ps N e : table_ok ps N e -> forall k q, at_ ps k q -> 0 <= p_ref_cnt q.
Proof. intros T k q H. destruct (t_entry _ _ _ _ T k q H) as [->|E]; [cbn; lia|]. pose proof (e_ref _ _ _ _ _ E). lia. Qed.

Lemma table_ext ps N e e' : table_ok ps N e -> (forall i p, at_ ps i p -> is_started p = false -> e i = e' i) -> table_ok ps N e'.
Proof. intros [T1 T2 T3 T4 T5] H. split; try assumption. intros i p Hp L S. rewrite <- (H i p Hp S). now apply T4. Qed.

Lemma table_set_ref ps N N' e k p r : table_ok ps N e -> at_ ps k p -> live p -> N <= N' < 2 ^ 16 - 1 -> 0 <= r <= N' -> (is_req p = true -> r <= 1) ->
  table_ok (put ps k (set_ref r p)) N' (fun i => e i + (if i =? k then r - own (set_ref r p) - (p_ref_cnt p - own p) else 0) - (if p_prev p =? i then r - p_ref_cnt p else 0)).
Proof.
  intros T Hk L HN Hr Hq. pose proof (at_range _ _ _ Hk) as Rk. pose proof (extends_set_ref ps k p r Hk) as HX. destruct T as [T1 T2 T3 T4 T5].
  split; [now rewrite put_length|lia| | |].
  - intros i q H. apply at_put in H as [[-> ->]|[Hn H]]; [|destruct (T3 i q H) as [->|E]; [now left|]|exact Rk]; right.
    + destruct (T3 k p Hk) as [->|E]; [now elim deleted_not_live|]. apply (entry_extends ps _ N N' k p); try assumption; reflexivity.
    + pose proof (e_ref _ _ _ _ _ E). apply (entry_extends ps _ N N' i q); try assumption; try reflexivity; [lia|apply (e_req _ _ _ _ _ E)].
  - intros i q H Lq Sq. rewrite (children_put ps k p) by exact Hk. apply at_put in H as [[-> ->]|[Hn H]]; [| |exact Rk].
    + rewrite Z.eqb_refl. pose proof (T4 k p Hk L Sq) as E. unfold share at 1 2. cbn [set_ref p_ref_cnt p_prev]. destruct (p_prev p =? k); lia.
    + destruct (Z.eqb_spec i k); [contradiction|]. pose proof (T4 i q H Lq Sq) as E. unfold share at 1 2. cbn [set_ref p_ref_cnt p_prev]. destruct (p_prev p =? i); lia.
  - intros i q s H Lq Sq Hs H2 Hn. apply at_put in H as [[-> ->]|[Hi H]]; [| |exact Rk]; apply at_put in H2 as [[E2 ->]|[Hi2 H2]]; try exact Rk.
    + cbn [set_ref p_prev] in E2. destruct (T3 k p Hk) as [->|E]; [now elim deleted_not_live|]. destruct (e_link _ _ _ _ _ E) as [[E0 _]|[E0 _]]; [contradiction|lia].
    + exact (T5 k p s Hk L Sq Hs H2 Hn).
    + rewrite E2 in *. exact (T5 i q p H Lq Sq Hs ltac:(rewrite E2; exact Hk) ltac:(rewrite E2; exact Hn)).
    + exact (T5 i q s H Lq Sq Hs H2 Hn).
Qed.

Lemma none_index ps N e i p : table_ok ps N e -> at_ ps i p -> i <> HW_VDF_PROOF_NONE.
Proof. intros T H. pose proof (at_range _ _ _ H). pose proof (t_len _ _ _ _ T). unfold HW_VDF_PROOF_NONE. lia. Qed.

Lemma own_chkp p : is_req p = false -> own p = 0.
Proof. intros E. unfold own. now rewrite E. Qed.

(** *** Appending a proof *)

Lemma children_end ps N e : table_ok ps N e -> children ps (Z.of_nat (length ps)) = 0.
Proof.
  intros T. apply children_none. intros k q H. unfold share. destruct (Z.eqb_spec (p_prev q) (Z.of_nat (length ps))) as [E|]; [|reflexivity].
  pose proof (at_range _ _ _ H). pose proof (t_len _ _ _ _ T). destruct (t_entry _ _ _ _ T k q H) as [->|Eq]; [cbn in E; lia|].
  destruct (e_link _ _ _ _ _ Eq) as [[E0 _]|[E0 _]]; unfold HW_VDF_PROOF_NONE in *; lia.
Qed.

Lemma table_snoc ps N e x : table_ok ps N e -> Z.of_nat (length ps) + 1 < 2 ^ 16 - 1 -> entry_ok (ps ++ [x]) N (Z.of_nat (length ps)) x ->
  is_started x = false -> p_ref_cnt x = 1 ->
  table_ok (ps ++ [x]) N (fun i => if i =? Z.of_nat (length ps) then 1 - own x else e i - (if p_prev x =? i then 1 else 0)).
Proof.
  intros T Hlen Ex Sx Rx. pose proof (children_end ps N e T) as C0. pose proof (extends_snoc ps x) as HX.
  assert (Hprev : p_prev x <> Z.of_nat (length ps)) by (destruct (e_link _ _ _ _ _ Ex) as [[E0 _]|[E0 _]]; [rewrite E0; unfold HW_VDF_PROOF_NONE; lia|lia]).
  destruct T as [T1 T2 T3 T4 T5]. split; [rewrite length_app; cbn [length]; lia|exact T2| | |].
  - intros i p H. apply at_snoc in H as [H|[-> ->]]; [|now right]. destruct (T3 i p H) as [->|E]; [now left|right].
    apply (entry_extends ps _ N N i p); try assumption; try reflexivity; [apply (e_ref _ _ _ _ _ E)|apply (e_req _ _ _ _ _ E)].
  - intros i p H L S. rewrite children_snoc. unfold share. rewrite Rx. apply at_snoc in H as [H|[-> ->]].
    + pose proof (at_range _ _ _ H). destruct (Z.eqb_spec i (Z.of_nat (length ps))); [lia|]. rewrite (T4 i p H L S). destruct (p_prev x =? i); lia.
    + rewrite Z.eqb_refl, C0, Rx. destruct (Z.eqb_spec (p_prev x) (Z.of_nat (length ps))); [contradiction|lia].
  - intros i p q H L S Hs H2 Hn. apply at_snoc in H as [H|[-> ->]]; [|congruence]. apply at_snoc in H2 as [H2|[E2 ->]]; [exact (T5 i p q H L S Hs H2 Hn)|].
    destruct (T3 i p H) as [->|E]; [now elim deleted_not_live|]. pose proof (at_range _ _ _ H). destruct (e_link _ _ _ _ _ E) as [[E0 _]|[E0 _]]; [contradiction|lia].
Qed.

(** *** Counting and referring to the proofs of a chain *)

Lemma cnt_segments_ok ps i n : Z.of_nat (length ps) < 2 ^ 16 - 1 -> depth ps i n -> forall fuel c, (n <= S fuel)%nat -> 0 <= c -> c + Z.of_nat n < 256 -> cnt_segments fuel ps i c = Ok (c + Z.of_nat n).
Proof.
  intros Hlen. induction 1 as [i p H E|i p n H Hp HD IH]; intros fuel c Hf Hc Hb; destruct fuel as [|fuel]; cbn [cnt_segments]; rewrite (at_get _ _ _ H); cbn [bind];
    unfold uwrap; rewrite (Z.mod_small (c + 1)) by lia.
  - now rewrite E, Z.eqb_refl.
  - now rewrite E, Z.eqb_refl.
  - inversion HD; subst; lia.
  - destruct (depth_bound _ _ _ HD) as [HR _]. destruct (Z.eqb_spec (p_prev p) HW_VDF_PROOF_NONE) as [E|_]; [unfold HW_VDF_PROOF_NONE in E; lia|].
    rewrite IH by lia. f_equal. lia.
Qed.

Lemma prev_live ps N e i p : table_ok ps N e -> at_ ps i p -> live p -> p_prev p <> HW_VDF_PROOF_NONE ->
  0 <= p_prev p < i /\ exists q, at_ ps (p_prev p) q /\ live q /\ is_req q = false /\ p_iters p = p_iters q + p_seg_iters p.
Proof. intros T H L Hn. destruct (e_link _ _ _ _ _ (live_entry ps N e i p T H L)) as [[E0 _]|HL]; [contradiction|exact HL]. Qed.

Lemma depth_live ps N e i p : table_ok ps N e -> at_ ps i p -> live p -> exists n, depth ps i n /\ (n <= if is_req p then 64 else 63)%nat.
Proof. intros T H L. exact (e_depth _ _ _ _ _ (live_entry ps N e i p T H L)). Qed.

Lemma depth_prev ps i p n : depth ps i n -> at_ ps i p -> p_prev p <> HW_VDF_PROOF_NONE -> exists m, n = S m /\ depth ps (p_prev p) m.
Proof.
  intros HD H Hn. inversion HD as [? q Hq E|? q m Hq Hp HD']; subst; rewrite (at_fun _ _ _ _ H Hq) in *; [contradiction|]. now exists m.
Qed.

(** References only grow, or only shrink. *)
Definition refs_grow (ps ps' : list vdf_proof) : Prop := forall i p', at_ ps' i p' -> exists p, at_ ps i p /\ shape p' = shape p /\ p_ref_cnt p <= p_ref_cnt p'.

Lemma refs_grow_trans ps1 ps2 ps3 : refs_grow ps1 ps2 -> refs_grow ps2 ps3 -> refs_grow ps1 ps3.
Proof.
  intros H1 H2 i p3 H. destruct (H2 i p3 H) as (p2 & A2 & E2 & R2). destruct (H1 i p2 A2) as (p1 & A1 & E1 & R1). exists p1. split; [exact A1|]. split; [congruence|lia].
Qed.

Lemma refs_grow_put ps k p r : at_ ps k p -> p_ref_cnt p <= r -> refs_grow ps (put ps k (set_ref r p)).
Proof.
  intros Hk Hr i q H. apply at_put in H as [[-> ->]|[_ H]]; [exists p|exists q|exact (at_range _ _ _ Hk)]; split; try assumption; (split; [reflexivity|]); cbn [set_ref p_ref_cnt]; lia.
Qed.

Lemma inc_ref_ok fuel : forall ps N e idx n p, table_ok ps (N + 1) e -> (forall i q, at_ ps i q -> i <= idx -> live q -> p_ref_cnt q <= N) ->
  at_ ps idx p -> live p -> is_req p = false -> depth ps idx n -> (n <= S fuel)%nat ->
  exists ps', inc_ref fuel ps idx = Ok ps' /\ extends ps ps' /\ refs_grow ps ps' /\ length ps' = length ps /\
    table_ok ps' (N + 1) (fun i => e i + one_more idx i).
Proof.
  induction fuel as [|fuel IH]; intros ps N e idx n p T HN H L Rq HD Hf; cbn [inc_ref]; rewrite (at_get _ _ _ H); cbn [bind];
    pose proof (live_entry _ _ _ _ _ T H L) as E; pose proof (t_N _ _ _ _ T) as TN; pose proof (e_ref _ _ _ _ _ E) as ER;
    pose proof (HN idx p H ltac:(lia) L) as HNp; unfold uwrap; rewrite (Z.mod_small (p_ref_cnt p + 1)) by lia;
    set (ps1 := put ps idx (set_ref (p_ref_cnt p + 1) p));
    pose proof (table_set_ref ps (N + 1) (N + 1) e idx p (p_ref_cnt p + 1) T H L ltac:(lia) ltac:(lia) ltac:(congruence)) as T1; fold ps1 in T1;
    rewrite !own_chkp in T1 by exact Rq; pose proof (extends_set_ref ps idx p (p_ref_cnt p + 1) H) as X1; fold ps1 in X1;
    pose proof (refs_grow_put ps idx p (p_ref_cnt p + 1) H ltac:(lia)) as G1; fold ps1 in G1.
  - destruct (Z.eqb_spec (p_prev p) HW_VDF_PROOF_NONE) as [E0|E0]; [|destruct (depth_prev _ _ _ _ HD H E0) as (m & -> & HD'); inversion HD'; subst; lia].
    exists ps1. split; [reflexivity|]. do 2 (split; [assumption|]). split; [apply put_length|]. apply (table_ext _ _ _ _ T1). intros i q Hq _. cbv beta. unfold one_more.
    rewrite E0. pose proof (none_index _ _ _ _ _ T1 Hq). destruct (Z.eqb_spec HW_VDF_PROOF_NONE i); [congruence|]. destruct (i =? idx); lia.
  - destruct (Z.eqb_spec (p_prev p) HW_VDF_PROOF_NONE) as [E0|E0].
    { exists ps1. split; [reflexivity|]. do 2 (split; [assumption|]). split; [apply put_length|]. apply (table_ext _ _ _ _ T1). intros i q Hq _. cbv beta. unfold one_more.
      rewrite E0. pose proof (none_index _ _ _ _ _ T1 Hq). destruct (Z.eqb_spec HW_VDF_PROOF_NONE i); [congruence|]. destruct (i =? idx); lia. }
    destruct (depth_prev _ _ _ _ HD H E0) as (m & -> & HD'). destruct (prev_live _ _ _ _ _ T H L E0) as (Hp & q & Hq & Lq & Rq' & _).
    assert (Hq1 : at_ ps1 (p_prev p) q) by (apply at_put; [exact (at_range _ _ _ H)|right; split; [lia|exact Hq]]).
    destruct (IH ps1 N _ (p_prev p) m q T1) as (ps' & -> & X2 & G2 & L2 & T2); try assumption; try lia.
    + intros i s Hs Hi Ls. apply at_put in Hs as [[-> _]|[_ Hs]]; [lia| |exact (at_range _ _ _ H)]. apply (HN i s Hs); [lia|exact Ls].
    + apply (depth_mono ps ps1 (fun _ => True)); try easy. intros i s _ Hs. split; [|easy]. destruct (X1 i s Hs) as (s' & Hs' & S). exists s'. split; [exact Hs'|].
      now destruct (shape_facts _ _ S) as (_ & _ & S3 & _).
    + exists ps'. split; [reflexivity|]. split; [exact (extends_trans _ _ _ X1 X2)|]. split; [exact (refs_grow_trans _ _ _ G1 G2)|]. split; [rewrite L2; apply put_length|].
      apply (table_ext _ _ _ _ T2). intros i s Hs _. cbv beta. unfold one_more. destruct (Z.eqb_spec i (p_prev p)), (Z.eqb_spec (p_prev p) i); try congruence; destruct (i =? idx); lia.
Qed.

(** *** Giving references back *)

Lemma children_nonneg ps i : (forall k q, at_ ps k q -> 0 <= p_ref_cnt q) -> 0 <= children ps i.
Proof.
  intros H. destruct ps as [|p ps]; [cbn; lia|]. pose proof (children_ge (p :: ps) i 0 p H (conj (Z.le_refl 0) eq_refl)).
  pose proof (share_nonneg p i (H 0 p (conj (Z.le_refl 0) eq_refl))). lia.
Qed.

(** [del] are the proofs without references. *)
Record released (ps : list vdf_proof) (N : Z) (del : list Z) : Prop := {
  r_in : forall i, In i del <-> exists p, at_ ps i p /\ live p /\ p_ref_cnt p = 0;
  r_nodup : NoDup del;
  r_started : forall i p, at_ ps i p -> live p -> is_started p = true -> 1 <= p_ref_cnt p;
}.

Lemma released_put ps N e del k p : table_ok ps N e -> released ps N del -> at_ ps k p -> live p -> is_started p = false -> 1 <= p_ref_cnt p ->
  let r := p_ref_cnt p - 1 in released (put ps k (set_ref r p)) N (if r =? 0 then del ++ [k] else del).
Proof.
  intros T [R1 R2 R3] H L S Hr r. pose proof (at_range _ _ _ H) as Rk.
  assert (Hk : ~ In k del) by (intros Hin; apply R1 in Hin as (q & Hq & _ & E0); rewrite (at_fun _ _ _ _ Hq H) in E0; lia).
  assert (HI : forall i, In i (if r =? 0 then del ++ [k] else del) <-> In i del \/ (i = k /\ r = 0)).
  { intros i. destruct (Z.eqb_spec r 0); [rewrite in_app_iff; cbn; intuition|tauto]. }
  split.
  - intros i. rewrite HI, R1. split.
    + intros [(q & Hq & Lq & E0)|[-> E0]].
      * exists q. split; [apply at_put; [exact Rk|right; split; [|exact Hq]]|now split]. intros ->. rewrite (at_fun _ _ _ _ Hq H) in E0. lia.
      * exists (set_ref r p). split; [apply at_put; [exact Rk|now left]|]. split; [exact L|exact E0].
    + intros (q & Hq & Lq & E0). apply at_put in Hq as [[-> ->]|[Hn Hq]]; [right; now split|left; now exists q|exact Rk].
  - destruct (r =? 0); [|exact R2]. apply NoDup_app; [exact R2|repeat constructor; easy|]. intros i Hi [<-|[]]. contradiction.
  - intros i q Hq Lq Sq. apply at_put in Hq as [[-> ->]|[_ Hq]]; [|exact (R3 i q Hq Lq Sq)|exact Rk]. exfalso. change (is_started (set_ref r p)) with (is_started p) in Sq. congruence.
Qed.

(** What the count of the next proof is off by: a request is counted once, and
    the removal of a proof from a chain is seen by the one before it. *)
Definition walk_at (p : vdf_proof) (idx : Z) (e : Z -> Z) : Prop :=
  (is_req p = true /\ p_ref_cnt p = 1 /\ e = no_more) \/ (is_req p = false /\ e = one_more idx).

Lemma dec_step ps N e idx p del : table_ok ps N e -> released ps N del -> at_ ps idx p -> live p -> is_started p = false -> walk_at p idx e ->
  let r := p_ref_cnt p - 1 in let ps1 := put ps idx (set_ref r p) in
  1 <= p_ref_cnt p < 2 ^ 16 /\ table_ok ps1 N (one_more (p_prev p)) /\ released ps1 N (if r =? 0 then del ++ [idx] else del) /\ extends ps ps1 /\
  (forall i q, at_ ps i q -> is_req q = true -> i <> idx -> at_ ps1 i q) /\ (is_req p = true -> exists q, at_ ps1 idx q /\ p_ref_cnt q = 0).
Proof.
  intros T Rel H L S Hw r ps1. pose proof (live_entry _ _ _ _ _ T H L) as E. pose proof (t_N _ _ _ _ T) as TN. pose proof (e_ref _ _ _ _ _ E) as ER.
  pose proof (t_ref _ _ _ _ T idx p H L S) as EQ. pose proof (children_nonneg ps idx (refs_nonneg _ _ _ T)) as HC. pose proof (at_range _ _ _ H) as Rk.
  assert (Hr : 1 <= p_ref_cnt p) by (destruct Hw as [(_ & -> & _)|[Rq ->]]; [lia|rewrite (own_chkp p Rq) in EQ; unfold one_more in EQ; rewrite Z.eqb_refl in EQ; lia]).
  assert (Ho : p_ref_cnt p - own p = (if is_req p then 0 else p_ref_cnt p) /\ r - own (set_ref r p) = (if is_req p then 0 else r)).
  { unfold own. change (is_req (set_ref r p)) with (is_req p). cbn [set_ref p_ref_cnt]. subst r. destruct Hw as [(-> & -> & _)|[-> _]]; cbn; lia. }
  destruct Ho as [Ho1 Ho2]. split; [lia|]. split; [|split; [exact (released_put ps N e del idx p T Rel H L S Hr)|split; [exact (extends_set_ref ps idx p r H)|split]]].
  - apply (table_ext _ _ _ _ (table_set_ref ps N N e idx p r T H L ltac:(lia) ltac:(lia) ltac:(intros Rq; pose proof (e_req _ _ _ _ _ E Rq); lia))).
    intros i q _ _. cbv beta. rewrite Ho1, Ho2. subst r. unfold one_more. rewrite (Z.eqb_sym i (p_prev p)).
    destruct Hw as [(-> & E1 & ->)|[-> ->]]; unfold one_more, no_more; destruct (i =? idx), (p_prev p =? i); lia.
  - intros i q Hq _ Hn. apply at_put; [exact Rk|right; now split].
  - intros Rq. exists (set_ref r p). split; [apply at_put; [exact Rk|now left]|]. destruct Hw as [(_ & E1 & _)|[Rq' _]]; [cbn [set_ref p_ref_cnt]; lia|congruence].
Qed.

Lemma dec_walk_ok fuel : forall ps N e idx n p del, table_ok ps N e -> released ps N del -> at_ ps idx p -> live p -> depth ps idx n -> (n <= S fuel)%nat ->
  (is_req p = true -> is_started p = false) -> walk_at p idx e ->
  exists ps' del', dec_walk fuel ps idx del = Ok (ps', del') /\ extends ps ps' /\ length ps' = length ps /\ table_ok ps' N no_more /\ released ps' N del' /\
    (forall i q, at_ ps i q -> is_req q = true -> i <> idx -> at_ ps' i q) /\
    (is_req p = true -> exists q, at_ ps' idx q /\ p_ref_cnt q = 0).
Proof.
  induction fuel as [|fuel IH]; intros ps N e idx n p del T Rel H L HD Hf HS Hw; cbn [dec_walk]; rewrite (at_get _ _ _ H); cbn [bind]; (destruct (is_started p) eqn:S;
    [exists ps, del; split; [reflexivity|]; split; [apply extends_refl|]; split; [reflexivity|]; destruct Hw as [(Rq & _)|[Rq ->]]; [specialize (HS Rq); discriminate|];
     split; [|split; [exact Rel|split; [easy|congruence]]]; apply (table_ext _ _ _ _ T); intros i q Hq Sq; unfold one_more, no_more; destruct (Z.eqb_spec i idx) as [->|]; [|reflexivity];
     rewrite (at_fun _ _ _ _ Hq H) in Sq; congruence|]);
    destruct (dec_step ps N e idx p del T Rel H L S Hw) as (Hr & T1 & Rel1 & X1 & HQ & H0); unfold uwrap; rewrite (Z.mod_small (p_ref_cnt p - 1)) by lia;
    set (r := p_ref_cnt p - 1) in *; set (ps1 := put ps idx (set_ref r p)) in *; set (del1 := if r =? 0 then del ++ [idx] else del) in *; assert (HL1 : length ps1 = length ps) by apply put_length;
    (destruct (Z.eqb_spec (p_prev p) HW_VDF_PROOF_NONE) as [E0|E0];
    [exists ps1, del1; split; [reflexivity|]; do 2 (split; [assumption|]); split; [|split; [assumption|now split]];
     apply (table_ext _ _ _ _ T1); intros i q Hq _; rewrite E0; unfold one_more, no_more; pose proof (none_index _ _ _ _ _ T1 Hq); now destruct (Z.eqb_spec i HW_VDF_PROOF_NONE)|]);
    destruct (depth_prev _ _ _ _ HD H E0) as (m & -> & HD').
  - inversion HD'; subst; lia.
  - destruct (prev_live _ _ _ _ _ T H L E0) as (Hp & q & Hq & Lq & Rq' & _).
    assert (Hq1 : at_ ps1 (p_prev p) q) by (apply at_put; [exact (at_range _ _ _ H)|right; split; [lia|exact Hq]]).
    destruct (IH ps1 N _ (p_prev p) m q del1 T1 Rel1 Hq1 Lq) as (ps' & del' & -> & X2 & L2 & T2 & Rel2 & HQ2 & _); try lia; [|congruence|right; now split|].
    + apply (depth_mono ps ps1 (fun _ => True)); try easy. intros i s _ Hs. split; [|easy]. destruct (X1 i s Hs) as (s' & Hs' & Ss). exists s'. split; [exact Hs'|].
      now destruct (shape_facts _ _ Ss) as (_ & _ & S3 & _).
    + exists ps', del'. split; [reflexivity|]. split; [exact (extends_trans _ _ _ X1 X2)|]. split; [congruence|]. do 2 (split; [assumption|]).
      assert (Hnr : forall i s, at_ ps1 i s -> is_req s = true -> at_ ps' i s) by (intros i s Hs Rs; apply HQ2; try assumption; intros ->; rewrite (at_fun _ _ _ _ Hs Hq1) in Rs; congruence).
      split; [intros i s Hs Rs Hn; now apply Hnr; [apply HQ|]|]. intros Rq. destruct (H0 Rq) as (s & Hs & Es). exists s. split; [|exact Es]. apply Hnr; [exact Hs|].
      apply at_put in Hs as [[_ ->]|[Hn _]]; [exact Rq|now elim Hn|exact (at_range _ _ _ H)].
Qed.

Lemma dec_walks_ok N idxs : forall ps del, table_ok ps N no_more -> released ps N del -> NoDup idxs ->
  (forall i, In i idxs -> exists p, at_ ps i p /\ live p /\ is_req p = true /\ is_started p = false /\ p_ref_cnt p = 1) ->
  exists ps' del', dec_walks ps idxs del = Ok (ps', del') /\ extends ps ps' /\ length ps' = length ps /\ table_ok ps' N no_more /\ released ps' N del' /\
    (forall i q, at_ ps i q -> is_req q = true -> ~ In i idxs -> at_ ps' i q) /\ (forall i, In i idxs -> exists q, at_ ps' i q /\ p_ref_cnt q = 0).
Proof.
  induction idxs as [|idx idxs IH]; intros ps del T Rel Hnd HI; cbn [dec_walks].
  { exists ps, del. split; [reflexivity|]. split; [apply extends_refl|]. split; [reflexivity|]. do 2 (split; [assumption|]). split; [easy|easy]. }
  destruct (HI idx (or_introl eq_refl)) as (p & Hp & L & Rq & S & E1). destruct (depth_live _ _ _ _ _ T Hp L) as (n & HD & _).
  destruct (depth_bound _ _ _ HD) as [HR Hn]. destruct (dec_walk_ok (length ps) ps N no_more idx n p del T Rel Hp L HD ltac:(lia) (fun _ => S) (or_introl (conj Rq (conj E1 eq_refl))))
    as (ps1 & del1 & -> & X1 & L1 & T1 & Rel1 & HQ1 & H01). cbn [bind].
  assert (Hni : ~ In idx idxs) by now inversion Hnd. assert (Hnd' : NoDup idxs) by now inversion Hnd.
  destruct (IH ps1 del1 T1 Rel1 Hnd') as (ps2 & del2 & -> & X2 & L2 & T2 & Rel2 & HQ2 & H02).
  { intros i Hi. destruct (HI i (or_intror Hi)) as (q & Hq & H). exists q. split; [|exact H]. apply HQ1; [exact Hq|tauto|]. intros ->. contradiction. }
  exists ps2, del2. split; [reflexivity|]. split; [exact (extends_trans _ _ _ X1 X2)|]. split; [congruence|]. do 2 (split; [assumption|]). split.
  - intros i q Hq Rq' Hn'. apply HQ2; [apply HQ1; try assumption|exact Rq'|]; intros H; apply Hn'; [left; congruence|now right].
  - intros i [<-|Hi]; [|now apply H02]. destruct (H01 Rq) as (q & Hq & E0). exists q. split; [|exact E0].
    apply HQ2; [exact Hq| |exact Hni]. destruct (X1 idx p Hp) as (p' & Hp' & Sh). rewrite (at_fun _ _ _ _ Hq Hp'). destruct (shape_facts _ _ Sh) as (_ & _ & _ & _ & -> & _). exact Rq.
Qed.

(** *** Deleting *)

Lemma erase_notin l idx : ~ In idx l -> erase_queued l idx = l.
Proof. induction l as [|x l IH]; intros H; cbn [erase_queued]; [reflexivity|]. cbn [In] in H. destruct (Z.eqb_spec x idx); [tauto|]. rewrite IH; tauto. Qed.

Lemma erase_filter l idx : NoDup l -> erase_queued l idx = filter (fun x => negb (x =? idx)) l.
Proof.
  induction 1 as [|x l Hx _ IH]; cbn [erase_queued filter]; [reflexivity|]. destruct (Z.eqb_spec x idx) as [->|]; cbn [negb]; [|now rewrite IH].
  rewrite erase_notin in IH by exact Hx. rewrite <- IH. destruct l as [|y l]; [reflexivity|]. f_equal. apply erase_notin. cbn [In] in Hx. tauto.
Qed.

Definition keeps (dels : list Z) (x : Z) : bool := negb (existsb (Z.eqb x) dels).

Lemma keeps_spec dels x : keeps dels x = true <-> ~ In x dels.
Proof.
  unfold keeps. rewrite Bool.negb_true_iff, <- Bool.not_true_iff_false, existsb_exists. split; intros H Hin; apply H.
  - exists x. split; [exact Hin|apply Z.eqb_refl].
  - destruct Hin as (y & Hy & E). apply Z.eqb_eq in E. now subst y.
Qed.

Lemma delete_proofs_ok dels : forall ps queued last, NoDup queued -> (forall i, In i dels -> 0 <= i < Z.of_nat (length ps)) -> -1 <= last ->
  exists ps' last', delete_proofs ps queued last dels = (ps', filter (keeps dels) queued, last') /\ length ps' = length ps /\ -1 <= last' <= last /\
    (forall i, last' < i <= last -> In i dels) /\
    (forall i p, at_ ps' i p <-> (In i dels /\ p = deleted_proof) \/ (~ In i dels /\ at_ ps i p)) /\
    (forall i, i <> HW_VDF_PROOF_NONE -> (forall k p, In k dels -> at_ ps k p -> share p i = 0) -> children ps' i = children ps i).
Proof.
  induction dels as [|idx dels IH]; intros ps queued last Hnd Hr Hl; cbn [delete_proofs].
  { exists ps, last. rewrite (filter_ext (keeps []) (fun _ => true)), filter_true by reflexivity. do 2 (split; [reflexivity|]). split; [lia|]. split; [lia|]. split; [intros i p; cbn [In]; tauto|reflexivity]. }
  pose proof (Hr idx (or_introl eq_refl)) as Ridx. set (last1 := if idx =? last then last - 1 else last).
  assert (Hl1 : -1 <= last1 <= last /\ (forall i, last1 < i <= last -> i = idx)) by (subst last1; destruct (Z.eqb_spec idx last); (split; [lia|intros; lia])).
  destruct (IH (put ps idx deleted_proof) (erase_queued queued idx) last1) as (ps' & last' & -> & L' & Hl' & HI & Hat & HC); [rewrite erase_filter by exact Hnd; now apply NoDup_filter| |lia|].
  { intros i Hi. rewrite put_length. apply Hr. now right. }
  exists ps', last'. split.
  { f_equal. f_equal. rewrite erase_filter by exact Hnd. clear. induction queued as [|x q IH]; [reflexivity|]. cbn [filter]. unfold keeps at 2. cbn [existsb].
    destruct (x =? idx); cbn [negb orb filter]; [exact IH|]. fold (keeps dels x). destruct (keeps dels x); [now f_equal|exact IH]. }
  split; [now rewrite L', put_length|]. split; [lia|]. split; [|split].
  - intros i Hi. destruct (Z.le_gt_cases i last1); [right; apply HI; lia|left; symmetry; apply Hl1; lia].
  - intros i p. rewrite Hat, at_put by exact Ridx. cbn [In]. destruct (Z.eq_dec i idx) as [->|Hn]; [|intuition congruence].
    split; [intros [[_ E]|[_ [[_ E]|[Hn _]]]]; [left; now split; [left|]|left; now split; [left|]|now elim Hn]|]. intros [[_ ->]|[Hn _]]; [|now elim Hn; left].
    destruct (in_dec Z.eq_dec idx dels); [left|right]; tauto.
  - intros i Hi H. destruct (at_exists ps idx Ridx) as (p & Hp). assert (E0 : share deleted_proof i = 0) by (unfold share; cbn [deleted_proof p_prev]; now destruct (Z.eqb_spec 0xffff i) as [<-|]).
    rewrite HC; [rewrite (children_put ps idx p) by exact Hp; rewrite (H idx p (or_introl eq_refl) Hp); lia|exact Hi|].
    intros k q Hk Hq. apply at_put in Hq as [[_ ->]|[_ Hq]]; [exact E0|exact (H k q (or_intror Hk) Hq)|exact Ridx].
Qed.

(** The requests in the table, by their index. *)
Definition req_at (ps : list vdf_proof) (i : Z) : bool :=
  match nth_error ps (Z.to_nat i) with Some p => (0 <=? p_flags p) && (p_flags p <? 8) && is_req p | None => false end.
Definition req_indices (ps : list vdf_proof) : list Z := filter (req_at ps) (map Z.of_nat (seq 0 (length ps))).

Lemma req_indices_in ps i : In i (req_indices ps) <-> exists p, at_ ps i p /\ live p /\ is_req p = true.
Proof.
  unfold req_indices, req_at, live. rewrite filter_In, in_map_iff. split.
  - intros [(n & <- & _) H]. rewrite Nat2Z.id in H. destruct (nth_error ps n) as [p|] eqn:E; [|discriminate]. exists p. split; [split; [lia|now rewrite Nat2Z.id]|].
    rewrite !Bool.andb_true_iff, Z.leb_le, Z.ltb_lt in H. tauto.
  - intros (p & Hp & L & R). pose proof (at_range _ _ _ Hp). split; [exists (Z.to_nat i); split; [lia|apply in_seq; lia]|]. destruct Hp as [_ ->]. rewrite R, !Bool.andb_true_iff, Z.leb_le, Z.ltb_lt. tauto.
Qed.

Lemma req_indices_nodup ps : NoDup (req_indices ps).
Proof. apply NoDup_filter. apply Finite.Injective_map_NoDup; [intros a b; apply Nat2Z.inj|apply seq_NoDup]. Qed.

Section WithLaws.
Context `{SrtL : StdSortLaws}.

(** What is left of a state when the requests [idxs] are taken out. *)
Record taken_out (idxs : list Z) (ps ps' : list vdf_proof) : Prop := {
  o_length : (length ps' <= length ps)%nat;
  o_old : forall i p', at_ ps' i p' -> live p' -> exists p, at_ ps i p /\ shape p' = shape p;
  o_req : forall i p, at_ ps i p -> is_req p = true -> live p -> ~ In i idxs -> at_ ps' i p;
  o_out : forall i p', at_ ps' i p' -> live p' -> ~ In i idxs;
  o_started : forall i p, at_ ps i p -> live p -> is_started p = true -> exists p', at_ ps' i p' /\ shape p' = shape p;
}.

Lemma sorted_filter {A} (R : A -> A -> Prop) f l : StronglySorted R l -> StronglySorted R (filter f l).
Proof.
  induction 1 as [|x l _ IH Hx]; cbn [filter]; [constructor|]. destruct (f x); [|exact IH]. constructor; [exact IH|].
  apply Forall_forall. intros y Hy. apply filter_In in Hy as [Hy _]. rewrite Forall_forall in Hx. now apply Hx.
Qed.

Lemma sorted_impl {A} (R S : A -> A -> Prop) l : (forall a b, In a l -> In b l -> R a b -> S a b) -> StronglySorted R l -> StronglySorted S l.
Proof.
  intros H HS. induction HS as [|x l _ IH Hx]; [constructor|]. constructor; [apply IH; intros a b Ha Hb; apply H; now right|].
  apply Forall_forall. intros y Hy. rewrite Forall_forall in Hx. apply H; [now left|now right|now apply Hx].
Qed.

(** The walks are over: what has no references is deleted, and the end of the table cut off. *)
Lemma delete_ok ps N del queued : table_ok ps N no_more -> released ps N del ->
  NoDup queued -> (forall i, In i queued <-> exists p, at_ ps i p /\ live p /\ is_started p = false) -> StronglySorted (by_iters ps) queued ->
  let '(ps1, queued1, last) := delete_proofs ps queued (Z.of_nat (length ps) - 1) (rev (std_sort Z.ltb del)) in
  let ps' := firstn (Z.to_nat (last + 1)) ps1 in
  (length ps' <= length ps)%nat /\ (forall i p, at_ ps' i p -> p = deleted_proof \/ (at_ ps i p /\ ~ In i del)) /\ (forall i p, at_ ps i p -> ~ In i del -> at_ ps' i p) /\
  queued1 = filter (keeps del) queued /\ (forall i, i < 2 ^ 16 - 1 -> children ps' i = children ps i).
Proof.
  intros T [R1 R2 R3] Hnd Hin Hs. pose proof (std_sort_spec Z (fun x => x) del) as [HP _]. change (fun a b : Z => a <? b) with Z.ltb in HP.
  set (dels := rev (std_sort Z.ltb del)). assert (HI : forall i, In i dels <-> In i del).
  { intros i. unfold dels. rewrite <- in_rev. split; apply Permutation_in; [exact HP|now symmetry]. }
  destruct (delete_proofs_ok dels ps queued (Z.of_nat (length ps) - 1) Hnd) as (ps1 & last & E & L1 & Hl & Hcut & Hat & HC); [|lia|].
  { intros i Hi. apply HI, R1 in Hi as (p & Hp & _). exact (at_range _ _ _ Hp). }
  rewrite E. cbv zeta. set (ps' := firstn (Z.to_nat (last + 1)) ps1).
  assert (Hat' : forall i p, at_ ps' i p <-> i <= last /\ at_ ps1 i p).
  { intros i p. unfold at_, ps'. split.
    - intros [H0 H]. assert (Z.to_nat i < length (firstn (Z.to_nat (last + 1)) ps1))%nat by (apply nth_error_Some; now rewrite H).
      rewrite length_firstn in *. rewrite nth_error_firstn in H. destruct (Nat.ltb_spec (Z.to_nat i) (Z.to_nat (last + 1))); [|discriminate]. split; [lia|now split].
    - intros [H1 [H0 H]]. split; [exact H0|]. rewrite nth_error_firstn. destruct (Nat.ltb_spec (Z.to_nat i) (Z.to_nat (last + 1))); [exact H|lia]. }
  split; [unfold ps'; rewrite length_firstn; lia|]. split; [|split; [|split]].
  - intros i p H. apply Hat' in H as [_ H]. apply Hat in H as [[_ ->]|[Hn H]]; [now left|right]. split; [exact H|]. intros Hd. now apply Hn, HI.
  - intros i p H Hn. apply Hat'. split; [|apply Hat; right; split; [now rewrite HI|exact H]].
    destruct (Z.le_gt_cases i last) as [|Hgt]; [assumption|]. elim Hn. apply HI, Hcut. pose proof (at_range _ _ _ H). lia.
  - apply filter_ext. intros x. apply Bool.eq_true_iff_eq. now rewrite !keeps_spec, HI.
  - intros i Hi. assert (Hn : i <> HW_VDF_PROOF_NONE) by (unfold HW_VDF_PROOF_NONE; lia). rewrite <- (HC i Hn).
    2:{ intros k p Hk Hp. apply HI, R1 in Hk as (q & Hq & _ & E0). rewrite (at_fun _ _ _ _ Hp Hq). unfold share. rewrite E0. now destruct (_ =? _). }
    transitivity (children (firstn (Z.to_nat (last + 1)) ps1 ++ skipn (Z.to_nat (last + 1)) ps1) i); [|now rewrite firstn_skipn]. rewrite children_app. fold ps'. enough (children (skipn (Z.to_nat (last + 1)) ps1) i = 0) by lia.
    apply children_none. intros k q [Hk H]. rewrite nth_error_skipn in H. assert (Hq : at_ ps1 (Z.of_nat (Z.to_nat (last + 1) + Z.to_nat k)) q) by (split; [lia|now rewrite Nat2Z.id]).
    pose proof (at_range _ _ _ Hq). apply Hat in Hq as [[_ ->]|[Hnn _]]; [unfold share; cbn [deleted_proof p_prev]; destruct (Z.eqb_spec 0xffff i); lia|]. elim Hnn. apply Hcut. lia.
Qed.

(** A proof with references has a chain of proofs with references. *)
Lemma prev_kept ps N del i p : table_ok ps N no_more -> released ps N del -> at_ ps i p -> live p -> 1 <= p_ref_cnt p -> p_prev p <> HW_VDF_PROOF_NONE ->
  exists q, at_ ps (p_prev p) q /\ live q /\ is_req q = false /\ 1 <= p_ref_cnt q.
Proof.
  intros T R H L Hr Hn. destruct (prev_live _ _ _ _ _ T H L Hn) as (Hp & q & Hq & Lq & Rq & _). exists q. do 3 (split; [assumption|]).
  destruct (is_started q) eqn:S; [exact (r_started _ _ _ R _ _ Hq Lq S)|]. rewrite (t_ref _ _ _ _ T _ _ Hq Lq S), (own_chkp q Rq).
  pose proof (children_ge ps (p_prev p) i p (refs_nonneg _ _ _ T) H) as HC. unfold share in HC. rewrite Z.eqb_refl in HC. unfold no_more. lia.
Qed.

Lemma kept_table ps ps' N del : table_ok ps N no_more -> released ps N del -> (length ps' <= length ps)%nat ->
  (forall i p, at_ ps' i p -> p = deleted_proof \/ (at_ ps i p /\ ~ In i del)) -> (forall i p, at_ ps i p -> ~ In i del -> at_ ps' i p) ->
  (forall i, i < 2 ^ 16 - 1 -> children ps' i = children ps i) -> table_ok ps' N no_more.
Proof.
  intros T R HL Hat Hback HC. assert (Hpos : forall i p, at_ ps i p -> live p -> ~ In i del -> 1 <= p_ref_cnt p).
  { intros i p H L Hn. pose proof (e_ref _ _ _ _ _ (live_entry _ _ _ _ _ T H L)). enough (p_ref_cnt p <> 0) by lia. intros E0. apply Hn, (r_in _ _ _ R). now exists p. }
  assert (Hkept : forall i p, at_ ps i p -> live p -> 1 <= p_ref_cnt p -> ~ In i del).
  { intros i p H L H1 Hi. apply (r_in _ _ _ R) in Hi as (q & Hq & _ & E0). rewrite (at_fun _ _ _ _ Hq H) in E0. lia. }
  destruct T as [T1 T2 T3 T4 T5]. assert (T : table_ok ps N no_more) by now split. split; [lia|exact T2| | |].
  - intros i p H. destruct (Hat i p H) as [->|[H1 Hn]]; [now left|]. destruct (T3 i p H1) as [->|E]; [now left|right]. destruct E as [E1 E2 E3 E4 E5 E6 E7 (n & E8 & E9)].
    pose proof (Hpos i p H1 E1 Hn) as Hr. split; try assumption.
    + apply (link_mono ps ps' i p); try reflexivity; [|exact E2]. intros j q Hq Lq Rq ->. exists q.
      destruct (prev_kept ps N del i p T R H1 E1 Hr ltac:(intros E0; rewrite E0 in Hq; now elim (none_index _ _ _ _ _ T Hq))) as (q' & Hq' & Lq' & _ & Hr').
      rewrite (at_fun _ _ _ _ Hq Hq') in *. split; [apply Hback; [exact Hq'|exact (Hkept _ _ Hq' Lq' Hr')]|now split].
    + exists n. split; [|exact E9]. apply (depth_mono ps ps' (fun i => exists p, at_ ps i p /\ live p /\ 1 <= p_ref_cnt p)); [|exact E8|now exists p].
      clear - T R Hback Hkept. intros i p (q & Hq & Lq & Hr) Hp. rewrite (at_fun _ _ _ _ Hp Hq) in *. split; [exists q; split; [apply Hback; [exact Hq|exact (Hkept _ _ Hq Lq Hr)]|reflexivity]|].
      intros Hrange. pose proof (at_range _ _ _ Hq). pose proof (t_len _ _ _ _ T).
      destruct (prev_kept ps N del i q T R Hq Lq Hr ltac:(unfold HW_VDF_PROOF_NONE; lia)) as (s & Hs & Ls & _ & Hrs). now exists s.
  - intros i p H L S. destruct (Hat i p H) as [->|[H1 _]]; [now elim deleted_not_live|]. pose proof (at_range _ _ _ H1). rewrite HC by lia. exact (T4 i p H1 L S).
  - intros i p q H L S Hs H2 Hn. destruct (Hat i p H) as [->|[H1 _]]; [now elim deleted_not_live|]. destruct (Hat _ q H2) as [->|[H3 _]]; [reflexivity|]. exact (T5 i p q H1 L S Hs H3 Hn).
Qed.

Lemma dec_ref_ok N q idxs : table_ok (proofs q) N no_more -> (forall i p, at_ (proofs q) i p -> live p -> 1 <= p_ref_cnt p) -> queue_ok (proofs q) (queued_proofs q) ->
  NoDup idxs -> (forall i, In i idxs -> In i (queued_proofs q) /\ exists p, at_ (proofs q) i p /\ is_req p = true) ->
  exists q', hw_proof_dec_ref idxs q = Ok q' /\ req_proofs q' = req_proofs q /\ done_proofs q' = done_proofs q /\ table_ok (proofs q') N no_more /\
    (forall i p, at_ (proofs q') i p -> live p -> 1 <= p_ref_cnt p) /\ queue_ok (proofs q') (queued_proofs q') /\ taken_out idxs (proofs q) (proofs q').
Proof.
  intros T HR [K1 K2 K3] Hnd HI. unfold hw_proof_dec_ref. set (ps := proofs q) in *.
  assert (Hidx : forall i, In i idxs -> exists p, at_ ps i p /\ live p /\ is_req p = true /\ is_started p = false /\ p_ref_cnt p = 1).
  { intros i Hi. destruct (HI i Hi) as (Hq & p & Hp & Rq). apply K2 in Hq as (p' & Hp' & L & S). rewrite (at_fun _ _ _ _ Hp' Hp) in *. exists p. do 4 (split; [assumption|]).
    pose proof (e_req _ _ _ _ _ (live_entry _ _ _ _ _ T Hp L) Rq). pose proof (HR i p Hp L). lia. }
  destruct (dec_walks_ok N idxs ps [] T) as (ps1 & del & -> & X1 & L1 & T1 & R1 & HQ1 & H01); [|exact Hnd|exact Hidx|].
  { split; [|constructor|intros i p H L _; exact (HR i p H L)]. intros i. split; [easy|]. intros (p & H & L & E0). pose proof (HR i p H L). lia. }
  cbn [bind]. assert (Hback1 : forall i p1, at_ ps1 i p1 -> exists p, at_ ps i p /\ shape p1 = shape p).
  { intros i p1 H. pose proof (at_range _ _ _ H) as Ri. rewrite L1 in Ri. destruct (at_exists ps i Ri) as (p & Hp). exists p. split; [exact Hp|].
    destruct (X1 i p Hp) as (p1' & H1' & E). now rewrite (at_fun _ _ _ _ H H1'). }
  assert (Hiters : forall i, iters_at ps1 i = iters_at ps i \/ ~ exists p, at_ ps1 i p).
  { intros i. destruct (Z.lt_ge_cases i 0); [right; intros (p & [Hp _]); lia|]. destruct (nth_error ps1 (Z.to_nat i)) as [p1|] eqn:E; [left|right; intros (p & [_ Hp]); congruence].
    assert (H1 : at_ ps1 i p1) by now split. destruct (Hback1 i p1 H1) as (p & Hp & Sh). rewrite (iters_at_ok ps1 i p1 H1). rewrite (iters_at_ok ps i p Hp). now destruct (shape_facts _ _ Sh). }
  assert (K2' : forall i, In i (queued_proofs q) <-> exists p, at_ ps1 i p /\ live p /\ is_started p = false).
  { intros i. rewrite K2. split; [intros (p & H & L & S)|intros (p1 & H1 & L & S)].
    - destruct (X1 i p H) as (p1 & H1 & Sh). destruct (shape_facts _ _ Sh) as (_ & _ & _ & F4 & _ & F6). exists p1. split; [exact H1|]. split; [now apply F4|congruence].
    - destruct (Hback1 i p1 H1) as (p & H & Sh). destruct (shape_facts _ _ (eq_sym Sh)) as (_ & _ & _ & F4 & _ & F6). exists p. split; [exact H|]. split; [now apply F4|congruence]. }
  assert (K3' : StronglySorted (by_iters ps1) (queued_proofs q)).
  { apply (sorted_impl (by_iters ps)); [|exact K3]. intros a b Ha Hb. unfold by_iters. apply K2' in Ha as (pa & Ha & _), Hb as (pb & Hb & _).
    destruct (Hiters a) as [->|Hn]; [|elim Hn; now exists pa]. destruct (Hiters b) as [->|Hn]; [easy|elim Hn; now exists pb]. }
  pose proof (delete_ok ps1 N del (queued_proofs q) T1 R1 K1 K2' K3') as HD. rewrite L1 in HD.
  destruct (delete_proofs ps1 (queued_proofs q) (Z.of_nat (length ps) - 1) (rev (std_sort Z.ltb del))) as [[ps2 queued2] last]. destruct HD as (L2 & Hat & Hback & -> & HC).
  set (ps' := firstn (Z.to_nat (last + 1)) ps2) in *. eexists. split; [reflexivity|]. cbn [req_proofs done_proofs proofs queued_proofs]. do 2 (split; [reflexivity|]).
  assert (Hlive : forall i p, at_ ps' i p -> live p -> at_ ps1 i p /\ ~ In i del) by (intros i p H L; destruct (Hat i p H) as [->|H']; [now elim deleted_not_live|exact H']).
  split; [exact (kept_table ps1 ps' N del T1 R1 ltac:(lia) Hat Hback HC)|]. split; [|split].
  - intros i p H L. destruct (Hlive i p H L) as [H1 Hn]. pose proof (e_ref _ _ _ _ _ (live_entry _ _ _ _ _ T1 H1 L)). enough (p_ref_cnt p <> 0) by lia.
    intros E0. apply Hn, (r_in _ _ _ R1). now exists p.
  - split; [now apply NoDup_filter| |].
    + intros i. rewrite filter_In, keeps_spec, K2'. split; [intros [(p & H & LS) Hn]; exists p; split; [now apply Hback|exact LS]|].
      intros (p & H & L & S). destruct (Hlive i p H L) as [H1 Hn]. split; [now exists p|exact Hn].
    + apply (sorted_impl (by_iters ps1)); [|now apply sorted_filter]. intros a b Ha Hb. apply filter_In in Ha as [Ha Na], Hb as [Hb Nb]. apply keeps_spec in Na, Nb.
      apply K2' in Ha as (pa & Ha & _), Hb as (pb & Hb & _). unfold by_iters.
      now rewrite (iters_at_ok ps1 a pa Ha), (iters_at_ok ps1 b pb Hb), (iters_at_ok ps' a pa (Hback _ _ Ha Na)), (iters_at_ok ps' b pb (Hback _ _ Hb Nb)).
  - split; [lia| | | |].
    + intros i p H L. destruct (Hlive i p H L) as [H1 _]. exact (Hback1 i p H1).
    + intros i p H Rq L Hn. pose proof (HQ1 i p H Rq Hn) as H1. apply Hback; [exact H1|]. intros Hd. apply (r_in _ _ _ R1) in Hd as (p1 & Hp1 & _ & E0).
      rewrite (at_fun _ _ _ _ Hp1 H1) in E0. pose proof (HR i p H L). lia.
    + intros i p H L Hi. destruct (Hlive i p H L) as [H1 Hn]. destruct (H01 i Hi) as (p1 & Hp1 & E0). rewrite (at_fun _ _ _ _ Hp1 H1) in E0. apply Hn, (r_in _ _ _ R1). now exists p.
    + intros i p H L S. destruct (X1 i p H) as (p1 & H1 & Sh). exists p1. split; [|exact Sh]. destruct (shape_facts _ _ Sh) as (_ & _ & _ & F4 & _ & F6).
      apply Hback; [exact H1|]. intros Hd. apply (r_in _ _ _ R1) in Hd as (p1' & Hp1 & _ & E0). rewrite (at_fun _ _ _ _ Hp1 H1) in E0.
      pose proof (r_started _ _ _ R1 i p1 H1 (F4 L) ltac:(congruence)). lia.
Qed.

(** *** The requests are conserved *)

(** What has been asked for: the pending requests and those in the table. *)
Definition asked (q : hw_queue) : list Z := map fst (req_proofs q) ++ map (iters_at (proofs q)) (req_indices (proofs q)).

Lemma req_split ps ps' idxs : NoDup idxs -> (forall i, In i (req_indices ps) <-> In i idxs \/ In i (req_indices ps')) -> (forall i, In i idxs -> ~ In i (req_indices ps')) ->
  (forall i, In i (req_indices ps') -> iters_at ps' i = iters_at ps i) ->
  Permutation (map (iters_at ps) (req_indices ps)) (map (iters_at ps) idxs ++ map (iters_at ps') (req_indices ps')).
Proof.
  intros Hnd Hin Hdis Heq. rewrite (map_ext_in _ _ _ Heq), <- map_app. apply Permutation_map. apply NoDup_Permutation.
  - apply req_indices_nodup.
  - apply NoDup_app; [exact Hnd|apply req_indices_nodup|]. intros i Hi Hi'. now apply (Hdis i).
  - intros i. now rewrite in_app_iff.
Qed.

Lemma taken_out_asked idxs ps ps' : taken_out idxs ps ps' -> NoDup idxs -> (forall i, In i idxs -> In i (req_indices ps)) ->
  Permutation (map (iters_at ps) (req_indices ps)) (map (iters_at ps) idxs ++ map (iters_at ps') (req_indices ps')).
Proof.
  intros [O1 O2 O3 O4 O5] Hnd HI. apply req_split; [exact Hnd| | |].
  - intros i. split.
    + intros Hi. destruct (in_dec Z.eq_dec i idxs); [now left|right]. apply req_indices_in in Hi as (p & Hp & L & R). apply req_indices_in. exists p. split; [now apply O3|now split].
    + intros [Hi|Hi]; [now apply HI|]. apply req_indices_in in Hi as (p' & Hp' & L & R). destruct (O2 i p' Hp' L) as (p & Hp & Sh). apply req_indices_in. exists p.
      destruct (shape_facts _ _ (eq_sym Sh)) as (_ & _ & _ & F4 & F5 & _). split; [exact Hp|]. split; [now apply F4|congruence].
  - intros i Hi Hi'. apply req_indices_in in Hi' as (p' & Hp' & L & _). exact (O4 i p' Hp' L Hi).
  - intros i Hi'. apply req_indices_in in Hi' as (p' & Hp' & L & _). destruct (O2 i p' Hp' L) as (p & Hp & Sh). rewrite (iters_at_ok _ _ _ Hp), (iters_at_ok _ _ _ Hp').
    now destruct (shape_facts _ _ Sh).
Qed.

(** *** Making room *)

Lemma request_sorted iters b l : StronglySorted (fun a b => fst a <= fst b) (std_sort (fun a b : Z * bool => fst a <? fst b) (l ++ [(iters, b)])) /\
  Permutation (std_sort (fun a b : Z * bool => fst a <? fst b) (l ++ [(iters, b)])) ((iters, b) :: l).
Proof. destruct (std_sort_spec (Z * bool) fst (l ++ [(iters, b)])) as [HP HS]. split; [exact HS|]. rewrite HP. symmetry. apply Permutation_cons_append. Qed.

Lemma displace_ok r queued : forall del q, (forall i, In i queued -> exists p, at_ (proofs q) i p) ->
  exists new q', displace r queued del q = Ok (del ++ new, q') /\ proofs q' = proofs q /\ queued_proofs q' = queued_proofs q /\ done_proofs q' = done_proofs q /\
    new = filter (fun i => match nth_error (proofs q) (Z.to_nat i) with Some p => is_req p && negb (p_iters p <? r) | None => false end) queued /\
    Permutation (req_proofs q') (map (fun i => (iters_at (proofs q) i, false)) new ++ req_proofs q) /\
    (StronglySorted (fun a b => fst a <= fst b) (req_proofs q) -> StronglySorted (fun a b => fst a <= fst b) (req_proofs q')).
Proof.
  induction queued as [|idx queued IH]; intros del q H; cbn [displace filter].
  { exists [], q. rewrite app_nil_r. do 5 (split; [reflexivity|]). split; [reflexivity|easy]. }
  destruct (H idx (or_introl eq_refl)) as (p & Hp). rewrite (at_get _ _ _ Hp). cbn [bind]. pose proof Hp as [_ ->].
  destruct (is_req p); cbn [negb orb andb]; [destruct (Z.ltb_spec (p_iters p) r); cbn [negb]|].
  - apply IH. intros i Hi. apply H. now right.
  - destruct (IH (del ++ [idx]) (hw_request_proof (p_iters p) false q)) as (new & q' & E & E1 & E2 & E3 & E4 & E5 & E6); [intros i Hi; apply H; now right|].
    cbn [hw_request_proof proofs queued_proofs done_proofs req_proofs] in *. destruct (request_sorted (p_iters p) false (req_proofs q)) as [S1 S2].
    exists (idx :: new), q'. rewrite <- app_assoc in E. split; [exact E|]. do 3 (split; [assumption|]). split; [now rewrite E4|]. split; [|intros _; now apply E6].
    rewrite E5. cbn [map app]. rewrite S2, (iters_at_ok _ _ _ Hp). symmetry. apply Permutation_middle.
  - apply IH. intros i Hi. apply H. now right.
Qed.

Lemma should_queue_ok ps iters q : proofs q = ps -> queued_proofs q <> [] -> (forall i, In i (queued_proofs q) -> exists p, at_ ps i p) ->
  exists b, hw_proof_should_queue iters q = Ok b.
Proof.
  intros E Hne H. unfold hw_proof_should_queue. destruct (rev (queued_proofs q)) as [|last l] eqn:Er.
  - apply (f_equal (@rev Z)) in Er. rewrite rev_involutive in Er. contradiction.
  - destruct (H last) as (p & Hp); [apply in_rev; rewrite Er; now left|]. rewrite E, (at_get _ _ _ Hp). cbn [bind]. eauto.
Qed.

(** What a step of the queue keeps: the proofs that are being made, and the
    requests. *)
Record step_ok (q q' : hw_queue) : Prop := {
  s_started : forall i p, at_ (proofs q) i p -> live p -> is_started p = true -> exists p', at_ (proofs q') i p' /\ shape p' = shape p;
  s_back : forall i p', at_ (proofs q') i p' -> live p' -> (exists p, at_ (proofs q) i p /\ shape p' = shape p) \/ (is_started p' = false /\ is_done p' = false);
  s_done : done_proofs q' = done_proofs q;
  s_asked : Permutation (asked q') (asked q);
}.

Lemma make_room_ok N q r : hw_queue_ok interval N q -> 0 < r < 2 ^ 56 -> Forall (fun x => r <= fst x) (req_proofs q) ->
  exists q', make_room r q = Ok q' /\ hw_queue_ok interval N q' /\ step_ok q q' /\ Forall (fun x => r <= fst x) (req_proofs q') /\ (length (proofs q') <= length (proofs q))%nat.
Proof.
  intros [Q1 Q2 Q3 Q4 Q5] Hr Hall. destruct Q3 as [K1 K2 K3]. assert (Q3 : queue_ok (proofs q) (queued_proofs q)) by now split. unfold make_room.
  assert (Hsame : exists q', Ok q = Ok q' /\ hw_queue_ok interval N q' /\ step_ok q q' /\ Forall (fun x => r <= fst x) (req_proofs q') /\ (length (proofs q') <= length (proofs q))%nat).
  { exists q. split; [reflexivity|]. split; [now split|]. split; [|split; [exact Hall|lia]]. split; [| |reflexivity|reflexivity]; [intros i p H L S; now exists p|]. intros i p H L. left. now exists p. }
  destruct (queued_proofs q) as [|i0 l0] eqn:Eq; [exact Hsame|]. rewrite <- Eq in *.
  destruct (should_queue_ok (proofs q) r q eq_refl) as (b & ->); [rewrite Eq; discriminate|intros i Hi; apply K2 in Hi as (p & Hp & _); now exists p|]. cbn [bind].
  destruct b; [clear Hsame|exact Hsame].
  destruct (displace_ok r (queued_proofs q) [] q) as (new & q1 & -> & E1 & E2 & E3 & E4 & E5 & E6); [intros i Hi; apply K2 in Hi as (p & Hp & _); now exists p|]. cbn [bind app].
  assert (Hnew : forall i, In i new -> In i (queued_proofs q) /\ exists p, at_ (proofs q) i p /\ live p /\ is_req p = true /\ r <= p_iters p).
  { intros i Hi. rewrite E4 in Hi. apply filter_In in Hi as [Hi H]. split; [exact Hi|]. apply K2 in Hi as (p & Hp & L & _). exists p. split; [exact Hp|]. split; [exact L|]. destruct Hp as [_ Hp]. rewrite Hp in H.
    apply andb_prop in H as [H1 H2]. apply Bool.negb_true_iff, Z.ltb_ge in H2. now split. }
  assert (Hnd : NoDup new) by (rewrite E4; now apply NoDup_filter).
  destruct (dec_ref_ok N q1 new) as (q2 & -> & F1 & F2 & F3 & F4 & F5 & F6); try (rewrite E1); try (rewrite E2); try assumption.
  { intros i Hi. destruct (Hnew i Hi) as (Hq & p & Hp & _ & Rq & _). split; [exact Hq|now exists p]. }
  rewrite E1 in F6. exists q2. split; [reflexivity|].
  assert (Hlen : (length (proofs q2) <= length (proofs q))%nat) by exact (o_length _ _ _ F6).
  assert (HF : Forall (fun x => r <= fst x < 2 ^ 56) (req_proofs q2)).
  { rewrite F1. apply Forall_forall. intros x Hx. apply (Permutation_in _ E5) in Hx. apply in_app_or in Hx as [Hx|Hx].
    - apply in_map_iff in Hx as (i & <- & Hi). destruct (Hnew i Hi) as (_ & p & Hp & L & _ & Hle). cbn [fst]. rewrite (iters_at_ok _ _ _ Hp).
      pose proof (e_iters _ _ _ _ _ (live_entry _ _ _ _ _ Q1 Hp L)). lia.
    - destruct Q4 as [_ Q4]. rewrite Forall_forall in Q4, Hall. specialize (Q4 x Hx). specialize (Hall x Hx). lia. }
  split; [|split; [|split]].
  - split; try assumption.
    + split; [rewrite F1; apply E6; apply Q4|]. eapply Forall_impl; [|exact HF]. cbv beta. lia.
    + intros i Hi. rewrite F2, E3 in Hi. destruct (Q5 i Hi) as (p & Hp & L & Rq & D & S).
      destruct (o_started _ _ _ F6 i p Hp L S) as (p2 & Hp2 & Sh). exists p2. split; [exact Hp2|]. destruct (shape_facts _ _ Sh) as (_ & _ & _ & G4 & G5 & _). split; [now apply G4|]. split; [congruence|].
      assert (p_flags p2 = p_flags p) by (unfold shape, set_ref in Sh; congruence). unfold has in *. split; congruence.
  - split.
    + exact (o_started _ _ _ F6).
    + intros i p' H L. left. exact (o_old _ _ _ F6 i p' H L).
    + congruence.
    + unfold asked. rewrite F1, E5, map_app, map_map. cbn [fst].
      pose proof (taken_out_asked new (proofs q) (proofs q2) F6 Hnd) as HP. rewrite HP.
      * rewrite <- app_assoc. rewrite !(Permutation_app_swap_app (map fst (req_proofs q))). reflexivity.
      * intros i Hi. destruct (Hnew i Hi) as (_ & p & Hp & L & Rq & _). apply req_indices_in. now exists p.
  - eapply Forall_impl; [|exact HF]. cbv beta. lia.
  - exact Hlen.
Qed.
End WithLaws.
End WfOps.
