(* ===== verification/HwRequests.v ===== *)
(** [src/src/hw/hw_proof.cpp]: a request of the hardware client's queue is made a
    chain of segments, and the queue stays well-formed. *)
From Stdlib Require Import Permutation Sorted.
From S2P Require Import Prelude Words Prover HwQueue.

Section Requests.
Variable interval : Z.
Hypothesis Hint : 0 < interval <= 100000.
Abbreviation table_ok := (table_ok interval).
Abbreviation entry_ok := (entry_ok interval).

(** The end of the chain that is being built: [d] proofs, [I] iterations. *)
Definition tip (ps : list vdf_proof) (prev I : Z) (d : nat) : Prop :=
  (prev = HW_VDF_PROOF_NONE /\ I = 0 /\ d = 0%nat) \/
  exists p, at_ ps prev p /\ live p /\ is_req p = false /\ p_iters p = I /\ depth ps prev d.

(** A queue without the order, which the table's counts are off by [e] of. *)
Record mid_ok (N : Z) (e : Z -> Z) (q : hw_queue) : Prop := {
  m_table : table_ok (proofs q) N e;
  m_refs : forall i p, at_ (proofs q) i p -> live p -> 1 <= p_ref_cnt p;
  m_nodup : NoDup (queued_proofs q);
  m_in : forall i, In i (queued_proofs q) <-> exists p, at_ (proofs q) i p /\ live p /\ is_started p = false;
  m_req : StronglySorted (fun a b => fst a <= fst b) (req_proofs q) /\ Forall (fun r => 0 < fst r < 2 ^ 56) (req_proofs q);
  m_done : forall i, In i (done_proofs q) -> exists p, at_ (proofs q) i p /\ live p /\ is_req p = true /\ is_done p = true /\ is_started p = true;
}.

Lemma find_base_ok ps N e r l : table_ok ps N e -> (forall i, In i l -> exists p, at_ ps i p /\ live p /\ is_started p = false) ->
  exists base, find_base ps r l = Ok base /\
    match base with
    | None => True
    | Some (it, idx) => it <= r /\ exists p n, at_ ps idx p /\ live p /\ is_started p = false /\ is_req p = false /\ p_iters p = it /\ depth ps idx n /\ (n <= 61)%nat
    end.
Proof.
  intros T. induction l as [|idx l IH]; intros H; cbn [find_base]; [now exists None|].
  destruct (H idx (or_introl eq_refl)) as (p & Hp & L & S). rewrite (at_get _ _ _ Hp). cbn [bind].
  assert (H' : forall i, In i l -> exists p, at_ ps i p /\ live p /\ is_started p = false) by (intros i Hi; apply H; now right).
  destruct (is_req p) eqn:R; [now apply IH|]. destruct (depth_live _ _ _ _ _ _ T Hp L) as (n & D & Hn). rewrite R in Hn.
  destruct (depth_bound _ _ _ D) as [B1 B2]. unfold hw_proof_cnt_segments.
  rewrite (cnt_segments_ok ps idx n (t_len _ _ _ _ T) D) by lia. cbn [bind]. rewrite Z.add_0_l.
  destruct ((p_iters p <=? r) && (Z.of_nat n <=? max_chkp_segments)) eqn:E; [|now apply IH].
  apply andb_prop in E as [E1 E2]. apply Z.leb_le in E1, E2. exists (Some (p_iters p, idx)). split; [reflexivity|]. split; [exact E1|].
  exists p, n. unfold max_chkp_segments in E2. repeat (split; [assumption || reflexivity|]). lia.
Qed.

Lemma flag_cases flags : flags = 0 \/ flags = FLAG_IS_REQ -> 0 <= flags < 8 /\ Z.land flags FLAG_STARTED = 0 /\ (Z.land flags FLAG_IS_REQ =? 0) = (flags =? 0).
Proof. intros [-> | ->]; vm_compute; repeat split; congruence. Qed.

Lemma hw_queue_proof_ok N q seg prev flags I d : mid_ok N (one_more prev) q -> 1 <= N -> Z.of_nat (length (proofs q)) + 1 < 2 ^ 16 - 1 -> tip (proofs q) prev I d ->
  0 <= seg -> 0 <= I -> I + seg < 2 ^ 56 -> flags = 0 \/ flags = FLAG_IS_REQ -> (flags = 0 -> 0 < seg /\ (interval | seg) /\ (d <= 62)%nat) -> (d <= 63)%nat ->
  let pos := Z.of_nat (length (proofs q)) in let x := mkproof (I + seg) seg [] [] [] flags prev 1 in
  let q' := mkqueue (req_proofs q) (proofs q ++ [x]) (queued_proofs q ++ [pos]) (done_proofs q) in
  hw_queue_proof seg prev flags q = Ok (pos, q') /\ mid_ok N (if flags =? 0 then one_more pos else no_more) q' /\ (flags = 0 -> tip (proofs q') pos (I + seg) (S d)).
Proof.
  intros [M1 M2 M3 M4 M5 M6] HN Hlen Ht Hs HI Hb Hfl Hc Hd pos x q'. set (ps := proofs q) in *. destruct (flag_cases flags Hfl) as (Fl & Fs & Fr).
  assert (Hx : is_req x = negb (flags =? 0)) by (unfold has; cbn [x p_flags]; now rewrite Fr).
  assert (Sx : is_started x = false) by (unfold has; cbn [x p_flags]; now rewrite Fs).
  assert (HD : depth (ps ++ [x]) pos (S d) /\ link (ps ++ [x]) pos x).
  { assert (Hat : at_ (ps ++ [x]) pos x) by (apply at_snoc; now right). destruct Ht as [(E1 & E2 & E3)|(p & Hp & L & R & E2 & D)].
    - split; [rewrite E3; apply (depth_first _ _ x); [exact Hat|exact E1]|]. left. cbn. split; [exact E1|lia].
    - pose proof (at_range _ _ _ Hp) as Rp. split.
      + apply (depth_next _ _ x); [exact Hat|cbn; lia|]. cbn [x p_prev]. apply (depth_mono ps _ (fun _ => True)); try easy. intros i s _ Hs'. split; [|easy].
        exists s. split; [apply at_snoc; now left|reflexivity].
      + right. cbn [x p_prev p_iters p_seg_iters]. split; [lia|]. exists p. split; [apply at_snoc; now left|]. do 2 (split; [assumption|]). lia. }
  destruct HD as [HD HL]. assert (Ex : entry_ok (ps ++ [x]) N pos x).
  { split; rewrite ?Hx; try (cbn; lia); [exact Fl|exact HL| |].
    - intros E. apply Bool.negb_false_iff, Z.eqb_eq in E. destruct (Hc E) as (C1 & C2 & _). now split.
    - exists (S d). split; [exact HD|]. destruct (Z.eqb_spec flags 0) as [E|]; cbn [negb]; [destruct (Hc E) as (_ & _ & C)|]; lia. }
  split.
  { unfold hw_queue_proof. fold ps. fold pos. pose proof (t_len _ _ _ _ M1). assert (Ep : u16 pos = pos) by (unfold uwrap; apply Z.mod_small; lia). rewrite Ep.
    destruct Ht as [(E1 & E2 & E3)|(p & Hp & L & R & E2 & D)].
    - rewrite E1. cbn [Z.eqb HW_VDF_PROOF_NONE negb bind]. unfold q', x. now rewrite E1, E2.
    - pose proof (none_index _ _ _ _ _ _ M1 Hp). destruct (Z.eqb_spec prev HW_VDF_PROOF_NONE); [contradiction|]. cbn [negb]. rewrite (at_get _ _ _ Hp). cbn [bind].
      rewrite E2. unfold uwrap. rewrite (Z.mod_small (seg + I)) by lia. unfold q', x. now rewrite (Z.add_comm seg I). }
  split; [|intros E; right; exists x; split; [apply at_snoc; now right|]; split; [exact Fl|]; split; [rewrite Hx, E; reflexivity|]; split; [reflexivity|exact HD]].
  split; unfold q'; cbn [proofs queued_proofs req_proofs done_proofs].
  - apply (table_ext _ _ _ _ _ (table_snoc _ ps N _ x M1 Hlen Ex Sx eq_refl)). intros i p Hp _. cbv beta. fold pos. assert (Ho : own x = if flags =? 0 then 0 else 1) by (unfold own; rewrite Hx; now destruct (flags =? 0)).
    rewrite Ho. cbn [x p_prev]. unfold one_more, no_more. apply at_snoc in Hp as [Hp|[-> _]].
    + pose proof (at_range _ _ _ Hp). destruct (Z.eqb_spec i pos); [unfold pos in *; lia|]. rewrite (Z.eqb_sym prev i). destruct (flags =? 0); cbv beta; destruct (Z.eqb_spec i pos); try contradiction; destruct (i =? prev); reflexivity.
    + fold pos. rewrite Z.eqb_refl. destruct (flags =? 0); [now rewrite Z.eqb_refl|reflexivity].
  - intros i p Hp L. apply at_snoc in Hp as [Hp|[_ ->]]; [exact (M2 i p Hp L)|cbn; lia].
  - apply NoDup_app; [exact M3|repeat constructor; easy|]. intros i Hi [<-|[]]. apply M4 in Hi as (p & Hp & _). pose proof (at_range _ _ _ Hp). unfold pos in *. lia.
  - intros i. rewrite in_app_iff, M4. split.
    + intros [(p & Hp & L & S)|[<-|[]]]; [exists p; split; [apply at_snoc; now left|now split]|]. exists x. split; [apply at_snoc; now right|]. now split.
    + intros (p & Hp & L & S). apply at_snoc in Hp as [Hp|[-> _]]; [left; now exists p|right; now left].
  - exact M5.
  - intros i Hi. destruct (M6 i Hi) as (p & Hp & H). exists p. split; [apply at_snoc; now left|exact H].
Qed.

(** What [queue_checkpoints] and the last segment add. *)
Record added (q q' : hw_queue) (news : list vdf_proof) : Prop := {
  a_proofs : proofs q' = proofs q ++ news;
  a_req : req_proofs q' = req_proofs q;
  a_done : done_proofs q' = done_proofs q;
}.

Lemma added_trans q q1 q2 l1 l2 : added q q1 l1 -> added q1 q2 l2 -> added q q2 (l1 ++ l2).
Proof. intros [A1 A2 A3] [B1 B2 B3]. split; [now rewrite B1, A1, app_assoc|congruence|congruence]. Qed.

(** A checkpoint of the chain. *)
Lemma queue_chkp_ok N q c prev I d : mid_ok N (one_more prev) q -> 1 <= N -> Z.of_nat (length (proofs q)) + 1 < 2 ^ 16 - 1 -> tip (proofs q) prev I d ->
  0 < c -> (interval | c) -> 0 <= I -> I + c < 2 ^ 56 -> (d <= 62)%nat ->
  exists pos q' x, hw_queue_proof c prev 0 q = Ok (pos, q') /\ mid_ok N (one_more pos) q' /\ tip (proofs q') pos (I + c) (S d) /\ added q q' [x] /\ live x /\ is_req x = false /\
    is_started x = false /\ is_done x = false.
Proof.
  intros M HN Hl Ht Hc Hd HI Hb Hdd. destruct (hw_queue_proof_ok N q c prev 0 I d M HN Hl Ht ltac:(lia) HI Hb (or_introl eq_refl) (fun _ => conj Hc (conj Hd Hdd)) ltac:(lia)) as (E & M' & T').
  do 3 eexists. split; [exact E|]. split; [exact M'|]. split; [now apply T'|]. split; [now split|]. split; [|now split]. unfold live. cbn. lia.
Qed.

Lemma div_bounds x k : 0 < k -> k * (x / k) <= x < k * (x / k) + k.
Proof. intros Hk. pose proof (Z.div_mod x k ltac:(lia)). pose proof (Z.mod_pos_bound x k ltac:(lia)). lia. Qed.

Lemma round_down x : 0 <= x -> 0 <= x / interval * interval <= x /\ x - interval < x / interval * interval /\ (interval | x / interval * interval).
Proof. intros Hx. pose proof (div_bounds x interval ltac:(lia)). pose proof (Z.div_pos x interval Hx ltac:(lia)). split; [nia|]. split; [lia|]. apply Z.divide_factor_r. Qed.

(** The checkpoints take whole intervals, at most two of them, and leave less
    than they take. *)
Lemma queue_checkpoints_ok N q iters prev I d : mid_ok N (one_more prev) q -> 1 <= N -> Z.of_nat (length (proofs q)) + 2 < 2 ^ 16 - 1 -> tip (proofs q) prev I d ->
  0 <= iters -> 0 <= I -> I + iters < 2 ^ 56 -> (d <= 61)%nat ->
  exists rest prev' q' news d', queue_checkpoints interval iters prev q = Ok (rest, prev', q') /\ mid_ok N (one_more prev') q' /\ tip (proofs q') prev' (I + iters - rest) d' /\
    (d' <= d + 2)%nat /\ 0 <= rest <= iters /\ added q q' news /\ (length news <= 2)%nat /\ Forall (fun x => live x /\ is_req x = false /\ is_started x = false /\ is_done x = false) news.
Proof.
  intros M HN Hl Ht Hi HI Hb Hd. unfold queue_checkpoints, g_chkp_thres. destruct (Z.ltb_spec 1000000 iters) as [H1|H1].
  2:{ exists iters, prev, q, [], d. split; [reflexivity|]. split; [exact M|]. split; [now replace (I + iters - iters) with I by lia|]. split; [lia|]. split; [lia|].
      split; [split; [now rewrite app_nil_r|reflexivity|reflexivity]|]. split; [cbn; lia|constructor]. }
  unfold uwrap. rewrite (Z.mod_small (iters * 3)) by lia. cbv zeta. set (c := iters * 3 / 4). assert (Hc : 4 * c <= iters * 3 < 4 * c + 4) by (apply div_bounds; lia).
  rewrite (Z.mod_small (iters - c)) by lia. destruct (Z.ltb_spec 1000000 (iters - c)) as [H2|H2]; cbn [bind].
  - rewrite !(Z.mod_small (iters * _)) by lia. set (k := iters * 69 / 100). assert (Hk : 100 * k <= iters * 69 < 100 * k + 100) by (apply div_bounds; lia).
    destruct (round_down k ltac:(lia)) as (R1 & R2 & R3). set (c1 := k / interval * interval) in *. set (k2 := iters * (69 + 23) / 100). assert (Hk2 : 100 * k2 <= iters * 92 < 100 * k2 + 100) by (apply (div_bounds (iters * (69 + 23))); lia).
    rewrite (Z.mod_small (k2 - c1)), (Z.mod_small (iters - c1)) by lia. destruct (round_down (k2 - c1) ltac:(lia)) as (S1 & S2 & S3). set (c2 := (k2 - c1) / interval * interval) in *.
    destruct (queue_chkp_ok N q c1 prev I d M HN ltac:(lia) Ht ltac:(lia) R3 HI ltac:(lia) ltac:(lia)) as (p1 & q1 & x1 & -> & M1 & T1 & A1 & L1 & Q1 & U1). cbn [bind]. fold c2.
    assert (Hl1 : Z.of_nat (length (proofs q1)) = Z.of_nat (length (proofs q)) + 1) by (rewrite (a_proofs _ _ _ A1), length_app; cbn [length]; lia).
    destruct (queue_chkp_ok N q1 c2 p1 (I + c1) (S d) M1 HN ltac:(lia) T1 ltac:(lia) S3 ltac:(lia) ltac:(lia) ltac:(lia)) as (p2 & q2 & x2 & -> & M2 & T2 & A2 & L2 & Q2 & U2). cbn [bind].
    rewrite (Z.mod_small (iters - c1 - c2)) by lia. exists (iters - c1 - c2), p2, q2, ([x1] ++ [x2]), (S (S d)). split; [reflexivity|]. split; [exact M2|].
    split; [now replace (I + iters - (iters - c1 - c2)) with (I + c1 + c2) by lia|]. split; [lia|]. split; [lia|]. split; [exact (added_trans _ _ _ _ _ A1 A2)|]. split; [cbn; lia|]. apply Forall_forall. intros x [<-|[<-|[]]]; now split.
  - destruct (round_down c ltac:(lia)) as (R1 & R2 & R3). set (c1 := c / interval * interval) in *.
    destruct (queue_chkp_ok N q c1 prev I d M HN ltac:(lia) Ht ltac:(lia) R3 HI ltac:(lia) ltac:(lia)) as (p1 & q1 & x1 & -> & M1 & T1 & A1 & L1 & Q1 & U1). cbn [bind].
    rewrite (Z.mod_small (iters - c1)) by lia. exists (iters - c1), p1, q1, [x1], (S d). split; [reflexivity|]. split; [exact M1|].
    split; [now replace (I + iters - (iters - c1)) with (I + c1) by lia|]. split; [lia|]. split; [lia|]. split; [exact A1|]. split; [cbn; lia|]. apply Forall_forall. intros x [<-|[]]; now split.
Qed.

Section WithLaws.
Context `{SrtL : StdSortLaws}.

Lemma sort_queued_ok N q : mid_ok N no_more q ->
  exists l, sort_queued q = Ok (mkqueue (req_proofs q) (proofs q) l (done_proofs q)) /\ hw_queue_ok interval N (mkqueue (req_proofs q) (proofs q) l (done_proofs q)).
Proof.
  intros [M1 M2 M3 M4 M5 M6]. unfold sort_queued. destruct (std_sort_spec Z (iters_at (proofs q)) (queued_proofs q)) as [HP HS].
  replace (forallb _ _) with true.
  2:{ symmetry. apply forallb_forall. intros i Hi. apply M4 in Hi as (p & Hp & _). pose proof (at_range _ _ _ Hp). apply Z.ltb_lt. lia. }
  set (l := std_sort _ _) in *. exists l. split; [reflexivity|]. split; cbn [proofs queued_proofs req_proofs done_proofs]; try assumption. split; [|intros i; rewrite <- M4|exact HS].
  - symmetry in HP. exact (Permutation_NoDup HP M3).
  - split; apply Permutation_in; [exact HP|now symmetry].
Qed.

Lemma hw_queue_mid N q : hw_queue_ok interval N q -> mid_ok N no_more q.
Proof. intros [Q1 Q2 [K1 K2 K3] Q4 Q5]. now split. Qed.

(** More requests may be counted. *)
Lemma table_more ps N N' e : table_ok ps N e -> N <= N' < 2 ^ 16 - 1 -> table_ok ps N' e.
Proof.
  intros [T1 T2 T3 T4 T5] HN. split; try assumption; [lia|]. intros i p H. destruct (T3 i p H) as [->|E]; [now left|right]. destruct E as [E1 E2 E3 E4 E5 E6 E7 E8]. split; try assumption. lia.
Qed.

Lemma mid_more N N' e q : mid_ok N e q -> N <= N' < 2 ^ 16 - 1 -> mid_ok N' e q.
Proof. intros [M1 M2 M3 M4 M5 M6] HN. split; try assumption. exact (table_more _ _ _ _ M1 HN). Qed.

Lemma mid_ext N e e' q : mid_ok N e q -> (forall i p, at_ (proofs q) i p -> is_started p = false -> e i = e' i) -> mid_ok N e' q.
Proof. intros [M1 M2 M3 M4 M5 M6] HE. split; try assumption. exact (table_ext _ _ _ _ _ M1 HE). Qed.

(** *** What has been asked for *)

Lemma req_at_shape p p' : shape p' = shape p -> p_flags p' = p_flags p.
Proof. unfold shape, set_ref. congruence. Qed.

Lemma asked_extends ps ps' : extends ps ps' -> length ps' = length ps ->
  map (iters_at ps') (req_indices ps') = map (iters_at ps) (req_indices ps).
Proof.
  intros HX HL. assert (HI : req_indices ps' = req_indices ps).
  { unfold req_indices. rewrite HL. apply filter_ext_in. intros i Hi. apply in_map_iff in Hi as (n & <- & Hn). apply in_seq in Hn.
    destruct (at_exists ps (Z.of_nat n) ltac:(lia)) as (p & Hp). destruct (HX _ p Hp) as (p' & Hp' & Sh). unfold req_at. destruct Hp as [_ ->], Hp' as [_ ->].
    unfold has. now rewrite (req_at_shape _ _ Sh). }
  rewrite HI. apply map_ext_in. intros i Hi. apply req_indices_in in Hi as (p & Hp & _). destruct (HX i p Hp) as (p' & Hp' & Sh). rewrite (iters_at_ok _ _ _ Hp), (iters_at_ok _ _ _ Hp').
  now destruct (shape_facts _ _ Sh).
Qed.

Lemma asked_snoc ps x : live x -> map (iters_at (ps ++ [x])) (req_indices (ps ++ [x])) = map (iters_at ps) (req_indices ps) ++ if is_req x then [p_iters x] else [].
Proof.
  intros L. assert (Hold : forall i, In i (map Z.of_nat (seq 0 (length ps))) -> exists p, at_ ps i p /\ at_ (ps ++ [x]) i p).
  { intros i Hi. apply in_map_iff in Hi as (n & <- & Hn). apply in_seq in Hn. destruct (at_exists ps (Z.of_nat n) ltac:(lia)) as (p & Hp). exists p. split; [exact Hp|]. apply at_snoc. now left. }
  assert (Hnew : at_ (ps ++ [x]) (Z.of_nat (length ps)) x) by (apply at_snoc; now right).
  unfold req_indices at 1. rewrite length_app, seq_app, map_app, filter_app, map_app. cbn [length Nat.add seq map filter]. f_equal.
  - transitivity (map (iters_at (ps ++ [x])) (req_indices ps)).
    + f_equal. apply filter_ext_in. intros i Hi. destruct (Hold i Hi) as (p & [_ E1] & [_ E2]). unfold req_at. now rewrite E1, E2.
    + apply map_ext_in. intros i Hi. apply filter_In in Hi as [Hi _]. destruct (Hold i Hi) as (p & H1 & H2). now rewrite (iters_at_ok _ _ _ H1), (iters_at_ok _ _ _ H2).
  - unfold req_at. destruct Hnew as [_ E]. rewrite E. replace ((0 <=? p_flags x) && (p_flags x <? 8)) with true by (symmetry; unfold live in L; rewrite Bool.andb_true_iff, Z.leb_le, Z.ltb_lt; exact L).
    cbn [andb]. destruct (is_req x); cbn [map]; [|reflexivity]. unfold iters_at. now rewrite E.
Qed.

Lemma asked_added q q' news : added q q' news -> Forall (fun x => live x /\ is_req x = false /\ is_started x = false /\ is_done x = false) news -> asked q' = asked q.
Proof.
  intros [A1 A2 A3] H. unfold asked. rewrite A1, A2. f_equal. clear A1 A2 A3 q'. revert H. generalize (proofs q). induction news as [|x news IH]; intros ps H; [now rewrite app_nil_r|].
  replace (ps ++ x :: news) with ((ps ++ [x]) ++ news) by (now rewrite <- app_assoc). inversion H as [|? ? (L & R & _) H']; subst. rewrite IH by exact H'. rewrite asked_snoc by exact L. rewrite R. now rewrite app_nil_r.
Qed.

Lemma extends_app ps l : extends ps (ps ++ l).
Proof. intros i p [H0 H]. exists p. split; [split; [exact H0|]|reflexivity]. now rewrite nth_error_app1 by (apply nth_error_Some; congruence). Qed.

Lemma step_trans q1 q2 q3 : step_ok q1 q2 -> (forall i p, at_ (proofs q2) i p -> live p -> exists p', at_ (proofs q3) i p' /\ shape p' = shape p) -> (forall i p', at_ (proofs q3) i p' -> live p' -> (exists p, at_ (proofs q2) i p /\ shape p' = shape p) \/ (is_started p' = false /\ is_done p' = false)) ->
  done_proofs q3 = done_proofs q2 -> forall A, Permutation (asked q3) (A ++ asked q2) ->
  (forall i p, at_ (proofs q1) i p -> live p -> is_started p = true -> exists p', at_ (proofs q3) i p' /\ shape p' = shape p) /\
  (forall i p', at_ (proofs q3) i p' -> live p' -> (exists p, at_ (proofs q1) i p /\ shape p' = shape p) \/ (is_started p' = false /\ is_done p' = false)) /\ done_proofs q3 = done_proofs q1 /\ Permutation (asked q3) (A ++ asked q1).
Proof.
  intros [S1 SB S2 S3] HX HB HD A HA. split; [|split; [|split; [congruence|now rewrite HA, S3]]].
  - intros i p H L S. destruct (S1 i p H L S) as (p2 & H2 & E2). destruct (shape_facts _ _ E2) as (_ & _ & _ & F & _ & _).
    destruct (HX i p2 H2 (F L)) as (p3 & H3 & E3). exists p3. split; [exact H3|congruence].
  - intros i p' H L. destruct (HB i p' H L) as [(p2 & H2 & E2)|HN]; [|now right]. destruct (shape_facts _ _ (eq_sym E2)) as (_ & _ & _ & F & _ & F6).
    destruct (SB i p2 H2 (F L)) as [(p & Hp & E)|[N1 N2]]; [left; exists p; split; [exact Hp|congruence]|right]. unfold has in *. now rewrite (req_at_shape _ _ E2).
Qed.

(** The chain of a request is built on what [find_base] gives. *)
Lemma with_base N q base : mid_ok (N + 1) no_more q -> mid_ok N no_more q ->
  match base with None => True | Some (it, idx) => exists p n, at_ (proofs q) idx p /\ live p /\ is_started p = false /\ is_req p = false /\ p_iters p = it /\ depth (proofs q) idx n /\ (n <= 61)%nat end ->
  exists it prev q' d, (match base with
      | None => Ok (0, HW_VDF_PROOF_NONE, q)
      | Some (iters, idx) => ps <- hw_proof_inc_ref (proofs q) idx ;; Ok (iters, idx, mkqueue (req_proofs q) ps (queued_proofs q) (done_proofs q))
      end) = Ok (it, prev, q') /\ mid_ok (N + 1) (one_more prev) q' /\ tip (proofs q') prev it d /\ (d <= 61)%nat /\ 0 <= it < 2 ^ 56 /\ it = match base with Some (it, _) => it | None => 0 end /\
    extends (proofs q) (proofs q') /\ length (proofs q') = length (proofs q) /\ req_proofs q' = req_proofs q /\ queued_proofs q' = queued_proofs q /\ done_proofs q' = done_proofs q.
Proof.
  intros M' M HB. destruct base as [[it idx]|].
  2:{ exists 0, HW_VDF_PROOF_NONE, q, 0%nat. split; [reflexivity|]. split.
      { apply (mid_ext _ _ _ _ M'). intros i p Hp _. pose proof (none_index _ _ _ _ _ _ (m_table _ _ _ M') Hp). unfold no_more, one_more. now destruct (Z.eqb_spec i HW_VDF_PROOF_NONE). }
      split; [now left|]. split; [lia|]. split; [lia|]. split; [reflexivity|]. split; [apply extends_refl|]. now repeat split. }
  destruct HB as (p & n & Hp & L & S & R & E & D & Hn). destruct M' as [T1 T2 T3 T4 T5 T6]. destruct (depth_bound _ _ _ D) as [B1 B2]. unfold hw_proof_inc_ref.
  destruct (inc_ref_ok interval (length (proofs q)) (proofs q) N no_more idx n p T1) as (ps' & -> & X & G & HL & T'); try assumption; [|lia|].
  { intros i s Hs _ Ls. exact (proj2 (e_ref _ _ _ _ _ (live_entry _ _ _ _ _ _ (m_table _ _ _ M) Hs Ls))). }
  cbn [bind]. assert (Hback : forall i p', at_ ps' i p' -> exists p, at_ (proofs q) i p /\ shape p' = shape p /\ p_ref_cnt p <= p_ref_cnt p') by exact G.
  eexists it, idx, _, n. split; [reflexivity|]. cbn [proofs queued_proofs req_proofs done_proofs]. split; [split; cbn [proofs queued_proofs req_proofs done_proofs]; try assumption|].
  - intros i p' H' L'. destruct (G i p' H') as (s & Hs & Sh & Hr). destruct (shape_facts _ _ (eq_sym Sh)) as (_ & _ & _ & F & _ & _). pose proof (T2 i s Hs (F L')). lia.
  - intros i. rewrite T4. split; [intros (s & Hs & Ls & Ss)|intros (s & Hs & Ls & Ss)].
    + destruct (X i s Hs) as (s' & Hs' & Sh). destruct (shape_facts _ _ Sh) as (_ & _ & _ & F4 & _ & F6). exists s'. split; [exact Hs'|]. split; [now apply F4|congruence].
    + destruct (G i s Hs) as (s' & Hs' & Sh & _). destruct (shape_facts _ _ (eq_sym Sh)) as (_ & _ & _ & F4 & _ & F6). exists s'. split; [exact Hs'|]. split; [now apply F4|congruence].
  - intros i Hi. destruct (T6 i Hi) as (s & Hs & Ls & Rs & Ds & Ss). destruct (X i s Hs) as (s' & Hs' & Sh). destruct (shape_facts _ _ Sh) as (_ & _ & _ & F4 & _ & _). exists s'. split; [exact Hs'|]. split; [now apply F4|].
    unfold has. rewrite (req_at_shape _ _ Sh). now repeat split.
  - split; [|split; [exact Hn|]].
    + right. destruct (X idx p Hp) as (p' & Hp' & Sh). destruct (shape_facts _ _ Sh) as (F1 & _ & _ & F4 & F5 & _). exists p'. split; [exact Hp'|]. split; [now apply F4|]. split; [congruence|]. split; [congruence|].
      apply (depth_mono (proofs q) ps' (fun _ => True)); try easy. clear - X. intros i s _ Hs. split; [|easy]. destruct (X i s Hs) as (s' & Hs' & Ss). exists s'. split; [exact Hs'|].
      now destruct (shape_facts _ _ Ss) as (_ & _ & S3 & _).
    + split; [rewrite <- E; exact (e_iters _ _ _ _ _ (live_entry _ _ _ _ _ _ T1 Hp L))|]. split; [reflexivity|]. split; [exact X|]. now repeat split.
Qed.

(** *** A request *)

Lemma process_req_ok N q r b rest : hw_queue_ok interval N q -> req_proofs q = (r, b) :: rest -> N + 1 < 2 ^ 16 - 1 -> Z.of_nat (length (proofs q)) + 3 < 2 ^ 16 - 1 ->
  exists q', hw_proof_process_req interval q = Ok q' /\ hw_queue_ok interval (N + 1) q' /\ step_ok q q' /\ Forall (fun x => r <= fst x) (req_proofs q') /\
    (length (proofs q') <= length (proofs q) + 3)%nat /\ (exists i p, at_ (proofs q') i p /\ live p /\ is_req p = true /\ is_started p = false /\ p_iters p = r).
Proof.
  intros Q Er HN Hlen. unfold hw_proof_process_req. rewrite Er. set (q0 := mkqueue rest (proofs q) (queued_proofs q) (done_proofs q)).
  destruct (q_req _ _ _ Q) as [RS RF]. rewrite Er in RS, RF. inversion RF as [|? ? Hr RF']; subst. cbn [fst] in Hr. apply StronglySorted_inv in RS as [RS' RA].
  assert (Q0 : hw_queue_ok interval N q0) by (destruct Q as [Q1 Q2 Q3 _ Q5]; split; try assumption; now split).
  destruct (make_room_ok interval N q0 r Q0 Hr RA) as (q1 & -> & Q1 & S1 & F1 & L1). cbn [bind proofs q0] in *.
  pose proof (hw_queue_mid _ _ Q1) as M1. pose proof (t_N _ _ _ _ (m_table _ _ _ M1)) as TN.
  destruct (find_base_ok (proofs q1) N no_more r (rev (queued_proofs q1)) (m_table _ _ _ M1)) as (base & -> & HB).
  { intros i Hi. apply in_rev in Hi. now apply (m_in _ _ _ M1). } cbn [bind].
  destruct (with_base N q1 base (mid_more N (N + 1) _ _ M1 ltac:(lia)) M1) as (it & prev & q2 & d & -> & M2 & T2 & Hd & Hit & Eit & X2 & L2 & E2r & E2q & E2d).
  { destruct base as [[it idx]|]; [exact (proj2 HB)|exact Logic.I]. }
  assert (Hle : it <= r) by (rewrite Eit; destruct base as [[? ?]|]; [exact (proj1 HB)|lia]). cbn [bind].
  unfold uwrap at 1. rewrite (Z.mod_small (r - it)) by lia.
  destruct (queue_checkpoints_ok (N + 1) q2 (r - it) prev it d M2 ltac:(lia) ltac:(lia) T2 ltac:(lia) ltac:(lia) ltac:(lia) Hd)
    as (last & prev3 & q3 & news & d3 & -> & M3 & T3 & Hd3 & Hlast & A3 & HL3 & F3). cbn [bind].
  replace (it + (r - it) - last) with (r - last) in T3 by lia.
  assert (L3 : (length (proofs q3) = length (proofs q1) + length news)%nat) by (rewrite (a_proofs _ _ _ A3), length_app; lia).
  destruct (hw_queue_proof_ok (N + 1) q3 last prev3 FLAG_IS_REQ (r - last) d3 M3 ltac:(lia) ltac:(lia) T3 ltac:(lia) ltac:(lia) ltac:(lia) (or_intror eq_refl) ltac:(discriminate) ltac:(lia)) as (-> & M4 & _).
  cbn [bind FLAG_IS_REQ Z.eqb] in *. set (x := mkproof _ _ _ _ _ _ _ _) in *. set (q4 := mkqueue _ (proofs q3 ++ [x]) _ _) in *.
  destruct (sort_queued_ok (N + 1) q4 M4) as (l & -> & Q5). set (q5 := mkqueue _ _ l _) in *. exists q5. split; [reflexivity|]. split; [exact Q5|].
  assert (Lx : live x) by (vm_compute; split; congruence). assert (Ex : p_iters x = r) by (cbn; lia).
  assert (HP : Permutation (asked q5) ([r] ++ asked q1)).
  { unfold asked at 1. cbn [q5 q4 req_proofs proofs]. rewrite (asked_snoc _ x Lx). cbn [is_req]. replace (is_req x) with true by reflexivity. rewrite Ex, app_assoc.
    fold (asked q3). rewrite (asked_added _ _ _ A3 F3). unfold asked. rewrite E2r, (asked_extends _ _ X2 L2). fold (asked q1). rewrite Permutation_app_comm. reflexivity. }
  destruct (step_trans q0 q1 q5 S1) with (A := [r]) as (H1 & HB5 & H2 & H3); [| |cbn [q5 q4 done_proofs]; rewrite (a_done _ _ _ A3); exact E2d|exact HP|].
  { intros i p Hp L. destruct (X2 i p Hp) as (p' & Hp' & Sh). exists p'. split; [|exact Sh]. cbn [q5 q4 proofs]. rewrite (a_proofs _ _ _ A3). apply at_snoc. left.
    destruct (extends_app (proofs q2) news i p' Hp') as (p'' & Hp'' & _). destruct Hp' as [H0 Hp']. split; [exact H0|]. now rewrite nth_error_app1 by (apply nth_error_Some; congruence). }
  { intros i p' Hp' L. cbn [q5 q4 proofs] in Hp'. apply at_snoc in Hp' as [Hp'|[_ ->]]; [|right; now split]. rewrite (a_proofs _ _ _ A3) in Hp'. destruct Hp' as [H0 Hp'].
    destruct (Nat.lt_ge_cases (Z.to_nat i) (length (proofs q2))) as [Hi|Hi].
    - left. rewrite nth_error_app1 in Hp' by exact Hi. destruct (at_exists (proofs q1) i ltac:(lia)) as (p & Hp). exists p. split; [exact Hp|]. destruct (X2 i p Hp) as (p2 & Hp2 & Sh).
      now rewrite (at_fun _ _ _ _ (conj H0 Hp') Hp2).
    - right. rewrite nth_error_app2 in Hp' by exact Hi. apply nth_error_In in Hp'. rewrite Forall_forall in F3. now destruct (F3 p' Hp') as (_ & _ & S' & D'). }
  split; [split; [exact H1|exact HB5|exact H2|]|split; [|split]].
  - rewrite H3. unfold asked. rewrite Er. reflexivity.
  - cbn [q5 q4 req_proofs]. now rewrite (a_req _ _ _ A3), E2r.
  - cbn [q5 q4 proofs]. rewrite length_app. cbn [length]. lia.
  - exists (Z.of_nat (length (proofs q3))), x. split; [cbn [q5 q4 proofs]; apply at_snoc; now right|]. now split.
Qed.

(** *** All requests *)

Lemma hw_queue_more N N' q : hw_queue_ok interval N q -> N <= N' < 2 ^ 16 - 1 -> hw_queue_ok interval N' q.
Proof. intros [Q1 Q2 Q3 Q4 Q5] HN. split; try assumption. exact (table_more _ _ _ _ Q1 HN). Qed.

Lemma step_ok_refl q : step_ok q q.
Proof. split; try reflexivity; intros i p H _; [|left]; now exists p. Qed.

Lemma step_ok_trans q1 q2 q3 : step_ok q1 q2 -> step_ok q2 q3 -> step_ok q1 q3.
Proof.
  intros [S1 SB S2 S3] [T1 TB T2 T3]. split; [| |congruence|now rewrite T3].
  - intros i p H L S. destruct (S1 i p H L S) as (p2 & H2 & E2). destruct (shape_facts _ _ E2) as (_ & _ & _ & F4 & _ & F6).
    destruct (T1 i p2 H2 (F4 L) ltac:(congruence)) as (p3 & H3 & E3). exists p3. split; [exact H3|congruence].
  - intros i p' H L. destruct (TB i p' H L) as [(p2 & H2 & E2)|HN]; [|now right]. destruct (shape_facts _ _ (eq_sym E2)) as (_ & _ & _ & F4 & _ & F6).
    destruct (SB i p2 H2 (F4 L)) as [(p & Hp & E)|[N1 N2]]; [left; exists p; split; [exact Hp|congruence]|right]. unfold has in *. now rewrite (req_at_shape _ _ E2).
Qed.

(** The loop's condition. *)
Definition may_process (q : hw_queue) : res bool :=
  match req_proofs q with
  | [] => Ok false
  | (iters, _) :: _ => if (length (queued_proofs q) <? 3)%nat then Ok true else hw_proof_should_queue iters q
  end.

(** What has been asked for from [r] on. *)
Definition left_from (r : Z) (q : hw_queue) : nat := length (filter (fun x => r <=? x) (asked q)).

Lemma left_from_perm r q q' : Permutation (asked q') (asked q) -> left_from r q' = left_from r q.
Proof. intros H. unfold left_from. apply Permutation_length.
  induction H as [|x l l' _ IH|x y l|l l' l'' _ IH1 _ IH2]; cbn [filter]; [reflexivity|destruct (r <=? x); [now constructor|exact IH]|destruct (r <=? x), (r <=? y); try reflexivity; apply perm_swap|now rewrite IH1]. Qed.

Lemma left_from_next l r r' : In r' l -> r <= r' -> (length (filter (fun x => (r' + 1 <=? x)%Z) l) < length (filter (fun x => (r <=? x)%Z) l))%nat.
Proof.
  intros Hin Hr. assert (Hle : forall l, (length (filter (fun x => (r' + 1 <=? x)%Z) l) <= length (filter (fun x => (r <=? x)%Z) l))%nat).
  { clear - Hr. induction l as [|x l IH]; [reflexivity|]. cbn [filter]. destruct (Z.leb_spec (r' + 1) x), (Z.leb_spec r x); cbn [length]; lia. }
  induction l as [|x l IH]; [easy|]. cbn [filter]. destruct Hin as [->|Hin].
  - destruct (Z.leb_spec (r' + 1) r'), (Z.leb_spec r r'); try lia. cbn [length]. specialize (Hle l). lia.
  - specialize (IH Hin). destruct (Z.leb_spec (r' + 1) x), (Z.leb_spec r x); cbn [length]; lia.
Qed.

Lemma may_process_ok N q : hw_queue_ok interval N q -> exists b, may_process q = Ok b.
Proof.
  intros Q. unfold may_process. destruct (req_proofs q) as [|[it b] rest]; [now exists false|]. destruct (Nat.ltb_spec (length (queued_proofs q)) 3) as [|Hl]; [now exists true|].
  apply (should_queue_ok (proofs q) it q eq_refl); [intros E; rewrite E in Hl; cbn in Hl; lia|]. intros i Hi. apply (k_in _ _ (q_queue _ _ _ Q)) in Hi as (p & Hp & _). now exists p.
Qed.

Lemma process_reqs_step fuel q : process_reqs fuel interval q =
  (go <- may_process q ;; if go : bool then match fuel with O => Throw out_of_fuel | S fuel' => q <- hw_proof_process_req interval q ;; process_reqs fuel' interval q end else Ok q).
Proof. unfold may_process. destruct fuel; cbn [process_reqs]; destruct (req_proofs q) as [|[it b] rest]; try reflexivity; destruct (length (queued_proofs q) <? 3)%nat; reflexivity. Qed.

(** The turns of the loop. *)
Fixpoint turns (fuel : nat) (q : hw_queue) : nat :=
  match may_process q, fuel with
  | Ok true, S fuel' => S (match hw_proof_process_req interval q with Ok q' => turns fuel' q' | Throw _ => O end)
  | _, _ => O
  end.

Lemma turns_le fuel : forall q, (turns fuel q <= fuel)%nat.
Proof.
  induction fuel as [|fuel IH]; intros q; cbn [turns]; (destruct (may_process q) as [[|]|]; [|lia|lia]); [lia|].
  destruct (hw_proof_process_req interval q) as [q'|]; [specialize (IH q')|]; lia.
Qed.

Lemma process_reqs_ok fuel : forall N q r, hw_queue_ok interval N q -> NoDup (asked q) -> Forall (fun x => r <= fst x) (req_proofs q) -> (left_from r q <= fuel)%nat ->
  N + Z.of_nat (turns fuel q) < 2 ^ 16 - 1 -> Z.of_nat (length (proofs q)) + 3 * Z.of_nat (turns fuel q) < 2 ^ 16 - 1 ->
  exists q', process_reqs fuel interval q = Ok q' /\ hw_queue_ok interval (N + Z.of_nat (turns fuel q)) q' /\ step_ok q q' /\ may_process q' = Ok false /\
    (length (proofs q') <= length (proofs q) + 3 * turns fuel q)%nat.
Proof.
  induction fuel as [|fuel IH]; intros N q r Q Hnd Hr Hf HN Hl; rewrite process_reqs_step; cbn [turns] in *; destruct (may_process_ok N q Q) as (b & Hb); rewrite Hb in *; cbn [bind].
  - destruct b.
    + exfalso. unfold may_process in Hb. destruct (req_proofs q) as [|[r1 b1] rest] eqn:Er; [discriminate|]. apply Forall_inv in Hr. cbn [fst] in Hr. unfold left_from in Hf.
      pose proof (left_from_next (asked q) r r1 ltac:(unfold asked; rewrite Er; now left) Hr). lia.
    + exists q. split; [reflexivity|]. split; [replace (N + Z.of_nat 0) with N by lia; exact Q|]. split; [apply step_ok_refl|split; [exact Hb|lia]].
  - destruct b.
    + unfold may_process in Hb. destruct (req_proofs q) as [|[r1 b1] rest] eqn:Er; [discriminate|]. apply Forall_inv in Hr. cbn [fst] in Hr.
      destruct (process_req_ok N q r1 b1 rest Q Er ltac:(lia) ltac:(lia)) as (q1 & E1 & Q1 & S1 & F1 & L1 & i & p & Hp & L & R & _ & E). rewrite E1 in *. cbn [bind].
      assert (Hnd1 : NoDup (asked q1)) by exact (Permutation_NoDup (Permutation_sym (s_asked _ _ S1)) Hnd).
      assert (F1' : Forall (fun x => r1 + 1 <= fst x) (req_proofs q1)).
      { apply Forall_forall. intros x Hx. rewrite Forall_forall in F1. specialize (F1 x Hx). enough (fst x <> r1) by lia. intros Ef. unfold asked in Hnd1.
        assert (H1 : In r1 (map fst (req_proofs q1))) by (apply in_map_iff; now exists x).
        assert (H2 : In r1 (map (iters_at (proofs q1)) (req_indices (proofs q1)))) by (apply in_map_iff; exists i; split; [now rewrite (iters_at_ok _ _ _ Hp)|apply req_indices_in; now exists p]).
        apply in_split in H1 as (l1 & l2 & E2). rewrite E2, <- app_assoc in Hnd1. cbn [app] in Hnd1. apply NoDup_remove_2 in Hnd1. apply Hnd1. rewrite !in_app_iff. tauto. }
      destruct (IH (N + 1) q1 (r1 + 1) Q1 Hnd1 F1') as (q2 & -> & Q2 & S2 & B2 & L2); try lia.
      { rewrite (left_from_perm _ _ _ (s_asked _ _ S1)). pose proof (left_from_next (asked q) r r1 ltac:(unfold asked; rewrite Er; now left) Hr). unfold left_from in *. lia. }
      exists q2. split; [reflexivity|]. split; [now replace (N + Z.of_nat (S (turns fuel q1))) with (N + 1 + Z.of_nat (turns fuel q1)) by lia|]. split; [exact (step_ok_trans _ _ _ S1 S2)|]. split; [exact B2|lia].
    + exists q. split; [reflexivity|]. split; [replace (N + Z.of_nat 0) with N by lia; exact Q|]. split; [apply step_ok_refl|split; [exact Hb|lia]].
Qed.

(** *** Starting, finishing and sending proofs *)

(** The links and the counts of [p'] are those of [p]. *)
Definition same_links (p p' : vdf_proof) : Prop := p_iters p' = p_iters p /\ p_seg_iters p' = p_seg_iters p /\ p_prev p' = p_prev p /\ p_ref_cnt p' = p_ref_cnt p /\
  is_req p' = is_req p /\ live p'.

Lemma share_links p p' i : same_links p p' -> share p' i = share p i.
Proof. intros (_ & _ & E3 & E4 & _). unfold share. now rewrite E3, E4. Qed.

Lemma at_put_links ps k p p' i s : at_ ps k p -> same_links p p' -> at_ (put ps k p') i s -> exists s0, at_ ps i s0 /\ (s = s0 \/ (i = k /\ s0 = p /\ s = p')).
Proof. intros H HS Hs. apply at_put in Hs as [[-> ->]|[_ Hs]]; [exists p; split; [exact H|right; now repeat split]|exists s; split; [exact Hs|now left]|exact (at_range _ _ _ H)]. Qed.

Lemma put_entry ps N k p p' i s s' : at_ ps k p -> live p -> same_links p p' -> entry_ok ps N i s -> (s' = s \/ (s = p /\ s' = p')) -> entry_ok (put ps k p') N i s'.
Proof.
  intros H L HS E Hs. assert (HE : same_links s s' \/ s' = s) by (destruct Hs as [->|[-> ->]]; [now right|now left]).
  assert (F : p_iters s' = p_iters s /\ p_seg_iters s' = p_seg_iters s /\ p_prev s' = p_prev s /\ p_ref_cnt s' = p_ref_cnt s /\ is_req s' = is_req s).
  { destruct HE as [(F1 & F2 & F3 & F4 & F5 & _)| ->]; now repeat split. }
  destruct F as (F1 & F2 & F3 & F4 & F5). destruct E as [E1 E2 E3 E4 E5 E6 E7 (n & E8 & E9)]. split; rewrite ?F1, ?F2, ?F4, ?F5; try assumption.
  - destruct HE as [(_ & _ & _ & _ & _ & L')| ->]; assumption.
  - apply (link_mono ps _ i s); try assumption. intros j t Ht Lt Rt _. destruct (Z.eq_dec j k) as [->|Hn].
    + rewrite (at_fun _ _ _ _ Ht H) in *. destruct HS as (G1 & _ & _ & _ & G5 & GL). exists p'. split; [apply at_put; [exact (at_range _ _ _ H)|now left]|]. split; [exact GL|]. split; congruence.
    + exists t. split; [apply at_put; [exact (at_range _ _ _ H)|right; now split]|split; [exact Lt|now split]].
  - exists n. split; [|exact E9]. apply (depth_mono ps _ (fun _ => True)); try easy. clear - H HS. intros i t _ Ht. split; [|easy]. destruct (Z.eq_dec i k) as [->|Hn].
    + rewrite (at_fun _ _ _ _ Ht H). exists p'. split; [apply at_put; [exact (at_range _ _ _ H)|now left]|]. now destruct HS as (_ & _ & E & _).
    + exists t. split; [apply at_put; [exact (at_range _ _ _ H)|right; now split]|reflexivity].
Qed.

Lemma table_put ps N e k p p' : table_ok ps N e -> at_ ps k p -> live p -> same_links p p' -> (is_started p' = false -> is_started p = false) ->
  (is_started p' = true -> 0 < p_seg_iters p -> forall q, at_ ps (p_prev p) q -> p_prev p <> HW_VDF_PROOF_NONE -> is_started q = true) -> table_ok (put ps k p') N e.
Proof.
  intros T H L HS Hst Hch. pose proof (at_range _ _ _ H) as Rk. pose proof HS as (F1 & F2 & F3 & F4 & F5 & F6).
  destruct T as [T1 T2 T3 T4 T5]. split; [now rewrite put_length|exact T2| | |].
  - intros i s Hs. destruct (at_put_links _ _ _ _ _ _ H HS Hs) as (s0 & H0 & [->|(-> & -> & ->)]).
    + destruct (T3 i s0 H0) as [->|E]; [now left|right]. apply (put_entry ps N k p p' i s0); try assumption. now left.
    + destruct (T3 k p H0) as [->|E]; [now elim deleted_not_live|right]. apply (put_entry ps N k p p' k p); try assumption. right. now split.
  - intros i s Hs Ls Ss. rewrite (children_put ps k p) by exact H. rewrite (share_links p p' i HS). destruct (at_put_links _ _ _ _ _ _ H HS Hs) as (s0 & H0 & [->|(-> & -> & ->)]).
    + rewrite (T4 i s0 H0 Ls Ss). lia.
    + unfold own. rewrite F4, F5. fold (own p). pose proof (T4 k p H0 L (Hst Ss)). lia.
  - intros i s t Hs Ls Ss Hseg Ht Hn. destruct (at_put_links _ _ _ _ _ _ H HS Hs) as (s0 & H0 & [->|(-> & -> & ->)]).
    + destruct (at_put_links _ _ _ _ _ _ H HS Ht) as (t0 & Ht0 & [->|(Ek & -> & ->)]); [exact (T5 i s0 t0 H0 Ls Ss Hseg Ht0 Hn)|].
      pose proof (T5 i s0 p H0 Ls Ss Hseg Ht0 Hn) as Sp. destruct (is_started p') eqn:S'; [reflexivity|]. rewrite (Hst eq_refl) in Sp. discriminate.
    + rewrite F2 in Hseg. rewrite F3 in Ht, Hn. destruct (at_put_links _ _ _ _ _ _ H HS Ht) as (t0 & Ht0 & [->|(Ek & -> & ->)]); [exact (Hch Ss Hseg t0 Ht0 Hn)|exact Ss].
Qed.

Lemma flags_or p f : live p -> f = FLAG_STARTED \/ f = FLAG_DONE -> 0 <= Z.lor (p_flags p) f < 8 /\
  (Z.land (Z.lor (p_flags p) f) FLAG_IS_REQ =? 0) = (Z.land (p_flags p) FLAG_IS_REQ =? 0) /\
  (Z.land (Z.lor (p_flags p) f) FLAG_STARTED =? 0) = (Z.land (p_flags p) FLAG_STARTED =? 0) && negb (f =? FLAG_STARTED) /\
  (Z.land (Z.lor (p_flags p) f) FLAG_DONE =? 0) = (Z.land (p_flags p) FLAG_DONE =? 0) && negb (f =? FLAG_DONE).
Proof.
  intros L Hf. unfold live in L. assert (HC : p_flags p = 0 \/ p_flags p = 1 \/ p_flags p = 2 \/ p_flags p = 3 \/ p_flags p = 4 \/ p_flags p = 5 \/ p_flags p = 6 \/ p_flags p = 7) by lia.
  destruct Hf as [-> | ->]; destruct HC as [-> |[-> |[-> |[-> |[-> |[-> |[-> | ->]]]]]]]; vm_compute; repeat split; congruence.
Qed.

Lemma start_ok N q idx queued : hw_queue_ok interval N q -> queued_proofs q = idx :: queued ->
  exists p q', start_first q = Ok (idx, q') /\ hw_queue_ok interval N q' /\ at_ (proofs q) idx p /\ live p /\ is_started p = false /\
    proofs q' = put (proofs q) idx (set_flags (Z.lor (p_flags p) FLAG_STARTED) p) /\ queued_proofs q' = queued /\ done_proofs q' = done_proofs q /\ req_proofs q' = req_proofs q.
Proof.
  intros [Q1 Q2 [K1 K2 K3] Q4 Q5] Eq. unfold start_first. rewrite Eq in *. destruct (proj1 (K2 idx) (or_introl eq_refl)) as (p & Hp & L & S). rewrite (at_get _ _ _ Hp). cbn [bind].
  set (p' := set_flags _ p). destruct (flags_or p FLAG_STARTED L (or_introl eq_refl)) as (L' & FR & FS & FD). rewrite Z.eqb_refl in FS. cbn [negb] in FS. rewrite Bool.andb_false_r in FS. pose proof (at_range _ _ _ Hp) as Rk.
  assert (HS : same_links p p') by (unfold same_links, has; cbn [p' set_flags p_iters p_seg_iters p_prev p_ref_cnt p_flags]; rewrite FR; repeat split; try reflexivity; apply L').
  assert (S' : is_started p' = true) by (unfold has; cbn [p' set_flags p_flags]; now rewrite FS).
  assert (T' : table_ok (put (proofs q) idx p') N no_more).
  { apply (table_put _ _ _ idx p p' Q1 Hp L HS); [congruence|]. intros _ Hseg t Ht Hn. destruct (is_started t) eqn:St; [reflexivity|exfalso].
    destruct (prev_live _ _ _ _ _ _ Q1 Hp L Hn) as (Hr & t' & Ht' & Lt & _ & E). rewrite (at_fun _ _ _ _ Ht' Ht) in *.
    assert (Hin : In (p_prev p) (idx :: queued)) by (apply K2; now exists t). destruct Hin as [E0|Hin]; [lia|].
    apply StronglySorted_inv in K3 as [_ K3]. rewrite Forall_forall in K3. specialize (K3 _ Hin). unfold by_iters in K3. rewrite (iters_at_ok _ _ _ Hp), (iters_at_ok _ _ _ Ht) in K3. lia. }
  exists p, (mkqueue (req_proofs q) (put (proofs q) idx p') queued (done_proofs q)). split; [reflexivity|]. split; [|split; [exact Hp|split; [exact L|now repeat split]]].
  inversion K1 as [|? ? Hni Hnd]; subst. split; cbn [proofs queued_proofs req_proofs done_proofs]; try assumption.
  - intros i s Hs Ls. destruct (at_put_links _ _ _ _ _ _ Hp HS Hs) as (s0 & H0 & [->|(-> & -> & ->)]); [exact (Q2 i s0 H0 Ls)|exact (Q2 idx p H0 L)].
  - split; [exact Hnd| |].
    + intros i. split.
      * intros Hi. destruct (proj1 (K2 i) (or_intror Hi)) as (s & Hs & LS). exists s. split; [|exact LS]. apply at_put; [exact Rk|right; split; [|exact Hs]]. intros ->. contradiction.
      * intros (s & Hs & Ls & Ss). apply at_put in Hs as [[-> ->]|[Hn Hs]]; [congruence| |exact Rk]. destruct (proj2 (K2 i)) as [E|Hi]; [now exists s|congruence|exact Hi].
    + apply StronglySorted_inv in K3 as [K3 _]. apply (sorted_impl (by_iters (proofs q))); [|exact K3]. intros a b Ha Hb. unfold by_iters.
      assert (HI : forall i, In i queued -> iters_at (put (proofs q) idx p') i = iters_at (proofs q) i).
      { intros i Hi. destruct (proj1 (K2 i) (or_intror Hi)) as (s & Hs & _). rewrite (iters_at_ok _ _ _ Hs). apply iters_at_ok. apply at_put; [exact Rk|right; split; [|exact Hs]]. intros ->. contradiction. }
      now rewrite (HI a Ha), (HI b Hb).
  - intros i Hi. destruct (Q5 i Hi) as (s & Hs & Ls & Rs & Ds & Ss). exists s. split; [|split; [exact Ls|now repeat split]]. apply at_put; [exact Rk|right; split; [|exact Hs]].
    intros ->. rewrite (at_fun _ _ _ _ Hs Hp) in Ss. congruence.
Qed.

Lemma finish_proof_ok N q idx p y proof B : hw_queue_ok interval N q -> at_ (proofs q) idx p -> live p -> is_started p = true ->
  exists q', finish_proof idx y proof B q = Ok q' /\ hw_queue_ok interval N q' /\ done_proofs q' = done_proofs q ++ (if is_req p then [idx] else []) /\ queued_proofs q' = queued_proofs q /\
    req_proofs q' = req_proofs q /\ proofs q' = put (proofs q) idx (mkproof (p_iters p) (p_seg_iters p) y proof (if is_req p then p_B p else B) (Z.lor (p_flags p) FLAG_DONE) (p_prev p) (p_ref_cnt p)).
Proof.
  intros [Q1 Q2 [K1 K2 K3] Q4 Q5] Hp L S. unfold finish_proof. rewrite (at_get _ _ _ Hp). cbn [bind]. set (p' := mkproof _ _ _ _ _ _ _ _).
  destruct (flags_or p FLAG_DONE L (or_intror eq_refl)) as (L' & FR & FS & FD). change (negb (FLAG_DONE =? FLAG_STARTED)) with true in FS. rewrite Bool.andb_true_r in FS. pose proof (at_range _ _ _ Hp) as Rk.
  rewrite Z.eqb_refl in FD. cbn [negb] in FD. rewrite Bool.andb_false_r in FD.
  assert (HS : same_links p p') by (unfold same_links, has; cbn [p' p_iters p_seg_iters p_prev p_ref_cnt p_flags]; rewrite FR; repeat split; try reflexivity; apply L').
  assert (S' : is_started p' = true) by (unfold has in *; cbn [p' p_flags]; now rewrite FS).
  assert (D' : is_done p' = true) by (unfold has; cbn [p' p_flags]; now rewrite FD).
  assert (R' : is_req p' = is_req p) by apply HS.
  assert (T' : table_ok (put (proofs q) idx p') N no_more).
  { apply (table_put _ _ _ idx p p' Q1 Hp L HS); [congruence|]. intros _ Hseg t Ht Hn. exact (t_started _ _ _ _ Q1 idx p t Hp L S Hseg Ht Hn). }
  assert (HD : (if is_req p then done_proofs q ++ [u16 idx] else done_proofs q) = done_proofs q ++ (if is_req p then [idx] else [])).
  { destruct (is_req p); [|now rewrite app_nil_r]. pose proof (t_len _ _ _ _ Q1). unfold uwrap. now rewrite Z.mod_small by lia. }
  eexists. split; [reflexivity|]. cbn [proofs queued_proofs req_proofs done_proofs]. split; [|now repeat split]. rewrite HD.
  assert (Hat : forall i s, at_ (proofs q) i s -> at_ (put (proofs q) idx p') i (if i =? idx then p' else s)).
  { intros i s Hs. apply at_put; [exact Rk|]. destruct (Z.eqb_spec i idx); [left; now split|right; now split]. }
  split; cbn [proofs queued_proofs req_proofs done_proofs]; try assumption.
  - intros i s Hs Ls. destruct (at_put_links _ _ _ _ _ _ Hp HS Hs) as (s0 & H0 & [->|(-> & -> & ->)]); [exact (Q2 i s0 H0 Ls)|exact (Q2 idx p H0 L)].
  - split; [exact K1| |].
    + intros i. rewrite K2. split; intros (s & Hs & Ls & Ss).
      * exists s. split; [|now split]. apply at_put; [exact Rk|right; split; [|exact Hs]]. intros ->. rewrite (at_fun _ _ _ _ Hs Hp) in Ss. congruence.
      * apply at_put in Hs as [[-> ->]|[_ Hs]]; [congruence|now exists s|exact Rk].
    + apply (sorted_impl (by_iters (proofs q))); [|exact K3]. intros a b Ha Hb. unfold by_iters.
      assert (HI : forall i, In i (queued_proofs q) -> iters_at (put (proofs q) idx p') i = iters_at (proofs q) i).
      { intros i Hi. apply K2 in Hi as (s & Hs & _ & Ss). rewrite (iters_at_ok _ _ _ Hs). apply iters_at_ok. apply at_put; [exact Rk|right; split; [|exact Hs]]. intros ->. rewrite (at_fun _ _ _ _ Hs Hp) in Ss. congruence. }
      now rewrite (HI a Ha), (HI b Hb).
  - intros i Hi. apply in_app_or in Hi as [Hi|Hi].
    + destruct (Q5 i Hi) as (s & Hs & Ls & Rs & Ds & Ss). exists (if i =? idx then p' else s). split; [exact (Hat i s Hs)|]. destruct (Z.eqb_spec i idx) as [->|]; [|split; [exact Ls|now repeat split]].
      rewrite (at_fun _ _ _ _ Hs Hp) in *. split; [apply HS|]. split; [congruence|]. now split.
    + destruct (is_req p) eqn:R; [|easy]. destruct Hi as [<-|[]]. exists p'. split; [apply at_put; [exact Rk|now left]|]. split; [apply HS|]. split; [congruence|now split].
Qed.

(** The proofs of a chain, from the last. *)
Inductive chain_of (ps : list vdf_proof) : Z -> list vdf_proof -> Prop :=
| chain_none : chain_of ps HW_VDF_PROOF_NONE []
| chain_next i p l : i <> HW_VDF_PROOF_NONE -> at_ ps i p -> chain_of ps (p_prev p) l -> chain_of ps i (p :: l).

Lemma chain_exists ps i n : Z.of_nat (length ps) < 2 ^ 16 - 1 -> depth ps i n -> exists l, chain_of ps i l /\ length l = n.
Proof.
  intros Hl. induction 1 as [i p H E|i p n H Hp _ (l & IH1 & IH2)]; pose proof (at_range _ _ _ H).
  - exists [p]. split; [|reflexivity]. apply chain_next; [unfold HW_VDF_PROOF_NONE; lia|exact H|]. rewrite E. constructor.
  - exists (p :: l). split; [|cbn; lia]. apply chain_next; [unfold HW_VDF_PROOF_NONE; lia|exact H|exact IH1].
Qed.

Lemma chain_done_ok ps i l : chain_of ps i l -> forall fuel cnt, (length l <= fuel)%nat ->
  chain_done fuel ps i cnt = Ok (if forallb is_done l then Some (cnt + Z.of_nat (length l)) else None).
Proof.
  induction 1 as [|i p l Hn Hp _ IH]; intros fuel cnt Hf; destruct fuel as [|fuel]; cbn [chain_done forallb length] in *; try lia.
  - cbn. now rewrite Z.add_0_r.
  - cbn. now rewrite Z.add_0_r.
  - destruct (Z.eqb_spec i HW_VDF_PROOF_NONE); [contradiction|]. rewrite (at_get _ _ _ Hp). cbn [bind]. destruct (is_done p); cbn [negb andb]; [|reflexivity].
    rewrite IH by lia. destruct (forallb is_done l); [|reflexivity]. do 2 f_equal. lia.
Qed.

Lemma chain_fun ps i l l' : chain_of ps i l -> chain_of ps i l' -> l = l'.
Proof.
  intros H. revert l'. induction H as [|i p l Hn Hp _ IH]; intros l' H'; inversion H' as [|? p' m Hn' Hp' C']; subst; try reflexivity; try contradiction.
  rewrite (at_fun _ _ _ _ Hp' Hp) in *. f_equal. now apply IH.
Qed.

(** All the proofs of the chain but the last are done. *)
Definition ready (ps : list vdf_proof) (idx : Z) (p : vdf_proof) (l : list vdf_proof) : Prop := at_ ps idx p /\ chain_of ps (p_prev p) l /\ forallb is_done l = true.

Lemma prev_chain ps N e i p : table_ok ps N e -> at_ ps i p -> live p -> exists l, chain_of ps (p_prev p) l /\ (length l <= if is_req p then 63 else 62)%nat /\ (length l < length ps)%nat.
Proof.
  intros T H L. destruct (depth_live _ _ _ _ _ _ T H L) as (n & D & Hn). destruct (depth_bound _ _ _ D) as [B1 B2]. destruct (Z.eq_dec (p_prev p) HW_VDF_PROOF_NONE) as [E|E].
  - exists []. rewrite E. split; [constructor|]. split; cbn; lia.
  - destruct (depth_prev _ _ _ _ D H E) as (m & -> & D'). destruct (chain_exists ps _ m (t_len _ _ _ _ T) D') as (l & C & El). exists l. split; [exact C|]. split; [destruct (is_req p); lia|lia].
Qed.

Lemma retrieve_ok ps N e dones : table_ok ps N e -> (forall i, In i dones -> exists p, at_ ps i p /\ live p /\ is_req p = true) -> forall before,
  exists r, retrieve ps before dones = Ok r /\
    match r with
    | None => forall i p l, In i dones -> ~ ready ps i p l
    | Some (cnt, idx, rest) => exists pre post p l, dones = pre ++ idx :: post /\ rest = before ++ pre ++ post /\ ready ps idx p l /\ cnt = Z.of_nat (length l) /\ 0 <= cnt <= 63 /\
        (forall i p l, In i pre -> ~ ready ps i p l)
    end.
Proof.
  intros T. induction dones as [|i dones IH]; intros H before; cbn [retrieve]; [exists None; split; [reflexivity|easy]|].
  destruct (H i (or_introl eq_refl)) as (p & Hp & L & R). rewrite (at_get _ _ _ Hp). cbn [bind]. destruct (prev_chain _ _ _ _ _ T Hp L) as (l & C & Hl & Hl2). rewrite R in Hl.
  rewrite (chain_done_ok ps _ l C) by lia. cbn [bind]. destruct (forallb is_done l) eqn:E.
  - exists (Some (0 + Z.of_nat (length l), i, before ++ dones)). split; [reflexivity|]. exists [], dones, p, l. repeat (split; [reflexivity || assumption || lia|]). split; [split; [exact Hp|now split]|]. split; [lia|]. split; [lia|easy].
  - assert (Hnot : forall p l, ~ ready ps i p l).
    { intros p' l' (Hp' & C' & E'). rewrite (at_fun _ _ _ _ Hp' Hp) in *. rewrite (chain_fun _ _ _ _ C' C) in E'. congruence. }
    destruct (IH (fun j Hj => H j (or_intror Hj)) (before ++ [i])) as ([[[cnt idx] rest]|] & -> & Hr).
    + exists (Some (cnt, idx, rest)). split; [reflexivity|]. destruct Hr as (pre & post & p' & l' & -> & -> & HR & HC & HB & HN). exists (i :: pre), post, p', l'.
      split; [reflexivity|]. split; [now rewrite <- app_assoc|]. do 3 (split; [assumption|]). intros j q m [<-|Hj]; [apply Hnot|now apply HN].
    + exists None. split; [reflexivity|]. intros j q m [<-|Hj]; [apply Hnot|now apply Hr].
Qed.

(** *** All histories *)

(** The states of the queue after [N] requests were processed. The threads are
    the ones that [start_first] has started. *)
Inductive queue_reach : Z -> hw_queue -> Prop :=
| reach_empty : queue_reach 0 (mkqueue [] [] [] [])
| reach_request N q iters : queue_reach N q -> 0 < iters < 2 ^ 56 -> queue_reach N (hw_request_proof iters false q)
| reach_process N q q' : queue_reach N q -> N + 1 < 2 ^ 16 - 1 -> Z.of_nat (length (proofs q)) + 3 < 2 ^ 16 - 1 -> hw_proof_process_req interval q = Ok q' -> queue_reach (N + 1) q'
| reach_start N q idx q' : queue_reach N q -> start_first q = Ok (idx, q') -> queue_reach N q'
| reach_finish N q idx p y proof B q' : queue_reach N q -> at_ (proofs q) idx p -> live p -> is_started p = true -> finish_proof idx y proof B q = Ok q' -> queue_reach N q'
| reach_retrieve N q r q' : queue_reach N q -> hw_retrieve_proof q = Ok (r, q') -> queue_reach N q'.

Lemma hw_queue_ok_empty : hw_queue_ok interval 0 (mkqueue [] [] [] []).
Proof.
  assert (Hn : forall i p, ~ at_ [] i p) by (intros i p [_ H]; now destruct (Z.to_nat i)).
  split; cbn [proofs queued_proofs req_proofs done_proofs].
  - split; [cbn; lia|lia| | |]; intros i p; intros; exfalso; eapply Hn; eassumption.
  - intros i p H. now elim (Hn i p).
  - split; [constructor| |constructor]. intros i. split; [easy|]. intros (p & H & _). now elim (Hn i p).
  - split; constructor.
  - easy.
Qed.

Lemma request_ok N q iters : hw_queue_ok interval N q -> 0 < iters < 2 ^ 56 -> hw_queue_ok interval N (hw_request_proof iters false q).
Proof.
  intros [Q1 Q2 Q3 [Q4 Q4'] Q5] Hi. split; try assumption. cbn [hw_request_proof req_proofs]. destruct (request_sorted iters false (req_proofs q)) as [S1 S2]. split; [exact S1|].
  apply Forall_forall. intros x Hx. apply (Permutation_in _ S2) in Hx. destruct Hx as [<-|Hx]; [exact Hi|]. rewrite Forall_forall in Q4'. now apply Q4'.
Qed.

Lemma process_ok N q : hw_queue_ok interval N q -> N + 1 < 2 ^ 16 - 1 -> Z.of_nat (length (proofs q)) + 3 < 2 ^ 16 - 1 -> exists q', hw_proof_process_req interval q = Ok q' /\ hw_queue_ok interval (N + 1) q'.
Proof.
  intros Q HN Hl. destruct (req_proofs q) as [|[r b] rest] eqn:E.
  - exists q. split; [unfold hw_proof_process_req; now rewrite E|]. apply (hw_queue_more N); [exact Q|lia].
  - destruct (process_req_ok N q r b rest Q E HN Hl) as (q' & E' & Q' & _). now exists q'.
Qed.

Lemma retrieve_total N q : hw_queue_ok interval N q -> exists r q', hw_retrieve_proof q = Ok (r, q') /\ hw_queue_ok interval N q'.
Proof.
  intros Q. unfold hw_retrieve_proof. destruct (retrieve_ok (proofs q) N no_more (done_proofs q) (q_table _ _ _ Q)) with (before := @nil Z) as ([[[cnt idx] rest]|] & -> & HR).
  - intros i Hi. destruct (q_done _ _ _ Q i Hi) as (p & Hp & L & R & _). exists p. split; [exact Hp|now split].
  - cbn [bind]. do 2 eexists. split; [reflexivity|]. destruct HR as (pre & post & p & l & E & -> & _). destruct Q as [Q1 Q2 Q3 Q4 Q5]. split; try assumption. cbn [done_proofs app]. intros i Hi. apply Q5. rewrite E.
    apply in_app_or in Hi. apply in_or_app. destruct Hi; [now left|right; now right].
  - cbn [bind]. do 2 eexists. split; [reflexivity|exact Q].
Qed.

Lemma reach_ok N q : queue_reach N q -> hw_queue_ok interval N q.
Proof.
  induction 1 as [|N q iters _ IH Hi|N q q' _ IH HN Hl E|N q idx q' _ IH E|N q idx p y proof B q' _ IH Hp L S E|N q r q' _ IH E].
  - exact hw_queue_ok_empty.
  - now apply request_ok.
  - destruct (process_ok N q IH HN Hl) as (q1 & E1 & Q1). congruence.
  - destruct (queued_proofs q) as [|idx' queued] eqn:Eq; [unfold start_first in E; rewrite Eq in E; discriminate|].
    destruct (start_ok N q idx' queued IH Eq) as (p & q1 & E1 & Q1 & _). congruence.
  - destruct (finish_proof_ok N q idx p y proof B IH Hp L S) as (q1 & E1 & Q1 & _). congruence.
  - destruct (retrieve_total N q IH) as (r1 & q1 & E1 & Q1). congruence.
Qed.
End WithLaws.
End Requests.

(** [insertion_sort] sorts. *)
Section Insertion.
Context {A : Type} (key : A -> Z).
Abbreviation lt := (fun a b => key a <? key b).

Lemma insert_perm x (l : list A) : Permutation (insert lt x l) (x :: l).
Proof. induction l as [|y l IH]; cbn [insert]; [reflexivity|]. destruct (key x <? key y); [reflexivity|]. rewrite IH. apply perm_swap. Qed.

Lemma insert_sorted x (l : list A) : StronglySorted (fun a b => key a <= key b) l -> StronglySorted (fun a b => key a <= key b) (insert lt x l).
Proof.
  induction 1 as [|y l HS IH Hy]; cbn [insert]; [repeat constructor|]. destruct (Z.ltb_spec (key x) (key y)) as [H|H].
  - constructor; [now constructor|]. constructor; [lia|]. eapply Forall_impl; [|exact Hy]. cbv beta. lia.
  - constructor; [exact IH|]. apply Forall_forall. intros z Hz. apply (Permutation_in _ (insert_perm x l)) in Hz. destruct Hz as [<-|Hz]; [exact H|]. rewrite Forall_forall in Hy. now apply Hy.
Qed.

Lemma insertion_fold (l acc : list A) : StronglySorted (fun a b => key a <= key b) acc ->
  Permutation (fold_left (fun acc x => insert lt x acc) l acc) (l ++ acc) /\ StronglySorted (fun a b => key a <= key b) (fold_left (fun acc x => insert lt x acc) l acc).
Proof.
  revert acc. induction l as [|x l IH]; intros acc HS; cbn [fold_left app]; [now split|]. destruct (IH (insert lt x acc) (insert_sorted x acc HS)) as [H1 H2]. split; [|exact H2].
  rewrite H1, insert_perm. symmetry. apply Permutation_middle.
Qed.
End Insertion.

#[export] Instance insertion_sort_laws : StdSortLaws insertion_sort.
Proof. intros A key l. destruct (insertion_fold key l [] (SSorted_nil _)) as [H1 H2]. rewrite app_nil_r in H1. now split. Qed.

(** ** The properties *)

(** C19: the queue of the hardware client is well-formed after any
    sequence of requests, processed requests, started, finished and sent
    proofs: the links lead to earlier checkpoints and the iterations add up, a
    chain has at most 64 segments, checkpoints take whole intervals, the
    reference counts of the proofs that have not started are those of the
    chains that hold them, the queue lists exactly those proofs, each once and by their
    iterations, and deleted entries are referred to by nothing. So no operation
    reads outside the table or walks for ever, as long as the indices and
    counts fit their 16 bits. *)
Theorem hw_queue_well_formed {S : StdSort} {SL : StdSortLaws S} interval N q : 0 < interval <= 100000 -> queue_reach interval N q ->
  hw_queue_ok interval N q /\
  (N + 1 < 2 ^ 16 - 1 -> Z.of_nat (length (proofs q)) + 3 < 2 ^ 16 - 1 -> exists q', hw_proof_process_req interval q = Ok q') /\
  (queued_proofs q <> [] -> exists r, start_first q = Ok r) /\
  (exists r, hw_retrieve_proof q = Ok r).
Proof.
  intros HI H. pose proof (reach_ok interval HI N q H) as Q. split; [exact Q|]. split; [|split].
  - intros HN Hl. destruct (process_ok interval HI N q Q HN Hl) as (q' & E & _). now exists q'.
  - intros Hne. destruct (queued_proofs q) as [|idx queued] eqn:E; [contradiction|]. destruct (start_ok interval HI N q idx queued Q E) as (p & q' & E' & _). now exists (idx, q').
  - destruct (retrieve_total interval N q Q) as (r & q' & E & _). now exists (r, q').
Qed.

(** C20: the loop that processes the requests ends, within as many
    turns as there are requests in the queue (pending or in the table), if
    these are for different iterations. Every request is then pending or in
    the table, the proofs that have started are untouched, and what
    is still pending is past the end of a queue of three proofs or more. *)
Theorem hw_requests_processed {S : StdSort} {SL : StdSortLaws S} interval N q : 0 < interval <= 100000 -> hw_queue_ok interval N q -> NoDup (asked q) ->
  let n := length (asked q) in N + Z.of_nat n < 2 ^ 16 - 1 -> Z.of_nat (length (proofs q)) + 3 * Z.of_nat n < 2 ^ 16 - 1 ->
  exists q', process_reqs n interval q = Ok q' /\ hw_queue_ok interval (N + Z.of_nat n) q' /\ step_ok q q' /\ may_process q' = Ok false.
Proof.
  intros HI Q Hnd n HN Hl. assert (H0 : Forall (fun x => 0 <= fst x) (req_proofs q)) by (eapply Forall_impl; [|exact (proj2 (q_req _ _ _ Q))]; cbv beta; lia).
  assert (Hf : (left_from 0 q <= n)%nat) by (unfold left_from; apply filter_length_le).
  pose proof (turns_le interval n q) as Ht.
  destruct (process_reqs_ok (SrtL := SL) interval HI n N q 0 Q Hnd H0 Hf ltac:(lia) ltac:(lia)) as (q' & E & Q' & S' & B & _). exists q'. split; [exact E|]. split; [apply (hw_queue_more interval (N + Z.of_nat (turns interval n q))); [exact Q'|lia]|now split].
Qed.

(** ** Witnesses *)

(** Two requests, the larger one first. *)
Definition hw_queue_2 : hw_queue := hw_request_proof 3000000 false (hw_request_proof 9000000 false (mkqueue [] [] [] [])).
Definition run_2 : res hw_queue := q <- hw_proof_process_req 4000 hw_queue_2 ;; hw_proof_process_req 4000 q.

Lemma reach_2 : exists q, run_2 = Ok q /\ queue_reach 4000 2 q /\ length (proofs q) = 5%nat.
Proof.
  unfold run_2. destruct (hw_proof_process_req 4000 hw_queue_2) as [q1|] eqn:E1; [|vm_compute in E1; discriminate]. cbn [bind]. vm_compute in E1. injection E1 as <-.
  match goal with |- exists q, ?r = Ok q /\ _ => destruct r as [q2|] eqn:E2; [|vm_compute in E2; discriminate] end. exists q2. split; [reflexivity|]. split.
  - apply (reach_process 4000 1 _ q2 (reach_process 4000 0 hw_queue_2 _ (reach_request 4000 0 _ 3000000 (reach_request 4000 0 _ 9000000 (reach_empty 4000) ltac:(lia)) ltac:(lia)) ltac:(lia) ltac:(vm_compute; reflexivity) eq_refl)
      ltac:(lia) ltac:(vm_compute; reflexivity) E2).
  - vm_compute in E2. injection E2 as <-. reflexivity.
Qed.

Lemma hw_queue_well_formed_witness : exists q, run_2 = Ok q /\ hw_queue_ok 4000 2 q.
Proof.
  destruct reach_2 as (q & E & H & _). exists q. split; [exact E|]. exact (proj1 (hw_queue_well_formed 4000 2 q ltac:(lia) H)).
Defined.

Lemma hw_queue_2_ok : hw_queue_ok 4000 0 hw_queue_2.
Proof. exact (request_ok 4000 0 _ 3000000 (request_ok 4000 0 _ 9000000 (hw_queue_ok_empty 4000 ltac:(lia)) ltac:(lia)) ltac:(lia)). Qed.

Lemma hw_requests_processed_witness : asked hw_queue_2 = [3000000; 9000000] /\
  exists q', process_reqs 2 4000 hw_queue_2 = Ok q' /\ hw_queue_ok 4000 2 q' /\ may_process q' = Ok false.
Proof.
  split; [vm_compute; reflexivity|]. assert (Hnd : NoDup (asked hw_queue_2)).
  { assert (E : asked hw_queue_2 = [3000000; 9000000]) by (vm_compute; reflexivity). rewrite E. repeat constructor; cbn; lia. }
  destruct (hw_requests_processed 4000 0 hw_queue_2 ltac:(lia) hw_queue_2_ok Hnd ltac:(vm_compute; reflexivity) ltac:(vm_compute; reflexivity)) as (q' & E & Q & _ & B).
  exists q'. split; [exact E|]. split; [exact Q|exact B].
Defined.
