(* ===== verification/HwValues.v ===== *)
(** [src/src/hw/hw_proof.cpp], the values: what the hardware reports is checked and
    stored at whole intervals, and the forms in between are computed again by
    auxiliary threads. *)
From S2P Require Import Prelude Words NumTheory Gmp QuadForm FormClass Integer Forms Nucomp Bqfc HashPrime ProofCommon Powers Verifier Callback HwQueue HwRequests.

(** ** State *)

Record vdf_value : Type := mkvalue { v_iters : Z; v_a : Z; v_b : Z }.
Record vdf_work : Type := mkwork { start_val : vdf_value; start_iters : Z; n_steps : Z }.

(** Set by [init_vdf_state]. *)
Record config : Type := mkconfig {
  target_iters : Z;
  interval : Z;
  cD : Z;
  cL : Z;
  max_aux_threads : Z;          (* uint8_t *)
  max_proof_threads : Z;        (* uint8_t *)
}.

(** What the last values were. *)
Record input : Type := mkinput {
  iters_offset : Z;
  cur_iters : Z;
  last_val : vdf_value;
  n_bad : Z;
  n_skipped : Z;
  completed : bool;
}.

(** [values] and [valid_values]; [n_blocks] is [values.size()]. The pointers are
    into one array, as the blocks never move. *)
Record store : Type := mkstore {
  n_blocks : Z;
  values : array;
  valid_values : bytes;
  done_values : Z;
}.

(** The detached threads: [hw_proof_calc_values] before and in its loop, and
    [hw_compute_proof] on a proof. *)
Record calc : Type := mkcalc {
  c_form : form;
  c_iters : Z;
  c_init : Z;
  c_next : Z;
  c_end : Z;
}.
Inductive task : Type :=
| Values (work : vdf_work)
| Calculating (c : calc)
| Proving (idx : Z).
Record thread : Type := mkthread { t_idx : Z; t_task : task }.

Record pool : Type := mkpool {
  wq : list vdf_work;
  wq_warn_thres : Z * Z;
  aux_threads_busy : Z;         (* uint64_t *)
  n_proof_threads : Z;          (* uint8_t *)
  done_iters : Z;
  threads : list thread;
}.

Record vdf_state : Type := mkvdf {
  cfg : config;
  inp : input;
  sto : store;
  queue : hw_queue;
  pol : pool;
  stopping : bool;
}.

Definition set_inp (i : input) (s : vdf_state) : vdf_state := mkvdf (cfg s) i (sto s) (queue s) (pol s) (stopping s).
Definition set_sto (t : store) (s : vdf_state) : vdf_state := mkvdf (cfg s) (inp s) t (queue s) (pol s) (stopping s).
Definition set_queue (q : hw_queue) (s : vdf_state) : vdf_state := mkvdf (cfg s) (inp s) (sto s) q (pol s) (stopping s).
Definition set_pol (p : pool) (s : vdf_state) : vdf_state := mkvdf (cfg s) (inp s) (sto s) (queue s) p (stopping s).

Definition HW_VDF_VALUE_INTERVAL : Z := 4000.
Definition g_skip_thres : Z := 10.
Definition g_values_mult : Z := 2 ^ 12.
Definition PARALLEL_PROVER_N_THREADS : Z := 2.
Definition HW_VDF_WQ_WARN_MULT : Z := 2.

(** ** The store *)

Definition report_bad_vdf_value (i : input) : input :=
  mkinput (iters_offset i) (cur_iters i) (last_val i) (u32 (n_bad i + 1)) (n_skipped i) (completed i).

(** 0, or -1 with the report. *)
Definition verify_vdf_value `{G : Gmp} (D : Z) (val : vdf_value) (i : input) : Z * input :=
  let a2 := v_b val * v_b val - D in
  if negb (a2 mod v_a val =? 0) || (mpz_scan1 a2 0 <? mpz_scan1 (v_a val) 0 + 2) then (-1, report_bad_vdf_value i) else (0, i).

Definition hw_proof_get_form (D : Z) (val : vdf_value) : res form := from_abd (v_a val) (v_b val) D.

(** The block of [pos], and the one after it, are there. *)
Definition hw_proof_value_at (pos : Z) (t : store) : store :=
  let idx := pos / g_values_mult in
  if n_blocks t <=? idx + 1 then mkstore (idx + 2) (values t) (valid_values t) (done_values t) else t.

Definition value_valid (valid : bytes) (pos : Z) : res bool :=
  match nth_error valid (Z.to_nat (pos / 8)) with
  | Some b => Ok (Z.testbit b (pos mod 8))
  | None => Throw undefined_behaviour
  end.
Definition set_valid (valid : bytes) (pos : Z) : res bytes :=
  match nth_error valid (Z.to_nat (pos / 8)) with
  | Some b => Ok (Prover.update valid (Z.to_nat (pos / 8)) (Z.lor b (Z.shiftl 1 (pos mod 8))))
  | None => Throw undefined_behaviour
  end.

(** [*hw_proof_value_at(vdf, pos) = f]. *)
Definition store_form (pos : Z) (f : form) (t : store) : store :=
  let t := hw_proof_value_at pos t in mkstore (n_blocks t) (set_at (values t) pos f) (valid_values t) (done_values t).

Definition hw_proof_add_intermediate (D : Z) (val : option vdf_value) (pos : Z) (t : store) : res store :=
  t <- (match val with Some v => f <- hw_proof_get_form D v ;; Ok (store_form pos f t) | None => Ok t end) ;;
  valid <- set_valid (valid_values t) pos ;;
  Ok (mkstore (n_blocks t) (values t) valid (u64 (done_values t + 1))).

(** The loop counts [pos] down. *)
Fixpoint last_good (n : nat) (valid : bytes) (pos : Z) : res Z :=
  ok <- value_valid valid pos ;;
  if ok : bool then Ok pos else match n with O => Throw undefined_behaviour | S n' => last_good n' valid (pos - 1) end.

(** The form and [out_pos]. *)
Definition hw_proof_last_good_form (s : vdf_state) : res (form * Z * vdf_state) :=
  let pos := cur_iters (inp s) / interval (cfg s) in
  pos <- last_good (Z.to_nat pos) (valid_values (sto s)) pos ;;
  let t := hw_proof_value_at pos (sto s) in
  Ok (values t pos, pos, set_sto t s).

Section WithGmp.
Context `{G : Gmp} `{R : FormReducer} `{Srt : StdSort}.

(** ** The auxiliary threads *)

(** [hw_proof_calc_values] up to its loop. [interval * n_steps] is a product of
    two [uint32_t]. *)
Definition calc_begin (C : config) (work : vdf_work) : res calc :=
  f <- from_abd (v_a (start_val work)) (v_b (start_val work)) (cD C) ;;
  let iters := v_iters (start_val work) in
  Ok (mkcalc f iters iters (start_iters work) (u64 (start_iters work + u32 (interval C * n_steps work)))).

(** A turn of the loop: [None] when the thread is done. *)
Definition calc_turn (C : config) (stopping : bool) (c : calc) (t : store) : res (option calc * Z * store) :=
  if stopping then Ok (None, c_iters c, t)
  else
    f <- nudupl_form (c_form c) (cD C) (cL C) ;;
    f <- reducer_reduce f ;;
    let iters := u64 (c_iters c + 1) in
    ' (next, t) <- (if iters =? c_next c then
        let pos := iters / interval C in
        require check_valid f (cD C) else aborted ;;
        t <- hw_proof_add_intermediate (cD C) None pos (store_form pos f t) ;;
        Ok (u64 (c_next c + interval C), t)
      else Ok (c_next c, t)) ;;
    if iters <? c_end c then Ok (Some (mkcalc f iters (c_init c) next (c_end c)), iters, t) else Ok (None, iters, t).

(** The [k]-th of [threads] runs on. *)
Definition set_threads (l : list thread) (p : pool) : pool := mkpool (wq p) (wq_warn_thres p) (aux_threads_busy p) (n_proof_threads p) (done_iters p) l.
Definition clear_busy (p : pool) (i : Z) : Z := Z.land (aux_threads_busy p) (Z.lxor (Z.ones 64) (Z.shiftl 1 i)).
Fixpoint remove_nth {A} (k : nat) (l : list A) : list A :=
  match k, l with
  | _, [] => []
  | O, _ :: l => l
  | S k, x :: l => x :: remove_nth k l
  end.

Definition values_turn (k : nat) (s : vdf_state) : res vdf_state :=
  match nth_error (threads (pol s)) k with
  | Some (mkthread i (Values work)) =>
      c <- calc_begin (cfg s) work ;;
      Ok (set_pol (set_threads (Prover.update (threads (pol s)) k (mkthread i (Calculating c))) (pol s)) s)
  | Some (mkthread i (Calculating c)) =>
      ' (c', iters, t) <- calc_turn (cfg s) (stopping s) c (sto s) ;;
      let p := pol s in
      match c' with
      | Some c' => Ok (set_pol (set_threads (Prover.update (threads p) k (mkthread i (Calculating c'))) p) (set_sto t s))
      | None =>
          Ok (set_pol (mkpool (wq p) (wq_warn_thres p) (clear_busy p i) (n_proof_threads p) (u64 (done_iters p + u64 (iters - c_init c))) (remove_nth k (threads p)))
                (set_sto t s))
      end
  | _ => Ok s
  end.

(** ** The work *)

Definition hw_proof_add_work (next_iters n : Z) (s : vdf_state) : vdf_state :=
  let p := pol s in
  set_pol (mkpool (wq p ++ [mkwork (last_val (inp s)) next_iters n]) (wq_warn_thres p) (aux_threads_busy p) (n_proof_threads p) (done_iters p) (threads p)) s.

(** [1UL << i] *)
Definition bit (i : Z) : res Z := if i <? 64 then Ok (Z.shiftl 1 i) else Throw undefined_behaviour.

(** The second loop of [hw_proof_process_work], from [i] on. *)
Fixpoint start_proofs (n : nat) (i busy : Z) (s : vdf_state) : res vdf_state :=
  match n with
  | O => Ok s
  | S n' =>
      match queued_proofs (queue s) with
      | [] => Ok s
      | idx :: _ =>
          p <- get (proofs (queue s)) idx ;;
          if (v_iters (last_val (inp s)) <? p_iters p) || (max_proof_threads (cfg s) <=? n_proof_threads (pol s)) then Ok s
          else
            b <- bit i ;;
            if Z.land busy b =? 0 then
              ' (idx, q) <- start_first (queue s) ;;
              let l := pol s in
              start_proofs n' (i + 1) busy
                (set_pol (mkpool (wq l) (wq_warn_thres l) (Z.lor (aux_threads_busy l) b) (u8 (n_proof_threads l + PARALLEL_PROVER_N_THREADS)) (done_iters l)
                            (threads l ++ [mkthread i (Proving idx)])) (set_queue q s))
            else start_proofs n' (i + 1) busy s
      end
  end.

(** The third loop. *)
Fixpoint start_values (n : nat) (i busy : Z) (l : pool) : res pool :=
  match n with
  | O => Ok l
  | S n' =>
      b <- bit i ;;
      if Z.land busy b =? 0 then
        match wq l with
        | [] => Ok l
        | work :: wq =>
            start_values n' (i + 1) busy
              (mkpool wq (wq_warn_thres l) (Z.lor (aux_threads_busy l) b) (n_proof_threads l) (done_iters l) (threads l ++ [mkthread i (Values work)]))
        end
      else start_values n' (i + 1) busy l
  end.

Definition warn_thres (l : pool) : pool :=
  let qlen := u32 (Z.of_nat (length (wq l))) in
  let '(t0, t1) := wq_warn_thres l in
  let thres :=
    if t1 <=? qlen then (u32 (t0 * HW_VDF_WQ_WARN_MULT), u32 (t1 * HW_VDF_WQ_WARN_MULT))
    else if negb (t0 =? 1) && (qlen <? t0) then (t0 / HW_VDF_WQ_WARN_MULT, t1 / HW_VDF_WQ_WARN_MULT)
    else (t0, t1) in
  mkpool (wq l) thres (aux_threads_busy l) (n_proof_threads l) (done_iters l) (threads l).

Definition hw_proof_process_work (fuel : nat) (s : vdf_state) : res vdf_state :=
  let busy := aux_threads_busy (pol s) in
  q <- process_reqs fuel (interval (cfg s)) (queue s) ;;
  let n := Z.to_nat (max_aux_threads (cfg s)) in
  s <- start_proofs n 0 busy (set_queue q s) ;;
  l <- start_values n 0 (aux_threads_busy (pol s)) (pol s) ;;
  Ok (set_pol (warn_thres l) s).

(** ** A value *)

Definition hw_proof_handle_value (fuel : nat) (val : vdf_value) (s : vdf_state) : res vdf_state :=
  let C := cfg s in
  let last_iters := v_iters (last_val (inp s)) in
  let start_iters := u64 (last_iters / interval C * interval C + interval C) in
  let end_iters := v_iters val / interval C * interval C in
  ' (end_iters, t) <- (if v_iters val =? end_iters then
      t <- hw_proof_add_intermediate (cD C) (Some val) (v_iters val / interval C) (sto s) ;;
      Ok (if negb (end_iters =? 0) then end_iters - interval C else end_iters, t)
    else Ok (end_iters, sto s)) ;;
  let s := set_sto t s in
  s <- (if negb (end_iters =? 0) && (start_iters <=? end_iters) then
      require negb (target_iters C <? start_iters) else aborted ;;
      Ok (hw_proof_add_work start_iters (u32 ((end_iters - start_iters) / interval C)) s)
    else Ok s) ;;
  let i := inp s in
  let s := set_inp (mkinput (iters_offset i) (v_iters val) val (n_bad i) (n_skipped i) (completed i || (target_iters C <=? v_iters val))) s in
  hw_proof_process_work fuel s.

Definition hw_proof_add_value (fuel : nat) (val : vdf_value) (s : vdf_state) : res (Z * vdf_state) :=
  let i := inp s in
  let val := mkvalue (u64 (v_iters val + iters_offset i)) (v_a val) (v_b val) in
  if (v_iters val =? iters_offset i) || (v_iters val =? v_iters (last_val i)) then
    let skipped := u32 (n_skipped i + 1) in
    let over := g_skip_thres <? skipped in
    Ok (if over then -1 else 1, set_inp (mkinput (iters_offset i) (cur_iters i) (last_val i) (n_bad i) (if over then 0 else skipped) (completed i)) s)
  else
    let i := mkinput (iters_offset i) (cur_iters i) (last_val i) (n_bad i) 0 (completed i) in
    if Z.sgn (v_a val) =? 0 then Ok (-1, set_inp (report_bad_vdf_value i) s)
    else
      let val := mkvalue (v_iters val) (v_a val) (v_b val mod Z.abs (2 * v_a val)) in
      let '(ret, i) := verify_vdf_value (cD (cfg s)) val i in
      let s := set_inp i s in
      if negb (ret =? 0) then Ok (-1, s)
      else s <- hw_proof_handle_value fuel val s ;; Ok (0, s).
End WithGmp.

(** ** The check of a value *)

Section Scan.
Context `{GL : GmpLaws}.
Abbreviation low_bit x := (mpz_scan1 x 0).

Lemma scan1_spec x : x <> 0 -> 0 <= low_bit x /\ exists m, x = 2 ^ low_bit x * (2 * m + 1).
Proof.
  intros Hx. destruct (mpz_scan1_spec x 0 Hx ltac:(lia)) as (H0 & H1 & H2).
  { destruct (Z.lt_ge_cases x 0) as [Hn|Hp].
    - exists (Z.log2 (Z.pred (- x)) + 1). pose proof (Z.log2_nonneg (Z.pred (- x))). split; [lia|]. apply Z.bits_above_log2_neg; lia.
    - exists (Z.log2 x). split; [apply Z.log2_nonneg|]. apply Z.bit_log2. lia. }
  set (s := low_bit x) in *. split; [exact H0|]. pose proof (Z.pow_pos_nonneg 2 s ltac:(lia) H0) as P.
  assert (Hm : x mod 2 ^ s = 0).
  { apply Z.bits_inj'. intros i Hi. rewrite Z.bits_0. destruct (Z.lt_ge_cases i s); [rewrite Z.mod_pow2_bits_low by lia; apply H2; lia|now rewrite Z.mod_pow2_bits_high by lia]. }
  assert (Ho : Z.odd (x / 2 ^ s) = true) by (rewrite <- Z.shiftr_div_pow2, <- Z.testbit_odd by lia; exact H1).
  apply Z.odd_spec in Ho as [m Em]. exists m. rewrite <- Em. pose proof (Z.div_mod x (2 ^ s) ltac:(lia)). lia.
Qed.

Lemma scan1_divide a x : a <> 0 -> x <> 0 -> (a | x) -> low_bit a + 2 <= low_bit x <-> (4 * a | x).
Proof.
  intros Ha Hx Hd. destruct (scan1_spec a Ha) as (Hi & m & Ea). destruct (scan1_spec x Hx) as (Hj & n & Ex). set (i := low_bit a) in *. set (j := low_bit x) in *.
  pose proof (Z.pow_pos_nonneg 2 i ltac:(lia) Hi) as P. split.
  - intros H. destruct Hd as [q Eq]. assert (E : 4 * (2 ^ (j - i - 2) * (2 * n + 1)) = (2 * m + 1) * q).
    { apply (Z.mul_reg_l _ _ (2 ^ i) ltac:(lia)). replace (2 ^ i * (4 * (2 ^ (j - i - 2) * (2 * n + 1)))) with (2 ^ i * 2 ^ 2 * 2 ^ (j - i - 2) * (2 * n + 1)) by ring.
      rewrite <- !Z.pow_add_r by lia. replace (i + 2 + (j - i - 2)) with j by lia. rewrite <- Ex, Eq, Ea at 1. ring. }
    assert (H4 : (4 | q)).
    { exists ((2 * m + 1) * (2 ^ (j - i - 2) * (2 * n + 1)) - (m * m + m) * q). nia. }
    destruct H4 as [r ->]. exists r. lia.
  - intros [q Eq]. destruct (Z.le_gt_cases (i + 2) j); [assumption|exfalso]. assert (E : 2 * n + 1 = 2 ^ (i + 2 - j) * ((2 * m + 1) * q)).
    { apply (Z.mul_reg_l _ _ (2 ^ j)); [apply Z.pow_nonzero; lia|]. rewrite Z.mul_assoc, <- Z.pow_add_r by lia. replace (j + (i + 2 - j)) with (i + 2) by lia. rewrite <- Ex, Eq, Ea at 1. rewrite Z.pow_add_r by lia. ring. }
    replace (i + 2 - j) with (1 + (i + 1 - j)) in E by lia. rewrite Z.pow_add_r in E by lia. change (2 ^ 1) with 2 in E. rewrite <- Z.mul_assoc in E. lia.
Qed.

(** A value passes if its coefficients are those of a form of discriminant D. *)
Lemma verify_ok D val i : D < 0 -> v_a val <> 0 -> fst (verify_vdf_value D val i) = 0 <-> (4 * v_a val | v_b val * v_b val - D).
Proof.
  intros HD Ha. unfold verify_vdf_value. set (x := v_b val * v_b val - D). assert (Hx : x <> 0) by (subst x; nia).
  destruct (Z.eqb_spec (x mod v_a val) 0) as [E|E]; cbn [negb orb].
  - apply Z.mod_divide in E; [|exact Ha]. rewrite <- (scan1_divide _ _ Ha Hx E). destruct (Z.ltb_spec (low_bit x) (low_bit (v_a val) + 2)); cbn [fst]; lia.
  - cbn [fst]. split; [lia|]. intros [q Eq]. elim E. apply Z.mod_divide; [exact Ha|]. exists (4 * q). lia.
Qed.
End Scan.

(** ** The bits *)

Lemma set_valid_ok valid pos : 0 <= pos -> pos / 8 < Z.of_nat (length valid) -> bytes_ok valid ->
  exists valid', set_valid valid pos = Ok valid' /\ length valid' = length valid /\ bytes_ok valid' /\
    forall p, 0 <= p -> value_valid valid' p = if p =? pos then Ok true else value_valid valid p.
Proof.
  intros H0 Hl Hb. pose proof (Z.mod_pos_bound pos 8 ltac:(lia)) as Hm. pose proof (Z.div_pos pos 8 H0 ltac:(lia)) as Hd.
  unfold set_valid. destruct (nth_error valid (Z.to_nat (pos / 8))) as [b|] eqn:E; [|apply nth_error_None in E; lia].
  assert (Bb : is_byte b) by (unfold bytes_ok in Hb; rewrite Forall_forall in Hb; exact (Hb b (nth_error_In _ _ E))).
  eexists. split; [reflexivity|]. split; [apply Prover.length_update|]. split.
  - apply Forall_forall. intros x Hx. apply In_nth_error in Hx as [n Hn]. rewrite nth_error_update_nat in Hn by lia. unfold bytes_ok in Hb. rewrite Forall_forall in Hb.
    destruct (Nat.eqb n (Z.to_nat (pos / 8))); [|exact (Hb x (nth_error_In _ _ Hn))]. injection Hn as <-. unfold is_byte in *. split; [apply Z.lor_nonneg; split; [lia|apply Z.shiftl_nonneg; lia]|].
    rewrite Z.shiftl_1_l. destruct (Z.eq_dec (Z.lor b (2 ^ (pos mod 8))) 0) as [->|Hn0]; [lia|]. apply (Z.log2_lt_pow2 _ 8); [pose proof (Z.lor_nonneg b (2 ^ (pos mod 8))); pose proof (Z.pow_nonneg 2 (pos mod 8)); lia|].
    rewrite Z.log2_lor by (try lia; apply Z.pow_nonneg; lia). rewrite Z.log2_pow2 by lia. apply Z.max_lub_lt; [|lia]. destruct (Z.eq_dec b 0) as [->|]; [cbn; lia|]. apply Z.log2_lt_pow2; lia.
  - intros p Hp. unfold value_valid. pose proof (Z.div_pos p 8 Hp ltac:(lia)). pose proof (Z.mod_pos_bound p 8 ltac:(lia)). rewrite nth_error_update_nat by lia.
    destruct (Nat.eqb_spec (Z.to_nat (p / 8)) (Z.to_nat (pos / 8))) as [Eq|Eq].
    + assert (Ed : p / 8 = pos / 8) by lia. rewrite Ed, E, Z.lor_spec, Z.shiftl_1_l, Z.pow2_bits_eqb by lia. pose proof (Z.div_mod p 8 ltac:(lia)). pose proof (Z.div_mod pos 8 ltac:(lia)).
      destruct (Z.eqb_spec p pos) as [->|Hn]; [now rewrite Z.eqb_refl, Bool.orb_true_r|]. destruct (Z.eqb_spec (pos mod 8) (p mod 8)); [lia|]. now rewrite Bool.orb_false_r.
    + destruct (Z.eqb_spec p pos) as [->|]; [now elim Eq|reflexivity].
Qed.

Lemma value_valid_total valid pos : 0 <= pos -> pos / 8 < Z.of_nat (length valid) -> exists b, value_valid valid pos = Ok b.
Proof.
  intros H0 Hl. pose proof (Z.div_pos pos 8 H0 ltac:(lia)). unfold value_valid. destruct (nth_error valid (Z.to_nat (pos / 8))) eqn:E; [eauto|]. apply nth_error_None in E. lia.
Qed.

(** ** The invariant *)

Section Invariant.
Context `{GL : GmpLaws} `{RL : FormReducerLaws} `{SrtL : StdSortLaws}.
Variable C : config.
Abbreviation D := (cD C).
Abbreviation I := (interval C).

Record config_ok : Prop := {
  cf_disc : good_disc D;
  cf_L : 0 <= cL C;
  cf_interval : 0 < I <= 100000;
  cf_target : 0 < target_iters C < 2 ^ 32;
  cf_multiple : (I | target_iters C);
  cf_aux : 0 <= max_aux_threads C <= 64;
  cf_proof : 0 <= max_proof_threads C < 64;
}.
Hypothesis HC : config_ok.

Variable x0 : form.
Hypothesis Cx0 : class D x0.

(** What is known of the stored forms beyond their class. *)
Variable good : form -> Prop.
Hypothesis good_reduced : forall f, reduced f -> good f.
Hypothesis good_reducer : forall f g, class D f -> reducer_reduce f = Ok g -> good g.

(** The form after [n] iterations. *)
Definition right (n : Z) (f : form) : Prop := pw D x0 (2 ^ n) f.

Definition value_right (v : vdf_value) : Prop :=
  0 <= v_iters v <= target_iters C /\ exists f, right (v_iters v) f /\ fa f = v_a v /\ fb f = v_b v.

(** A work item leads from a known form over a range of whole intervals. *)
Definition work_right (w : vdf_work) : Prop :=
  value_right (start_val w) /\ v_iters (start_val w) < start_iters w /\ (I | start_iters w) /\ 0 <= n_steps w /\ start_iters w + I * n_steps w <= target_iters C.
Definition calc_right (c : calc) : Prop :=
  right (c_iters c) (c_form c) /\ 0 <= c_init c <= c_iters c /\ c_iters c < c_next c <= c_end c /\ (I | c_next c) /\ (I | c_end c) /\ c_end c <= target_iters C.

Definition max_pos : Z := target_iters C / I.
Definition stored (t : store) (pos : Z) : Prop := value_valid (valid_values t) pos = Ok true.

Record sto_ok (t : store) : Prop := {
  v_length : Z.of_nat (length (valid_values t)) = (max_pos + 1 + 7) / 8;
  v_bytes : bytes_ok (valid_values t);
  v_right : forall pos, 0 <= pos <= max_pos -> stored t pos -> right (pos * I) (values t pos) /\ good (values t pos);
}.

Definition covers_work (w : vdf_work) (pos : Z) : Prop := start_iters w <= pos * I <= start_iters w + I * n_steps w.
Definition covers_task (k : task) (pos : Z) : Prop :=
  match k with
  | Values w => covers_work w pos
  | Calculating c => c_next c <= pos * I <= c_end c
  | Proving _ => False
  end.

(** The form at [pos] is stored, or a thread will store it, or a work item that waits. *)
Definition covered (t : store) (p : pool) (pos : Z) : Prop :=
  stored t pos \/ (exists w, In w (wq p) /\ covers_work w pos) \/ (exists th, In th (threads p) /\ covers_task (t_task th) pos).

Definition task_right (k : task) : Prop :=
  match k with Values w => work_right w | Calculating c => calc_right c | Proving _ => True end.
Definition provings (l : list thread) : list Z := flat_map (fun th => match t_task th with Proving i => [i] | _ => [] end) l.

Record pool_ok (p : pool) : Prop := {
  p_work : Forall work_right (wq p);
  p_tasks : Forall (fun th => task_right (t_task th)) (threads p);
  p_nodup : NoDup (map t_idx (threads p));
  p_range : Forall (fun th => 0 <= t_idx th < max_aux_threads C) (threads p);
  p_busy : 0 <= aux_threads_busy p < 2 ^ 64;
  p_bits : forall i, 0 <= i < 64 -> Z.testbit (aux_threads_busy p) i = true <-> In i (map t_idx (threads p));
  p_count : n_proof_threads p = 2 * Z.of_nat (length (provings (threads p)));
}.

(** Every proof that has started and is not done has its thread. *)
Record proving_ok (q : hw_queue) (t : store) (p : pool) : Prop := {
  g_nodup : NoDup (provings (threads p));
  g_in : forall idx, In idx (provings (threads p)) <-> exists e, at_ (proofs q) idx e /\ live e /\ is_started e = true /\ is_done e = false;
  g_covered : forall idx e pos, In idx (provings (threads p)) -> at_ (proofs q) idx e -> 0 <= pos -> pos * I <= p_iters e -> covered t p pos;
  g_target : forall idx e, In idx (provings (threads p)) -> at_ (proofs q) idx e -> p_iters e <= target_iters C;
  g_done : forall idx e, at_ (proofs q) idx e -> live e -> is_done e = true -> is_started e = true;
}.

Record state_ok (N : Z) (s : vdf_state) : Prop := {
  k_cfg : cfg s = C;
  k_running : stopping s = false;
  k_last : value_right (last_val (inp s));
  k_cur : cur_iters (inp s) = v_iters (last_val (inp s));
  k_sto : sto_ok (sto s);
  k_first : stored (sto s) 0;
  k_pool : pool_ok (pol s);
  k_covered : forall pos, 0 <= pos -> pos * I <= v_iters (last_val (inp s)) -> covered (sto s) (pol s) pos;
  k_queue : hw_queue_ok I N (queue s);
  k_proving : proving_ok (queue s) (sto s) (pol s);
}.

Lemma I_pos : 0 < I.
Proof. apply (cf_interval HC). Qed.

Lemma pos_range pos : 0 <= pos -> pos * I <= target_iters C -> 0 <= pos <= max_pos.
Proof. intros H0 H. split; [exact H0|]. apply Z.div_le_lower_bound; [exact I_pos|lia]. Qed.

Lemma pos_byte t pos : sto_ok t -> 0 <= pos <= max_pos -> pos / 8 < Z.of_nat (length (valid_values t)).
Proof. intros T H. rewrite (v_length _ T). pose proof (Z.div_mod (max_pos + 1 + 7) 8 ltac:(lia)). pose proof (Z.mod_pos_bound (max_pos + 1 + 7) 8 ltac:(lia)). pose proof (Z.div_mod pos 8 ltac:(lia)). pose proof (Z.mod_pos_bound pos 8 ltac:(lia)). lia. Qed.

Lemma multiple_next d a b : 0 < d -> (d | a) -> (d | b) -> a < b -> a + d <= b.
Proof. intros Hd [k ->] [m ->] H. assert (k < m) by nia. nia. Qed.

(** *** The store *)

Lemma value_at_eq pos t : values (hw_proof_value_at pos t) = values t /\ valid_values (hw_proof_value_at pos t) = valid_values t.
Proof. unfold hw_proof_value_at. now destruct (n_blocks t <=? pos / g_values_mult + 1). Qed.

Lemma add_none_ok t pos f : sto_ok t -> 0 <= pos <= max_pos -> right (pos * I) f -> good f ->
  exists t', hw_proof_add_intermediate D None pos (store_form pos f t) = Ok t' /\ sto_ok t' /\ stored t' pos /\ (forall p, 0 <= p -> stored t p -> stored t' p).
Proof.
  intros T Hp Hr Hg. destruct (value_at_eq pos t) as [E1 E2]. unfold hw_proof_add_intermediate, store_form. cbn [bind valid_values]. rewrite E1, E2.
  destruct (set_valid_ok (valid_values t) pos (proj1 Hp) (pos_byte t pos T Hp) (v_bytes _ T)) as (v & -> & L & B & V). cbn [bind n_blocks values done_values].
  eexists. split; [reflexivity|]. split; [|split].
  - split; cbn [valid_values values]; [rewrite L; apply T|exact B|]. intros p Hpp Hs. unfold stored in Hs. cbn [valid_values] in Hs. rewrite V in Hs by lia. unfold set_at. destruct (Z.eqb_spec p pos) as [->|Hn]; [now split|]. now apply (v_right _ T).
  - unfold stored. cbn [valid_values]. rewrite V by lia. now rewrite Z.eqb_refl.
  - intros p H0 Hs. unfold stored in *. cbn [valid_values]. rewrite V by lia. now destruct (p =? pos).
Qed.

Lemma value_form v : value_right v -> exists g, hw_proof_get_form D v = Ok g /\ right (v_iters v) g /\ reduced g.
Proof.
  intros [Hr (f & Pf & Ea & Eb)]. pose proof (pw_class D x0 Cx0 _ _ Pf) as Cf. destruct (Prover.from_abd_class D f Cf) as (g & E & Q). rewrite Ea, Eb in E. unfold hw_proof_get_form. rewrite E. exists g. split; [reflexivity|].
  split; [exact (pw_equiv D x0 _ _ _ Pf Q)|]. pose proof (from_abd_ok (v_a v) (v_b v) D (valid_neg _ _ (class_valid _ _ Cf))) as H. rewrite E in H. apply H.
Qed.

Lemma add_some_ok t v pos : sto_ok t -> value_right v -> v_iters v = pos * I ->
  exists t', hw_proof_add_intermediate D (Some v) pos t = Ok t' /\ sto_ok t' /\ stored t' pos /\ (forall p, 0 <= p -> stored t p -> stored t' p).
Proof.
  intros T V E. destruct (value_form v V) as (g & Eg & Pg & Rg). destruct V as [Hr _]. assert (Hp : 0 <= pos <= max_pos) by (apply pos_range; [pose proof I_pos; nia|lia]).
  destruct (add_none_ok t pos g T Hp ltac:(now rewrite <- E) (good_reduced g Rg)) as (t' & E' & H). exists t'. split; [|exact H]. unfold hw_proof_add_intermediate in *. rewrite Eg. exact E'.
Qed.

(** *** The threads that compute values *)

Lemma calc_begin_ok w : work_right w -> exists c, calc_begin C w = Ok c /\ calc_right c /\ c_next c = start_iters w /\ c_end c = start_iters w + I * n_steps w.
Proof.
  intros (V & H1 & H2 & H3 & H4). destruct (value_form _ V) as (g & Eg & Pg & Rg). unfold calc_begin. unfold hw_proof_get_form in Eg. rewrite Eg. cbn [bind]. pose proof I_pos. pose proof (cf_target HC). destruct V as [Hr _].
  assert (E : u64 (start_iters w + u32 (I * n_steps w)) = start_iters w + I * n_steps w) by (unfold uwrap; rewrite (Z.mod_small (I * n_steps w)) by nia; apply Z.mod_small; nia).
  rewrite E. eexists. split; [reflexivity|]. unfold calc_right. cbn [c_form c_iters c_init c_next c_end]. split; [|now split]. split; [exact Pg|]. split; [lia|]. split; [nia|]. split; [exact H2|]. split; [|exact H4].
  apply Z.divide_add_r; [exact H2|apply Z.divide_factor_l].
Qed.

Lemma calc_turn_ok c t : calc_right c -> sto_ok t -> exists c' iters t', calc_turn C false c t = Ok (c', iters, t') /\ sto_ok t' /\ (forall p, 0 <= p -> stored t p -> stored t' p) /\
  c_init c <= iters <= target_iters C /\
  match c' with
  | Some c' => calc_right c' /\ forall pos, 0 <= pos -> covers_task (Calculating c) pos -> covers_task (Calculating c') pos \/ stored t' pos
  | None => forall pos, 0 <= pos -> covers_task (Calculating c) pos -> stored t' pos
  end.
Proof.
  intros (P & Hi & Hn & D1 & D2 & He) T. unfold calc_turn. destruct (pw_nudupl D (cL C) (cf_L HC) x0 Cx0 _ _ P) as (f1 & -> & P1). cbn [bind].
  destruct (pw_reduce D x0 Cx0 _ f1 P1) as (f & Ef & Pf). rewrite Ef. cbn [bind]. pose proof (good_reducer _ _ (pw_class D x0 Cx0 _ _ P1) Ef) as Gf. pose proof (cf_target HC). pose proof (cf_interval HC) as HI.
  rewrite (u64_id (c_iters c + 1)) by lia. assert (Pf' : right (c_iters c + 1) f) by (unfold right; rewrite Z.pow_add_r by lia; now rewrite (Z.mul_comm _ (2 ^ 1))).
  destruct (Z.eqb_spec (c_iters c + 1) (c_next c)) as [En|En].
  - set (pos := (c_iters c + 1) / I). assert (Epos : c_iters c + 1 = pos * I) by (destruct D1 as [k Ek]; unfold pos; rewrite En, Ek, Z.div_mul by lia; lia).
    assert (Hv : check_valid f D = true) by (pose proof (valid_disc _ _ (class_valid _ _ (pw_class D x0 Cx0 _ _ Pf))) as E; unfold check_valid; apply Z.eqb_eq; exact E). rewrite Hv.
    assert (Hp0 : 0 <= pos) by (apply Z.div_pos; lia). destruct (add_none_ok t pos f T ltac:(apply pos_range; lia) ltac:(now rewrite <- Epos) Gf) as (t' & -> & T' & S' & M'). cbn [bind]. rewrite (u64_id (c_next c + I)) by lia.
    destruct (Z.ltb_spec (c_iters c + 1) (c_end c)) as [Hl|Hl].
    + do 3 eexists. split; [reflexivity|]. split; [exact T'|]. split; [exact M'|]. split; [lia|]. split.
      * unfold calc_right. cbn [c_form c_iters c_init c_next c_end]. split; [exact Pf'|]. split; [lia|]. split; [|split; [apply Z.divide_add_r; [exact D1|apply Z.divide_refl]|now split]].
        split; [lia|]. apply (multiple_next I (c_next c) (c_end c)); [lia|exact D1|exact D2|lia].
      * intros p H0 Hc. cbn [covers_task c_next c_end] in *. destruct (Z.eq_dec p pos) as [->|Hne]; [now right|left]. split; [|lia].
        apply (multiple_next I (c_next c) (p * I)); [lia|exact D1|apply Z.divide_factor_r|nia].
    + do 3 eexists. split; [reflexivity|]. split; [exact T'|]. split; [exact M'|]. split; [lia|]. intros p H0 Hc. cbn [covers_task] in Hc. replace p with pos by nia. exact S'.
  - cbn [bind]. destruct (Z.ltb_spec (c_iters c + 1) (c_end c)) as [Hl|Hl]; [|lia]. do 3 eexists. split; [reflexivity|]. split; [exact T|]. split; [easy|]. split; [lia|]. split.
    + unfold calc_right. cbn [c_form c_iters c_init c_next c_end]. split; [exact Pf'|]. split; [lia|]. split; [lia|]. now repeat split.
    + intros p H0 Hc. now left.
Qed.

(** *** The threads *)

Lemma split_nth {A} (l : list A) k a b : nth_error l k = Some a ->
  exists l1 l2, l = l1 ++ a :: l2 /\ Prover.update l k b = l1 ++ b :: l2 /\ remove_nth k l = l1 ++ l2.
Proof.
  revert k. induction l as [|x l IH]; intros [|k] H; try discriminate; cbn [nth_error] in H.
  - injection H as ->. now exists [], l.
  - destruct (IH k H) as (l1 & l2 & -> & E1 & E2). exists (x :: l1), l2. cbn [Prover.update remove_nth app]. now rewrite E1, E2.
Qed.

Lemma provings_app l1 l2 : provings (l1 ++ l2) = provings l1 ++ provings l2.
Proof. apply flat_map_app. Qed.

Lemma busy_clear p i j : 0 <= i < 64 -> 0 <= j < 64 -> Z.testbit (clear_busy p i) j = Z.testbit (aux_threads_busy p) j && negb (j =? i).
Proof.
  intros Hi Hj. unfold clear_busy. rewrite Z.land_spec, Z.lxor_spec, Z.testbit_ones_nonneg by lia. rewrite Z.shiftl_1_l, Z.pow2_bits_eqb by lia.
  destruct (Z.ltb_spec j 64); [|lia]. now rewrite (Z.eqb_sym i j).
Qed.

(** A number below [2^n] has no bits from [n] on. *)
Lemma range_bits n x : 0 <= n -> 0 <= x -> (forall j, n <= j -> Z.testbit x j = false) -> 0 <= x < 2 ^ n.
Proof.
  intros Hn Hx H. split; [exact Hx|]. destruct (Z.eq_dec x 0) as [->|Hne]; [apply Z.pow_pos_nonneg; lia|]. apply Z.log2_lt_pow2; [lia|].
  destruct (Z.lt_ge_cases (Z.log2 x) n) as [|Hge]; [assumption|]. pose proof (H _ Hge) as E. rewrite Z.bit_log2 in E by lia. discriminate.
Qed.

Lemma bits_range n x j : 0 <= x < 2 ^ n -> n <= j -> Z.testbit x j = false.
Proof.
  intros Hx Hj. destruct (Z.eq_dec x 0) as [->|Hne]; [apply Z.testbit_0_l|]. destruct (Z.lt_ge_cases n 0) as [Hn|Hn]; [rewrite Z.pow_neg_r in Hx by exact Hn; lia|].
  apply Z.bits_above_log2; [lia|]. apply Z.lt_le_trans with n; [apply Z.log2_lt_pow2; lia|exact Hj].
Qed.

Lemma busy_clear_range p i : 0 <= aux_threads_busy p < 2 ^ 64 -> 0 <= clear_busy p i < 2 ^ 64.
Proof.
  intros H. unfold clear_busy. apply range_bits; [lia|apply Z.land_nonneg; left; lia|]. intros j Hj. now rewrite Z.land_spec, (bits_range 64 _ j H Hj).
Qed.

Lemma pool_replace p l1 th th' l2 : pool_ok p -> threads p = l1 ++ th :: l2 -> t_idx th' = t_idx th -> task_right (t_task th') -> provings [th'] = provings [th] ->
  pool_ok (set_threads (l1 ++ th' :: l2) p).
Proof.
  intros [P1 P2 P3 P4 P5 P6 P7] E Ei Ht Ep. rewrite E in *. unfold set_threads.
  assert (Em : map t_idx (l1 ++ th' :: l2) = map t_idx (l1 ++ th :: l2)) by (rewrite !map_app; cbn [map]; now rewrite Ei).
  assert (Epr : provings (l1 ++ th' :: l2) = provings (l1 ++ th :: l2)).
  { rewrite !provings_app. f_equal. change (th' :: l2) with ([th'] ++ l2). change (th :: l2) with ([th] ++ l2). now rewrite !provings_app, Ep. }
  split; cbn [wq threads aux_threads_busy n_proof_threads]; try assumption.
  - apply Forall_app in P2 as [P2 P2']. apply Forall_app. split; [exact P2|]. inversion P2'; subst. now constructor.
  - now rewrite Em.
  - apply Forall_app in P4 as [P4 P4']. apply Forall_app. split; [exact P4|]. inversion P4'; subst. constructor; [now rewrite Ei|assumption].
  - intros i Hi. rewrite Em. now apply P6.
  - now rewrite Epr.
Qed.

Lemma pool_remove p l1 th l2 w d n : pool_ok p -> threads p = l1 ++ th :: l2 -> n = n_proof_threads p - 2 * Z.of_nat (length (provings [th])) ->
  pool_ok (mkpool (wq p) w (clear_busy p (t_idx th)) n d (l1 ++ l2)).
Proof.
  intros [P1 P2 P3 P4 P5 P6 P7] E En. rewrite E in *. rewrite map_app in P3. cbn [map] in P3. apply Forall_app in P2 as [P2 P2'], P4 as [P4 P4']. inversion P2'; inversion P4'; subst.
  split; cbn [wq threads aux_threads_busy n_proof_threads]; try assumption.
  - apply Forall_app. now split.
  - rewrite map_app. exact (NoDup_remove_1 _ _ _ P3).
  - apply Forall_app. now split.
  - now apply busy_clear_range.
  - intros i Hi. pose proof (cf_aux HC) as Hau. rewrite busy_clear by (assumption || lia). rewrite Bool.andb_true_iff, P6 by exact Hi. rewrite !map_app. cbn [map]. rewrite !in_app_iff. cbn [In]. destruct (Z.eqb_spec i (t_idx th)) as [->|Hn]; cbn [negb].
    + apply NoDup_remove_2 in P3. rewrite in_app_iff in P3. split; [intros [_ Hf]; discriminate|tauto].
    + intuition congruence.
  - rewrite P7, !provings_app. change (th :: l2) with ([th] ++ l2). rewrite provings_app, !length_app. lia.
Qed.

(** What a step keeps of the cover. *)
Definition covers_more (t : store) (p : pool) (t' : store) (p' : pool) : Prop := forall pos, 0 <= pos -> covered t p pos -> covered t' p' pos.

Lemma covered_thread t p t' p' l1 th l2 l' : threads p = l1 ++ th :: l2 -> wq p' = wq p -> (forall q, 0 <= q -> stored t q -> stored t' q) ->
  (forall x, In x l1 \/ In x l2 -> In x (threads p')) -> l' = threads p' ->
  (forall q, 0 <= q -> covers_task (t_task th) q -> covered t' p' q) -> covers_more t p t' p'.
Proof.
  intros E Ew Hs Hin _ Hth pos H0 [Hc|[(w & Hw & Hc)|(x & Hx & Hc)]].
  - left. now apply Hs.
  - right. left. exists w. now rewrite Ew.
  - rewrite E in Hx. apply in_app_or in Hx as [Hx|[<-|Hx]]; [right; right; exists x; split; [apply Hin; now left|exact Hc]|now apply Hth|right; right; exists x; split; [apply Hin; now right|exact Hc]].
Qed.

Lemma proving_more q t p t' p' : proving_ok q t p -> covers_more t p t' p' -> provings (threads p') = provings (threads p) -> proving_ok q t' p'.
Proof. intros [G1 G2 G3 G4 G5] HM E. split; rewrite ?E; try assumption. intros idx e pos Hi He H0 Hp. now apply HM, (G3 idx e). Qed.

Lemma state_more N s t' p' : state_ok N s -> sto_ok t' -> pool_ok p' -> (forall q, 0 <= q -> stored (sto s) q -> stored t' q) -> covers_more (sto s) (pol s) t' p' ->
  provings (threads p') = provings (threads (pol s)) -> state_ok N (set_pol p' (set_sto t' s)).
Proof.
  intros [K1 K2 K3 K4 K5 K6 K7 K8 K9 K10] T P HS HM E. split; cbn [set_pol set_sto cfg stopping inp sto pol queue]; try assumption.
  - now apply HS.
  - intros pos H0 Hp. now apply HM, K8.
  - exact (proving_more _ _ _ _ _ K10 HM E).
Qed.

(** A turn of one of the threads. *)
Lemma values_turn_ok N k s : state_ok N s -> exists s', values_turn k s = Ok s' /\ state_ok N s'.
Proof.
  intros K. pose proof (k_cfg _ _ K) as Ec. pose proof (k_pool _ _ K) as P. pose proof (k_sto _ _ K) as T. unfold values_turn. destruct (nth_error (threads (pol s)) k) as [[i [w|c|idx]]|] eqn:E; try (now exists s).
  - destruct (split_nth _ _ _ (mkthread i (Values w)) E) as (l1 & l2 & El & _). assert (Hw : task_right (Values w)).
    { pose proof (p_tasks _ P) as H. rewrite El in H. apply Forall_app in H as [_ H]. now inversion H. }
    destruct (calc_begin_ok w Hw) as (c & Eb & Rc & En & Ee). rewrite Ec, Eb. cbn [bind]. eexists. split; [reflexivity|].
    destruct (split_nth _ _ _ (mkthread i (Calculating c)) E) as (m1 & m2 & Em & -> & _).
    replace (set_pol _ s) with (set_pol (set_threads (m1 ++ mkthread i (Calculating c) :: m2) (pol s)) (set_sto (sto s) s)) by (now destruct s).
    apply (state_more N s _ _ K T); [exact (pool_replace _ _ (mkthread i (Values w)) (mkthread i (Calculating c)) _ P Em eq_refl Rc eq_refl)|easy| |].
    + refine (covered_thread _ _ _ _ m1 (mkthread i (Values w)) m2 _ Em _ _ _ eq_refl _); [reflexivity|easy| |].
      * intros x Hx. cbn [set_threads threads]. apply in_or_app. destruct Hx; [now left|right; now right].
      * intros q H0 Hc. right. right. exists (mkthread i (Calculating c)). cbn [set_threads threads t_task covers_task] in *. split; [apply in_or_app; right; now left|]. rewrite En, Ee. exact Hc.
    + cbn [set_threads threads]. rewrite Em, !provings_app. reflexivity.
  - destruct (split_nth _ _ _ (mkthread i (Calculating c)) E) as (l1 & l2 & El & _ & Er). assert (Hc : task_right (Calculating c)).
    { pose proof (p_tasks _ P) as H. rewrite El in H. apply Forall_app in H as [_ H]. now inversion H. }
    destruct (calc_turn_ok c (sto s) Hc T) as (c' & it & t' & Et & T' & HS & _ & Hcov). rewrite Ec, (k_running _ _ K), Et. cbn [bind]. destruct c' as [c'|].
    + destruct Hcov as [Rc Hcov]. eexists. split; [reflexivity|]. destruct (split_nth _ _ _ (mkthread i (Calculating c')) E) as (m1 & m2 & Em & -> & _).
      apply (state_more N s _ _ K T'); [exact (pool_replace _ _ (mkthread i (Calculating c)) (mkthread i (Calculating c')) _ P Em eq_refl Rc eq_refl)|exact HS| |].
      * refine (covered_thread _ _ _ _ m1 (mkthread i (Calculating c)) m2 _ Em _ _ _ eq_refl _); [reflexivity|exact HS| |].
        -- intros x Hx. cbn [set_threads threads]. apply in_or_app. destruct Hx; [now left|right; now right].
        -- intros q H0 Hq. destruct (Hcov q H0 Hq) as [Hq'|Hq']; [|now left]. right. right. exists (mkthread i (Calculating c')). cbn [set_threads threads]. split; [apply in_or_app; right; now left|exact Hq'].
      * cbn [set_threads threads]. rewrite Em, !provings_app. reflexivity.
    + eexists. split; [reflexivity|]. rewrite Er. apply (state_more N s _ _ K T'); [|exact HS| |].
      * apply (pool_remove (pol s) l1 (mkthread i (Calculating c)) l2 (wq_warn_thres (pol s)) _ (n_proof_threads (pol s)) P El). cbn. lia.
      * refine (covered_thread _ _ _ _ l1 (mkthread i (Calculating c)) l2 _ El _ _ _ eq_refl _); [reflexivity|exact HS| |].
        -- intros x Hx. cbn [threads]. apply in_or_app. tauto.
        -- intros q H0 Hq. left. now apply Hcov.
      * cbn [threads]. rewrite El, !provings_app. reflexivity.
Qed.

(** *** The work of the main thread *)

Lemma shape_flags p p' : shape p' = shape p -> p_flags p' = p_flags p.
Proof. unfold shape, set_ref. congruence. Qed.

Lemma proving_step q q' t p : proving_ok q t p -> step_ok q q' -> proving_ok q' t p.
Proof.
  intros [G1 G2 G3 G4 G5] [S1 S2 _ _].
  assert (Hold : forall idx e', In idx (provings (threads p)) -> at_ (proofs q') idx e' -> exists e, at_ (proofs q) idx e /\ shape e' = shape e).
  { intros idx e' Hi He'. apply G2 in Hi as (e & He & L & S & Dn). destruct (S1 idx e He L S) as (e2 & He2 & Sh). exists e. split; [exact He|]. now rewrite (at_fun _ _ _ _ He' He2). }
  split; [exact G1| | | |].
  - intros idx. rewrite G2. split.
    + intros (e & He & L & S & Dn). destruct (S1 idx e He L S) as (e' & He' & Sh). exists e'. destruct (shape_facts _ _ Sh) as (_ & _ & _ & F4 & _ & F6). split; [exact He'|]. split; [now apply F4|]. split; [congruence|].
      unfold has in *. now rewrite (shape_flags _ _ Sh).
    + intros (e' & He' & L & S & Dn). destruct (S2 idx e' He' L) as [(e & He & Sh)|[Hn _]]; [|congruence]. exists e. destruct (shape_facts _ _ (eq_sym Sh)) as (_ & _ & _ & F4 & _ & F6). split; [exact He|]. split; [now apply F4|]. split; [congruence|].
      unfold has in *. now rewrite <- (shape_flags _ _ Sh).
  - intros idx e' pos Hi He' H0 Hp. destruct (Hold idx e' Hi He') as (e & He & Sh). destruct (shape_facts _ _ Sh) as (F1 & _). apply (G3 idx e); [exact Hi|exact He|exact H0|lia].
  - intros idx e' Hi He'. destruct (Hold idx e' Hi He') as (e & He & Sh). destruct (shape_facts _ _ Sh) as (-> & _). now apply (G4 idx).
  - intros idx e' He' L Dn. destruct (S2 idx e' He' L) as [(e & He & Sh)|[_ Hn]]; [|congruence]. destruct (shape_facts _ _ (eq_sym Sh)) as (_ & _ & _ & F4 & _ & F6). rewrite <- F6. apply (G5 idx e He (F4 L)).
    unfold has in *. now rewrite <- (shape_flags _ _ Sh).
Qed.

Lemma land_bit busy i : 0 <= i -> (Z.land busy (Z.shiftl 1 i) =? 0) = negb (Z.testbit busy i).
Proof.
  intros Hi. rewrite Z.shiftl_1_l. destruct (Z.testbit busy i) eqn:E; cbn [negb].
  - apply Z.eqb_neq. intros H. assert (Hb : Z.testbit (Z.land busy (2 ^ i)) i = true) by (rewrite Z.land_spec, E, Z.pow2_bits_true by exact Hi; reflexivity). rewrite H, Z.testbit_0_l in Hb. discriminate.
  - apply Z.eqb_eq. apply Z.bits_inj'. intros j Hj. rewrite Z.land_spec, Z.pow2_bits_eqb, Z.testbit_0_l by exact Hi. destruct (Z.eqb_spec i j) as [<-|]; [now rewrite E|apply Bool.andb_false_r].
Qed.

Lemma busy_or x i j : 0 <= i -> Z.testbit (Z.lor x (Z.shiftl 1 i)) j = Z.testbit x j || (i =? j).
Proof. intros Hi. rewrite Z.lor_spec, Z.shiftl_1_l, Z.pow2_bits_eqb by exact Hi. reflexivity. Qed.

Lemma busy_or_range x i : 0 <= x < 2 ^ 64 -> 0 <= i < 64 -> 0 <= Z.lor x (Z.shiftl 1 i) < 2 ^ 64.
Proof.
  intros Hx Hi. apply range_bits; [lia|apply Z.lor_nonneg; split; [lia|apply Z.shiftl_nonneg; lia]|]. intros j Hj. rewrite busy_or, (bits_range 64 x j Hx Hj) by lia. destruct (Z.eqb_spec i j); [lia|reflexivity].
Qed.

(** A new thread in a free place. *)
Lemma pool_add p i k w q w' : pool_ok p -> 0 <= i < max_aux_threads C -> ~ In i (map t_idx (threads p)) -> task_right k -> Forall work_right w -> q = n_proof_threads p + 2 * Z.of_nat (length (provings [mkthread i k])) ->
  pool_ok (mkpool w w' (Z.lor (aux_threads_busy p) (Z.shiftl 1 i)) q (done_iters p) (threads p ++ [mkthread i k])).
Proof.
  intros [P1 P2 P3 P4 P5 P6 P7] Hi Hn Hk Hw ->. pose proof (cf_aux HC) as Hau. split; cbn [wq threads aux_threads_busy n_proof_threads]; try assumption.
  - apply Forall_app. split; [exact P2|]. now repeat constructor.
  - rewrite map_app. apply NoDup_app; [exact P3|repeat constructor; easy|]. intros j Hj [<-|[]]. contradiction.
  - apply Forall_app. split; [exact P4|]. constructor; [exact Hi|constructor].
  - apply busy_or_range; [assumption|lia].
  - intros j Hj. rewrite busy_or, map_app, in_app_iff, Bool.orb_true_iff, P6, Z.eqb_eq by lia. cbn. intuition congruence.
  - rewrite provings_app, length_app, P7. lia.
Qed.

Lemma covers_added t p w q d w' th b : (forall x, In x (wq p) -> In x w \/ t_task th = Values x) -> covers_more t p t (mkpool w w' b q d (threads p ++ [th])).
Proof.
  intros Hw pos H0 [Hc|[(x & Hx & Hc)|(x & Hx & Hc)]]; [now left| |].
  - destruct (Hw x Hx) as [Hx'|E]; [right; left; now exists x|]. right. right. exists th. cbn [threads]. split; [apply in_or_app; right; now left|]. rewrite E. exact Hc.
  - right. right. exists x. cbn [threads]. split; [apply in_or_app; now left|exact Hc].
Qed.

(** The places from [i] on that were free are free. *)
Definition free_from (i busy : Z) (p : pool) : Prop := forall j, i <= j < 64 -> Z.testbit busy j = false -> ~ In j (map t_idx (threads p)).

(** The finished proofs are as they were. *)
Definition dones_kept (q q' : hw_queue) : Prop := forall i p', at_ (proofs q') i p' -> live p' -> is_done p' = true ->
  exists p, at_ (proofs q) i p /\ live p /\ is_done p = true /\ p_iters p' = p_iters p /\ p_seg_iters p' = p_seg_iters p /\ is_req p' = is_req p /\
    p_y p' = p_y p /\ p_proof p' = p_proof p /\ p_B p' = p_B p.

Lemma dones_refl q : dones_kept q q.
Proof. intros i p Hp L Dn. exists p. split; [exact Hp|]. split; [exact L|]. now repeat split. Qed.

Lemma dones_trans q1 q2 q3 : dones_kept q1 q2 -> dones_kept q2 q3 -> dones_kept q1 q3.
Proof.
  intros H1 H2 i p Hp L Dn. destruct (H2 i p Hp L Dn) as (p2 & Hp2 & L2 & D2 & -> & -> & -> & -> & -> & ->). exact (H1 i p2 Hp2 L2 D2).
Qed.

Lemma dones_step q q' : step_ok q q' -> dones_kept q q'.
Proof.
  intros S i p' Hp L Dn. destruct (s_back _ _ S i p' Hp L) as [(p & Hp0 & Sh)|[_ Hn]]; [|congruence]. destruct (shape_facts _ _ (eq_sym Sh)) as (_ & _ & _ & F4 & _ & _). pose proof (shape_flags _ _ Sh) as Ef.
  exists p. split; [exact Hp0|]. split; [now apply F4|]. unfold has in *. rewrite Ef in *. unfold shape, set_ref in Sh. injection Sh as -> -> -> -> -> _ _. now repeat split.
Qed.

Lemma start_proofs_ok N busy n : forall i s, state_ok N s -> 0 <= i -> i + Z.of_nat n <= max_aux_threads C -> free_from i busy (pol s) ->
  exists s', start_proofs n i busy s = Ok s' /\ state_ok N s' /\ inp s' = inp s /\ sto s' = sto s /\ wq (pol s') = wq (pol s) /\ dones_kept (queue s) (queue s').
Proof.
  induction n as [|n IH]; intros i s K Hi Hn Hf; assert (Hsame : exists s', Ok s = Ok s' /\ state_ok N s' /\ inp s' = inp s /\ sto s' = sto s /\ wq (pol s') = wq (pol s) /\ dones_kept (queue s) (queue s'))
    by (exists s; split; [reflexivity|]; split; [exact K|]; do 3 (split; [reflexivity|]); apply dones_refl); cbn [start_proofs]; [exact Hsame|]. pose proof (k_queue _ _ K) as Q.
  destruct (queued_proofs (queue s)) as [|idx queued] eqn:Eq; [exact Hsame|]. destruct (start_ok I (cf_interval HC) N (queue s) idx queued Q Eq) as (e & q' & Es & Q' & He & L & Se & Ep & Eq' & Ed & Er).
  rewrite (at_get _ _ _ He). cbn [bind]. destruct (Z.ltb_spec (v_iters (last_val (inp s))) (p_iters e)) as [|Hle]; cbn [orb]; [exact Hsame|].
  destruct (Z.leb_spec (max_proof_threads (cfg s)) (n_proof_threads (pol s))) as [|Hmax]; cbn [orb]; [exact Hsame|].
  pose proof (cf_aux HC) as Hau. unfold bit. destruct (Z.ltb_spec i 64) as [Hi'|]; [|lia]. cbn [bind]. rewrite land_bit by exact Hi. destruct (Z.testbit busy i) eqn:Eb; cbn [negb].
  { destruct (IH (i + 1) s K) as (s' & H); [lia|lia|intros j Hj; apply Hf; lia|now exists s']. }
  rewrite Es. cbn [bind]. pose proof (k_pool _ _ K) as P. pose proof (k_proving _ _ K) as GP. set (p := pol s) in *. pose proof (p_count _ P) as Pc. rewrite (k_cfg _ _ K) in Hmax. pose proof (cf_proof HC).
  assert (Hu : u8 (n_proof_threads p + PARALLEL_PROVER_N_THREADS) = n_proof_threads p + 2) by (unfold PARALLEL_PROVER_N_THREADS, uwrap; apply Z.mod_small; lia). rewrite Hu.
  set (p' := mkpool _ _ _ _ _ _). assert (P' : pool_ok p') by (apply pool_add; try easy; [lia|apply Hf; [lia|exact Eb]|apply P]).
  assert (HM : covers_more (sto s) p (sto s) p') by (apply covers_added; intros x Hx; now left).
  assert (Hnew : ~ In idx (provings (threads p))) by (intros Hin; apply (g_in _ _ _ GP) in Hin as (e1 & He1 & _ & S1 & _); rewrite (at_fun _ _ _ _ He1 He) in S1; congruence).
  set (e' := set_flags (Z.lor (p_flags e) FLAG_STARTED) e) in *. destruct (flags_or e FLAG_STARTED L (or_introl eq_refl)) as (L' & FR & FS & FD). rewrite Z.eqb_refl in FS. cbn [negb] in FS. rewrite Bool.andb_false_r in FS.
  change (negb (FLAG_STARTED =? FLAG_DONE)) with true in FD. rewrite Bool.andb_true_r in FD. pose proof (at_range _ _ _ He) as Rk.
  assert (Hde : is_done e = false) by (destruct (is_done e) eqn:Dn; [rewrite (g_done _ _ _ GP idx e He L Dn) in Se; discriminate|reflexivity]).
  assert (GP' : proving_ok q' (sto s) p').
  { assert (Epr : provings (threads p') = provings (threads p) ++ [idx]) by (unfold p'; cbn [threads]; apply provings_app).
    split; rewrite ?Epr, ?Ep.
    - apply NoDup_app; [apply GP|repeat constructor; easy|]. intros j Hj [<-|[]]. contradiction.
    - intros j. rewrite in_app_iff. split.
      + intros [Hj|[<-|[]]].
        * apply (g_in _ _ _ GP) in Hj as (e1 & He1 & H1). exists e1. split; [|exact H1]. apply at_put; [exact Rk|right; split; [|exact He1]]. intros ->. rewrite (at_fun _ _ _ _ He1 He) in H1. destruct H1 as (_ & H1 & _). congruence.
        * exists e'. split; [apply at_put; [exact Rk|now left]|]. split; [exact L'|]. unfold has in *. cbn [e' set_flags p_flags]. rewrite FS, FD. now split.
      + intros (e1 & He1 & H1). apply at_put in He1 as [[-> _]|[_ He1]]; [right; now left|left; apply (g_in _ _ _ GP); now exists e1|exact Rk].
    - intros j e1 pos Hj He1 H0 Hp. apply HM; [exact H0|]. apply in_app_or in Hj. apply at_put in He1 as [[-> ->]|[Hne He1]]; [|destruct Hj as [Hj|[<-|[]]]; [now apply (g_covered _ _ _ GP j e1)|contradiction]|exact Rk].
      apply (k_covered _ _ K); [exact H0|]. cbn [e' set_flags p_iters] in Hp. lia.
    - intros j e1 Hj He1. apply in_app_or in Hj. apply at_put in He1 as [[-> ->]|[Hne He1]]; [|destruct Hj as [Hj|[<-|[]]]; [now apply (g_target _ _ _ GP j e1)|contradiction]|exact Rk].
      cbn [e' set_flags p_iters]. pose proof (proj1 (k_last _ _ K)). lia.
    - intros j e1 He1 L1 D1. apply at_put in He1 as [[-> ->]|[_ He1]]; [|now apply (g_done _ _ _ GP j)|exact Rk]. unfold has. cbn [e' set_flags p_flags]. now rewrite FS. }
  destruct (IH (i + 1) (set_pol p' (set_queue q' s))) as (s' & E' & K' & E1 & E2 & E3 & E4); try lia.
  - destruct K as [K1 K2 K3 K4 K5 K6 K7 K8 K9 K10]. split; cbn [set_pol set_queue cfg stopping inp sto pol queue]; try assumption. intros pos H0 Hp. now apply HM, K8.
  - intros j Hj Hb. cbn [set_pol set_queue pol p' threads]. rewrite map_app, in_app_iff. intros [Hin|[Ej|[]]]; [now apply (Hf j ltac:(lia) Hb)|cbn in Ej; lia].
  - exists s'. split; [exact E'|]. split; [exact K'|]. split; [exact E1|]. split; [exact E2|]. split; [exact E3|]. refine (dones_trans _ _ _ _ E4). cbn [set_pol set_queue queue].
    intros j e1 He1 L1 D1. rewrite Ep in He1. apply at_put in He1 as [[-> ->]|[_ He1]]; [exfalso; unfold has in *; cbn [e' set_flags p_flags] in D1; rewrite FD in D1; congruence|exact (dones_refl _ _ _ He1 L1 D1)|exact Rk].
Qed.

Lemma start_values_ok busy t n : forall i p, pool_ok p -> 0 <= i -> i + Z.of_nat n <= max_aux_threads C -> free_from i busy p ->
  exists p', start_values n i busy p = Ok p' /\ pool_ok p' /\ covers_more t p t p' /\ provings (threads p') = provings (threads p).
Proof.
  induction n as [|n IH]; intros i p P Hi Hn Hf; cbn [start_values]; [now exists p|]. pose proof (cf_aux HC) as Hau. unfold bit. destruct (Z.ltb_spec i 64) as [Hi'|]; [|lia]. cbn [bind]. rewrite land_bit by exact Hi.
  destruct (Z.testbit busy i) eqn:Eb; cbn [negb]; [apply (IH (i + 1) p P); try lia; intros j Hj; apply Hf; lia|]. destruct (wq p) as [|w ws] eqn:Ew; [now exists p|].
  pose proof (p_work _ P) as PW. rewrite Ew in PW. inversion PW as [|? ? Hw Hws]; subst. set (p1 := mkpool _ _ _ _ _ _).
  assert (P1 : pool_ok p1) by (apply (pool_add p i (Values w)); try easy; [lia|apply Hf; [lia|exact Eb]|cbn; lia]).
  assert (Epr : provings (threads p1) = provings (threads p)) by (unfold p1; cbn [threads]; rewrite provings_app; apply app_nil_r).
  destruct (IH (i + 1) p1 P1) as (p' & E' & P' & HM & Ep); try lia.
  - intros j Hj Hb. unfold p1. cbn [threads]. rewrite map_app, in_app_iff. intros [Hin|[Ej|[]]]; [now apply (Hf j ltac:(lia) Hb)|cbn in Ej; lia].
  - exists p'. split; [exact E'|]. split; [exact P'|]. split; [|congruence]. intros pos H0 Hc. apply HM; [exact H0|]. revert Hc. apply (covers_added t p); [|exact H0]. intros x Hx. rewrite Ew in Hx. destruct Hx as [<-|Hx]; [now right|now left].
Qed.

Lemma process_work_ok N fuel s : state_ok N s -> NoDup (asked (queue s)) -> (length (asked (queue s)) <= fuel)%nat ->
  let m := Z.of_nat (turns I fuel (queue s)) in N + m < 2 ^ 16 - 1 -> Z.of_nat (length (proofs (queue s))) + 3 * m < 2 ^ 16 - 1 ->
  exists s', hw_proof_process_work fuel s = Ok s' /\ state_ok (N + m) s' /\ inp s' = inp s /\ dones_kept (queue s) (queue s').
Proof.
  intros K Hnd Hf m HN Hl. unfold hw_proof_process_work. pose proof (k_queue _ _ K) as Q. rewrite (k_cfg _ _ K).
  assert (H0 : Forall (fun x => 0 <= fst x) (req_proofs (queue s))) by (eapply Forall_impl; [|exact (proj2 (q_req _ _ _ Q))]; cbv beta; lia).
  destruct (process_reqs_ok I (cf_interval HC) fuel N (queue s) 0 Q Hnd H0) as (q & -> & Q' & S' & _ & _); [|exact HN|exact Hl|]. { unfold left_from. pose proof (filter_length_le (fun x => 0 <=? x) (asked (queue s))). lia. }
  cbn [bind]. fold m in Q'. pose proof (cf_aux HC) as Haux.
  assert (K1 : state_ok (N + m) (set_queue q s)).
  { destruct K as [K1 K2 K3 K4 K5 K6 K7 K8 K9 K10]. split; cbn [set_queue cfg stopping inp sto pol queue]; try assumption. exact (proving_step _ _ _ _ K10 S'). }
  destruct (start_proofs_ok (N + m) (aux_threads_busy (pol s)) (Z.to_nat (max_aux_threads C)) 0 _ K1 ltac:(lia) ltac:(lia)) as (s1 & -> & K2 & Ei & Es & Ew & HDk).
  { intros j Hj Hb Hin. cbn [set_queue pol] in Hin. apply (p_bits _ (k_pool _ _ K) j ltac:(lia)) in Hin. congruence. }
  cbn [bind]. destruct (start_values_ok (aux_threads_busy (pol s1)) (sto s1) (Z.to_nat (max_aux_threads C)) 0 (pol s1) (k_pool _ _ K2) ltac:(lia) ltac:(lia)) as (p' & -> & P' & HM & Ep).
  { intros j Hj Hb Hin. apply (p_bits _ (k_pool _ _ K2) j ltac:(lia)) in Hin. congruence. }
  cbn [bind]. eexists. split; [reflexivity|]. split; [|split; [exact Ei|exact (dones_trans _ _ _ (dones_step _ _ S') HDk)]].
  replace (set_pol (warn_thres p') s1) with (set_pol (warn_thres p') (set_sto (sto s1) s1)) by (now destruct s1).
  assert (Ew' : wq (warn_thres p') = wq p' /\ threads (warn_thres p') = threads p') by (unfold warn_thres; destruct (wq_warn_thres p'); now split). destruct Ew' as [Ew1 Ew2].
  apply (state_more (N + m) s1); [exact K2|exact (k_sto _ _ K2)| |easy| |now rewrite Ew2].
  - unfold warn_thres. destruct (wq_warn_thres p') as [t0 t1]. destruct P' as [P1 P2 P3 P4 P5 P6 P7]. now split.
  - intros pos Hp Hc. unfold covered. rewrite Ew1, Ew2. now apply HM.
Qed.

(** *** A value *)

(** Whether 4a divides b^2 - D depends on b mod 2a only. *)
Lemma mod_square_parity a b k d : (4 * a | (b + 2 * a * k) * (b + 2 * a * k) - d) -> (4 * a | b * b - d).
Proof. intros [z E]. exists (z - b * k - a * k * k). lia. Qed.

(** Reducing b modulo 2a does not change whether (a, b) has a third coefficient. *)
Lemma reduced_b_check a b d : a <> 0 -> (4 * a | b mod Z.abs (2 * a) * (b mod Z.abs (2 * a)) - d) <-> (4 * a | b * b - d).
Proof.
  intros Ha. assert (E2 : exists k, b mod Z.abs (2 * a) = b + 2 * a * k).
  { rewrite Z.mod_eq by lia. destruct (Z.abs_eq_or_opp (2 * a)) as [E2|E2]; rewrite E2; [exists (- (b / (2 * a)))|exists (b / - (2 * a))]; ring. }
  destruct E2 as (k & ->). split; [apply mod_square_parity|]. intros H. apply (mod_square_parity a _ (- k)). now replace (b + 2 * a * k + 2 * a * - k) with b by ring.
Qed.

Lemma state_inp N s i : state_ok N s -> value_right (last_val i) -> cur_iters i = v_iters (last_val i) ->
  (forall pos, 0 <= pos -> pos * I <= v_iters (last_val i) -> covered (sto s) (pol s) pos) -> state_ok N (set_inp i s).
Proof. intros [K1 K2 K3 K4 K5 K6 K7 K8 K9 K10] HV Hc Hcov. split; cbn [set_inp cfg stopping inp sto pol queue]; assumption. Qed.

Lemma add_work_ok N s st n : state_ok N s -> work_right (mkwork (last_val (inp s)) st n) ->
  state_ok N (hw_proof_add_work st n s) /\ covers_more (sto s) (pol s) (sto s) (pol (hw_proof_add_work st n s)) /\
  (forall pos, st <= pos * I <= st + I * n -> covered (sto s) (pol (hw_proof_add_work st n s)) pos).
Proof.
  intros K W. unfold hw_proof_add_work. set (p' := mkpool _ _ _ _ _ _). cbn [set_pol pol].
  assert (HM : covers_more (sto s) (pol s) (sto s) p').
  { intros pos H0 [Hc|[(x & Hx & Hc)|Hc]]; [now left|right; left; exists x; split; [apply in_or_app; now left|exact Hc]|right; now right]. }
  split; [|split; [exact HM|]].
  - replace (set_pol p' s) with (set_pol p' (set_sto (sto s) s)) by (now destruct s). apply (state_more N s); [exact K|exact (k_sto _ _ K)| |easy|exact HM|reflexivity].
    destruct (k_pool _ _ K) as [P1 P2 P3 P4 P5 P6 P7]. split; cbn [p' wq threads aux_threads_busy n_proof_threads]; try assumption. apply Forall_app. split; [exact P1|]. constructor; [exact W|constructor].
  - intros pos Hp. right. left. eexists. split; [apply in_or_app; right; now left|exact Hp].
Qed.

Lemma handle_value_ok N fuel val s : state_ok N s -> value_right val -> NoDup (asked (queue s)) -> (length (asked (queue s)) <= fuel)%nat ->
  let m := Z.of_nat (turns I fuel (queue s)) in N + m < 2 ^ 16 - 1 -> Z.of_nat (length (proofs (queue s))) + 3 * m < 2 ^ 16 - 1 ->
  exists s', hw_proof_handle_value fuel val s = Ok s' /\ state_ok (N + m) s' /\ last_val (inp s') = val /\ dones_kept (queue s) (queue s').
Proof.
  intros K V Hnd Hf m HN Hl. unfold hw_proof_handle_value. rewrite (k_cfg _ _ K). pose proof (cf_interval HC) as HI. pose proof (cf_target HC) as HT. pose proof (k_last _ _ K) as [Hlast _]. pose proof V as [Hv _].
  set (last := v_iters (last_val (inp s))) in *. set (v := v_iters val) in *. set (q1 := last / I). set (q2 := v / I).
  pose proof (Z.div_mod last I ltac:(lia)) as M1. pose proof (Z.mod_pos_bound last I ltac:(lia)) as B1. fold q1 in M1. pose proof (Z.div_mod v I ltac:(lia)) as M2. pose proof (Z.mod_pos_bound v I ltac:(lia)) as B2. fold q2 in M2.
  assert (Hq1 : 0 <= q1) by (apply Z.div_pos; lia). assert (Hq2 : 0 <= q2) by (apply Z.div_pos; lia).
  rewrite (u64_id (q1 * I + I)) by lia.
  assert (Hstore : exists en t', (if v =? q2 * I then t <- hw_proof_add_intermediate D (Some val) q2 (sto s) ;; Ok (if negb (q2 * I =? 0) then q2 * I - I else q2 * I, t) else Ok (q2 * I, sto s)) = Ok (en, t') /\
    state_ok N (set_sto t' s) /\ (I | en) /\ 0 <= en <= v /\ (forall pos, 0 <= pos -> pos * I <= v -> stored t' pos \/ pos * I <= en /\ (0 < pos -> 0 < en))).
  { destruct (Z.eqb_spec v (q2 * I)) as [Ev|Ev].
    - destruct (add_some_ok (sto s) val q2 (k_sto _ _ K) V Ev) as (t' & -> & T' & S' & HS). cbn [bind]. do 2 eexists. split; [reflexivity|]. split.
      + replace (set_sto t' s) with (set_pol (pol s) (set_sto t' s)) by (now destruct s). apply (state_more N s); [exact K|exact T'|exact (k_pool _ _ K)|exact HS| |reflexivity]. intros pos H0 [Hc|Hc]; [left; now apply HS|now right].
      + destruct (Z.eqb_spec (q2 * I) 0) as [E0|E0]; cbn [negb].
        * split; [apply Z.divide_factor_r|]. split; [lia|]. intros pos H0 Hp. left. replace pos with q2 by nia. exact S'.
        * assert (1 <= q2) by nia. split; [exists (q2 - 1); ring|]. split; [nia|]. intros pos H0 Hp. destruct (Z.eq_dec pos q2) as [->|Hne]; [now left|right]. assert (pos <= q2 - 1) by nia. split; [nia|]. intros Hpos. nia.
    - do 2 eexists. split; [reflexivity|]. split; [now destruct s|]. split; [apply Z.divide_factor_r|]. split; [nia|]. intros pos H0 Hp. right. assert (pos <= q2) by nia. split; nia. }
  destruct Hstore as (en & t' & E1 & K1 & Den & Hen & Hcov1). fold v q2 in E1. rewrite E1. cbn [bind]. set (s1 := set_sto t' s) in *. change (inp s1) with (inp s).
  assert (Hs2 : exists s2, (if negb (en =? 0) && (q1 * I + I <=? en) then require negb (target_iters C <? q1 * I + I) else aborted ;; Ok (hw_proof_add_work (q1 * I + I) (u32 ((en - (q1 * I + I)) / I)) s1) else Ok s1) = Ok s2 /\
    state_ok N s2 /\ inp s2 = inp s /\ queue s2 = queue s /\ (forall pos, 0 <= pos -> pos * I <= v -> covered (sto s2) (pol s2) pos)).
  { assert (Hold : forall pos, 0 <= pos -> pos * I <= last -> covered t' (pol s) pos) by (intros pos H0 Hp; exact (k_covered _ _ K1 pos H0 Hp)).
    destruct (negb (en =? 0) && (q1 * I + I <=? en)) eqn:Ec.
    - apply andb_prop in Ec as [Ec1 Ec2]. apply Z.leb_le in Ec2. destruct (Z.ltb_spec (target_iters C) (q1 * I + I)) as [|_]; [lia|]. cbn [negb]. destruct Den as [k Ek].
      assert (Ediv : (en - (q1 * I + I)) / I = k - q1 - 1) by (rewrite Ek; replace (k * I - (q1 * I + I)) with ((k - q1 - 1) * I) by ring; apply Z.div_mul; lia). rewrite Ediv.
      assert (Hk : q1 + 1 <= k) by nia. unfold uwrap. rewrite (Z.mod_small (k - q1 - 1)) by nia.
      destruct (add_work_ok N s1 (q1 * I + I) (k - q1 - 1) K1) as (K2 & HM & Hc2).
      { split; [exact (k_last _ _ K1)|]. cbn [start_val start_iters n_steps]. change (v_iters (last_val (inp s1))) with last. split; [lia|]. split; [exists (q1 + 1); ring|]. split; [lia|]. nia. }
      eexists. split; [reflexivity|]. split; [exact K2|]. do 2 (split; [reflexivity|]). intros pos H0 Hp. change (sto (hw_proof_add_work _ _ _)) with t'.
      destruct (Z.le_gt_cases (pos * I) last) as [Hle|Hgt]; [apply HM; [exact H0|now apply Hold]|]. destruct (Hcov1 pos H0 Hp) as [Hs|[Hle _]]; [now left|]. apply Hc2. assert (q1 < pos) by nia. nia.
    - eexists. split; [reflexivity|]. split; [exact K1|]. do 2 (split; [reflexivity|]). intros pos H0 Hp. destruct (Z.le_gt_cases (pos * I) last) as [Hle|Hgt]; [now apply Hold|].
      destruct (Hcov1 pos H0 Hp) as [Hs|[Hle Hpe]]; [now left|exfalso]. assert (q1 < pos) by nia. assert (0 < en) by (apply Hpe; lia). destruct (Z.eqb_spec en 0); [lia|]. cbn [negb andb] in Ec. apply Z.leb_gt in Ec. nia. }
  destruct Hs2 as (s2 & -> & K2 & Ei & Eq & Hcov2). cbn [bind]. rewrite Ei.
  set (i' := mkinput _ _ _ _ _ _). assert (K3 : state_ok N (set_inp i' s2)) by (apply state_inp; [exact K2|exact V|reflexivity|exact Hcov2]).
  destruct (process_work_ok N fuel (set_inp i' s2) K3) as (s' & -> & K' & Ei' & HDk); cbn [set_inp queue]; rewrite ?Eq; try assumption. exists s'. split; [reflexivity|]. cbn [set_inp queue] in K', HDk. rewrite Eq in K', HDk. split; [exact K'|]. split; [now rewrite Ei'|exact HDk].
Qed.

(** What is assumed of the hardware: a value that is the beginning of a form of
    discriminant D is the right one, and it does not run past the end. *)
Definition reading_ok (s : vdf_state) (val : vdf_value) : Prop :=
  0 <= v_iters val /\ 0 <= iters_offset (inp s) /\ v_iters val + iters_offset (inp s) <= target_iters C /\
  forall f, disc f = D -> fa f = v_a val -> fb f = v_b val -> right (v_iters val + iters_offset (inp s)) f.

Lemma mod_right n a b f : right n f -> fa f = a -> fb f = b -> exists g, right n g /\ fa g = a /\ fb g = b mod Z.abs (2 * a).
Proof.
  intros P Ea Eb. pose proof (valid_pos _ _ (class_valid _ _ (pw_class D x0 Cx0 _ _ P))) as Hpos. rewrite Ea in Hpos. rewrite Z.abs_eq by lia.
  exists (act 1 (- (b / (2 * a))) 0 1 f). split; [apply (pw_equiv D x0 _ f); [exact P|apply act_equiv; ring]|]. unfold act. cbn [fa fb]. rewrite Ea, Eb. split; [ring|]. rewrite Z.mod_eq by lia. ring.
Qed.

Lemma add_value_ok N fuel val s : state_ok N s -> reading_ok s val -> NoDup (asked (queue s)) -> (length (asked (queue s)) <= fuel)%nat ->
  let m := Z.of_nat (turns I fuel (queue s)) in N + m < 2 ^ 16 - 1 -> Z.of_nat (length (proofs (queue s))) + 3 * m < 2 ^ 16 - 1 ->
  exists r s', hw_proof_add_value fuel val s = Ok (r, s') /\ state_ok (N + m) s' /\
    (r = 0 -> v_iters (last_val (inp s')) = v_iters val + iters_offset (inp s)) /\ (r <> 0 -> last_val (inp s') = last_val (inp s)) /\ dones_kept (queue s) (queue s').
Proof.
  intros K (H1 & H2 & H3 & H4) Hnd Hf m HN Hl. unfold hw_proof_add_value. pose proof (cf_target HC) as HT. rewrite (u64_id (v_iters val + iters_offset (inp s))) by lia. cbn [v_iters v_a v_b].
  assert (K' : state_ok (N + m) s) by (destruct K as [K1 K2 K3 K4 K5 K6 K7 K8 K9 K10]; split; try assumption; apply (hw_queue_more I N); [exact K9|lia]).
  assert (Hkeep : forall i, last_val i = last_val (inp s) -> cur_iters i = cur_iters (inp s) -> state_ok (N + m) (set_inp i s)).
  { intros i E1 E2. apply state_inp; [exact K'|rewrite E1; apply (k_last _ _ K')|rewrite E1, E2; apply (k_cur _ _ K')|rewrite E1; apply (k_covered _ _ K')]. }
  destruct (_ || _) eqn:Es.
  { do 2 eexists. split; [reflexivity|]. split; [apply Hkeep; reflexivity|]. split; [destruct (_ <? _); discriminate|]. split; [reflexivity|apply dones_refl]. }
  destruct (Z.eqb_spec (Z.sgn (v_a val)) 0) as [Ea|Ea].
  { do 2 eexists. split; [reflexivity|]. split; [apply Hkeep; reflexivity|]. split; [discriminate|]. split; [reflexivity|apply dones_refl]. }
  assert (Ha : v_a val <> 0) by (intros E; rewrite E in Ea; now apply Ea). rewrite (k_cfg _ _ K). set (val' := mkvalue _ _ _). set (i := mkinput _ _ _ _ _ _).
  pose proof (verify_ok D val' i (gd_neg _ (cf_disc HC)) Ha) as Hver. destruct (verify_vdf_value D val' i) as [ret i'] eqn:Ever. cbn [fst] in Hver.
  assert (Hi' : last_val i' = last_val (inp s) /\ cur_iters i' = cur_iters (inp s) /\ iters_offset i' = iters_offset (inp s)).
  { unfold verify_vdf_value in Ever. destruct (_ || _) in Ever; injection Ever as <- <-; now repeat split. }
  destruct (Z.eqb_spec ret 0) as [Er|Er]; cbn [negb].
  2: { do 2 eexists. split; [reflexivity|]. split; [apply Hkeep; apply Hi'|]. split; [discriminate|]. split; [intros _; apply Hi'|apply dones_refl]. }
  apply Hver in Er. cbn [val' v_a v_b] in Er. pose proof (proj1 (reduced_b_check _ _ _ Ha) Er) as Hdiv.
  destruct Hdiv as [c Ec]. pose (f := mkform (v_a val) (v_b val) c). assert (Pf : right (v_iters val + iters_offset (inp s)) f) by (apply H4; [unfold disc; cbn [f fa fb fc]; lia|reflexivity|reflexivity]).
  destruct (mod_right _ _ _ f Pf eq_refl eq_refl) as (g & Pg & Eg1 & Eg2).
  assert (V : value_right val') by (split; [cbn; lia|]; exists g; split; [exact Pg|now split]).
  destruct (handle_value_ok N fuel val' (set_inp i' s)) as (s' & -> & Ks & El & HDk); cbn [set_inp queue]; try assumption.
  { apply state_inp; [exact K|rewrite (proj1 Hi'); apply (k_last _ _ K)|rewrite (proj1 Hi'), (proj1 (proj2 Hi')); apply (k_cur _ _ K)|rewrite (proj1 Hi'); apply (k_covered _ _ K)]. }
  cbn [bind]. do 2 eexists. split; [reflexivity|]. split; [exact Ks|]. split; [intros _; now rewrite El|]. split; [easy|exact HDk].
Qed.

(** *** The last good form *)

Lemma last_good_ok t n : sto_ok t -> stored t 0 -> Z.of_nat n <= max_pos -> exists pos, last_good n (valid_values t) (Z.of_nat n) = Ok pos /\ 0 <= pos <= Z.of_nat n /\ stored t pos /\
  forall q, pos < q <= Z.of_nat n -> value_valid (valid_values t) q = Ok false.
Proof.
  intros T Hs0. induction n as [|n IH]; intros Hn; cbn [last_good].
  - unfold stored in Hs0. change (Z.of_nat 0) with 0. rewrite Hs0. cbn [bind]. exists 0. split; [reflexivity|]. split; [lia|]. split; [exact Hs0|intros; lia].
  - destruct (value_valid_total (valid_values t) (Z.of_nat (S n)) ltac:(lia) (pos_byte t (Z.of_nat (S n)) T ltac:(lia))) as (b & E). rewrite E. cbn [bind]. destruct b.
    + exists (Z.of_nat (S n)). split; [reflexivity|]. split; [lia|]. split; [exact E|intros; lia].
    + replace (Z.of_nat (S n) - 1) with (Z.of_nat n) by lia. destruct (IH ltac:(lia)) as (pos & Eg & Hp & Hs & Hq). exists pos. split; [exact Eg|]. split; [lia|]. split; [exact Hs|].
      intros q Hr. destruct (Z.eq_dec q (Z.of_nat (S n))) as [->|]; [exact E|apply Hq; lia].
Qed.

Lemma last_good_form_ok N s : state_ok N s -> exists f pos s', hw_proof_last_good_form s = Ok (f, pos, s') /\ state_ok N s' /\ 0 <= pos /\ pos * I <= cur_iters (inp s) /\ right (pos * I) f /\
  inp s' = inp s /\ queue s' = queue s /\ pol s' = pol s.
Proof.
  intros K. unfold hw_proof_last_good_form. rewrite (k_cfg _ _ K). pose proof (k_last _ _ K) as [Hl _]. rewrite (k_cur _ _ K). set (v := v_iters (last_val (inp s))) in *. pose proof I_pos as HI.
  pose proof (Z.div_pos v I ltac:(lia) HI) as H0. pose proof (Z.mul_div_le v I HI) as Hle. pose proof (pos_range (v / I) H0 ltac:(lia)) as [_ Hm].
  destruct (last_good_ok (sto s) (Z.to_nat (v / I)) (k_sto _ _ K) (k_first _ _ K) ltac:(lia)) as (pos & E & Hp & Hs & _). rewrite Z2Nat.id in E, Hp by exact H0. rewrite E. cbn [bind].
  destruct (value_at_eq pos (sto s)) as [E1 E2]. set (t' := hw_proof_value_at pos (sto s)) in *. do 3 eexists. split; [reflexivity|]. assert (T' : sto_ok t').
  { destruct (k_sto _ _ K) as [V1 V2 V3]. split; rewrite ?E2; try assumption. intros p Hpp Hst. unfold stored in Hst. rewrite E2 in Hst. rewrite E1. now apply V3. }
  split; [|split; [lia|split; [nia|split; [rewrite E1; apply (v_right _ (k_sto _ _ K)); [lia|exact Hs]|now repeat split]]]].
  replace (set_sto t' s) with (set_pol (pol s) (set_sto t' s)) by (now destruct s). apply (state_more N s); [exact K|exact T'|exact (k_pool _ _ K)| | |reflexivity].
  - intros q Hq Hst. unfold stored. now rewrite E2.
  - intros q Hq [Hc|Hc]; [left; unfold stored; now rewrite E2|now right].
Qed.
End Invariant.

(** ** The properties *)

(** C32: what [hw_proof_add_value] does with every value that the hardware
    reports. One for no new iterations is skipped, and the eleventh in a row makes it return -1
    (the client then restarts the hardware); one with a = 0, or for whose a and b
    no form of the discriminant exists, is counted as bad and gives -1, with nothing else changed;
    any other value is stored and processed with b reduced modulo 2a, and
    gives 0. *)
Theorem hw_add_value_cases {G : Gmp} {GL : GmpLaws G} {S : StdSort} fuel val s : cD (cfg s) < 0 ->
  let i := inp s in let iters := u64 (v_iters val + iters_offset i) in let a := v_a val in let b := v_b val in
  let again := iters = iters_offset i \/ iters = v_iters (last_val i) in
  let is_form := a <> 0 /\ (4 * a | b * b - cD (cfg s)) in
  let update bad skipped := set_inp (mkinput (iters_offset i) (cur_iters i) (last_val i) bad skipped (completed i)) s in
  (again -> hw_proof_add_value fuel val s = if 10 <? u32 (n_skipped i + 1) then Ok (-1, update (n_bad i) 0) else Ok (1, update (n_bad i) (u32 (n_skipped i + 1)))) /\
  (~ again -> ~ is_form -> hw_proof_add_value fuel val s = Ok (-1, update (u32 (n_bad i + 1)) 0)) /\
  (~ again -> is_form -> hw_proof_add_value fuel val s = (s' <- hw_proof_handle_value fuel (mkvalue iters a (b mod Z.abs (2 * a))) (update (n_bad i) 0) ;; Ok (0, s'))).
Proof.
  intros HD i iters a b again is_form update. unfold hw_proof_add_value. cbn [v_iters v_a v_b]. fold i iters a b.
  assert (Hg : (iters =? iters_offset i) || (iters =? v_iters (last_val i)) = true <-> again) by (rewrite orb_true_iff, !Z.eqb_eq; reflexivity).
  split; [|split]; intros H; [apply Hg in H; rewrite H; unfold g_skip_thres; now destruct (10 <? _)| |]; (destruct (_ || _); [elim H; now apply Hg|]); intros Hf; (destruct (Z.eqb_spec (Z.sgn a) 0) as [Ea|Ea]; [apply (proj1 (Z.sgn_null_iff a)) in Ea|]).
  - reflexivity.
  - assert (Ha : a <> 0) by (intros ->; now apply Ea). destruct (verify_vdf_value _ _ _) as [ret i'] eqn:Ev. pose proof (verify_ok (cD (cfg s)) (mkvalue iters a (b mod Z.abs (2 * a))) (mkinput (iters_offset i) (cur_iters i) (last_val i) (n_bad i) 0 (completed i)) HD Ha) as Hv.
    rewrite Ev in Hv. cbn [fst v_a v_b] in Hv. rewrite reduced_b_check in Hv by exact Ha. destruct (Z.eqb_spec ret 0) as [E0|E0]; [elim Hf; split; [exact Ha|now apply Hv]|]. cbn [negb].
    unfold verify_vdf_value in Ev. destruct (_ || _); injection Ev as <- <-; [reflexivity|now elim E0].
  - elim (proj1 Hf); exact Ea.
  - destruct (verify_vdf_value _ _ _) as [ret i'] eqn:Ev. pose proof (verify_ok (cD (cfg s)) (mkvalue iters a (b mod Z.abs (2 * a))) (mkinput (iters_offset i) (cur_iters i) (last_val i) (n_bad i) 0 (completed i)) HD (proj1 Hf)) as Hv.
    rewrite Ev in Hv. cbn [fst v_a v_b] in Hv. rewrite reduced_b_check in Hv by apply Hf. apply proj2 in Hv. specialize (Hv (proj2 Hf)). subst ret. cbn [Z.eqb negb].
    unfold verify_vdf_value in Ev. destruct (_ || _); [discriminate|]. now injection Ev as <-.
Qed.

(** ** Witnesses *)

(** The form (2, 1, 6), 4 iterations, and a value that is no form. *)
Definition vdf_47 : vdf_state :=
  mkvdf (mkconfig 8000 4000 (-47) 2 4 3) (mkinput 0 4 (mkvalue 4 2 1) 0 0 false) (mkstore 1 (fun _ => mkform 2 1 6) [1] 1) (mkqueue [] [] [] []) (mkpool [] (1, 4) 0 0 0 []) false.

Lemma hw_add_value_cases_witness :
  hw_proof_add_value (G := Ref.gmp) (Srt := insertion_sort) 0 (mkvalue 8 3 2) vdf_47 = Ok (-1, set_inp (mkinput 0 4 (mkvalue 4 2 1) 1 0 false) vdf_47).
Proof.
  refine (proj1 (proj2 (hw_add_value_cases (GL := Ref.laws) (S := insertion_sort) 0 (mkvalue 8 3 2) vdf_47 ltac:(reflexivity))) _ _).
  - intros [H|H]; vm_compute in H; discriminate.
  - intros [_ [k Hk]]. cbn in Hk. lia.
Defined.
