(* ===== verification/HwProver.v ===== *)
(** [src/src/hw/hw_proof.cpp], the proofs: [HwProver], [hw_compute_proof] and the
    start of a computation, and what holds in every state that the values,
    requests and threads of the hardware client lead to. *)
From S2P Require Import Prelude Words NumTheory Gmp QuadForm FormClass Integer Forms Nucomp Bqfc PrimeTest HashPrime ProofCommon Powers Verifier Steps Segments Prover Callback Provers Vdf Proving Prove.
From S2P Require Import HwQueue HwRequests HwValues.

(** ** HwProver *)

Definition HW_VDF_VALUE_INTERVAL_DIVISORS : list Z := [2; 4; 5; 8; 10; 16; 20].

(** The loop, with the last divisor that was not worse. *)
Fixpoint find_k (ds : list Z) (interval iters n_steps prev : Z) : Z :=
  match ds with
  | [] => prev
  | d :: ds =>
      let n_steps2 := u64 (iters / d + u64 (Z.shiftl (interval / d) (d + 1))) in
      if n_steps <? n_steps2 then prev else find_k ds interval iters n_steps2 d
  end.
Definition FindK (interval iters : Z) : Z := find_k HW_VDF_VALUE_INTERVAL_DIVISORS interval iters (u64 (iters + interval * 4)) 1.

(** The wait is over: the value is there, or (false) the computation stops. *)
Definition hw_proof_wait_value (s : vdf_state) (pos : Z) : res bool :=
  ok <- value_valid (valid_values (sto s)) pos ;;
  if ok : bool then Ok true else if stopping s then Ok false else Throw out_of_fuel.

(** With [pos_offset]. *)
Definition HwProver_make (segm : Segment) (s : vdf_state) : prover * Z :=
  let k := FindK (interval (cfg s)) (length_ segm) in
  (Prover_make segm (cD (cfg s)) k (interval (cfg s) / k), u32 (start segm / interval (cfg s))).

Definition Hw_GetForm (s : vdf_state) (pos_offset pos : Z) : res form :=
  let pos := u64 (pos + pos_offset) in
  ok <- hw_proof_wait_value s pos ;;
  Ok (if ok : bool then values (sto s) pos else values (sto s) 0).

(** The answers of [PerformExtraStep] to the threads of the prover. *)
Definition answers : Type := ((nat -> bool) * (nat -> bool) * bool)%type.

Section WithGmp.
Context `{G : Gmp} `{R : FormReducer} `{Srt : StdSort}.

(** [hw_compute_proof] up to its result, [y], [proof] and [B]: [None] when it is
    stopped. The squarings after the last whole interval are those of
    [SquareFormN]. *)
Definition compute_proof (fuel : nat) (performs : answers) (out_proof : vdf_proof) (s : vdf_state) : res (option (bytes * bytes * bytes)) :=
  let D := cD (cfg s) in let interval := interval (cfg s) in
  let proof_iters := p_iters out_proof in
  let start_iters := u64 (proof_iters - p_seg_iters out_proof) in
  let pos := proof_iters / interval in
  ok <- hw_proof_wait_value s (start_iters / interval) ;;
  ok' <- (if ok : bool then hw_proof_wait_value s pos else Ok false) ;;
  if negb ok' then Ok None
  else
    let x := values (sto s) (start_iters / interval) in
    let y := values (sto s) pos in
    require check_valid y D else aborted ;;
    y <- SquareFormN (Z.to_nat (proof_iters - pos * interval)) y D (cL (cfg s)) ;;
    require check_valid y D else aborted ;;
    let seg := Segment_make start_iters (u64 (proof_iters - start_iters)) x y in
    let '(p, pos_offset) := HwProver_make seg s in
    p <- ParallelGenerateProof (Hw_GetForm s pos_offset) performs set_finished fuel p ;;
    if IsFinished p then
      is_valid <- VerifyWesolowskiProof fuel D x y (GetProof p) (length_ seg) ;;
      require is_valid else aborted ;;
      let d_bits := mpz_sizeinbase2 D in
      ' (_, ys) <- bqfc_serialize (repeat 0 (Z.to_nat BQFC_FORM_SIZE)) (fa y) (fb y) d_bits ;;
      ' (_, ps) <- bqfc_serialize (repeat 0 (Z.to_nat BQFC_FORM_SIZE)) (fa (GetProof p)) (fb (GetProof p)) d_bits ;;
      B <- (if is_req out_proof then Ok [] else ' (B, _, _) <- GetB fuel D x y ;; Ok (to_bytes B)) ;;
      Ok (Some (ys, ps, B))
    else Ok None.

(** The [k]-th thread computes its proof and ends. *)
Definition hw_compute_proof (fuel : nat) (performs : answers) (k : nat) (s : vdf_state) : res vdf_state :=
  match nth_error (threads (pol s)) k with
  | Some (mkthread thr_idx (Proving idx)) =>
      p <- get (proofs (queue s)) idx ;;
      r <- compute_proof fuel performs p s ;;
      q <- (match r with Some (y, proof, B) => finish_proof idx y proof B (queue s) | None => Ok (queue s) end) ;;
      let l := pol s in
      let '(busy, n) := if thr_idx <? max_aux_threads (cfg s) then (clear_busy l thr_idx, u8 (n_proof_threads l - PARALLEL_PROVER_N_THREADS))
                        else (aux_threads_busy l, n_proof_threads l) in
      Ok (set_pol (mkpool (wq l) (wq_warn_thres l) busy n (done_iters l) (remove_nth k (threads l))) (set_queue q s))
  | _ => Ok s
  end.

(** ** The start *)

Definition HW_VDF_DEFAULT_MAX_AUX_THREADS : Z := 4.

(** [D] is what [mpz_set_str] reads. The result of [bqfc_deserialize] is
    ignored: [last_val] keeps the zeros of [init_vdf_value] when nothing was decoded, and
    the pair that was decoded when only the canonical check failed. *)
Definition init_vdf_state (opt_aux opt_proof : Z) (D : Z) (init_form : bytes) (n_iters : Z) : res vdf_state :=
  let interval := HW_VDF_VALUE_INTERVAL in
  let target := u64 (n_iters + interval - 1) / interval * interval in
  let max_aux := if opt_aux =? 0 then HW_VDF_DEFAULT_MAX_AUX_THREADS else opt_aux in
  let max_proof := if opt_proof =? 0 then u8 (max_aux - (max_aux + 7) / 8) else opt_proof in
  L <- root (- D) 4 ;;
  let num_values := target / interval + 1 in
  ' (_, (a, b)) <- bqfc_deserialize (repeat 0 (Z.to_nat BQFC_FORM_SIZE)) (0, 0) D init_form BQFC_FORM_SIZE BQFC_MAX_D_BITS false ;;
  let last := mkvalue 0 a b in
  f <- hw_proof_get_form D last ;;
  let valid := match Z.to_nat ((num_values + 7) / 8) with O => [] | S n => 1 :: repeat 0 n end in
  Ok (mkvdf (mkconfig target interval D L max_aux max_proof) (mkinput 0 0 last 0 0 false)
        (store_form 0 f (mkstore 0 (fun _ => form_0) valid 1)) (mkqueue [] [] [] [])
        (mkpool [] (1, HW_VDF_WQ_WARN_MULT * HW_VDF_WQ_WARN_MULT) 0 0 0 []) false).

(** [event_loop] after a bad value: the hardware starts again from the last good form. *)
Definition restart (s : vdf_state) : res (form * vdf_state) :=
  ' (f, pos, s) <- hw_proof_last_good_form s ;;
  let i := inp s in
  Ok (f, set_inp (mkinput (u64 (pos * interval (cfg s))) (cur_iters i) (last_val i) (n_bad i) (n_skipped i) (completed i)) s).
End WithGmp.

(** ** The block size *)

Definition divisors_1 : list Z := 1 :: HW_VDF_VALUE_INTERVAL_DIVISORS.

Lemma find_k_in ds interval iters n prev : In (find_k ds interval iters n prev) (prev :: ds).
Proof.
  revert n prev. induction ds as [|d ds IH]; intros n prev; cbn [find_k]; [now left|]. destruct (_ <? _); [now left|]. right. apply IH.
Qed.

Lemma FindK_ok interval iters : (80 | interval) -> 1 <= FindK interval iters <= 20 /\ (FindK interval iters | interval).
Proof.
  intros [m ->]. pose proof (find_k_in HW_VDF_VALUE_INTERVAL_DIVISORS (m * 80) iters (u64 (iters + m * 80 * 4)) 1) as H. fold (FindK (m * 80) iters) in H.
  revert H. generalize (FindK (m * 80) iters). intros k H. cbn in H. destruct H as [<-|[<-|[<-|[<-|[<-|[<-|[<-|[<-|[]]]]]]]]]; (split; [lia|]); [exists (m * 80)|exists (m * 40)|exists (m * 20)|exists (m * 16)|exists (m * 10)|exists (m * 8)|exists (m * 5)|exists (m * 4)]; lia.
Qed.

(** ** Proofs of right values are right *)

Section Proofs.
Context `{GL : GmpLaws} `{RL : FormReducerLaws} `{SrtL : StdSortLaws}.
Variable C : config.
Abbreviation D := (cD C).
Abbreviation I := (interval C).
Hypothesis HC : config_ok C.
Hypothesis H80 : (80 | I).
Variable x0 : form.
Hypothesis Cx0 : class D x0.

(** [isReduced] of the reducer also lets forms (a, -a, c) pass, which have order
    two and [bqfc_serialize] does not write canonically; this excludes them. *)
Hypothesis Full : forall f g, class D f -> reducer_reduce f = Ok g -> reduced g.

Variable fuel : nat.
Abbreviation right := (right C x0).
Abbreviation state_ok := (state_ok C x0 reduced).

(** The bytes of a finished proof are those of a proved segment. *)
Definition done_right (p : vdf_proof) : Prop := exists sg y z,
  start sg = p_iters p - p_seg_iters p /\ length_ sg = p_seg_iters p /\ proved_seg D x0 fuel sg /\
  SerializeForm (seg_y sg) (bitlen D) = Ok (p_y p, y) /\ SerializeForm (seg_proof sg) (bitlen D) = Ok (p_proof p, z) /\
  (is_req p = false -> exists B x1 y1, GetB fuel D (seg_x sg) (seg_y sg) = Ok (B, x1, y1) /\ p_B p = be_split 33 B).
Definition dones_right (q : hw_queue) : Prop := forall i p, at_ (proofs q) i p -> live p -> is_done p = true -> done_right p.

Lemma chkp_multiple ps N e : table_ok I ps N e -> forall n i p, i < Z.of_nat n -> at_ ps i p -> live p -> is_req p = false -> (I | p_iters p).
Proof.
  intros T. induction n as [|n IH]; intros i p Hi Hp L Rq; [pose proof (at_range _ _ _ Hp); lia|]. pose proof (live_entry I _ _ _ _ _ T Hp L) as E. destruct (e_chkp _ _ _ _ _ E Rq) as [_ Hd].
  destruct (e_link _ _ _ _ _ E) as [[_ ->]|[Hprev (q & Hq & Lq & Rq' & ->)]]; [exact Hd|]. apply Z.divide_add_r; [|exact Hd]. apply (IH (p_prev p) q); try assumption. lia.
Qed.

Lemma start_multiple ps N e i p : table_ok I ps N e -> at_ ps i p -> live p -> (I | p_iters p - p_seg_iters p) /\ 0 <= p_iters p - p_seg_iters p.
Proof.
  intros T Hp L. pose proof (live_entry I _ _ _ _ _ T Hp L) as E. destruct (e_link _ _ _ _ _ E) as [[_ ->]|[Hprev (q & Hq & Lq & Rq & ->)]].
  - rewrite Z.sub_diag. split; [apply Z.divide_0_r|lia].
  - replace (p_iters q + p_seg_iters p - p_seg_iters p) with (p_iters q) by ring. split; [apply (chkp_multiple ps N e T (S (Z.to_nat (p_prev p))) (p_prev p)); try assumption; lia|].
    pose proof (e_iters _ _ _ _ _ (live_entry I _ _ _ _ _ T Hq Lq)). lia.
Qed.

Lemma class_valid_ok n f : right n f -> check_valid f D = true.
Proof. intros P. unfold check_valid. apply Z.eqb_eq. exact (valid_disc _ _ (class_valid _ _ (pw_class D x0 Cx0 _ _ P))). Qed.

Lemma SquareFormN_reduced cnt : forall n z z', pw D x0 n z -> reduced z -> SquareFormN cnt z D (cL C) = Ok z' -> reduced z'.
Proof.
  induction cnt as [|cnt IH]; intros n z z' P Rz E; cbn [SquareFormN] in E; [injection E as <-; exact Rz|].
  destruct (pw_nudupl D (cL C) (cf_L C HC) x0 Cx0 _ _ P) as (z1 & E1 & P1). rewrite E1 in E. cbn [bind] in E.
  destruct (pw_reduce D x0 Cx0 _ z1 P1) as (z2 & E2 & P2). rewrite E2 in E. cbn [bind] in E. exact (IH _ z2 z' P2 (Full _ _ (pw_class D x0 Cx0 _ _ P1) E2) E).
Qed.

Lemma serialize_reduced f : class D f -> reduced f -> exists r s, bqfc_serialize (repeat 0 (Z.to_nat BQFC_FORM_SIZE)) (fa f) (fb f) (mpz_sizeinbase2 D) = Ok (r, s) /\
  SerializeForm f (bitlen D) = Ok (s, f).
Proof.
  intros Cf Rf. destruct (SerializeForm_ok D f (cf_disc C HC) Cf) as (s & f' & Es & Er & _). rewrite (reduce_id D f (class_valid _ _ Cf) Rf) in Er. injection Er as <-.
  pose proof Es as Es'. unfold SerializeForm in Es'. rewrite (reduce_id D f (class_valid _ _ Cf) Rf) in Es'. cbn [bind] in Es'. rewrite mpz_sizeinbase2_spec.
  destruct (bqfc_serialize (repeat 0 (Z.to_nat BQFC_FORM_SIZE)) (fa f) (fb f) (bitlen D)) as [[r s']|] eqn:E; cbn [bind] in Es'; [|discriminate]. injection Es' as ->. now exists r, s.
Qed.

Lemma wait_value_ok t s pos : sto s = t -> stored t pos -> hw_proof_wait_value s pos = Ok true.
Proof. intros <- H. unfold hw_proof_wait_value. unfold stored in H. now rewrite H. Qed.

Definition all_stored (s : vdf_state) (iters : Z) : Prop := forall pos, 0 <= pos -> pos * I <= iters -> stored (sto s) pos.

(** What the prover of a segment of stored values is given. *)
Lemma hw_task s a T x y : cfg s = C -> sto_ok C x0 reduced (sto s) -> (I | a) -> 0 <= a -> 0 <= T -> a + T <= target_iters C -> all_stored s (a + T) -> right a x -> class D y ->
  let '(p, off) := HwProver_make (Segment_make a T x y) s in
  segm p = Segment_make a T x y /\ pD p = D /\ num_iterations p = T /\ is_finished p = false /\ proof_task D x y T (pk p) (pl p) (Hw_GetForm s off).
Proof.
  intros Ec HS [m Em] Ha HT Hle Hst Px Cy. unfold HwProver_make. rewrite Ec. cbn [Segment_make length_ start]. pose proof (cf_interval C HC) as HI. pose proof (cf_target C HC) as HTg.
  destruct (FindK_ok I T H80) as [Hk [l Hl]]. set (k := FindK I T) in *. assert (Em' : a / I = m) by (rewrite Em; apply Z.div_mul; lia). assert (El : I / k = l) by (rewrite Hl; apply Z.div_mul; lia). rewrite Em', El.
  assert (Hm : 0 <= m < 2 ^ 32) by nia. unfold uwrap. rewrite (Z.mod_small m) by exact Hm. repeat (split; [reflexivity|]). cbn [Prover_make pk pl].
  pose proof (pw_class D x0 Cx0 _ _ Px) as Cx. split; try assumption; try lia; try nia; [apply (cf_disc C HC)|]. intros i Hi HiT. assert (Hkl : k * l = I) by lia. rewrite Hkl in *.
  assert (Hpos : (i + m) * I <= a + T) by nia. pose proof (Hst (i + m) ltac:(lia) Hpos) as Hs. unfold Hw_GetForm. rewrite u64_id by nia. rewrite (wait_value_ok _ s (i + m) eq_refl Hs). cbn [bind].
  exists (values (sto s) (i + m)). split; [reflexivity|]. destruct (v_right _ _ _ _ HS (i + m) (pos_range C HC (i + m) ltac:(lia) ltac:(lia)) Hs) as [P _].
  apply (Provers.stored_power D x0 Cx0 a); try assumption; [nia|]. unfold HwValues.right in P. now replace (a + I * i) with ((i + m) * I) by nia.
Qed.

Lemma compute_proof_ok N s idx e performs : state_ok N s -> at_ (proofs (queue s)) idx e -> live e -> p_iters e <= target_iters C -> all_stored s (p_iters e) ->
  performs = (never_stops, never_stops, true) ->
  or_GetB fuel D (compute_proof fuel performs e s) (fun r => exists ys ps B, r = Some (ys, ps, B) /\
    forall p, p_iters p = p_iters e -> p_seg_iters p = p_seg_iters e -> is_req p = is_req e -> p_y p = ys -> p_proof p = ps -> (is_req e = false -> p_B p = B) -> done_right p).
Proof.
  intros K He L Ht Hst ->. pose proof (q_table _ _ _ (k_queue _ _ _ _ _ K)) as T. pose proof (live_entry I _ _ _ _ _ T He L) as E. destruct (start_multiple _ _ _ _ _ T He L) as [Hd Ha].
  pose proof (e_seg _ _ _ _ _ E) as Hseg. set (a := p_iters e - p_seg_iters e) in *. set (Tg := p_seg_iters e) in *. pose proof (cf_interval C HC) as HI. pose proof (cf_target C HC) as HT. pose proof (k_sto _ _ _ _ _ K) as HS.
  assert (Hit : p_iters e = a + Tg) by (unfold a; lia). unfold compute_proof. rewrite (k_cfg _ _ _ _ _ K). fold Tg. fold a. rewrite (u64_id a) by lia. destruct Hd as [m Em]. assert (Em' : a / I = m) by (rewrite Em; apply Z.div_mul; lia). rewrite Em'.
  assert (Hm : 0 <= m) by nia. set (pos := p_iters e / I). assert (Hpos : 0 <= pos) by (apply Z.div_pos; lia). pose proof (Z.mul_div_le (p_iters e) I ltac:(lia)) as Hle. fold pos in Hle.
  pose proof (Hst m Hm ltac:(lia)) as S1. pose proof (Hst pos Hpos ltac:(lia)) as S2. rewrite (wait_value_ok _ s m eq_refl S1), (wait_value_ok _ s pos eq_refl S2). cbn [bind negb].
  destruct (v_right _ _ _ _ HS m (pos_range C HC m Hm ltac:(lia)) S1) as [Px Rx]. destruct (v_right _ _ _ _ HS pos (pos_range C HC pos Hpos ltac:(lia)) S2) as [Py0 Ry0].
  set (x := values (sto s) m) in *. set (y0 := values (sto s) pos) in *. rewrite <- Em in Px. rewrite (class_valid_ok _ _ Py0).
  destruct (SquareFormN_ok D (cL C) x0 (cf_L C HC) Cx0 (Z.to_nat (p_iters e - pos * I)) _ _ Py0) as (y & Ey & Py). rewrite Ey. cbn [bind]. pose proof (SquareFormN_reduced _ _ _ _ Py0 Ry0 Ey) as Ry.
  rewrite Z2Nat.id, <- Z.pow_add_r in Py by lia. replace (p_iters e - pos * I + pos * I) with (a + Tg) in Py by lia. rewrite (class_valid_ok _ _ Py). rewrite (u64_id (p_iters e - a)) by lia. replace (p_iters e - a) with Tg by lia.
  pose proof (pw_class D x0 Cx0 _ _ Px) as Cx. pose proof (pw_class D x0 Cx0 _ _ Py) as Cy.
  pose proof (hw_task s a Tg x y (k_cfg _ _ _ _ _ K) HS (ex_intro _ m Em) Ha Hseg ltac:(lia) ltac:(now rewrite <- Hit) Px Cy) as Htask. destruct (HwProver_make (Segment_make a Tg x y) s) as [p off].
  destruct Htask as (E1 & E2 & E3 & E4 & Htask). assert (Htask' : proof_task (pD p) (seg_x (segm p)) (seg_y (segm p)) (num_iterations p) (pk p) (pl p) (Hw_GetForm s off)) by (rewrite E1, E2, E3; exact Htask).
  pose proof (parallel_prover_helper (Hw_GetForm s off) never_stops never_stops true set_finished fuel p Htask') as HP. rewrite E1, E2, E3 in HP. cbn [Segment_make seg_x seg_y] in HP. unfold with_B in HP.
  specialize (HP ltac:(intros [[c Hc]|[c Hc]]; discriminate)). destruct (GetB fuel D x y) as [[[B x'] y']|err] eqn:EB; [|rewrite HP; cbn [bind or_GetB]; exists x, y; now split].
  destruct HP as [(z & z0 & Cz0 & Ez & Pz & ->)|[Hf _]]; [|discriminate]. cbn [bind]. change (IsFinished (set_finished (set_proof (set_segm p x' y') z))) with true. change (GetProof (set_finished (set_proof (set_segm p x' y') z))) with z. cbn [Segment_make length_].
  pose proof (pw_class D x Cx _ _ Pz) as Cz. pose proof (Full _ _ Cz0 Ez) as Rz. destruct (verify_weso_iff D (cf_disc C HC) fuel x y z Tg Cx Cy Cz Hseg B x' y' EB) as (b & -> & Hb). cbn [bind].
  destruct (GetB_ok fuel D x y B x' y' (cf_disc C HC) Cx Cy EB) as (_ & _ & _ & _ & _ & _ & HB & _). assert (HB0 : 0 < B) by (assert (0 < 2 ^ 263) by reflexivity; lia).
  assert (Pxy : pw D x (2 ^ Tg) y) by (apply (Provers.stored_power D x0 Cx0 a); assumption).
  rewrite (proj2 Hb) by (apply weso_complete; try assumption; [apply (cf_disc C HC)|apply Pxy|apply Pz]).
  destruct (serialize_reduced y Cy Ry) as (r1 & ys & -> & Eys). destruct (serialize_reduced z Cz Rz) as (r2 & ps & -> & Eps). cbn [bind].
  assert (HBs : exists Bs, (if is_req e then Ok [] else Ok (to_bytes B)) = Ok Bs /\ (is_req e = false -> Bs = be_split 33 B)).
  { destruct (is_req e); [now exists []|]. exists (to_bytes B). split; [reflexivity|]. intros _. now apply to_bytes_33. }
  destruct HBs as (Bs & HBs & HBe). rewrite HBs. cbn [bind or_GetB]. exists ys, ps, Bs. split; [reflexivity|]. intros q F1 F2 F3 F4 F5 F6.
  exists (mkSegment a Tg x y z false), y, z. cbn [start length_ seg_x seg_y seg_proof]. rewrite F1, F2, F3, F4, F5. split; [reflexivity|]. split; [reflexivity|]. split; [|split; [exact Eys|split; [exact Eps|]]].
  - split; [exact Ha|]. split; [exact Hseg|]. split; [exact Px|]. split; [exact Py|]. exists B, x', y'. now split.
  - intros Rq. exists B, x', y'. split; [exact EB|]. rewrite (F6 Rq). now apply HBe.
Qed.

(** *** The end of a proof's thread *)

Lemma threads_bound p : pool_ok C x0 p -> (length (threads p) <= 64)%nat.
Proof.
  intros P. rewrite <- (length_map t_idx). pose proof (cf_aux C HC) as Ha.
  transitivity (length (map Z.of_nat (seq 0 64))); [|now rewrite length_map, length_seq]. apply NoDup_incl_length; [apply (p_nodup _ _ _ P)|]. intros i Hi. apply in_map_iff in Hi as (th & <- & Hth).
  pose proof (p_range _ _ _ P) as HR. rewrite Forall_forall in HR. specialize (HR th Hth). apply in_map_iff. exists (Z.to_nat (t_idx th)). split; [lia|]. apply in_seq. lia.
Qed.

Lemma provings_length l : (length (provings l) <= length l)%nat.
Proof. induction l as [|th l IH]; [cbn; lia|]. change (th :: l) with ([th] ++ l). rewrite provings_app, !length_app. cbn [length]. destruct th as [i [w|c|idx]]; cbn; lia. Qed.

Lemma finish_flags e : live e -> is_started e = true -> let f := Z.lor (p_flags e) FLAG_DONE in
  forall p, p_flags p = f -> live p /\ is_req p = is_req e /\ is_started p = true /\ is_done p = true.
Proof.
  intros L S f p E. destruct (flags_or e FLAG_DONE L (or_intror eq_refl)) as (L' & FR & FS & FD). change (negb (FLAG_DONE =? FLAG_STARTED)) with true in FS. rewrite Bool.andb_true_r in FS.
  rewrite Z.eqb_refl in FD. cbn [negb] in FD. rewrite Bool.andb_false_r in FD. unfold live, has in *. rewrite E. unfold f. rewrite FR, FS, FD. split; [exact L'|now repeat split].
Qed.

Lemma finish_thread_ok N s k i idx e y proof B : state_ok N s -> dones_right (queue s) -> nth_error (threads (pol s)) k = Some (mkthread i (Proving idx)) -> at_ (proofs (queue s)) idx e -> live e -> is_started e = true ->
  (forall p, p_iters p = p_iters e -> p_seg_iters p = p_seg_iters e -> is_req p = is_req e -> p_y p = y -> p_proof p = proof -> (is_req e = false -> p_B p = B) -> done_right p) ->
  exists q, finish_proof idx y proof B (queue s) = Ok q /\ dones_right q /\ (exists p, at_ (proofs q) idx p /\ live p /\ is_done p = true) /\
    state_ok N (set_pol (mkpool (wq (pol s)) (wq_warn_thres (pol s)) (clear_busy (pol s) i) (u8 (n_proof_threads (pol s) - PARALLEL_PROVER_N_THREADS)) (done_iters (pol s)) (remove_nth k (threads (pol s)))) (set_queue q s)).
Proof.
  intros K HDn Ek He L S Hright. destruct (finish_proof_ok I (cf_interval C HC) N (queue s) idx e y proof B (k_queue _ _ _ _ _ K) He L S) as (q & Eq & Q & Ed & Eqq & Er & Ep). exists q. split; [exact Eq|].
  set (e' := mkproof _ _ _ _ _ _ _ _) in *. destruct (finish_flags e L S e' eq_refl) as (L' & R' & S' & D'). pose proof (at_range _ _ _ He) as Rk. pose proof (k_pool _ _ _ _ _ K) as P. pose proof (k_proving _ _ _ _ _ K) as GP.
  split.
  { intros j p Hp Lp Dp. rewrite Ep in Hp. apply at_put in Hp as [[-> ->]|[_ Hp]]; [|exact (HDn j p Hp Lp Dp)|exact Rk]. apply Hright; try reflexivity; [exact R'|]. intros Rq. cbn [e' p_B]. now rewrite Rq. }
  split; [exists e'; rewrite Ep; split; [apply at_put; [exact Rk|now left]|now split]|].
  destruct (split_nth _ _ _ (mkthread i (Proving idx)) Ek) as (l1 & l2 & El & _ & Erm). rewrite Erm. pose proof (threads_bound _ P) as HB. pose proof (provings_length (threads (pol s))) as HL. pose proof (p_count _ _ _ P) as Hc.
  assert (Epr : provings (threads (pol s)) = provings l1 ++ idx :: provings l2) by (rewrite El, provings_app; reflexivity).
  assert (Hn : u8 (n_proof_threads (pol s) - PARALLEL_PROVER_N_THREADS) = n_proof_threads (pol s) - 2).
  { unfold PARALLEL_PROVER_N_THREADS, uwrap. apply Z.mod_small. rewrite Epr, length_app in *. cbn [length] in *. lia. }
  rewrite Hn. set (p' := mkpool _ _ _ _ _ _).
  assert (P' : pool_ok C x0 p') by (apply (pool_remove C HC x0 (pol s) l1 (mkthread i (Proving idx)) l2); [exact P|exact El|cbn; lia]).
  assert (HM : covers_more C (sto s) (pol s) (sto s) p').
  { refine (covered_thread C _ _ _ _ l1 (mkthread i (Proving idx)) l2 _ El _ _ _ eq_refl _); [reflexivity|easy| |easy]. intros x Hx. cbn [p' threads]. apply in_or_app. tauto. }
  pose proof (g_nodup _ _ _ _ GP) as Hnd. rewrite Epr in Hnd. assert (Epr' : provings (threads p') = provings l1 ++ provings l2) by (unfold p'; cbn [threads]; apply provings_app).
  assert (Hni : ~ In idx (provings l1 ++ provings l2)) by (apply NoDup_remove_2 in Hnd; exact Hnd).
  assert (Hin : forall j, In j (provings (threads (pol s))) <-> In j (provings l1 ++ provings l2) \/ j = idx) by (intros j; rewrite Epr, !in_app_iff; cbn [In]; intuition congruence).
  assert (GP' : proving_ok C q (sto s) p').
  { split; rewrite ?Epr', ?Ep.
    - exact (NoDup_remove_1 _ _ _ Hnd).
    - intros j. split.
      + intros Hj. destruct (proj1 (g_in _ _ _ _ GP j) (proj2 (Hin j) (or_introl Hj))) as (e1 & He1 & H1). exists e1. split; [|exact H1]. apply at_put; [exact Rk|right; split; [|exact He1]]. intros ->. contradiction.
      + intros (e1 & He1 & L1 & S1 & D1). apply at_put in He1 as [[-> ->]|[Hne He1]]; [congruence| |exact Rk]. destruct (proj1 (Hin j)) as [Hj|Hj]; [apply (g_in _ _ _ _ GP); now exists e1|exact Hj|contradiction].
    - intros j e1 pos Hj He1 H0 Hp. apply HM; [exact H0|]. apply at_put in He1 as [[-> _]|[_ He1]]; [contradiction| |exact Rk]. apply (g_covered _ _ _ _ GP j e1); try assumption. apply Hin. now left.
    - intros j e1 Hj He1. apply at_put in He1 as [[-> _]|[_ He1]]; [contradiction| |exact Rk]. apply (g_target _ _ _ _ GP j e1); try assumption. apply Hin. now left.
    - intros j e1 He1 Le1 De1. apply at_put in He1 as [[-> ->]|[_ He1]]; [exact S'|exact (g_done _ _ _ _ GP j e1 He1 Le1 De1)|exact Rk]. }
  destruct K as [K1 K2 K3 K4 K5 K6 K7 K8 K9 K10]. split; cbn [set_pol set_queue cfg stopping inp sto pol queue]; try assumption. intros pos H0 Hp. now apply HM, K8.
Qed.

Lemma hw_compute_proof_ok N s k performs : state_ok N s -> dones_right (queue s) -> performs = (never_stops, never_stops, true) ->
  (forall i idx e, nth_error (threads (pol s)) k = Some (mkthread i (Proving idx)) -> at_ (proofs (queue s)) idx e -> all_stored s (p_iters e)) ->
  or_GetB fuel D (hw_compute_proof fuel performs k s) (fun s' => state_ok N s' /\ dones_right (queue s') /\
    forall i idx, nth_error (threads (pol s)) k = Some (mkthread i (Proving idx)) -> exists p, at_ (proofs (queue s')) idx p /\ live p /\ is_done p = true).
Proof.
  intros K HDn Hperf Hst. unfold hw_compute_proof. destruct (nth_error (threads (pol s)) k) as [[i [w|c|idx]]|] eqn:Ek; try (cbn [or_GetB]; split; [exact K|split; [exact HDn|discriminate]]).
  pose proof (k_proving _ _ _ _ _ K) as GP. assert (Hin : In idx (provings (threads (pol s)))).
  { apply in_flat_map. exists (mkthread i (Proving idx)). split; [exact (nth_error_In _ _ Ek)|now left]. }
  destruct (proj1 (g_in _ _ _ _ GP idx) Hin) as (e & He & L & S & _). rewrite (at_get _ _ _ He). cbn [bind].
  eapply or_GetB_bind; [apply (compute_proof_ok N s idx e performs K He L (g_target _ _ _ _ GP idx e Hin He) (Hst i idx e eq_refl He) Hperf)|]. intros r (ys & ps & Bs & -> & Hright).
  destruct (finish_thread_ok N s k i idx e ys ps Bs K HDn Ek He L S Hright) as (q & -> & HDq & Hdone & K'). cbn [bind].
  pose proof (p_range _ _ _ (k_pool _ _ _ _ _ K)) as HR. rewrite Forall_forall in HR. specialize (HR _ (nth_error_In _ _ Ek)). cbn [t_idx] in HR. rewrite (k_cfg _ _ _ _ _ K). destruct (Z.ltb_spec i (max_aux_threads C)); [|lia]. cbn [or_GetB]. split; [exact K'|]. split; [exact HDq|]. intros i' idx' [= <- <-]. exact Hdone.
Qed.

(** *** The client's other steps *)

Lemma restart_ok N s : state_ok N s -> exists f s' pos, restart s = Ok (f, s') /\ state_ok N s' /\ 0 <= pos /\ pos * I <= cur_iters (inp s) /\ right (pos * I) f /\ iters_offset (inp s') = pos * I /\
  queue s' = queue s.
Proof.
  intros K. unfold restart. destruct (last_good_form_ok C HC x0 reduced N s K) as (f & pos & s' & -> & K' & H0 & Hle & P & Ei & Eq & _). cbn [bind]. do 3 eexists. split; [reflexivity|].
  rewrite (k_cfg _ _ _ _ _ K'). pose proof (k_last _ _ _ _ _ K) as [Hl _]. rewrite <- (k_cur _ _ _ _ _ K) in Hl. pose proof (cf_target C HC). pose proof (cf_interval C HC).
  split; [apply state_inp; [exact K'|apply (k_last _ _ _ _ _ K')|apply (k_cur _ _ _ _ _ K')|apply (k_covered _ _ _ _ _ K')]|]. split; [exact H0|]. split; [exact Hle|]. split; [exact P|]. split; [|exact Eq].
  cbn [set_inp inp iters_offset]. apply u64_id. nia.
Qed.

Lemma state_queue N s q : state_ok N s -> hw_queue_ok I N q -> proofs q = proofs (queue s) -> state_ok N (set_queue q s).
Proof.
  intros [K1 K2 K3 K4 K5 K6 K7 K8 K9 K10] Q E. split; cbn [set_queue cfg stopping inp sto pol queue]; try assumption. destruct K10 as [G1 G2 G3 G4 G5]. split; rewrite ?E; assumption.
Qed.

Lemma state_request N s iters : state_ok N s -> 0 < iters < 2 ^ 56 -> state_ok N (set_queue (hw_request_proof iters false (queue s)) s).
Proof. intros K Hi. apply state_queue; [exact K|apply (request_ok I N _ iters (k_queue _ _ _ _ _ K) Hi)|reflexivity]. Qed.

Lemma state_retrieve N s : state_ok N s -> exists r q, hw_retrieve_proof (queue s) = Ok (r, q) /\ state_ok N (set_queue q s) /\ proofs q = proofs (queue s).
Proof.
  intros K. destruct (retrieve_total I N (queue s) (k_queue _ _ _ _ _ K)) as (r & q & E & Q). exists r, q. split; [exact E|]. assert (Ep : proofs q = proofs (queue s)).
  { unfold hw_retrieve_proof in E. apply bind_ok in E as (o & _ & E). destruct o as [[[cnt idx] d]|]; injection E as <- <-; reflexivity. }
  split; [now apply state_queue|exact Ep].
Qed.

Lemma dones_more q q' : dones_right q -> dones_kept q q' -> dones_right q'.
Proof.
  intros H HK i p Hp L Dn. destruct (HK i p Hp L Dn) as (p0 & Hp0 & L0 & D0 & E1 & E2 & E3 & E4 & E5 & E6). destruct (H i p0 Hp0 L0 D0) as (sg & y & z & F). exists sg, y, z. now rewrite E1, E2, E3, E4, E5, E6.
Qed.

Lemma values_turn_queue k s s' : values_turn k s = Ok s' -> queue s' = queue s.
Proof.
  unfold values_turn. destruct (nth_error (threads (pol s)) k) as [[i [w|c|idx]]|]; intros E; try (injection E as <-; reflexivity).
  - apply bind_ok in E as (c & _ & E). injection E as <-. reflexivity.
  - apply bind_ok in E as ([[c' it] t] & _ & E). destruct c'; injection E as <-; reflexivity.
Qed.

(** *** All histories *)

(** The states after [N] requests were processed: values come from the hardware,
    which is restarted when one is bad, requests from the timelord, threads
    advance by a turn of their loop, and the thread of a proof ends when the
    values that it waits for are there. *)
Inductive hw_reach (s0 : vdf_state) : Z -> vdf_state -> Prop :=
| hw_reach_init : hw_reach s0 0 s0
| hw_reach_value N s val r s' : hw_reach s0 N s -> reading_ok C x0 s val -> NoDup (asked (queue s)) ->
    N + Z.of_nat (turns I (length (asked (queue s))) (queue s)) < 2 ^ 16 - 1 ->
    Z.of_nat (length (proofs (queue s))) + 3 * Z.of_nat (turns I (length (asked (queue s))) (queue s)) < 2 ^ 16 - 1 ->
    hw_proof_add_value (length (asked (queue s))) val s = Ok (r, s') -> hw_reach s0 (N + Z.of_nat (turns I (length (asked (queue s))) (queue s))) s'
| hw_reach_restart N s f s' : hw_reach s0 N s -> restart s = Ok (f, s') -> hw_reach s0 N s'
| hw_reach_request N s iters : hw_reach s0 N s -> 0 < iters < 2 ^ 56 -> hw_reach s0 N (set_queue (hw_request_proof iters false (queue s)) s)
| hw_reach_values N s k s' : hw_reach s0 N s -> values_turn k s = Ok s' -> hw_reach s0 N s'
| hw_reach_proof N s k s' : hw_reach s0 N s ->
    (forall i idx e, nth_error (threads (pol s)) k = Some (mkthread i (Proving idx)) -> at_ (proofs (queue s)) idx e -> all_stored s (p_iters e)) ->
    hw_compute_proof fuel (never_stops, never_stops, true) k s = Ok s' -> hw_reach s0 N s'
| hw_reach_retrieve N s r q : hw_reach s0 N s -> hw_retrieve_proof (queue s) = Ok (r, q) -> hw_reach s0 N (set_queue q s).

Lemma hw_reach_ok s0 N s : state_ok 0 s0 -> dones_right (queue s0) -> hw_reach s0 N s -> state_ok N s /\ dones_right (queue s).
Proof.
  intros K0 D0. induction 1 as [|N s val r s' _ [K HD] HR Hnd HN Hl E|N s f s' _ [K HD] E|N s iters _ [K HD] Hi|N s k s' _ [K HD] E|N s k s' _ [K HD] Hst E|N s r q _ [K HD] E].
  - now split.
  - destruct (add_value_ok C HC x0 Cx0 reduced ltac:(auto) N (length (asked (queue s))) val s K HR Hnd (le_n _) HN Hl) as (r1 & s1 & E1 & K1 & _ & _ & Hk). rewrite E in E1. injection E1 as <- <-. split; [exact K1|exact (dones_more _ _ HD Hk)].
  - destruct (restart_ok N s K) as (f1 & s1 & pos & E1 & K1 & _ & _ & _ & _ & Eq). rewrite E in E1. injection E1 as <- <-. split; [exact K1|now rewrite Eq].
  - split; [now apply state_request|exact HD].
  - destruct (values_turn_ok C HC x0 Cx0 reduced Full N k s K) as (s1 & E1 & K1). rewrite E in E1. injection E1 as <-. split; [exact K1|now rewrite (values_turn_queue _ _ _ E)].
  - pose proof (hw_compute_proof_ok N s k _ K HD eq_refl Hst) as H. rewrite E in H. cbn [or_GetB] in H. destruct H as (K' & HD' & _). now split.
  - destruct (state_retrieve N s K) as (r1 & q1 & E1 & K1 & Ep). rewrite E in E1. injection E1 as <- <-. split; [exact K1|]. unfold dones_right. cbn [set_queue queue]. rewrite Ep. exact HD.
Qed.
End Proofs.

(** ** The start *)

Lemma init_valid n pos : (0 < n)%nat -> 0 <= pos -> value_valid (1 :: repeat 0 (n - 1)) pos = Ok true -> pos = 0.
Proof.
  intros Hn H0 H. unfold value_valid in H. pose proof (Z.div_mod pos 8 ltac:(lia)) as E. pose proof (Z.mod_pos_bound pos 8 ltac:(lia)) as B. pose proof (Z.div_pos pos 8 H0 ltac:(lia)) as Hd.
  destruct (Z.to_nat (pos / 8)) as [|m] eqn:Em; cbn [nth_error] in H.
  - assert (E0 : pos / 8 = 0) by lia. injection H as H. destruct (Z.eq_dec (pos mod 8) 0) as [E1|E1]; [lia|]. replace 1 with (2 ^ 0) in H by reflexivity. rewrite Z.pow2_bits_false in H by lia. discriminate.
  - destruct (nth_error (repeat 0 (n - 1)) m) as [b|] eqn:Eb; [|discriminate]. apply nth_error_In, repeat_spec in Eb. subst b. rewrite Z.testbit_0_l in H. discriminate.
Qed.

(** The start throws exactly when the pair that [bqfc_deserialize] leaves, whatever
    it returns, is no form of the discriminant. *)
Lemma init_result `{GL : GmpLaws} {R : FormReducer} {RL : FormReducerLaws R} opt_aux opt_proof D bs n : good_disc D ->
  let init := init_vdf_state opt_aux opt_proof D bs n in
  match bqfc_deserialize (repeat 0 100) (0, 0) D bs 100 1024 false with
  | Throw e => init = Throw e
  | Ok (_, (a, b)) =>
      if (0 <? a) && ((b * b - D) mod (4 * a) =? 0) then exists s, init = Ok s /\ cD (cfg s) = D /\ last_val (inp s) = mkvalue 0 a b
      else init = Throw runtime_error
  end.
Proof.
  intros HD init. unfold init, init_vdf_state. destruct (root_ok D HD) as (L & -> & _). cbn [bind]. change BQFC_FORM_SIZE with 100. change (Z.to_nat 100) with 100%nat. change BQFC_MAX_D_BITS with 1024.
  destruct (bqfc_deserialize _ _ _ _ _ _ _) as [[ret [a b]]|e]; cbn [bind]; [|reflexivity]. unfold hw_proof_get_form. cbn [v_a v_b].
  pose proof (from_abd_ok a b D (gd_neg _ HD)) as K. destruct (Z.ltb_spec 0 a); cbn [andb]; [destruct (Z.eqb_spec ((b * b - D) mod (4 * a)) 0) as [E0|E0]|].
  - destruct (from_abd a b D) as [f|e]; [|destruct K as (_ & [K|K]); [lia|contradiction]]. cbn [bind]. eexists. split; [reflexivity|]. now split.
  - destruct (from_abd a b D) as [f|e]; [now destruct K as (_ & K & _)|]. now destruct K as (-> & _).
  - destruct (from_abd a b D) as [f|e]; [lia|]. now destruct K as (-> & _).
Qed.

Lemma init_ok `{GL : GmpLaws} `{RL : FormReducerLaws} opt_aux opt_proof D bs n s : good_disc D -> 0 < n < 2 ^ 32 - 8000 -> 0 <= opt_aux <= 64 -> 0 <= opt_proof < 64 ->
  init_vdf_state opt_aux opt_proof D bs n = Ok s ->
  exists x, class D x /\ values (sto s) 0 = x /\ cD (cfg s) = D /\ interval (cfg s) = 4000 /\ n <= target_iters (cfg s) < n + 4000 /\ config_ok (cfg s) /\ state_ok (cfg s) x reduced 0 s /\ queue s = mkqueue [] [] [] [].
Proof.
  intros HD Hn Ha Hp E. unfold init_vdf_state, HW_VDF_VALUE_INTERVAL in E. rewrite (u64_id (n + 4000 - 1)) in E by lia. destruct (root_ok D HD) as (L & EL & HL). rewrite EL in E. cbn [bind] in E.
  set (tg := (n + 4000 - 1) / 4000 * 4000) in *. assert (Htg : n <= tg < n + 4000).
  { pose proof (Z.div_mod (n + 4000 - 1) 4000 ltac:(lia)). pose proof (Z.mod_pos_bound (n + 4000 - 1) 4000 ltac:(lia)). unfold tg. lia. }
  apply bind_ok in E as (r & _ & E). destruct r as [ret [a b]]; cbn beta iota zeta in E.
  set (last := mkvalue 0 a b) in *. apply bind_ok in E as (x & Ex & E).
  pose proof (from_abd_ok a b D (gd_neg _ HD)) as Hx. unfold hw_proof_get_form in Ex. cbn [v_a v_b last] in Ex. rewrite Ex in Hx. destruct Hx as (Ha0 & Hmod & Vx & Rx & Qx). pose proof (valid_class D x HD Vx) as Cx.
  set (valid := match Z.to_nat ((tg / 4000 + 1 + 7) / 8) with O => [] | S m => 1 :: repeat 0 m end) in *. injection E as <-.
  set (C := mkconfig _ _ _ _ _ _). assert (Htgm : tg / 4000 * 4000 = tg) by (unfold tg; rewrite Z.div_mul by lia; reflexivity). set (mx := tg / 4000) in *. assert (Hmx : 0 <= mx) by lia.
  pose proof (Z.div_mod (mx + 1 + 7) 8 ltac:(lia)) as M8. pose proof (Z.mod_pos_bound (mx + 1 + 7) 8 ltac:(lia)) as B8. assert (Hl : (0 < Z.to_nat ((mx + 1 + 7) / 8))%nat) by lia.
  assert (Evalid : valid = 1 :: repeat 0 (Z.to_nat ((mx + 1 + 7) / 8) - 1)) by (unfold valid; destruct (Z.to_nat ((mx + 1 + 7) / 8)) as [|m]; [lia|cbn [Nat.sub]; now rewrite Nat.sub_0_r]).
  assert (HC : config_ok C).
  { split; cbn [C cD cL interval target_iters max_aux_threads max_proof_threads]; try assumption; try lia; [exists mx; lia|destruct (Z.eqb_spec opt_aux 0); unfold HW_VDF_DEFAULT_MAX_AUX_THREADS; lia|].
    destruct (Z.eqb_spec opt_proof 0) as [_|]; [|lia]. set (ma := if opt_aux =? 0 then HW_VDF_DEFAULT_MAX_AUX_THREADS else opt_aux). assert (Hma : 1 <= ma <= 64) by (unfold ma; destruct (Z.eqb_spec opt_aux 0); unfold HW_VDF_DEFAULT_MAX_AUX_THREADS; lia).
    pose proof (Z.div_mod (ma + 7) 8 ltac:(lia)). pose proof (Z.mod_pos_bound (ma + 7) 8 ltac:(lia)). unfold uwrap. rewrite Z.mod_small by lia. lia. }
  destruct (value_at_eq 0 (mkstore 0 (fun _ => form_0) valid 1)) as [E1 E2]. cbn [values valid_values] in E1, E2.
  destruct (disc_identity D HD) as (e & _ & Hpe). assert (Px : pw D x (2 ^ 0) x) by exact (pw_1 D x Cx e Hpe).
  assert (H0 : value_valid valid 0 = Ok true) by (rewrite Evalid; reflexivity).
  assert (Hlast : value_right C x last).
  { split; [cbn; lia|]. exists (mkform a b ((b * b - D) / (4 * a))). split; [|now split]. unfold right. cbn [last v_iters cD C]. apply (pw_equiv D x 1 x); [exact Px|now symmetry]. }
  exists x. unfold store_form. cbn [sto cfg values queue]. rewrite E1, E2. split; [exact Cx|]. split; [apply set_at_eq|]. do 2 (split; [reflexivity|]). split; [exact Htg|]. split; [exact HC|]. split; [|reflexivity].
  split; cbn [cfg stopping inp sto pol queue cur_iters last_val]; try reflexivity; try assumption.
  - split; cbn [valid_values values].
    + rewrite Evalid. cbn [length]. rewrite repeat_length. unfold max_pos. cbn [C target_iters interval]. fold mx. lia.
    + rewrite Evalid. constructor; [split; lia|]. apply Forall_forall. intros y Hy. apply repeat_spec in Hy. subst y. split; lia.
    + intros pos Hpos Hs. unfold stored in Hs. cbn [valid_values] in Hs. rewrite Evalid in Hs. apply init_valid in Hs; [|exact Hl|lia]. subst pos. rewrite set_at_eq. split; [exact Px|exact Rx].
  - split; cbn [wq threads aux_threads_busy n_proof_threads map]; try constructor; try lia; try reflexivity. + intros Hb. rewrite Z.testbit_0_l in Hb. discriminate. + intros [].
  - intros pos Hp0 Hp1. cbn [last v_iters] in Hp1. change (interval C) with 4000 in Hp1. left. replace pos with 0 by lia. exact H0.
  - exact (hw_queue_ok_empty 4000 ltac:(lia)).
  - assert (Hnil : forall i p, ~ at_ [] i p) by (intros i p [_ Hf]; now destruct (Z.to_nat i)).
    split; cbn [threads provings flat_map proofs].
    + constructor.
    + intros idx. split; [intros []|]. intros (e0 & He & _). now elim (Hnil idx e0).
    + intros idx e0 pos [].
    + intros idx e0 [].
    + intros idx e0 He. now elim (Hnil idx e0).
Qed.

(** *** A computation of the client *)

(** [s] is reached from the start for [n] iterations of the form in [bs], after
    [N] processed requests; the reducer's output is reduced (see [Full]). *)
Record hw_run `{G : Gmp} `{R : FormReducer} `{Srt : StdSort} (D : Z) (bs : bytes) (n : Z) (fuel : nat) (N : Z) (s0 s : vdf_state) : Prop := {
  run_disc : good_disc D;
  run_full : forall f g, class D f -> reducer_reduce f = Ok g -> reduced g;
  run_iters : 0 < n < 2 ^ 32 - 8000;
  run_init : exists opt_aux opt_proof, 0 <= opt_aux <= 64 /\ 0 <= opt_proof < 64 /\ init_vdf_state opt_aux opt_proof D bs n = Ok s0;
  run_reach : hw_reach (cfg s0) (values (sto s0) 0) fuel s0 N s;
}.

Section Runs.
Context `{GL : GmpLaws} `{RL : FormReducerLaws} `{SrtL : StdSortLaws}.
Variables (D : Z) (bs : bytes) (n : Z) (fuel : nat) (N : Z) (s0 s : vdf_state).
Hypothesis Run : hw_run D bs n fuel N s0 s.

Lemma run_config : class D (values (sto s0) 0) /\ cD (cfg s0) = D /\ interval (cfg s0) = 4000 /\ n <= target_iters (cfg s0) < n + 4000 /\ config_ok (cfg s0) /\ (80 | interval (cfg s0)).
Proof.
  destruct (run_init _ _ _ _ _ _ _ Run) as (oa & op & Ha & Hp & E). destruct (init_ok oa op D bs n s0 (run_disc _ _ _ _ _ _ _ Run) (run_iters _ _ _ _ _ _ _ Run) Ha Hp E) as (x & Cx & -> & ED & EI & HT & HC & _).
  do 5 (split; [assumption|]). rewrite EI. exists 50. reflexivity.
Qed.

Lemma run_ok : state_ok (cfg s0) (values (sto s0) 0) reduced N s /\ dones_right (cfg s0) (values (sto s0) 0) fuel (queue s).
Proof.
  destruct (run_init _ _ _ _ _ _ _ Run) as (oa & op & Ha & Hp & E). destruct (init_ok oa op D bs n s0 (run_disc _ _ _ _ _ _ _ Run) (run_iters _ _ _ _ _ _ _ Run) Ha Hp E) as (x & Cx & Ex & ED & EI & HT & HC & K & Q).
  subst x. rewrite <- ED in Cx. pose proof (run_full _ _ _ _ _ _ _ Run) as Full. rewrite <- ED in Full. apply (hw_reach_ok (SrtL := SrtL) (cfg s0) HC ltac:(rewrite EI; now exists 50) _ Cx Full fuel s0); [exact K| |exact (run_reach _ _ _ _ _ _ _ Run)].
  intros i p [_ Hi]. rewrite Q in Hi. now destruct (Z.to_nat i).
Qed.
End Runs.

(** ** The properties *)



(** ** Witnesses *)

(** 8000 iterations of the form (2, 1, 6); a proof for 2 iterations is requested, and the value after 4 is in. *)
Definition bs_47 : bytes := 8 :: repeat 0 99.
Definition start_47 : vdf_state := match init_vdf_state (G := Ref.gmp) 0 0 (-47) bs_47 8000 with Ok s => s | Throw _ => vdf_47 end.
Definition request_47 : vdf_state := set_queue (hw_request_proof 2 false (queue start_47)) start_47.
Definition value_47 : vdf_state := match hw_proof_add_value (G := Ref.gmp) (Srt := insertion_sort) 1 (mkvalue 4 2 1) request_47 with Ok (_, s) => s | Throw _ => vdf_47 end.

Lemma run_47 fuel : hw_run (G := Ref.gmp) (R := vdf_new_reducer) (Srt := insertion_sort) (-47) bs_47 8000 fuel 1 start_47 value_47.
Proof.
  split.
  - exact good_disc_47.
  - intros f g Cf E. destruct (reduce_ok (-47) f (class_valid _ _ Cf)) as (g' & E' & Rg & _). unfold reducer_reduce, vdf_new_reducer in E. congruence.
  - lia.
  - exists 0, 0. split; [lia|]. split; [lia|]. vm_compute. reflexivity.
  - change 1 with (0 + Z.of_nat (turns (S0 := insertion_sort) 4000 (length (asked (queue request_47))) (queue request_47))).
    assert (E4 : interval (cfg start_47) = 4000) by (vm_compute; reflexivity). rewrite <- E4.
    refine (hw_reach_value _ _ _ _ 0 request_47 (mkvalue 4 2 1) 0 value_47 _ _ _ _ _ _).
    + apply (hw_reach_request _ _ _ _ 0 start_47 2 (hw_reach_init _ _ _ _)). lia.
    + split; [cbn; lia|]. split; [vm_compute; discriminate|]. split; [vm_compute; discriminate|]. intros f Df Ef1 Ef2. cbn [v_a v_b v_iters] in *.
      assert (Ef : f = mkform 2 1 6) by (assert (EC : cD (cfg start_47) = -47) by (vm_compute; reflexivity); rewrite EC in Df; destruct f as [a b c]; cbn [fa fb fc] in *; subst a b; unfold disc in Df; cbn [fa fb fc] in Df; f_equal; lia). subst f. apply pw_47; [vm_compute; split; discriminate || reflexivity|vm_compute; reflexivity].
    + vm_compute. repeat constructor. intros [].
    + vm_compute. reflexivity.
    + vm_compute. reflexivity.
    + vm_compute. reflexivity.
Qed.


