(* ===== verification/HwDriver.v ===== *)
(** [src/src/hw/vdf_driver.cpp], [src/src/hw/chia_driver.cpp] and the jobs of
    [src/src/hw/hw_interface.cpp]: numbers as the registers of the ASIC hold them, in
    coefficients of 16 bits with 3 redundant ones, and the jobs made of them. *)
From S2P Require Import Prelude Words NumTheory Gmp QuadForm FormClass Integer Forms Bqfc ProofCommon HwValues.

(** ** Registers *)

Definition WORD_BITS : Z := 16.
Definition REDUNDANT_BITS : Z := 19.
Definition REG_BITS : Z := 32.
Definition REG_BYTES : Z := 4.

(** GMP's [mpz_get_ui]: the low 64 bits of |x|. *)
Definition mpz_get_ui (x : Z) : Z := u64 (Z.abs x).

(** Bytes at [offset] of a buffer. *)
Definition poke (buf : bytes) (offset : Z) (bs : bytes) : res bytes :=
  if (0 <=? offset) && (offset + Z.of_nat (length bs) <=? Z.of_nat (length buf))
  then Ok (firstn (Z.to_nat offset) buf ++ bs ++ skipn (Z.to_nat offset + length bs) buf) else Throw undefined_behaviour.
Definition peek (buf : bytes) (offset n : Z) : res bytes :=
  if (0 <=? offset) && (offset + n <=? Z.of_nat (length buf)) then Ok (firstn (Z.to_nat n) (skipn (Z.to_nat offset) buf)) else Throw undefined_behaviour.

(** [write_bytes] and [read_bytes] of a [uint32_t]: big endian; of a
    [uint64_t]: the low register first. *)
Definition write_u32 (offset : Z) (buf : bytes) (val : Z) : res bytes := poke buf offset (be_split 4 val).
Definition read_u32 (offset : Z) (buf : bytes) : res Z := p <- peek buf offset REG_BYTES ;; Ok (be_combine p).
Definition write_u64 (offset : Z) (buf : bytes) (val : Z) : res bytes :=
  buf <- write_u32 offset buf (u32 val) ;;
  write_u32 (offset + REG_BYTES) buf (u32 (Z.shiftr val REG_BITS)).
Definition read_u64 (offset : Z) (buf : bytes) : res Z :=
  lo <- read_u32 offset buf ;;
  hi <- read_u32 (offset + REG_BYTES) buf ;;
  Ok (Z.lor lo (u64 (Z.shiftl hi REG_BITS))).

(** The coefficients of [write_bytes] of an [mpz_t]: all but the last are masked. *)
Fixpoint coeffs (n : nat) (tmp : Z) : list Z :=
  match n with
  | O => [u32 (mpz_get_ui tmp)]
  | S n => u32 (Z.land (mpz_get_ui tmp) (2 ^ WORD_BITS - 1)) :: coeffs n (Z.quot tmp (2 ^ WORD_BITS))
  end.
Definition pack (bits : Z) (l : list Z) : Z := fold_right (fun c tmp => tmp * 2 ^ bits + c) 0 l.

(** [count] registers, the low one first. *)
Fixpoint write_regs (count : nat) (offset : Z) (buf : bytes) (tmp : Z) : res bytes :=
  match count with
  | O => Ok buf
  | S count =>
      buf <- write_u32 offset buf (u32 (Z.land (mpz_get_ui tmp) (2 ^ REG_BITS - 1))) ;;
      write_regs count (offset + REG_BYTES) buf (Z.quot tmp (2 ^ REG_BITS))
  end.
Definition write_mpz (size offset : Z) (buf : bytes) (val : Z) (num_coeffs : nat) : res bytes :=
  let val := if val <? 0 then 2 ^ (Z.of_nat num_coeffs * WORD_BITS + REDUNDANT_BITS) - (- val) else val in
  let tmp := pack REDUNDANT_BITS (coeffs (num_coeffs - 1) val) in
  buf <- poke buf offset (repeat 0 (Z.to_nat size)) ;;
  require size mod REG_BYTES =? 0 else assertion_failed ;;
  write_regs (Z.to_nat (size / REG_BYTES)) offset buf tmp.

Fixpoint read_words (count : nat) (offset : Z) (buf : bytes) : res (list Z) :=
  match count with
  | O => Ok []
  | S count =>
      w <- read_u32 offset buf ;;
      ws <- read_words count (offset + REG_BYTES) buf ;;
      Ok (w :: ws)
  end.

(** The loop over the coefficients, signed ones of 19 bits. *)
Fixpoint unpack (n : nat) (i tmp val : Z) : Z :=
  match n with
  | O => val
  | S n =>
      if tmp =? 0 then val
      else
        let coeff := u32 (Z.land (mpz_get_ui tmp) (2 ^ REDUNDANT_BITS - 1)) in
        let val := if negb (Z.shiftr coeff (REDUNDANT_BITS - 1) =? 0) then val - (2 ^ REDUNDANT_BITS - coeff) * 2 ^ (WORD_BITS * i)
                   else val + coeff * 2 ^ (WORD_BITS * i) in
        unpack n (i + 1) (Z.quot tmp (2 ^ REDUNDANT_BITS)) val
  end.
Definition read_mpz (size offset : Z) (buf : bytes) (num_coeffs : nat) : res Z :=
  words <- read_words (Z.to_nat ((size + REG_BYTES - 1) / REG_BYTES)) offset buf ;;
  Ok (unpack num_coeffs 0 (pack REG_BITS words) 0).

(** ** Jobs *)

Definition NUM_1X_COEFFS : nat := 18.
Definition NUM_2X_COEFFS : nat := 34.
Definition NUM_4X_COEFFS : nat := 68.
Definition CHIA_VDF_CMD_A_MULTIREG_COUNT : Z := 21.
Definition CHIA_VDF_CMD_F_MULTIREG_COUNT : Z := 21.
Definition CHIA_VDF_CMD_D_MULTIREG_COUNT : Z := 41.
Definition CHIA_VDF_CMD_L_MULTIREG_COUNT : Z := 11.
Definition CHIA_VDF_STATUS_A_MULTIREG_COUNT : Z := 21.
Definition CHIA_VDF_STATUS_F_MULTIREG_COUNT : Z := 21.
Definition CHIA_VDF_JOB_SIZE : Z := 0x101184 - 0x101000 + REG_BYTES.

Definition SerializeJob (buf : bytes) (job_id iteration_count a f d l : Z) : res bytes :=
  let reg_size := REG_BYTES in
  let offset := 0 in
  buf <- write_u32 offset buf job_id ;;
  let offset := offset + reg_size in
  buf <- write_u64 offset buf iteration_count ;;
  let offset := offset + 2 * reg_size in
  buf <- write_mpz (reg_size * CHIA_VDF_CMD_A_MULTIREG_COUNT) offset buf a NUM_2X_COEFFS ;;
  let offset := offset + reg_size * CHIA_VDF_CMD_A_MULTIREG_COUNT in
  buf <- write_mpz (reg_size * CHIA_VDF_CMD_F_MULTIREG_COUNT) offset buf f NUM_2X_COEFFS ;;
  let offset := offset + reg_size * CHIA_VDF_CMD_F_MULTIREG_COUNT in
  buf <- write_mpz (reg_size * CHIA_VDF_CMD_D_MULTIREG_COUNT) offset buf d NUM_4X_COEFFS ;;
  let offset := offset + reg_size * CHIA_VDF_CMD_D_MULTIREG_COUNT in
  buf <- write_mpz (reg_size * CHIA_VDF_CMD_L_MULTIREG_COUNT) offset buf l NUM_1X_COEFFS ;;
  let offset := offset + reg_size * CHIA_VDF_CMD_L_MULTIREG_COUNT in
  write_u32 offset buf 0x1.

(** The job id and the value that the status registers hold. *)
Definition DeserializeJob (buf : bytes) : res (Z * vdf_value) :=
  let reg_size := REG_BYTES in
  let offset := 0 in
  job_id <- read_u32 offset buf ;;
  let offset := offset + reg_size in
  iteration_count <- read_u64 offset buf ;;
  let offset := offset + 2 * reg_size in
  a <- read_mpz (reg_size * CHIA_VDF_STATUS_A_MULTIREG_COUNT) offset buf NUM_2X_COEFFS ;;
  let offset := offset + reg_size * CHIA_VDF_STATUS_A_MULTIREG_COUNT in
  f <- read_mpz (reg_size * CHIA_VDF_STATUS_F_MULTIREG_COUNT) offset buf NUM_2X_COEFFS ;;
  Ok (job_id, mkvalue iteration_count a f).

(** [buf] is not initialised. *)
Definition prepare_job `{G : Gmp} (n_iters : Z) (buf : bytes) (d a b : Z) : res bytes :=
  SerializeJob buf 0xab n_iters a b d (mpz_root (- d) 4).

(** ** The engines *)

Definition N_HW_VDFS : nat := 3.
Definition HW_VDF_STATUS_SIZE : Z := 0xb4.
Definition HW_VDF_TEMP_FLAG : Z := Z.shiftl 1 3.
Definition CHIA_VDF_CONTROL_REG_OFFSET : Z := 0x100000.
Definition CHIA_VDF_STATUS_JOB_ID_REG_OFFSET : Z := 0x102000.
Definition CHIA_VDF_JOB_CSR_MULT : Z := 0x10000.
Definition CHIA_VDF_JOB_ID_OFFSET : Z := 0x1000.

(** What is sent to the ASIC. *)
Inductive transfer : Type :=
| RegWrite (addr data : Z)
| Write (addr : Z) (data : bytes).

Definition EnableEngine (control_csr : Z) : list transfer := [RegWrite control_csr 0; RegWrite control_csr 0x01].
Definition DisableEngine (control_csr : Z) : list transfer := [RegWrite control_csr 0; RegWrite control_csr 0x10].

Definition start_hw_vdf `{G : Gmp} (job : bytes) (d a b n_iters : Z) (idx : Z) : res (list transfer) :=
  let base_addr := CHIA_VDF_CONTROL_REG_OFFSET + CHIA_VDF_JOB_CSR_MULT * idx in
  job <- prepare_job n_iters job d a b ;;
  Ok (EnableEngine base_addr ++ [Write (base_addr + CHIA_VDF_JOB_ID_OFFSET) job]).
Definition stop_hw_vdf (idx : Z) : list transfer := DisableEngine (CHIA_VDF_CONTROL_REG_OFFSET + CHIA_VDF_JOB_CSR_MULT * idx).

(** The loop over the VDFs from [i] on; [Read] gives the bytes of the
    registers, the status of VDF 0 behind the 20 bytes of the sensors. *)
Fixpoint read_status (Read : Z -> Z -> bytes) (idx_mask : Z) (i : Z) (values : list vdf_value) : res (list vdf_value) :=
  match values with
  | [] => Ok []
  | val :: rest =>
      let job := if (i =? 0) && negb (Z.land idx_mask (Z.lor HW_VDF_TEMP_FLAG (Z.shiftl 1 i)) =? 0) then skipn 20 (Read 0x300000 (HW_VDF_STATUS_SIZE + 20))
                 else Read (CHIA_VDF_STATUS_JOB_ID_REG_OFFSET + 0x10000 * i) HW_VDF_STATUS_SIZE in
      val <- (if negb (Z.land idx_mask (Z.shiftl 1 i) =? 0) then ' (_, val) <- DeserializeJob job ;; Ok val else Ok val) ;;
      rest <- read_status Read idx_mask (i + 1) rest ;;
      Ok (val :: rest)
  end.
Definition read_hw_status (Read : Z -> Z -> bytes) (idx_mask : Z) (values : list vdf_value) : res (list vdf_value) := read_status Read idx_mask 0 (firstn N_HW_VDFS values).

(** ** Writing and reading in order *)

Lemma poke_next done rest bs : (length bs <= length rest)%nat -> poke (done ++ rest) (Z.of_nat (length done)) bs = Ok ((done ++ bs) ++ skipn (length bs) rest).
Proof.
  intros H. unfold poke. rewrite length_app. destruct (Z.leb_spec 0 (Z.of_nat (length done))); [|lia]. destruct (Z.leb_spec (Z.of_nat (length done) + Z.of_nat (length bs)) (Z.of_nat (length done + length rest))); [|lia]. cbn [andb].
  rewrite Nat2Z.id, firstn_app, firstn_all, Nat.sub_diag. cbn [firstn]. rewrite app_nil_r, skipn_app, skipn_all2 by lia. replace (length done + length bs - length done)%nat with (length bs) by lia. now rewrite <- app_assoc.
Qed.

Lemma peek_next done bs rest n : n = Z.of_nat (length bs) -> peek (done ++ bs ++ rest) (Z.of_nat (length done)) n = Ok bs.
Proof.
  intros ->. unfold peek. rewrite !length_app. destruct (Z.leb_spec 0 (Z.of_nat (length done))); [|lia]. destruct (Z.leb_spec (Z.of_nat (length done) + Z.of_nat (length bs)) (Z.of_nat (length done + (length bs + length rest)))); [|lia]. cbn [andb].
  rewrite !Nat2Z.id, skipn_app, skipn_all, Nat.sub_diag. cbn [skipn app]. rewrite firstn_app, firstn_all, Nat.sub_diag. cbn [firstn]. now rewrite app_nil_r.
Qed.

Lemma read_u32_next done w rest : 0 <= w < 2 ^ 32 -> read_u32 (Z.of_nat (length done)) (done ++ be_split 4 w ++ rest) = Ok w.
Proof. intros H. unfold read_u32. rewrite peek_next by (rewrite be_split_length; reflexivity). cbn [bind]. now rewrite be_combine_split. Qed.

Lemma write_u32_next done rest w : (4 <= length rest)%nat -> write_u32 (Z.of_nat (length done)) (done ++ rest) w = Ok ((done ++ be_split 4 w) ++ skipn 4 rest).
Proof. intros H. unfold write_u32. rewrite poke_next by (rewrite be_split_length; exact H). now rewrite be_split_length. Qed.

Lemma mod_pow_mod a m n : 0 <= n <= m -> (a mod 2 ^ m) mod 2 ^ n = a mod 2 ^ n.
Proof. intros H. apply Z.mod_mod_divide. exists (2 ^ (m - n)). rewrite <- Z.pow_add_r by lia. f_equal. lia. Qed.

(** The registers of a number. *)
Fixpoint words (k : nat) (t : Z) : list Z := match k with O => [] | S k => t mod 2 ^ 32 :: words k (t / 2 ^ 32) end.
Definition regs (k : nat) (t : Z) : bytes := flat_map (be_split 4) (words k t).

Lemma regs_length k : forall t, length (regs k t) = (4 * k)%nat.
Proof. unfold regs. induction k as [|k IH]; intros t; cbn [words flat_map]; [reflexivity|]. rewrite length_app, be_split_length, IH. lia. Qed.

Lemma reg_word t : 0 <= t -> u32 (Z.land (mpz_get_ui t) (2 ^ REG_BITS - 1)) = t mod 2 ^ 32.
Proof.
  intros H. unfold mpz_get_ui, REG_BITS, uwrap. rewrite Z.abs_eq by exact H. replace (2 ^ 32 - 1) with (Z.ones 32) by reflexivity. rewrite Z.land_ones by lia.
  now rewrite Z.mod_mod, mod_pow_mod by lia.
Qed.

Lemma write_regs_next k : forall done rest t, 0 <= t -> (4 * k <= length rest)%nat -> write_regs k (Z.of_nat (length done)) (done ++ rest) t = Ok ((done ++ regs k t) ++ skipn (4 * k) rest).
Proof.
  induction k as [|k IH]; intros done rest t Ht Hl; cbn [write_regs]; [cbn; now rewrite app_nil_r|]. rewrite reg_word by exact Ht. rewrite write_u32_next by lia. cbn [bind].
  replace (Z.of_nat (length done) + REG_BYTES) with (Z.of_nat (length (done ++ be_split 4 (t mod 2 ^ 32)))) by (rewrite length_app, be_split_length; unfold REG_BYTES; lia).
  rewrite Z.quot_div_nonneg by (unfold REG_BITS; lia). rewrite IH; [|apply Z.div_pos; unfold REG_BITS; lia|rewrite length_skipn; lia]. unfold regs. cbn [words flat_map]. rewrite skipn_skipn, <- !app_assoc. do 3 f_equal. f_equal. f_equal. lia.
Qed.

Lemma read_words_next k : forall done rest t, read_words k (Z.of_nat (length done)) (done ++ regs k t ++ rest) = Ok (words k t).
Proof.
  induction k as [|k IH]; intros done rest t; cbn [read_words]; [reflexivity|]. unfold regs. cbn [words flat_map]. rewrite <- (app_assoc (be_split 4 _)). rewrite read_u32_next by (apply Z.mod_pos_bound; lia). cbn [bind].
  replace (Z.of_nat (length done) + REG_BYTES) with (Z.of_nat (length (done ++ be_split 4 (t mod 2 ^ 32)))) by (rewrite length_app, be_split_length; unfold REG_BYTES; lia).
  rewrite app_assoc. fold (regs k (t / 2 ^ 32)). now rewrite IH.
Qed.

Lemma pack_words k : forall t, 0 <= t -> pack REG_BITS (words k t) = t mod 2 ^ (32 * Z.of_nat k).
Proof.
  unfold pack, REG_BITS. induction k as [|k IH]; intros t Ht; cbn [words fold_right]; [now rewrite Z.mod_1_r|]. rewrite IH by (apply Z.div_pos; lia).
  replace (32 * Z.of_nat (S k)) with (32 + 32 * Z.of_nat k) by lia. rewrite Z.pow_add_r by lia. rewrite Z.rem_mul_r by lia. lia.
Qed.

(** ** The coefficients *)

(** What the coefficients of [w] stand for: the last one is a signed number of 19 bits. *)
Fixpoint decoded (n : nat) (w : Z) : Z :=
  match n with
  | O => let c := w mod 2 ^ 32 mod 2 ^ 19 in if 2 ^ 18 <=? c then c - 2 ^ 19 else c
  | S n => w mod 2 ^ 16 + 2 ^ 16 * decoded n (w / 2 ^ 16)
  end.

Lemma decoded_ok n : forall v, - 2 ^ (16 * Z.of_nat n + 18) <= v < 2 ^ (16 * Z.of_nat n + 18) -> decoded n (v mod 2 ^ (16 * (Z.of_nat n + 1) + 19)) = v.
Proof.
  induction n as [|n IH]; intros v Hv; cbn [decoded].
  - change (16 * Z.of_nat 0 + 18) with 18 in Hv. change (16 * (Z.of_nat 0 + 1) + 19) with 35. rewrite !mod_pow_mod by lia.
    destruct (Z.lt_ge_cases v 0).
    + rewrite <- (Z.mod_add v 1 (2 ^ 19)), Z.mod_small by lia. destruct (Z.leb_spec (2 ^ 18) (v + 1 * 2 ^ 19)); lia.
    + rewrite Z.mod_small by lia. destruct (Z.leb_spec (2 ^ 18) v); lia.
  - replace (16 * (Z.of_nat (S n) + 1) + 19) with (16 + (16 * (Z.of_nat n + 1) + 19)) by lia. rewrite Z.pow_add_r by lia. set (M := 2 ^ (16 * (Z.of_nat n + 1) + 19)).
    assert (HM : 0 < M) by (apply Z.pow_pos_nonneg; lia). rewrite Z.rem_mul_r by lia. rewrite (Z.mul_comm (2 ^ 16) (_ mod M)). rewrite Z.mod_add, Z.mod_mod by lia.
    rewrite Z.div_add, (Z.div_small (v mod 2 ^ 16)), Z.add_0_l by (try lia; apply Z.mod_pos_bound; lia). unfold M. rewrite IH.
    + pose proof (Z.div_mod v (2 ^ 16) ltac:(lia)). lia.
    + replace (16 * Z.of_nat (S n) + 18) with (16 + (16 * Z.of_nat n + 18)) in Hv by lia. rewrite Z.pow_add_r in Hv by lia. split; [apply Z.div_le_lower_bound; lia|apply Z.div_lt_upper_bound; lia].
Qed.

Lemma coeffs_nonneg n : forall w, Forall (fun c => 0 <= c < 2 ^ 32) (coeffs n w).
Proof. induction n as [|n IH]; intros w; cbn [coeffs]; constructor; try apply uwrap_range; try lia; [constructor|apply IH]. Qed.

Lemma pack_nonneg l : Forall (fun c => 0 <= c < 2 ^ 32) l -> 0 <= pack REDUNDANT_BITS l.
Proof. unfold pack, REDUNDANT_BITS. induction 1 as [|c l Hc _ IH]; cbn [fold_right]; lia. Qed.

Lemma unpack_0 n i val : unpack n i 0 val = val.
Proof. destruct n; reflexivity. Qed.

(** One turn of the loop over the coefficients. *)
Lemma unpack_turn n i c T val : 0 <= c < 2 ^ 19 -> 0 <= T -> unpack (S n) i (c + T * 2 ^ 19) val =
  unpack n (i + 1) T (val + (if 2 ^ 18 <=? c then c - 2 ^ 19 else c) * 2 ^ (16 * i)).
Proof.
  intros Hc HT. cbn [unpack]. unfold REDUNDANT_BITS, WORD_BITS. destruct (Z.eqb_spec (c + T * 2 ^ 19) 0) as [E|E].
  - assert (T = 0) as -> by lia. assert (c = 0) as -> by lia. rewrite unpack_0. cbn. lia.
  - assert (Ec : u32 (Z.land (mpz_get_ui (c + T * 2 ^ 19)) (2 ^ 19 - 1)) = c).
    { unfold mpz_get_ui, uwrap. rewrite Z.abs_eq by lia. replace (2 ^ 19 - 1) with (Z.ones 19) by reflexivity. rewrite Z.land_ones by lia. rewrite (mod_pow_mod _ 64 19) by lia.
      rewrite Z.mod_add, (Z.mod_small c) by lia. apply Z.mod_small. lia. }
    rewrite Ec. rewrite Z.quot_div_nonneg by lia. rewrite Z.div_add, (Z.div_small c), Z.add_0_l by lia. f_equal. rewrite Z.shiftr_div_pow2 by lia. change (19 - 1) with 18.
    destruct (Z.leb_spec (2 ^ 18) c); destruct (Z.eqb_spec (c / 2 ^ 18) 0) as [E0|E0]; cbn [negb]; try lia.
    + assert (1 <= c / 2 ^ 18) by (apply Z.div_le_lower_bound; lia). lia.
    + rewrite Z.div_small in E0 by lia. lia.
Qed.

Lemma unpack_pack n : forall i w val K, 0 <= w -> 0 <= i -> 19 * (Z.of_nat n + 1) <= K ->
  unpack (S n) i (pack REDUNDANT_BITS (coeffs n w) mod 2 ^ K) val = val + 2 ^ (16 * i) * decoded n w.
Proof.
  induction n as [|n IH]; intros i w val K Hw Hi HK.
  - cbn [coeffs pack fold_right decoded]. rewrite Z.mul_0_l, Z.add_0_l. unfold mpz_get_ui. rewrite Z.abs_eq by exact Hw. set (c := u32 (u64 w)).
    assert (Ec : c = w mod 2 ^ 32) by (unfold c, uwrap; now rewrite mod_pow_mod by lia).
    replace K with (19 + (K - 19)) by lia. rewrite Z.pow_add_r, Z.rem_mul_r by (try lia; apply Z.pow_pos_nonneg; lia). rewrite (Z.mul_comm (2 ^ 19)).
    rewrite unpack_turn; [|apply Z.mod_pos_bound; lia|apply Z.mod_pos_bound; apply Z.pow_pos_nonneg; lia]. cbn [unpack]. rewrite Ec. cbv zeta. ring.
  - cbn [coeffs]. unfold pack. cbn [fold_right]. fold (pack REDUNDANT_BITS (coeffs n (Z.quot w (2 ^ WORD_BITS)))). unfold WORD_BITS. rewrite Z.quot_div_nonneg by lia. set (T := pack _ _).
    assert (HT : 0 <= T) by apply pack_nonneg, coeffs_nonneg.
    assert (Ec : u32 (Z.land (mpz_get_ui w) (2 ^ 16 - 1)) = w mod 2 ^ 16).
    { unfold mpz_get_ui, uwrap. rewrite Z.abs_eq by exact Hw. replace (2 ^ 16 - 1) with (Z.ones 16) by reflexivity. rewrite Z.land_ones by lia. rewrite (mod_pow_mod _ 64 16) by lia.
      apply Z.mod_small. pose proof (Z.mod_pos_bound w (2 ^ 16) ltac:(lia)). lia. }
    rewrite Ec. unfold REDUNDANT_BITS. pose proof (Z.mod_pos_bound w (2 ^ 16) ltac:(lia)) as Hc. set (c := w mod 2 ^ 16) in *.
    replace K with (19 + (K - 19)) by lia. rewrite Z.pow_add_r, Z.rem_mul_r by (try lia; apply Z.pow_pos_nonneg; lia). rewrite (Z.add_comm (T * 2 ^ 19)), Z.mod_add, (Z.mod_small c), Z.div_add, (Z.div_small c), Z.add_0_l by lia.
    rewrite (Z.mul_comm (2 ^ 19)). rewrite unpack_turn; [|lia|apply Z.mod_pos_bound; apply Z.pow_pos_nonneg; lia]. destruct (Z.leb_spec (2 ^ 18) c); [lia|].
    unfold T. rewrite IH by (try apply Z.div_pos; lia). cbn [decoded]. fold c. replace (16 * (i + 1)) with (16 * i + 16) by ring. rewrite Z.pow_add_r by lia. ring.
Qed.

(** ** A number in its registers *)

(** The numbers that [n] coefficients hold. *)
Definition fits (n : nat) (v : Z) : Prop := - 2 ^ (16 * (Z.of_nat n - 1) + 18) <= v < 2 ^ (16 * (Z.of_nat n - 1) + 18).
Definition packed (n : nat) (v : Z) : Z := pack REDUNDANT_BITS (coeffs (n - 1) (v mod 2 ^ (16 * Z.of_nat n + 19))).

Lemma write_mpz_next size k n done rest v : size = 4 * Z.of_nat k -> (1 <= n)%nat -> fits n v -> (4 * k <= length rest)%nat ->
  write_mpz size (Z.of_nat (length done)) (done ++ rest) v n = Ok ((done ++ regs k (packed n v)) ++ skipn (4 * k) rest).
Proof.
  intros -> Hn Hv Hr. unfold write_mpz, WORD_BITS. unfold fits in Hv. assert (HB : 2 ^ (16 * (Z.of_nat n - 1) + 18) < 2 ^ (16 * Z.of_nat n + 19)) by (apply Z.pow_lt_mono_r; lia).
  assert (Ev : (if v <? 0 then 2 ^ (Z.of_nat n * 16 + REDUNDANT_BITS) - - v else v) = v mod 2 ^ (16 * Z.of_nat n + 19)).
  { unfold REDUNDANT_BITS. rewrite (Z.mul_comm (Z.of_nat n)). destruct (Z.ltb_spec v 0); [rewrite <- (Z.mod_add v 1), Z.mod_small by lia; ring|now rewrite Z.mod_small by lia]. }
  rewrite Ev. fold (packed n v). replace (Z.to_nat (4 * Z.of_nat k)) with (4 * k)%nat by lia. rewrite poke_next by (rewrite repeat_length; exact Hr). cbn [bind]. unfold REG_BYTES. rewrite (Z.mul_comm 4), Z.mod_mul, Z.div_mul by lia. cbn [Z.eqb negb].
  rewrite Nat2Z.id, <- app_assoc, write_regs_next; [|apply pack_nonneg, coeffs_nonneg|rewrite length_app, repeat_length; lia]. do 2 f_equal. rewrite skipn_app, skipn_all2 by (rewrite repeat_length; lia). rewrite !repeat_length, Nat.sub_diag. reflexivity.
Qed.

Lemma read_mpz_next size k n done rest v : size = 4 * Z.of_nat k -> (1 <= n)%nat -> fits n v -> 19 * Z.of_nat n <= 32 * Z.of_nat k ->
  read_mpz size (Z.of_nat (length done)) (done ++ regs k (packed n v) ++ rest) n = Ok v.
Proof.
  intros -> Hn Hv Hk. unfold read_mpz, REG_BYTES. replace (4 * Z.of_nat k + 4 - 1) with (3 + Z.of_nat k * 4) by lia. rewrite Z.div_add, Z.add_0_l by lia. rewrite Nat2Z.id, read_words_next. cbn [bind]. rewrite pack_words by (apply pack_nonneg, coeffs_nonneg).
  unfold packed. destruct n as [|n]; [lia|]. replace (S n - 1)%nat with n by lia. rewrite unpack_pack; [|apply Z.mod_pos_bound, Z.pow_pos_nonneg; lia|lia|lia]. f_equal. change (2 ^ (16 * 0)) with 1.
  replace (16 * Z.of_nat (S n) + 19) with (16 * (Z.of_nat n + 1) + 19) by lia. rewrite decoded_ok; [lia|]. unfold fits in Hv. replace (16 * Z.of_nat n + 18) with (16 * (Z.of_nat (S n) - 1) + 18) by lia. exact Hv.
Qed.

(** ** The job *)

Definition job_bytes (id it a f d l : Z) : bytes :=
  be_split 4 id ++ be_split 4 (u32 it) ++ be_split 4 (u32 (Z.shiftr it 32)) ++ regs 21 (packed 34 a) ++ regs 21 (packed 34 f) ++ regs 41 (packed 68 d) ++ regs 11 (packed 18 l) ++ be_split 4 1.

Lemma offset_next (done bs : bytes) k : length bs = k -> Z.of_nat (length done) + Z.of_nat k = Z.of_nat (length (done ++ bs)).
Proof. intros <-. rewrite length_app. lia. Qed.

Lemma write_u64_next done rest x : (8 <= length rest)%nat -> write_u64 (Z.of_nat (length done)) (done ++ rest) x = Ok ((done ++ be_split 4 (u32 x) ++ be_split 4 (u32 (Z.shiftr x 32))) ++ skipn 8 rest).
Proof.
  intros H. unfold write_u64. rewrite write_u32_next by lia. cbn [bind]. change REG_BYTES with (Z.of_nat 4). rewrite (offset_next done (be_split 4 (u32 x)) 4) by apply be_split_length.
  rewrite write_u32_next by (rewrite length_skipn; lia). rewrite skipn_skipn, <- !app_assoc. reflexivity.
Qed.

Lemma read_u64_next done rest x : 0 <= x < 2 ^ 64 -> read_u64 (Z.of_nat (length done)) (done ++ be_split 4 (u32 x) ++ be_split 4 (u32 (Z.shiftr x 32)) ++ rest) = Ok x.
Proof.
  intros H. unfold read_u64. rewrite read_u32_next by (apply uwrap_range; lia). cbn [bind]. change REG_BYTES with (Z.of_nat 4). rewrite (offset_next done (be_split 4 (u32 x)) 4) by apply be_split_length.
  rewrite app_assoc, read_u32_next by (apply uwrap_range; lia). cbn [bind]. f_equal. unfold REG_BITS. rewrite Z.shiftr_div_pow2 by lia. rewrite (uwrap_id 32 (x / 2 ^ 32)) by (split; [apply Z.div_pos; lia|apply Z.div_lt_upper_bound; lia]).
  rewrite Z.shiftl_mul_pow2 by lia. pose proof (Z.mul_div_le x (2 ^ 32) ltac:(lia)). pose proof (Z.div_pos x (2 ^ 32) ltac:(lia) ltac:(lia)). rewrite u64_id by lia.
  unfold uwrap. rewrite <- Z.shiftl_mul_pow2, <- Z.shiftr_div_pow2 by lia. apply Z.bits_inj'. intros i Hi. rewrite Z.lor_spec, Z.shiftl_spec by exact Hi.
  destruct (Z.lt_ge_cases i 32); [rewrite Z.mod_pow2_bits_low, (Z.testbit_neg_r _ (i - 32)) by lia; apply orb_false_r|rewrite Z.mod_pow2_bits_high, Z.shiftr_spec by lia; cbn [orb]; f_equal; lia].
Qed.

Lemma write_mpz_at off size k n done rest v : off = Z.of_nat (length done) -> size = 4 * Z.of_nat k -> (1 <= n)%nat -> fits n v -> (4 * k <= length rest)%nat ->
  write_mpz size off (done ++ rest) v n = Ok ((done ++ regs k (packed n v)) ++ skipn (4 * k) rest).
Proof. intros ->. apply write_mpz_next. Qed.

Lemma write_u32_at off done rest w : off = Z.of_nat (length done) -> (4 <= length rest)%nat -> write_u32 off (done ++ rest) w = Ok ((done ++ be_split 4 w) ++ skipn 4 rest).
Proof. intros ->. apply write_u32_next. Qed.

Lemma write_u64_at off done rest x : off = Z.of_nat (length done) -> (8 <= length rest)%nat ->
  write_u64 off (done ++ rest) x = Ok ((done ++ be_split 4 (u32 x) ++ be_split 4 (u32 (Z.shiftr x 32))) ++ skipn 8 rest).
Proof. intros ->. apply write_u64_next. Qed.

(** The length of what has been written, and of what remains of 392 bytes. *)
Ltac job_length := repeat (rewrite length_app || rewrite length_skipn || rewrite be_split_length || rewrite regs_length); cbn [length]; vm_compute Z.of_nat; first [reflexivity|lia].

Lemma SerializeJob_ok buf id it a f d l : length buf = 392%nat -> fits 34 a -> fits 34 f -> fits 68 d -> fits 18 l -> SerializeJob buf id it a f d l = Ok (job_bytes id it a f d l).
Proof.
  intros Hb Ha Hf Hd Hl. unfold SerializeJob. change buf with ([] ++ buf) at 1. rewrite write_u32_at by job_length. cbn [bind]. rewrite write_u64_at by job_length. cbn [bind].
  rewrite (write_mpz_at _ _ 21 34) by (assumption || job_length). cbn [bind]. rewrite (write_mpz_at _ _ 21 34) by (assumption || job_length). cbn [bind].
  rewrite (write_mpz_at _ _ 41 68) by (assumption || job_length). cbn [bind]. rewrite (write_mpz_at _ _ 11 18) by (assumption || job_length). cbn [bind].
  rewrite write_u32_at by job_length. rewrite !skipn_skipn, skipn_all2, app_nil_r by lia. unfold job_bytes. cbn [app]. now rewrite <- !app_assoc.
Qed.

(** [prepare_job] for a reduced form of a discriminant fits the registers. *)
Section Prepare.
Context `{GL : GmpLaws}.

Lemma form_fits D f : good_disc D -> class D f -> reduced f -> fits 34 (fa f) /\ fits 34 (fb f) /\ fits 68 D /\ fits 18 (mpz_root (- D) 4).
Proof.
  intros HD Cf Rf. destruct (good_disc_bound D HD) as [Hb1 Hb2]. pose proof (gd_neg D HD) as Hn. pose proof (reduced_size D f (bitlen D) (class_valid _ _ Cf) Rf Hb1 Hb2) as Ha. pose proof (reduced_abs f Rf) as Hb.
  assert (H1 : 2 ^ bitlen D <= 2 ^ 1024) by (apply Z.pow_le_mono_r; lia).
  assert (H2 : 2 ^ (16 * ((bitlen D + 31) / 32) + 8) <= 2 ^ 520).
  { apply Z.pow_le_mono_r; [lia|]. pose proof (Z.div_le_mono (bitlen D + 31) (32 * 32 + 31) 32 ltac:(lia) ltac:(lia)) as Hd. change ((32 * 32 + 31) / 32) with 32 in Hd. lia. }
  destruct (mpz_root_spec (- D) 4 ltac:(lia) ltac:(lia)) as [HL [HL4 _]]. set (L := mpz_root (- D) 4) in *.
  assert (HL2 : L < 2 ^ 256).
  { destruct (Z.lt_ge_cases L (2 ^ 256)) as [|Hge]; [assumption|]. pose proof (Z.pow_le_mono_l (2 ^ 256) L 4 ltac:(lia)) as Hp. rewrite <- Z.pow_mul_r in Hp by lia. change (256 * 4) with 1024 in Hp. lia. }
  assert (E1 : 2 ^ 520 < 2 ^ 546) by reflexivity. assert (E2 : 2 ^ 1024 < 2 ^ 1090) by reflexivity. assert (E3 : 2 ^ 256 < 2 ^ 290) by reflexivity.
  unfold fits. change (16 * (Z.of_nat 34 - 1) + 18) with 546. change (16 * (Z.of_nat 68 - 1) + 18) with 1090. change (16 * (Z.of_nat 18 - 1) + 18) with 290. lia.
Qed.
End Prepare.

Lemma DeserializeJob_ok id it a f rest : 0 <= id < 2 ^ 32 -> 0 <= it < 2 ^ 64 -> fits 34 a -> fits 34 f ->
  DeserializeJob (be_split 4 id ++ be_split 4 (u32 it) ++ be_split 4 (u32 (Z.shiftr it 32)) ++ regs 21 (packed 34 a) ++ regs 21 (packed 34 f) ++ rest) = Ok (id, mkvalue it a f).
Proof.
  intros Hid Hit Ha Hf. unfold DeserializeJob. pose proof (read_u32_next [] id) as E1. cbn [length app] in E1. change (Z.of_nat 0) with 0 in E1. rewrite E1 by exact Hid. cbn [bind].
  change (0 + REG_BYTES) with (Z.of_nat 4). rewrite <- (be_split_length 4 id) at 1. rewrite read_u64_next by exact Hit. cbn [bind].
  set (j := be_split 4 id ++ be_split 4 (u32 it) ++ be_split 4 (u32 (Z.shiftr it 32))). assert (Lj : length j = 12%nat) by (unfold j; rewrite !length_app, !be_split_length; reflexivity).
  replace (be_split 4 id ++ _) with (j ++ regs 21 (packed 34 a) ++ regs 21 (packed 34 f) ++ rest) by (unfold j; now rewrite <- !app_assoc).
  change (Z.of_nat 4 + 2 * REG_BYTES) with (Z.of_nat 12). rewrite <- Lj at 1. rewrite (read_mpz_next _ 21 34) by (assumption || reflexivity || lia). cbn [bind].
  change (REG_BYTES * CHIA_VDF_STATUS_A_MULTIREG_COUNT) with (Z.of_nat 84). change (Z.of_nat 12 + Z.of_nat 84) with (Z.of_nat 96). assert (L2 : length (j ++ regs 21 (packed 34 a)) = 96%nat) by (rewrite length_app, Lj, regs_length; reflexivity).
  rewrite (app_assoc j). rewrite <- L2 at 1. rewrite (read_mpz_next _ 21 34) by (assumption || reflexivity || lia). reflexivity.
Qed.

(** The status registers of an engine that has the value [v]. *)
Definition status_bytes (id : Z) (v : vdf_value) : bytes :=
  be_split 4 id ++ be_split 4 (u32 (v_iters v)) ++ be_split 4 (u32 (Z.shiftr (v_iters v) 32)) ++ regs 21 (packed 34 (v_a v)) ++ regs 21 (packed 34 (v_b v)).
Definition value_fits (v : vdf_value) : Prop := 0 <= v_iters v < 2 ^ 64 /\ fits 34 (v_a v) /\ fits 34 (v_b v).
Definition shows (Read : Z -> Z -> bytes) (i : Z) (v : vdf_value) : Prop := exists id, 0 <= id < 2 ^ 32 /\
  (if i =? 0 then exists sensors, length sensors = 20%nat /\ Read 0x300000 200 = sensors ++ status_bytes id v else Read (0x102000 + 0x10000 * i) 180 = status_bytes id v).

Lemma read_status_ok Read idx_mask vs : Forall value_fits vs -> forall i olds, 0 <= i -> length olds = length vs ->
  (forall k v, nth_error vs k = Some v -> Z.testbit idx_mask (i + Z.of_nat k) = true -> shows Read (i + Z.of_nat k) v) ->
  read_status Read idx_mask i olds = Ok (map (fun '(k, (v, old)) => if Z.testbit idx_mask k then v else old) (combine (map (fun k => i + Z.of_nat k) (seq 0 (length vs))) (combine vs olds))).
Proof.
  induction 1 as [|v vs (Hit & Ha & Hf) _ IH]; intros i [|old olds] Hi Hl HS; try discriminate; [reflexivity|]. cbn [read_status length seq map combine]. injection Hl as Hl. rewrite Z.add_0_r.
  assert (Hbit : forall j, 0 <= j -> (Z.land idx_mask (Z.shiftl 1 j) =? 0) = negb (Z.testbit idx_mask j)).
  { intros j Hj. rewrite Z.shiftl_1_l. destruct (Z.testbit idx_mask j) eqn:E; cbn [negb].
    - apply Z.eqb_neq. intros E0. apply (f_equal (fun x => Z.testbit x j)) in E0. rewrite Z.land_spec, E, Z.pow2_bits_true, Z.bits_0 in E0 by exact Hj. discriminate.
    - apply Z.eqb_eq. apply Z.bits_inj'. intros k Hk. rewrite Z.land_spec, Z.bits_0. destruct (Z.eq_dec k j) as [->|]; [now rewrite E|rewrite Z.pow2_bits_false by congruence; apply andb_false_r]. }
  rewrite Hbit, negb_involutive by exact Hi.
  assert (Hrest : read_status Read idx_mask (i + 1) olds = Ok (map (fun '(k, (v0, old0)) => if Z.testbit idx_mask k then v0 else old0) (combine (map (fun k => i + Z.of_nat k) (seq 1 (length vs))) (combine vs olds)))).
  { rewrite IH; [|lia|exact Hl|].
    - do 3 f_equal. rewrite <- seq_shift, map_map. apply map_ext. intros k. lia.
    - intros k v0 Hk Hb. replace (i + 1 + Z.of_nat k) with (i + Z.of_nat (S k)) in * by lia. now apply HS. }
  rewrite Hrest. destruct (Z.testbit idx_mask i) eqn:Eb; [|reflexivity].
  destruct (HS O v eq_refl) as (id & Hid & Hs); [now rewrite Z.add_0_r|]. rewrite Z.add_0_r in Hs.
  pose proof (DeserializeJob_ok id (v_iters v) (v_a v) (v_b v) [] Hid Hit Ha Hf) as HD. rewrite app_nil_r in HD. fold (status_bytes id v) in HD.
  assert (Hjob : (if (i =? 0) && negb (Z.land idx_mask (Z.lor HW_VDF_TEMP_FLAG (Z.shiftl 1 i)) =? 0) then skipn 20 (Read 0x300000 (HW_VDF_STATUS_SIZE + 20)) else Read (CHIA_VDF_STATUS_JOB_ID_REG_OFFSET + 0x10000 * i) HW_VDF_STATUS_SIZE) = status_bytes id v).
  { destruct (Z.eqb_spec i 0) as [->|]; [|exact Hs]. cbn [andb].
    destruct (Z.eqb_spec (Z.land idx_mask (Z.lor HW_VDF_TEMP_FLAG (Z.shiftl 1 0))) 0) as [E0|]; cbn [negb].
    - apply (f_equal (fun x => Z.testbit x 0)) in E0. rewrite Z.land_spec, Eb, Z.bits_0 in E0. discriminate E0.
    - destruct Hs as (sensors & Ls & Hs). change (HW_VDF_STATUS_SIZE + 20) with 200. rewrite Hs, skipn_app, Ls, Nat.sub_diag, skipn_all2 by lia. reflexivity. }
  rewrite Hjob, HD. destruct v. reflexivity.
Qed.

(** ** The property *)

(** C28: the registers of the ASIC. The job of [start_hw_vdf] fills its buffer and
    holds what was given: its registers read back as the iterations, a and b of a
    reduced form, D and L, with the start bit last; and for every value whose a and b fit 34 coefficients
    (below 2^546 in absolute value, negative ones included), as those of all forms that the computation meets do,
    [read_hw_status] gives the value that the registers of each selected VDF hold, and
    leaves the others alone. *)
Theorem hw_job_roundtrip {G : Gmp} {GL : GmpLaws G} D f n idx buf Read idx_mask vs olds :
  good_disc D -> class D f -> reduced f -> 0 <= n < 2 ^ 64 -> length buf = 392%nat ->
  length vs = 3%nat -> length olds = 3%nat -> Forall value_fits vs -> (forall k v, nth_error vs k = Some v -> Z.testbit idx_mask (Z.of_nat k) = true -> shows Read (Z.of_nat k) v) ->
  (exists job, let base := 0x100000 + 0x10000 * idx in
    start_hw_vdf buf D (fa f) (fb f) n idx = Ok [RegWrite base 0; RegWrite base 1; Write (base + 0x1000) job] /\ Z.of_nat (length job) = CHIA_VDF_JOB_SIZE /\
    DeserializeJob job = Ok (0xab, mkvalue n (fa f) (fb f)) /\ read_mpz (4 * 41) 180 job 68 = Ok D /\ read_mpz (4 * 11) 344 job 18 = Ok (mpz_root (- D) 4) /\ read_u32 388 job = Ok 1) /\
  value_fits (mkvalue n (fa f) (fb f)) /\
  (exists news, read_hw_status Read idx_mask olds = Ok news /\ length news = 3%nat /\
    forall k v old, nth_error vs k = Some v -> nth_error olds k = Some old -> nth_error news k = Some (if Z.testbit idx_mask (Z.of_nat k) then v else old)).
Proof.
  intros HD Cf Rf Hn Hb Lvs Lolds HF HS. destruct (form_fits D f HD Cf Rf) as (Fa & Fb & FD & FL). split; [|split; [now split|]].
  - exists (job_bytes 0xab n (fa f) (fb f) D (mpz_root (- D) 4)). cbv zeta. unfold start_hw_vdf, prepare_job. rewrite (SerializeJob_ok buf) by assumption. cbn [bind]. split; [reflexivity|].
    unfold job_bytes. split; [rewrite !length_app, !be_split_length, !regs_length; reflexivity|]. split; [apply DeserializeJob_ok; (assumption || lia)|].
    set (j3 := be_split 4 0xab ++ be_split 4 (u32 n) ++ be_split 4 (u32 (Z.shiftr n 32)) ++ regs 21 (packed 34 (fa f)) ++ regs 21 (packed 34 (fb f))). assert (L3 : length j3 = 180%nat) by (unfold j3; rewrite !length_app, !be_split_length, !regs_length; reflexivity).
    set (j4 := j3 ++ regs 41 (packed 68 D)). assert (L4 : length j4 = 344%nat) by (unfold j4; rewrite length_app, L3, regs_length; reflexivity).
    set (j5 := j4 ++ regs 11 (packed 18 (mpz_root (- D) 4))). assert (L5 : length j5 = 388%nat) by (unfold j5; rewrite length_app, L4, regs_length; reflexivity).
    split; [|split].
    + match goal with |- read_mpz _ _ ?J _ = _ => replace J with (j3 ++ regs 41 (packed 68 D) ++ regs 11 (packed 18 (mpz_root (- D) 4)) ++ be_split 4 1) by (unfold j3; now rewrite <- !app_assoc) end.
      change 180 with (Z.of_nat 180). rewrite <- L3. apply (read_mpz_next _ 41); (assumption || reflexivity || lia).
    + match goal with |- read_mpz _ _ ?J _ = _ => replace J with (j4 ++ regs 11 (packed 18 (mpz_root (- D) 4)) ++ be_split 4 1) by (unfold j4, j3; now rewrite <- !app_assoc) end.
      change 344 with (Z.of_nat 344). rewrite <- L4. apply (read_mpz_next _ 11); (assumption || reflexivity || lia).
    + match goal with |- read_u32 _ ?J = _ => replace J with (j5 ++ be_split 4 1 ++ []) by (unfold j5, j4, j3; now rewrite app_nil_r, <- !app_assoc) end.
      change 388 with (Z.of_nat 388). rewrite <- L5. apply read_u32_next. lia.
  - unfold read_hw_status, N_HW_VDFS. rewrite firstn_all2 by lia. rewrite (read_status_ok Read idx_mask vs HF 0 olds ltac:(lia) ltac:(lia)) by exact HS. eexists. split; [reflexivity|].
    destruct vs as [|v0 [|v1 [|v2 [|]]]], olds as [|o0 [|o1 [|o2 [|]]]]; try discriminate. split; [reflexivity|]. intros k v old Hv Ho. destruct k as [|[|[|[|]]]]; cbn in Hv, Ho; try discriminate; injection Hv as <-; injection Ho as <-; reflexivity.
Qed.

(** ** Witness *)

(** VDFs 0 and 2 are read. *)
Definition values_47 : list vdf_value := [mkvalue 8000 2 1; mkvalue 5 3 (-1); mkvalue 7 2 (-1)].
Definition registers_47 (addr size : Z) : bytes := if addr =? 0x300000 then repeat 0 20 ++ status_bytes 1 (mkvalue 8000 2 1) else status_bytes 3 (mkvalue 7 2 (-1)).

Lemma hw_job_roundtrip_witness :
  (exists job, start_hw_vdf (G := Ref.gmp) (repeat 0 392) (-47) 2 1 8000 1 = Ok [RegWrite 0x110000 0; RegWrite 0x110000 1; Write 0x111000 job] /\ DeserializeJob job = Ok (0xab, mkvalue 8000 2 1)) /\
  (exists news, read_hw_status registers_47 5 (repeat (mkvalue 0 0 0) 3) = Ok news /\ nth_error news 0 = Some (mkvalue 8000 2 1) /\ nth_error news 1 = Some (mkvalue 0 0 0) /\ nth_error news 2 = Some (mkvalue 7 2 (-1))).
Proof.
  assert (R : reduced (mkform 2 1 6)) by (split; cbn; lia).
  destruct (hw_job_roundtrip (GL := Ref.laws) (-47) (mkform 2 1 6) 8000 1 (repeat 0 392) registers_47 5 values_47 (repeat (mkvalue 0 0 0) 3)) as (H1 & _ & H2);
    [exact good_disc_47|exact class_form_47|exact R|lia|reflexivity|reflexivity|reflexivity| | |].
  - repeat constructor; vm_compute; discriminate.
  - intros k v Hk Hb. destruct k as [|[|[|[|]]]]; cbn in Hk; try discriminate; injection Hk as <-.
    + exists 1. split; [lia|]. exists (repeat 0 20). split; reflexivity.
    + exists 3. split; [lia|]. reflexivity.
  - destruct H1 as (job & E & _ & Ed & _). destruct H2 as (news & En & _ & Hn). split; [exists job; now split|]. exists news. split; [exact En|].
    split; [exact (Hn 0%nat _ _ eq_refl eq_refl)|]. split; [exact (Hn 1%nat _ _ eq_refl eq_refl)|exact (Hn 2%nat _ _ eq_refl eq_refl)].
Defined.
