(* ===== verification/HwClient.v ===== *)
(** [src/src/hw/hw_vdf_client.cpp]: the connection of a VDF of the hardware to the
    timelord. Challenges and requests are read from a socket, finished proofs
    are written to it, and the values of the hardware are passed on. *)
From Stdlib Require Import Ascii String Permutation.
From S2P Require Import Prelude Words NumTheory Gmp QuadForm FormClass Integer Forms Nucomp Bqfc PrimeTest HashPrime ProofCommon Powers Verifier Steps Segments Prover Callback Provers Vdf Proving Prove.
From S2P Require Import HwQueue HwRequests HwValues HwProver.

(** ** Texts *)

Fixpoint text (s : string) : bytes := match s with EmptyString => [] | String c s => Z.of_nat (nat_of_ascii c) :: text s end.

Definition is_space (c : Z) : bool := (c =? 32) || ((9 <=? c) && (c <=? 13)).
Definition is_digit (c : Z) : bool := (48 <=? c) && (c <=? 57).

(** [strtoul(buf, NULL, 10)] on memory that ends with [buf]: leading spaces, a
    sign, digits; the largest value when they are too many, and the
    negated value modulo 2^64 after a minus sign. *)
Fixpoint skip_spaces (buf : bytes) : bytes := match buf with c :: r => if is_space c then skip_spaces r else buf | [] => [] end.
Fixpoint digits (buf : bytes) (n : Z) : res Z :=
  match buf with
  | [] => Throw undefined_behaviour
  | c :: r => if is_digit c then digits r (10 * n + (c - 48)) else Ok n
  end.
Definition strtoul (buf : bytes) : res Z :=
  let '(neg, buf) := match skip_spaces buf with
    | 45 :: r => (true, r)
    | 43 :: r => (false, r)
    | r => (false, r)
    end in
  n <- digits buf 0 ;;
  Ok (if 2 ^ 64 <=? n then 2 ^ 64 - 1 else if neg : bool then u64 (- n) else n).

(** ** State *)

Inductive conn_state : Type := WAITING | RUNNING | IDLING | STOPPED | CLOSED.

(** The calls of [hw_interface.cpp], in their order. *)
Inductive hw_call : Type :=
| start_hw_vdf (d a b n_iters : Z)
| stop_hw_vdf.

(** What [read] gives: data, the end of the stream, or an error; when nothing
    is left it would block. *)
Inductive reading : Type := Data (bs : bytes) | Eof | Failed.

Record vdf_conn : Type := mkconn {
  vdf : vdf_state;
  init_done : bool;
  sock : bool;                  (* not kInvalidSocket *)
  read_buf : bytes;             (* 512 bytes *)
  buf_pos : Z;
  state : conn_state;
  incoming : list reading;      (* on the socket *)
  sent : bytes;                 (* to the socket *)
  calls : list hw_call;         (* of the hardware *)
}.

Definition set_vdf (v : vdf_state) (c : vdf_conn) : vdf_conn := mkconn v (init_done c) (sock c) (read_buf c) (buf_pos c) (state c) (incoming c) (sent c) (calls c).
Definition set_init (b : bool) (c : vdf_conn) : vdf_conn := mkconn (vdf c) b (sock c) (read_buf c) (buf_pos c) (state c) (incoming c) (sent c) (calls c).
Definition set_pos (n : Z) (c : vdf_conn) : vdf_conn := mkconn (vdf c) (init_done c) (sock c) (read_buf c) n (state c) (incoming c) (sent c) (calls c).
Definition set_state (x : conn_state) (c : vdf_conn) : vdf_conn := mkconn (vdf c) (init_done c) (sock c) (read_buf c) (buf_pos c) x (incoming c) (sent c) (calls c).
Definition call (x : hw_call) (c : vdf_conn) : vdf_conn := mkconn (vdf c) (init_done c) (sock c) (read_buf c) (buf_pos c) (state c) (incoming c) (sent c) (calls c ++ [x]).

Definition READ_BUF_SIZE : Z := 512.

(** The number of bytes that [write] takes, or a negative one. *)
Class Socket : Type := socket_write : bytes -> Z.

(** The state after [hw_stop_proof] and [clear_vdf_state]: the threads have ended. *)
Definition hw_stop_proof (s : vdf_state) : vdf_state :=
  let l := pol s in mkvdf (cfg s) (inp s) (sto s) (queue s) (mkpool [] (wq_warn_thres l) 0 0 (done_iters l) []) true.
Definition clear_vdf_state (s : vdf_state) : vdf_state :=
  mkvdf (cfg s) (inp s) (mkstore 0 (values (sto s)) [] (done_values (sto s))) (mkqueue [] [] [] []) (pol s) (stopping s).

Section Client.
Context `{Sock : Socket} `{Srt : StdSort}.

(** Fewer bytes than [size] may be written: the rest is lost. *)
Definition write_data (buf : bytes) (c : vdf_conn) : res vdf_conn :=
  let n := socket_write buf in
  require 0 <=? n else runtime_error ;;
  Ok (mkconn (vdf c) (init_done c) (sock c) (read_buf c) (buf_pos c) (state c) (incoming c) (sent c ++ firstn (Z.to_nat n) buf) (calls c)).

Definition stop_conn (c : vdf_conn) : res vdf_conn :=
  c <- (if sock c then write_data (text "STOP") c else Ok c) ;;
  let c := if init_done c then call stop_hw_vdf (set_init false (set_vdf (clear_vdf_state (hw_stop_proof (vdf c))) c)) else c in
  Ok (set_state STOPPED c).

Definition close_conn (c : vdf_conn) : vdf_conn :=
  match state c with
  | CLOSED => c
  | _ => mkconn (vdf c) (init_done c) false (read_buf c) (buf_pos c) CLOSED (incoming c) (sent c) (calls c)
  end.

(** [memcpy] into the buffer at [pos]. *)
Definition fill (buf : bytes) (pos : Z) (bs : bytes) : bytes := firstn (Z.to_nat pos) buf ++ bs ++ skipn (Z.to_nat pos + length bs) buf.

(** With no room left, [read] is asked for 0 bytes and returns 0. *)
Definition read_data (c : vdf_conn) : res (Z * vdf_conn) :=
  let room := READ_BUF_SIZE - buf_pos c in
  let fail ret := (c <- stop_conn c ;; Ok (ret, close_conn c)) in
  if room =? 0 then fail 0
  else match incoming c with
  | [] => Ok (-1, c)
  | Data bs :: rest =>
      let got := firstn (Z.to_nat room) bs in
      match got with
      | [] => fail 0
      | _ =>
          let left := skipn (Z.to_nat room) bs in
          let pos := buf_pos c + Z.of_nat (length got) in
          Ok (pos, mkconn (vdf c) (init_done c) (sock c) (fill (read_buf c) (buf_pos c) got) pos (state c) (match left with [] => rest | _ => Data left :: rest end) (sent c) (calls c))
      end
  | Eof :: _ => fail 0
  | Failed :: rest => fail (-1)
  end.

(** ** Requests *)

Definition ITERS_BUF_SIZE : Z := 16.

(** The loop of [handle_iters], on the bytes from [buf] on: the number that is
    left. [iters_buf] has no room for the zero after 16 bytes. *)
Fixpoint iters_loop (fuel : nat) (buf : bytes) (bytes_left : Z) (c : vdf_conn) : res (Z * vdf_conn) :=
  if bytes_left =? 0 then Ok (0, c)
  else match fuel with
  | O => Throw out_of_fuel
  | S fuel =>
      size <- strtoul (firstn 2 buf ++ [0]) ;;
      let iters_size := u32 size in
      if (ITERS_BUF_SIZE <? iters_size) || (bytes_left <? u32 (2 + iters_size)) then Throw runtime_error
      else
        require iters_size <? ITERS_BUF_SIZE else undefined_behaviour ;;
        let n := Z.to_nat iters_size in
        iters <- strtoul (firstn n (skipn 2 buf) ++ [0]) ;;
        if negb (iters =? 0) then
          let c := set_vdf (set_queue (hw_request_proof iters false (queue (vdf c))) (vdf c)) c in
          iters_loop fuel (skipn (2 + n) buf) (bytes_left - (2 + iters_size)) c
        else
          c <- stop_conn c ;;
          Ok (bytes_left - (2 + iters_size), c)
  end.

Definition handle_iters (c : vdf_conn) : res vdf_conn :=
  ' (n, c) <- iters_loop (Z.to_nat (buf_pos c)) (read_buf c) (buf_pos c) c ;;
  Ok (if n =? 0 then set_pos 0 c else c).

(** ** Proofs *)

(** "%02hhx" for each byte. *)
Definition tl_enc_hex (data : bytes) : bytes := text (BytesToStr data).

Definition PROOF_SIZE : Z := 8 + 8 + 1 + BQFC_FORM_SIZE * 2.
Definition SEGM_SIZE : Z := 8 + 33 + BQFC_FORM_SIZE.

Definition proof_data (p : vdf_proof) (i : Z) : bytes := Int64ToBytes (p_iters p) ++ Int64ToBytes BQFC_FORM_SIZE ++ p_y p ++ [u8 i] ++ p_proof p.
Definition vdf_proof_segm (p : vdf_proof) : bytes := Int64ToBytes (p_seg_iters p) ++ p_B p ++ p_proof p.

(** The [i] segments before that of [p], from the last. *)
Fixpoint send_segments (ps : list vdf_proof) (i : nat) (p : vdf_proof) (c : vdf_conn) : res vdf_conn :=
  match i with
  | O => Ok c
  | S i =>
      p <- get ps (p_prev p) ;;
      c <- write_data (tl_enc_hex (vdf_proof_segm p)) c ;;
      send_segments ps i p c
  end.

Definition send_proof (ps : list vdf_proof) (p : vdf_proof) (i : Z) (c : vdf_conn) : res vdf_conn :=
  c <- write_data (Int32ToBytes ((PROOF_SIZE + i * SEGM_SIZE) * 2) ++ tl_enc_hex (proof_data p i)) c ;;
  send_segments ps (Z.to_nat i) p c.

(** The loop: each retrieved proof leaves [done_proofs]. *)
Fixpoint handle_proofs (fuel : nat) (c : vdf_conn) : res vdf_conn :=
  ' (r, q) <- hw_retrieve_proof (queue (vdf c)) ;;
  match r with
  | None => Ok c
  | Some (i, idx) =>
      match fuel with
      | O => Throw out_of_fuel
      | S fuel =>
          p <- get (proofs q) idx ;;
          c <- send_proof (proofs q) p i (set_vdf (set_queue q (vdf c)) c) ;;
          handle_proofs fuel c
      end
  end.
End Client.

(** ** The connection *)

Definition D_STR_SIZE : Z := 350.
Definition N_ITERS : Z := 2000 * 1000 * 1000.
Definition byte_at (buf : bytes) (i : Z) : Z := nth (Z.to_nat i) buf 0.
Definition schar (x : Z) : Z := if 128 <=? x then x - 256 else x.

(** [connect] fails, or the socket cannot be made non-blocking. *)
Inductive connection : Type := Connected | Refused | Blocking.

Section Connection.
Context `{Sock : Socket} `{G : Gmp} `{R : FormReducer} `{Srt : StdSort}.

(** The new socket, with what will come on it, and [mpz_set_str]. *)
Variable connects : connection.
Variable fresh : list reading.
Variable mpz_set_str : bytes -> Z.
Variables opt_aux opt_proof : Z.

Definition init_conn (c : vdf_conn) : vdf_conn :=
  match connects with
  | Connected => mkconn (vdf c) (init_done c) true (read_buf c) 0 WAITING fresh [] (calls c)
  | Refused => mkconn (vdf c) (init_done c) true (read_buf c) (buf_pos c) (state c) [] [] (calls c)
  | Blocking => mkconn (vdf c) (init_done c) false (read_buf c) (buf_pos c) (state c) [] [] (calls c)
  end.

(** [handle_conn] when WAITING, after the data are read: [None] when more are to come. *)
Definition challenge (nbytes : Z) (c : vdf_conn) : res (option vdf_conn) :=
  let buf := read_buf c in
  if nbytes <? 5 then Ok None
  else
    let t := byte_at buf 0 in
    require (t =? 83) || (t =? 78) || (t =? 84) else runtime_error ;;
    d_size <- strtoul (skipn 1 buf) ;;
    if nbytes <? u64 (4 + d_size + 1) then Ok None
    else
      require d_size <? D_STR_SIZE else undefined_behaviour ;;
      let d_str := firstn (Z.to_nat d_size) (skipn 4 buf) in
      require nbytes =? u64 (4 + d_size + 1 + schar (byte_at buf (4 + d_size))) else runtime_error ;;
      let init_form := firstn (Z.to_nat BQFC_FORM_SIZE) (skipn (Z.to_nat (4 + d_size + 1)) buf) in
      s <- init_vdf_state opt_aux opt_proof (mpz_set_str d_str) init_form N_ITERS ;;
      let c := set_init true (set_vdf s c) in
      let c := call (start_hw_vdf (cD (cfg s)) (v_a (last_val (inp s))) (v_b (last_val (inp s))) (target_iters (cfg s))) c in
      c <- write_data (text "OK") c ;;
      Ok (Some (set_pos 0 (set_state RUNNING c))).

(** The rest of [handle_conn], for a connection that may have been stopped. *)
Definition conn_end (g_stopping : bool) (c : vdf_conn) : res vdf_conn :=
  match state c with
  | STOPPED => ' (_, c) <- read_data c ;; Ok (close_conn c)
  | CLOSED => Ok (if negb g_stopping then init_conn c else c)
  | _ => Ok c
  end.

Definition handle_conn (fuel : nat) (g_stopping : bool) (c : vdf_conn) : res vdf_conn :=
  c <- (if g_stopping && match state c with CLOSED | STOPPED => false | _ => true end then stop_conn c else Ok c) ;;
  match state c with
  | WAITING =>
      ' (nbytes, c) <- read_data c ;;
      r <- challenge nbytes c ;;
      match r with None => Ok c | Some c => conn_end g_stopping c end
  | RUNNING | IDLING =>
      c <- handle_proofs fuel c ;;
      ' (nbytes, c) <- read_data c ;;
      if nbytes <=? 0 then Ok c
      else c <- handle_iters c ;; conn_end g_stopping c
  | _ => conn_end g_stopping c
  end.
End Connection.

(** [event_loop], for a VDF that is running: the value [val] that the hardware
    reports, which is started again when the value is bad, and stopped at the end. *)
Definition loop_value `{G : Gmp} `{Srt : StdSort} (fuel : nat) (val : vdf_value) (c : vdf_conn) : res vdf_conn :=
  ' (r, s) <- hw_proof_add_value fuel val (vdf c) ;;
  c <- (if r <? 0 then
      let c := call stop_hw_vdf (set_vdf s c) in
      ' (f, s) <- restart s ;;
      Ok (call (start_hw_vdf (cD (cfg s)) (fa f) (fb f) (u64 (target_iters (cfg s) - iters_offset (inp s)))) (set_vdf s c))
    else Ok (set_vdf s c)) ;;
  Ok (if completed (inp (vdf c)) then set_state IDLING (call stop_hw_vdf c) else c).

(** ** The bytes of a proof *)

Section Chain.
Context `{GL : GmpLaws} `{RL : FormReducerLaws}.
Variable C : config.
Abbreviation D := (cD C).
Hypothesis HD : good_disc D.
Variable x0 : form.
Hypothesis Cx0 : class D x0.
Variable fuel : nat.
Variables (interval : Z) (q : hw_queue) (N : Z).
Hypothesis T : table_ok interval (proofs q) N no_more.
Hypothesis Dones : dones_right C x0 fuel q.

(** The segment whose bytes a proof of the table holds. *)
Definition seg_of (s : Segment) (p : vdf_proof) : Prop :=
  length_ s = p_seg_iters p /\ (exists z, SerializeForm (seg_proof s) (bitlen D) = Ok (p_proof p, z)) /\
  (is_req p = false -> exists B x1 y1, GetB fuel D (seg_x s) (seg_y s) = Ok (B, x1, y1) /\ p_B p = be_split 33 B).

Lemma chain_segments l : forall idx p, at_ (proofs q) idx p -> live p -> is_done p = true -> chain_of (proofs q) (p_prev p) l -> forallb is_done l = true ->
  exists init last y, chain D x0 fuel (init ++ [last]) 0 (p_iters p) /\ SerializeForm (seg_y last) (bitlen D) = Ok (p_y p, y) /\ seg_of last p /\
    Forall2 seg_of (rev init) l /\ Forall (fun p => is_req p = false) l.
Proof.
  induction l as [|p1 l IH]; intros idx p Hp L Dn HC HF; destruct (Dones idx p Hp L Dn) as (sg & y & z & E1 & E2 & Hsg & Ey & Ez & EB);
    pose proof (e_link _ _ _ _ _ (live_entry interval _ _ _ _ _ T Hp L)) as [[En Ei]|[Hn (q1 & Hq1 & L1 & R1 & Ei)]]; inversion HC as [E0|? ? ? Hne Hat HC']; subst.
  - exists [], sg, y. split; [|split; [exact Ey|split; [|split; constructor]]].
    + cbn [app chain]. split; [lia|]. split; [exact Hsg|lia].
    + split; [exact E2|]. split; [now exists z|exact EB].
  - pose proof (at_range _ _ _ Hp). pose proof (t_len _ _ _ _ T). unfold HW_VDF_PROOF_NONE in *. lia.
  - now elim Hne.
  - rewrite (at_fun _ _ _ _ Hat Hq1) in *. cbn [forallb] in HF. apply andb_prop in HF as [D1 HF]. destruct (IH _ q1 Hq1 L1 D1 HC' HF) as (init & last & y1 & Hc & _ & Hl & HI & HR).
    exists (init ++ [last]), sg, y. split; [|split; [exact Ey|split; [|split]]].
    + apply (chain_app _ _ _ _ _ _ (p_iters q1)); [exact Hc|]. cbn [chain]. split; [lia|]. split; [exact Hsg|lia].
    + split; [exact E2|]. split; [now exists z|exact EB].
    + rewrite rev_app_distr. cbn [rev app]. constructor; [exact Hl|exact HI].
    + now constructor.
Qed.

Lemma encode_table ss l : Forall2 seg_of ss l -> Forall (fun p => is_req p = false) l -> Forall (proved_seg D x0 fuel) ss -> exists es fs,
  encode_all D fuel ss es fs /\ flat_map (fun '(T, B, s) => segment_bytes T B s) es = flat_map vdf_proof_segm l /\ length es = length l /\ length (flat_map vdf_proof_segm l) = (141 * length l)%nat.
Proof.
  induction 1 as [|s p ss l (E1 & (z & Ez) & EB) _ IH]; intros HR HP; [exists [], []; now repeat constructor|].
  inversion HR as [|? ? R1 R2]; subst. inversion HP as [|? ? P1 P2]; subst. destruct (IH R2 P2) as (es & fs & [H1 H2] & Eb & El & Ll). destruct (EB R1) as (B & x1 & y1 & EB' & EpB).
  destruct (proved_classes D x0 Cx0 fuel s P1) as (_ & _ & Cz). destruct (SerializeForm_ok D _ HD Cz) as (b & f & Ef & _ & _ & Q & _ & Lb & _). rewrite Ez in Ef. injection Ef as <- <-. pose proof (SerializeForm_reads D _ _ z HD Cz Ez false) as Dz.
  exists ((p_seg_iters p, B, p_proof p) :: es), (z :: fs). split; [split; [|cbn [length]; now f_equal]|].
  - cbn [combine]. constructor; [|exact H1]. cbn [fst snd]. split; [now symmetry|]. split; [exact Lb|]. split; [exact Q|]. split; [exact Dz|]. now exists x1, y1.
  - cbn [flat_map length]. unfold segment_bytes at 1, vdf_proof_segm at 1. rewrite EpB, Eb, El. split; [reflexivity|]. split; [reflexivity|]. rewrite length_app, Ll. unfold vdf_proof_segm. rewrite EpB, !length_app, Int64ToBytes_length, be_split_length, Lb. lia.
Qed.

(** What the verifier is given of a proof and its chain. *)
Definition proof_blob (p : vdf_proof) (l : list vdf_proof) : bytes := p_y p ++ p_proof p ++ flat_map vdf_proof_segm l.

Lemma ready_accepted idx p l : ready (proofs q) idx p l -> live p -> is_done p = true -> (length l <= 63)%nat ->
  exists y z es, length (p_y p) = 100%nat /\ length (p_proof p) = 100%nat /\ bytes_ok (p_y p) /\ bytes_ok (p_proof p) /\ flat_map vdf_proof_segm l = segments_blob es /\ length es = length l /\ length (segments_blob es) = (141 * length l)%nat /\
    DeserializeForm D (p_y p) 100 false = Ok y /\ pw D x0 (2 ^ p_iters p) y /\ DeserializeForm D (p_proof p) 100 false = Ok z /\
    forall x_s x_v size, length x_s = 100%nat -> DeserializeForm D x_s 100 false = Ok x_v -> equiv x0 x_v -> 0 < size <= 1024 ->
      CheckProofOfTimeNWesolowski fuel D (Some x_s) (Some (proof_blob p l)) (200 + 141 * Z.of_nat (length l)) (p_iters p) size (Z.of_nat (length l)) = Ok true.
Proof.
  intros (Hp & HC & HF) L Dn Hl. destruct (chain_segments l idx p Hp L Dn HC HF) as (init & last & y & Hc & Ey & (E1 & (z & Ez) & _) & HI & HR).
  destruct (chain_split _ _ _ _ _ _ _ Hc) as (b & Hinit & (Eb & Hlast & Ei)). cbn [chain] in Ei. pose proof (Forall_rev (chain_proved _ _ _ _ _ _ Hinit)) as HP.
  destruct (encode_table _ _ HI HR HP) as (es & fs & He & Eb2 & El & Ll). apply encode_all_rev in He. rewrite rev_involutive in He.
  destruct (proved_classes D x0 Cx0 fuel last Hlast) as (_ & Cy & Cz). destruct (SerializeForm_ok D _ HD Cy) as (b1 & f1 & Ef1 & _ & _ & Qy & _ & Lb1 & B1). rewrite Ey in Ef1. injection Ef1 as <- <-.
  destruct (SerializeForm_ok D _ HD Cz) as (b2 & f2 & Ef2 & _ & _ & _ & _ & Lb2 & B2). rewrite Ez in Ef2. injection Ef2 as <- <-.
  exists y, z, (rev es). do 4 (split; [assumption|]). unfold segments_blob. rewrite rev_involutive, length_rev. split; [now symmetry|]. split; [exact El|]. split; [now rewrite Eb2|].
  pose proof (e_iters _ _ _ _ _ (live_entry interval _ _ _ _ _ T Hp L)) as Hit. pose proof Hlast as (_ & _ & _ & Py & _). rewrite Eb in Py. rewrite Ei in Py.
  split; [exact (SerializeForm_reads D _ _ y HD Cy Ey false)|]. split; [exact (pw_equiv D x0 _ _ _ Py Qy)|]. split; [exact (SerializeForm_reads D _ _ z HD Cz Ez false)|].
  pose proof (chain_accepts D HD x0 Cx0 fuel init last (seg_y last) (p_iters p) (rev es) (rev fs) (p_y p) y (p_proof p) z Hc Py ltac:(lia) ltac:(rewrite length_rev; lia) He Ey Ez) as HA.
  unfold segments_blob in HA. rewrite rev_involutive, length_rev, Eb2, El in HA. exact HA.
Qed.
End Chain.

(** ** Sending the proofs *)

Definition add_sent (bs : bytes) (c : vdf_conn) : vdf_conn :=
  mkconn (vdf c) (init_done c) (sock c) (read_buf c) (buf_pos c) (state c) (incoming c) (sent c ++ bs) (calls c).

(** The whole of a reply: the proof, the number of its segments and the
    segments, and the message, which is its length and its hex digits. *)
Definition reply (p : vdf_proof) (l : list vdf_proof) : bytes := proof_data p (Z.of_nat (length l)) ++ flat_map vdf_proof_segm l.
Definition message (p : vdf_proof) (l : list vdf_proof) : bytes := Int32ToBytes (2 * (PROOF_SIZE + Z.of_nat (length l) * SEGM_SIZE)) ++ tl_enc_hex (reply p l).

Lemma text_app a b : text (BytesToStr (a ++ b)) = text (BytesToStr a) ++ text (BytesToStr b).
Proof. induction a as [|x a IH]; [reflexivity|]. cbn [app BytesToStr text]. now rewrite IH. Qed.

Lemma text_length s : length (text s) = String.length s.
Proof. induction s as [|c s IH]; [reflexivity|]. cbn [text String.length length]. now rewrite IH. Qed.

Lemma hex_length bs : length (tl_enc_hex bs) = (2 * length bs)%nat.
Proof. unfold tl_enc_hex. rewrite text_length. apply BytesToStr_length. Qed.

(** The text of a list of bytes determines it. *)
Lemma text_inj s t : text s = text t -> s = t.
Proof.
  revert t. induction s as [|c s IH]; intros [|d t] E; try discriminate; [reflexivity|]. cbn [text] in E. injection E as E1 E2.
  apply Nat2Z.inj in E1. rewrite <- (ascii_nat_embedding c), <- (ascii_nat_embedding d), E1. f_equal. now apply IH.
Qed.

Lemma hex_inj a b : bytes_ok a -> bytes_ok b -> tl_enc_hex a = tl_enc_hex b -> a = b.
Proof. intros Ha Hb E. apply text_inj in E. apply (f_equal StrToBytes) in E. rewrite !StrToBytes_BytesToStr in E by assumption. now injection E. Qed.

Section Sending.
Context `{Sock : Socket}.
Hypothesis Writes : forall buf, socket_write buf = Z.of_nat (length buf).

Lemma write_ok bs c : write_data bs c = Ok (add_sent bs c).
Proof. unfold write_data. rewrite Writes. destruct (Z.leb_spec 0 (Z.of_nat (length bs))); [|lia]. rewrite Nat2Z.id, firstn_all. reflexivity. Qed.

Lemma add_sent_app a b c : add_sent b (add_sent a c) = add_sent (a ++ b) c.
Proof. unfold add_sent. cbn. now rewrite app_assoc. Qed.

Lemma send_segments_ok ps i l : chain_of ps i l -> forall p c, p_prev p = i -> send_segments ps (length l) p c = Ok (add_sent (tl_enc_hex (flat_map vdf_proof_segm l)) c).
Proof.
  induction 1 as [|i p1 l Hn Hp _ IH]; intros p c E; cbn [length send_segments flat_map].
  - unfold add_sent. cbn. rewrite app_nil_r. now destruct c.
  - rewrite E, (at_get _ _ _ Hp). cbn [bind]. rewrite write_ok. cbn [bind]. rewrite (IH p1 _ eq_refl), add_sent_app. unfold tl_enc_hex. now rewrite text_app.
Qed.

Lemma send_proof_ok ps idx p l c : ready ps idx p l -> send_proof ps p (Z.of_nat (length l)) c = Ok (add_sent (message p l) c).
Proof.
  intros (Hp & HC & _). unfold send_proof. rewrite write_ok. cbn [bind]. rewrite Nat2Z.id, (send_segments_ok _ _ _ HC p _ eq_refl), add_sent_app. unfold message, reply, tl_enc_hex.
  rewrite text_app, app_assoc. now rewrite (Z.mul_comm _ 2).
Qed.

(** Replies in the order they are sent: the proof's index, the proof, its chain. *)
Definition reply_of : Type := (Z * vdf_proof * list vdf_proof)%type.
Definition send_all (rs : list reply_of) : bytes := flat_map (fun '(_, p, l) => message p l) rs.
Definition with_dones (dones : list Z) (s : vdf_state) : vdf_state := set_queue (mkqueue (req_proofs (queue s)) (proofs (queue s)) (queued_proofs (queue s)) dones) s.

Lemma sent_nothing c : add_sent [] (set_vdf (with_dones (done_proofs (queue (vdf c))) (vdf c)) c) = c.
Proof. destruct c as [v]. destruct v as [a b d q]. destruct q. unfold add_sent. cbn. now rewrite app_nil_r. Qed.

Lemma handle_proofs_ok interval N n : forall c, hw_queue_ok interval N (queue (vdf c)) -> (length (done_proofs (queue (vdf c))) <= n)%nat ->
  exists rs dones, handle_proofs n c = Ok (add_sent (send_all rs) (set_vdf (with_dones dones (vdf c)) c)) /\
    Permutation (done_proofs (queue (vdf c))) (map (fun r => fst (fst r)) rs ++ dones) /\
    Forall (fun '(idx, p, l) => ready (proofs (queue (vdf c))) idx p l /\ (length l <= 63)%nat) rs /\
    (forall i p l, In i dones -> ~ ready (proofs (queue (vdf c))) i p l).
Proof.
  induction n as [|n IH]; intros c Q Hn; cbn [handle_proofs]; unfold hw_retrieve_proof;
    (destruct (retrieve_ok interval (proofs (queue (vdf c))) N no_more (done_proofs (queue (vdf c))) (q_table _ _ _ Q)) with (before := @nil Z) as (r & -> & HR);
     [intros i Hi; destruct (q_done _ _ _ Q i Hi) as (p & Hp & L & Rq & _); exists p; split; [exact Hp|now split]|]); cbn [bind];
    (destruct r as [[[cnt idx] rest]|];
     [|exists [], (done_proofs (queue (vdf c))); split; [now rewrite sent_nothing|split; [reflexivity|split; [constructor|intros i p l Hi; now apply HR]]]]).
  - destruct HR as (pre & post & p & l & E & _). rewrite E, length_app in Hn. cbn [length] in Hn. lia.
  - destruct HR as (pre & post & p & l & E & -> & Hr & -> & Hc & _). cbn [bind proofs]. rewrite (at_get _ _ _ (proj1 Hr)). cbn [bind]. rewrite (send_proof_ok _ _ _ _ _ Hr). cbn [bind app].
    set (c1 := add_sent _ _). assert (Q1 : hw_queue_ok interval N (queue (vdf c1))).
    { destruct Q as [Q1 Q2 Q3 Q4 Q5]. split; try assumption. cbn [c1 add_sent set_vdf vdf set_queue queue done_proofs]. intros i Hi. apply Q5. rewrite E. apply in_app_or in Hi. apply in_or_app. destruct Hi; [now left|right; now right]. }
    destruct (IH c1 Q1) as (rs & dones & -> & HP & HF & Hno).
    { cbn [c1 add_sent set_vdf vdf set_queue queue done_proofs]. rewrite E, length_app in Hn. cbn [length] in Hn. rewrite length_app. lia. }
    exists ((idx, p, l) :: rs), dones. split; [|split; [|split; [|exact Hno]]].
    + cbn [send_all flat_map]. unfold c1. rewrite <- add_sent_app. reflexivity.
    + rewrite E. cbn [map app fst]. rewrite <- HP. cbn [c1 add_sent set_vdf vdf set_queue queue done_proofs]. symmetry. apply Permutation_middle.
    + constructor; [split; [exact Hr|lia]|exact HF].
Qed.
End Sending.

(** The steps of the client are steps of [hw_reach]. *)
Section Steps.
Context `{Sock : Socket}.

Lemma write_data_vdf bs c c' : write_data bs c = Ok c' -> vdf c' = vdf c.
Proof. unfold write_data. destruct (0 <=? _); [|discriminate]. cbn [negb]. now intros [= <-]. Qed.

Lemma send_segments_vdf ps i : forall p c c', send_segments ps i p c = Ok c' -> vdf c' = vdf c.
Proof.
  induction i as [|i IH]; intros p c c' E; cbn [send_segments] in E; [now injection E as <-|]. apply bind_ok in E as (p1 & _ & E). apply bind_ok in E as (c1 & E1 & E).
  rewrite (IH _ _ _ E). exact (write_data_vdf _ _ _ E1).
Qed.

Context `{G : Gmp} `{R : FormReducer} `{Srt : StdSort}.
Lemma handle_proofs_reach C x0 fuel s0 N n : forall c c', hw_reach C x0 fuel s0 N (vdf c) -> handle_proofs n c = Ok c' -> hw_reach C x0 fuel s0 N (vdf c').
Proof.
  induction n as [|n IH]; intros c c' H E; cbn [handle_proofs] in E; apply bind_ok in E as ([r q] & Er & E); (destruct r as [[i idx]|]; [|now injection E as <-]); [discriminate|].
  apply bind_ok in E as (p & _ & E). apply bind_ok in E as (c1 & E1 & E). apply (IH c1 c'); [|exact E]. unfold send_proof in E1. apply bind_ok in E1 as (c2 & E2 & E1).
  rewrite (send_segments_vdf _ _ _ _ _ E1), (write_data_vdf _ _ _ E2). exact (hw_reach_retrieve _ _ _ _ _ _ _ _ H Er).
Qed.

Lemma run_more D bs n fuel N s0 s N' s' : hw_run D bs n fuel N s0 s -> hw_reach (cfg s0) (values (sto s0) 0) fuel s0 N' s' -> hw_run D bs n fuel N' s0 s'.
Proof. intros [R1 R2 R3 R4 _] H. now split. Qed.
End Steps.

(** ** Reading the requests *)

Definition dec_value (ds : bytes) : Z := fold_left (fun n c => 10 * n + (c - 48)) ds 0.
Definition two_digits (n : Z) : bytes := [48 + n / 10; 48 + n mod 10].

(** A request of the timelord: the number of digits, in two, and the digits. *)
Definition request (ds : bytes) : bytes := two_digits (Z.of_nat (length ds)) ++ ds.
Definition request_ok (ds : bytes) : Prop := (0 < length ds < 16)%nat /\ Forall (fun c => is_digit c = true) ds.
Definition ask `{Srt : StdSort} (l : list bytes) (c : vdf_conn) : vdf_conn := fold_left (fun c ds => set_vdf (set_queue (hw_request_proof (dec_value ds) false (queue (vdf c))) (vdf c)) c) l c.

Lemma is_digit_spec c : is_digit c = true <-> 48 <= c <= 57.
Proof. unfold is_digit. rewrite andb_true_iff, !Z.leb_le. lia. Qed.

Lemma digits_ok ds x r : is_digit x = false -> Forall (fun c => is_digit c = true) ds -> forall n, digits (ds ++ x :: r) n = Ok (fold_left (fun n c => 10 * n + (c - 48)) ds n).
Proof. intros Hx. induction 1 as [|c ds Hc _ IH]; intros n; cbn [app digits fold_left]; [now rewrite Hx|]. now rewrite Hc, IH. Qed.

Lemma dec_bound ds : Forall (fun c => is_digit c = true) ds -> forall n, 0 <= n -> 0 <= fold_left (fun n c => 10 * n + (c - 48)) ds n < (n + 1) * 10 ^ Z.of_nat (length ds).
Proof.
  induction 1 as [|c ds Hc _ IH]; intros n Hn; cbn [fold_left length]; [lia|]. apply is_digit_spec in Hc. specialize (IH (10 * n + (c - 48)) ltac:(lia)).
  rewrite Nat2Z.inj_succ, Z.pow_succ_r by lia. pose proof (Z.pow_pos_nonneg 10 (Z.of_nat (length ds)) ltac:(lia) ltac:(lia)). nia.
Qed.

Lemma dec_value_bound ds k : Forall (fun c => is_digit c = true) ds -> (length ds <= k)%nat -> 0 <= dec_value ds < 10 ^ Z.of_nat k.
Proof.
  intros H Hk. pose proof (dec_bound ds H 0 ltac:(lia)) as B. unfold dec_value. pose proof (Z.pow_le_mono_r 10 (Z.of_nat (length ds)) (Z.of_nat k) ltac:(lia) ltac:(lia)). lia.
Qed.

Lemma strtoul_digits ds x r : ds <> [] -> Forall (fun c => is_digit c = true) ds -> (length ds <= 15)%nat -> is_digit x = false -> strtoul (ds ++ x :: r) = Ok (dec_value ds).
Proof.
  intros Hne H Hl Hx. pose proof (dec_value_bound ds 15 H Hl) as B. destruct ds as [|c ds]; [contradiction|]. unfold strtoul.
  assert (E : match skip_spaces ((c :: ds) ++ x :: r) with 45 :: r0 => (true, r0) | 43 :: r0 => (false, r0) | r0 => (false, r0) end = (false, (c :: ds) ++ x :: r)).
  { inversion H as [|? ? Hc _]; subst. apply is_digit_spec in Hc. assert (Hc' : c = 48 \/ c = 49 \/ c = 50 \/ c = 51 \/ c = 52 \/ c = 53 \/ c = 54 \/ c = 55 \/ c = 56 \/ c = 57) by lia.
    repeat (destruct Hc' as [->|Hc']; [reflexivity|]). now subst c. }
  rewrite E, (digits_ok (c :: ds) x r Hx H 0). cbn [bind]. fold (dec_value (c :: ds)). destruct (Z.leb_spec (2 ^ 64) (dec_value (c :: ds))); [|reflexivity].
  assert (10 ^ Z.of_nat 15 < 2 ^ 64) by reflexivity. lia.
Qed.

Lemma two_digits_ok k r : 0 <= k <= 99 -> firstn 2 (two_digits k ++ r) = two_digits k /\ skipn 2 (two_digits k ++ r) = r /\ strtoul (firstn 2 (two_digits k ++ r) ++ [0]) = Ok k.
Proof.
  intros Hk. split; [reflexivity|]. split; [reflexivity|]. change (firstn 2 (two_digits k ++ r)) with (two_digits k). pose proof (Z.div_mod k 10 ltac:(lia)). pose proof (Z.mod_pos_bound k 10 ltac:(lia)).
  rewrite strtoul_digits; [|discriminate|repeat constructor; apply is_digit_spec; lia|cbn; lia|reflexivity]. unfold dec_value, two_digits. cbn [fold_left]. f_equal. lia.
Qed.

Section Requests.
Context `{Sock : Socket} `{Srt : StdSort}.

Lemma iters_turn fuel ds rest n c : request_ok ds -> 0 <= n < 2 ^ 31 ->
  iters_loop (S fuel) (request ds ++ rest) (Z.of_nat (length (request ds)) + n) c =
    if dec_value ds =? 0 then (c <- stop_conn c ;; Ok (n, c)) else iters_loop fuel rest n (ask [ds] c).
Proof.
  intros [Hl Hd] Hn. assert (Lr : Z.of_nat (length (request ds)) = 2 + Z.of_nat (length ds)) by (unfold request; rewrite length_app; cbn [length two_digits]; lia). cbn [iters_loop]. rewrite Lr.
  destruct (Z.eqb_spec (2 + Z.of_nat (length ds) + n) 0); [lia|]. unfold request. rewrite <- app_assoc. destruct (two_digits_ok (Z.of_nat (length ds)) (ds ++ rest) ltac:(lia)) as (_ & E2 & ->). rewrite E2. cbn [bind].
  rewrite (uwrap_id 32 (Z.of_nat (length ds))), (uwrap_id 32 (2 + Z.of_nat (length ds))) by (split; lia). unfold ITERS_BUF_SIZE.
  destruct (Z.ltb_spec 16 (Z.of_nat (length ds))); [lia|]. destruct (Z.ltb_spec (2 + Z.of_nat (length ds) + n) (2 + Z.of_nat (length ds))); [lia|]. cbn [orb]. destruct (Z.ltb_spec (Z.of_nat (length ds)) 16); [|lia]. cbn [negb].
  rewrite Nat2Z.id, firstn_app, firstn_all, Nat.sub_diag. cbn [firstn]. rewrite app_nil_r, strtoul_digits; [|intros ->; cbn in Hl; lia|exact Hd|lia|reflexivity]. cbn [bind].
  replace (2 + Z.of_nat (length ds) + n - (2 + Z.of_nat (length ds))) with n by lia.
  destruct (dec_value ds =? 0); cbn [negb]; [reflexivity|]. replace (skipn (2 + length ds) (two_digits (Z.of_nat (length ds)) ++ ds ++ rest)) with rest; [reflexivity|].
  rewrite app_assoc, skipn_app. rewrite skipn_all2 by (rewrite length_app; cbn [length two_digits]; lia). rewrite length_app. cbn [length two_digits]. replace (2 + length ds - S (S (length ds)))%nat with O by lia. now rewrite ?Nat.sub_diag.
Qed.

Lemma iters_loop_ok rest n l : Forall (fun ds => request_ok ds /\ dec_value ds <> 0) l -> 0 <= n -> n + Z.of_nat (length (flat_map request l)) < 2 ^ 31 -> forall fuel c,
  iters_loop (length l + fuel) (flat_map request l ++ rest) (Z.of_nat (length (flat_map request l)) + n) c = iters_loop fuel rest n (ask l c).
Proof.
  induction 1 as [|ds l [Hd Hz] _ IH]; intros H0 Hn fuel c; [reflexivity|]. cbn [flat_map length Nat.add] in *. rewrite length_app, Nat2Z.inj_add in *.
  rewrite <- app_assoc, <- Z.add_assoc, iters_turn by (assumption || lia). destruct (Z.eqb_spec (dec_value ds) 0); [contradiction|]. rewrite IH by lia. reflexivity.
Qed.

Lemma request_size l : Forall (fun ds => request_ok ds /\ dec_value ds <> 0) l -> (2 * length l <= length (flat_map request l))%nat.
Proof. induction 1 as [|ds l [Hd _] _ IH]; cbn [flat_map length]; [lia|]. rewrite length_app. unfold request at 1. rewrite length_app. cbn [length two_digits]. lia. Qed.

(** A length field [k] that the loop does not accept. *)
Lemma iters_bad fuel k rest n c : 0 < n < 2 ^ 31 -> 0 <= k <= 99 -> 16 < k \/ n < 2 + k -> iters_loop (S fuel) (two_digits k ++ rest) n c = Throw runtime_error.
Proof.
  intros Hn Hk Hbad. cbn [iters_loop]. destruct (Z.eqb_spec n 0); [lia|]. destruct (two_digits_ok k rest Hk) as (_ & _ & ->). cbn [bind]. rewrite (uwrap_id 32 k), (uwrap_id 32 (2 + k)) by (split; lia). unfold ITERS_BUF_SIZE.
  destruct (Z.ltb_spec 16 k); cbn [orb]; [reflexivity|]. destruct (Z.ltb_spec n (2 + k)); [reflexivity|lia].
Qed.

Lemma iters_over fuel rest n c : 18 <= n -> iters_loop (S fuel) (two_digits 16 ++ rest) n c = Throw undefined_behaviour.
Proof.
  intros Hn. cbn [iters_loop]. destruct (Z.eqb_spec n 0); [lia|]. destruct (two_digits_ok 16 rest ltac:(lia)) as (_ & _ & ->). cbn [bind]. change (u32 16) with 16. change (u32 (2 + 16)) with 18. unfold ITERS_BUF_SIZE.
  destruct (Z.ltb_spec n 18); [lia|]. reflexivity.
Qed.

Context `{GL : GmpLaws} `{RL : FormReducerLaws}.
Lemma ask_run D bs n fuel N s0 l : Forall (fun ds => request_ok ds /\ dec_value ds <> 0) l -> forall c, hw_run D bs n fuel N s0 (vdf c) -> hw_run D bs n fuel N s0 (vdf (ask l c)).
Proof.
  induction 1 as [|ds l [[Hl Hd] Hz] _ IH]; intros c H; [exact H|]. apply (IH (set_vdf _ c)). cbn [set_vdf vdf]. apply (run_more _ _ _ _ _ _ _ _ _ H). apply hw_reach_request; [exact (run_reach _ _ _ _ _ _ _ H)|].
  pose proof (dec_value_bound ds 15 Hd ltac:(lia)) as B. assert (10 ^ Z.of_nat 15 < 2 ^ 56) by reflexivity. lia.
Qed.
End Requests.

(** ** Reading the challenge *)

Definition three_digits (n : Z) : bytes := [48 + n / 100; 48 + n / 10 mod 10; 48 + n mod 10].

(** The type of the timelord, the length and the digits of the discriminant
    (which start with a sign), and the length and the bytes of the form. *)
Definition challenge_text (t : Z) (d_str form : bytes) : bytes := t :: three_digits (Z.of_nat (length d_str)) ++ d_str ++ [BQFC_FORM_SIZE] ++ form.
Definition challenge_ok (t : Z) (d_str form : bytes) : Prop :=
  (t = 83 \/ t = 78 \/ t = 84) /\ (exists x r, d_str = x :: r /\ is_digit x = false) /\ (length d_str < 350)%nat /\ length form = 100%nat.

Lemma three_digits_ok k x r : 0 <= k <= 999 -> is_digit x = false -> strtoul (three_digits k ++ x :: r) = Ok k.
Proof.
  intros Hk Hx. pose proof (Z.div_mod k 10 ltac:(lia)). pose proof (Z.mod_pos_bound k 10 ltac:(lia)). pose proof (Z.div_mod (k / 10) 10 ltac:(lia)). pose proof (Z.mod_pos_bound (k / 10) 10 ltac:(lia)).
  assert (E : k / 100 = k / 10 / 10) by (rewrite Z.div_div by lia; reflexivity). unfold three_digits. rewrite E.
  rewrite strtoul_digits; [|discriminate|repeat constructor; apply is_digit_spec; lia|cbn; lia|exact Hx]. unfold dec_value. cbn [fold_left]. f_equal. lia.
Qed.

Lemma challenge_length t d_str form : challenge_ok t d_str form -> length (challenge_text t d_str form) = (105 + length d_str)%nat.
Proof. intros (_ & _ & _ & Lf). unfold challenge_text. cbn [length]. rewrite !length_app, Lf. cbn [three_digits length]. lia. Qed.

Section Challenge.
Context `{Sock : Socket} `{G : Gmp} `{R : FormReducer} `{Srt : StdSort}.
Variables (mpz_set_str : bytes -> Z) (opt_aux opt_proof : Z).
Variables (t : Z) (d_str form : bytes).
Hypothesis H : challenge_ok t d_str form.
Abbreviation m := (Z.of_nat (length d_str)).
Abbreviation start := (challenge mpz_set_str opt_aux opt_proof).

(** What the buffer holds after [5] bytes. *)
Lemma challenge_head nb junk : (5 <= nb)%nat -> exists x r, firstn nb (challenge_text t d_str form) ++ junk = t :: three_digits m ++ x :: r /\ is_digit x = false.
Proof.
  intros Hn. destruct H as (_ & (x & r & E & Hx) & _ & _). assert (E2 : challenge_text t d_str form = t :: three_digits m ++ x :: r ++ [BQFC_FORM_SIZE] ++ form) by (unfold challenge_text; rewrite E; reflexivity).
  rewrite E2. destruct nb as [|[|[|[|[|nb]]]]]; try lia. cbn [three_digits app firstn].
  exists x, (firstn nb (r ++ BQFC_FORM_SIZE :: form) ++ junk). split; [reflexivity|exact Hx].
Qed.

Lemma challenge_start nb c junk : read_buf c = firstn nb (challenge_text t d_str form) ++ junk -> (5 <= nb)%nat ->
  byte_at (read_buf c) 0 = t /\ strtoul (skipn 1 (read_buf c)) = Ok m.
Proof.
  intros E Hn. destruct (challenge_head nb junk Hn) as (x & r & E2 & Hx). rewrite E, E2. split; [reflexivity|]. cbn [skipn]. destruct H as (_ & _ & Hl & _). apply three_digits_ok; [lia|exact Hx].
Qed.

Lemma challenge_tail nb c junk : read_buf c = firstn nb (challenge_text t d_str form) ++ junk -> (5 + length d_str <= nb)%nat ->
  firstn (Z.to_nat m) (skipn 4 (read_buf c)) = d_str /\ byte_at (read_buf c) (4 + m) = 100 /\ skipn (Z.to_nat (4 + m + 1)) (read_buf c) = firstn (nb - (5 + length d_str)) form ++ junk.
Proof.
  intros E Hn. pose (a := t :: three_digits m). assert (Ea : challenge_text t d_str form = (a ++ d_str ++ [BQFC_FORM_SIZE]) ++ form) by (unfold challenge_text, a; cbn [app]; now rewrite <- !app_assoc).
  assert (La : length (a ++ d_str ++ [BQFC_FORM_SIZE]) = (5 + length d_str)%nat) by (rewrite !length_app; cbn [a length three_digits]; lia).
  rewrite Ea, firstn_app, La, firstn_all2 in E by lia. rewrite <- app_assoc in E. set (z := firstn _ form ++ junk) in *. rewrite E. rewrite <- !app_assoc. split; [|split].
  - rewrite Nat2Z.id. change (skipn 4 (a ++ d_str ++ [BQFC_FORM_SIZE] ++ z)) with (d_str ++ [BQFC_FORM_SIZE] ++ z). rewrite firstn_app, firstn_all, Nat.sub_diag. cbn [firstn]. apply app_nil_r.
  - unfold byte_at. replace (Z.to_nat (4 + m)) with (length a + (length d_str + 0))%nat by (cbn [a length three_digits]; lia). rewrite !app_nth2_plus. reflexivity.
  - rewrite !app_assoc, skipn_app. rewrite <- app_assoc, La. replace (Z.to_nat (4 + m + 1)) with (5 + length d_str)%nat by lia. rewrite Nat.sub_diag, skipn_all2 by lia. reflexivity.
Qed.

Lemma challenge_cases nb c junk : read_buf c = firstn nb (challenge_text t d_str form) ++ junk -> (nb <= 105 + length d_str)%nat ->
  start (Z.of_nat nb) c =
    if (nb <? 5 + length d_str)%nat then Ok None
    else if (nb <? 105 + length d_str)%nat then Throw runtime_error
    else s <- init_vdf_state opt_aux opt_proof (mpz_set_str d_str) form N_ITERS ;;
      let c := call (start_hw_vdf (cD (cfg s)) (v_a (last_val (inp s))) (v_b (last_val (inp s))) (target_iters (cfg s))) (set_init true (set_vdf s c)) in
      c <- write_data (text "OK") c ;; Ok (Some (set_pos 0 (set_state RUNNING c))).
Proof.
  intros E Hn. pose proof H as (Ht & (x & r & Ex & _) & Hl & Hf). unfold challenge. assert (Hm : (1 <= length d_str)%nat) by (rewrite Ex; cbn; lia).
  destruct (Z.ltb_spec (Z.of_nat nb) 5) as [H5|H5]; [destruct (Nat.ltb_spec nb (5 + length d_str)); [reflexivity|lia]|].
  destruct (challenge_start nb c junk E ltac:(lia)) as [-> ->]. assert (Ht' : (t =? 83) || (t =? 78) || (t =? 84) = true) by (destruct Ht as [->|[->| ->]]; reflexivity). rewrite Ht'. cbn [negb bind].
  rewrite (u64_id (4 + m + 1)) by lia. destruct (Nat.ltb_spec nb (5 + length d_str)) as [H6|H6]; (destruct (Z.ltb_spec (Z.of_nat nb) (4 + m + 1)); try lia); [reflexivity|].
  destruct (Z.ltb_spec m D_STR_SIZE) as [_|Hx]; [|unfold D_STR_SIZE in Hx; lia]. cbn [negb]. destruct (challenge_tail nb c junk E H6) as (-> & -> & ->). change (schar 100) with 100. rewrite u64_id by lia.
  destruct (Nat.ltb_spec nb (105 + length d_str)); (destruct (Z.eqb_spec (Z.of_nat nb) (4 + m + 1 + 100)); try lia); cbn [negb]; [reflexivity|].
  replace (nb - (5 + length d_str))%nat with (length form) by lia. rewrite firstn_all. change (Z.to_nat BQFC_FORM_SIZE) with 100%nat. rewrite firstn_app, Hf, Nat.sub_diag, <- Hf, firstn_all. cbn [firstn]. now rewrite app_nil_r.
Qed.
End Challenge.

Lemma firstn_skipn_app {A} (l : list A) k j : firstn k l ++ firstn j (skipn k l) = firstn (k + j) l.
Proof. revert l. induction k as [|k IH]; intros l; [reflexivity|]. destruct l as [|a l]; [cbn; now rewrite firstn_nil|]. cbn [firstn skipn Nat.add app]. now rewrite IH. Qed.

(** The bytes that arrive are put behind those that are there. *)
Lemma read_more `{Sock : Socket} c msg k j junk more : read_buf c = firstn k msg ++ junk -> buf_pos c = Z.of_nat k -> (k + j <= length msg)%nat -> (length msg <= 512)%nat -> (0 < j)%nat ->
  incoming c = Data (firstn j (skipn k msg)) :: more ->
  exists junk', read_data c = Ok (Z.of_nat (k + j), mkconn (vdf c) (init_done c) (sock c) (firstn (k + j) msg ++ junk') (Z.of_nat (k + j)) (state c) more (sent c) (calls c)).
Proof.
  intros Eb Ep Hk Hm Hj Ei. unfold read_data, READ_BUF_SIZE. rewrite Ep, Ei. destruct (Z.eqb_spec (512 - Z.of_nat k) 0); [lia|].
  assert (Lg : length (firstn j (skipn k msg)) = j) by (rewrite length_firstn, length_skipn; lia). remember (firstn j (skipn k msg)) as got eqn:Egot.
  rewrite firstn_all2, skipn_all2 by lia. destruct got as [|g got']; [cbn in Lg; lia|]. rewrite Lg. exists (skipn (Z.to_nat (Z.of_nat k) + j) (read_buf c)).
  replace (Z.of_nat k + Z.of_nat j) with (Z.of_nat (k + j)) by lia. do 3 f_equal. unfold fill. rewrite Lg, Nat2Z.id, Eb, app_assoc. f_equal.
  rewrite firstn_app, firstn_firstn, Nat.min_id, length_firstn, Nat.min_l by lia. rewrite Nat.sub_diag. cbn [firstn]. rewrite app_nil_r, Egot. apply firstn_skipn_app.
Qed.

(** ** The properties *)


(** C30: the requests of the timelord are read as they were sent, in one
    piece: each number of iterations (of 1 to 15 digits, not 0) is requested, in order, the
    buffer is empty again and the computation goes on; a 0 stops the
    connection, whatever follows it. A length over 16 or past the end of what
    was read throws, and the length 16, which the check lets through, writes
    behind [iters_buf]. *)
Theorem hw_iters_read {G : Gmp} {R : FormReducer} {S : StdSort} {Sock : Socket} l rest n c :
  Forall (fun ds => request_ok ds /\ dec_value ds <> 0) l -> read_buf c = flat_map request l ++ rest -> 0 <= n -> buf_pos c = Z.of_nat (length (flat_map request l)) + n -> buf_pos c <= 512 ->
  (n = 0 -> handle_iters c = Ok (set_pos 0 (ask l c)) /\ (forall D bs k fuel N s0, hw_run D bs k fuel N s0 (vdf c) -> hw_run D bs k fuel N s0 (vdf (ask l c)))) /\
  (forall ds rest', rest = request ds ++ rest' -> request_ok ds -> dec_value ds = 0 -> Z.of_nat (length (request ds)) <= n ->
     handle_iters c = (c' <- stop_conn (ask l c) ;; Ok (if n =? Z.of_nat (length (request ds)) then set_pos 0 c' else c'))) /\
  (forall k rest', rest = two_digits k ++ rest' -> 0 < n -> 0 <= k <= 99 ->
     (16 < k \/ n < 2 + k -> handle_iters c = Throw runtime_error) /\ (k = 16 -> 18 <= n -> handle_iters c = Throw undefined_behaviour)).
Proof.
  intros Hl Eb Hn Ep Hb. pose proof (request_size l Hl) as Hsz. assert (Hloop : forall fuel, iters_loop (length l + fuel) (read_buf c) (buf_pos c) c = iters_loop fuel rest n (ask l c)) by (intros fuel; rewrite Eb, Ep; now apply iters_loop_ok; try lia).
  unfold handle_iters. replace (Z.to_nat (buf_pos c)) with (length l + (Z.to_nat (buf_pos c) - length l))%nat by lia. rewrite Hloop. split; [|split].
  - intros ->. replace (iters_loop _ rest 0 (ask l c)) with (Ok (0, ask l c)) by (now destruct (Z.to_nat (buf_pos c) - length l)%nat). split; [reflexivity|]. intros D bs k fuel N s0. now apply ask_run.
  - intros ds rest' -> Hd Hz Hlen. destruct (Z.to_nat (buf_pos c) - length l)%nat as [|m] eqn:Em; [pose proof (request_size [] ltac:(constructor)); destruct Hd; unfold request in Hlen; rewrite length_app in Hlen; cbn [length two_digits] in Hlen; lia|].
    replace n with (Z.of_nat (length (request ds)) + (n - Z.of_nat (length (request ds)))) at 1 by lia. rewrite iters_turn by (assumption || lia). rewrite Hz. cbn [Z.eqb].
    destruct (stop_conn (ask l c)) as [c'|]; [|reflexivity]. cbn [bind]. destruct (Z.eqb_spec n (Z.of_nat (length (request ds)))) as [->|]; [now rewrite Z.sub_diag|]. destruct (Z.eqb_spec (n - Z.of_nat (length (request ds))) 0); [lia|reflexivity].
  - intros k rest' -> H0 Hk. destruct (Z.to_nat (buf_pos c) - length l)%nat as [|m] eqn:Em; [lia|]. split; [intros Hbad; now rewrite iters_bad by lia|]. intros -> Hn18. now rewrite iters_over.
Qed.

(** C31: how a challenge of the timelord is received, in pieces. After [k]
    bytes of it [j] more arrive: the connection waits while the form's
    size is not there; with the last byte the state is set up for the discriminant and form that
    were sent, the hardware is started on them, "OK" is sent and the
    connection is running, at the start of a computation; but a piece that ends
    inside the form throws, although the rest of it might be on its way. The
    hardware is given the very pair that [bqfc_deserialize] leaves, also when
    the bytes are not its canonical ones; for a good discriminant the start throws only on a trap
    or a pair that is no form of it. *)
Theorem hw_challenge_read {G : Gmp} {GL : GmpLaws G} {R : FormReducer} {RL : FormReducerLaws R} {S : StdSort} {Sock : Socket} connects fresh mpz_set_str opt_aux opt_proof fuel t d_str form c k j junk more :
  challenge_ok t d_str form -> state c = WAITING -> (forall buf, socket_write buf = Z.of_nat (length buf)) ->
  let msg := challenge_text t d_str form in
  read_buf c = firstn k msg ++ junk -> buf_pos c = Z.of_nat k -> (0 < j)%nat -> (k + j <= length msg)%nat -> incoming c = Data (firstn j (skipn k msg)) :: more ->
  let run := handle_conn connects fresh mpz_set_str opt_aux opt_proof fuel false c in
  ((k + j < 5 + length d_str)%nat -> exists junk', run = Ok (mkconn (vdf c) (init_done c) (sock c) (firstn (k + j) msg ++ junk') (Z.of_nat (k + j)) WAITING more (sent c) (calls c))) /\
  ((5 + length d_str <= k + j < 105 + length d_str)%nat -> run = Throw runtime_error) /\
  ((k + j)%nat = length msg ->
    match init_vdf_state opt_aux opt_proof (mpz_set_str d_str) form N_ITERS with
    | Throw e => run = Throw e
    | Ok s => exists buf, run = Ok (mkconn s true (sock c) buf 0 RUNNING more (sent c ++ text "OK") (calls c ++ [start_hw_vdf (cD (cfg s)) (v_a (last_val (inp s))) (v_b (last_val (inp s))) (target_iters (cfg s))])) /\
        (good_disc (mpz_set_str d_str) -> (forall f g, class (mpz_set_str d_str) f -> reducer_reduce f = Ok g -> reduced g) -> 0 <= opt_aux <= 64 -> 0 <= opt_proof < 64 ->
         forall gfuel, hw_run (mpz_set_str d_str) form N_ITERS gfuel 0 s s)
    end) /\
  ((k + j)%nat = length msg -> good_disc (mpz_set_str d_str) ->
    match bqfc_deserialize (repeat 0 100) (0, 0) (mpz_set_str d_str) form 100 1024 false with
    | Throw e => run = Throw e
    | Ok (_, (a, b)) =>
        if (0 <? a) && ((b * b - mpz_set_str d_str) mod (4 * a) =? 0) then
          exists c', run = Ok c' /\ sent c' = sent c ++ text "OK" /\ calls c' = calls c ++ [start_hw_vdf (mpz_set_str d_str) a b (target_iters (cfg (vdf c')))]
        else run = Throw runtime_error
    end).
Proof.
  intros Hc Es Writes msg Eb Ep Hj Hkj Ei run. pose proof (challenge_length _ _ _ Hc) as Lm. fold msg in Lm. pose proof Hc as (_ & _ & Hl & _).
  destruct (read_more c msg k j junk more Eb Ep Hkj ltac:(lia) Hj Ei) as (junk' & Er). set (c1 := mkconn _ _ _ _ _ _ _ _ _) in Er.
  pose proof (challenge_cases mpz_set_str opt_aux opt_proof t d_str form Hc (k + j) c1 junk' eq_refl ltac:(lia)) as HC.
  assert (Erun : run = (r <- challenge mpz_set_str opt_aux opt_proof (Z.of_nat (k + j)) c1 ;; match r with None => Ok c1 | Some c => conn_end connects fresh false c end)).
  { unfold run, handle_conn. cbn [andb bind]. rewrite Es, Er. reflexivity. }
  rewrite HC in Erun. split; [|split; [|split]]; intros H.
  - destruct (Nat.ltb_spec (k + j) (5 + length d_str)); [|lia]. exists junk'. rewrite Erun. cbn [bind]. unfold c1. now rewrite Es.
  - destruct (Nat.ltb_spec (k + j) (5 + length d_str)); [lia|]. destruct (Nat.ltb_spec (k + j) (105 + length d_str)); [exact Erun|lia].
  - destruct (Nat.ltb_spec (k + j) (5 + length d_str)); [lia|]. destruct (Nat.ltb_spec (k + j) (105 + length d_str)); [lia|].
    destruct (init_vdf_state opt_aux opt_proof (mpz_set_str d_str) form N_ITERS) as [s|e] eqn:Ev; cbn [bind] in Erun; [|exact Erun]. rewrite (write_ok Writes) in Erun. cbn [bind] in Erun. eexists. split; [exact Erun|].
    intros HD HF Ha Hp gfuel. split; [exact HD|exact HF|unfold N_ITERS; lia|exists opt_aux, opt_proof; now repeat (split; [assumption|])|constructor].
  - intros HD. destruct (Nat.ltb_spec (k + j) (5 + length d_str)); [lia|]. destruct (Nat.ltb_spec (k + j) (105 + length d_str)); [lia|].
    pose proof (init_result opt_aux opt_proof (mpz_set_str d_str) form N_ITERS HD) as HI. destruct (bqfc_deserialize _ _ _ _ _ _ _) as [[ret [a b]]|e]; [|now rewrite HI in Erun].
    destruct ((0 <? a) && _); [|now rewrite HI in Erun]. destruct HI as (s & Ev & ED & El). rewrite Ev in Erun. cbn [bind] in Erun. rewrite (write_ok Writes) in Erun. cbn [bind] in Erun.
    rewrite ED, El in Erun. eexists. split; [exact Erun|]. now split.
Qed.

(** A turn of the event loop for a running VDF, for right readings: a good
    value is processed and the hardware is left alone; a bad one stops the hardware and
    starts it again from a right form of the computation, for the iterations
    that remain from there; the connection is idle when the target
    is reached; and the computation goes on in each case. *)
Theorem hw_loop_restarts {G : Gmp} {GL : GmpLaws G} {R : FormReducer} {RL : FormReducerLaws R} {S : StdSort} {SL : StdSortLaws S} D bs n gfuel N s0 c val :
  hw_run D bs n gfuel N s0 (vdf c) -> state c = RUNNING -> reading_ok (cfg s0) (values (sto s0) 0) (vdf c) val -> NoDup (asked (queue (vdf c))) ->
  let fuel := length (asked (queue (vdf c))) in let m := Z.of_nat (turns 4000 fuel (queue (vdf c))) in
  N + m < 2 ^ 16 - 1 -> Z.of_nat (length (proofs (queue (vdf c)))) + 3 * m < 2 ^ 16 - 1 ->
  exists r s c', hw_proof_add_value fuel val (vdf c) = Ok (r, s) /\ loop_value fuel val c = Ok c' /\ hw_run D bs n gfuel (N + m) s0 (vdf c') /\
    (state c' = if completed (inp (vdf c')) then IDLING else RUNNING) /\ sent c' = sent c /\
    let rest := if completed (inp (vdf c')) then [stop_hw_vdf] else [] in
    (0 <= r -> vdf c' = s /\ calls c' = calls c ++ rest) /\
    (r < 0 -> exists f pos, pw D (values (sto s0) 0) (2 ^ (pos * 4000)) f /\ 0 <= pos /\ pos * 4000 <= cur_iters (inp (vdf c)) /\ iters_offset (inp (vdf c')) = pos * 4000 /\
       calls c' = calls c ++ [stop_hw_vdf; start_hw_vdf D (fa f) (fb f) (target_iters (cfg s0) - pos * 4000)] ++ rest).
Proof.
  intros Run Hst HR Hnd fuel m HN Hl. destruct (run_config D bs n gfuel N s0 (vdf c) Run) as (Cx & ED & EI & HT & HC & _). destruct (run_ok (SrtL := SL) D bs n gfuel N s0 (vdf c) Run) as [K _]. rewrite <- ED in Cx.
  pose proof (run_full _ _ _ _ _ _ _ Run) as Full. rewrite <- ED in Full.
  destruct (add_value_ok (cfg s0) HC _ Cx reduced ltac:(auto) N fuel val (vdf c) K HR Hnd (le_n _)) as (r & s & E & K' & Hr0 & Hr1 & _); [now rewrite EI|now rewrite EI|]. rewrite EI in K'. fold m in K'.
  assert (Reach : hw_reach (cfg s0) (values (sto s0) 0) gfuel s0 (N + m) s).
  { pose proof (hw_reach_value (cfg s0) (values (sto s0) 0) gfuel s0 N (vdf c) val r s (run_reach _ _ _ _ _ _ _ Run) HR Hnd) as HV. rewrite EI in HV. now apply HV. }
  exists r, s. unfold loop_value. rewrite E. cbn [bind]. destruct (Z.ltb_spec r 0) as [Hr|Hr].
  - destruct (restart_ok (cfg s0) HC _ (N + m) s K') as (f & s' & pos & E' & K2 & H0 & Hle & P & Eo & _). rewrite E'. cbn [bind]. rewrite (k_cfg _ _ _ _ _ K2), EI, ED in *.
    assert (Hcur : cur_iters (inp s) = cur_iters (inp (vdf c))) by (rewrite (k_cur _ _ _ _ _ K'), (k_cur _ _ _ _ _ K), Hr1 by lia; reflexivity). unfold right in P. rewrite ED in P.
    assert (Hu : u64 (target_iters (cfg s0) - iters_offset (inp s')) = target_iters (cfg s0) - pos * 4000).
    { rewrite Eo. pose proof (k_last _ _ _ _ _ K') as [HL _]. rewrite <- (k_cur _ _ _ _ _ K') in HL. pose proof (cf_target _ HC). apply u64_id. lia. }
    rewrite Hu. eexists. split; [reflexivity|]. split; [reflexivity|]. cbn [vdf set_vdf call]. assert (Run' : hw_run D bs n gfuel (N + m) s0 s') by exact (run_more _ _ _ _ _ _ _ _ _ Run (hw_reach_restart _ _ _ _ _ _ _ _ Reach E')).
    destruct (completed (inp s')) eqn:Ec; cbn [vdf set_vdf call set_state state sent calls]; rewrite ?Ec; (split; [exact Run'|]); (split; [first [exact Hst|reflexivity]|]); (split; [reflexivity|]); (split; [lia|]); intros _; exists f, pos; rewrite <- Hcur, <- ?app_assoc; now repeat (split; [assumption|]).
  - eexists. split; [reflexivity|]. split; [reflexivity|]. cbn [vdf set_vdf call]. assert (Run' : hw_run D bs n gfuel (N + m) s0 s) by exact (run_more _ _ _ _ _ _ _ _ _ Run Reach).
    destruct (completed (inp s)) eqn:Ec; cbn [vdf set_vdf call set_state state sent calls]; rewrite ?Ec; (split; [exact Run'|]); (split; [first [exact Hst|reflexivity]|]); (split; [reflexivity|]); (split; [|lia]); intros _; (split; [reflexivity|]); now rewrite ?app_nil_r.
Qed.

(** ** Witnesses *)

Definition full_socket : Socket := fun buf => Z.of_nat (length buf).
Definition conn_47 (s : vdf_state) (buf : bytes) : vdf_conn := mkconn s true true (buf ++ repeat 0 (512 - length buf)) (Z.of_nat (length buf)) RUNNING [] [] [].


Lemma hw_iters_read_witness : let msg := text "0730000000252" in
  exists c, handle_iters (Srt := insertion_sort) (Sock := full_socket) (conn_47 start_47 msg) = Ok c /\ req_proofs (queue (vdf c)) = [(52, false); (3000000, false)] /\ buf_pos c = 0.
Proof.
  intros msg. pose proof (hw_iters_read (G := Ref.gmp) (R := vdf_new_reducer) (S := insertion_sort) (Sock := full_socket) [text "3000000"; text "52"] (repeat 0 (512 - length msg)) 0 (conn_47 start_47 msg)) as H.
  destruct H as (H & _); [repeat constructor; vm_compute; discriminate || lia|vm_compute; reflexivity|lia|reflexivity|vm_compute; discriminate|]. destruct (H eq_refl) as [E _].
  eexists. split; [exact E|]. split; vm_compute; reflexivity.
Defined.

(** The generator (2, 1) without its flag: not its canonical bytes. *)
Definition unflagged_47 : bytes := [0; 0; 2] ++ repeat 0 63 ++ [1] ++ repeat 0 31 ++ [1; 0].

Example unflagged_47_read : bqfc_deserialize (G := Ref.gmp) (repeat 0 100) (0, 0) (-47) unflagged_47 100 1024 false = Ok (1, (2, 1)).
Proof. vm_compute. reflexivity. Qed.

Lemma hw_challenge_read_witness : let msg := challenge_text 78 (text "-47") bs_47 in
  (exists c', handle_conn (G := Ref.gmp) (Srt := insertion_sort) (Sock := full_socket) Refused [] (fun _ => -47) 0 0 O false
     (mkconn start_47 false true (firstn 3 (challenge_text 78 (text "-47") unflagged_47) ++ repeat 0 509) 3 WAITING [Data (skipn 3 (challenge_text 78 (text "-47") unflagged_47))] [] []) = Ok c' /\
     sent c' = text "OK" /\ calls c' = [start_hw_vdf (-47) 2 1 (target_iters (cfg (vdf c')))]) /\
  exists buf calls', handle_conn (G := Ref.gmp) (Srt := insertion_sort) (Sock := full_socket) Refused [] (fun _ => -47) 0 0 O false (mkconn start_47 false true (firstn 3 msg ++ repeat 0 509) 3 WAITING [Data (skipn 3 msg)] [] []) =
    Ok (mkconn (match init_vdf_state (G := Ref.gmp) 0 0 (-47) bs_47 N_ITERS with Ok s => s | Throw _ => start_47 end) true true buf 0 RUNNING [] (text "OK") calls').
Proof.
  intros msg. assert (Hc : forall f, length f = 100%nat -> challenge_ok 78 (text "-47") f).
  { intros f Hf. split; [tauto|]. split; [exists 45, [52; 55]; split; reflexivity|]. split; [cbn; lia|exact Hf]. }
  pose proof (fun f Hf => hw_challenge_read (GL := Ref.laws) (RL := vdf_new_reducer_laws) (S := insertion_sort) (Sock := full_socket) Refused [] (fun _ => -47) 0 0 O 78 (text "-47") f
    (mkconn start_47 false true (firstn 3 (challenge_text 78 (text "-47") f) ++ repeat 0 509) 3 WAITING [Data (skipn 3 (challenge_text 78 (text "-47") f))] [] []) 3 105 (repeat 0 509) []
    (Hc f Hf) eq_refl (fun _ => eq_refl) eq_refl eq_refl ltac:(lia)) as K. split.
  - destruct (K unflagged_47 eq_refl ltac:(vm_compute; lia) ltac:(vm_compute; reflexivity)) as (_ & _ & _ & H). specialize (H ltac:(vm_compute; reflexivity) good_disc_47).
    cbv beta in H. rewrite unflagged_47_read in H. exact H.
  - destruct (K bs_47 eq_refl ltac:(vm_compute; lia) ltac:(vm_compute; reflexivity)) as (_ & _ & H & _). specialize (H ltac:(vm_compute; reflexivity)).
    assert (HI : match init_vdf_state (G := Ref.gmp) 0 0 (-47) bs_47 N_ITERS with Ok _ => true | Throw _ => false end = true) by (vm_compute; reflexivity).
    cbv beta in H. destruct (init_vdf_state 0 0 (-47) bs_47 N_ITERS) as [s|e]; [|discriminate]. destruct H as (buf & H & _). eexists. eexists. exact H.
Defined.

(** The value (3, 2) is no form of the discriminant: the hardware starts again from the first form. *)
Lemma hw_loop_restarts_witness : exists c' f pos, loop_value (G := Ref.gmp) (Srt := insertion_sort) 1 (mkvalue 8 3 2) (conn_47 value_47 []) = Ok c' /\ pw (-47) (mkform 2 1 6) (2 ^ (pos * 4000)) f /\
  calls c' = [stop_hw_vdf; start_hw_vdf (-47) (fa f) (fb f) (8000 - pos * 4000)].
Proof.
  assert (EC : cD (cfg start_47) = -47) by (vm_compute; reflexivity). assert (HR : reading_ok (cfg start_47) (values (sto start_47) 0) value_47 (mkvalue 8 3 2)).
  { split; [cbn; lia|]. split; [vm_compute; discriminate|]. split; [vm_compute; discriminate|]. intros f Df E1 E2. rewrite EC in Df. destruct f as [a b c]. unfold disc in Df. cbn [fa fb fc v_a v_b] in *. subst a b. lia. }
  assert (Ha : asked (queue value_47) = [2]) by (vm_compute; reflexivity).
  destruct (hw_loop_restarts (GL := Ref.laws) (RL := vdf_new_reducer_laws) (SL := insertion_sort_laws) (-47) bs_47 8000 1000 1 start_47 (conn_47 value_47 []) (mkvalue 8 3 2) (run_47 1000) eq_refl HR) as (r & s & c' & E & El & _ & _ & _ & H).
  - change (vdf (conn_47 value_47 [])) with value_47. rewrite Ha. repeat constructor. intros [].
  - vm_compute. reflexivity.
  - vm_compute. reflexivity.
  - cbv zeta in H. destruct H as [_ H]. change (vdf (conn_47 value_47 [])) with value_47 in *. rewrite Ha in E, El. cbn [length] in E, El.
    assert (Er : match hw_proof_add_value (G := Ref.gmp) (Srt := insertion_sort) 1 (mkvalue 8 3 2) value_47 with Ok (r, _) => r | Throw _ => 0 end = -1) by (vm_compute; reflexivity). rewrite E in Er. subst r.
    destruct (H ltac:(lia)) as (f & pos & Hf & _ & _ & _ & Hcalls). assert (Ev : values (sto start_47) 0 = mkform 2 1 6) by (vm_compute; reflexivity). rewrite Ev in Hf.
    exists c', f, pos. split; [exact El|]. split; [exact Hf|]. rewrite Hcalls. assert (Et : target_iters (cfg start_47) = 8000) by (vm_compute; reflexivity). rewrite Et.
    replace (completed (inp (vdf c'))) with false; [reflexivity|]. unfold loop_value in El. change (vdf (conn_47 value_47 [])) with value_47 in El.
    assert (Ec : match loop_value (G := Ref.gmp) (Srt := insertion_sort) 1 (mkvalue 8 3 2) (conn_47 value_47 []) with Ok c => completed (inp (vdf c)) | Throw _ => true end = false) by (vm_compute; reflexivity). unfold loop_value in Ec. change (vdf (conn_47 value_47 [])) with value_47 in Ec. rewrite El in Ec. now symmetry.
Defined.
