(* ===== verification/Session.v ===== *)
(** [src/src/vdf_client.cpp] and [src/src/vdf_client_session.h]: what the client reads from and writes
    to the timelord, and the sessions of its three kinds of proofs. *)
From Stdlib Require Import Ascii String Sorted Permutation.
From S2P Require Import Prelude Words NumTheory Gmp QuadForm FormClass Integer Forms Bqfc ProofCommon Segments Prover HwQueue HwRequests HwValues HwProver HwClient.

(** ** Reading *)

(** [boost::asio::read] of [n] bytes: what was read, whether the stream ended, and the rest. *)
Definition asio_read (n : Z) (inp : bytes) : bytes * bool * bytes :=
  (firstn (Z.to_nat n) inp, Z.of_nat (length inp) <? n, skipn (Z.to_nat n) inp).

Definition kIterationHeaderDigits : Z := 2.
Definition kMaxIterationDigits : Z := 20.

(** The digits of the body, with the check for an overflow. *)
Fixpoint iteration_body (data : bytes) (iters : Z) : res Z :=
  match data with
  | [] => Ok iters
  | c :: data =>
      if (c <? 48) || (57 <? c) then Throw runtime_error
      else
        let digit := c - 48 in
        if (2 ^ 64 - 1 - digit) / 10 <? iters then Throw runtime_error
        else iteration_body data (u64 (u64 (iters * 10) + digit))
  end.

Definition ReadIteration (inp : bytes) : res (Z * bytes) :=
  let '(size_buf, error, inp) := asio_read kIterationHeaderDigits inp in
  if error : bool then Throw runtime_error
  else
    let c0 := nth 0 size_buf 0 in let c1 := nth 1 size_buf 0 in
    if (c0 <? 48) || (57 <? c0) || (c1 <? 48) || (57 <? c1) then Throw runtime_error
    else
      let size := (c0 - 48) * 10 + (c1 - 48) in
      if size =? 0 then Ok (0, inp)
      else if kMaxIterationDigits <? size then Throw runtime_error
      else
        let '(data, error, inp) := asio_read size inp in
        if error : bool then Throw runtime_error
        else iters <- iteration_body data 0 ;; Ok (iters, inp).

(** [atoi] on a text of at most three characters. *)
Fixpoint atoi_digits (buf : bytes) (n : Z) : Z :=
  match buf with c :: r => if is_digit c then atoi_digits r (10 * n + (c - 48)) else n | [] => n end.
Definition atoi (buf : bytes) : Z :=
  match skip_spaces buf with
  | 45 :: r => - atoi_digits r 0
  | 43 :: r => atoi_digits r 0
  | r => atoi_digits r 0
  end.

Definition DISC_SIZE : Z := 350.

(** [disc] and [initial_form_s], which is zero before. *)
Definition InitSession (inp : bytes) : res (bytes * bytes * bytes) :=
  let '(disc_size, error, inp) := asio_read 3 inp in
  if error : bool then Throw runtime_error
  else
    let disc_int_size := atoi disc_size in
    if (disc_int_size <=? 0) || (DISC_SIZE <=? disc_int_size) then Throw runtime_error
    else
      let '(disc, error, inp) := asio_read disc_int_size inp in
      if error : bool then Throw runtime_error
      else
        let '(form_size, error, inp) := asio_read 1 inp in
        if error : bool then Throw runtime_error
        else
          let form_size := schar (nth 0 form_size 0) in
          if (form_size <=? 0) || (BQFC_FORM_SIZE <? form_size) then Throw runtime_error
          else
            let '(form, error, inp) := asio_read form_size inp in
            if error : bool then Throw runtime_error
            else Ok (disc, form ++ repeat 0 (Z.to_nat (BQFC_FORM_SIZE - form_size)), inp).

(** ** Writing *)

Definition WriteProof (iteration : Z) (result : Proof_t) : bytes :=
  let data := [] in
  let int_bytes := Int64ToBytes iteration in
  let data := VectorAppendArray data int_bytes 8 in
  let int_bytes := Int64ToBytes (Z.of_nat (length (pr_y result))) in
  let data := VectorAppendArray data int_bytes 8 in
  let data := VectorAppend data (pr_y result) in
  let data := data ++ [u8 (witness_type result)] in
  let data := VectorAppend data (pr_proof result) in
  let str_result := text (BytesToStr data) in
  Int32ToBytes (Z.of_nat (length str_result)) ++ str_result.

(** A proof that was finished is written, one that was stopped is not. *)
Definition CreateAndWriteProof (iteration : Z) (result : Proof_t) (stop_signal : bool) : bytes :=
  if stop_signal then [] else WriteProof iteration result.

(** [None] when the answer is not ACK. *)
Definition FinishSession (inp : bytes) : bytes * bool :=
  let '(ack, _, _) := asio_read 3 inp in
  (text "STOP", if list_eq_dec Z.eq_dec ack (text "ACK") then true else false).

(** ** The sessions *)

(** [SessionFastAlgorithm]: the iterations for which a thread is started, up to the 0. *)
Fixpoint fast_session (fuel : nat) (inp : bytes) (threads : list Z) : res (list Z * bytes) :=
  ' (iters, inp) <- ReadIteration inp ;;
  if iters =? 0 then Ok (threads, inp)
  else match fuel with O => Throw out_of_fuel | S fuel => fast_session fuel inp (threads ++ [iters]) end.

(** [SessionOneWeso]: the iterations that are proved, if any; later numbers are ignored. *)
Fixpoint ignore_iterations (fuel : nat) (inp : bytes) : res bytes :=
  ' (iter, inp) <- ReadIteration inp ;;
  if iter =? 0 then Ok inp
  else match fuel with O => Throw out_of_fuel | S fuel => ignore_iterations fuel inp end.
Definition one_session (fuel : nat) (inp : bytes) : res (option Z * bytes) :=
  ' (iter, inp) <- ReadIteration inp ;;
  if iter =? 0 then Ok (None, inp)
  else inp <- ignore_iterations fuel inp ;; Ok (Some iter, inp).

Definition kMaxProcessesAllowed : Z := 100.

(** [SessionTwoWeso]: the threads by their iterations, [stop_vector[100]], and the
    set [seen_iterations] in its order. *)
Record two_session : Type := mktwo {
  threads : list Z;
  stop_vector : list bool;
  seen_iterations : list (Z * Z);
}.
(** [std::atomic<bool> stop_vector[100]] is not initialised: it holds [junk]. *)
Definition two_start (junk : list bool) : two_session := mktwo [] junk [].

(** The loop over the set: the largest iterations with their thread, the
    smallest, and whether [iters] is new. *)
Fixpoint scan_seen (seen : list (Z * Z)) (iters max_iter max_id min_iter : Z) : Z * Z * Z * bool :=
  match seen with
  | [] => (max_iter, max_id, min_iter, true)
  | (i, id) :: seen =>
      let '(max_iter, max_id) := if max_iter <? i then (i, id) else (max_iter, max_id) in
      let min_iter := if i <? min_iter then i else min_iter in
      if i =? iters then (max_iter, max_id, min_iter, false) else scan_seen seen iters max_iter max_id min_iter
  end.

Definition pair_lt (a b : Z * Z) : bool := (fst a <? fst b) || ((fst a =? fst b) && (snd a <? snd b)).
Fixpoint set_insert (x : Z * Z) (l : list (Z * Z)) : list (Z * Z) :=
  match l with
  | [] => [x]
  | y :: r => if pair_lt x y then x :: l else if pair_lt y x then y :: set_insert x r else l
  end.
Definition set_erase (x : Z * Z) (l : list (Z * Z)) : list (Z * Z) := filter (fun y => pair_lt x y || pair_lt y x) l.

(** [stop_vector[i] = b]. *)
Definition set_stop (v : list bool) (i : Z) (b : bool) : res (list bool) :=
  if (0 <=? i) && (i <? 100) then Ok (update v (Z.to_nat i) b) else Throw undefined_behaviour.

(** The request of a proof. [kMaxProcessesAllowed - 500000] is compared as a [uint64_t]. *)
Definition two_request (iters : Z) (s : two_session) : res two_session :=
  let '(max_iter, max_iter_thread_id, min_iter, unique) := scan_seen (seen_iterations s) iters 0 (2 ^ 64 - 1) (2 ^ 62) in
  if negb unique then Ok s
  else if u64 (kMaxProcessesAllowed - 500000) <=? iters then Ok s
  else
    let n := Z.of_nat (length (threads s)) in
    if (n <? kMaxProcessesAllowed) || (iters <? min_iter) then
      let seen := set_insert (iters, n) (seen_iterations s) in
      stop <- set_stop (stop_vector s) n false ;;
      let threads := threads s ++ [iters] in
      if kMaxProcessesAllowed <? Z.of_nat (length threads) then
        stop <- set_stop stop max_iter_thread_id true ;;
        Ok (mktwo threads stop (set_erase (max_iter, max_iter_thread_id) seen))
      else Ok (mktwo threads stop seen)
    else Ok s.

(** The stop: every thread's flag is set. *)
Fixpoint stop_threads (n : nat) (i : Z) (v : list bool) : res (list bool) :=
  match n with O => Ok v | S n => v <- set_stop v i true ;; stop_threads n (i + 1) v end.

Fixpoint two_loop (fuel : nat) (inp : bytes) (s : two_session) : res (two_session * bytes) :=
  ' (iters, inp) <- ReadIteration inp ;;
  if iters =? 0 then v <- stop_threads (length (threads s)) 0 (stop_vector s) ;; Ok (mktwo (threads s) v (seen_iterations s), inp)
  else
    s <- two_request iters s ;;
    match fuel with O => Throw out_of_fuel | S fuel => two_loop fuel inp s end.

(** ** Numbers of iterations *)

Lemma dec_mono ds : Forall (fun c => is_digit c = true) ds -> forall n, 0 <= n -> n <= fold_left (fun n c => 10 * n + (c - 48)) ds n.
Proof.
  induction 1 as [|c ds Hc _ IH]; intros n Hn; cbn [fold_left]; [lia|]. apply is_digit_spec in Hc. specialize (IH (10 * n + (c - 48)) ltac:(lia)). lia.
Qed.

(** The check of the loop is the check of the whole number. *)
Lemma iteration_body_spec data : forall n, 0 <= n < 2 ^ 64 ->
  iteration_body data n = if forallb is_digit data && (fold_left (fun n c => 10 * n + (c - 48)) data n <? 2 ^ 64) then Ok (fold_left (fun n c => 10 * n + (c - 48)) data n) else Throw runtime_error.
Proof.
  induction data as [|c data IH]; intros n Hn; cbn [iteration_body forallb fold_left].
  { destruct (Z.ltb_spec n (2 ^ 64)); [reflexivity|lia]. }
  replace ((c <? 48) || (57 <? c)) with (negb (is_digit c)) by (unfold is_digit; now rewrite negb_andb, <- !Z.ltb_antisym).
  destruct (is_digit c) eqn:Ec; [|reflexivity]. apply is_digit_spec in Ec. cbn [negb andb].
  destruct (Z.ltb_spec ((2 ^ 64 - 1 - (c - 48)) / 10) n) as [Ho|Ho].
  - pose proof (Z.div_mod (2 ^ 64 - 1 - (c - 48)) 10 ltac:(lia)). pose proof (Z.mod_pos_bound (2 ^ 64 - 1 - (c - 48)) 10 ltac:(lia)).
    destruct (forallb is_digit data) eqn:Ed; [|reflexivity]. rewrite forallb_forall, <- Forall_forall in Ed. pose proof (dec_mono data Ed (10 * n + (c - 48)) ltac:(lia)).
    destruct (Z.ltb_spec (fold_left (fun n c => 10 * n + (c - 48)) data (10 * n + (c - 48))) (2 ^ 64)); [lia|reflexivity].
  - pose proof (Z.div_mod (2 ^ 64 - 1 - (c - 48)) 10 ltac:(lia)). pose proof (Z.mod_pos_bound (2 ^ 64 - 1 - (c - 48)) 10 ltac:(lia)).
    rewrite (uwrap_id 64 (n * 10)), (uwrap_id 64 (n * 10 + (c - 48))) by (split; lia). rewrite (Z.mul_comm n 10). apply IH. lia.
Qed.

(** The texts that hold a number of iterations. *)
Definition iteration_text (inp : bytes) (v : Z) (rest : bytes) : Prop :=
  exists ds, inp = request ds ++ rest /\ (length ds <= 20)%nat /\ Forall (fun c => is_digit c = true) ds /\ v = dec_value ds /\ v < 2 ^ 64.

Lemma read_request ds rest : (length ds <= 20)%nat -> 
  ReadIteration (request ds ++ rest) = if forallb is_digit ds && (dec_value ds <? 2 ^ 64) then Ok (dec_value ds, rest) else Throw runtime_error.
Proof.
  intros Hl. unfold ReadIteration, asio_read, request, kIterationHeaderDigits, kMaxIterationDigits. cbn [two_digits app]. set (k := Z.of_nat (length ds)).
  change (Z.to_nat 2) with 2%nat. cbn [firstn skipn length nth]. pose proof (Z.div_mod k 10 ltac:(lia)). pose proof (Z.mod_pos_bound k 10 ltac:(lia)). assert (0 <= k <= 20) by lia.
  destruct (Z.ltb_spec (Z.of_nat (S (S (length (ds ++ rest))))) 2); [lia|].
  replace ((48 + k / 10 <? 48) || (57 <? 48 + k / 10) || (48 + k mod 10 <? 48) || (57 <? 48 + k mod 10)) with false by (symmetry; rewrite !orb_false_iff, !Z.ltb_ge; lia).
  replace ((48 + k / 10 - 48) * 10 + (48 + k mod 10 - 48)) with k by lia. destruct (Z.eqb_spec k 0) as [E|E].
  { destruct ds; [reflexivity|cbn [length] in k; lia]. }
  destruct (Z.ltb_spec 20 k); [lia|]. rewrite length_app. destruct (Z.ltb_spec (Z.of_nat (length ds + length rest)) k); [lia|].
  unfold k. rewrite Nat2Z.id, firstn_app, firstn_all, Nat.sub_diag, skipn_app, skipn_all, Nat.sub_diag. cbn [firstn skipn app]. rewrite app_nil_r, iteration_body_spec by lia.
  fold (dec_value ds). now destruct (forallb is_digit ds && _).
Qed.

Lemma read_iteration_ok inp v rest : iteration_text inp v rest -> ReadIteration inp = Ok (v, rest).
Proof.
  intros (ds & -> & Hl & Hd & -> & Hv). rewrite read_request by exact Hl. rewrite Forall_forall, <- forallb_forall in Hd. rewrite Hd.
  destruct (Z.ltb_spec (dec_value ds) (2 ^ 64)); [reflexivity|lia].
Qed.

(** Whatever is read without an error is such a text. *)
Lemma read_iteration_inv inp : match ReadIteration inp with
  | Ok (v, rest) => iteration_text inp v rest
  | Throw e => e = runtime_error
  end.
Proof.
  destruct inp as [|c0 [|c1 inp]]; [reflexivity..|]. unfold ReadIteration, asio_read, kIterationHeaderDigits, kMaxIterationDigits. change (Z.to_nat 2) with 2%nat. cbn [firstn skipn length nth].
  destruct (Z.ltb_spec (Z.of_nat (S (S (length inp)))) 2); [reflexivity|].
  destruct ((c0 <? 48) || (57 <? c0) || (c1 <? 48) || (57 <? c1)) eqn:Eh; [reflexivity|]. rewrite !orb_false_iff, !Z.ltb_ge in Eh.
  set (k := (c0 - 48) * 10 + (c1 - 48)). assert (Ek : two_digits k = [c0; c1]).
  { unfold two_digits. replace (k / 10) with (c0 - 48) by (apply (Z.div_unique k 10 _ (c1 - 48)); lia). replace (k mod 10) with (c1 - 48) by (apply (Z.mod_unique k 10 (c0 - 48)); lia). f_equal; [lia|f_equal; lia]. }
  assert (0 <= k <= 99) by lia. destruct (Z.eqb_spec k 0) as [E|E].
  { exists []. unfold request. cbn [length]. change (Z.of_nat 0) with 0. rewrite <- E, Ek. split; [reflexivity|]. split; [cbn; lia|]. split; [constructor|]. rewrite E. now split. }
  destruct (Z.ltb_spec 20 k); [reflexivity|]. destruct (Z.ltb_spec (Z.of_nat (length inp)) k); [reflexivity|].
  assert (Hl : length (firstn (Z.to_nat k) inp) = Z.to_nat k) by (rewrite length_firstn; lia).
  assert (Er : request (firstn (Z.to_nat k) inp) ++ skipn (Z.to_nat k) inp = c0 :: c1 :: inp).
  { unfold request. rewrite Hl, Z2Nat.id, Ek by lia. rewrite <- app_assoc, firstn_skipn. reflexivity. }
  rewrite iteration_body_spec by lia. fold (dec_value (firstn (Z.to_nat k) inp)). destruct (forallb is_digit _) eqn:Ed; [|reflexivity]. cbn [andb].
  destruct (Z.ltb_spec (dec_value (firstn (Z.to_nat k) inp)) (2 ^ 64)); [|reflexivity]. cbn [bind].
  exists (firstn (Z.to_nat k) inp). rewrite forallb_forall, <- Forall_forall in Ed. repeat split; [now symmetry|lia|exact Ed|assumption].
Qed.

(** ** The session of the 2-Wesolowski proofs *)

Lemma scan_unique seen x : forall a b c, snd (scan_seen seen x a b c) = negb (existsb (Z.eqb x) (map fst seen)).
Proof.
  induction seen as [|[i id] seen IH]; intros a b c; [reflexivity|]. cbn [scan_seen map fst existsb]. rewrite (Z.eqb_sym x i).
  destruct (a <? i); destruct (i =? x); cbn [orb negb]; trivial.
Qed.

(** For a new number the loop ends with the smallest. *)
Lemma scan_min seen x : existsb (Z.eqb x) (map fst seen) = false -> forall a b c, snd (fst (scan_seen seen x a b c)) = fold_left Z.min (map fst seen) c.
Proof.
  induction seen as [|[i id] seen IH]; intros Hx a b c; [reflexivity|]. cbn [map fst existsb] in Hx. apply orb_false_iff in Hx as [E Hx]. rewrite Z.eqb_sym in E. cbn [scan_seen map fst fold_left]. rewrite E.
  replace (if i <? c then i else c) with (Z.min c i) by (destruct (Z.ltb_spec i c); lia).
  destruct (a <? i); now apply IH.
Qed.

Lemma fold_min_perm l l' : Permutation l l' -> forall c, fold_left Z.min l c = fold_right Z.min c l'.
Proof.
  intros H c. rewrite (fold_symmetric Z.min Z.min_assoc c (Z.min_comm c)). induction H as [|x l l' _ IH|x y l|l m l' _ IH1 _ IH2]; cbn [fold_right]; trivial.
  - now rewrite IH.
  - now rewrite !Z.min_assoc, (Z.min_comm x y).
  - now rewrite IH1.
Qed.

(** The numbers the session wants to prove: the first of each, below the bound. *)
Definition too_big (x : Z) : bool := 2 ^ 64 - 499900 <=? x.
Definition wanted (l : list Z) : list Z := rev (nodup Z.eq_dec (rev (filter (fun x => negb (too_big x)) l))).

Lemma in_wanted x l : In x (wanted l) <-> In x l /\ too_big x = false.
Proof. unfold wanted. rewrite <- in_rev, nodup_In, <- in_rev, filter_In, negb_true_iff. reflexivity. Qed.

Lemma wanted_snoc l x : wanted (l ++ [x]) = if too_big x || existsb (Z.eqb x) (wanted l) then wanted l else wanted l ++ [x].
Proof.
  unfold wanted at 1. rewrite filter_app. cbn [filter]. destruct (too_big x) eqn:Eb; cbn [negb orb]; [now rewrite app_nil_r|].
  rewrite rev_app_distr. cbn [rev app nodup]. fold (wanted l). destruct (existsb (Z.eqb x) (wanted l)) eqn:E; destruct (in_dec Z.eq_dec x _) as [Hi|Hi]; trivial.
  - apply existsb_exists in E as (y & Hy & Exy). apply Z.eqb_eq in Exy as <-. unfold wanted in Hy. rewrite <- in_rev, nodup_In in Hy. contradiction.
  - enough (existsb (Z.eqb x) (wanted l) = true) by congruence. apply existsb_exists. exists x. rewrite Z.eqb_refl. split; [|reflexivity]. unfold wanted. now rewrite <- in_rev, nodup_In.
Qed.

Lemma combine_snoc {A B} (l : list A) (m : list B) a b : length l = length m -> combine (l ++ [a]) (m ++ [b]) = combine l m ++ [(a, b)].
Proof. revert m. induction l as [|x l IH]; intros [|y m] E; try discriminate; [reflexivity|]. cbn [app combine]. injection E as E. now rewrite IH. Qed.

Lemma map_fst_combine {A B} (l : list A) (m : list B) : length l = length m -> map fst (combine l m) = l.
Proof. revert m. induction l as [|x l IH]; intros [|y m] E; try discriminate; [reflexivity|]. cbn [combine map fst]. injection E as E. now rewrite IH. Qed.

(** A thread and its number. *)
Definition numbered (t : list Z) : list (Z * Z) := combine t (map Z.of_nat (seq 0 (length t))).

Lemma numbered_snoc t x : numbered (t ++ [x]) = numbered t ++ [(x, Z.of_nat (length t))].
Proof.
  unfold numbered. rewrite length_app. cbn [length]. rewrite Nat.add_1_r, seq_S, map_app. cbn [map]. rewrite Nat.add_0_l.
  apply combine_snoc. now rewrite length_map, length_seq.
Qed.

Lemma numbered_fst t : map fst (numbered t) = t.
Proof. unfold numbered. apply map_fst_combine. now rewrite length_map, length_seq. Qed.

(** The set of numbers and threads. *)
Definition set_sorted : list (Z * Z) -> Prop := StronglySorted (fun a b => pair_lt a b = true).

Lemma pair_lt_spec a b : pair_lt a b = true <-> fst a < fst b \/ fst a = fst b /\ snd a < snd b.
Proof. unfold pair_lt. rewrite orb_true_iff, andb_true_iff, !Z.ltb_lt, Z.eqb_eq. reflexivity. Qed.

Lemma pair_lt_total a b : pair_lt a b = false -> pair_lt b a = false -> a = b.
Proof.
  intros H1 H2. rewrite <- not_true_iff_false, pair_lt_spec in H1, H2. destruct a as [a1 a2], b as [b1 b2]. cbn [fst snd] in *. f_equal; lia.
Qed.

Lemma set_insert_perm x l : ~ In x l -> Permutation (set_insert x l) (x :: l).
Proof.
  induction l as [|y l IH]; intros H; [reflexivity|]. cbn [set_insert]. destruct (pair_lt x y) eqn:E1; [reflexivity|]. destruct (pair_lt y x) eqn:E2.
  - rewrite IH by (intros Hi; apply H; now right). apply perm_swap.
  - exfalso. apply H. left. now apply pair_lt_total.
Qed.

Lemma set_insert_in x z l : In z (set_insert x l) -> z = x \/ In z l.
Proof.
  induction l as [|y l IH]; cbn [set_insert]; [intros [H|[]]; now left|]. destruct (pair_lt x y); [intros [H|H]; auto|]. destruct (pair_lt y x); [|auto].
  intros [H|H]; [right; now left|]. destruct (IH H); [now left|right; now right].
Qed.

Lemma set_insert_sorted x l : set_sorted l -> set_sorted (set_insert x l).
Proof.
  induction 1 as [|y l Hs IH Hy]; cbn [set_insert]; [repeat constructor|]. destruct (pair_lt x y) eqn:E1.
  - constructor; [now constructor|]. constructor; [exact E1|]. eapply Forall_impl; [|exact Hy]. intros z Hz. cbn beta in Hz. rewrite pair_lt_spec in *. lia.
  - destruct (pair_lt y x) eqn:E2; [|now constructor]. constructor; [exact IH|]. apply Forall_forall. intros z Hz. apply set_insert_in in Hz as [->|Hz]; [exact E2|]. rewrite Forall_forall in Hy. now apply Hy.
Qed.

(** The state in which the threads are for the numbers [t]: only their flags have been written. *)
Definition two_state (junk : list bool) (t : list Z) (s : two_session) : Prop :=
  threads s = t /\ (length t <= 100)%nat /\ length junk = 100%nat /\ stop_vector s = repeat false (length t) ++ skipn (length t) junk /\ set_sorted (seen_iterations s) /\ Permutation (seen_iterations s) (numbered t).

Lemma existsb_perm {A} (f : A -> bool) l l' : Permutation l l' -> existsb f l = existsb f l'.
Proof.
  induction 1 as [|x l l' _ IH|x y l|l m l' _ IH1 _ IH2]; cbn [existsb]; trivial; [now rewrite IH| |now rewrite IH1].
  destruct (f x), (f y); reflexivity.
Qed.

Lemma skipn_cons_nth {A} n (l : list A) d : (n < length l)%nat -> skipn n l = nth n l d :: skipn (S n) l.
Proof. revert l. induction n as [|n IH]; intros [|a l] H; cbn in H; try lia; [reflexivity|]. cbn [skipn nth]. now rewrite (IH l) by lia. Qed.

Lemma update_flag junk n b : (n < length junk)%nat -> update (repeat false n ++ skipn n junk) n b = repeat false n ++ b :: skipn (S n) junk.
Proof.
  intros H. rewrite (skipn_cons_nth n junk false) by exact H. pose proof (update_mid (repeat false n) (skipn (S n) junk) (nth n junk false) b) as E. now rewrite repeat_length in E.
Qed.

(** A request: known numbers and too large ones are ignored, below 100 threads
    one is started, and with 100 threads a number that is not below all
    others is ignored too. *)
Lemma two_request_spec junk t s x : two_state junk t s -> 0 <= x < 2 ^ 64 ->
  if existsb (Z.eqb x) t || too_big x then two_request x s = Ok s
  else if (length t <? 100)%nat then exists s', two_request x s = Ok s' /\ two_state junk (t ++ [x]) s'
  else if x <? fold_right Z.min (2 ^ 62) t then two_request x s = Throw undefined_behaviour else two_request x s = Ok s.
Proof.
  intros (Ht & Hl & Hj & Hv & Hs & Hp) Hx. unfold two_request. pose proof (Permutation_map fst Hp) as Hp'. rewrite numbered_fst in Hp'.
  destruct (scan_seen (seen_iterations s) x 0 (2 ^ 64 - 1) (2 ^ 62)) as [[[mx id] mn] uniq] eqn:E.
  pose proof (scan_unique (seen_iterations s) x 0 (2 ^ 64 - 1) (2 ^ 62)) as Hu. rewrite E, (existsb_perm _ _ _ Hp') in Hu. cbn [snd] in Hu. rewrite Hu, negb_involutive.
  destruct (existsb (Z.eqb x) t) eqn:Ex; cbn [orb negb]; [reflexivity|]. change (u64 (kMaxProcessesAllowed - 500000)) with (2 ^ 64 - 499900). fold (too_big x). destruct (too_big x); [reflexivity|].
  pose proof (scan_min (seen_iterations s) x ltac:(now rewrite (existsb_perm _ _ _ Hp')) 0 (2 ^ 64 - 1) (2 ^ 62)) as Hm. rewrite E, (fold_min_perm _ _ Hp') in Hm. cbn [fst snd] in Hm. subst mn.
  rewrite Ht. change kMaxProcessesAllowed with 100. destruct (Nat.ltb_spec (length t) 100) as [Hn|Hn].
  - destruct (Z.ltb_spec (Z.of_nat (length t)) 100); [|lia]. cbn [orb]. unfold set_stop. destruct (Z.leb_spec 0 (Z.of_nat (length t))); [|lia]. destruct (Z.ltb_spec (Z.of_nat (length t)) 100); [|lia]. cbn [andb bind].
    rewrite length_app. cbn [length]. destruct (Z.ltb_spec 100 (Z.of_nat (length t + 1))); [lia|]. eexists. split; [reflexivity|]. split; [reflexivity|]. rewrite length_app. cbn [length stop_vector seen_iterations].
    split; [lia|]. split; [exact Hj|]. split; [rewrite Hv, Nat2Z.id, update_flag by lia; rewrite Nat.add_1_r; cbn [repeat]; now rewrite repeat_cons, <- app_assoc|]. split; [now apply set_insert_sorted|]. rewrite numbered_snoc, set_insert_perm; [now rewrite Hp, <- Permutation_cons_append|].
    intros Hi. apply (in_map fst) in Hi. apply (Permutation_in _ Hp') in Hi. enough (existsb (Z.eqb x) t = true) by congruence. apply existsb_exists. exists x. now rewrite Z.eqb_refl.
  - replace (length t) with 100%nat by lia. change (Z.of_nat 100 <? 100) with false. cbn [orb]. destruct (Z.ltb_spec x (fold_right Z.min (2 ^ 62) t)); reflexivity.
Qed.

Lemma stop_threads_spec v : forall i rest, (i + length v <= 100)%nat ->
  stop_threads (length v) (Z.of_nat i) (repeat true i ++ v ++ rest) = Ok (repeat true (i + length v) ++ rest).
Proof.
  induction v as [|b v IH]; intros i rest Hi; cbn [length app stop_threads] in *; [now rewrite Nat.add_0_r|]. unfold set_stop.
  destruct (Z.leb_spec 0 (Z.of_nat i)); [|lia]. destruct (Z.ltb_spec (Z.of_nat i) 100); [|lia]. cbn [andb bind]. rewrite Nat2Z.id.
  pose proof (update_mid (repeat true i) (v ++ rest) b true) as E. rewrite repeat_length in E. rewrite E, Z.add_1_r, <- Nat2Z.inj_succ.
  change (true :: v ++ rest) with ([true] ++ v ++ rest). rewrite app_assoc, <- repeat_cons. change (true :: repeat true i) with (repeat true (S i)). rewrite (IH (S i) rest ltac:(lia)). now rewrite Nat.add_succ_r.
Qed.

(** Among the wanted numbers after the first hundred one is below all of those. *)
Definition below (t : list Z) (x : Z) : bool := x <? fold_right Z.min (2 ^ 62) t.
Definition displaces (w : list Z) : bool := existsb (below (firstn 100 w)) (skipn 100 w).

Lemma wanted_prefix p l : exists tl, wanted (p ++ l) = wanted p ++ tl.
Proof.
  revert p. induction l as [|x l IH]; intros p; [exists []; now rewrite !app_nil_r|]. destruct (IH (p ++ [x])) as [tl E]. rewrite <- app_assoc in E. cbn [app] in E. rewrite E, wanted_snoc.
  destruct (too_big x || _); [now exists tl|]. exists (x :: tl). now rewrite <- app_assoc.
Qed.

Lemma firstn_full {A} n (w tl : list A) : (n <= length w)%nat -> firstn n (w ++ tl) = firstn n w /\ skipn n (w ++ tl) = skipn n w ++ tl.
Proof. intros H. rewrite firstn_app, skipn_app. replace (n - length w)%nat with O by lia. cbn [firstn skipn]. now rewrite app_nil_r. Qed.

(** One more number. *)
Lemma wanted_turn junk p s x : two_state junk (firstn 100 (wanted p)) s -> displaces (wanted p) = false -> 0 <= x < 2 ^ 64 ->
  match two_request x s with
  | Ok s' => two_state junk (firstn 100 (wanted (p ++ [x]))) s' /\ displaces (wanted (p ++ [x])) = false
  | Throw e => e = undefined_behaviour /\ displaces (wanted (p ++ [x])) = true
  end.
Proof.
  intros Hs Hd Hx. pose proof (two_request_spec _ _ s x Hs Hx) as Hr. rewrite wanted_snoc. set (w := wanted p) in *.
  destruct (Nat.ltb_spec (length w) 100) as [Hl|Hl].
  - rewrite (firstn_all2 w) in Hr, Hs by lia. rewrite orb_comm in Hr. destruct (too_big x || existsb (Z.eqb x) w); [rewrite Hr, firstn_all2 by lia; now split|].
    destruct (Nat.ltb_spec (length w) 100); [|lia]. destruct Hr as (s' & -> & Hs'). rewrite firstn_all2 by (rewrite length_app; cbn [length]; lia). split; [exact Hs'|].
    unfold displaces. rewrite (skipn_all2 (n := 100)) by (rewrite length_app; cbn [length]; lia). reflexivity.
  - destruct (firstn_full 100 w [x] Hl) as [E1 E2]. rewrite length_firstn, Nat.min_l in Hr by lia. cbn [Nat.ltb Nat.leb] in Hr.
    destruct (too_big x) eqn:Eb; [rewrite orb_true_r in Hr; rewrite Hr; now split|]. cbn [orb]. rewrite orb_false_r in Hr.
    destruct (existsb (Z.eqb x) (firstn 100 w)) eqn:Ef.
    + rewrite Hr. replace (existsb (Z.eqb x) w) with true; [now split|]. rewrite <- (firstn_skipn 100 w), existsb_app, Ef. reflexivity.
    + change (100 <? 100)%nat with false in Hr. cbn iota in Hr. fold (below (firstn 100 w) x) in Hr. destruct (existsb (Z.eqb x) w) eqn:Ew.
      * replace (below (firstn 100 w) x) with false in Hr; [rewrite Hr; now split|]. symmetry. apply not_true_iff_false. intros Hb. rewrite <- (firstn_skipn 100 w), existsb_app, Ef in Ew. cbn [orb] in Ew.
        apply existsb_exists in Ew as (y & Hy & E). apply Z.eqb_eq in E as <-. enough (displaces w = true) by congruence. apply existsb_exists. now exists x.
      * unfold displaces. rewrite E1, E2, existsb_app. fold (displaces w). rewrite Hd. cbn [existsb orb]. rewrite orb_false_r. destruct (below (firstn 100 w) x); rewrite Hr; now split.
Qed.

(** The text of a number of iterations. *)
Definition iteration_ok (ds : bytes) : Prop := (length ds <= 20)%nat /\ Forall (fun c => is_digit c = true) ds /\ 0 < dec_value ds < 2 ^ 64.

Lemma iteration_ok_read ds rest : iteration_ok ds -> ReadIteration (request ds ++ rest) = Ok (dec_value ds, rest).
Proof. intros (Hl & Hd & Hv). apply read_iteration_ok. exists ds. repeat split; trivial; lia. Qed.

Lemma displaces_more p l : displaces (wanted p) = true -> displaces (wanted (p ++ l)) = true.
Proof.
  intros H. destruct (wanted_prefix p l) as [tl ->]. assert (100 <= length (wanted p))%nat.
  { destruct (Nat.le_gt_cases 100 (length (wanted p))); [assumption|]. unfold displaces in H. now rewrite (skipn_all2 (n := 100)) in H by lia. }
  destruct (firstn_full 100 (wanted p) tl ltac:(assumption)) as [E1 E2]. unfold displaces. rewrite E1, E2, existsb_app. fold (displaces (wanted p)). now rewrite H.
Qed.

Lemma two_loop_run junk rest fuel l : Forall iteration_ok l -> forall p s, two_state junk (firstn 100 (wanted p)) s -> displaces (wanted p) = false ->
  let w := wanted (p ++ map dec_value l) in
  let run := two_loop (length l + fuel) (flat_map request l ++ rest) s in
  if displaces w then run = Throw undefined_behaviour else exists s', two_state junk (firstn 100 w) s' /\ run = two_loop fuel rest s'.
Proof.
  induction 1 as [|ds l Hds _ IH]; intros p s Hs Hd; cbn zeta.
  { cbn [map flat_map length app Nat.add]. rewrite app_nil_r, Hd. now exists s. }
  cbn [map flat_map length Nat.add]. rewrite <- app_assoc. cbn [two_loop]. rewrite iteration_ok_read by exact Hds. cbn [bind]. destruct Hds as (_ & _ & Hv).
  destruct (Z.eqb_spec (dec_value ds) 0); [lia|]. pose proof (wanted_turn junk p s (dec_value ds) Hs Hd ltac:(lia)) as Ht.
  replace (p ++ dec_value ds :: map dec_value l) with ((p ++ [dec_value ds]) ++ map dec_value l) by now rewrite <- app_assoc.
  destruct (two_request (dec_value ds) s) as [s'|e]; cbn [bind].
  - destruct Ht as [Hs' Hd']. now apply IH.
  - destruct Ht as [-> Hd']. now rewrite displaces_more.
Qed.

Lemma two_start_state junk : length junk = 100%nat -> two_state junk [] (two_start junk).
Proof. intros H. repeat split; cbn; try lia; constructor. Qed.

(** ** The opening of a session and the proofs *)

Lemma asio_exact n a b : n = Z.of_nat (length a) -> asio_read n (a ++ b) = (a, false, b).
Proof.
  intros ->. unfold asio_read. rewrite Nat2Z.id, firstn_app, skipn_app, firstn_all, skipn_all, Nat.sub_diag, length_app. cbn [firstn skipn app]. rewrite app_nil_r.
  destruct (Z.ltb_spec (Z.of_nat (length a + length b)) (Z.of_nat (length a))); [lia|reflexivity].
Qed.

Lemma asio_short n inp : Z.of_nat (length inp) < n -> asio_read n inp = (inp, true, []).
Proof. intros H. unfold asio_read. rewrite firstn_all2, skipn_all2 by lia. destruct (Z.ltb_spec (Z.of_nat (length inp)) n); [reflexivity|lia]. Qed.

Lemma firstn_past {A} k (a b : list A) : (length a <= k)%nat -> firstn k (a ++ b) = a ++ firstn (k - length a) b.
Proof. intros H. rewrite firstn_app. now rewrite firstn_all2. Qed.

Lemma atoi_digits_ok ds : Forall (fun c => is_digit c = true) ds -> forall n, atoi_digits ds n = fold_left (fun n c => 10 * n + (c - 48)) ds n.
Proof. induction 1 as [|c ds Hc _ IH]; intros n; [reflexivity|]. cbn [atoi_digits fold_left]. rewrite Hc. apply IH. Qed.

Lemma atoi_three k : 0 <= k <= 999 -> atoi (three_digits k) = k.
Proof.
  intros Hk. pose proof (Z.div_mod k 10 ltac:(lia)). pose proof (Z.mod_pos_bound k 10 ltac:(lia)). pose proof (Z.div_mod (k / 10) 10 ltac:(lia)). pose proof (Z.mod_pos_bound (k / 10) 10 ltac:(lia)).
  assert (E : k / 100 = k / 10 / 10) by (rewrite Z.div_div by lia; reflexivity).
  assert (Hc : exists c, 48 + k / 100 = c /\ (c = 48 \/ c = 49 \/ c = 50 \/ c = 51 \/ c = 52 \/ c = 53 \/ c = 54 \/ c = 55 \/ c = 56 \/ c = 57)) by (exists (48 + k / 100); lia). destruct Hc as (c & Ec & Hc).
  assert (Ea : atoi (three_digits k) = atoi_digits (three_digits k) 0) by (unfold atoi, three_digits; rewrite Ec; repeat (destruct Hc as [->|Hc]; [reflexivity|]); now rewrite Hc).
  rewrite Ea, atoi_digits_ok by (repeat constructor; apply is_digit_spec; lia). unfold three_digits. cbn [fold_left]. lia.
Qed.

(** The message that opens a session, behind the type that the timelord's
    [challenge_text] starts with. *)
Definition opening (d f : bytes) : bytes := three_digits (Z.of_nat (length d)) ++ d ++ [Z.of_nat (length f)] ++ f.

(** The proof that the hardware client sends is what [WriteProof] writes. *)
Lemma message_write_proof p l : length (p_y p) = 100%nat -> length (p_proof p) = 100%nat -> Forall (fun q => length (p_B q) = 33%nat /\ length (p_proof q) = 100%nat) l ->
  message p l = WriteProof (p_iters p) (mkProof (p_y p) (p_proof p ++ flat_map vdf_proof_segm l) (Z.of_nat (length l))).
Proof.
  intros Hy Hp Hl. assert (Ls : length (flat_map vdf_proof_segm l) = (141 * length l)%nat).
  { induction Hl as [|q l [Hb Hq] _ IH]; [reflexivity|]. cbn [flat_map length]. unfold vdf_proof_segm at 1. rewrite !length_app, Int64ToBytes_length, Hb, Hq, IH. lia. }
  unfold message, WriteProof, VectorAppend, VectorAppendArray, reply, proof_data. cbn [pr_y pr_proof witness_type app]. rewrite Hy, !firstn_all2 by (rewrite Int64ToBytes_length; lia). fold (tl_enc_hex ((Int64ToBytes (p_iters p) ++ Int64ToBytes (Z.of_nat 100)) ++ p_y p)).
  change (Z.of_nat 100) with BQFC_FORM_SIZE. rewrite <- !app_assoc. cbn [app].
  match goal with |- _ = _ ++ text (BytesToStr ?b) => assert (Lb : length b = (217 + 141 * length l)%nat) by (rewrite !length_app; cbn [length]; rewrite !length_app, !Int64ToBytes_length, Hy, Hp, Ls; lia) end.
  unfold tl_enc_hex. do 2 f_equal. rewrite text_length, BytesToStr_length, Lb. change PROOF_SIZE with 217. change SEGM_SIZE with 141. lia.
Qed.

(** C29: which bytes [ReadIteration] accepts: exactly the texts of a
    two-digit length of at most 20, that many decimal digits (none for 0), and a value below 2^64, with the
    bytes behind them left in the socket; leading zeros count. For everything
    else (a header or a body that is not of digits or is cut off, a length
    above 20, an overflow) it throws, and nothing else is thrown. *)
Theorem iteration_read inp :
  (forall v rest, ReadIteration inp = Ok (v, rest) <-> iteration_text inp v rest) /\ (forall e, ReadIteration inp = Throw e -> e = runtime_error).
Proof.
  pose proof (read_iteration_inv inp) as H. split.
  - intros v rest. split; [|apply read_iteration_ok]. intros E. now rewrite E in H.
  - intros e E. now rewrite E in H.
Qed.

(** C27: which numbers of iterations a session of 2-Wesolowski proofs
    works on, for any numbers [l] the timelord sends before it stops the
    session. The numbers wanted are the first of each that is below
    2^64 - 499900, the bound which the comparison with a negative constant gives. A thread is started
    for each of the first hundred, in order, whatever the others are; the set of numbers and
    threads is sorted and is exactly of those; all these threads' flags are set
    at the stop, the other places of the uninitialised [stop_vector] are left alone, and what follows it is not read. But a later number below these
    hundred and 2^62, for which the code means to stop the largest, writes behind the end of [stop_vector]. *)
Theorem two_session_requests junk fuel l stop rest :
  length junk = 100%nat ->   Forall iteration_ok l -> (length stop <= 20)%nat -> Forall (fun c => is_digit c = true) stop -> dec_value stop = 0 ->
  let w := wanted (map dec_value l) in
  let t := firstn 100 w in
  let run := two_loop (length l + fuel) (flat_map request l ++ request stop ++ rest) (two_start junk) in
  (Exists (fun x => x < fold_right Z.min (2 ^ 62) t) (skipn 100 w) -> run = Throw undefined_behaviour) /\
  (Forall (fun x => fold_right Z.min (2 ^ 62) t <= x) (skipn 100 w) ->
     exists seen, run = Ok (mktwo t (repeat true (length t) ++ skipn (length t) junk) seen, rest) /\ set_sorted seen /\ Permutation seen (numbered t)).
Proof.
  intros Hj Hl Hn Hd Hz w t run. pose proof (two_loop_run junk (request stop ++ rest) fuel l Hl [] (two_start junk) (two_start_state junk Hj) eq_refl) as Hr. cbn zeta in Hr. cbn [app] in Hr. fold w t run in Hr. split.
  - intros H. replace (displaces w) with true in Hr; [exact Hr|]. symmetry. apply existsb_exists. apply Exists_exists in H as (x & Hx & Hb). exists x. split; [exact Hx|]. now apply Z.ltb_lt.
  - intros H. replace (displaces w) with false in Hr.
    2: { symmetry. apply not_true_iff_false. intros E. apply existsb_exists in E as (x & Hx & Hb). rewrite Forall_forall in H. specialize (H x Hx). apply Z.ltb_lt in Hb. fold t in Hb. lia. }
    destruct Hr as ([th v seen] & (Ht & Hlen & _ & Hv & Hs & Hp) & ->). cbn [threads stop_vector seen_iterations] in *. subst th v. exists seen. split; [|now split].
    assert (E : ReadIteration (request stop ++ rest) = Ok (0, rest)) by (apply read_iteration_ok; exists stop; repeat split; trivial; lia).
    pose proof (stop_threads_spec (repeat false (length t)) 0 (skipn (length t) junk)) as Es. rewrite repeat_length in Es. specialize (Es ltac:(lia)). cbn [repeat app Nat.add] in Es. change (Z.of_nat 0) with 0 in Es. destruct fuel; cbn [two_loop]; rewrite E; cbn [bind]; rewrite Z.eqb_refl; cbn [threads stop_vector seen_iterations]; now rewrite Es.
Qed.

(** Two numbers, the first twice; and a hundred numbers with a smaller one. *)
Lemma two_session_requests_witness :
  (exists seen, two_loop 3 (text "017017015000") (two_start (repeat false 100)) = Ok (mktwo [7; 5] ([true; true] ++ repeat false 98) seen, text "0") /\ Permutation seen [(7, 0); (5, 1)]) /\
  two_loop 101 (flat_map (fun n => request [49; 48 + n / 10; 48 + n mod 10]) (map Z.of_nat (seq 0 100)) ++ text "01900") (two_start (repeat false 100)) = Throw undefined_behaviour.
Proof.
  assert (Hok : forall ds, (length ds <= 20)%nat -> forallb is_digit ds = true -> (0 <? dec_value ds) && (dec_value ds <? 2 ^ 64) = true -> iteration_ok ds).
  { intros ds Hl Hd Hv. rewrite forallb_forall, <- Forall_forall in Hd. rewrite andb_true_iff, !Z.ltb_lt in Hv. now repeat split. }
  split.
  - destruct (two_session_requests (repeat false 100) 0 [[55]; [55]; [53]] [] [48] eq_refl ltac:(repeat constructor; lia) ltac:(cbn; lia) ltac:(constructor) eq_refl) as [_ H].
    specialize (H ltac:(constructor)) as (seen & E & Hs & Hp). exists seen. split; [exact E|exact Hp].
  - pose (l := map (fun n => [49; 48 + n / 10; 48 + n mod 10]) (map Z.of_nat (seq 0 100)) ++ [[57]]).
    assert (Hl : Forall iteration_ok l) by (repeat (constructor; [apply Hok; [cbn; lia|reflexivity|reflexivity]|]); constructor).
    destruct (two_session_requests (repeat false 100) 0 l [] [] eq_refl Hl ltac:(cbn; lia) ltac:(constructor) eq_refl) as [H _].
    apply H. vm_compute. apply Exists_cons_hd. reflexivity.
Defined.

(** How a session is opened. From the message of the timelord (the
    length of the discriminant in three digits, the discriminant, the size of the form and the
    form) [InitSession] reads the discriminant and the form, padded with zeros to
    its array, and leaves what follows in the socket; when the connection closes anywhere
    inside the message it throws; and it throws at once for a length over
    349, and for a size of the form that is 0, over 100, or negative as a signed character. *)
Theorem session_opened d f rest :
  (0 < length d <= 999)%nat -> (length f < 256)%nat ->
  ((length d < 350)%nat /\ (0 < length f <= 100)%nat ->
     InitSession (opening d f ++ rest) = Ok (d, f ++ repeat 0 (100 - length f), rest) /\
     forall k, (k < length (opening d f))%nat -> InitSession (firstn k (opening d f)) = Throw runtime_error) /\
  ((350 <= length d)%nat \/ length f = 0%nat \/ (100 < length f)%nat -> InitSession (opening d f ++ rest) = Throw runtime_error).
Proof.
  intros Hd Hf. pose proof (atoi_three (Z.of_nat (length d)) ltac:(lia)) as Ea.
  assert (E3 : forall r, asio_read 3 (three_digits (Z.of_nat (length d)) ++ r) = (three_digits (Z.of_nat (length d)), false, r)) by (intros r; now apply asio_exact).
  assert (E1 : forall r, asio_read 1 ([Z.of_nat (length f)] ++ r) = ([Z.of_nat (length f)], false, r)) by (intros r; now apply asio_exact).
  assert (Ed : forall r, asio_read (Z.of_nat (length d)) (d ++ r) = (d, false, r)) by (intros r; now apply asio_exact).
  unfold DISC_SIZE, opening. split.
  - intros [Hd' Hf']. assert (Es : schar (Z.of_nat (length f)) = Z.of_nat (length f)) by (unfold schar; destruct (Z.leb_spec 128 (Z.of_nat (length f))); lia).
    assert (Hb : (Z.of_nat (length d) <=? 0) || (350 <=? Z.of_nat (length d)) = false) by (apply orb_false_iff; rewrite !Z.leb_gt; lia).
    assert (Hc : (Z.of_nat (length f) <=? 0) || (BQFC_FORM_SIZE <? Z.of_nat (length f)) = false) by (apply orb_false_iff; rewrite Z.leb_gt, Z.ltb_ge; change BQFC_FORM_SIZE with 100; lia).
    split.
    + unfold InitSession, DISC_SIZE. rewrite <- !app_assoc, E3, Ea, Hb, Ed, E1. cbn [nth]. rewrite Es, Hc, (asio_exact _ f rest) by reflexivity. do 4 f_equal. change BQFC_FORM_SIZE with 100. f_equal. lia.
    + intros k. rewrite !length_app. cbn [length]. change (length (three_digits (Z.of_nat (length d)))) with 3%nat. intros Hk. unfold InitSession, DISC_SIZE.
      destruct (Nat.lt_ge_cases k 3) as [H3|H3]; [rewrite asio_short; [reflexivity|rewrite length_firstn; lia]|].
      rewrite firstn_past, E3, Ea, Hb by (cbn; lia). change (length (three_digits (Z.of_nat (length d)))) with 3%nat.
      destruct (Nat.lt_ge_cases (k - 3) (length d)) as [H4|H4]; [rewrite asio_short; [reflexivity|rewrite length_firstn; lia]|]. rewrite firstn_past, Ed by lia.
      destruct (Nat.eq_dec (k - 3 - length d) 0) as [->|H5]; [reflexivity|]. rewrite firstn_past, E1 by (cbn; lia). cbn [nth length]. rewrite Es, Hc.
      rewrite asio_short; [reflexivity|]. rewrite length_firstn. lia.
  - intros Hbad. unfold InitSession, DISC_SIZE. rewrite <- !app_assoc, E3, Ea. destruct (Z.leb_spec (Z.of_nat (length d)) 0); [lia|]. destruct (Z.leb_spec 350 (Z.of_nat (length d))); [reflexivity|]. cbn [orb]. rewrite Ed, E1. cbn [nth].
    replace ((schar (Z.of_nat (length f)) <=? 0) || (BQFC_FORM_SIZE <? schar (Z.of_nat (length f)))) with true; [reflexivity|]. symmetry. apply orb_true_iff. rewrite Z.leb_le, Z.ltb_lt. change BQFC_FORM_SIZE with 100.
    unfold schar. destruct (Z.leb_spec 128 (Z.of_nat (length f))); lia.
Qed.

(** A discriminant of two bytes, a form of three, and what follows. *)
Lemma session_opened_witness : InitSession (text "002-7" ++ [3; 8; 0; 1] ++ text "0210") = Ok (text "-7", [8; 0; 1] ++ repeat 0 97, text "0210").
Proof.
  apply (session_opened (text "-7") [8; 0; 1] (text "0210") ltac:(cbn; lia) ltac:(cbn; lia)). cbn. lia.
Defined.
